(* ===== verification/_CoqProject ===== *)
-Q . S2P
Prelude.v
GoSort.v
Words.v
Floats.v
Model.v
Updates.v
Rbuf.v
Bitpack.v
Encoding.v
Page.v
Column.v
Table.v
Schedule.v
Footer.v
File.v
Reader.v
Heap.v
Ring.v
Wheel.v
Arena.v
Ops.v
Extract.v
Fsst.v
Batch.v
Jump.v
Control.v
Elastic.v
Dns.v
Handoff.v
Replica.v
Router.v
Signal.v
StoreLog.v
Store.v
StoreSpec.v
SeenSet.v
Ribbon.v
GoStrings.v
Manifest.v
Politeness.v
Robots.v
Admission.v
TrapDetect.v
NearDup.v
Frontier.v
Sitemap.v
FrontierSched.v
FrontierSim.v
World.v
FrontierSpec.v
FrontierPolite.v
FrontierGaps.v
FrontierRecover.v
FrontierDrain.v
