(* ===== verification/Prelude.v ===== *)
(** * meguri: a verified model of a web crawl frontier

    meguri (the Go module under src/) is a crawl frontier: it remembers every URL a crawler
    has met, decides which one to fetch next, keeps the requests to each host polite, and
    keeps that state on disk and spread over machines. This library models its code in Gallina
    and proves what the code means to do. A definition carries the name of the Go function
    it translates where Rocq allows it; a function that changes state takes it and returns
    it; the error of a Go function is the [Err] of [res] below; a run-time panic is the
    error [GoPanic], so that a theorem can say that it does not happen.

    ** The parts, bottom up

    Shared: this file (results, tactics, hint databases, lists, sort.Search), [Words]
    (machine words, varints, zigzag), [Floats] (float64 arithmetic and its bounds), [GoSort]
    (sort.Slice), [GoStrings] (package strings), [Updates] (field assignment).

    Data and file format. [Model] is urlkey.go, record.go, message.go and signal.go. Under
    format/: [Rbuf] is buf.go, [Bitpack] and [Encoding] encoding.go, [Page] header.go, page.go
    and codec.go, [Column] column.go, [Table] table.go, [Schedule] schedule.go, [Footer]
    footer.go, [File] file.go, blob.go, seenset.go and partition.go, [Reader] reader.go (columns
    read without decoding the file), [Arena] blob.go and dict.go, [Ops] ops.go, [Extract] extract.go, [Fsst] fsst.go, [Manifest] inspect.go and
    manifest.go (the catalog of a fleet's files). A partition is laid
    out as column pages under checksums, with a footer that says where everything is.

    Durable store. [StoreLog] is store/codec.go, log.go and superblock.go; [Store] store.go;
    [StoreSpec] states the abstract store (a map behind a journal) and proves that the code
    refines it, over operations, crashes and checkpoints.

    Admission. [SeenSet] is dedup/filter.go, drum.go and seenset.go; [Ribbon] dedup/ribbon.go
    and serialize.go; [Admission] dedup/trap.go and content.go; [NearDup] dedup/neardup.go;
    [TrapDetect] dedup/trapdetect.go; [Robots] robots/robots.go;
    [Politeness] politeness/politeness.go and iptable.go; [Sitemap] sitemap/sitemap.go and intake.go. [Dns] is dns/dns.go, the resolver cache
    with its prefetch pool.

    Frontier. [Heap], [Wheel] and [Ring] are frontier/heap.go, wheel.go and ring.go.
    [Frontier] is frontier.go, state.go, m3.go, m4.go, m5.go, shard.go and split.go: the
    record map, the host entries with their back queues, the front bank, the three host pools
    and the due wheel, and the operations Seed, Discover, Warm, Import, Dispatch, Report,
    Drain, Checkpoint and Recover. [FrontierSched] is the abstract scheduler, [FrontierSim] the
    simulation of it by each operation, [FrontierSpec] the refinement over whole runs, and
    [FrontierPolite], [FrontierDrain], [FrontierRecover] and [FrontierGaps] what follows from it
    or falls short of it. [World] has concrete collaborators for the witnesses to run in.

    Distribution, under distribute/. [Jump] is the jump hash and the ownership map of map.go;
    [Control] rendezvous.go, control.go and failover.go, the plane that owns the map, and
    [Elastic] elasticity.go, the loop that resizes it; [Handoff] rebalance.go and handoff.go
    over [Extract]; [Replica] replicate.go; [Batch] batch.go over [Fsst]; [Router] router.go and
    transport.go; [Signal] signal.go.

    ** How they interact

    A discovery reaches [Router], which sends it (in the bytes of [Batch]) to the partition that
    [Jump] says owns its host. There Frontier.Discover asks the admission and seen-set
    code, makes a URLRecord, and files it in the ring, the wheel or a back queue. A dispatch
    spends the politeness tokens of a host and of its address; a report adapts the host's
    interval and files the URL again. The records and host records are a [Partition], which
    [File] writes and reads back, [Store] snapshots and journals, [Ops] compacts and
    splits, [Handoff] ships to a new owner and [Replica] rebuilds from a snapshot and a tail.

    ** What the theorems show

    - Round trips: keys, value encodings, headers, pages, column regions, footers, whole files,
      arenas, log values, filter blobs, FSST arenas, discovery batches.
    - Detection: one altered byte anywhere in a file is an error; a torn log or superblock
      write leaves the state before it.
    - Agreement: the column reader answers what decoding the file and projecting it gives; the
      civil-date arithmetic is the Gregorian calendar; a manifest routes a key to its owner; a
      sitemap yields the locations its document lists.
    - Refinement: the heaps, ring and wheel are queues; the seen-set is a set; the near-duplicate index has exact
      recall; the trap detector counts distinct URLs; the resolver cache reports the last answer; the store is a
      journalled map; the frontier is the scheduler of [FrontierSched]; a replica is the
      replay of the journal it was sent.
    - Safety and invariants of the frontier: nothing queued twice, pools and active count
      exact, requests to a host or an address spaced by the interval in force.
    - Liveness: the drain loop ends with every URL settled.
    - Distribution: hosts move only to a new bucket when one is added, no handoff loses a
      host, a fail-over promotes exactly the partitions of the lost machine, the elastic loop
      stays in its band and cools down, every routed link arrives once at its owner, and the
      newest import wins.
    - Behaviours that fall short of the source's comments are proved as such, on concrete runs.

    ** Conventions and bounds

    Integers are [Z]; a fixed-width one is reduced at each operation that can leave its width
    (u8 .. u64, i64), and [fits] states its range. Bytes are [Z] below 256. A float32 is its bit
    pattern; the float64 arithmetic modelled (politeness, jump hash) is SpecFloat's at
    precision 53. Maps are gmap, and what depends on Go's iteration order takes the order as
    an argument or is proved independent of it. A loop that is not structural runs on
    fuel: a bound that its progress cannot exceed, with a theorem that it is enough (the
    error [OutOfFuel] never comes out). Sizes are bounded where Go's int would overflow.

    ** Parameters

    Code that is not in the repository is a class with its documented laws: xxHash64
    ([XXHash]), zstd ([BlockCodec]), Unicode tables, the public-suffix and URL packages behind
    canonicalization ([Canon]), the resolver, sort.Slice ([GoSort]), transports. So are policies
    computed in float64 that the frontier only consults: importance ([Prio]), freshness
    ([Fresh]), and the filter sizes; trap patterns are the class [Traps], whose instance from
    the code is [detector_traps]. Each has a concrete instance that
    the witnesses use.

    ** Not modelled

    Goroutines and locks (operations are serialized, as the locks make them; the steps of
    [Dns] interleave at its lock and channel operations; Store.Intern,
    which is not, is modelled in its two steps, and a full channel is the outcome [Blocked]); operating-system errors
    other than a crash; the HTTP fetcher, the system resolver, the XML decoder, the engine's worker loops, the
    command line, benchmarks and reports; the float64 estimators of freshness and importance;
    URL canonicalization; the text that an inspection prints. *)

From stdpp Require Export base tactics decidable option list numbers sorting.
From stdpp Require Export fin_maps gmap.
From Stdlib Require Export ZArith Lia.

#[global] Set Default Goal Selector "!".
Declare Scope meguri_scope.
Delimit Scope meguri_scope with meg.
Open Scope Z_scope.

(** ** Errors

    The sentinel errors of format/errors.go and of the packages that read bytes,
    plus [GoPanic], the outcome of an operation on which Go's runtime panics (a
    slice bound or an index out of range).  A panic is never a value in the
    source; the model makes it one so that a theorem can say it does not
    happen.  [OutOfFuel] is likewise not a value of the source: it is the outcome of a
    loop of the model whose bound on the number of turns was too small, and
    [OutOfMemory] that of an allocation past Go's limit. *)
Inductive gerr :=
  | ErrBadMagic | ErrShortFile | ErrCorrupt | ErrChecksum | ErrUnsupported
  | ErrNotSorted | ErrDecompress | ErrTornFrame | ErrNoCheckpoint | ErrBadBlob
  | ErrTransport | GoPanic | OutOfFuel | OutOfMemory.

#[export] Instance gerr_eq_dec : EqDecision gerr.
Proof. solve_decision. Defined.

(** The result of a fallible Go function: the [(value, error)] pair, of which a
    caller reads the value only when the error is nil. *)
Inductive res (A : Type) :=
  | Ok (a : A)
  | Err (e : gerr).
Arguments Ok {_} _.
Arguments Err {_} _.

#[export] Instance res_ret : MRet res := fun A => @Ok A.
#[export] Instance res_bind : MBind res := fun A B f m =>
  match m with Ok a => f a | Err e => Err e end.
#[export] Instance res_fmap : FMap res := fun A B f m =>
  match m with Ok a => Ok (f a) | Err e => Err e end.

(** [guard] for [res]: fail with [e] unless the condition holds. *)
Definition ensure (c : bool) (e : gerr) : res unit := if c then Ok tt else Err e.

Lemma res_bind_ok {A B} (m : res A) (f : A -> res B) b :
  m ≫= f = Ok b -> exists a, m = Ok a /\ f a = Ok b.
Proof. destruct m; simpl; [eauto | discriminate]. Qed.

(** Go's [make] of [n] elements of [size] bytes: past 2^48 bytes it panics. *)
Definition make_ok (n size : Z) : bool := (0 <=? n) && (n * size <=? 2 ^ 48).

(** ** Automation *)

(** Rewrites an [if] whose condition is decided by arithmetic in context. *)
Ltac bool_lia :=
  repeat match goal with
  | |- context [?a <? ?b] =>
      first [ rewrite (proj2 (Z.ltb_lt a b)) by lia
            | rewrite (proj2 (Z.ltb_ge a b)) by lia ]
  | |- context [?a <=? ?b] =>
      first [ rewrite (proj2 (Z.leb_le a b)) by lia
            | rewrite (proj2 (Z.leb_gt a b)) by lia ]
  | |- context [?a =? ?b] =>
      first [ rewrite (proj2 (Z.eqb_eq a b)) by lia
            | rewrite (proj2 (Z.eqb_neq a b)) by lia ]
  end.

(** Turns the boolean comparisons of the context into propositions. *)
Ltac bool_prop :=
  repeat match goal with
  | H : (_ && _)%bool = true |- _ => apply andb_true_iff in H as [? ?]
  | H : (_ || _)%bool = false |- _ => apply orb_false_iff in H as [? ?]
  | H : negb _ = true |- _ => apply negb_true_iff in H
  | H : negb _ = false |- _ => apply negb_false_iff in H
  | H : (_ <? _) = true |- _ => apply Z.ltb_lt in H
  | H : (_ <? _) = false |- _ => apply Z.ltb_ge in H
  | H : (_ <=? _) = true |- _ => apply Z.leb_le in H
  | H : (_ <=? _) = false |- _ => apply Z.leb_gt in H
  | H : (_ =? _) = true |- _ => apply Z.eqb_eq in H
  | H : (_ =? _) = false |- _ => apply Z.eqb_neq in H
  | H : (_ <? _)%nat = true |- _ => apply Nat.ltb_lt in H
  | H : (_ <? _)%nat = false |- _ => apply Nat.ltb_ge in H
  | H : (_ <=? _)%nat = true |- _ => apply Nat.leb_le in H
  | H : (_ <=? _)%nat = false |- _ => apply Nat.leb_gt in H
  | H : (_ =? _)%nat = true |- _ => apply Nat.eqb_eq in H
  | H : (_ =? _)%nat = false |- _ => apply Nat.eqb_neq in H
  end.

(** [lia] over quotients and remainders by constants. *)
Ltac divmod := Z.div_mod_to_equations; lia.

(** Hint databases: [words] holds the range facts of the machine integers,
    [reads] the round trips of the sequential byte reader. *)
Create HintDb words discriminated.
Create HintDb reads discriminated.

(** ** Lists *)

(** [slice l i j] is Go's [l[i:j]] for bounds already checked. *)
Definition slice {A} (l : list A) (i j : nat) : list A := take (j - i) (drop i l).

Lemma slice_app_exact {A} (a b c : list A) :
  slice (a ++ b ++ c) (length a) (length a + length b) = b.
Proof.
  unfold slice. rewrite drop_app_length.
  replace (length a + length b - length a)%nat with (length b) by lia.
  apply take_app_length.
Qed.

Lemma slice_length {A} (l : list A) i j :
  (i <= j <= length l)%nat -> length (slice l i j) = (j - i)%nat.
Proof. intros ?. unfold slice. rewrite length_take, length_drop. lia. Qed.

Lemma drop_app_exact {A} (a b : list A) n : n = length a -> drop n (a ++ b) = b.
Proof. intros ->. apply drop_app_length. Qed.

Lemma take_app_exact {A} (a b : list A) n : n = length a -> take n (a ++ b) = a.
Proof. intros ->. apply take_app_length. Qed.

(** Sum of a list of integers. *)
Definition zsum (l : list Z) : Z := foldr Z.add 0 l.

Lemma zsum_app a b : zsum (a ++ b) = zsum a + zsum b.
Proof. induction a as [|x a IH]; simpl; [done | unfold zsum in *; simpl; lia]. Qed.

(** Two lists with the same lookups are equal; kept for index arguments. *)
Lemma list_eq_nth {A} (d : A) (l1 l2 : list A) :
  length l1 = length l2 ->
  (forall i, (i < length l1)%nat -> nth i l1 d = nth i l2 d) -> l1 = l2.
Proof.
  revert l2. induction l1 as [|x l1 IH]; intros [|y l2] Hlen Hnth; try (simpl in Hlen; lia).
  - done.
  - f_equal.
    + apply (Hnth 0%nat). simpl; lia.
    + apply IH; [simpl in Hlen; lia |]. intros i Hi. apply (Hnth (S i)). simpl; lia.
Qed.

Lemma nth_lookup_default {A} (l : list A) i d : nth i l d = default d (l !! i).
Proof. revert i. induction l as [|x l IH]; intros [|i]; simpl; auto. Qed.

Lemma slice_insert_out {A} (l : list A) i j k (y : A) :
  (k < i \/ j <= k)%nat -> slice (<[k := y]> l) i j = slice l i j.
Proof.
  intros H. unfold slice. destruct (decide (k < i)%nat).
  - by rewrite drop_insert_lt by lia.
  - rewrite drop_insert_ge by lia. by rewrite take_insert_ge by lia.
Qed.

Lemma slice_insert_in {A} (l : list A) i j k (y : A) :
  (i <= k < j)%nat -> slice (<[k := y]> l) i j = <[(k - i)%nat := y]> (slice l i j).
Proof.
  intros H. unfold slice. rewrite drop_insert_ge by lia. by rewrite take_insert_lt by lia.
Qed.

Lemma slice_lookup {A} (l : list A) i j k x :
  l !! k = Some x -> (i <= k < j)%nat -> slice l i j !! (k - i)%nat = Some x.
Proof.
  intros Hl H. unfold slice. rewrite lookup_take_lt by lia. rewrite lookup_drop.
  by replace (i + (k - i))%nat with k by lia.
Qed.

Lemma list_insert_neq {A} (l : list A) i x y :
  l !! i = Some x -> x <> y -> <[i := y]> l <> l.
Proof.
  intros Hl Hne E. apply (f_equal (.!! i)) in E.
  rewrite list_lookup_insert_eq in E by (by eapply lookup_lt_Some). congruence.
Qed.

(** *** Tagged lists and scans *)

(** The values tagged [b] in a list of tagged values, in order. *)
Definition at_bucket {T} (b : Z) (s : list (Z * T)) : list T := (filter (fun e => e.1 = b) s).*2.

Lemma at_bucket_app {T} b (s1 s2 : list (Z * T)) : at_bucket b (s1 ++ s2) = at_bucket b s1 ++ at_bucket b s2.
Proof. unfold at_bucket. by rewrite filter_app, fmap_app. Qed.

Lemma at_bucket_cons {T} b e (s : list (Z * T)) :
  at_bucket b (e :: s) = (if decide (e.1 = b) then [e.2] else []) ++ at_bucket b s.
Proof. unfold at_bucket. rewrite filter_cons. by case_decide. Qed.

Lemma at_bucket_empty {T} b (s : list (Z * T)) : at_bucket b s = [] <-> Forall (fun e => e.1 <> b) s.
Proof.
  induction s as [|e s IH]; [done |]. rewrite at_bucket_cons, Forall_cons, <- IH.
  case_decide; simpl; tauto || (split; [done | tauto]).
Qed.

#[export] Instance at_bucket_perm {T} b : Proper ((≡ₚ) ==> (≡ₚ)) (at_bucket (T:=T) b).
Proof. intros s1 s2 E. unfold at_bucket. by rewrite E. Qed.

(** What the first match of a scan says of the list. *)
Lemma list_find_split {A} (P : A -> Prop) `{forall x, Decision (P x)} l i x :
  list_find P l = Some (i, x) ->
  exists l1 l2, l = l1 ++ x :: l2 /\ length l1 = i /\ delete i l = l1 ++ l2 /\
    P x /\ Forall (fun y => ~ P y) l1.
Proof.
  intros E. apply list_find_Some in E as (Hi & HP & Hall).
  apply list_elem_of_split_length in Hi as (l1 & l2 & -> & ->).
  exists l1, l2. rewrite delete_middle. repeat split; [done |].
  apply Forall_forall. intros y Hy. apply list_elem_of_lookup in Hy as [j Hj].
  apply (Hall j y).
  - by rewrite lookup_app_l by (by eapply lookup_lt_Some).
  - by eapply lookup_lt_Some.
Qed.

Lemma list_find_app_first {A} (P : A -> Prop) `{forall x, Decision (P x)} l1 x l2 :
  Forall (fun y => ~ P y) l1 -> P x -> list_find P (l1 ++ x :: l2) = Some (length l1, x).
Proof.
  intros Hall HP. apply list_find_Some. split; [| split; [done |]].
  - by rewrite list_lookup_middle.
  - intros j y Hj Hlt. rewrite lookup_app_l in Hj by done.
    rewrite Forall_lookup in Hall. by eapply Hall.
Qed.

Lemma filter_all {A} (P : A -> Prop) `{forall x, Decision (P x)} (l : list A) :
  Forall P l -> filter P l = l.
Proof. induction 1 as [|x l Hx _ IH]; [done |]. rewrite filter_cons, decide_True by done. by rewrite IH. Qed.

Lemma filter_none {A} (P : A -> Prop) `{forall x, Decision (P x)} (l : list A) :
  Forall (fun x => ~ P x) l -> filter P l = [].
Proof. induction 1 as [|x l Hx _ IH]; [done |]. by rewrite filter_cons, decide_False by done. Qed.

Lemma StronglySorted_filter {A} (R : A -> A -> Prop) (P : A -> Prop) `{forall x, Decision (P x)} l :
  StronglySorted R l -> StronglySorted R (filter P l).
Proof.
  induction 1 as [|x l Hs IH Hx]; [constructor |]. rewrite filter_cons. case_decide; [| done].
  constructor; [done |]. rewrite Forall_forall in Hx |- *.
  intros y [_ Hy]%list_elem_of_filter. by apply Hx.
Qed.

Lemma StronglySorted_lookup_lt {A} (R : A -> A -> Prop) l i j x y :
  StronglySorted R l -> l !! i = Some x -> l !! j = Some y -> (i < j)%nat -> R x y.
Proof.
  intros Hs. revert i j. induction Hs as [|z l Hs IH Hz]; intros i j Hx Hy Hij; [done |].
  destruct j as [|j]; [lia |]. destruct i as [|i].
  - injection Hx as ->. rewrite Forall_lookup in Hz. by eapply Hz.
  - apply (IH i j); [done | done | lia].
Qed.

Lemma StronglySorted_drop {A} (R : A -> A -> Prop) k l : StronglySorted R l -> StronglySorted R (drop k l).
Proof. rewrite <- (take_drop k l) at 1. rewrite StronglySorted_app. tauto. Qed.

Lemma StronglySorted_impl {A} (R S : A -> A -> Prop) l :
  (forall a b, R a b -> S a b) -> StronglySorted R l -> StronglySorted S l.
Proof.
  intros HRS. induction 1 as [|x l Hs IH Hx]; constructor; [done |].
  eapply Forall_impl; [exact Hx |]. auto.
Qed.

Lemma filter_split_perm {A} (P : A -> Prop) `{forall x, Decision (P x)} (l : list A) :
  l ≡ₚ filter P l ++ filter (fun x => ~ P x) l.
Proof.
  induction l as [|x l IH]; [done |]. rewrite !filter_cons. repeat case_decide; try done.
  - simpl. by rewrite <- IH.
  - rewrite IH at 1. apply Permutation_middle.
Qed.

(** ** sort.Search

    Go's binary search for the first index of [0, n) at which [f] holds; each turn
    halves the interval, so [n] turns are enough. *)
Fixpoint search_loop (fuel : nat) (f : nat -> bool) (i j : nat) : nat :=
  match fuel with
  | O => i
  | S fuel =>
      if (i <? j)%nat then
        let h := ((i + j) / 2)%nat in
        if negb (f h) then search_loop fuel f (S h) j else search_loop fuel f i h
      else i
  end.
Definition sortSearch (n : nat) (f : nat -> bool) : nat := search_loop n f 0 n.

Lemma search_loop_spec fuel f i j n :
  (j - i <= fuel)%nat -> (i <= j <= n)%nat ->
  (forall a b, (a <= b < n)%nat -> f a = true -> f b = true) ->
  (forall k, (k < i)%nat -> f k = false) -> (forall k, (j <= k < n)%nat -> f k = true) ->
  let r := search_loop fuel f i j in
  (i <= r <= j)%nat /\ (forall k, (k < r)%nat -> f k = false) /\ (forall k, (r <= k < n)%nat -> f k = true).
Proof.
  revert i j. induction fuel as [|fuel IH]; intros i j Hf Hij Hm Hlo Hhi; cbn [search_loop].
  { assert (i = j) as -> by lia. split; [lia | done]. }
  destruct (i <? j)%nat eqn:E; bool_prop.
  2: { assert (i = j) as -> by lia. split; [lia | done]. }
  cbv zeta. set (h := ((i + j) / 2)%nat).
  assert (Hh : (i <= h < j)%nat).
  { unfold h. pose proof (Nat.div_mod_eq (i + j) 2). pose proof (Nat.mod_upper_bound (i + j) 2). lia. }
  destruct (f h) eqn:Efh; cbn [negb].
  - destruct (IH i h ltac:(lia) ltac:(lia) Hm Hlo) as (Hr & H1 & H2).
    { intros k Hk. apply (Hm h); [lia | done]. }
    split; [lia | done].
  - destruct (IH (S h) j ltac:(lia) ltac:(lia) Hm) as (Hr & H1 & H2); [| done | split; [lia | done]].
    intros k Hk. destruct (f k) eqn:Ek; [| done]. rewrite (Hm k h) in Efh; [done | lia | done].
Qed.

(** For a predicate that stays true once it holds, the first index of it. *)
Lemma sortSearch_spec n f :
  (forall a b, (a <= b < n)%nat -> f a = true -> f b = true) ->
  let r := sortSearch n f in
  (r <= n)%nat /\ (forall k, (k < r)%nat -> f k = false) /\ (forall k, (r <= k < n)%nat -> f k = true).
Proof.
  intros Hm. unfold sortSearch.
  destruct (search_loop_spec n f 0 n n) as (? & ? & ?);
    [lia | lia | done | intros; lia | intros; lia | split; [lia | done]].
Qed.

(** ** Maps built from rows *)

Lemma foldl_rows_lookup {A} `{Countable K} (key : A -> K) (rows : list A) (m : gmap K A) k r :
  NoDup (key <$> rows) -> (forall x, x ∈ rows -> m !! key x = None) ->
  foldl (fun m r => <[key r := r]> m) m rows !! k = Some r <->
  m !! k = Some r \/ (r ∈ rows /\ key r = k).
Proof.
  revert m. induction rows as [|x rows IH]; intros m Hnd Hm; cbn [foldl].
  { split; [by left |]. intros [? | [?%not_elem_of_nil _]]; done. }
  rewrite fmap_cons, NoDup_cons in Hnd. destruct Hnd as [Hx Hnd]. rewrite IH; [| done |].
  2: { intros y Hy. rewrite lookup_insert_ne.
       - apply Hm. by right.
       - intros E. apply Hx. rewrite E. by apply list_elem_of_fmap_2. }
  rewrite elem_of_cons. destruct (decide (key x = k)) as [<- | Hne].
  - rewrite lookup_insert_eq, (Hm x) by left. split.
    + intros [[= ->] | [Hr ?]]; right; auto.
    + intros [[=] | [[-> | Hr] E]]; [by left | right; auto].
  - rewrite lookup_insert_ne by done. split.
    + intros [? | [? ?]]; auto.
    + intros [? | [[-> | ?] ?]]; auto. done.
Qed.

(** The map rebuilt from rows that list its values. *)
Lemma foldl_rows_map {A} `{Countable K} (key : A -> K) (rows : list A) (m : gmap K A) :
  NoDup (key <$> rows) -> (forall k r, m !! k = Some r <-> r ∈ rows /\ key r = k) ->
  foldl (fun m r => <[key r := r]> m) ∅ rows = m.
Proof.
  intros Hnd Hm. apply map_eq. intros k. apply option_eq. intros r.
  rewrite foldl_rows_lookup, lookup_empty, Hm by done. split; [intros [[=] | ?]; done | by right].
Qed.

