(* ===== verification/GoSort.v ===== *)
(** * sort.Slice

    Go's sort.Slice is not stable: the order it leaves equal elements in is unspecified,
    so it is a parameter here. What it promises is a permutation, and, when the less
    function is a strict weak order of the elements, a sorted one. *)

From S2P Require Import Prelude.
Open Scope Z_scope.

Class GoSort := { sort_slice : forall {A : Type}, (A -> A -> bool) -> list A -> list A }.

(** [less] is a strict weak order of the elements [P]: asymmetric, and "not less" is
    transitive. *)
Record weak_order {A} (P : A -> Prop) (less : A -> A -> bool) : Prop := {
  wo_asym : forall a b, P a -> P b -> less a b = true -> less b a = false;
  wo_trans : forall a b c, P a -> P b -> P c -> less b a = false -> less c b = false -> less c a = false
}.

Definition not_after {A} (less : A -> A -> bool) (a b : A) : Prop := less b a = false.

Class GoSortLaws `{GoSort} := {
  sort_slice_perm : forall A (less : A -> A -> bool) l, sort_slice less l ≡ₚ l;
  sort_slice_sorted : forall A (less : A -> A -> bool) l,
    weak_order (.∈ l) less -> StronglySorted (not_after less) (sort_slice less l)
}.

Lemma weak_order_on {A} (P Q : A -> Prop) less :
  (forall a, Q a -> P a) -> weak_order P less -> weak_order Q less.
Proof.
  intros HQ [Ha Ht]. split.
  - intros a b Qa Qb. apply Ha; auto.
  - intros a b c Qa Qb Qc. apply Ht; auto.
Qed.

Section Sorted.
Context `{GoSortLaws} {A : Type} (less : A -> A -> bool).

Lemma sort_slice_length l : length (sort_slice less l) = length l.
Proof using H0. by rewrite sort_slice_perm. Qed.

Lemma sort_slice_elem l x : x ∈ sort_slice less l <-> x ∈ l.
Proof using H0. by rewrite sort_slice_perm. Qed.

(** A sorted permutation of elements the order tells apart is the result. *)
Lemma sort_slice_unique l l' :
  weak_order (.∈ l) less -> l' ≡ₚ l -> StronglySorted (not_after less) l' ->
  (forall a b, a ∈ l -> b ∈ l -> less a b = false -> less b a = false -> a = b) ->
  sort_slice less l = l'.
Proof using H0.
  intros W Hp Hs Ha. apply (StronglySorted_unique_strong (not_after less)).
  - intros a b Ha1 Hb1 L1 L2. rewrite sort_slice_perm in Ha1. rewrite Hp in Hb1.
    by apply Ha.
  - by apply sort_slice_sorted.
  - done.
  - by rewrite Hp, sort_slice_perm.
Qed.

(** Sorting what a filter keeps is filtering what was sorted. *)
Lemma sort_slice_filter (P : A -> Prop) `{forall x, Decision (P x)} l :
  weak_order (.∈ l) less ->
  (forall a b, a ∈ l -> b ∈ l -> less a b = false -> less b a = false -> a = b) ->
  sort_slice less (filter P l) = filter P (sort_slice less l).
Proof using H0.
  intros W Ha. assert (Hin : forall x, x ∈ filter P l -> x ∈ l) by by intros x [_ ?]%list_elem_of_filter.
  apply sort_slice_unique.
  - by apply (weak_order_on (.∈ l)).
  - by rewrite sort_slice_perm.
  - by apply StronglySorted_filter, sort_slice_sorted.
  - auto.
Qed.
End Sorted.

(** A sort to run: insertion from the right, which is stable. *)
Section Insertion.
Context {A : Type} (less : A -> A -> bool).

Fixpoint insert_by (x : A) (l : list A) : list A :=
  match l with
  | [] => [x]
  | y :: l' => if less y x then y :: insert_by x l' else x :: l
  end.

Definition insertion_sort (l : list A) : list A := foldr insert_by [] l.

Lemma insert_by_perm x l : insert_by x l ≡ₚ x :: l.
Proof using Type.
  induction l as [|y l IH]; [done |]. cbn. destruct (less y x); [| done].
  rewrite IH. constructor.
Qed.

Lemma insertion_sort_perm l : insertion_sort l ≡ₚ l.
Proof using Type. induction l as [|x l IH]; [done |]. cbn. rewrite insert_by_perm. by rewrite IH. Qed.

Lemma insert_by_sorted P x l :
  weak_order P less -> P x -> Forall P l -> StronglySorted (not_after less) l ->
  StronglySorted (not_after less) (insert_by x l).
Proof using Type.
  intros W Hx Hl Hs. induction Hs as [|y l Hs IH Hall]; cbn; [by repeat constructor |].
  apply Forall_cons in Hl as [Hy Hl]. destruct (less y x) eqn:E.
  - constructor; [by apply IH |]. rewrite insert_by_perm. constructor; [| done].
    unfold not_after. by apply (wo_asym _ _ W).
  - constructor; [by constructor |]. constructor; [done |].
    rewrite Forall_forall in Hall, Hl |- *. intros z Hz.
    apply (wo_trans _ _ W x y z); [done | done | by apply Hl | done | by apply Hall].
Qed.

Lemma insertion_sort_sorted P l :
  weak_order P less -> Forall P l -> StronglySorted (not_after less) (insertion_sort l).
Proof using Type.
  intros W Hl. induction Hl as [|x l Hx Hl IH]; [constructor |]. cbn.
  apply (insert_by_sorted P); [done | done | by rewrite insertion_sort_perm | done].
Qed.
End Insertion.

Definition stable_sort : GoSort := {| sort_slice := @insertion_sort |}.

Lemma stable_sort_laws : @GoSortLaws stable_sort.
Proof.
  split; intros A less l.
  - apply insertion_sort_perm.
  - intros W. apply (insertion_sort_sorted less (.∈ l)); [done |]. by apply Forall_forall.
Qed.
