(* ===== verification/Words.v ===== *)
(** * Machine words, little-endian bytes and varints

    The fixed-width integers of Go as [Z] with their wrap-around written out,
    the little-endian fixed-width fields of encoding/binary, its LEB128 varints
    and the zigzag map of format/encoding.go and distribute/batch.go.  A byte is
    a [Z] in [0, 256); the writers only produce such bytes. *)

From S2P Require Import Prelude.
Open Scope Z_scope.

(** ** Wrap-around *)

Definition u8 (x : Z) : Z := x mod 2 ^ 8.
Definition u16 (x : Z) : Z := x mod 2 ^ 16.
Definition u32 (x : Z) : Z := x mod 2 ^ 32.
Definition u64 (x : Z) : Z := x mod 2 ^ 64.
(** Two's complement: the value of a Go [int64] or [int] (64-bit platforms). *)
Definition i64 (x : Z) : Z := (x + 2 ^ 63) mod 2 ^ 64 - 2 ^ 63.

(** [fits n x]: [x] is a value of an unsigned integer of [n] bits. *)
Definition fits (n : Z) (x : Z) : Prop := 0 <= x < 2 ^ n.
#[export] Instance fits_dec n x : Decision (fits n x).
Proof. unfold fits. apply _. Defined.

(** Decides [fits] on constants without looking at the context. *)
Ltac fits_const := apply (bool_decide_unpack _); vm_compute; exact I.

Ltac words := unfold fits, u8, u16, u32, u64, i64 in *; change (2 ^ 8) with 256 in *;
  change (2 ^ 16) with 65536 in *; change (2 ^ 32) with 4294967296 in *;
  change (2 ^ 63) with 9223372036854775808 in *;
  change (2 ^ 64) with 18446744073709551616 in *; divmod.

Lemma u8_fits x : fits 8 (u8 x). Proof. words. Qed.
Lemma u16_fits x : fits 16 (u16 x). Proof. words. Qed.
Lemma u32_fits x : fits 32 (u32 x). Proof. words. Qed.
Lemma u64_fits x : fits 64 (u64 x). Proof. words. Qed.
Lemma u16_small x : fits 16 x -> u16 x = x. Proof. words. Qed.
Lemma u32_small x : fits 32 x -> u32 x = x. Proof. words. Qed.
Lemma u64_small x : fits 64 x -> u64 x = x. Proof. words. Qed.
Lemma i64_small x : - 2 ^ 63 <= x < 2 ^ 63 -> i64 x = x. Proof. words. Qed.
Lemma i64_range x : - 2 ^ 63 <= i64 x < 2 ^ 63. Proof. words. Qed.
Lemma u64_i64 x : u64 (i64 x) = u64 x. Proof. words. Qed.
#[export] Hint Resolve u8_fits u16_fits u32_fits u64_fits : words.

Lemma fits_weaken n m x : n <= m -> fits n x -> fits m x.
Proof.
  intros Hnm [? ?]. split; [done |].
  eapply Z.lt_le_trans; [eassumption |]. destruct (decide (0 <= n)).
  - apply Z.pow_le_mono_r; lia.
  - rewrite (Z.pow_neg_r 2 n) in * by lia. lia.
Qed.

(** ** Little-endian fixed-width fields *)

Fixpoint le_bytes (n : nat) (x : Z) : list Z :=
  match n with
  | O => []
  | S n => u8 x :: le_bytes n (x / 256)
  end.

Fixpoint le_val (l : list Z) : Z :=
  match l with
  | [] => 0
  | b :: l => b + 256 * le_val l
  end.

Lemma le_bytes_length n x : length (le_bytes n x) = n.
Proof. revert x. induction n as [|n IH]; intros x; simpl; auto. Qed.

Lemma le_val_bytes_mod n x : le_val (le_bytes n x) = x mod 256 ^ Z.of_nat n.
Proof.
  revert x. induction n as [|n IH]; intros x.
  - simpl. by rewrite Z.mod_1_r.
  - cbn [le_bytes le_val]. rewrite IH, Nat2Z.inj_succ, Z.pow_succ_r by lia.
    unfold u8. change (2 ^ 8) with 256.
    rewrite Z.rem_mul_r; [lia | lia | apply Z.pow_pos_nonneg; lia].
Qed.

Lemma le_val_bytes n x : 0 <= x < 256 ^ Z.of_nat n -> le_val (le_bytes n x) = x.
Proof. intros. rewrite le_val_bytes_mod. by apply Z.mod_small. Qed.

Lemma le_val_bytes_fits (n : nat) x : fits (8 * Z.of_nat n) x -> le_val (le_bytes n x) = x.
Proof.
  intros H. apply le_val_bytes. unfold fits in H. rewrite Z.pow_mul_r in H by lia.
  exact H.
Qed.

Lemma le_bytes_mod n x : le_bytes n (x mod 256 ^ Z.of_nat n) = le_bytes n x.
Proof.
  revert x. induction n as [|n IH]; intros x; [done |].
  cbn [le_bytes]. rewrite Nat2Z.inj_succ, Z.pow_succ_r by lia.
  rewrite Z.rem_mul_r; [| lia | apply Z.pow_pos_nonneg; lia].
  f_equal.
  - unfold u8. change (2 ^ 8) with 256.
    rewrite Z.mul_comm, Z.mod_add, Z.mod_mod by lia. done.
  - rewrite <- (IH (x / 256)). f_equal.
    rewrite (Z.mul_comm 256), Z.div_add by lia.
    by rewrite (Z.div_small (x mod 256)) by (apply Z.mod_pos_bound; lia).
Qed.

Definition byte_ok (b : Z) : Prop := fits 8 b.

Lemma le_bytes_ok n x : Forall byte_ok (le_bytes n x).
Proof.
  revert x. induction n as [|n IH]; intros x; constructor; [apply u8_fits | apply IH].
Qed.

Lemma le_val_bound l : Forall byte_ok l -> 0 <= le_val l < 256 ^ Z.of_nat (length l).
Proof.
  induction 1 as [|b l Hb Hl IH]; [simpl; lia |].
  cbn [le_val length]. rewrite Nat2Z.inj_succ, Z.pow_succ_r by lia.
  unfold byte_ok, fits in Hb. change (2 ^ 8) with 256 in Hb. lia.
Qed.

(** The inverse direction: bytes in range are recovered from their value. *)
Lemma le_bytes_val l : Forall byte_ok l -> le_bytes (length l) (le_val l) = l.
Proof.
  induction 1 as [|b l Hb Hl IH]; [done |].
  cbn [length le_bytes le_val]. unfold byte_ok, fits in Hb. change (2 ^ 8) with 256 in Hb.
  unfold u8. change (2 ^ 8) with 256. f_equal.
  - rewrite Z.mul_comm, Z.mod_add by lia. by apply Z.mod_small.
  - rewrite Z.mul_comm, Z.div_add, Z.div_small by lia. exact IH.
Qed.

(** ** Unsigned varints (binary.AppendUvarint, binary.Uvarint) *)

Fixpoint put_uvarint_go (fuel : nat) (v : Z) : list Z :=
  match fuel with
  | O => [v]
  | S fuel => if v <? 128 then [v] else (v mod 128 + 128) :: put_uvarint_go fuel (v / 128)
  end.

(** Nine continuation bytes leave one bit of a [uint64], so the fuel never runs
    out on one ([put_uvarint_enough]). *)
Definition put_uvarint (v : Z) : list Z := put_uvarint_go 9 v.

(** [binary.Uvarint]: the value and the number of bytes read, [None] for the
    results [n <= 0] (buffer too small, or overflow past ten bytes). *)
Fixpoint uvarint_go (buf : list Z) (i : nat) (x : Z) : option (Z * nat) :=
  match buf with
  | [] => None
  | b :: buf =>
      if (i =? 10)%nat then None
      else if b <? 128 then
        if (i =? 9)%nat && (1 <? b) then None
        else Some (x + b * 2 ^ (7 * Z.of_nat i), S i)
      else uvarint_go buf (S i) (x + (b mod 128) * 2 ^ (7 * Z.of_nat i))
  end.
Definition uvarint (buf : list Z) : option (Z * nat) := uvarint_go buf 0 0.

Lemma put_uvarint_enough f v :
  0 <= v < 128 ^ Z.of_nat (S f) -> Forall byte_ok (put_uvarint_go f v).
Proof.
  revert v. induction f as [|f IH]; intros v Hv.
  - cbn [put_uvarint_go]. repeat constructor; unfold byte_ok; change (128 ^ Z.of_nat 1) with 128 in Hv; words.
  - cbn [put_uvarint_go]. rewrite Nat2Z.inj_succ, Z.pow_succ_r in Hv by lia.
    destruct (Z.ltb_spec v 128).
    + repeat constructor; unfold byte_ok; words.
    + constructor.
      * unfold byte_ok. words.
      * apply IH. split; [words |]. apply Z.div_lt_upper_bound; lia.
Qed.

Lemma uvarint_go_put f v x i rest :
  (i + f = 9)%nat -> 0 <= v < 2 ^ (64 - 7 * Z.of_nat i) ->
  uvarint_go (put_uvarint_go f v ++ rest) i x
  = Some (x + v * 2 ^ (7 * Z.of_nat i), (i + length (put_uvarint_go f v))%nat).
Proof.
  revert v x i. induction f as [|f IH]; intros v x i Hif Hv.
  - replace i with 9%nat in * by lia. change (2 ^ (64 - 7 * Z.of_nat 9)) with 2 in Hv.
    cbn [put_uvarint_go app uvarint_go]. bool_lia. done.
  - cbn [put_uvarint_go]. destruct (Z.ltb_spec v 128).
    + cbn [app uvarint_go]. bool_lia.
      replace (i =? 10)%nat with false by (symmetry; apply Nat.eqb_neq; lia).
      replace (i =? 9)%nat with false by (symmetry; apply Nat.eqb_neq; lia).
      cbn [andb length]. do 2 f_equal. lia.
    + cbn [app uvarint_go].
      replace (i =? 10)%nat with false by (symmetry; apply Nat.eqb_neq; lia).
      assert (0 <= v mod 128 < 128) by (apply Z.mod_pos_bound; lia).
      bool_lia.
      replace ((v mod 128 + 128) mod 128) with (v mod 128)
        by (rewrite <- Z.add_mod_idemp_r, Z.mod_same, Z.add_0_r, Z.mod_mod by lia; done).
      rewrite IH; [| lia |].
      * cbn [length]. f_equal. f_equal; [| lia].
        replace (7 * Z.of_nat (S i)) with (7 + 7 * Z.of_nat i) by lia.
        rewrite Z.pow_add_r by lia. change (2 ^ 7) with 128.
        rewrite (Z.div_mod v 128) at 3 by lia. ring.
      * split; [words |]. apply Z.div_lt_upper_bound; [lia |].
        change 128 with (2 ^ 7). rewrite <- Z.pow_add_r by lia.
        replace (7 + (64 - 7 * Z.of_nat (S i))) with (64 - 7 * Z.of_nat i) by lia. lia.
Qed.

Lemma uvarint_put v rest :
  fits 64 v -> uvarint (put_uvarint v ++ rest) = Some (v, length (put_uvarint v)).
Proof.
  intros Hv. unfold uvarint, put_uvarint.
  rewrite uvarint_go_put; [| lia | exact Hv]. simpl. do 2 f_equal; lia.
Qed.

Lemma put_uvarint_ok v : fits 64 v -> Forall byte_ok (put_uvarint v).
Proof.
  intros Hv. apply put_uvarint_enough. unfold fits in Hv.
  change (128 ^ Z.of_nat 10) with (2 ^ 70).
  assert (2 ^ 64 < 2 ^ 70) by (apply Z.pow_lt_mono_r; lia). lia.
Qed.

Lemma put_uvarint_go_length f v : (1 <= length (put_uvarint_go f v) <= S f)%nat.
Proof.
  revert v. induction f as [|f IH]; intros v; simpl; [lia |].
  destruct (v <? 128); simpl; [lia |]. specialize (IH (v / 128)). lia.
Qed.

Lemma put_uvarint_length v : (1 <= length (put_uvarint v) <= 10)%nat.
Proof. apply put_uvarint_go_length. Qed.

(** ** Zigzag (format/encoding.go and distribute/batch.go) *)

Definition zigzag (v : Z) : Z := u64 (Z.lxor (i64 (Z.shiftl v 1)) (Z.shiftr v 63)).
Definition unzigzag (v : Z) : Z := i64 (Z.lxor (Z.shiftr v 1) (- Z.land v 1)).

Lemma lxor_m1 x : Z.lxor x (-1) = - x - 1.
Proof. rewrite Z.lxor_m1_r. unfold Z.lnot. lia. Qed.

Lemma zigzag_eq v :
  - 2 ^ 63 <= v < 2 ^ 63 -> zigzag v = if v <? 0 then - 2 * v - 1 else 2 * v.
Proof.
  intros Hv. unfold zigzag. rewrite Z.shiftl_mul_pow2, Z.shiftr_div_pow2 by lia.
  destruct (Z.ltb_spec v 0).
  - replace (v / 2 ^ 63) with (-1) by words. rewrite lxor_m1. words.
  - replace (v / 2 ^ 63) with 0 by words. rewrite Z.lxor_0_r. words.
Qed.

Lemma unzigzag_eq v :
  fits 64 v -> unzigzag v = if v mod 2 =? 0 then v / 2 else - (v / 2) - 1.
Proof.
  intros Hv. unfold unzigzag. rewrite Z.shiftr_div_pow2 by lia. change (2 ^ 1) with 2.
  replace (Z.land v 1) with (v mod 2) by (symmetry; apply (Z.land_ones v 1); lia).
  destruct (Z.eqb_spec (v mod 2) 0) as [E | E].
  - rewrite E. change (- 0) with 0. rewrite Z.lxor_0_r. unfold fits in Hv. apply i64_small. divmod.
  - replace (v mod 2) with 1 by divmod. change (- (1)) with (-1). rewrite lxor_m1. unfold fits in Hv. apply i64_small. divmod.
Qed.

Lemma zigzag_fits v : - 2 ^ 63 <= v < 2 ^ 63 -> fits 64 (zigzag v).
Proof. intros _. unfold zigzag. apply u64_fits. Qed.

(** The round trip of the zigzag map over all of [int64]. *)
Lemma unzigzag_zigzag v : - 2 ^ 63 <= v < 2 ^ 63 -> unzigzag (zigzag v) = v.
Proof.
  intros Hv. rewrite unzigzag_eq by (by apply zigzag_fits). rewrite zigzag_eq by done.
  destruct (Z.ltb_spec v 0).
  - destruct (Z.eqb_spec ((- 2 * v - 1) mod 2) 0); divmod.
  - destruct (Z.eqb_spec ((2 * v) mod 2) 0); divmod.
Qed.

(** [i64 x] differs from [x] by a multiple of [2 ^ 64]. *)
Lemma i64_shift x : exists k, i64 x = x + k * 2 ^ 64.
Proof.
  exists (- ((x + 2 ^ 63) / 2 ^ 64)). unfold i64.
  rewrite (Z.mod_eq (x + 2 ^ 63)) by (apply Z.pow_nonzero; lia). lia.
Qed.

Lemma u64_shift x k : u64 (x + k * 2 ^ 64) = u64 x.
Proof. unfold u64. by rewrite Z.mod_add by (apply Z.pow_nonzero; lia). Qed.

(** A wrapped delta added back to its base: the step every delta encoding uses. *)
Lemma delta_back a b : fits 64 b -> u64 (i64 a + i64 (i64 b - i64 a)) = b.
Proof.
  intros Hb. destruct (i64_shift (i64 b - i64 a)) as [k ->].
  destruct (i64_shift b) as [k' ->].
  replace (i64 a + (b + k' * 2 ^ 64 - i64 a + k * 2 ^ 64)) with (b + (k' + k) * 2 ^ 64) by ring.
  rewrite u64_shift. by apply u64_small.
Qed.

(** The same for a plain unsigned delta. *)
Lemma udelta_back a b : fits 64 b -> u64 (a + u64 (b - a)) = b.
Proof.
  intros Hb. unfold u64. rewrite Z.add_mod_idemp_r by (apply Z.pow_nonzero; lia).
  replace (a + (b - a)) with b by ring. by apply Z.mod_small.
Qed.
