(* ===== verification/Floats.v ===== *)
(** * float64

    The IEEE double operations the modelled code uses, from the standard library's
    SpecFloat, and what correct rounding gives on the range it uses: an operation whose
    exact result is at least a small integer returns at least that integer, and a power of
    two above the exact result bounds what is returned. *)

From Stdlib Require Import SpecFloat.
From S2P Require Import Prelude Words.
Open Scope Z_scope.

Definition f64_of_int (n : Z) : spec_float := binary_normalize 53 1024 n 0 false.
Definition f64_mul : spec_float -> spec_float -> spec_float := SFmul 53 1024.
Definition f64_div : spec_float -> spec_float -> spec_float := SFdiv 53 1024.

(** Go's conversion to int64: truncation; outside the range the value is left to the
    implementation, here the amd64 one. *)
Definition f64_trunc (x : spec_float) : option Z :=
  match x with
  | S754_zero _ => Some 0
  | S754_finite s m e =>
      let n := if 0 <=? e then Z.pos m * 2 ^ e else Z.pos m / 2 ^ (- e) in
      Some (if s then - n else n)
  | _ => None
  end.
Definition f64_to_int64 (x : spec_float) : Z :=
  match f64_trunc x with
  | Some n => if (- 2 ^ 63 <=? n) && (n <? 2 ^ 63) then n else - 2 ^ 63
  | None => - 2 ^ 63
  end.

(** ** The value of a positive float, in units of 2^-1100 *)

Definition unit_exp : Z := 1100.
Definition scaled (m e : Z) : Z := m * 2 ^ (e + unit_exp).
Definition scaled_int (n : Z) : Z := n * 2 ^ unit_exp.

(** [x] is positive and finite, its exponent within [lo, 900], its value [v]. *)
Definition f64_is (lo : Z) (x : spec_float) (v : Z) : Prop :=
  exists m e, x = S754_finite false m e /\ lo <= e <= 900 /\ v = scaled (Z.pos m) e.

Lemma pow_split a b : 0 <= a -> 0 <= b -> 2 ^ (a + b) = 2 ^ a * 2 ^ b.
Proof. intros. by apply Z.pow_add_r. Qed.

(** *** Digits and shifts *)

Lemma digits_bounds p : 2 ^ (Z.pos (digits2_pos p) - 1) <= Z.pos p < 2 ^ Z.pos (digits2_pos p).
Proof.
  induction p as [p IH | p IH |]; cbn [digits2_pos]; [| | done];
    rewrite Pos2Z.inj_succ, Z.sub_succ_l, !Z.pow_succ_r by lia; lia.
Qed.

Lemma shr_1_floor r : 0 <= shr_m r -> shr_m (shr_1 r) = shr_m r / 2.
Proof.
  destruct r as [m a b]. destruct m as [|[p|p|]|p]; intros Hm; try done.
  - change (Z.pos p = Z.pos p~1 / 2). rewrite Pos2Z.inj_xI. divmod.
  - change (Z.pos p = Z.pos p~0 / 2). rewrite Pos2Z.inj_xO. divmod.
Qed.

Lemma iter_shr_floor p r : 0 <= shr_m r -> shr_m (SpecFloat.iter_pos shr_1 p r) = shr_m r / 2 ^ Z.pos p.
Proof.
  revert r. induction p as [p IH | p IH |]; intros r Hr; cbn [SpecFloat.iter_pos].
  - pose proof (shr_1_floor r Hr) as E.
    assert (0 <= shr_m (shr_1 r)) by (rewrite E; apply Z.div_pos; lia).
    assert (0 <= shr_m (SpecFloat.iter_pos shr_1 p (shr_1 r))) by (rewrite IH by done; apply Z.div_pos; lia).
    rewrite !IH, E by done. rewrite !Z.div_div by lia. f_equal.
    rewrite Pos2Z.inj_xI. replace (2 * Z.pos p + 1) with (1 + Z.pos p + Z.pos p) by lia.
    rewrite !Z.pow_add_r by lia. ring.
  - assert (0 <= shr_m (SpecFloat.iter_pos shr_1 p r)) by (rewrite IH by done; apply Z.div_pos; lia).
    rewrite !IH by done. rewrite Z.div_div by lia. f_equal.
    rewrite <- Z.pow_add_r by lia. f_equal. lia.
  - by apply shr_1_floor.
Qed.

Lemma shr_record_m m l : shr_m (shr_record_of_loc m l) = m.
Proof. by destruct l as [|[]]. Qed.

(** A mantissa cut to 53 bits: the exponent moves by [n], the bits lost go. *)
Lemma shr_fexp_floor m e l :
  0 < m -> -1000 <= e -> m < 2 ^ (900 - e) ->
  let n := Z.max 0 (Zdigits2 m - 53) in
  exists r, shr_fexp 53 1024 m e l = (r, e + n) /\ shr_m r = m / 2 ^ n /\
    (n = 0 -> r = shr_record_of_loc m l).
Proof.
  intros Hm He Hme n. destruct m as [|p|]; try lia. cbn [Zdigits2] in *.
  pose proof (digits_bounds p) as Hd.
  assert (Hd900 : Z.pos (digits2_pos p) + e <= 900).
  { assert (2 ^ (Z.pos (digits2_pos p) - 1) < 2 ^ (900 - e)) as Hlt by lia.
    assert (0 <= 900 - e).
    { destruct (Z.ltb_spec (900 - e) 0); [| done]. rewrite (Z.pow_neg_r 2 (900 - e)) in Hlt by done.
      pose proof (Z.pow_nonneg 2 (Z.pos (digits2_pos p) - 1)). lia. }
    apply Z.pow_lt_mono_r_iff in Hlt; lia. }
  unfold shr_fexp. cbn [Zdigits2]. unfold fexp, emin.
  replace (Z.max (Z.pos (digits2_pos p) + e - 53) (3 - 1024 - 53) - e)
    with (Z.max (Z.pos (digits2_pos p) - 53) (-1074 - e)) by lia.
  unfold n. destruct (Z.max_spec (Z.pos (digits2_pos p) - 53) (-1074 - e)) as [[? ->] | [? ->]].
  - assert (Z.pos (digits2_pos p) - 53 < 0) by lia. rewrite Z.max_l by lia.
    unfold shr. destruct (-1074 - e) eqn:E; try lia;
      (eexists; rewrite Z.add_0_r, shr_record_m, Z.div_1_r; done).
  - unfold shr. destruct (Z.pos (digits2_pos p) - 53) as [|k|k] eqn:E.
    + rewrite Z.max_l by lia. eexists. rewrite Z.add_0_r, shr_record_m, Z.div_1_r. done.
    + rewrite Z.max_r by lia. eexists. split; [done |].
      rewrite iter_shr_floor by (rewrite shr_record_m; lia). by rewrite shr_record_m.
    + rewrite Z.max_l by lia. eexists. rewrite Z.add_0_r, shr_record_m, Z.div_1_r. done.
Qed.

Lemma digits_of m d : 0 <= d -> 0 < m -> m < 2 ^ d -> Zdigits2 m <= d.
Proof.
  intros Hd Hm Hlt. destruct m as [|p|]; try lia. cbn [Zdigits2]. pose proof (digits_bounds p).
  assert (2 ^ (Z.pos (digits2_pos p) - 1) < 2 ^ d) as Hp by lia. apply Z.pow_lt_mono_r_iff in Hp; lia.
Qed.

Lemma digits_pos m : 0 < m -> 1 <= Zdigits2 m /\ 2 ^ (Zdigits2 m - 1) <= m < 2 ^ Zdigits2 m.
Proof. intros Hm. destruct m as [|p|]; try lia. split; [simpl; lia | apply digits_bounds]. Qed.

(** A mantissa of at most 53 bits, or 2^53 itself, is kept by the second cut. *)
Lemma shr_fexp_again r e :
  0 < r <= 2 ^ 53 -> -1000 <= e -> r < 2 ^ (900 - e) -> e <= 899 ->
  exists m' e', shr_fexp 53 1024 r e loc_Exact = (m', e') /\ 0 < shr_m m' /\ e <= e' <= 900 /\
    scaled (shr_m m') e' = scaled r e.
Proof.
  intros Hr He Hre He9. destruct (shr_fexp_floor r e loc_Exact) as (m' & E & Em & _); [lia .. |].
  exists m', (e + Z.max 0 (Zdigits2 r - 53)). split; [done |]. rewrite Em.
  destruct (Z.eq_dec r (2 ^ 53)) as [-> | Hne].
  - change (Z.max 0 (Zdigits2 (2 ^ 53) - 53)) with 1. split; [done |]. split; [lia |].
    unfold scaled, unit_exp. replace (e + 1 + 1100) with (1 + (e + 1100)) by lia.
    rewrite (Z.pow_add_r 2 1) by lia. change (2 ^ 53 / 2 ^ 1) with (2 ^ 52). lia.
  - assert (Zdigits2 r <= 53) by (apply digits_of; lia). rewrite Z.max_l by lia.
    rewrite Z.add_0_r, Z.div_1_r. lia.
Qed.

Lemma digits_le m d : 0 < m -> m < 2 ^ d -> Zdigits2 m <= d.
Proof.
  intros Hm Hlt. destruct (Z.leb_spec 0 d); [by apply digits_of |].
  rewrite (Z.pow_neg_r 2 d) in Hlt by lia. lia.
Qed.

(** A mantissa cut to 53 bits keeps its 53 leading ones. *)
Lemma cut_bounds m :
  0 < m -> let n := Z.max 0 (Zdigits2 m - 53) in
  1 <= m / 2 ^ n < 2 ^ 53 /\ (m / 2 ^ n) * 2 ^ n <= m /\ (0 < n -> 2 ^ 52 <= m / 2 ^ n).
Proof.
  intros Hm n. destruct (digits_pos m Hm) as [Hd [Hlo Hhi]].
  assert (H2n : 0 < 2 ^ n) by (apply Z.pow_pos_nonneg; unfold n; lia).
  split_and!.
  - apply Z.div_le_lower_bound; [done |]. rewrite Z.mul_1_r.
    transitivity (2 ^ (Zdigits2 m - 1)); [| done]. apply Z.pow_le_mono_r; unfold n; lia.
  - apply Z.div_lt_upper_bound; [done |].
    rewrite <- Z.pow_add_r by (unfold n; lia). eapply Z.lt_le_trans; [exact Hhi |].
    apply Z.pow_le_mono_r; unfold n; lia.
  - rewrite Z.mul_comm. by apply Z.mul_div_le.
  - intros Hn. apply Z.div_le_lower_bound; [done |]. rewrite <- Z.pow_add_r by lia.
    eapply Z.le_trans; [| exact Hlo]. apply Z.pow_le_mono_r; unfold n in *; lia.
Qed.

(** Rounding: the mantissa is the exact one cut to 53 bits, or one more. *)
Lemma round_aux_spec m e l :
  0 < m -> -900 <= e <= 700 -> m < 2 ^ (800 - e) ->
  let n := Z.max 0 (Zdigits2 m - 53) in
  exists r, (r = m / 2 ^ n \/ r = m / 2 ^ n + 1) /\ (l = loc_Exact -> n = 0 -> r = m) /\
    f64_is e (binary_round_aux 53 1024 false m e l) (scaled r (e + n)).
Proof.
  intros Hm He Hme n. pose proof (digits_le m (800 - e) Hm Hme) as Hd.
  assert (Hme9 : m < 2 ^ (900 - e)) by (eapply Z.lt_trans; [exact Hme | apply Z.pow_lt_mono_r; lia]).
  destruct (shr_fexp_floor m e l Hm ltac:(lia) Hme9) as (m1 & E1 & Em1 & Hl). fold n in E1, Em1, Hl.
  destruct (cut_bounds m Hm) as (Hf & Hfm & _). fold n in Hf, Hfm. set (f := m / 2 ^ n) in *.
  assert (Hn : 0 <= n <= 800 - e) by (unfold n; pose proof (digits_pos m Hm); lia).
  set (r := round_nearest_even (shr_m m1) (loc_of_shr_record m1)).
  assert (Hr : r = f \/ r = f + 1).
  { unfold r. rewrite Em1. destruct (loc_of_shr_record m1) as [|[]]; cbn; auto. destruct (Z.even f); auto. }
  assert (Hr2 : r < 2 ^ (900 - (e + n))).
  { apply (Z.mul_lt_mono_pos_r (2 ^ n)); [apply Z.pow_pos_nonneg; lia |].
    rewrite <- Z.pow_add_r by lia. replace (900 - (e + n) + n) with (1 + (899 - e)) by lia.
    rewrite Z.pow_add_r by lia. change (2 ^ 1) with 2.
    assert (r * 2 ^ n <= 2 * m) by nia.
    assert (2 ^ (800 - e) <= 2 ^ (899 - e)) by (apply Z.pow_le_mono_r; lia). lia. }
  destruct (shr_fexp_again r (e + n)) as (m2 & e2 & E2 & Hm2 & He2 & Hs); [lia | lia | done | |].
  { unfold n in *. destruct (digits_pos m Hm). lia. }
  exists r. split; [done |]. split.
  - intros -> Hn0. unfold r. by rewrite (Hl Hn0).
  - unfold binary_round_aux. rewrite E1. fold r. rewrite E2.
    destruct m2 as [[|p|p] a b]; cbn [shr_m] in *; try lia.
    rewrite (proj2 (Z.leb_le _ _)) by lia. exists p, e2. split; [done |]. split; [lia | done].
Qed.

Lemma scaled_lt_pow m e k :
  0 < m -> -1000 <= e -> 0 <= k -> scaled m e < scaled_int (2 ^ k) <-> m < 2 ^ (k - e).
Proof.
  intros Hm He Hk. unfold scaled, scaled_int, unit_exp. rewrite <- (Z.pow_add_r 2 k) by lia.
  destruct (Z.leb_spec 0 (k - e)).
  - replace (k + 1100) with ((k - e) + (e + 1100)) by lia. rewrite (Z.pow_add_r 2 (k - e)) by lia.
    symmetry. apply Z.mul_lt_mono_pos_r, Z.pow_pos_nonneg; lia.
  - rewrite (Z.pow_neg_r 2 (k - e)) by lia. split; [| lia]. intros Hlt.
    assert (2 ^ (k + 1100) <= 2 ^ (e + 1100)) by (apply Z.pow_le_mono_r; lia). nia.
Qed.

Lemma scaled_int_le x m e :
  -1000 <= e <= 0 -> scaled_int x <= scaled m e <-> x * 2 ^ (- e) <= m.
Proof.
  intros He. unfold scaled, scaled_int, unit_exp.
  replace 1100 with (- e + (e + 1100)) at 1 by lia. rewrite Z.pow_add_r, Z.mul_assoc by lia.
  symmetry. apply Z.mul_le_mono_pos_r, Z.pow_pos_nonneg; lia.
Qed.

(** What is below the exact result and has few bits is below the rounded one; a power of
    two above the exact result is not below the rounded one. *)
Lemma round_bounds m e l :
  0 < m -> -900 <= e <= 700 -> scaled m e < scaled_int (2 ^ 800) ->
  exists v, f64_is e (binary_round_aux 53 1024 false m e l) v /\
    (forall x, 0 < x < 2 ^ 53 -> scaled_int x <= scaled m e -> scaled_int x <= v) /\
    (forall k, 0 <= k -> scaled m e < scaled_int (2 ^ k) -> v <= scaled_int (2 ^ k)).
Proof.
  intros Hm He Hme%scaled_lt_pow; [| lia ..].
  destruct (round_aux_spec m e l Hm He Hme) as (r & Hr & _ & Hv).
  set (n := Z.max 0 (Zdigits2 m - 53)) in *. destruct (cut_bounds m Hm) as (Hf & Hfm & Hf52).
  fold n in Hf, Hfm, Hf52. set (f := m / 2 ^ n) in *.
  assert (Hn : 0 <= n) by (unfold n; lia). pose proof (digits_pos m Hm) as [Hd1 _].
  exists (scaled r (e + n)). split; [done |]. split.
  - intros x Hx Hxm. transitivity (scaled f (e + n)).
    2: { unfold scaled, unit_exp. apply Z.mul_le_mono_nonneg_r; [apply Z.pow_nonneg |]; lia. }
    destruct (Z.leb_spec (e + n) 0) as [Hen | Hen].
    + apply scaled_int_le in Hxm; [| lia]. apply scaled_int_le; [lia |].
      apply Z.div_le_lower_bound; [apply Z.pow_pos_nonneg; lia |].
      rewrite Z.mul_comm, <- Z.mul_assoc, <- Z.pow_add_r by lia.
      by replace (- (e + n) + n) with (- e) by lia.
    + destruct (Z.eq_dec n 0) as [Hn0 | Hn0].
      { unfold f. by rewrite Hn0, Z.add_0_r, Z.div_1_r. }
      assert (2 ^ 52 <= f) by (apply Hf52; lia). unfold scaled, scaled_int, unit_exp.
      replace (e + n + 1100) with (1 + (e + n - 1) + 1100) by lia.
      rewrite !Z.pow_add_r by lia. rewrite !Z.mul_assoc.
      apply Z.mul_le_mono_nonneg_r; [apply Z.pow_nonneg; lia |].
      assert (1 <= 2 ^ (e + n - 1)) by (apply (Z.pow_le_mono_r 2 0); lia). change (2 ^ 1) with 2. nia.
  - intros k Hk Hmk%scaled_lt_pow; [| lia ..].
    pose proof (digits_le m (k - e) Hm Hmk) as Hd.
    assert (Hrk : r <= 2 ^ (k - e - n)).
    { assert (f < 2 ^ (k - e - n)); [| lia].
      apply Z.div_lt_upper_bound; [apply Z.pow_pos_nonneg; lia |].
      rewrite <- Z.pow_add_r by (unfold n in *; lia). by replace (n + (k - e - n)) with (k - e) by lia. }
    unfold scaled, scaled_int, unit_exp. transitivity (2 ^ (k - e - n) * 2 ^ (e + n + 1100)).
    + apply Z.mul_le_mono_nonneg_r; [apply Z.pow_nonneg |]; lia.
    + rewrite <- !Z.pow_add_r by (unfold n in *; lia). apply Z.pow_le_mono_r; lia.
Qed.

(** ** The operations *)

Lemma round_normal m e :
  2 ^ 52 <= m < 2 ^ 53 -> -1000 <= e <= 0 ->
  binary_round_aux 53 1024 false m e loc_Exact = S754_finite false (Z.to_pos m) e.
Proof.
  intros Hm He. assert (Hlt : m < 2 ^ (900 - e)).
  { assert (2 ^ 53 <= 2 ^ (900 - e)) by (apply Z.pow_le_mono_r; lia). lia. }
  assert (Hd : Z.max 0 (Zdigits2 m - 53) = 0) by (pose proof (digits_le m 53); lia).
  destruct (shr_fexp_floor m e loc_Exact ltac:(lia) ltac:(lia) Hlt) as (r & E & Em & Hr).
  rewrite Hd in E, Em, Hr. specialize (Hr eq_refl). subst r.
  unfold binary_round_aux. rewrite E, Z.add_0_r in *.
  change (round_nearest_even _ _) with m. rewrite E, Em.
  rewrite Z.div_1_r. destruct m; try lia. by rewrite (proj2 (Z.leb_le _ _)) by lia.
Qed.

Lemma iter_xO p k : Z.pos (Pos.iter xO p k) = Z.pos p * 2 ^ Z.pos k.
Proof.
  induction k as [|k IH] using Pos.peano_ind; [cbn; lia |].
  rewrite Pos.iter_succ, Pos2Z.inj_xO, IH, Pos2Z.inj_succ, Z.pow_succ_r by lia. lia.
Qed.

(** A small integer is itself, with a mantissa of 53 bits. *)
Lemma f64_of_int_exact n :
  0 < n < 2 ^ 53 ->
  exists m e, f64_of_int n = S754_finite false m e /\ -52 <= e <= 0 /\
    2 ^ 52 <= Z.pos m < 2 ^ 53 /\ Z.pos m = n * 2 ^ (- e).
Proof.
  intros Hn. destruct n as [|p|]; try lia. destruct (digits_pos (Z.pos p)) as [Hd1 Hd]; [lia |].
  pose proof (digits_le (Z.pos p) 53 ltac:(lia) ltac:(lia)) as Hd53. cbn [Zdigits2] in *.
  set (d := Z.pos (digits2_pos p)) in *.
  assert (Hnorm : 2 ^ 52 <= Z.pos p * 2 ^ (53 - d) < 2 ^ 53).
  { split.
    - replace 52 with ((d - 1) + (53 - d)) by lia. rewrite Z.pow_add_r by lia.
      apply Z.mul_le_mono_nonneg_r; [apply Z.pow_nonneg |]; lia.
    - replace 53 with (d + (53 - d)) at 2 by lia. rewrite Z.pow_add_r by lia.
      apply Z.mul_lt_mono_pos_r; [apply Z.pow_pos_nonneg |]; lia. }
  exists (Z.to_pos (Z.pos p * 2 ^ (53 - d))), (d - 53).
  assert (E : f64_of_int (Z.pos p) = binary_round_aux 53 1024 false (Z.pos p * 2 ^ (53 - d)) (d - 53) loc_Exact).
  { unfold f64_of_int, binary_normalize, binary_round. fold d. rewrite Z.add_0_r. unfold fexp, emin.
    rewrite Z.max_l by lia. unfold shl_align. rewrite Z.sub_0_r.
    destruct (d - 53) as [|k|k] eqn:Ek; [| lia |].
    - replace (53 - d) with 0 by lia. by rewrite Z.mul_1_r.
    - rewrite iter_xO. by replace (53 - d) with (Z.pos k) by lia. }
  rewrite E, round_normal by lia. rewrite Z2Pos.id by lia.
  split_and!; try done; try lia. by replace (- (d - 53)) with (53 - d) by lia.
Qed.

(** A quotient of small integers. *)
Lemma f64_div_bounds a k :
  0 < a < 2 ^ 53 -> 0 < k < 2 ^ 53 ->
  exists v, f64_is (-105) (f64_div (f64_of_int a) (f64_of_int k)) v /\
    (forall x, 0 < x < 2 ^ 53 -> x * k <= a -> scaled_int x <= v) /\
    (forall t, 0 <= t -> a < k * 2 ^ t -> v <= scaled_int (2 ^ t)).
Proof.
  intros Ha Hk. destruct (f64_of_int_exact a Ha) as (m1 & e1 & E1 & He1 & Hm1 & Hv1).
  destruct (f64_of_int_exact k Hk) as (m2 & e2 & E2 & He2 & Hm2 & Hv2).
  rewrite E1, E2. clear E1 E2. unfold f64_div, SFdiv, SFdiv_core_binary. cbn [xorb].
  assert (D : forall m, 2 ^ 52 <= Z.pos m < 2 ^ 53 -> Zdigits2 (Z.pos m) = 53).
  { intros m Hm. pose proof (digits_le (Z.pos m) 53). destruct (digits_pos (Z.pos m)) as [Hd1 Hd]; [lia |].
    assert (2 ^ 52 < 2 ^ Zdigits2 (Z.pos m)) as Hlt by lia. apply Z.pow_lt_mono_r_iff in Hlt; lia. }
  rewrite !D by done. unfold fexp, emin.
  replace (Z.min (Z.max (53 + e1 - (53 + e2) - 53) (3 - 1024 - 53)) (e1 - e2)) with (e1 - e2 - 53) by lia.
  replace (e1 - e2 - (e1 - e2 - 53)) with 53 by lia.
  rewrite Z.shiftl_mul_pow2 by lia.
  pose proof (Z.div_eucl_eq (Z.pos m1 * 2 ^ 53) (Z.pos m2) ltac:(lia)) as Hq.
  assert (Eq : (Z.div_eucl (Z.pos m1 * 2 ^ 53) (Z.pos m2)).1 = Z.pos m1 * 2 ^ 53 / Z.pos m2) by done.
  destruct (Z.div_eucl (Z.pos m1 * 2 ^ 53) (Z.pos m2)) as [q rm]. cbn [fst] in Eq. clear Hq. subst q.
  set (q := Z.pos m1 * 2 ^ 53 / Z.pos m2). set (e := e1 - e2 - 53).
  assert (Hq : 0 < q < 2 ^ 54).
  { split; [apply Z.div_str_pos; nia | apply Z.div_lt_upper_bound; [lia | nia]]. }
  destruct (round_bounds q e (new_location (Z.pos m2) rm)) as (v & Hv & Hlo & Hhi); [lia | unfold e; lia | |].
  { apply scaled_lt_pow; [lia | unfold e; lia | lia |].
    assert (2 ^ 54 <= 2 ^ (800 - e)) by (apply Z.pow_le_mono_r; unfold e; lia). lia. }
  assert (He : - e = (53 - e1) + e2) by (unfold e; lia).
  assert (Hpow : 2 ^ (53 - e1) = 2 ^ 53 * 2 ^ (- e1)) by (rewrite <- Z.pow_add_r by lia; f_equal; lia).
  exists v. split; [destruct Hv as (m & e' & -> & ? & ->); exists m, e'; unfold e in *; split; [done | split; [lia | done]] |]. split.
  - intros x Hx Hxk. apply Hlo; [done |]. apply scaled_int_le; [unfold e; lia |].
    apply Z.div_le_lower_bound; [lia |]. rewrite Hv1, Hv2.
    replace (k * 2 ^ (- e2) * (x * 2 ^ (- e))) with (x * k * (2 ^ (- e2) * 2 ^ (- e))) by ring.
    rewrite <- Z.pow_add_r by lia. replace (- e2 + - e) with (53 - e1) by lia. rewrite Hpow.
    replace (a * 2 ^ (- e1) * 2 ^ 53) with (a * (2 ^ 53 * 2 ^ (- e1))) by ring.
    apply Z.mul_le_mono_nonneg_r; [| done]. apply Z.mul_nonneg_nonneg; [lia | apply Z.pow_nonneg; lia].
  - intros t Ht Hat. apply Hhi; [done |]. apply scaled_lt_pow; [lia | unfold e; lia | done |].
    apply Z.div_lt_upper_bound; [lia |]. rewrite Hv1, Hv2.
    replace (t - e) with (t + - e) by lia. rewrite (Z.pow_add_r 2 t) by lia.
    replace (k * 2 ^ (- e2) * (2 ^ t * 2 ^ (- e))) with (k * 2 ^ t * (2 ^ (- e2) * 2 ^ (- e))) by ring.
    rewrite <- (Z.pow_add_r 2 (- e2)) by lia. replace (- e2 + - e) with (53 - e1) by lia. rewrite Hpow.
    replace (a * 2 ^ (- e1) * 2 ^ 53) with (a * (2 ^ 53 * 2 ^ (- e1))) by ring.
    apply Z.mul_lt_mono_pos_r; [| done]. apply Z.mul_pos_pos; [lia | apply Z.pow_pos_nonneg; lia].
Qed.

(** A small integer times a float. *)
Lemma f64_mul_bounds x q vq t :
  0 < x < 2 ^ 53 -> f64_is (-105) q vq -> 0 <= t <= 700 -> x * vq < scaled_int (2 ^ t) ->
  exists v, f64_is (-157) (f64_mul (f64_of_int x) q) v /\ v <= scaled_int (2 ^ t) /\
    (scaled_int 1 <= vq -> scaled_int x <= v).
Proof.
  intros Hx (m2 & e2 & -> & He2 & ->) Ht Hlt.
  destruct (f64_of_int_exact x Hx) as (m1 & e1 & -> & He1 & Hm1 & Hv1).
  unfold f64_mul, SFmul. cbn [xorb].
  assert (Es : scaled (Z.pos (m1 * m2)) (e1 + e2) = x * scaled (Z.pos m2) e2).
  { unfold scaled, unit_exp. rewrite Pos2Z.inj_mul, Hv1.
    replace (x * 2 ^ (- e1) * Z.pos m2 * 2 ^ (e1 + e2 + 1100))
      with (x * (Z.pos m2 * (2 ^ (- e1) * 2 ^ (e1 + e2 + 1100)))) by ring.
    rewrite <- Z.pow_add_r by lia. do 3 f_equal. lia. }
  assert (He : e2 <= 700).
  { assert (Hs : scaled (Z.pos m2) e2 < scaled_int (2 ^ t)).
    { eapply Z.le_lt_trans; [| exact Hlt]. assert (0 <= scaled (Z.pos m2) e2); [| nia].
      apply Z.mul_nonneg_nonneg; [lia | apply Z.pow_nonneg; lia]. }
    apply scaled_lt_pow in Hs; [| lia ..].
    destruct (Z.leb_spec 0 (t - e2)); [lia |]. rewrite (Z.pow_neg_r 2 (t - e2)) in Hs by lia. lia. }
  destruct (round_bounds (Z.pos (m1 * m2)) (e1 + e2) loc_Exact) as (v & Hv & Hlo & Hhi); [lia | lia | |].
  { rewrite Es. eapply Z.lt_le_trans; [exact Hlt |]. unfold scaled_int.
    apply Z.mul_le_mono_nonneg_r; [unfold unit_exp; lia |]. apply Z.pow_le_mono_r; lia. }
  exists v. split; [destruct Hv as (m & e & -> & ? & ->); exists m, e; split; [done | split; [lia | done]] |]. split.
  - apply Hhi; [lia |]. by rewrite Es.
  - intros H1. apply Hlo; [done |]. rewrite Es. unfold scaled_int in *. rewrite Z.mul_1_l in H1.
    apply Z.mul_le_mono_nonneg_l; [lia | done].
Qed.

(** Truncation to int64. *)
Lemma f64_to_int64_bounds lo x v a b :
  -1000 <= lo -> f64_is lo x v -> 0 <= a -> scaled_int a <= v <= scaled_int b -> b < 2 ^ 63 ->
  a <= f64_to_int64 x <= b.
Proof.
  intros Hlo (m & e & -> & He & ->) Ha [Hv1 Hv2] Hb. unfold f64_to_int64, f64_trunc.
  set (n := if 0 <=? e then Z.pos m * 2 ^ e else Z.pos m / 2 ^ (- e)).
  assert (Hn : a <= n <= b).
  { unfold n, scaled, scaled_int, unit_exp in *. destruct (Z.leb_spec 0 e).
    - rewrite (Z.pow_add_r 2 e), Z.mul_assoc in Hv1, Hv2 by lia.
      split; apply (Z.mul_le_mono_pos_r _ _ (2 ^ 1100)); done || lia.
    - replace 1100 with (- e + (e + 1100)) in Hv1 at 1 by lia.
      replace 1100 with (- e + (e + 1100)) in Hv2 at 2 by lia.
      rewrite (Z.pow_add_r 2 (- e)), Z.mul_assoc in Hv1, Hv2 by lia.
      apply Z.mul_le_mono_pos_r in Hv1, Hv2; [| apply Z.pow_pos_nonneg; lia ..].
      assert (0 < 2 ^ (- e)) by (apply Z.pow_pos_nonneg; lia).
      split; [apply Z.div_le_lower_bound; lia | apply Z.div_le_upper_bound; lia]. }
  bool_lia. cbn [andb]. lia.
Qed.

(** ** Comparison, away from NaN *)

Definition f64_num (x : spec_float) : Prop := x <> S754_nan.

(** Floats are compared as triples: sign and kind, exponent, mantissa. *)
Definition f64_key (x : spec_float) : Z * Z * Z :=
  match x with
  | S754_infinity true => (-2, 0, 0)
  | S754_finite true m e => (-1, - e, - Z.pos m)
  | S754_zero _ => (0, 0, 0)
  | S754_finite false m e => (1, e, Z.pos m)
  | S754_infinity false => (2, 0, 0)
  | S754_nan => (3, 0, 0)
  end.

Definition key_lt (a b : Z * Z * Z) : Prop :=
  a.1.1 < b.1.1 \/ a.1.1 = b.1.1 /\ (a.1.2 < b.1.2 \/ a.1.2 = b.1.2 /\ a.2 < b.2).

Lemma SFcompare_key x y :
  f64_num x -> f64_num y ->
  match SFcompare x y with
  | Some Lt => key_lt (f64_key x) (f64_key y)
  | Some Eq => f64_key x = f64_key y
  | Some Gt => key_lt (f64_key y) (f64_key x)
  | None => False
  end.
Proof.
  unfold f64_num, key_lt. intros Hx Hy.
  destruct x as [[]|[]| |[] m e], y as [[]|[]| |[] m' e']; try done; cbn; try lia;
    change (Pos.compare_cont Eq m m') with (Pos.compare m m');
    destruct (Z.compare_spec e e'); cbn; try lia;
    destruct (Pos.compare_spec m m'); cbn; subst; lia || done.
Qed.

Lemma SFltb_key x y : f64_num x -> f64_num y -> SFltb x y = true <-> key_lt (f64_key x) (f64_key y).
Proof.
  intros Hx Hy. pose proof (SFcompare_key x y Hx Hy) as Hc. unfold SFltb.
  destruct (SFcompare x y) as [[]|]; [| done | | done]; split; try done; unfold key_lt in *;
    [rewrite Hc; lia | lia].
Qed.

Lemma SFeqb_key x y : f64_num x -> f64_num y -> SFeqb x y = true <-> f64_key x = f64_key y.
Proof.
  intros Hx Hy. pose proof (SFcompare_key x y Hx Hy) as Hc. unfold SFeqb.
  destruct (SFcompare x y) as [[]|]; [done | | | done]; split; try done; unfold key_lt in *;
    intros E; rewrite E in Hc; lia.
Qed.

(** *** A product with a finite factor is a number *)

Definition f64_finite (x : spec_float) : Prop :=
  match x with S754_zero _ | S754_finite _ _ _ => True | _ => False end.

Lemma shr_fexp_nonneg m e l : 0 <= m -> 0 <= shr_m (shr_fexp 53 1024 m e l).1.
Proof.
  intros Hm. unfold shr_fexp, shr. destruct (fexp _ _ _ - e) as [|p|p]; cbn [fst];
    rewrite ?iter_shr_floor, ?shr_record_m by (rewrite ?shr_record_m; done); [done | | done].
  apply Z.div_pos; [done |]. apply Z.pow_pos_nonneg; lia.
Qed.

Lemma round_aux_num s m e l : 0 <= m -> f64_num (binary_round_aux 53 1024 s m e l).
Proof.
  intros Hm. unfold binary_round_aux. pose proof (shr_fexp_nonneg m e l Hm) as H1.
  destruct (shr_fexp 53 1024 m e l) as [r1 e1]. cbn [fst] in H1.
  assert (H2 : 0 <= round_nearest_even (shr_m r1) (loc_of_shr_record r1)).
  { destruct (loc_of_shr_record r1) as [|[]]; cbn; try lia. destruct (Z.even _); lia. }
  pose proof (shr_fexp_nonneg _ e1 loc_Exact H2) as H3.
  destruct (shr_fexp 53 1024 (round_nearest_even _ _) e1 loc_Exact) as [r2 e2]. cbn [fst] in H3.
  unfold f64_num. destruct (shr_m r2); [done | by case_match | lia].
Qed.

Lemma f64_mul_num x y : f64_finite x -> f64_finite y -> f64_num (f64_mul x y).
Proof.
  intros Hx Hy. destruct x, y; try done. unfold f64_mul, SFmul. by apply round_aux_num.
Qed.

Lemma f64_of_int_finite n : 0 <= n < 2 ^ 64 -> f64_finite (f64_of_int n).
Proof.
  intros Hn. destruct (decide (n = 0)) as [-> | Hn0]; [done |].
  destruct (decide (n < 2 ^ 53)) as [Hs | Hs].
  { destruct (f64_of_int_exact n) as (m & e & -> & _); [lia | done]. }
  destruct n as [|p|]; try lia. unfold f64_of_int, binary_normalize, binary_round.
  assert (Hd : 53 < Z.pos (digits2_pos p)).
  { pose proof (digits_bounds p). assert (2 ^ 53 < 2 ^ Z.pos (digits2_pos p)) as Hlt by lia.
    apply Z.pow_lt_mono_r_iff in Hlt; lia. }
  unfold fexp, emin, shl_align. rewrite Z.max_l by lia.
  destruct (Z.pos (digits2_pos p) + 0 - 53 - 0) as [|k|k] eqn:Ek; try lia.
  destruct (round_aux_spec (Z.pos p) 0 loc_Exact) as (r & _ & _ & m & e & E & _); [lia | lia | | by rewrite E].
  eapply Z.lt_trans; [apply Hn |]. apply Z.pow_lt_mono_r; lia.
Qed.
