(* ===== verification/Model.v ===== *)
(** * The data model (urlkey.go, record.go, message.go, signal.go)

    The 128-bit [URLKey], the durable per-URL and per-host records, and the
    discovery and outcome messages.  Integers are [Z] in their width
    ([url_wf], [host_wf]); a float32 field is its 32-bit pattern, the form the
    file and the log store; a string is the list of its bytes. *)

From S2P Require Import Prelude Words.
Open Scope Z_scope.

(** ** URLKey *)

Record URLKey := mkKey { HostKey : Z; PathKey : Z }.

#[export] Instance URLKey_eq_dec : EqDecision URLKey.
Proof. solve_decision. Defined.

#[export] Instance URLKey_countable : Countable URLKey.
Proof.
  refine (inj_countable' (fun k => (HostKey k, PathKey k)) (fun p => mkKey p.1 p.2) _).
  by intros [? ?].
Defined.

#[export] Instance URLKey_inhabited : Inhabited URLKey := populate (mkKey 0 0).

Definition key_wf (k : URLKey) : Prop := fits 64 (HostKey k) /\ fits 64 (PathKey k).

Definition Less (a b : URLKey) : bool :=
  if negb (HostKey a =? HostKey b) then HostKey a <? HostKey b
  else PathKey a <? PathKey b.

Definition Compare (a b : URLKey) : Z :=
  if HostKey a <? HostKey b then -1
  else if HostKey b <? HostKey a then 1
  else if PathKey a <? PathKey b then -1
  else if PathKey b <? PathKey a then 1
  else 0.

Definition Bytes (k : URLKey) : list Z := le_bytes 8 (HostKey k) ++ le_bytes 8 (PathKey k).

Definition URLKeyFromBytes (b : list Z) : URLKey :=
  mkKey (le_val (slice b 0 8)) (le_val (slice b 8 16)).

(** The logical order of the table: the key as one 128-bit big-endian integer. *)
Definition key_int (k : URLKey) : Z := HostKey k * 2 ^ 64 + PathKey k.

Definition key_le (a b : URLKey) : Prop := Less b a = false.
#[export] Instance key_le_dec a b : Decision (key_le a b).
Proof. unfold key_le. apply _. Defined.

(** ** Hashing

    xxHash64 is a third-party package: it is a parameter.  [HostKeyOf] and
    [PathKeyOf] are the two ways the source calls it. *)
Class XXHash := { xxh64 : list Z -> Z }.
Class XXHashLaws `{XXHash} := { xxh64_fits : forall s, fits 64 (xxh64 s) }.

Definition pathSeed : Z := 0x9E3779B97F4A7C15.

Definition HostKeyOf `{XXHash} (grouping : list Z) : Z := xxh64 grouping.
Definition PathKeyOf `{XXHash} (pathAndQuery : list Z) : Z :=
  xxh64 (le_bytes 8 pathSeed ++ pathAndQuery).
Definition MakeURLKey `{XXHash} (grouping pathAndQuery : list Z) : URLKey :=
  mkKey (HostKeyOf grouping) (PathKeyOf pathAndQuery).

(** ** Records *)

Inductive URLStatus :=
  | StatusDiscovered | StatusScheduled | StatusReady | StatusInFlight | StatusCrawled
  | StatusDueRecrawl | StatusGone | StatusExcludedRobots | StatusTrapped
  | StatusOther (n : Z).   (** a value outside the named states *)

#[export] Instance URLStatus_eq_dec : EqDecision URLStatus.
Proof. solve_decision. Defined.

Definition status_code (s : URLStatus) : Z :=
  match s with
  | StatusDiscovered => 0 | StatusScheduled => 1 | StatusReady => 2 | StatusInFlight => 3
  | StatusCrawled => 4 | StatusDueRecrawl => 5 | StatusGone => 6
  | StatusExcludedRobots => 7 | StatusTrapped => 8 | StatusOther n => n
  end.

(** The conversion [URLStatus(n)] of a byte read from a file. *)
Definition status_of (n : Z) : URLStatus :=
  match n with
  | 0 => StatusDiscovered | 1 => StatusScheduled | 2 => StatusReady | 3 => StatusInFlight
  | 4 => StatusCrawled | 5 => StatusDueRecrawl | 6 => StatusGone
  | 7 => StatusExcludedRobots | 8 => StatusTrapped | _ => StatusOther n
  end.

Definition status_wf (s : URLStatus) : Prop :=
  match s with StatusOther n => 9 <= n < 256 | _ => True end.

(** [DiscoverySource], [AnchorHint] and [HostGrouping] stay numeric: nothing in
    the modelled code branches on them. *)
Definition SourceSeed : Z := 0.
Definition SourceLink : Z := 1.
Definition SourceSitemap : Z := 2.
Definition SourceRedirect : Z := 3.
Definition SourceManual : Z := 4.

Record URLRecord := mkURL {
  r_URLKey : URLKey;
  r_HostKey : Z;
  r_Status : URLStatus;
  r_Priority : Z;
  r_Depth : Z;
  r_DiscoverySource : Z;
  r_URLRef : Z;
  r_FirstSeen : Z;
  r_LastCrawled : Z;
  r_LastChanged : Z;
  r_NextDue : Z;
  r_Lambda : Z;
  r_CrawlCount : Z;
  r_ChangeCount : Z;
  r_NoChangeStreak : Z;
  r_ETagRef : Z;
  r_LastModified : Z;
  r_ContentFP : Z;
  r_Simhash : Z;
  r_HTTPStatus : Z;
  r_RedirectRef : Z;
  r_RetryCount : Z;
  r_ErrorCount : Z
}.

Definition url_wf (r : URLRecord) : Prop :=
  key_wf (r_URLKey r) /\ r_HostKey r = HostKey (r_URLKey r) /\ status_wf (r_Status r) /\
  fits 32 (r_Priority r) /\ fits 16 (r_Depth r) /\ fits 8 (r_DiscoverySource r) /\
  fits 64 (r_URLRef r) /\ fits 32 (r_FirstSeen r) /\ fits 32 (r_LastCrawled r) /\
  fits 32 (r_LastChanged r) /\ fits 32 (r_NextDue r) /\ fits 32 (r_Lambda r) /\
  fits 32 (r_CrawlCount r) /\ fits 32 (r_ChangeCount r) /\ fits 16 (r_NoChangeStreak r) /\
  fits 64 (r_ETagRef r) /\ fits 32 (r_LastModified r) /\ fits 64 (r_ContentFP r) /\
  fits 64 (r_Simhash r) /\ fits 16 (r_HTTPStatus r) /\ fits 64 (r_RedirectRef r) /\
  fits 8 (r_RetryCount r) /\ fits 16 (r_ErrorCount r).

#[export] Instance status_wf_dec s : Decision (status_wf s).
Proof. destruct s; cbn; apply _. Defined.
#[export] Instance url_wf_dec r : Decision (url_wf r).
Proof. unfold url_wf, key_wf. apply _. Defined.

Definition HostFlagTrapSuspect : Z := 1.
Definition HostFlagRobotsMissing : Z := 2.
Definition HostFlagDeadHost : Z := 4.
Definition HostFlagGroupingOverride : Z := 8.

Record HostRecord := mkHost {
  h_HostKey : Z;
  h_HostRef : Z;
  h_Grouping : Z;
  h_RegistrableRef : Z;
  h_ResolvedIP : list Z;
  h_IPExpiry : Z;
  h_RobotsFetched : Z;
  h_RobotsExpiry : Z;
  h_RobotsRef : Z;
  h_CrawlDelay : Z;
  h_HostNextEligible : Z;
  h_IPNextEligible : Z;
  h_URLBudget : Z;
  h_URLCount : Z;
  h_DepthCap : Z;
  h_HostScore : Z;
  h_CrawlTotal : Z;
  h_ErrorTotal : Z;
  h_AvgLatency : Z;
  h_Flags : Z
}.

Definition host_wf (h : HostRecord) : Prop :=
  fits 64 (h_HostKey h) /\ fits 64 (h_HostRef h) /\ fits 8 (h_Grouping h) /\
  fits 64 (h_RegistrableRef h) /\
  (length (h_ResolvedIP h) = 16%nat /\ Forall byte_ok (h_ResolvedIP h)) /\
  fits 32 (h_IPExpiry h) /\ fits 32 (h_RobotsFetched h) /\ fits 32 (h_RobotsExpiry h) /\
  fits 64 (h_RobotsRef h) /\ fits 16 (h_CrawlDelay h) /\ fits 32 (h_HostNextEligible h) /\
  fits 32 (h_IPNextEligible h) /\ fits 32 (h_URLBudget h) /\ fits 32 (h_URLCount h) /\
  fits 16 (h_DepthCap h) /\ fits 32 (h_HostScore h) /\ fits 32 (h_CrawlTotal h) /\
  fits 32 (h_ErrorTotal h) /\ fits 16 (h_AvgLatency h) /\ fits 16 (h_Flags h).

#[export] Instance host_wf_dec h : Decision (host_wf h).
Proof. unfold host_wf, byte_ok. apply _. Defined.

#[export] Instance URLRecord_eq_dec : EqDecision URLRecord.
Proof. solve_decision. Defined.
#[export] Instance HostRecord_eq_dec : EqDecision HostRecord.
Proof. solve_decision. Defined.

(** ** Messages *)

Record Discovery := mkDisc {
  d_URLKey : URLKey;
  d_CanonicalURL : list Z;
  d_Depth : Z;
  d_DiscoverySource : Z;
  d_SrcHostKey : Z;
  d_LinkWeight : Z;
  d_AnchorHint : Z;
  d_ObservedAt : Z
}.

Definition disc_wf (d : Discovery) : Prop :=
  key_wf (d_URLKey d) /\ Forall byte_ok (d_CanonicalURL d) /\ fits 16 (d_Depth d) /\
  fits 8 (d_DiscoverySource d) /\ fits 64 (d_SrcHostKey d) /\ fits 32 (d_LinkWeight d) /\
  fits 8 (d_AnchorHint d) /\ fits 32 (d_ObservedAt d).

#[export] Instance Discovery_eq_dec : EqDecision Discovery.
Proof. solve_decision. Defined.

Record Outcome := mkOutcome {
  o_URLKey : URLKey;
  o_HTTPStatus : Z;
  o_FetchedAt : Z;
  o_LatencyMS : Z;
  o_NotModified : bool;
  o_ContentFP : Z;
  o_Simhash : Z;
  o_ContentLen : Z;
  o_ETag : list Z;
  o_LastModified : Z;
  o_RedirectTarget : list Z;
  o_Retryable : bool;
  o_RetryAfter : Z;
  o_RobotsCrawlDelay : Z;
  o_RobotsBody : list Z;
  o_Links : list Discovery
}.

Record HostSignal := mkHostSignal { hs_HostKey : Z; hs_HostScore : Z }.
Record URLSignal := mkURLSignal { us_URLKey : URLKey; us_PageRank : Z }.
Record Signal := mkSignal {
  s_Epoch : Z;
  s_Hosts : list HostSignal;
  s_URLs : list URLSignal
}.

(** ** Lemmas on keys *)

Lemma Less_key_int a b :
  key_wf a -> key_wf b -> Less a b = (key_int a <? key_int b).
Proof.
  intros [Ha1 Ha2] [Hb1 Hb2]. unfold Less, key_int, fits in *.
  destruct (Z.eqb_spec (HostKey a) (HostKey b)) as [E | E]; simpl.
  - rewrite E. apply eq_true_iff_eq. rewrite !Z.ltb_lt. lia.
  - apply eq_true_iff_eq. rewrite !Z.ltb_lt. nia.
Qed.

Lemma key_int_inj a b : key_wf a -> key_wf b -> key_int a = key_int b -> a = b.
Proof.
  destruct a as [h p], b as [h' p']. unfold key_wf, key_int, fits. simpl.
  intros [? ?] [? ?] ?. f_equal; nia.
Qed.

Lemma Less_irrefl a : Less a a = false.
Proof. unfold Less. rewrite Z.eqb_refl. simpl. apply Z.ltb_irrefl. Qed.

Lemma Less_spec a b :
  Less a b = true <-> HostKey a < HostKey b \/ (HostKey a = HostKey b /\ PathKey a < PathKey b).
Proof.
  unfold Less. destruct (Z.eqb_spec (HostKey a) (HostKey b)); simpl; rewrite Z.ltb_lt; lia.
Qed.

Lemma key_le_spec a b :
  key_le a b <-> HostKey a < HostKey b \/ (HostKey a = HostKey b /\ PathKey a <= PathKey b).
Proof. unfold key_le. rewrite <- not_true_iff_false, Less_spec. lia. Qed.

#[export] Instance key_le_trans : Transitive key_le.
Proof. intros a b c. rewrite !key_le_spec. lia. Qed.
#[export] Instance key_le_refl : Reflexive key_le.
Proof. intros a. rewrite key_le_spec. lia. Qed.
#[export] Instance key_le_total : Total key_le.
Proof. intros a b. rewrite !key_le_spec. lia. Qed.
#[export] Instance key_le_antisymm : AntiSymm (=) key_le.
Proof. intros [] []. rewrite !key_le_spec. simpl. intros. f_equal; lia. Qed.

Lemma Less_key_le a b : Less a b = true -> key_le a b.
Proof. rewrite Less_spec, key_le_spec. lia. Qed.

Lemma Less_not_le a b : Less a b = true <-> ~ key_le b a.
Proof. rewrite Less_spec, key_le_spec. lia. Qed.

Lemma status_of_code s : status_wf s -> status_of (status_code s) = s.
Proof.
  destruct s as [| | | | | | | | | n]; try done. simpl. intros [? ?].
  destruct n as [|p|p]; try lia. do 9 (destruct p as [p|p|]; try lia; try done).
Qed.

Lemma status_code_fits s : status_wf s -> fits 8 (status_code s).
Proof. destruct s; simpl; unfold fits; lia. Qed.
#[export] Hint Resolve status_code_fits : words.

(** ** Properties *)

(** The 16-byte wire form of a key decodes back to the key, and the order
    used to sort the URL table ([Less], and [Compare] agreeing with it) is the
    order of the key read as one 128-bit big-endian integer. *)
Theorem urlkey_order_and_bytes (a b : URLKey) (Ha : key_wf a) (Hb : key_wf b) :
  URLKeyFromBytes (Bytes a) = a /\ length (Bytes a) = 16%nat /\
  (Less a b = true <-> key_int a < key_int b) /\
  (Compare a b = -1 <-> Less a b = true) /\
  (Compare a b = 1 <-> Less b a = true) /\
  (Compare a b = 0 <-> a = b).
Proof.
  split_and!.
  - destruct a as [h p], Ha as [Hh Hp]. unfold URLKeyFromBytes, Bytes, slice. cbn [HostKey PathKey].
    rewrite drop_0, take_app_exact by by rewrite le_bytes_length.
    rewrite drop_app_exact by by rewrite le_bytes_length.
    rewrite take_ge by (rewrite le_bytes_length; lia).
    by rewrite !le_val_bytes_fits.
  - unfold Bytes. by rewrite length_app, !le_bytes_length.
  - by rewrite Less_key_int, Z.ltb_lt.
  - rewrite Less_spec. unfold Compare. repeat case_match; bool_prop; lia.
  - rewrite Less_spec. unfold Compare. repeat case_match; bool_prop; lia.
  - destruct a as [h p], b as [h' p']. unfold Compare; cbn [HostKey PathKey].
    repeat case_match; bool_prop; split; intros; simplify_eq; try lia. f_equal; lia.
Qed.

Lemma urlkey_order_and_bytes_witness :
  Less (mkKey 1 5) (mkKey 2 3) = true.
Proof.
  apply (urlkey_order_and_bytes (mkKey 1 5) (mkKey 2 3));
    [split; split; reflexivity || discriminate .. | reflexivity].
Defined.
