(* ===== verification/Updates.v ===== *)
(** * Assignments to the fields of the durable records

    Go assigns a field through a pointer; each definition here is one such assignment,
    the record with the field replaced. *)

From S2P Require Import Prelude Model.
Open Scope Z_scope.

(** ** URLRecord *)

Definition set_Status (r : URLRecord) (x : URLStatus) : URLRecord :=
  mkURL (r_URLKey r) (r_HostKey r) x (r_Priority r) (r_Depth r) (r_DiscoverySource r) (r_URLRef r)
    (r_FirstSeen r) (r_LastCrawled r) (r_LastChanged r) (r_NextDue r) (r_Lambda r) (r_CrawlCount r)
    (r_ChangeCount r) (r_NoChangeStreak r) (r_ETagRef r) (r_LastModified r) (r_ContentFP r) (r_Simhash r)
    (r_HTTPStatus r) (r_RedirectRef r) (r_RetryCount r) (r_ErrorCount r).
Definition set_Priority (r : URLRecord) (x : Z) : URLRecord :=
  mkURL (r_URLKey r) (r_HostKey r) (r_Status r) x (r_Depth r) (r_DiscoverySource r) (r_URLRef r) (r_FirstSeen r)
    (r_LastCrawled r) (r_LastChanged r) (r_NextDue r) (r_Lambda r) (r_CrawlCount r) (r_ChangeCount r)
    (r_NoChangeStreak r) (r_ETagRef r) (r_LastModified r) (r_ContentFP r) (r_Simhash r) (r_HTTPStatus r)
    (r_RedirectRef r) (r_RetryCount r) (r_ErrorCount r).
Definition set_FirstSeen (r : URLRecord) (x : Z) : URLRecord :=
  mkURL (r_URLKey r) (r_HostKey r) (r_Status r) (r_Priority r) (r_Depth r) (r_DiscoverySource r) (r_URLRef r) x
    (r_LastCrawled r) (r_LastChanged r) (r_NextDue r) (r_Lambda r) (r_CrawlCount r) (r_ChangeCount r)
    (r_NoChangeStreak r) (r_ETagRef r) (r_LastModified r) (r_ContentFP r) (r_Simhash r) (r_HTTPStatus r)
    (r_RedirectRef r) (r_RetryCount r) (r_ErrorCount r).
Definition set_LastCrawled (r : URLRecord) (x : Z) : URLRecord :=
  mkURL (r_URLKey r) (r_HostKey r) (r_Status r) (r_Priority r) (r_Depth r) (r_DiscoverySource r) (r_URLRef r)
    (r_FirstSeen r) x (r_LastChanged r) (r_NextDue r) (r_Lambda r) (r_CrawlCount r) (r_ChangeCount r)
    (r_NoChangeStreak r) (r_ETagRef r) (r_LastModified r) (r_ContentFP r) (r_Simhash r) (r_HTTPStatus r)
    (r_RedirectRef r) (r_RetryCount r) (r_ErrorCount r).
Definition set_LastChanged (r : URLRecord) (x : Z) : URLRecord :=
  mkURL (r_URLKey r) (r_HostKey r) (r_Status r) (r_Priority r) (r_Depth r) (r_DiscoverySource r) (r_URLRef r)
    (r_FirstSeen r) (r_LastCrawled r) x (r_NextDue r) (r_Lambda r) (r_CrawlCount r) (r_ChangeCount r)
    (r_NoChangeStreak r) (r_ETagRef r) (r_LastModified r) (r_ContentFP r) (r_Simhash r) (r_HTTPStatus r)
    (r_RedirectRef r) (r_RetryCount r) (r_ErrorCount r).
Definition set_NextDue (r : URLRecord) (x : Z) : URLRecord :=
  mkURL (r_URLKey r) (r_HostKey r) (r_Status r) (r_Priority r) (r_Depth r) (r_DiscoverySource r) (r_URLRef r)
    (r_FirstSeen r) (r_LastCrawled r) (r_LastChanged r) x (r_Lambda r) (r_CrawlCount r) (r_ChangeCount r)
    (r_NoChangeStreak r) (r_ETagRef r) (r_LastModified r) (r_ContentFP r) (r_Simhash r) (r_HTTPStatus r)
    (r_RedirectRef r) (r_RetryCount r) (r_ErrorCount r).
Definition set_Lambda (r : URLRecord) (x : Z) : URLRecord :=
  mkURL (r_URLKey r) (r_HostKey r) (r_Status r) (r_Priority r) (r_Depth r) (r_DiscoverySource r) (r_URLRef r)
    (r_FirstSeen r) (r_LastCrawled r) (r_LastChanged r) (r_NextDue r) x (r_CrawlCount r) (r_ChangeCount r)
    (r_NoChangeStreak r) (r_ETagRef r) (r_LastModified r) (r_ContentFP r) (r_Simhash r) (r_HTTPStatus r)
    (r_RedirectRef r) (r_RetryCount r) (r_ErrorCount r).
Definition set_CrawlCount (r : URLRecord) (x : Z) : URLRecord :=
  mkURL (r_URLKey r) (r_HostKey r) (r_Status r) (r_Priority r) (r_Depth r) (r_DiscoverySource r) (r_URLRef r)
    (r_FirstSeen r) (r_LastCrawled r) (r_LastChanged r) (r_NextDue r) (r_Lambda r) x (r_ChangeCount r)
    (r_NoChangeStreak r) (r_ETagRef r) (r_LastModified r) (r_ContentFP r) (r_Simhash r) (r_HTTPStatus r)
    (r_RedirectRef r) (r_RetryCount r) (r_ErrorCount r).
Definition set_ChangeCount (r : URLRecord) (x : Z) : URLRecord :=
  mkURL (r_URLKey r) (r_HostKey r) (r_Status r) (r_Priority r) (r_Depth r) (r_DiscoverySource r) (r_URLRef r)
    (r_FirstSeen r) (r_LastCrawled r) (r_LastChanged r) (r_NextDue r) (r_Lambda r) (r_CrawlCount r) x
    (r_NoChangeStreak r) (r_ETagRef r) (r_LastModified r) (r_ContentFP r) (r_Simhash r) (r_HTTPStatus r)
    (r_RedirectRef r) (r_RetryCount r) (r_ErrorCount r).
Definition set_NoChangeStreak (r : URLRecord) (x : Z) : URLRecord :=
  mkURL (r_URLKey r) (r_HostKey r) (r_Status r) (r_Priority r) (r_Depth r) (r_DiscoverySource r) (r_URLRef r)
    (r_FirstSeen r) (r_LastCrawled r) (r_LastChanged r) (r_NextDue r) (r_Lambda r) (r_CrawlCount r)
    (r_ChangeCount r) x (r_ETagRef r) (r_LastModified r) (r_ContentFP r) (r_Simhash r) (r_HTTPStatus r)
    (r_RedirectRef r) (r_RetryCount r) (r_ErrorCount r).
Definition set_ETagRef (r : URLRecord) (x : Z) : URLRecord :=
  mkURL (r_URLKey r) (r_HostKey r) (r_Status r) (r_Priority r) (r_Depth r) (r_DiscoverySource r) (r_URLRef r)
    (r_FirstSeen r) (r_LastCrawled r) (r_LastChanged r) (r_NextDue r) (r_Lambda r) (r_CrawlCount r)
    (r_ChangeCount r) (r_NoChangeStreak r) x (r_LastModified r) (r_ContentFP r) (r_Simhash r) (r_HTTPStatus r)
    (r_RedirectRef r) (r_RetryCount r) (r_ErrorCount r).
Definition set_LastModified (r : URLRecord) (x : Z) : URLRecord :=
  mkURL (r_URLKey r) (r_HostKey r) (r_Status r) (r_Priority r) (r_Depth r) (r_DiscoverySource r) (r_URLRef r)
    (r_FirstSeen r) (r_LastCrawled r) (r_LastChanged r) (r_NextDue r) (r_Lambda r) (r_CrawlCount r)
    (r_ChangeCount r) (r_NoChangeStreak r) (r_ETagRef r) x (r_ContentFP r) (r_Simhash r) (r_HTTPStatus r)
    (r_RedirectRef r) (r_RetryCount r) (r_ErrorCount r).
Definition set_ContentFP (r : URLRecord) (x : Z) : URLRecord :=
  mkURL (r_URLKey r) (r_HostKey r) (r_Status r) (r_Priority r) (r_Depth r) (r_DiscoverySource r) (r_URLRef r)
    (r_FirstSeen r) (r_LastCrawled r) (r_LastChanged r) (r_NextDue r) (r_Lambda r) (r_CrawlCount r)
    (r_ChangeCount r) (r_NoChangeStreak r) (r_ETagRef r) (r_LastModified r) x (r_Simhash r) (r_HTTPStatus r)
    (r_RedirectRef r) (r_RetryCount r) (r_ErrorCount r).
Definition set_Simhash (r : URLRecord) (x : Z) : URLRecord :=
  mkURL (r_URLKey r) (r_HostKey r) (r_Status r) (r_Priority r) (r_Depth r) (r_DiscoverySource r) (r_URLRef r)
    (r_FirstSeen r) (r_LastCrawled r) (r_LastChanged r) (r_NextDue r) (r_Lambda r) (r_CrawlCount r)
    (r_ChangeCount r) (r_NoChangeStreak r) (r_ETagRef r) (r_LastModified r) (r_ContentFP r) x (r_HTTPStatus r)
    (r_RedirectRef r) (r_RetryCount r) (r_ErrorCount r).
Definition set_HTTPStatus (r : URLRecord) (x : Z) : URLRecord :=
  mkURL (r_URLKey r) (r_HostKey r) (r_Status r) (r_Priority r) (r_Depth r) (r_DiscoverySource r) (r_URLRef r)
    (r_FirstSeen r) (r_LastCrawled r) (r_LastChanged r) (r_NextDue r) (r_Lambda r) (r_CrawlCount r)
    (r_ChangeCount r) (r_NoChangeStreak r) (r_ETagRef r) (r_LastModified r) (r_ContentFP r) (r_Simhash r) x
    (r_RedirectRef r) (r_RetryCount r) (r_ErrorCount r).
Definition set_RedirectRef (r : URLRecord) (x : Z) : URLRecord :=
  mkURL (r_URLKey r) (r_HostKey r) (r_Status r) (r_Priority r) (r_Depth r) (r_DiscoverySource r) (r_URLRef r)
    (r_FirstSeen r) (r_LastCrawled r) (r_LastChanged r) (r_NextDue r) (r_Lambda r) (r_CrawlCount r)
    (r_ChangeCount r) (r_NoChangeStreak r) (r_ETagRef r) (r_LastModified r) (r_ContentFP r) (r_Simhash r)
    (r_HTTPStatus r) x (r_RetryCount r) (r_ErrorCount r).
Definition set_RetryCount (r : URLRecord) (x : Z) : URLRecord :=
  mkURL (r_URLKey r) (r_HostKey r) (r_Status r) (r_Priority r) (r_Depth r) (r_DiscoverySource r) (r_URLRef r)
    (r_FirstSeen r) (r_LastCrawled r) (r_LastChanged r) (r_NextDue r) (r_Lambda r) (r_CrawlCount r)
    (r_ChangeCount r) (r_NoChangeStreak r) (r_ETagRef r) (r_LastModified r) (r_ContentFP r) (r_Simhash r)
    (r_HTTPStatus r) (r_RedirectRef r) x (r_ErrorCount r).
Definition set_ErrorCount (r : URLRecord) (x : Z) : URLRecord :=
  mkURL (r_URLKey r) (r_HostKey r) (r_Status r) (r_Priority r) (r_Depth r) (r_DiscoverySource r) (r_URLRef r)
    (r_FirstSeen r) (r_LastCrawled r) (r_LastChanged r) (r_NextDue r) (r_Lambda r) (r_CrawlCount r)
    (r_ChangeCount r) (r_NoChangeStreak r) (r_ETagRef r) (r_LastModified r) (r_ContentFP r) (r_Simhash r)
    (r_HTTPStatus r) (r_RedirectRef r) (r_RetryCount r) x.

(** ** HostRecord *)

Definition hset_ResolvedIP (h : HostRecord) (x : list Z) : HostRecord :=
  mkHost (h_HostKey h) (h_HostRef h) (h_Grouping h) (h_RegistrableRef h) x (h_IPExpiry h) (h_RobotsFetched h)
    (h_RobotsExpiry h) (h_RobotsRef h) (h_CrawlDelay h) (h_HostNextEligible h) (h_IPNextEligible h)
    (h_URLBudget h) (h_URLCount h) (h_DepthCap h) (h_HostScore h) (h_CrawlTotal h) (h_ErrorTotal h)
    (h_AvgLatency h) (h_Flags h).
Definition hset_IPExpiry (h : HostRecord) (x : Z) : HostRecord :=
  mkHost (h_HostKey h) (h_HostRef h) (h_Grouping h) (h_RegistrableRef h) (h_ResolvedIP h) x (h_RobotsFetched h)
    (h_RobotsExpiry h) (h_RobotsRef h) (h_CrawlDelay h) (h_HostNextEligible h) (h_IPNextEligible h)
    (h_URLBudget h) (h_URLCount h) (h_DepthCap h) (h_HostScore h) (h_CrawlTotal h) (h_ErrorTotal h)
    (h_AvgLatency h) (h_Flags h).
Definition hset_RobotsFetched (h : HostRecord) (x : Z) : HostRecord :=
  mkHost (h_HostKey h) (h_HostRef h) (h_Grouping h) (h_RegistrableRef h) (h_ResolvedIP h) (h_IPExpiry h) x
    (h_RobotsExpiry h) (h_RobotsRef h) (h_CrawlDelay h) (h_HostNextEligible h) (h_IPNextEligible h)
    (h_URLBudget h) (h_URLCount h) (h_DepthCap h) (h_HostScore h) (h_CrawlTotal h) (h_ErrorTotal h)
    (h_AvgLatency h) (h_Flags h).
Definition hset_RobotsExpiry (h : HostRecord) (x : Z) : HostRecord :=
  mkHost (h_HostKey h) (h_HostRef h) (h_Grouping h) (h_RegistrableRef h) (h_ResolvedIP h) (h_IPExpiry h)
    (h_RobotsFetched h) x (h_RobotsRef h) (h_CrawlDelay h) (h_HostNextEligible h) (h_IPNextEligible h)
    (h_URLBudget h) (h_URLCount h) (h_DepthCap h) (h_HostScore h) (h_CrawlTotal h) (h_ErrorTotal h)
    (h_AvgLatency h) (h_Flags h).
Definition hset_CrawlDelay (h : HostRecord) (x : Z) : HostRecord :=
  mkHost (h_HostKey h) (h_HostRef h) (h_Grouping h) (h_RegistrableRef h) (h_ResolvedIP h) (h_IPExpiry h)
    (h_RobotsFetched h) (h_RobotsExpiry h) (h_RobotsRef h) x (h_HostNextEligible h) (h_IPNextEligible h)
    (h_URLBudget h) (h_URLCount h) (h_DepthCap h) (h_HostScore h) (h_CrawlTotal h) (h_ErrorTotal h)
    (h_AvgLatency h) (h_Flags h).
Definition hset_HostNextEligible (h : HostRecord) (x : Z) : HostRecord :=
  mkHost (h_HostKey h) (h_HostRef h) (h_Grouping h) (h_RegistrableRef h) (h_ResolvedIP h) (h_IPExpiry h)
    (h_RobotsFetched h) (h_RobotsExpiry h) (h_RobotsRef h) (h_CrawlDelay h) x (h_IPNextEligible h)
    (h_URLBudget h) (h_URLCount h) (h_DepthCap h) (h_HostScore h) (h_CrawlTotal h) (h_ErrorTotal h)
    (h_AvgLatency h) (h_Flags h).
Definition hset_IPNextEligible (h : HostRecord) (x : Z) : HostRecord :=
  mkHost (h_HostKey h) (h_HostRef h) (h_Grouping h) (h_RegistrableRef h) (h_ResolvedIP h) (h_IPExpiry h)
    (h_RobotsFetched h) (h_RobotsExpiry h) (h_RobotsRef h) (h_CrawlDelay h) (h_HostNextEligible h) x
    (h_URLBudget h) (h_URLCount h) (h_DepthCap h) (h_HostScore h) (h_CrawlTotal h) (h_ErrorTotal h)
    (h_AvgLatency h) (h_Flags h).
Definition hset_URLBudget (h : HostRecord) (x : Z) : HostRecord :=
  mkHost (h_HostKey h) (h_HostRef h) (h_Grouping h) (h_RegistrableRef h) (h_ResolvedIP h) (h_IPExpiry h)
    (h_RobotsFetched h) (h_RobotsExpiry h) (h_RobotsRef h) (h_CrawlDelay h) (h_HostNextEligible h)
    (h_IPNextEligible h) x (h_URLCount h) (h_DepthCap h) (h_HostScore h) (h_CrawlTotal h) (h_ErrorTotal h)
    (h_AvgLatency h) (h_Flags h).
Definition hset_URLCount (h : HostRecord) (x : Z) : HostRecord :=
  mkHost (h_HostKey h) (h_HostRef h) (h_Grouping h) (h_RegistrableRef h) (h_ResolvedIP h) (h_IPExpiry h)
    (h_RobotsFetched h) (h_RobotsExpiry h) (h_RobotsRef h) (h_CrawlDelay h) (h_HostNextEligible h)
    (h_IPNextEligible h) (h_URLBudget h) x (h_DepthCap h) (h_HostScore h) (h_CrawlTotal h) (h_ErrorTotal h)
    (h_AvgLatency h) (h_Flags h).
Definition hset_HostScore (h : HostRecord) (x : Z) : HostRecord :=
  mkHost (h_HostKey h) (h_HostRef h) (h_Grouping h) (h_RegistrableRef h) (h_ResolvedIP h) (h_IPExpiry h)
    (h_RobotsFetched h) (h_RobotsExpiry h) (h_RobotsRef h) (h_CrawlDelay h) (h_HostNextEligible h)
    (h_IPNextEligible h) (h_URLBudget h) (h_URLCount h) (h_DepthCap h) x (h_CrawlTotal h) (h_ErrorTotal h)
    (h_AvgLatency h) (h_Flags h).
Definition hset_CrawlTotal (h : HostRecord) (x : Z) : HostRecord :=
  mkHost (h_HostKey h) (h_HostRef h) (h_Grouping h) (h_RegistrableRef h) (h_ResolvedIP h) (h_IPExpiry h)
    (h_RobotsFetched h) (h_RobotsExpiry h) (h_RobotsRef h) (h_CrawlDelay h) (h_HostNextEligible h)
    (h_IPNextEligible h) (h_URLBudget h) (h_URLCount h) (h_DepthCap h) (h_HostScore h) x (h_ErrorTotal h)
    (h_AvgLatency h) (h_Flags h).
Definition hset_ErrorTotal (h : HostRecord) (x : Z) : HostRecord :=
  mkHost (h_HostKey h) (h_HostRef h) (h_Grouping h) (h_RegistrableRef h) (h_ResolvedIP h) (h_IPExpiry h)
    (h_RobotsFetched h) (h_RobotsExpiry h) (h_RobotsRef h) (h_CrawlDelay h) (h_HostNextEligible h)
    (h_IPNextEligible h) (h_URLBudget h) (h_URLCount h) (h_DepthCap h) (h_HostScore h) (h_CrawlTotal h) x
    (h_AvgLatency h) (h_Flags h).
Definition hset_AvgLatency (h : HostRecord) (x : Z) : HostRecord :=
  mkHost (h_HostKey h) (h_HostRef h) (h_Grouping h) (h_RegistrableRef h) (h_ResolvedIP h) (h_IPExpiry h)
    (h_RobotsFetched h) (h_RobotsExpiry h) (h_RobotsRef h) (h_CrawlDelay h) (h_HostNextEligible h)
    (h_IPNextEligible h) (h_URLBudget h) (h_URLCount h) (h_DepthCap h) (h_HostScore h) (h_CrawlTotal h)
    (h_ErrorTotal h) x (h_Flags h).
Definition hset_Flags (h : HostRecord) (x : Z) : HostRecord :=
  mkHost (h_HostKey h) (h_HostRef h) (h_Grouping h) (h_RegistrableRef h) (h_ResolvedIP h) (h_IPExpiry h)
    (h_RobotsFetched h) (h_RobotsExpiry h) (h_RobotsRef h) (h_CrawlDelay h) (h_HostNextEligible h)
    (h_IPNextEligible h) (h_URLBudget h) (h_URLCount h) (h_DepthCap h) (h_HostScore h) (h_CrawlTotal h)
    (h_ErrorTotal h) (h_AvgLatency h) x.
