(* ===== verification/Rbuf.v ===== *)
(** * Sequential buffers and checksums (format/buf.go, crc32c of format/codec.go)

    [rbuf] is the reader of format/buf.go with its sticky error; a read is a
    state transformer [rd].  A Go runtime panic (a slice bound that goes
    backwards) is the sticky error [GoPanic].  [reads m bs a] says that [m]
    consumes exactly the bytes [bs] and returns [a]; the lemmas that build such
    facts are in the hint database [reads]. *)

From S2P Require Import Prelude Words.
Open Scope Z_scope.

(** ** wbuf: the methods append to the buffer *)

Abbreviation wbuf := (list Z).
Definition w_u8 (w : wbuf) (v : Z) : wbuf := w ++ [u8 v].
Definition w_u16 (w : wbuf) (v : Z) : wbuf := w ++ le_bytes 2 v.
Definition w_u32 (w : wbuf) (v : Z) : wbuf := w ++ le_bytes 4 v.
Definition w_u64 (w : wbuf) (v : Z) : wbuf := w ++ le_bytes 8 v.
Definition w_uvarint (w : wbuf) (v : Z) : wbuf := w ++ put_uvarint v.
Definition w_bytes (w : wbuf) (p : list Z) : wbuf := w ++ p.

(** ** rbuf *)

Record rbuf := mkRbuf { rb_b : list Z; rb_pos : nat; rb_err : option gerr }.

Definition rd (A : Type) := rbuf -> A * rbuf.
#[export] Instance rd_ret : MRet rd := fun A a r => (a, r).
#[export] Instance rd_bind : MBind rd := fun A B f m r => let '(a, r') := m r in f a r'.

Definition r_fail : rd bool := fun r => (bool_decide (is_Some (rb_err r)), r).

(** [need n]: [pos + n] is computed in [int], so it wraps. *)
Definition need (n : Z) : rd bool := fun r =>
  match rb_err r with
  | Some _ => (false, r)
  | None =>
      if Z.of_nat (length (rb_b r)) <? i64 (Z.of_nat (rb_pos r) + n)
      then (false, mkRbuf (rb_b r) (rb_pos r) (Some ErrCorrupt))
      else (true, r)
  end.

(** The slice [r.b[r.pos : r.pos+n]] after a successful [need n]: it panics when
    the upper bound is below the lower one. *)
Definition take_n (n : Z) : rd (list Z) := fun r =>
  if i64 (Z.of_nat (rb_pos r) + n) <? Z.of_nat (rb_pos r)
  then ([], mkRbuf (rb_b r) (rb_pos r) (Some GoPanic))
  else (take (Z.to_nat n) (drop (rb_pos r) (rb_b r)),
        mkRbuf (rb_b r) (rb_pos r + Z.to_nat n) None).

Definition r_bytes (n : Z) : rd (list Z) :=
  ok ← need n; if ok : bool then take_n n else mret [].

Definition r_fixed (n : nat) : rd Z :=
  ok ← need (Z.of_nat n);
  if ok : bool then v ← take_n (Z.of_nat n); mret (le_val v) else mret 0.

Definition r_u8 : rd Z := r_fixed 1.
Definition r_u32 : rd Z := r_fixed 4.
Definition r_u64 : rd Z := r_fixed 8.

Definition r_uvarint : rd Z := fun r =>
  match rb_err r with
  | Some _ => (0, r)
  | None =>
      match uvarint (drop (rb_pos r) (rb_b r)) with
      | None => (0, mkRbuf (rb_b r) (rb_pos r) (Some ErrCorrupt))
      | Some (v, n) => (v, mkRbuf (rb_b r) (rb_pos r + n) None)
      end
  end.

(** The unread tail [r.b[r.pos:]]. *)
Definition r_rest : rd (list Z) := fun r => (drop (rb_pos r) (rb_b r), r).

(** Early exit with an error unless a condition on what was read holds. *)
Definition r_ensure (c : bool) (e : gerr) : rd unit := fun r =>
  match rb_err r with
  | None => (tt, if c then r else mkRbuf (rb_b r) (rb_pos r) (Some e))
  | Some _ => (tt, r)
  end.

(** Loop [n] times, collecting the values read. *)
Fixpoint r_repeat {A} (n : nat) (m : rd A) : rd (list A) :=
  match n with
  | O => mret []
  | S n => a ← m; l ← r_repeat n m; mret (a :: l)
  end.

(** A read over a whole byte string whose error is tested at the end. *)
Definition run_rd {A} (m : rd A) (b : list Z) : res A :=
  let '(a, r) := m (mkRbuf b 0 None) in
  match rb_err r with None => Ok a | Some e => Err e end.

(** The same for a caller that never tests [r.err]: only a panic stops it. *)
Definition run_rd_unchecked {A} (m : rd A) (b : list Z) : res A :=
  let '(a, r) := m (mkRbuf b 0 None) in
  match rb_err r with Some GoPanic => Err GoPanic | _ => Ok a end.

(** ** Facts about complete reads *)

(** Buffers are far below the 2^63 bytes at which an [int] length would wrap. *)
Definition buf_max : Z := 2 ^ 62.

Definition reads {A} (m : rd A) (bs : list Z) (a : A) : Prop :=
  forall pre rest, Z.of_nat (length (pre ++ bs)) < buf_max ->
  m (mkRbuf (pre ++ bs ++ rest) (length pre) None)
  = (a, mkRbuf (pre ++ bs ++ rest) (length pre + length bs) None).

Lemma reads_ret {A} (a : A) : reads (mret a) [] a.
Proof. intros pre rest _. cbn. by rewrite Nat.add_0_r. Qed.

Lemma reads_bind {A B} (m : rd A) (f : A -> rd B) bs1 bs2 a b :
  reads m bs1 a -> reads (f a) bs2 b -> reads (m ≫= f) (bs1 ++ bs2) b.
Proof.
  intros H1 H2 pre rest Hlen. rewrite !length_app in Hlen.
  unfold mbind, rd_bind. rewrite <- !app_assoc. rewrite H1 by (rewrite !length_app; lia).
  specialize (H2 (pre ++ bs1) rest). rewrite !length_app in H2.
  rewrite <- !app_assoc in H2. rewrite H2 by lia. rewrite !length_app, Nat.add_assoc. done.
Qed.

Lemma reads_bind_nil {A B} (m : rd A) (f : A -> rd B) bs a b :
  reads m bs a -> reads (f a) [] b -> reads (m ≫= f) bs b.
Proof. intros. rewrite <- (app_nil_r bs). by eapply reads_bind. Qed.

Lemma reads_eq {A} (m : rd A) bs bs' a : bs = bs' -> reads m bs a -> reads m bs' a.
Proof. by intros ->. Qed.

Lemma reads_bytes (p : list Z) : reads (r_bytes (Z.of_nat (length p))) p p.
Proof.
  intros pre rest Hlen. rewrite length_app in Hlen. unfold buf_max in Hlen.
  unfold r_bytes, mbind, rd_bind, need, take_n. cbn [rb_err rb_b rb_pos].
  rewrite i64_small by lia. rewrite !length_app. bool_lia.
  cbn [rb_err rb_b rb_pos]. rewrite i64_small by lia. bool_lia.
  rewrite Nat2Z.id, drop_app_length, take_app_length. done.
Qed.

Lemma reads_bytes' (p : list Z) n : n = Z.of_nat (length p) -> reads (r_bytes n) p p.
Proof. intros ->. apply reads_bytes. Qed.

Lemma reads_fixed (n : nat) v :
  fits (8 * Z.of_nat n) v -> reads (r_fixed n) (le_bytes n v) v.
Proof.
  intros Hv pre rest Hlen. rewrite length_app, le_bytes_length in Hlen. unfold buf_max in Hlen.
  unfold r_fixed, mbind, rd_bind, need, take_n. cbn [rb_err rb_b rb_pos].
  rewrite i64_small by lia. rewrite !length_app, le_bytes_length. bool_lia.
  cbn [rb_err rb_b rb_pos]. rewrite i64_small by lia. bool_lia.
  rewrite Nat2Z.id, drop_app_length, take_app_exact by by rewrite le_bytes_length.
  by rewrite le_val_bytes_fits.
Qed.

Lemma reads_u8 v : fits 8 v -> reads r_u8 [u8 v] v.
Proof. intros. by apply (reads_fixed 1). Qed.
Lemma reads_u32 v : fits 32 v -> reads r_u32 (le_bytes 4 v) v.
Proof. intros. by apply (reads_fixed 4). Qed.
Lemma reads_u64 v : fits 64 v -> reads r_u64 (le_bytes 8 v) v.
Proof. intros. by apply (reads_fixed 8). Qed.

Lemma reads_uvarint v : fits 64 v -> reads r_uvarint (put_uvarint v) v.
Proof.
  intros Hv pre rest _. unfold r_uvarint. cbn [rb_err rb_b rb_pos].
  by rewrite drop_app_length, uvarint_put.
Qed.

Lemma reads_repeat {A} (m : rd A) (enc : A -> list Z) (l : list A) :
  Forall (fun a => reads m (enc a) a) l ->
  reads (r_repeat (length l) m) (mjoin (enc <$> l)) l.
Proof.
  induction 1 as [|a l Ha Hl IH]; [apply reads_ret |].
  cbn [length r_repeat]. cbn. eapply reads_bind; [exact Ha |].
  eapply reads_bind_nil; [exact IH | apply reads_ret].
Qed.

Lemma reads_run {A} (m : rd A) bs rest a :
  reads m bs a -> Z.of_nat (length bs) < buf_max -> run_rd m (bs ++ rest) = Ok a.
Proof.
  intros H Hlen. unfold run_rd. specialize (H [] rest Hlen). cbn in H. by rewrite H.
Qed.

Lemma reads_run_unchecked {A} (m : rd A) bs rest a :
  reads m bs a -> Z.of_nat (length bs) < buf_max -> run_rd_unchecked m (bs ++ rest) = Ok a.
Proof.
  intros H Hlen. unfold run_rd_unchecked. specialize (H [] rest Hlen). cbn in H. by rewrite H.
Qed.

(** A read followed by taking the unread tail. *)
Lemma reads_run_rest {A B} (m : rd A) (f : A -> list Z -> B) bs rest a :
  reads m bs a -> Z.of_nat (length bs) < buf_max ->
  run_rd (a ← m; t ← r_rest; mret (f a t)) (bs ++ rest) = Ok (f a rest).
Proof.
  intros H Hlen. unfold run_rd, mbind, rd_bind, r_rest. specialize (H [] rest Hlen).
  cbn in H. rewrite H. cbn. by rewrite drop_app_length.
Qed.

Lemma reads_ensure (e : gerr) : reads (r_ensure true e) [] tt.
Proof. intros pre rest _. cbn. by rewrite Nat.add_0_r. Qed.

#[export] Hint Resolve reads_ret reads_bytes reads_fixed reads_u8 reads_u32 reads_u64
  reads_uvarint reads_repeat : reads.

(** ** CRC32C

    hash/crc32's Castagnoli checksum, bit by bit over the reflected polynomial
    (the table the standard library builds has the same entries); [u8 x] is the
    byte the list holds. *)
Fixpoint crc_bits (n : nat) (c : Z) : Z :=
  match n with
  | O => c
  | S n => crc_bits n (if Z.testbit c 0 then Z.lxor (Z.shiftr c 1) 0x82F63B78 else Z.shiftr c 1)
  end.

Definition crc32c (b : list Z) : Z :=
  Z.lxor (foldl (fun c x => crc_bits 8 (Z.lxor c (u8 x))) 0xFFFFFFFF b) 0xFFFFFFFF.

(** The check value of the CRC-32C catalogue: "123456789". *)
Example crc32c_check : crc32c [49; 50; 51; 52; 53; 54; 55; 56; 57] = 0xE3069283.
Proof. reflexivity. Qed.

Lemma lxor_fits n a b : 0 <= n -> fits n a -> fits n b -> fits n (Z.lxor a b).
Proof.
  intros Hn [Ha Ha'] [Hb Hb']. split.
  - by apply Z.lxor_nonneg.
  - destruct (decide (Z.lxor a b = 0)) as [-> |]; [by apply Z.pow_pos_nonneg |].
    apply Z.log2_lt_pow2; [assert (0 <= Z.lxor a b) by (by apply Z.lxor_nonneg); lia |].
    eapply Z.le_lt_trans; [by apply Z.log2_lxor |].
    apply Z.max_lub_lt.
    + destruct (decide (a = 0)) as [-> |]; [|apply Z.log2_lt_pow2; lia].
      simpl. destruct (decide (n = 0)) as [-> |]; [|lia].
      change (2 ^ 0) with 1 in *. exfalso. assert (b = 0) by lia. subst. done.
    + destruct (decide (b = 0)) as [-> |]; [|apply Z.log2_lt_pow2; lia].
      simpl. destruct (decide (n = 0)) as [-> |]; [|lia].
      change (2 ^ 0) with 1 in *. exfalso. assert (a = 0) by lia. subst. done.
Qed.

Lemma crc_bits_fits n c : fits 32 c -> fits 32 (crc_bits n c).
Proof.
  revert c. induction n as [|n IH]; intros c Hc; [done |]. cbn [crc_bits]. apply IH.
  assert (fits 32 (Z.shiftr c 1)).
  { unfold fits in *. rewrite Z.shiftr_div_pow2 by lia. change (2 ^ 1) with 2. divmod. }
  destruct (Z.testbit c 0); [apply lxor_fits; [lia | done | by vm_compute] | done].
Qed.

Lemma crc32c_fits b : fits 32 (crc32c b).
Proof.
  unfold crc32c. apply lxor_fits; [lia | | by vm_compute].
  assert (H0 : fits 32 0xFFFFFFFF) by by vm_compute.
  revert H0. generalize 0xFFFFFFFF. induction b as [|x b IH]; intros c Hc; [done |].
  cbn [foldl]. apply IH, crc_bits_fits, lxor_fits; [lia | done |].
  eapply fits_weaken; [|apply u8_fits]. lia.
Qed.
#[export] Hint Resolve crc32c_fits : words.
