(* ===== verification/Bitpack.v ===== *)
(** * Bit packing (format/encoding.go: bitWidth, bitpack, bitunpack)

    The LSB-first fixed-width packing every frame-of-reference and dictionary
    page uses.  [getbit] reads a bit of a byte string; the packer is
    characterised by the bits it sets, and the unpacker inverts it. *)

From S2P Require Import Prelude Words.
Open Scope Z_scope.

(** ** Definitions *)

(** The loop of [bitWidth]; 64 rounds empty a [uint64]. *)
Fixpoint bitWidth_go (fuel : nat) (v : Z) (w : nat) : nat :=
  match fuel with
  | O => w
  | S fuel => if 0 <? v then bitWidth_go fuel (Z.shiftr v 1) (S w) else w
  end.
Definition bitWidth (v : Z) : nat := bitWidth_go 64 v 0.

(** [out[p>>3] |= 1 << (p&7)]. *)
Definition setbit (out : list Z) (p : nat) : list Z :=
  alter (fun x => Z.lor x (2 ^ Z.of_nat (p mod 8))) (p / 8)%nat out.

(** The inner loop over the bits [b], [b+1], ... of one value. *)
Fixpoint pack_bits (n : nat) (b : Z) (v : Z) (out : list Z) (bitpos : nat) : list Z :=
  match n with
  | O => out
  | S n =>
      let out := if Z.testbit v b then setbit out bitpos else out in
      pack_bits n (b + 1) v out (S bitpos)
  end.

Fixpoint pack_vals (vals : list Z) (width : nat) (out : list Z) (bitpos : nat) : list Z :=
  match vals with
  | [] => out
  | v :: vals => pack_vals vals width (pack_bits width 0 v out bitpos) (bitpos + width)
  end.

Definition bitpack (vals : list Z) (width : nat) : list Z :=
  if (width =? 0)%nat then []
  else pack_vals vals width (replicate ((length vals * width + 7) / 8) 0) 0.

Definition getbit (b : list Z) (p : nat) : bool :=
  Z.testbit (nth (p / 8) b 0) (Z.of_nat (p mod 8)).

(** The inner loop of [bitunpack]; [1<<k] is 0 from k = 64 on. *)
Fixpoint unpack_bits (n : nat) (k : Z) (b : list Z) (bitpos : nat) (v : Z) : Z :=
  match n with
  | O => v
  | S n =>
      let v := if (bitpos / 8 <? length b)%nat && getbit b bitpos
               then Z.lor v (u64 (2 ^ k)) else v in
      unpack_bits n (k + 1) b (S bitpos) v
  end.

Fixpoint unpack_vals (n : nat) (width : nat) (b : list Z) (bitpos : nat) : list Z :=
  match n with
  | O => []
  | S n => unpack_bits width 0 b bitpos 0 :: unpack_vals n width b (bitpos + width)
  end.

Definition bitunpack (b : list Z) (n : nat) (width : nat) : list Z :=
  if (width =? 0)%nat then replicate n 0 else unpack_vals n width b 0.

(** ** bitWidth *)

Lemma bitWidth_go_spec fuel v w :
  0 <= v < 2 ^ Z.of_nat fuel ->
  (w <= bitWidth_go fuel v w <= w + fuel)%nat /\
  v < 2 ^ (Z.of_nat (bitWidth_go fuel v w) - Z.of_nat w).
Proof.
  revert v w. induction fuel as [|fuel IH]; intros v w Hv; cbn [bitWidth_go].
  - rewrite Z.sub_diag. split; [lia | exact (proj2 Hv)].
  - rewrite Nat2Z.inj_succ, Z.pow_succ_r in Hv by lia.
    destruct (Z.ltb_spec 0 v) as [Hp | Hp].
    + assert (Hs : Z.shiftr v 1 = v / 2) by (rewrite Z.shiftr_div_pow2 by lia; done).
      destruct (IH (Z.shiftr v 1) (S w)) as [H1 H2].
      { rewrite Hs. split; [divmod |]. apply Z.div_lt_upper_bound; lia. }
      split; [lia |].
      set (r := bitWidth_go fuel (Z.shiftr v 1) (S w)) in *. clearbody r. rewrite Hs in H2.
      replace (Z.of_nat r - Z.of_nat w) with (Z.succ (Z.of_nat r - Z.of_nat (S w))) by lia.
      rewrite Z.pow_succ_r by lia. divmod.
    + rewrite Z.sub_diag. split; [lia |]. change (2 ^ 0) with 1. lia.
Qed.

Lemma bitWidth_fits v : fits 64 v -> fits (Z.of_nat (bitWidth v)) v.
Proof.
  intros [H0 H1]. destruct (bitWidth_go_spec 64 v 0) as [_ H]; [done |].
  unfold fits, bitWidth. rewrite Z.sub_0_r in H. done.
Qed.

Lemma bitWidth_le v : fits 64 v -> (bitWidth v <= 64)%nat.
Proof. intros [H0 H1]. destruct (bitWidth_go_spec 64 v 0) as [H _]; [done | unfold bitWidth; lia]. Qed.

Lemma bitWidth_mono_fits v u : fits 64 u -> 0 <= v <= u -> fits (Z.of_nat (bitWidth u)) v.
Proof. intros Hu Hv. pose proof (bitWidth_fits u Hu) as H. unfold fits in *. lia. Qed.

(** ** The bits of a packed string *)

Lemma setbit_length out p : length (setbit out p) = length out.
Proof. apply length_alter. Qed.

Lemma getbit_setbit out p q :
  (p / 8 < length out)%nat ->
  getbit (setbit out p) q = if (p =? q)%nat then true else getbit out q.
Proof.
  intros Hp. unfold getbit, setbit.
  rewrite !nth_lookup_default.
  destruct (decide (p / 8 = q / 8)%nat) as [E | E].
  - rewrite <- E, list_lookup_alter_eq.
    destruct (lookup_lt_is_Some_2 out (p / 8) Hp) as [x ->].
    cbn [fmap option_fmap option_map from_option id].
    rewrite Z.lor_spec, Z.pow2_bits_eqb by lia.
    destruct (Nat.eqb_spec p q) as [-> | Hne]; [by rewrite Z.eqb_refl, orb_true_r |].
    assert (p mod 8 <> q mod 8)%nat.
    { intros E2. apply Hne. rewrite (Nat.div_mod p 8), (Nat.div_mod q 8) by lia. congruence. }
    rewrite (proj2 (Z.eqb_neq _ _)) by lia. by rewrite orb_false_r.
  - rewrite list_lookup_alter_ne by done.
    destruct (Nat.eqb_spec p q) as [-> | Hne]; [done | done].
Qed.

Lemma pack_bits_length n b v out pos : length (pack_bits n b v out pos) = length out.
Proof.
  revert b out pos. induction n as [|n IH]; intros b out pos; cbn; [done |].
  rewrite IH. destruct (Z.testbit v b); [apply setbit_length | done].
Qed.

Lemma pack_bits_get n b v out pos q :
  (pos + n <= 8 * length out)%nat ->
  (forall p, (pos <= p)%nat -> getbit out p = false) ->
  getbit (pack_bits n b v out pos) q =
  if ((pos <=? q) && (q <? pos + n))%nat then Z.testbit v (b + Z.of_nat q - Z.of_nat pos)
  else getbit out q.
Proof.
  revert b out pos. induction n as [|n IH]; intros b out pos Hlen Hz; cbn [pack_bits].
  - rewrite Nat.add_0_r. destruct (Nat.leb_spec pos q), (Nat.ltb_spec q pos); try lia; done.
  - assert (Hdiv : (pos / 8 < length out)%nat) by (apply Nat.Div0.div_lt_upper_bound; lia).
    set (out' := if Z.testbit v b then setbit out pos else out).
    assert (Hget : forall p, getbit out' p
                   = if (pos =? p)%nat then Z.testbit v b else getbit out p).
    { intros p. unfold out'. destruct (Z.testbit v b) eqn:E.
      - by rewrite getbit_setbit.
      - destruct (Nat.eqb_spec pos p) as [<- |]; [by apply Hz | done]. }
    assert (Hl' : length out' = length out).
    { unfold out'. destruct (Z.testbit v b); [apply setbit_length | done]. }
    rewrite IH; [| lia |].
    + rewrite Hget.
      destruct (Nat.leb_spec (S pos) q), (Nat.ltb_spec q (S pos + n)),
        (Nat.leb_spec pos q), (Nat.ltb_spec q (pos + S n)), (Nat.eqb_spec pos q);
        cbn; try lia; try done; f_equal; try lia.
    + intros p Hp. rewrite Hget. destruct (Nat.eqb_spec pos p); [lia | apply Hz; lia].
Qed.

Lemma pack_vals_get vals width out pos i k :
  (pos + length vals * width <= 8 * length out)%nat ->
  (forall p, (pos <= p)%nat -> getbit out p = false) ->
  (k < width)%nat -> (i < length vals)%nat ->
  getbit (pack_vals vals width out pos) (pos + i * width + k)%nat
  = Z.testbit (nth i vals 0) (Z.of_nat k).
Proof.
  assert (Hpre : forall vals out pos q,
    (pos + length vals * width <= 8 * length out)%nat ->
    (forall p, (pos <= p)%nat -> getbit out p = false) -> (q < pos)%nat ->
    getbit (pack_vals vals width out pos) q = getbit out q).
  { clear. induction vals as [|v vals IH]; intros out pos q Hlen Hz Hq; [done |].
    cbn [pack_vals length] in *. rewrite IH; [| | | lia].
    - rewrite pack_bits_get by (lia || done). destruct (Nat.leb_spec pos q); [lia | done].
    - rewrite pack_bits_length. lia.
    - intros p Hp. rewrite pack_bits_get by (lia || done).
      destruct (Nat.leb_spec pos p), (Nat.ltb_spec p (pos + width)); cbn; try lia.
      apply Hz. lia. }
  revert out pos i. induction vals as [|v vals IH]; intros out pos i Hlen Hz Hk Hi;
    cbn [length] in *; [lia |].
  cbn [pack_vals].
  assert (Hz' : forall p, (pos + width <= p)%nat ->
                getbit (pack_bits width 0 v out pos) p = false).
  { intros p Hp. rewrite pack_bits_get by (lia || done).
    destruct (Nat.leb_spec pos p), (Nat.ltb_spec p (pos + width)); cbn; try lia.
    apply Hz. lia. }
  destruct i as [|i].
  - rewrite Hpre; [| rewrite pack_bits_length; lia | done | lia].
    rewrite pack_bits_get by (lia || done). cbn [nth].
    destruct (Nat.leb_spec pos (pos + 0 * width + k)),
      (Nat.ltb_spec (pos + 0 * width + k) (pos + width)); cbn [andb]; try lia.
    f_equal. lia.
  - replace (pos + S i * width + k)%nat with (pos + width + i * width + k)%nat by lia.
    rewrite IH; [done | rewrite pack_bits_length; lia | done | done | lia].
Qed.

Lemma getbit_zeros n p : getbit (replicate n 0) p = false.
Proof.
  unfold getbit. rewrite nth_lookup_default.
  destruct (replicate n 0 !! (p / 8)%nat) eqn:E; [|apply Z.testbit_0_l].
  apply lookup_replicate in E as [-> _]. apply Z.testbit_0_l.
Qed.

Lemma bitpack_length vals width :
  length (bitpack vals width) = ((length vals * width + 7) / 8)%nat.
Proof.
  unfold bitpack. destruct (Nat.eqb_spec width 0) as [-> |]; [by rewrite Nat.mul_0_r |].
  assert (H : forall vals out pos, length (pack_vals vals width out pos) = length out).
  { clear. induction vals as [|v vals IH]; intros; cbn; [done |]. by rewrite IH, pack_bits_length. }
  by rewrite H, length_replicate.
Qed.

Lemma bitpack_room (a : nat) : (a <= 8 * ((a + 7) / 8))%nat.
Proof. pose proof (Nat.div_mod_eq (a + 7) 8). pose proof (Nat.mod_upper_bound (a + 7) 8). lia. Qed.

Lemma bitpack_get vals width i k :
  (k < width)%nat -> (i < length vals)%nat ->
  getbit (bitpack vals width) (i * width + k)%nat = Z.testbit (nth i vals 0) (Z.of_nat k).
Proof.
  intros Hk Hi. unfold bitpack. destruct (Nat.eqb_spec width 0); [lia |].
  rewrite <- (pack_vals_get vals width
    (replicate ((length vals * width + 7) / 8) 0) 0 i k); [done | | | done | done].
  - rewrite length_replicate. cbn. apply bitpack_room.
  - intros. apply getbit_zeros.
Qed.

(** ** Unpacking *)

Lemma fits_bits_above n v j : fits n v -> n <= j -> Z.testbit v j = false.
Proof.
  intros [H0 H1] Hj. destruct (decide (v = 0)) as [-> |]; [apply Z.testbit_0_l |].
  apply Z.bits_above_log2; [done |]. eapply Z.lt_le_trans; [|exact Hj].
  apply Z.log2_lt_pow2; lia.
Qed.

Lemma unpack_bits_spec n k b pos v (w : Z) :
  0 <= k -> k + Z.of_nat n <= 64 ->
  (pos + n <= 8 * length b)%nat -> 0 <= v < 2 ^ k ->
  (forall j, (j < n)%nat -> getbit b (pos + j) = Z.testbit w (k + Z.of_nat j)) ->
  (forall j, 0 <= j < k -> Z.testbit v j = Z.testbit w j) ->
  fits (k + Z.of_nat n) w ->
  unpack_bits n k b pos v = w.
Proof.
  revert k pos v. induction n as [|n IH]; intros k pos v Hk Hk64 Hlen Hv Hb Hlow Hw;
    cbn [unpack_bits].
  - rewrite Z.add_0_r in Hw. apply Z.bits_inj'. intros j Hj.
    destruct (Z.lt_ge_cases j k); [by apply Hlow |].
    by rewrite !(fits_bits_above k) by done.
  - assert (Hdiv : (pos / 8 < length b)%nat) by (apply Nat.Div0.div_lt_upper_bound; lia).
    rewrite (proj2 (Nat.ltb_lt _ _)) by done. cbn [andb].
    assert (Hg : getbit b pos = Z.testbit w k).
    { specialize (Hb 0%nat). rewrite Nat.add_0_r, Z.add_0_r in Hb. apply Hb. lia. }
    rewrite Hg. assert (Hu : u64 (2 ^ k) = 2 ^ k).
    { apply u64_small. split; [apply Z.pow_nonneg; lia | apply Z.pow_lt_mono_r; lia]. }
    rewrite Hu. set (v' := if Z.testbit w k then Z.lor v (2 ^ k) else v).
    assert (Hvb : forall j, 0 <= j -> Z.testbit v' j
                  = if j =? k then Z.testbit w k || Z.testbit v k else Z.testbit v j).
    { intros j Hj. unfold v'. destruct (Z.testbit w k) eqn:E.
      - rewrite Z.lor_spec, Z.pow2_bits_eqb by lia.
        rewrite (Z.eqb_sym k j). destruct (Z.eqb_spec j k) as [-> |]; [apply orb_true_r | apply orb_false_r].
      - destruct (Z.eqb_spec j k) as [-> |]; done. }
    assert (Hvk : Z.testbit v k = false) by by apply (fits_bits_above k).
    apply IH; try lia.
    + split.
      * unfold v'. destruct (Z.testbit w k); [|lia].
        apply Z.lor_nonneg. assert (0 <= 2 ^ k) by (apply Z.pow_nonneg; lia). lia.
      * unfold v'. rewrite Z.pow_add_r by lia. change (2 ^ 1) with 2.
        destruct (Z.testbit w k); [|lia].
        assert (Hland : Z.land v (2 ^ k) = 0).
        { apply Z.bits_inj'; intros j Hj. rewrite Z.land_spec, Z.pow2_bits_eqb, Z.testbit_0_l by lia.
          destruct (Z.eqb_spec k j) as [<- |]; [by rewrite Hvk | apply andb_false_r]. }
        rewrite <- Z.lxor_lor, <- Z.add_nocarry_lxor by done.
        lia.
    + intros j Hj. specialize (Hb (S j)). rewrite Nat.add_succ_r in Hb.
      cbn [Nat.add]. rewrite Hb by lia. f_equal. lia.
    + intros j Hj. rewrite Hvb by lia. destruct (Z.eqb_spec j k) as [-> |].
      * rewrite Hvk. apply orb_false_r.
      * apply Hlow. lia.
    + replace (k + 1 + Z.of_nat n) with (k + Z.of_nat (S n)) by lia. done.
Qed.

Lemma unpack_vals_length n width b pos : length (unpack_vals n width b pos) = n.
Proof. revert pos. induction n as [|n IH]; intros; cbn; auto. Qed.

Lemma unpack_vals_nth n width b pos i :
  (i < n)%nat -> nth i (unpack_vals n width b pos) 0 = unpack_bits width 0 b (pos + i * width) 0.
Proof.
  revert pos i. induction n as [|n IH]; intros pos [|i] Hi; try lia; cbn [unpack_vals nth].
  - by rewrite Nat.add_0_r.
  - rewrite IH by lia. f_equal. lia.
Qed.

Lemma bitunpack_length b n width : length (bitunpack b n width) = n.
Proof.
  unfold bitunpack. destruct (width =? 0)%nat; [apply length_replicate | apply unpack_vals_length].
Qed.

(** Unpacking inverts packing for values of at most 64 bits. *)
Lemma bitunpack_bitpack vals width :
  (width <= 64)%nat -> Forall (fits (Z.of_nat width)) vals ->
  bitunpack (bitpack vals width) (length vals) width = vals.
Proof.
  intros Hw Hv. apply (list_eq_nth 0); rewrite bitunpack_length; [done |].
  intros i Hi. assert (Hf : fits (Z.of_nat width) (nth i vals 0)).
  { rewrite Forall_lookup in Hv. apply (Hv i).
    rewrite nth_lookup_default. by destruct (lookup_lt_is_Some_2 vals i Hi) as [x ->]. }
  unfold bitunpack. destruct (Nat.eqb_spec width 0) as [-> | Hne].
  - rewrite nth_lookup_default, (proj2 (lookup_replicate _ _ _ _)) by done.
    unfold fits in Hf. change (2 ^ Z.of_nat 0) with 1 in Hf. cbn. lia.
  - rewrite unpack_vals_nth by done. apply unpack_bits_spec; try lia.
    + rewrite bitpack_length. pose proof (bitpack_room (length vals * width)). nia.
    + intros j Hj. cbn [Nat.add]. rewrite bitpack_get by done. f_equal.
    + done.
Qed.
