(* ===== verification/Encoding.v ===== *)
(** * The column encodings (format/encoding.go)

    RLE, DICTIONARY, DELTA, FOR and DELTA_FOR over the values of one page, with
    the payload shapes of the source, and the theorem that decoding an encoded
    page gives back its values.  Widths are 1, 2, 4 or 8 bytes. *)

From S2P Require Import Prelude Words Rbuf Bitpack.
Open Scope Z_scope.

Definition EncRaw : Z := 0.
Definition EncDict : Z := 1.
Definition EncDelta : Z := 2.
Definition EncFOR : Z := 3.
Definition EncRLE : Z := 4.
Definition EncFSST : Z := 5.
Definition EncDeltaFOR : Z := 6.

(** The widths the cascade handles. *)
Definition width_ok (width : nat) : bool :=
  match width with 1 | 2 | 4 | 8 => true | _ => false end%nat.

(** ** Fixed-width values *)

(** Every caller has [i < len(data)/width], so the slice is never short. *)
Definition readUintWidth (data : list Z) (i width : nat) : Z :=
  if width_ok width then le_val (slice data (i * width) (i * width + width)) else 0.

Definition readValues (data : list Z) (width : nat) : list Z :=
  let n := if (0 <? width)%nat then (length data / width)%nat else 0%nat in
  (fun i => readUintWidth data i width) <$> seq 0 n.

(** For a width outside 1, 2, 4, 8 the output stays zeroed. *)
Definition writeValues (vals : list Z) (width : nat) : list Z :=
  if width_ok width then mjoin (le_bytes width <$> vals)
  else replicate (length vals * width) 0.

Definition putWidth (w : wbuf) (v : Z) (width : nat) : wbuf :=
  match width with
  | 1%nat => w_u8 w v
  | 2%nat => w_u16 w v
  | 4%nat => w_u32 w v
  | 8%nat => w_u64 w v
  | _ => w
  end.

Definition getWidth (width : nat) : rd Z :=
  match width with
  | 1%nat => r_u8
  | 2%nat => v ← r_bytes 2; mret (le_val v)
  | 4%nat => r_u32
  | 8%nat => r_u64
  | _ => mret 0
  end.

(** ** RLE *)

(** The inner loop: how many of the values that follow repeat [v]. *)
Fixpoint rle_run (v : Z) (vals : list Z) : nat :=
  match vals with
  | [] => 0
  | x :: vals => if x =? v then S (rle_run v vals) else 0
  end.

(** The outer loop; every round consumes a value, so [length vals] rounds do. *)
Fixpoint rle_loop (fuel : nat) (vals : list Z) (width : nat) (runs : wbuf) (count : Z)
    : wbuf * Z :=
  match fuel, vals with
  | S fuel, v :: rest =>
      let j := rle_run v rest in
      let runs := w_uvarint (putWidth runs v width) (Z.of_nat (S j)) in
      rle_loop fuel (drop j rest) width runs (count + 1)
  | _, _ => (runs, count)
  end.

Definition encodeRLE (vals : list Z) (width : nat) : list Z :=
  let '(runs, count) := rle_loop (length vals) vals width [] 0 in
  w_bytes (w_uvarint [] count) runs.

Definition rle_read (width : nat) : rd (list Z) :=
  v ← getWidth width; ln ← r_uvarint; mret (replicate (Z.to_nat (i64 ln)) v).

Definition decodeRLE (payload : list Z) (n : nat) (width : nat) : res (list Z) :=
  out ← run_rd (runs ← r_uvarint;
                l ← r_repeat (Z.to_nat (i64 runs)) (rle_read width); mret (mjoin l)) payload;
  _ ← ensure (length out =? n)%nat ErrCorrupt;
  mret out.

(** ** DICTIONARY *)

Record dict_st := mkDict { dt_index : gmap Z nat; dt_dict : list Z; dt_codes : list Z }.

Definition dict_step (s : dict_st) (v : Z) : dict_st :=
  match dt_index s !! v with
  | Some c => mkDict (dt_index s) (dt_dict s) (dt_codes s ++ [Z.of_nat c])
  | None =>
      let c := length (dt_dict s) in
      mkDict (<[v := c]> (dt_index s)) (dt_dict s ++ [v]) (dt_codes s ++ [Z.of_nat c])
  end.

Definition encodeDict (vals : list Z) (width : nat) : list Z :=
  let s := foldl dict_step (mkDict ∅ [] []) vals in
  let dn := Z.of_nat (length (dt_dict s)) in
  let cw := if 1 <? dn then bitWidth (dn - 1) else 0%nat in
  let w := w_uvarint [] dn in
  let w := foldl (fun w v => putWidth w v width) w (dt_dict s) in
  w_bytes (w_u8 w (Z.of_nat cw)) (bitpack (dt_codes s) cw).

(** [int(c) >= len(dict)] is a signed test: a code of 2^63 or more passes it and
    the index panics. *)
Definition dict_lookup (dict : list Z) (c : Z) : res Z :=
  if Z.of_nat (length dict) <=? i64 c then Err ErrCorrupt
  else if i64 c <? 0 then Err GoPanic
  else Ok (nth (Z.to_nat (i64 c)) dict 0).

Definition decodeDict (payload : list Z) (n : nat) (width : nat) : res (list Z) :=
  if (n =? 0)%nat then Ok []
  else
    '(dict, cw, rest) ← run_rd (
      h ← (dn ← r_uvarint;
           _ ← r_ensure (0 <=? i64 dn) ErrCorrupt;
           _ ← r_ensure (make_ok (i64 dn) 8) GoPanic;   (* make([]uint64, dn) *)
           dict ← r_repeat (Z.to_nat (i64 dn)) (getWidth width);
           cw ← r_u8;
           mret (dict, cw));
      rest ← r_rest;
      mret (h.1, h.2, rest)) payload;
    mapM (dict_lookup dict) (bitunpack rest n (Z.to_nat cw)).

(** ** DELTA *)

Fixpoint delta_write (prev : Z) (vals : list Z) (w : wbuf) : wbuf :=
  match vals with
  | [] => w
  | v :: vals => delta_write v vals (w_uvarint w (zigzag (i64 (i64 v - i64 prev))))
  end.

Definition encodeDelta (vals : list Z) : list Z * Z :=
  match vals with
  | [] => ([], 0)
  | base :: rest => (delta_write base rest [], base)
  end.

Fixpoint delta_read (n : nat) (prev : Z) : rd (list Z) :=
  match n with
  | O => mret []
  | S n =>
      d ← r_uvarint;
      let v := u64 (i64 prev + unzigzag d) in
      l ← delta_read n v; mret (v :: l)
  end.

Definition decodeDelta (payload : list Z) (n : nat) (base : Z) : res (list Z) :=
  match n with
  | O => Ok []
  | S n => l ← run_rd (delta_read n base) payload; mret (base :: l)
  end.

(** ** FOR *)

Definition list_min (d : Z) (l : list Z) : Z := foldl (fun m v => if v <? m then v else m) d l.
Definition list_max (d : Z) (l : list Z) : Z := foldl (fun m v => if m <? v then v else m) d l.

Definition encodeFOR (vals : list Z) : list Z * Z :=
  match vals with
  | [] => ([], 0)
  | v0 :: _ =>
      let min := list_min v0 vals in
      let max := list_max v0 vals in
      let bw := bitWidth (u64 (max - min)) in
      let res := (fun v => u64 (v - min)) <$> vals in
      (w_bytes (w_u8 [] (Z.of_nat bw)) (bitpack res bw), min)
  end.

Definition decodeFOR (payload : list Z) (n : nat) (base : Z) : res (list Z) :=
  if (n =? 0)%nat then Ok []
  else
    '(bw, rest) ← run_rd (bw ← r_u8; rest ← r_rest; mret (bw, rest)) payload;
    mret ((fun v => u64 (base + v)) <$> bitunpack rest n (Z.to_nat bw)).

(** ** DELTA_FOR *)

Fixpoint zig_deltas (prev : Z) (vals : list Z) : list Z :=
  match vals with
  | [] => []
  | v :: vals => zigzag (i64 (i64 v - i64 prev)) :: zig_deltas v vals
  end.

Definition encodeDeltaFOR (vals : list Z) : list Z * Z :=
  match vals with
  | [] => ([], 0)
  | base :: rest =>
      match zig_deltas base rest with
      | [] => (w_uvarint (w_u8 [] 0) 0, base)
      | (d0 :: _) as deltas =>
          let dmin := list_min d0 deltas in
          let dmax := list_max d0 deltas in
          let bw := bitWidth (u64 (dmax - dmin)) in
          let res := (fun d => u64 (d - dmin)) <$> deltas in
          (w_bytes (w_uvarint (w_u8 [] (Z.of_nat bw)) dmin) (bitpack res bw), base)
      end
  end.

Fixpoint undelta (prev dmin : Z) (res : list Z) : list Z :=
  match res with
  | [] => []
  | r :: res =>
      let v := u64 (i64 prev + unzigzag (u64 (r + dmin))) in
      v :: undelta v dmin res
  end.

Definition decodeDeltaFOR (payload : list Z) (n : nat) (base : Z) : res (list Z) :=
  match n with
  | O => Ok []
  | S O => Ok [base]
  | S n =>
      '(bw, dmin, rest) ← run_rd (
        h ← (bw ← r_u8; dmin ← r_uvarint; mret (bw, dmin));
        rest ← r_rest; mret (h.1, h.2, rest)) payload;
      mret (base :: undelta base dmin (bitunpack rest n (Z.to_nat bw)))
  end.

(** ** Dispatch *)

Definition encodeValues (enc : Z) (vals : list Z) (width : nat) : list Z * Z :=
  if enc =? EncRLE then (encodeRLE vals width, 0)
  else if enc =? EncDict then (encodeDict vals width, 0)
  else if enc =? EncDelta then encodeDelta vals
  else if enc =? EncFOR then encodeFOR vals
  else if enc =? EncDeltaFOR then encodeDeltaFOR vals
  else (writeValues vals width, 0).

(** The default case is [errUnknownEncoding], which wraps [ErrCorrupt]. *)
Definition decodeValues (enc : Z) (payload : list Z) (n width : nat) (pageBase : Z)
    : res (list Z) :=
  if enc =? EncRaw then Ok (readValues payload width)
  else if enc =? EncRLE then decodeRLE payload n width
  else if enc =? EncDict then decodeDict payload n width
  else if enc =? EncDelta then decodeDelta payload n pageBase
  else if enc =? EncFOR then decodeFOR payload n pageBase
  else if enc =? EncDeltaFOR then decodeDeltaFOR payload n pageBase
  else Err ErrCorrupt.

(** ** Lemmas on values *)

Definition width_bits (width : nat) : Z := 8 * Z.of_nat width.

Ltac width_cases H :=
  match type of H with
  | width_ok ?w = true =>
      destruct w as [|[|[|[|[|[|[|[|[|w]]]]]]]]]; cbn in H; try discriminate H
  end.

Lemma width_bits_64 width v : width_ok width = true -> fits (width_bits width) v -> fits 64 v.
Proof. intros Hw. apply fits_weaken. unfold width_bits. width_cases Hw; lia. Qed.

Lemma reads_getWidth width v :
  width_ok width = true -> fits (width_bits width) v ->
  reads (getWidth width) (putWidth [] v width) v.
Proof.
  intros Hw Hv. unfold width_bits in Hv. width_cases Hw; cbn [getWidth putWidth].
  - by apply reads_u8.
  - change (w_u16 [] v) with (le_bytes 2 v). eapply reads_bind_nil; [by apply reads_bytes' |].
    cbn beta. rewrite le_val_bytes_fits by done. apply reads_ret.
  - by apply reads_u32.
  - by apply reads_u64.
Qed.

Lemma putWidth_app w v width : putWidth w v width = w ++ putWidth [] v width.
Proof. do 9 (destruct width as [|width]; try (cbn; rewrite ?app_nil_r; done)). Qed.

Lemma mjoin_le_bytes_length width vals :
  length (mjoin (le_bytes width <$> vals)) = (length vals * width)%nat.
Proof.
  induction vals as [|v vals IH]; [done |].
  change (mjoin (le_bytes width <$> v :: vals))
    with (le_bytes width v ++ mjoin (le_bytes width <$> vals)).
  rewrite length_app, le_bytes_length, IH. cbn [length]. lia.
Qed.

Lemma slice_mjoin_le width vals i :
  (i < length vals)%nat ->
  slice (mjoin (le_bytes width <$> vals)) (i * width) (i * width + width)
  = le_bytes width (nth i vals 0).
Proof.
  revert i. induction vals as [|v vals IH]; intros i Hi; cbn in Hi; [lia |].
  cbn [fmap list_fmap mjoin list_join nth]. unfold slice. destruct i as [|i].
  - rewrite Nat.mul_0_l, drop_0. apply take_app_exact. rewrite le_bytes_length. lia.
  - rewrite drop_app_ge by (rewrite le_bytes_length; lia). rewrite le_bytes_length.
    rewrite <- IH by lia. unfold slice. f_equal; [lia |]. f_equal. lia.
Qed.

Lemma writeValues_length vals width : length (writeValues vals width) = (length vals * width)%nat.
Proof.
  unfold writeValues. destruct (width_ok width); [apply mjoin_le_bytes_length | apply length_replicate].
Qed.

Lemma read_mjoin width vals :
  width_ok width = true -> Forall (fits (width_bits width)) vals ->
  (fun i => readUintWidth (mjoin (le_bytes width <$> vals)) i width) <$> seq 0 (length vals) = vals.
Proof.
  intros Hw Hv. apply list_eq_nth with (d := 0).
  - by rewrite length_fmap, length_seq.
  - intros i Hi. rewrite length_fmap, length_seq in Hi.
    rewrite nth_lookup_default, list_lookup_fmap, lookup_seq_lt by done.
    cbn [fmap option_fmap option_map default from_option id Nat.add].
    unfold readUintWidth. rewrite Hw, slice_mjoin_le by done.
    apply le_val_bytes_fits. rewrite Forall_lookup in Hv. apply (Hv i).
    rewrite nth_lookup_default. by destruct (lookup_lt_is_Some_2 vals i Hi) as [x ->].
Qed.

(** Reading the laid-out values back. *)
Lemma readValues_writeValues width vals :
  width_ok width = true -> Forall (fits (width_bits width)) vals ->
  readValues (writeValues vals width) width = vals.
Proof.
  intros Hw Hv. unfold readValues. rewrite writeValues_length.
  unfold writeValues. rewrite Hw.
  assert (Hpos : (0 < width)%nat) by (width_cases Hw; lia).
  rewrite (proj2 (Nat.ltb_lt _ _)) by done. rewrite Nat.div_mul by lia.
  by apply read_mjoin.
Qed.

Lemma readValues_length data width :
  length (readValues data width)
  = if (0 <? width)%nat then (length data / width)%nat else 0%nat.
Proof. unfold readValues. by rewrite length_fmap, length_seq. Qed.

Lemma readUintWidth_fits data i width :
  Forall byte_ok data -> fits (width_bits width) (readUintWidth data i width).
Proof.
  intros Hd. unfold readUintWidth, width_bits.
  destruct (width_ok width) eqn:Hw; [|unfold fits; split; [lia | apply Z.pow_pos_nonneg; lia]].
  assert (Hs : Forall byte_ok (slice data (i * width) (i * width + width)))
    by (by apply Forall_take, Forall_drop).
  apply le_val_bound in Hs. unfold fits. split; [lia |].
  eapply Z.lt_le_trans; [apply Hs |]. rewrite Z.pow_mul_r by lia. change (2 ^ 8) with 256.
  apply Z.pow_le_mono_r; [lia |]. unfold slice. rewrite length_take. lia.
Qed.

Lemma readValues_fits data width :
  Forall byte_ok data -> Forall (fits (width_bits width)) (readValues data width).
Proof.
  intros Hd. unfold readValues. apply Forall_fmap, Forall_forall. intros i _.
  by apply readUintWidth_fits.
Qed.

(** The other direction: laying out the values read from whole-width data gives
    the data back. *)
Lemma writeValues_readValues width data :
  width_ok width = true -> Forall byte_ok data -> (length data mod width = 0)%nat ->
  writeValues (readValues data width) width = data.
Proof.
  intros Hw Hd Hm. unfold writeValues. rewrite Hw. unfold readValues.
  assert (Hpos : (0 < width)%nat) by (width_cases Hw; lia).
  rewrite (proj2 (Nat.ltb_lt _ _)) by done.
  assert (Hlen : length data = ((length data / width) * width)%nat).
  { rewrite (Nat.div_mod_eq (length data) width) at 1. lia. }
  set (n := (length data / width)%nat) in *. clearbody n. clear Hm.
  revert data Hd Hlen. induction n as [|n IH]; intros data Hd Hlen.
  - destruct data; [done | cbn in Hlen; lia].
  - trans (take width data ++ drop width data); [|apply take_drop].
    assert (Hl1 : length (take width data) = width) by (rewrite length_take; lia).
    cbn [seq fmap list_fmap mjoin list_join]. f_equal.
    + unfold readUintWidth. rewrite Hw. unfold slice. rewrite Nat.mul_0_l, drop_0.
      replace (0 + width - 0)%nat with width by lia.
      pose proof (le_bytes_val (take width data) ltac:(by apply Forall_take)) as E.
      by rewrite Hl1 in E.
    + rewrite <- (IH (drop width data)); [| by apply Forall_drop | rewrite length_drop; lia].
      rewrite <- seq_shift, <- !list_fmap_compose. f_equal. apply list_fmap_ext.
      intros _ i _. cbn [compose]. f_equal. unfold readUintWidth. rewrite Hw. unfold slice.
      rewrite drop_drop.
      replace (S i * width + width - S i * width)%nat with (i * width + width - i * width)%nat by lia.
      replace (width + i * width)%nat with (S i * width)%nat by lia. done.
Qed.

(** ** Round trips of the encodings *)

Definition rle_enc (width : nat) (r : Z * nat) : list Z :=
  putWidth [] r.1 width ++ put_uvarint (Z.of_nat r.2).

Lemma rle_run_spec v vals : exists rest,
  vals = replicate (rle_run v vals) v ++ rest /\ drop (rle_run v vals) vals = rest.
Proof.
  induction vals as [|x vals IH]; cbn [rle_run]; [by exists [] |].
  destruct (Z.eqb_spec x v) as [-> |]; [|by eexists].
  destruct IH as (rest & E & D). exists rest. split; [cbn; by f_equal | done].
Qed.

Lemma rle_loop_spec fuel vals width runs count :
  (length vals <= fuel)%nat -> exists rl,
  rle_loop fuel vals width runs count
  = (runs ++ mjoin (rle_enc width <$> rl), count + Z.of_nat (length rl)) /\
  mjoin ((fun r : Z * nat => replicate r.2 r.1) <$> rl) = vals /\
  (length rl <= length vals)%nat /\
  Forall (fun r : Z * nat => r.1 ∈ vals /\ (r.2 <= length vals)%nat) rl.
Proof.
  revert vals runs count. induction fuel as [|fuel IH]; intros vals runs count Hf.
  - destruct vals; [|cbn in Hf; lia]. exists []. cbn. rewrite app_nil_r, Z.add_0_r. auto.
  - destruct vals as [|v vals]; cbn [rle_loop].
    + exists []. cbn. rewrite app_nil_r, Z.add_0_r. auto.
    + destruct (rle_run_spec v vals) as (rest & E & D). rewrite D. set (j := rle_run v vals) in *.
      assert (Hl : (length vals = j + length rest)%nat)
        by (rewrite E, length_app, length_replicate; lia).
      cbn [length] in Hf.
      destruct (IH rest (w_uvarint (putWidth runs v width) (Z.of_nat (S j))) (count + 1))
        as (rl & -> & Hj & Hn & HF); [lia |].
      exists ((v, S j) :: rl). split_and!.
      * f_equal; [|cbn [length]; lia]. unfold w_uvarint. rewrite putWidth_app.
        change (mjoin (rle_enc width <$> (v, S j) :: rl))
          with (rle_enc width (v, S j) ++ mjoin (rle_enc width <$> rl)).
        unfold rle_enc at 2. by rewrite <- !app_assoc.
      * change (replicate (S j) v ++ mjoin ((fun r : Z * nat => replicate r.2 r.1) <$> rl) = v :: vals).
        rewrite Hj. cbn. f_equal. exact (eq_sym E).
      * cbn [length]. lia.
      * constructor; cbn [fst snd length]; [split; [left | lia] |].
        eapply Forall_impl; [exact HF |]. intros [x k] [Hx Hk]. cbn in *. split; [|lia].
        right. rewrite E. apply elem_of_app. by right.
Qed.

Lemma reads_rle width r :
  width_ok width = true -> fits (width_bits width) r.1 -> Z.of_nat r.2 < 2 ^ 32 ->
  reads (rle_read width) (rle_enc width r) (replicate r.2 r.1).
Proof.
  intros Hw Hv Hn. unfold rle_read, rle_enc. eapply reads_bind; [by apply reads_getWidth |].
  eapply reads_bind_nil; [apply reads_uvarint; unfold fits; lia |].
  cbn beta. rewrite i64_small by lia. rewrite Nat2Z.id. apply reads_ret.
Qed.

Lemma reads_repeat_map {A B} (m : rd A) (enc : B -> list Z) (g : B -> A) (l : list B) :
  Forall (fun b => reads m (enc b) (g b)) l ->
  reads (r_repeat (length l) m) (mjoin (enc <$> l)) (g <$> l).
Proof.
  induction 1 as [|a l Ha Hl IH]; [apply reads_ret |].
  cbn [length r_repeat]. cbn. eapply reads_bind; [exact Ha |].
  eapply reads_bind_nil; [exact IH | apply reads_ret].
Qed.

(** Page sizes: the page header counts values and payload bytes in 32 bits. *)
Definition page_small {A} (l : list A) : Prop := Z.of_nat (length l) < 2 ^ 32.

Lemma decodeRLE_encodeRLE width vals :
  width_ok width = true -> Forall (fits (width_bits width)) vals ->
  page_small vals -> page_small (encodeRLE vals width) ->
  decodeRLE (encodeRLE vals width) (length vals) width = Ok vals.
Proof.
  intros Hw Hv Hs Hp. unfold decodeRLE, encodeRLE, page_small in *.
  destruct (rle_loop_spec (length vals) vals width [] 0) as (rl & E & Hj & Hn & HF); [lia |].
  rewrite E in *. unfold w_bytes, w_uvarint in *. cbn [app] in *. rewrite Z.add_0_l in *.
  rewrite <- (app_nil_r (put_uvarint _ ++ _)).
  rewrite (reads_run _ _ _ vals).
  - cbn. by rewrite Nat.eqb_refl.
  - eapply reads_bind; [apply reads_uvarint; unfold fits; lia |]. cbn beta.
    rewrite i64_small by lia. rewrite Nat2Z.id.
    eapply reads_bind_nil.
    + apply (reads_repeat_map _ (rle_enc width) (fun r : Z * nat => replicate r.2 r.1)).
      eapply Forall_impl; [exact HF |]. intros [x k] [Hx Hk]. apply reads_rle; cbn in *; [done | | lia].
      rewrite Forall_forall in Hv. by apply Hv.
    + cbn beta. rewrite Hj. apply reads_ret.
  - unfold buf_max. lia.
Qed.

(** The dictionary: every code names a value, every indexed value its position. *)
Definition dict_inv (s : dict_st) (vals : list Z) : Prop :=
  (forall v c, dt_index s !! v = Some c -> dt_dict s !! c = Some v) /\
  Forall2 (fun v c => 0 <= c /\ dt_dict s !! Z.to_nat c = Some v) vals (dt_codes s) /\
  (length (dt_dict s) <= length vals)%nat /\
  Forall (.∈ vals) (dt_dict s).

Lemma dict_step_inv s vals v : dict_inv s vals -> dict_inv (dict_step s v) (vals ++ [v]).
Proof.
  intros (Hi & Hc & Hl & Hd). unfold dict_step.
  assert (Hd' : Forall (.∈ vals ++ [v]) (dt_dict s)).
  { eapply Forall_impl; [exact Hd |]. intros x Hx. apply elem_of_app. by left. }
  destruct (dt_index s !! v) as [c |] eqn:E; unfold dict_inv; cbn; split_and!; try done.
  - apply Forall2_app; [done |]. repeat constructor; [lia |]. rewrite Nat2Z.id. by apply Hi.
  - rewrite length_app. cbn. lia.
  - intros x c. destruct (decide (x = v)) as [-> |].
    + rewrite lookup_insert_eq. intros [= <-]. by rewrite lookup_app_r, Nat.sub_diag by lia.
    + rewrite lookup_insert_ne by done. intros Hx. apply Hi in Hx.
      by apply lookup_app_l_Some.
  - apply Forall2_app.
    + eapply Forall2_impl; [exact Hc |]. intros x c [H0 Hx]. split; [done |].
      by apply lookup_app_l_Some.
    + repeat constructor; [lia |]. by rewrite Nat2Z.id, lookup_app_r, Nat.sub_diag by lia.
  - rewrite !length_app. cbn. lia.
  - apply Forall_app. split; [done |]. repeat constructor. apply elem_of_app. right. left.
Qed.

Lemma dict_fold_inv vals : dict_inv (foldl dict_step (mkDict ∅ [] []) vals) vals.
Proof.
  induction vals as [|v vals IH] using rev_ind.
  - split_and!; cbn; [| constructor | lia | constructor]. intros v c. by rewrite lookup_empty.
  - rewrite foldl_app. cbn. by apply dict_step_inv.
Qed.

Lemma foldl_putWidth dict width w :
  foldl (fun w v => putWidth w v width) w dict = w ++ mjoin ((fun v => putWidth [] v width) <$> dict).
Proof.
  revert w. induction dict as [|v dict IH]; intros w; cbn; [by rewrite app_nil_r |].
  rewrite IH, putWidth_app, <- app_assoc. done.
Qed.

Lemma dict_lookup_ok dict v c :
  Z.of_nat (length dict) < 2 ^ 32 -> 0 <= c -> dict !! Z.to_nat c = Some v ->
  dict_lookup dict c = Ok v.
Proof.
  intros Hl H0 Hc. unfold dict_lookup. pose proof (lookup_lt_Some _ _ _ Hc).
  rewrite i64_small by lia. bool_lia. by rewrite nth_lookup_default, Hc.
Qed.

Lemma mapM_dict_lookup dict vals codes :
  Z.of_nat (length dict) < 2 ^ 32 ->
  Forall2 (fun v c => 0 <= c /\ dict !! Z.to_nat c = Some v) vals codes ->
  mapM (dict_lookup dict) codes = Ok vals.
Proof.
  intros Hl. induction 1 as [|v c vals codes [H0 Hc] _ IH]; [done |].
  cbn [mapM]. rewrite (dict_lookup_ok _ v) by done. cbn. by rewrite IH.
Qed.

Lemma decodeDict_encodeDict width vals :
  width_ok width = true -> Forall (fits (width_bits width)) vals ->
  page_small vals -> page_small (encodeDict vals width) ->
  decodeDict (encodeDict vals width) (length vals) width = Ok vals.
Proof.
  intros Hw Hv Hs Hp. unfold decodeDict, encodeDict, page_small in *.
  destruct (Nat.eqb_spec (length vals) 0) as [E | Hne].
  { by destruct vals. }
  pose proof (dict_fold_inv vals) as (_ & Hc & Hl & Hd).
  set (s := foldl dict_step (mkDict ∅ [] []) vals) in *.
  set (cw := if 1 <? Z.of_nat (length (dt_dict s))
             then bitWidth (Z.of_nat (length (dt_dict s)) - 1) else 0%nat) in *.
  rewrite foldl_putWidth in *. unfold w_bytes, w_u8, w_uvarint in *. cbn [app] in *.
  assert (Hcl : length (dt_codes s) = length vals) by (by eapply eq_sym, Forall2_length).
  assert (Hcw : (cw <= 64)%nat /\ Forall (fits (Z.of_nat cw)) (dt_codes s)).
  { assert (Hb : Forall (fun c => 0 <= c < Z.of_nat (length (dt_dict s))) (dt_codes s)).
    { apply Forall_lookup. intros i c Hi.
      destruct (Forall2_lookup_r _ _ _ _ _ Hc Hi) as (v & _ & H0 & Hx).
      apply lookup_lt_Some in Hx. lia. }
    unfold cw. destruct (Z.ltb_spec 1 (Z.of_nat (length (dt_dict s)))).
    - assert (fits 64 (Z.of_nat (length (dt_dict s)) - 1)) by (unfold fits; lia).
      split; [by apply bitWidth_le |]. eapply Forall_impl; [exact Hb |].
      intros c [? ?]. eapply bitWidth_mono_fits; [done | lia].
    - split; [lia |]. eapply Forall_impl; [exact Hb |].
      intros c [? ?]. unfold fits. change (2 ^ Z.of_nat 0) with 1. lia. }
  destruct Hcw as [Hcw Hcodes].
  rewrite (reads_run_rest _ _ _ _ (dt_dict s, Z.of_nat cw)).
  - cbn [mbind res_bind fst snd]. rewrite Nat2Z.id, <- Hcl, bitunpack_bitpack by done.
    apply mapM_dict_lookup; [lia | done].
  - rewrite <- app_assoc. eapply reads_bind; [apply reads_uvarint; unfold fits; lia |]. cbn beta.
    rewrite i64_small by lia. unfold make_ok. bool_lia. cbn [andb]. rewrite <- (app_nil_l (mjoin _ ++ _)).
    do 2 (eapply (reads_bind _ _ []); [apply reads_ensure |]; cbn [app]). rewrite Nat2Z.id.
    eapply reads_bind.
    + apply (reads_repeat _ (fun v => putWidth [] v width)). eapply Forall_impl; [exact Hd |].
      intros v Hin. apply reads_getWidth; [done |]. rewrite Forall_forall in Hv. by apply Hv.
    + eapply reads_bind_nil; [apply reads_u8; unfold fits; lia | apply reads_ret].
  - unfold buf_max. rewrite !length_app in *. cbn in *. lia.
Qed.

(** A reader that produces a suffix of values from the previous one. *)
Lemma zig_fits x : fits 64 (zigzag (i64 x)).
Proof. apply zigzag_fits, i64_range. Qed.

Lemma delta_step prev v :
  fits 64 v -> u64 (i64 prev + unzigzag (zigzag (i64 (i64 v - i64 prev)))) = v.
Proof. intros Hv. rewrite unzigzag_zigzag by apply i64_range. by apply delta_back. Qed.

Lemma w_uvarint_app w v : w_uvarint w v = w ++ put_uvarint v.
Proof. reflexivity. Qed.

Lemma delta_write_cons prev v vals w :
  delta_write prev (v :: vals) w
  = delta_write v vals (w_uvarint w (zigzag (i64 (i64 v - i64 prev)))).
Proof. reflexivity. Qed.

Lemma delta_write_app prev vals w : delta_write prev vals w = w ++ delta_write prev vals [].
Proof.
  revert prev w. induction vals as [|v vals IH]; intros prev w.
  - by rewrite app_nil_r.
  - rewrite !delta_write_cons, (IH v (w_uvarint w _)), (IH v (w_uvarint [] _)).
    by rewrite !w_uvarint_app, app_nil_l, <- app_assoc.
Qed.

Lemma delta_read_S n prev :
  delta_read (S n) prev
  = (d ← r_uvarint; l ← delta_read n (u64 (i64 prev + unzigzag d));
     mret (u64 (i64 prev + unzigzag d) :: l)).
Proof. reflexivity. Qed.

Lemma reads_delta prev vals :
  Forall (fits 64) vals -> reads (delta_read (length vals) prev) (delta_write prev vals []) vals.
Proof.
  intros Hv. revert prev. induction Hv as [|v vals Hv _ IH]; intros prev; [apply reads_ret |].
  rewrite delta_write_cons, delta_write_app, w_uvarint_app, app_nil_l.
  change (length (v :: vals)) with (S (length vals)). rewrite delta_read_S.
  eapply reads_bind; [apply reads_uvarint, zig_fits |].
  cbn beta. rewrite delta_step by done. eapply reads_bind_nil; [apply IH | apply reads_ret].
Qed.

Lemma decodeDelta_encodeDelta vals :
  Forall (fits 64) vals -> page_small (encodeDelta vals).1 ->
  decodeDelta (encodeDelta vals).1 (length vals) (encodeDelta vals).2 = Ok vals.
Proof.
  intros Hv Hp. destruct vals as [|base vals]; [done |]. inversion Hv; subst.
  cbn [encodeDelta fst snd length decodeDelta] in *.
  rewrite <- (app_nil_r (delta_write _ _ _)), (reads_run _ _ _ vals); [done | by apply reads_delta |].
  unfold page_small, buf_max in *. lia.
Qed.

Lemma list_min_spec d l : list_min d l <= d /\ Forall (Z.le (list_min d l)) l /\
  (list_min d l = d \/ list_min d l ∈ l).
Proof.
  revert d. induction l as [|v l IH]; intros d; [cbn; split_and!; auto; lia |].
  change (list_min d (v :: l)) with (list_min (if v <? d then v else d) l).
  destruct (Z.ltb_spec v d); destruct (IH v) as (? & ? & Hv); destruct (IH d) as (? & ? & Hd);
    split_and!; try lia; try (constructor; [lia | done]).
  - right. destruct Hv as [Hv | Hv]; [rewrite Hv; left | by right].
  - destruct Hd as [Hd | Hd]; [by left | right; by right].
Qed.

Lemma list_max_spec d l : d <= list_max d l /\ Forall (fun v => v <= list_max d l) l /\
  (list_max d l = d \/ list_max d l ∈ l).
Proof.
  revert d. induction l as [|v l IH]; intros d; [cbn; split_and!; auto; lia |].
  change (list_max d (v :: l)) with (list_max (if d <? v then v else d) l).
  destruct (Z.ltb_spec d v); destruct (IH v) as (? & ? & Hv); destruct (IH d) as (? & ? & Hd);
    split_and!; try lia; try (constructor; [lia | done]).
  - right. destruct Hv as [Hv | Hv]; [rewrite Hv; left | by right].
  - destruct Hd as [Hd | Hd]; [by left | right; by right].
Qed.

Lemma list_min_in d l n : fits n d -> Forall (fits n) l -> fits n (list_min d l).
Proof.
  intros Hd Hl. rewrite Forall_forall in Hl.
  destruct (list_min_spec d l) as (_ & _ & [-> | H]); auto.
Qed.
Lemma list_max_in d l n : fits n d -> Forall (fits n) l -> fits n (list_max d l).
Proof.
  intros Hd Hl. rewrite Forall_forall in Hl.
  destruct (list_max_spec d l) as (_ & _ & [-> | H]); auto.
Qed.

(** The residuals over the minimum fit the width of the spread, and adding the
    minimum back restores the values. *)
Lemma for_residuals d l :
  fits 64 d -> Forall (fits 64) l ->
  let bw := bitWidth (u64 (list_max d l - list_min d l)) in
  (bw <= 64)%nat /\
  Forall (fits (Z.of_nat bw)) ((fun v => u64 (v - list_min d l)) <$> l) /\
  (fun v => u64 (list_min d l + v)) <$> ((fun v => u64 (v - list_min d l)) <$> l) = l.
Proof.
  intros Hd Hl bw.
  pose proof (list_min_in d l 64 Hd Hl) as Hmin. pose proof (list_max_in d l 64 Hd Hl) as Hmax.
  destruct (list_min_spec d l) as (Hm1 & Hm2 & _). destruct (list_max_spec d l) as (Hx1 & Hx2 & _).
  set (mn := list_min d l) in *. set (mx := list_max d l) in *.
  assert (Hs : fits 64 (mx - mn)) by (unfold fits in *; lia).
  unfold bw. rewrite (u64_small (mx - mn)) by done. split_and!.
  - by apply bitWidth_le.
  - apply Forall_fmap, Forall_forall. intros v Hv. cbn.
    rewrite Forall_forall in Hl, Hm2, Hx2. specialize (Hl v Hv). specialize (Hm2 v Hv).
    specialize (Hx2 v Hv). cbn in Hx2. unfold fits in *.
    rewrite u64_small by (unfold fits; lia). apply bitWidth_mono_fits; [unfold fits; lia | lia].
  - rewrite <- list_fmap_compose. rewrite <- (list_fmap_id l) at 2.
    apply list_fmap_ext. intros i v Hv. cbn. apply udelta_back.
    rewrite Forall_lookup in Hl. by eapply Hl.
Qed.

Lemma decodeFOR_encodeFOR vals :
  Forall (fits 64) vals ->
  decodeFOR (encodeFOR vals).1 (length vals) (encodeFOR vals).2 = Ok vals.
Proof.
  intros Hv. destruct vals as [|v0 vals]; [done |].
  pose proof (Forall_inv Hv) as Hv0. destruct (for_residuals v0 (v0 :: vals) Hv0 Hv) as (Hb & Hr & Hback).
  cbn [encodeFOR fst snd]. unfold decodeFOR.
  set (bw := bitWidth _) in *. set (rs := (fun v => u64 (v - _)) <$> _) in *.
  rewrite (proj2 (Nat.eqb_neq _ _)) by (cbn; lia). change (w_bytes (w_u8 [] (Z.of_nat bw)) (bitpack rs bw))
    with ([u8 (Z.of_nat bw)] ++ bitpack rs bw).
  rewrite (reads_run_rest r_u8 (fun bw rest => (bw, rest)) [u8 (Z.of_nat bw)] _ (Z.of_nat bw)).
  - cbn [mbind res_bind]. rewrite Nat2Z.id.
    replace (length (v0 :: vals)) with (length rs) by (unfold rs; by rewrite length_fmap).
    rewrite bitunpack_bitpack by done. by rewrite Hback.
  - apply reads_u8. unfold fits. lia.
  - cbn. unfold buf_max. lia.
Qed.

Lemma zig_deltas_length prev vals : length (zig_deltas prev vals) = length vals.
Proof. revert prev. induction vals; intros; cbn; auto. Qed.

Lemma zig_deltas_fits prev vals : Forall (fits 64) (zig_deltas prev vals).
Proof. revert prev. induction vals; intros; cbn; constructor; auto using zig_fits. Qed.

Lemma undelta_zig prev dmin vals ds :
  Forall (fits 64) vals ->
  (fun r => u64 (dmin + r)) <$> ds = zig_deltas prev vals ->
  undelta prev dmin ds = vals.
Proof.
  intros Hv. revert prev ds. induction Hv as [|v vals Hv _ IH]; intros prev ds E.
  - by destruct ds.
  - destruct ds as [|r ds]; [done |]. cbn in E. injection E as E1 E2. cbn.
    rewrite Z.add_comm in E1. rewrite E1, delta_step by done. f_equal. by apply IH.
Qed.

Lemma decodeDeltaFOR_encodeDeltaFOR vals :
  Forall (fits 64) vals ->
  decodeDeltaFOR (encodeDeltaFOR vals).1 (length vals) (encodeDeltaFOR vals).2 = Ok vals.
Proof.
  intros Hv. destruct vals as [|base [|v vals]]; [done | done |].
  apply Forall_inv_tail in Hv. pose proof (zig_deltas_fits base (v :: vals)) as Hd.
  pose proof (zig_deltas_length base (v :: vals)) as Hl.
  cbn [encodeDeltaFOR].
  destruct (zig_deltas base (v :: vals)) as [|d0 ds] eqn:E; [done |]. cbn [fst snd].
  destruct (for_residuals d0 (d0 :: ds) (Forall_inv Hd) Hd) as (Hb & Hr & Hback).
  set (bw := bitWidth _) in *. set (rs := (fun d => u64 (d - _)) <$> _) in *.
  set (dmin := list_min d0 (d0 :: ds)) in *. change (w_bytes (w_uvarint (w_u8 [] (Z.of_nat bw)) dmin) (bitpack rs bw))
    with ((u8 (Z.of_nat bw) :: put_uvarint dmin) ++ bitpack rs bw).
  cbn [length decodeDeltaFOR].
  assert (Hdm : fits 64 dmin) by (apply list_min_in; [by inversion Hd | done]).
  rewrite (reads_run_rest _ (fun h rest => (h.1, h.2, rest))
             (u8 (Z.of_nat bw) :: put_uvarint dmin) _ (Z.of_nat bw, dmin)).
  - cbn [mbind res_bind fst snd]. rewrite Nat2Z.id.
    replace (S (length vals)) with (length rs)
      by (unfold rs; rewrite length_fmap; cbn in *; lia).
    rewrite bitunpack_bitpack by done. rewrite (undelta_zig base dmin (v :: vals)); [done | done |].
    by rewrite Hback.
  - change (u8 (Z.of_nat bw) :: put_uvarint dmin) with ([u8 (Z.of_nat bw)] ++ put_uvarint dmin).
    eapply reads_bind; [apply reads_u8; unfold fits; lia |].
    eapply reads_bind_nil; [by apply reads_uvarint | apply reads_ret].
  - cbn [length]. pose proof (put_uvarint_length dmin). unfold buf_max. lia.
Qed.

(** ** Payload sizes *)

Lemma putWidth_length v width : (length (putWidth [] v width) <= 8)%nat.
Proof. do 9 (destruct width as [|width]; [cbn; lia |]). cbn. lia. Qed.

Lemma rle_loop_length fuel vals width runs count :
  (length vals <= fuel)%nat ->
  (length (rle_loop fuel vals width runs count).1 <= length runs + 18 * length vals)%nat.
Proof.
  revert vals runs count. induction fuel as [|fuel IH]; intros vals runs count Hf.
  - destruct vals; cbn; lia.
  - destruct vals as [|v vals]; [cbn; lia |]. cbn [rle_loop].
    destruct (rle_run_spec v vals) as (rest & E & D). rewrite D.
    pose proof (f_equal length E) as El. rewrite length_app in El.
    cbn [length] in *. etrans; [apply IH; lia |].
    rewrite w_uvarint_app, putWidth_app, !length_app.
    pose proof (putWidth_length v width). pose proof (put_uvarint_length (Z.of_nat (S (rle_run v vals)))).
    lia.
Qed.

Lemma delta_write_length prev vals w :
  (length (delta_write prev vals w) <= length w + 10 * length vals)%nat.
Proof.
  revert prev w. induction vals as [|v vals IH]; intros prev w; [cbn; lia |].
  rewrite delta_write_cons. etrans; [apply IH |]. rewrite w_uvarint_app, length_app. cbn [length].
  pose proof (put_uvarint_length (zigzag (i64 (i64 v - i64 prev)))). lia.
Qed.

Lemma bitpack_length_le vals width :
  (width <= 64)%nat -> (length (bitpack vals width) <= 8 * length vals)%nat.
Proof.
  intros H. rewrite bitpack_length. apply Nat.lt_succ_r, Nat.Div0.div_lt_upper_bound. nia.
Qed.

Lemma mjoin_length_le {A} (f : A -> list Z) k l :
  (forall x, length (f x) <= k)%nat -> (length (mjoin (f <$> l)) <= k * length l)%nat.
Proof.
  intros Hf. induction l as [|x l IH]; [cbn; lia |].
  change (mjoin (f <$> x :: l)) with (f x ++ mjoin (f <$> l)). rewrite length_app.
  specialize (Hf x). cbn [length]. lia.
Qed.

(** No payload is longer than 18 bytes per value and 21 bytes of preamble. *)
Lemma encodeValues_length enc vals width :
  width_ok width = true -> Forall (fits (width_bits width)) vals -> page_small vals ->
  (length (encodeValues enc vals width).1 <= 18 * length vals + 21)%nat.
Proof.
  intros Hw Hv Hs. assert (Hv64 : Forall (fits 64) vals).
  { eapply Forall_impl; [exact Hv |]. intros v. by apply width_bits_64. }
  unfold encodeValues. repeat case_match; cbn [fst].
  - unfold encodeRLE. pose proof (rle_loop_length (length vals) vals width [] 0 (le_n _)) as Hl.
    destruct (rle_loop _ _ _ _ _) as [runs count]. unfold w_bytes.
    rewrite w_uvarint_app, app_nil_l, length_app. cbn [fst length] in Hl.
    pose proof (put_uvarint_length count). lia.
  - unfold encodeDict. pose proof (dict_fold_inv vals) as (_ & Hc & Hl & _).
    set (s := foldl dict_step _ vals) in *. apply Forall2_length in Hc.
    unfold w_bytes, w_u8. rewrite foldl_putWidth, w_uvarint_app, app_nil_l, !length_app.
    pose proof (put_uvarint_length (Z.of_nat (length (dt_dict s)))).
    pose proof (mjoin_length_le (fun v => putWidth [] v width) 8 (dt_dict s)
      (fun v => putWidth_length v width)) as Hj.
    set (cw := if 1 <? _ then _ else _).
    assert (Hcw : (cw <= 64)%nat).
    { unfold cw. destruct (Z.ltb_spec 1 (Z.of_nat (length (dt_dict s)))); [|lia].
      apply bitWidth_le. unfold page_small, fits in *. lia. }
    pose proof (bitpack_length_le (dt_codes s) cw Hcw). cbn [length] in *. lia.
  - destruct vals as [|v vals]; [cbn; lia |]. cbn [encodeDelta fst].
    etrans; [apply delta_write_length |]. cbn [length]. lia.
  - destruct vals as [|v vals]; [cbn; lia |]. unfold encodeFOR. cbn [fst].
    destruct (for_residuals v (v :: vals) (Forall_inv Hv64) Hv64) as (Hb & _).
    unfold w_bytes, w_u8. rewrite !length_app.
    etrans; [apply Nat.add_le_mono_l, bitpack_length_le, Hb |].
    rewrite length_fmap. cbn [length]. lia.
  - destruct vals as [|v vals]; [cbn; lia |]. unfold encodeDeltaFOR.
    pose proof (zig_deltas_fits v vals) as Hd. pose proof (zig_deltas_length v vals) as Hl.
    destruct (zig_deltas v vals) as [|d0 ds].
    + rewrite w_uvarint_app. unfold w_u8. cbn [fst]. rewrite !length_app.
      pose proof (put_uvarint_length 0). cbn [length]. lia.
    + cbn [fst]. destruct (for_residuals d0 (d0 :: ds) (Forall_inv Hd) Hd) as (Hb & _).
      unfold w_bytes. rewrite w_uvarint_app. unfold w_u8. rewrite !length_app.
      pose proof (put_uvarint_length (list_min d0 (d0 :: ds))).
      pose proof (bitpack_length_le ((fun d => u64 (d - list_min d0 (d0 :: ds))) <$> d0 :: ds) _ Hb) as Hp.
      rewrite length_fmap in Hp. cbn [length] in *. lia.
  - rewrite writeValues_length. width_cases Hw; lia.
Qed.

Lemma encodeValues_base enc vals width :
  Forall (fits 64) vals -> fits 64 (encodeValues enc vals width).2.
Proof.
  intros Hv. assert (H0 : fits 64 0) by by vm_compute.
  unfold encodeValues. repeat case_match; cbn [snd]; try done.
  - destruct Hv; done.
  - destruct vals as [|v vals]; [done |]. cbn [encodeFOR snd].
    apply list_min_in; [by inversion Hv | done].
  - destruct Hv as [|v vals Hv0 Hv]; [done |]. unfold encodeDeltaFOR.
    by destruct (zig_deltas v vals).
Qed.

Lemma decode_values_ok enc vals width :
  width_ok width = true -> enc ∈ [EncRaw; EncDict; EncDelta; EncFOR; EncRLE; EncDeltaFOR] ->
  Forall (fits (width_bits width)) vals -> page_small vals ->
  page_small (encodeValues enc vals width).1 ->
  decodeValues enc (encodeValues enc vals width).1 (length vals) width
    (encodeValues enc vals width).2 = Ok vals.
Proof.
  intros Hw Henc Hv Hn Hp.
  assert (Hv64 : Forall (fits 64) vals).
  { eapply Forall_impl; [exact Hv |]. intros v. by apply width_bits_64. }
  unfold page_small, encodeValues, decodeValues in *.
  repeat (apply elem_of_cons in Henc as [-> | Henc]); [.. | by apply elem_of_nil in Henc];
    cbn [Z.eqb Pos.eqb EncRaw EncDict EncDelta EncFOR EncRLE EncDeltaFOR fst snd] in Hp |- *.
  - by rewrite readValues_writeValues.
  - by apply decodeDict_encodeDict.
  - by apply decodeDelta_encodeDelta.
  - by apply decodeFOR_encodeFOR.
  - by apply decodeRLE_encodeRLE.
  - by apply decodeDeltaFOR_encodeDeltaFOR.
Qed.

(** ** Property *)

(** C29: Every value encoding of the column cascade is lossless. *)
Theorem decode_encode_values (enc : Z) (vals : list Z) (width : nat)
    (Hw : width_ok width = true) (Henc : enc ∈ [EncRaw; EncDict; EncDelta; EncFOR; EncRLE; EncDeltaFOR])
    (Hv : Forall (fits (8 * Z.of_nat width)) vals)
    (Hn : Z.of_nat (length vals) < 2 ^ 32)
    (Hp : Z.of_nat (length (encodeValues enc vals width).1) < 2 ^ 32) :
  decodeValues enc (encodeValues enc vals width).1 (length vals) width
    (encodeValues enc vals width).2 = Ok vals.
Proof. by apply decode_values_ok. Qed.

Lemma decode_encode_values_witness :
  decodeValues EncDeltaFOR (encodeValues EncDeltaFOR [7; 9; 9; 3; 65535] 2).1 5 2
    (encodeValues EncDeltaFOR [7; 9; 9; 3; 65535] 2).2 = Ok [7; 9; 9; 3; 65535].
Proof.
  apply (decode_encode_values EncDeltaFOR [7; 9; 9; 3; 65535] 2).
  - reflexivity.
  - apply (bool_decide_unpack _). vm_compute. exact I.
  - apply (bool_decide_unpack _). vm_compute. exact I.
  - vm_compute. reflexivity.
  - vm_compute. reflexivity.
Defined.
