(* ===== verification/Page.v ===== *)
(** * File header and pages (format/header.go, format/codec.go, format/page.go)

    The 64-byte header and the 32-byte page header with their CRC32C, the block
    codec, and what they guarantee: what was written is read back, and a change
    of any one byte under a checksum is an error. *)

From S2P Require Import Prelude Words Rbuf.
Open Scope Z_scope.

(** ** Fields at fixed offsets *)

(** [binary.LittleEndian.UintN(b[i:i+n])]; every caller has checked the length. *)
Definition le_at (b : list Z) (i n : nat) : Z := le_val (slice b i (i + n)).

Lemma le_at_skip a b i n :
  (length a <= i)%nat -> le_at (a ++ b) i n = le_at b (i - length a) n.
Proof.
  intros H. unfold le_at, slice. rewrite drop_app_ge by done. do 2 f_equal. lia.
Qed.

Lemma le_at_here n v rest :
  fits (8 * Z.of_nat n) v -> le_at (le_bytes n v ++ rest) 0 n = v.
Proof.
  intros H. unfold le_at, slice. rewrite drop_0, take_app_exact by (rewrite le_bytes_length; lia).
  by apply le_val_bytes_fits.
Qed.

Lemma le_at_here' n v : fits (8 * Z.of_nat n) v -> le_at (le_bytes n v) 0 n = v.
Proof. intros H. rewrite <- (app_nil_r (le_bytes n v)). by apply le_at_here. Qed.

(** Reads a field of a concatenation of fixed-width fields. *)
Ltac fields :=
  repeat (rewrite le_at_skip by (rewrite ?le_bytes_length; simpl; lia));
  rewrite ?le_bytes_length; cbn [length Nat.sub Nat.add];
  first [ rewrite le_at_here by (unfold fits in *; simpl; lia || assumption)
        | rewrite le_at_here' by (unfold fits in *; simpl; lia || assumption) ].

Lemma le_at_app_l a b i n : (i + n <= length a)%nat -> le_at (a ++ b) i n = le_at a i n.
Proof.
  intros H. unfold le_at, slice. rewrite drop_app_le by lia.
  by rewrite take_app_le by (rewrite length_drop; lia).
Qed.

(** ** Block codec

    zstd is a third-party package and so a parameter; decoding what it encoded
    gives the input back.  [CodecNone] and the dispatch are the source's. *)
Class BlockCodec := {
  zstd_enc : list Z -> list Z;
  zstd_dec : list Z -> Z -> res (list Z)
}.
Class BlockCodecLaws `{BlockCodec} := {
  zstd_dec_enc : forall s n, zstd_dec (zstd_enc s) n = Ok s;
  (** far above the documented worst-case expansion of a zstd frame *)
  zstd_enc_length : forall s, (length (zstd_enc s) <= 2 * length s + 128)%nat
}.

Definition CodecNone : Z := 0.
Definition CodecZstd : Z := 2.

Definition compress `{BlockCodec} (codec : Z) (src : list Z) : Z * list Z :=
  if codec =? CodecZstd then (CodecZstd, zstd_enc src) else (CodecNone, src).

(** The default case is [errUnknownCodec], which wraps [ErrCorrupt]. *)
Definition decompress `{BlockCodec} (codec : Z) (src : list Z) (uncompressedSize : Z)
    : res (list Z) :=
  if codec =? CodecZstd then zstd_dec src uncompressedSize
  else if codec =? CodecNone then Ok src
  else Err ErrCorrupt.

Lemma decompress_compress `{BlockCodecLaws} codec src n :
  decompress (compress codec src).1 (compress codec src).2 n = Ok src.
Proof. unfold compress, decompress. destruct (codec =? CodecZstd); cbn; [apply zstd_dec_enc | done]. Qed.

Lemma compress_codec_fits `{BlockCodec} codec src : fits 8 (compress codec src).1.
Proof. unfold compress. destruct (codec =? CodecZstd); by vm_compute. Qed.

Lemma compress_length `{BlockCodecLaws} codec src :
  (length (compress codec src).2 <= 2 * length src + 128)%nat.
Proof. unfold compress. destruct (codec =? CodecZstd); cbn; [apply zstd_enc_length | lia]. Qed.

(** ** The file header *)

Definition Magic : list Z := [77; 69; 71; 49].   (* 'M' 'E' 'G' '1' *)
Definition VersionMajor : Z := 1.
Definition VersionMinor : Z := 0.
Definition HeaderSize : nat := 64.

Record Header := mkHeader {
  hd_VersionMajor : Z; hd_VersionMinor : Z; hd_PartitionID : Z; hd_Flags : Z;
  hd_ChecksumAlgo : Z; hd_DefaultCodec : Z; hd_HostKeyLo : Z; hd_HostKeyHi : Z;
  hd_URLCount : Z; hd_HostCount : Z; hd_FooterOffset : Z; hd_CreatedHours : Z
}.

Definition header_wf (h : Header) : Prop :=
  fits 16 (hd_VersionMajor h) /\ fits 16 (hd_VersionMinor h) /\ fits 32 (hd_PartitionID h) /\
  fits 16 (hd_Flags h) /\ fits 8 (hd_ChecksumAlgo h) /\ fits 8 (hd_DefaultCodec h) /\
  fits 64 (hd_HostKeyLo h) /\ fits 64 (hd_HostKeyHi h) /\ fits 64 (hd_URLCount h) /\
  fits 64 (hd_HostCount h) /\ fits 64 (hd_FooterOffset h) /\ fits 32 (hd_CreatedHours h).

(** The first 60 bytes of [Header.Encode]. *)
Definition header_body (h : Header) : list Z :=
  Magic ++ le_bytes 2 (hd_VersionMajor h) ++ le_bytes 2 (hd_VersionMinor h) ++
  le_bytes 4 (hd_PartitionID h) ++ le_bytes 2 (hd_Flags h) ++
  le_bytes 1 (hd_ChecksumAlgo h) ++ le_bytes 1 (hd_DefaultCodec h) ++
  le_bytes 8 (hd_HostKeyLo h) ++ le_bytes 8 (hd_HostKeyHi h) ++
  le_bytes 8 (hd_URLCount h) ++ le_bytes 8 (hd_HostCount h) ++
  le_bytes 8 (hd_FooterOffset h) ++ le_bytes 4 (hd_CreatedHours h).

Definition header_Encode (h : Header) : list Z :=
  header_body h ++ le_bytes 4 (crc32c (header_body h)).

(** The fields as [DecodeHeader] reads them. *)
Definition header_fields (b : list Z) : Header :=
  mkHeader (le_at b 4 2) (le_at b 6 2) (le_at b 8 4) (le_at b 12 2)
    (le_at b 14 1) (le_at b 15 1) (le_at b 16 8) (le_at b 24 8)
    (le_at b 32 8) (le_at b 40 8) (le_at b 48 8) (le_at b 56 4).

Definition DecodeHeader (b : list Z) : res Header :=
  _ ← ensure (HeaderSize <=? length b)%nat ErrShortFile;
  _ ← ensure (bool_decide (slice b 0 4 = Magic)) ErrBadMagic;
  _ ← ensure (le_at b 60 4 =? crc32c (slice b 0 60)) ErrChecksum;
  let h := header_fields b in
  _ ← ensure (hd_VersionMajor h =? VersionMajor) ErrUnsupported;
  mret h.

(** ** Pages *)

Definition PageHeaderSize : nat := 32.
Definition PageData : Z := 0.
Definition PageBlob : Z := 3.
Definition PageFilter : Z := 4.
Definition PageSchedule : Z := 5.

Record pageHeader := mkPageHeader {
  ph_kind : Z; ph_encoding : Z; ph_codec : Z; ph_flags : Z; ph_numValues : Z;
  ph_uncompressedSize : Z; ph_compressedSize : Z; ph_firstRowIndex : Z;
  ph_pageBase : Z; ph_payloadCRC32C : Z
}.

Definition page_header_bytes (kind encoding usedCodec numValues firstRow pageBase : Z)
    (payload comp : list Z) : list Z :=
  le_bytes 1 kind ++ le_bytes 1 encoding ++ le_bytes 1 usedCodec ++ le_bytes 1 0 ++
  le_bytes 4 numValues ++ le_bytes 4 (Z.of_nat (length payload)) ++
  le_bytes 4 (Z.of_nat (length comp)) ++ le_bytes 4 firstRow ++ le_bytes 8 pageBase ++
  le_bytes 4 (crc32c comp).

Definition writePage `{BlockCodec} (kind encoding codec numValues firstRow pageBase : Z)
    (payload : list Z) : list Z :=
  let '(usedCodec, comp) := compress codec payload in
  page_header_bytes kind encoding usedCodec numValues firstRow pageBase payload comp ++ comp.

Definition readPage `{BlockCodec} (b : list Z) : res (pageHeader * list Z * nat) :=
  _ ← ensure (PageHeaderSize <=? length b)%nat ErrCorrupt;
  let h := mkPageHeader (le_at b 0 1) (le_at b 1 1) (le_at b 2 1) (le_at b 3 1)
             (le_at b 4 4) (le_at b 8 4) (le_at b 12 4) (le_at b 16 4)
             (le_at b 20 8) (le_at b 28 4) in
  let e := (PageHeaderSize + Z.to_nat (ph_compressedSize h))%nat in
  _ ← ensure (e <=? length b)%nat ErrCorrupt;
  let comp := slice b PageHeaderSize e in
  _ ← ensure (crc32c comp =? ph_payloadCRC32C h) ErrChecksum;
  payload ← decompress (ph_codec h) comp (ph_uncompressedSize h);
  _ ← ensure (u32 (Z.of_nat (length payload)) =? ph_uncompressedSize h) ErrCorrupt;
  mret (h, payload, e).

(** ** Round trips *)

Lemma header_body_length h : length (header_body h) = 60%nat.
Proof. unfold header_body. rewrite !length_app, !le_bytes_length. done. Qed.

Lemma header_Encode_length h : length (header_Encode h) = HeaderSize.
Proof. unfold header_Encode. by rewrite length_app, header_body_length, le_bytes_length. Qed.

Lemma slice_prefix {A} (a b : list A) n : n = length a -> slice (a ++ b) 0 n = a.
Proof. intros ->. unfold slice. rewrite drop_0, Nat.sub_0_r. apply take_app_length. Qed.

Lemma header_magic h rest : slice (header_Encode h ++ rest) 0 4 = Magic.
Proof. unfold header_Encode, header_body. rewrite <- !app_assoc. by apply slice_prefix. Qed.

Lemma header_crc h rest : le_at (header_Encode h ++ rest) 60 4 = crc32c (header_body h).
Proof.
  pose proof (header_body_length h) as Hl. unfold header_Encode. rewrite <- app_assoc.
  rewrite (le_at_skip (header_body h)) by lia. rewrite Hl. apply le_at_here, crc32c_fits.
Qed.

Lemma header_covered h rest : slice (header_Encode h ++ rest) 0 60 = header_body h.
Proof.
  unfold header_Encode. rewrite <- app_assoc. apply slice_prefix. by rewrite header_body_length.
Qed.

Lemma header_fields_ok h rest : header_wf h -> header_fields (header_Encode h ++ rest) = h.
Proof.
  intros (H1 & H2 & H3 & H4 & H5 & H6 & H7 & H8 & H9 & H10 & H11 & H12).
  unfold header_fields, header_Encode, header_body. rewrite <- !app_assoc.
  assert (HM : length Magic = 4%nat) by done.
  repeat (rewrite (le_at_skip Magic) by (rewrite HM; lia)). rewrite HM. cbn [Nat.sub].
  destruct h as [f1 f2 f3 f4 f5 f6 f7 f8 f9 f10 f11 f12].
  cbn [hd_VersionMajor hd_VersionMinor hd_PartitionID hd_Flags hd_ChecksumAlgo hd_DefaultCodec
       hd_HostKeyLo hd_HostKeyHi hd_URLCount hd_HostCount hd_FooterOffset hd_CreatedHours] in *.
  f_equal; fields; done.
Qed.

Lemma DecodeHeader_Encode h rest :
  header_wf h -> hd_VersionMajor h = VersionMajor -> DecodeHeader (header_Encode h ++ rest) = Ok h.
Proof.
  intros Hwf Hv. unfold DecodeHeader, ensure.
  rewrite header_fields_ok by done.
  rewrite length_app, header_Encode_length, header_magic, header_crc, header_covered, Hv.
  by rewrite !Z.eqb_refl, bool_decide_eq_true_2, (proj2 (Nat.leb_le _ _)) by (lia || done).
Qed.

Lemma page_header_length k e c n f p payload comp :
  length (page_header_bytes k e c n f p payload comp) = PageHeaderSize.
Proof. unfold page_header_bytes. by rewrite !length_app, !le_bytes_length. Qed.

(** A page that is written is read back, whatever follows it. *)
Lemma readPage_writePage `{BlockCodecLaws} kind encoding codec numValues firstRow pageBase payload rest :
  fits 8 kind -> fits 8 encoding -> fits 32 numValues -> fits 32 firstRow -> fits 64 pageBase ->
  Z.of_nat (length payload) < 2 ^ 32 ->
  Z.of_nat (length (compress codec payload).2) < 2 ^ 32 ->
  let page := writePage kind encoding codec numValues firstRow pageBase payload in
  readPage (page ++ rest)
  = Ok (mkPageHeader kind encoding (compress codec payload).1 0 numValues
          (Z.of_nat (length payload)) (Z.of_nat (length (compress codec payload).2)) firstRow
          pageBase (crc32c (compress codec payload).2), payload, length page).
Proof.
  intros Hk He Hn Hf Hb Hp Hc. unfold writePage.
  pose proof (decompress_compress codec payload (Z.of_nat (length payload))) as Hd.
  pose proof (compress_codec_fits codec payload) as Hcf.
  destruct (compress codec payload) as [used comp]. cbn [fst snd] in *.
  set (hb := page_header_bytes _ _ _ _ _ _ _ _).
  assert (Hl : length hb = 32%nat) by apply page_header_length.
  rewrite <- app_assoc.
  assert (Hfields : mkPageHeader
     (le_at (hb ++ comp ++ rest) 0 1) (le_at (hb ++ comp ++ rest) 1 1)
     (le_at (hb ++ comp ++ rest) 2 1) (le_at (hb ++ comp ++ rest) 3 1)
     (le_at (hb ++ comp ++ rest) 4 4) (le_at (hb ++ comp ++ rest) 8 4)
     (le_at (hb ++ comp ++ rest) 12 4) (le_at (hb ++ comp ++ rest) 16 4)
     (le_at (hb ++ comp ++ rest) 20 8) (le_at (hb ++ comp ++ rest) 28 4)
     = mkPageHeader kind encoding used 0 numValues (Z.of_nat (length payload))
         (Z.of_nat (length comp)) firstRow pageBase (crc32c comp)).
  { unfold hb, page_header_bytes. rewrite <- !app_assoc. pose proof (crc32c_fits comp).
    assert (fits 8 0) by done.
    assert (fits 32 (Z.of_nat (length payload)) /\ fits 32 (Z.of_nat (length comp))) as [? ?]
      by (unfold fits; lia).
    f_equal; fields; done. }
  unfold readPage, ensure. cbv zeta. rewrite Hfields. cbn [ph_compressedSize ph_payloadCRC32C
    ph_codec ph_uncompressedSize ph_kind].
  rewrite !length_app, Hl, Nat2Z.id. unfold PageHeaderSize.
  rewrite !(proj2 (Nat.leb_le _ _)) by lia. cbn [mbind res_bind].
  replace (slice (hb ++ comp ++ rest) 32 (32 + length comp)) with comp
    by (rewrite <- Hl; symmetry; apply slice_app_exact).
  rewrite Z.eqb_refl. cbn [mbind res_bind]. rewrite Hd. cbn [mbind res_bind].
  rewrite u32_small by (unfold fits; lia). by rewrite Z.eqb_refl.
Qed.

(** ** Error detection of the checksum *)

Definition crc_step (c : Z) : Z :=
  if Z.testbit c 0 then Z.lxor (Z.shiftr c 1) 0x82F63B78 else Z.shiftr c 1.

Lemma crc_step_top c : fits 32 c -> Z.testbit (crc_step c) 31 = Z.testbit c 0.
Proof.
  intros [H0 H1]. assert (E : Z.testbit (Z.shiftr c 1) 31 = false).
  { rewrite Z.shiftr_spec by lia. change (31 + 1) with 32.
    destruct (decide (c = 0)) as [-> |]; [apply Z.testbit_0_l |].
    apply Z.bits_above_log2; [done | apply Z.log2_lt_pow2; lia]. }
  unfold crc_step. destruct (Z.testbit c 0); [by rewrite Z.lxor_spec, E | exact E].
Qed.

Lemma crc_step_inj c c' : fits 32 c -> fits 32 c' -> crc_step c = crc_step c' -> c = c'.
Proof.
  intros Hc Hc' E. assert (Hb : Z.testbit c 0 = Z.testbit c' 0)
    by (by rewrite <- (crc_step_top c), <- (crc_step_top c'), E).
  assert (Hs : Z.shiftr c 1 = Z.shiftr c' 1).
  { unfold crc_step in E. rewrite Hb in E. destruct (Z.testbit c' 0); [|done].
    apply (f_equal (fun z => Z.lxor z 0x82F63B78)) in E.
    by rewrite !Z.lxor_assoc, Z.lxor_nilpotent, !Z.lxor_0_r in E. }
  rewrite !Z.shiftr_div_pow2 in Hs by lia. change (2 ^ 1) with 2 in Hs.
  rewrite !Z.bit0_odd in Hb. rewrite (Z.div_mod c 2), (Z.div_mod c' 2), Hs by lia.
  rewrite !Zmod_odd, Hb. done.
Qed.

Lemma crc_step_fits c : fits 32 c -> fits 32 (crc_step c).
Proof. intros H. exact (crc_bits_fits 1 c H). Qed.

Lemma crc_bits_inj n c c' : fits 32 c -> fits 32 c' -> crc_bits n c = crc_bits n c' -> c = c'.
Proof.
  revert c c'. induction n as [|n IH]; intros c c' Hc Hc' E; [done |].
  change (crc_bits n (crc_step c) = crc_bits n (crc_step c')) in E.
  apply crc_step_inj; [done | done |]. apply IH; auto using crc_step_fits.
Qed.

Lemma lxor_inj_l a b c : Z.lxor a c = Z.lxor b c -> a = b.
Proof.
  intros E. apply (f_equal (fun z => Z.lxor z c)) in E.
  by rewrite !Z.lxor_assoc, Z.lxor_nilpotent, !Z.lxor_0_r in E.
Qed.

Definition crc_fold (c : Z) (l : list Z) : Z :=
  foldl (fun c x => crc_bits 8 (Z.lxor c (u8 x))) c l.

Lemma crc_byte_fits c x : fits 32 c -> fits 32 (Z.lxor c (u8 x)).
Proof. intros H. apply lxor_fits; [lia | done |]. eapply fits_weaken; [|apply u8_fits]. lia. Qed.

Lemma crc_fold_inj l c c' :
  fits 32 c -> fits 32 c' -> crc_fold c l = crc_fold c' l -> c = c'.
Proof.
  revert c c'. induction l as [|x l IH]; intros c c' Hc Hc' E; [done |].
  apply IH in E; [| apply crc_bits_fits, crc_byte_fits; done ..].
  apply crc_bits_inj in E; [| apply crc_byte_fits; done ..]. by apply lxor_inj_l in E.
Qed.

Lemma crc_fold_fits l c : fits 32 c -> fits 32 (crc_fold c l).
Proof.
  revert c. induction l as [|x l IH]; intros c Hc; [done |].
  apply IH, crc_bits_fits, crc_byte_fits, Hc.
Qed.

Lemma crc32c_one_byte a x y b :
  u8 x <> u8 y -> crc32c (a ++ x :: b) <> crc32c (a ++ y :: b).
Proof.
  intros Hne E. unfold crc32c in E. apply lxor_inj_l in E. rewrite !foldl_app in E.
  cbn [foldl] in E. fold (crc_fold 0xFFFFFFFF a) in E.
  assert (Hf : fits 32 (crc_fold 0xFFFFFFFF a)) by (apply crc_fold_fits; by vm_compute).
  set (c := crc_fold 0xFFFFFFFF a) in *.
  apply (crc_fold_inj b) in E; [| apply crc_bits_fits, crc_byte_fits; done ..].
  apply crc_bits_inj in E; [| apply crc_byte_fits; done ..].
  rewrite !(Z.lxor_comm c) in E. by apply lxor_inj_l in E.
Qed.

(** Replacing the byte at [i] of a checksummed string changes the checksum. *)
Lemma crc32c_insert l i x y :
  l !! i = Some x -> u8 x <> u8 y -> crc32c (<[i := y]> l) <> crc32c l.
Proof.
  intros Hl Hne. rewrite <- (list_insert_id l i x Hl) at 2.
  rewrite !insert_take_drop by (by eapply lookup_lt_Some). by apply crc32c_one_byte.
Qed.

Lemma le_bytes_neq n v l :
  length l = n -> Forall byte_ok l -> l <> le_bytes n v -> le_val l <> v.
Proof. intros Hl Hb Hne E. apply Hne. subst. by rewrite le_bytes_val. Qed.

Lemma header_Encode_ok h : Forall byte_ok (header_Encode h).
Proof.
  unfold header_Encode, header_body. repeat apply Forall_app_2; try apply le_bytes_ok.
  by repeat constructor.
Qed.

Lemma byte_neq x y : byte_ok x -> byte_ok y -> x <> y -> u8 x <> u8 y.
Proof. unfold byte_ok. words. Qed.

Lemma Forall_insert_ok l i y : Forall byte_ok l -> byte_ok y -> Forall byte_ok (<[i := y]> l).
Proof. intros. by apply Forall_insert. Qed.

Lemma DecodeHeader_short b : (length b < HeaderSize)%nat -> DecodeHeader b = Err ErrShortFile.
Proof. intros H. unfold DecodeHeader, ensure. by rewrite (proj2 (Nat.leb_gt _ _)) by done. Qed.

Lemma DecodeHeader_bad_magic b :
  (HeaderSize <= length b)%nat -> slice b 0 4 <> Magic -> DecodeHeader b = Err ErrBadMagic.
Proof.
  intros Hl H. unfold DecodeHeader, ensure.
  rewrite (proj2 (Nat.leb_le _ _)) by done. by rewrite bool_decide_eq_false_2.
Qed.

Lemma DecodeHeader_bad_crc b :
  (HeaderSize <= length b)%nat -> slice b 0 4 = Magic ->
  le_at b 60 4 <> crc32c (slice b 0 60) -> DecodeHeader b = Err ErrChecksum.
Proof.
  intros Hl Hm H. unfold DecodeHeader, ensure.
  rewrite (proj2 (Nat.leb_le _ _)) by done. rewrite bool_decide_eq_true_2 by done.
  by rewrite (proj2 (Z.eqb_neq (le_at b 60 4) _)).
Qed.

(** The stored checksum bytes of a header. *)
Lemma header_crc_bytes h rest :
  slice (header_Encode h ++ rest) 60 64 = le_bytes 4 (crc32c (header_body h)).
Proof.
  unfold header_Encode. rewrite <- app_assoc. unfold slice.
  rewrite drop_app_exact by (by rewrite header_body_length).
  by rewrite take_app_exact by (by rewrite le_bytes_length).
Qed.

Lemma DecodeHeader_tampered h rest i x y :
  (i < HeaderSize)%nat -> header_Encode h !! i = Some x -> byte_ok y -> x <> y ->
  DecodeHeader (<[i := y]> (header_Encode h ++ rest))
  = Err (if decide (i < 4)%nat then ErrBadMagic else ErrChecksum).
Proof.
  intros Hi Hx Hy Hne. change HeaderSize with 64%nat in Hi.
  assert (Hx' : (header_Encode h ++ rest) !! i = Some x) by (by apply lookup_app_l_Some).
  assert (Hxo : byte_ok x) by (pose proof (header_Encode_ok h) as H; rewrite Forall_lookup in H; eauto).
  pose proof (header_magic h rest) as Hm. pose proof (header_covered h rest) as Hb.
  pose proof (header_crc_bytes h rest) as Hc.
  assert (Hl : (HeaderSize <= length (<[i := y]> (header_Encode h ++ rest)))%nat)
    by (rewrite length_insert, length_app, header_Encode_length; lia).
  generalize dependent (header_Encode h ++ rest). intros b Hx' Hm Hb Hc Hl.
  destruct (decide (i < 4)%nat).
  - apply DecodeHeader_bad_magic; [done |]. rewrite slice_insert_in by lia.
    rewrite <- Hm. eapply list_insert_neq; [|done]. apply slice_lookup; [done | lia].
  - apply DecodeHeader_bad_crc; [done | by rewrite slice_insert_out by lia |]. unfold le_at. change (60 + 4)%nat with 64%nat.
    destruct (decide (i < 60)%nat).
    + rewrite (slice_insert_out b 60), Hc, (slice_insert_in b 0), le_val_bytes_fits
        by (lia || apply crc32c_fits).
      rewrite <- Hb. apply not_eq_sym, crc32c_insert with x; [|by apply byte_neq].
      apply slice_lookup; [done | lia].
    + rewrite (slice_insert_out b 0), Hb, (slice_insert_in b 60), Hc by lia.
      apply (le_bytes_neq 4).
      * by rewrite length_insert, le_bytes_length.
      * apply Forall_insert_ok; [apply le_bytes_ok | done].
      * rewrite <- Hc. eapply list_insert_neq; [|done]. apply slice_lookup; [done | lia].
Qed.

Lemma readPage_bad_crc `{BlockCodec} b :
  (PageHeaderSize <= length b)%nat ->
  let e := (PageHeaderSize + Z.to_nat (le_at b 12 4))%nat in
  (e <= length b)%nat -> crc32c (slice b PageHeaderSize e) <> le_at b 28 4 ->
  readPage b = Err ErrChecksum.
Proof.
  intros Hl e He Hne. unfold readPage, ensure. cbn [ph_compressedSize ph_payloadCRC32C].
  rewrite !(proj2 (Nat.leb_le _ _)) by done. cbn [mbind res_bind].
  by rewrite (proj2 (Z.eqb_neq (crc32c (slice _ _ _)) _)).
Qed.

Lemma readPage_tampered `{BlockCodec} kind encoding codec numValues firstRow pageBase payload rest i x y :
  Z.of_nat (length (compress codec payload).2) < 2 ^ 32 ->
  let page := writePage kind encoding codec numValues firstRow pageBase payload in
  page !! i = Some x -> (PageHeaderSize <= i)%nat -> u8 x <> u8 y ->
  readPage (<[i := y]> page ++ rest) = Err ErrChecksum.
Proof.
  unfold writePage. destruct (compress codec payload) as [used comp]. cbn [fst snd].
  intros Hc Hx Hi Hne.
  set (hb := page_header_bytes _ _ _ _ _ _ _ _) in *.
  assert (Hl : length hb = PageHeaderSize) by apply page_header_length.
  rewrite insert_app_r_alt, Hl by lia. rewrite lookup_app_r, Hl in Hx by lia.
  pose proof (lookup_lt_Some _ _ _ Hx) as Hlt.
  assert (H12 : le_at (hb ++ <[(i - PageHeaderSize)%nat := y]> comp ++ rest) 12 4 = Z.of_nat (length comp)).
  { unfold hb, page_header_bytes. rewrite <- !app_assoc.
    assert (fits 32 (Z.of_nat (length comp))) by (unfold fits; lia). fields; done. }
  assert (H28 : le_at (hb ++ <[(i - PageHeaderSize)%nat := y]> comp ++ rest) 28 4 = crc32c comp).
  { unfold hb, page_header_bytes. rewrite <- !app_assoc. pose proof (crc32c_fits comp). fields; done. }
  rewrite <- app_assoc. apply readPage_bad_crc; rewrite ?H12, ?H28, ?Nat2Z.id.
  - rewrite length_app, Hl. lia.
  - rewrite !length_app, length_insert, Hl. lia.
  - rewrite <- Hl, <- (length_insert comp (i - length hb) y), slice_app_exact.
    eapply crc32c_insert; [|done]. by rewrite Hl.
Qed.

(** ** Properties *)

(** The file header round trips, and a header with any one byte altered is
    rejected: with ErrBadMagic in the magic, with ErrChecksum anywhere else. *)
Theorem header_roundtrip_and_detection (h : Header) (rest : list Z)
    (Hwf : header_wf h) (Hv : hd_VersionMajor h = VersionMajor) :
  DecodeHeader (header_Encode h ++ rest) = Ok h /\
  (forall i x y, (i < HeaderSize)%nat -> header_Encode h !! i = Some x -> byte_ok y -> x <> y ->
     DecodeHeader (<[i := y]> (header_Encode h ++ rest))
     = Err (if decide (i < 4)%nat then ErrBadMagic else ErrChecksum)).
Proof.
  split.
  - by apply DecodeHeader_Encode.
  - intros. by eapply DecodeHeader_tampered.
Qed.

Lemma header_roundtrip_and_detection_witness :
  DecodeHeader (header_Encode (mkHeader 1 0 7 3 1 2 0 (2 ^ 64 - 1) 5 1 900 480000) ++ [1; 2])
  = Ok (mkHeader 1 0 7 3 1 2 0 (2 ^ 64 - 1) 5 1 900 480000).
Proof.
  refine (proj1 (header_roundtrip_and_detection _ [1; 2] _ _)).
  - unfold header_wf, fits. simpl. lia.
  - reflexivity.
Defined.

(** A page reads back as written whatever bytes follow it, and a page with
    any one byte of its compressed payload altered is refused with ErrChecksum. *)
Theorem page_roundtrip_and_detection `{BlockCodecLaws}
    (kind encoding codec numValues firstRow pageBase : Z) (payload rest : list Z)
    (Hk : fits 8 kind) (He : fits 8 encoding) (Hn : fits 32 numValues) (Hf : fits 32 firstRow)
    (Hb : fits 64 pageBase) (Hp : Z.of_nat (length payload) < 2 ^ 32)
    (Hc : Z.of_nat (length (compress codec payload).2) < 2 ^ 32) :
  let page := writePage kind encoding codec numValues firstRow pageBase payload in
  (exists h, readPage (page ++ rest) = Ok (h, payload, length page) /\
     ph_kind h = kind /\ ph_encoding h = encoding /\ ph_numValues h = numValues /\
     ph_firstRowIndex h = firstRow /\ ph_pageBase h = pageBase) /\
  (forall i x y, page !! i = Some x -> (PageHeaderSize <= i)%nat -> u8 x <> u8 y ->
     readPage (<[i := y]> page ++ rest) = Err ErrChecksum).
Proof.
  split.
  - eexists. split; [by apply readPage_writePage | done].
  - intros i x y Hx Hi Hne. by eapply readPage_tampered.
Qed.

#[local] Instance stored_codec : BlockCodec := {| zstd_enc s := s; zstd_dec s _ := Ok s |}.
#[local] Instance stored_codec_laws : BlockCodecLaws.
Proof. constructor; [reflexivity | cbn; lia]. Qed.

Lemma page_roundtrip_and_detection_witness :
  readPage (<[33%nat := 9]> (writePage PageData 0 CodecZstd 3 0 0 [1; 2; 3]) ++ []) = Err ErrChecksum.
Proof.
  refine (proj2 (page_roundtrip_and_detection PageData 0 CodecZstd 3 0 0 [1; 2; 3] []
    _ _ _ _ _ _ _) 33%nat 2 9 _ _ _); try by vm_compute.
  unfold PageHeaderSize. lia.
Defined.
