(* ===== verification/Column.v ===== *)
(** * Column regions (format/column.go)

    A table region is the pages of its columns one after another, with a
    directory entry per column.  Proved here: the region decodes to the columns
    it was built from, the zone maps bound the values of their pages, splitting
    a column into pages loses no row, and no page is larger than the RAW page. *)

From S2P Require Import Prelude Words Rbuf Bitpack Encoding Page.
Open Scope Z_scope.

(** ** Data *)

Inductive colKind := kindUint | kindFloat | kindRaw.
#[export] Instance colKind_eq_dec : EqDecision colKind.
Proof. solve_decision. Defined.

Record column := mkColumn {
  c_id : Z; c_width : nat; c_kind : colKind; c_enc : Z; c_codec : Z; c_data : list Z
}.

Definition encodable (c : column) : bool :=
  if decide (c_kind c = kindRaw) then false else width_ok (c_width c).

Definition numValues (c : column) : nat :=
  if (c_width c =? 0)%nat then 0%nat else (length (c_data c) / c_width c)%nat.

Record pageEntry := mkPageEntry {
  pe_firstRow : Z; pe_numValues : Z; pe_byteLen : Z; pe_encoding : Z;
  pe_zoneMin : Z; pe_zoneMax : Z; pe_hasZone : bool
}.

Record columnDir := mkColumnDir {
  cd_columnID : Z; cd_firstPageOffset : Z; cd_totalCompressed : Z; cd_totalUncompressed : Z;
  cd_numValues : Z; cd_numPages : Z; cd_width : Z; cd_encoding : Z; cd_codec : Z;
  cd_columnCRC32C : Z; cd_zoneMin : Z; cd_zoneMax : Z; cd_hasZone : bool;
  cd_pages : list pageEntry
}.

(** ** Zone maps *)

Definition MaxUint64 : Z := 2 ^ 64 - 1.

Definition zoneMap (c : column) : Z * Z * bool :=
  if decide (c_kind c = kindUint) then
    let n := numValues c in
    if (n =? 0)%nat then (0, 0, false)
    else
      let vals := (fun i => readUintWidth (c_data c) i (c_width c)) <$> seq 0 n in
      (list_min MaxUint64 vals, list_max 0 vals, true)
  else (0, 0, false).

(** ** Building pages *)

(** The loop [for start := 0; start < n; start += maxRows]; [n] rounds suffice
    because [maxRows] is positive there. *)
Fixpoint split_loop (fuel : nat) (c : column) (n maxRows start : nat) : list column :=
  match fuel with
  | O => []
  | S fuel =>
      if (start <? n)%nat then
        let e := Nat.min (start + maxRows) n in
        mkColumn (c_id c) (c_width c) (c_kind c) (c_enc c) (c_codec c)
          (slice (c_data c) (start * c_width c) (e * c_width c))
        :: split_loop fuel c n maxRows (start + maxRows)
      else []
  end.

Definition splitColumn (c : column) (maxRows : Z) : list column :=
  let n := numValues c in
  if (maxRows <=? 0) || (Z.of_nat n <=? maxRows) then [c]
  else split_loop n c n (Z.to_nat maxRows) 0.

Section codec.
Context `{BlockCodec}.

(** The RAW candidate of a page. *)
Definition raw_page (c : column) (firstRow : Z) : list Z :=
  writePage PageData EncRaw (c_codec c) (u32 (Z.of_nat (numValues c))) firstRow 0 (c_data c).

Definition buildColumnPage (c : column) (firstRow : Z) : list Z * Z :=
  let n := u32 (Z.of_nat (numValues c)) in
  let raw := raw_page c firstRow in
  if (c_enc c =? EncRaw) || negb (encodable c) then (raw, EncRaw)
  else
    let vals := readValues (c_data c) (c_width c) in
    let '(payload, base) := encodeValues (c_enc c) vals (c_width c) in
    let enc := writePage PageData (c_enc c) (c_codec c) n firstRow base payload in
    if (length enc <? length raw)%nat then (enc, c_enc c) else (raw, EncRaw).

(** The inner loop of [encodeColumnRegion]: the pages of one column. *)
Fixpoint column_pages (subs : list column) (firstRow : nat) : list (list Z * pageEntry) :=
  match subs with
  | [] => []
  | sc :: subs =>
      let '(page, encUsed) := buildColumnPage sc (u32 (Z.of_nat firstRow)) in
      let '(zmin, zmax, hasZone) := zoneMap sc in
      (page, mkPageEntry (Z.of_nat firstRow) (Z.of_nat (numValues sc))
               (Z.of_nat (length page)) encUsed zmin zmax hasZone)
      :: column_pages subs (firstRow + numValues sc)
  end.

Definition encode_column (c : column) (firstPageOff : Z) (maxRows : Z) : list Z * columnDir :=
  let subs := splitColumn c maxRows in
  let pages := column_pages subs 0 in
  let span := mjoin (fst <$> pages) in
  let colComp := foldl (fun acc p => u64 (acc + Z.of_nat (length (p : list Z * pageEntry).1)
                                          - Z.of_nat PageHeaderSize)) 0 pages in
  let '(zmin, zmax, hasZone) := zoneMap c in
  (span,
   mkColumnDir (c_id c) firstPageOff colComp (Z.of_nat (length (c_data c)))
     (Z.of_nat (numValues c)) (Z.of_nat (length subs)) (u8 (Z.of_nat (c_width c)))
     (match pages with (_, pe) :: _ => pe_encoding pe | [] => 0 end)
     (c_codec c) (crc32c span) zmin zmax hasZone
     (if (1 <? length subs)%nat then snd <$> pages else [])).

(** The outer loop: [region] is what the earlier columns wrote. *)
Fixpoint encode_columns (cols : list column) (regionStart : Z) (maxRows : Z)
    (region : list Z) (dir : list columnDir) : list Z * list columnDir :=
  match cols with
  | [] => (region, dir)
  | c :: cols =>
      let '(span, d) := encode_column c (u64 (regionStart + Z.of_nat (length region))) maxRows in
      encode_columns cols regionStart maxRows (region ++ span) (dir ++ [d])
  end.

Definition encodeColumnRegion (cols : list column) (regionStart maxRows : Z)
    : list Z * list columnDir :=
  encode_columns cols regionStart maxRows [] [].

(** ** Reading *)

Definition decodePagePayload (h : pageHeader) (payload : list Z) (width : nat) : res (list Z) :=
  if ph_encoding h =? EncRaw then Ok payload
  else if negb (width_ok width) then Err ErrCorrupt
  else
    vals ← decodeValues (ph_encoding h) payload (Z.to_nat (ph_numValues h)) width (ph_pageBase h);
    mret (writeValues vals width).

Fixpoint sum_byteLen (l : list pageEntry) (off : Z) : Z :=
  match l with [] => off | p :: l => sum_byteLen l (i64 (off + i64 (pe_byteLen p))) end.

Definition decodeColumnPage (file : list Z) (d : columnDir) (pi : nat) : res (list Z) :=
  let off := sum_byteLen (take pi (cd_pages d)) (i64 (cd_firstPageOffset d)) in
  _ ← ensure (negb ((off <? 0) || (Z.of_nat (length file) <? off))) ErrCorrupt;
  '(h, payload, _) ← readPage (drop (Z.to_nat off) file);
  decodePagePayload h payload (Z.to_nat (cd_width d)).

(** The page loop of one column; [data] and [pageSpan] are the accumulators. *)
Fixpoint decode_pages (n : nat) (file : list Z) (cur width : nat) (data pageSpan : list Z)
    : res (list Z * list Z) :=
  match n with
  | O => Ok (data, pageSpan)
  | S n =>
      _ ← ensure (cur <=? length file)%nat ErrCorrupt;
      '(h, payload, consumed) ← readPage (drop cur file);
      raw ← decodePagePayload h payload width;
      decode_pages n file (cur + consumed) width (data ++ raw)
        (pageSpan ++ slice file cur (cur + consumed))
  end.

Definition decode_column (file : list Z) (d : columnDir) : res (list Z) :=
  let off := i64 (cd_firstPageOffset d) in
  _ ← ensure (negb ((off <? 0) || (Z.of_nat (length file) <? off))) ErrCorrupt;
  '(data, pageSpan) ← decode_pages (Z.to_nat (cd_numPages d)) file (Z.to_nat off)
                        (Z.to_nat (cd_width d)) [] [];
  _ ← ensure (crc32c pageSpan =? cd_columnCRC32C d) ErrChecksum;
  mret data.

Fixpoint decodeColumnRegion_go (file : list Z) (dir : list columnDir) (out : gmap Z (list Z))
    : res (gmap Z (list Z)) :=
  match dir with
  | [] => Ok out
  | d :: dir =>
      data ← decode_column file d;
      decodeColumnRegion_go file dir (<[cd_columnID d := data]> out)
  end.

Definition decodeColumnRegion (file : list Z) (dir : list columnDir)
    : res (gmap Z (list Z)) := decodeColumnRegion_go file dir ∅.
End codec.

(** ** Well-formed columns *)

Definition known_enc (e : Z) : bool :=
  bool_decide (e ∈ [EncRaw; EncDict; EncDelta; EncFOR; EncRLE; EncDeltaFOR]).

Lemma known_enc_fits e : known_enc e = true -> fits 8 e.
Proof.
  unfold known_enc. rewrite bool_decide_eq_true. intros Hk.
  repeat (apply elem_of_cons in Hk as [-> | Hk]; [by vm_compute |]). by apply elem_of_nil in Hk.
Qed.

Lemma PageData_fits : fits 8 PageData.
Proof. by vm_compute. Qed.

(** The row cap under which no 32-bit page field overflows. *)
Definition max_rows : nat := Nat.pow 2 26.

Record col_ok (c : column) : Prop := {
  ok_width : (0 < c_width c <= 16)%nat;
  ok_data : length (c_data c) = (numValues c * c_width c)%nat;
  ok_rows : (numValues c <= max_rows)%nat;
  ok_bytes : Forall byte_ok (c_data c);
  ok_enc : known_enc (c_enc c) = true
}.

Lemma max_rows_val : Z.of_nat max_rows = 2 ^ 26.
Proof. unfold max_rows. by rewrite Nat2Z.inj_pow. Qed.
#[global] Opaque max_rows.

Lemma numValues_div c : (0 < c_width c)%nat -> numValues c = (length (c_data c) / c_width c)%nat.
Proof. intros H. unfold numValues. by rewrite (proj2 (Nat.eqb_neq _ _)) by lia. Qed.

(** A column given by its rows. *)
Lemma col_ok_rows c n :
  (0 < c_width c <= 16)%nat -> length (c_data c) = (n * c_width c)%nat -> (n <= max_rows)%nat ->
  Forall byte_ok (c_data c) -> known_enc (c_enc c) = true -> col_ok c /\ numValues c = n.
Proof.
  intros Hw Hd Hn Hb He.
  assert (numValues c = n) as E by (rewrite numValues_div, Hd by lia; by apply Nat.div_mul; lia).
  split; [|done]. split; rewrite ?E; done.
Qed.

Section codec_laws.
Context `{BlockCodecLaws}.

Lemma raw_bounds c :
  col_ok c -> Z.of_nat (length (c_data c)) < 2 ^ 32 /\
  Z.of_nat (length (compress (c_codec c) (c_data c)).2) < 2 ^ 32.
Proof.
  intros Hc. pose proof (compress_length (c_codec c) (c_data c)) as Hl.
  pose proof (ok_data c Hc). pose proof (ok_width c Hc). pose proof (ok_rows c Hc).
  pose proof max_rows_val. assert (length (c_data c) <= 16 * max_rows)%nat by nia. lia.
Qed.

Lemma numValues_fits c : col_ok c -> fits 32 (Z.of_nat (numValues c)).
Proof. intros Hc. pose proof (ok_rows c Hc). pose proof max_rows_val. unfold fits. lia. Qed.

(** The page [buildColumnPage] picks decodes to the column's bytes and is no
    larger than the RAW page. *)
Definition page_good (c : column) (firstRow : Z) (page : list Z) (enc : Z) : Prop :=
  (length page <= length (raw_page c firstRow))%nat /\
  (1 <= length page)%nat /\
  forall rest, exists h payload,
    readPage (page ++ rest) = Ok (h, payload, length page) /\
    ph_encoding h = enc /\ ph_firstRowIndex h = firstRow /\
    ph_numValues h = Z.of_nat (numValues c) /\
    decodePagePayload h payload (c_width c) = Ok (c_data c).

Lemma writePage_length k e cc n f p payload :
  (32 <= length (writePage k e cc n f p payload))%nat.
Proof.
  unfold writePage. destruct (compress cc payload).
  rewrite length_app, page_header_length. unfold PageHeaderSize. lia.
Qed.

Lemma raw_page_good c firstRow :
  col_ok c -> fits 32 firstRow -> page_good c firstRow (raw_page c firstRow) EncRaw.
Proof.
  intros Hc Hf. destruct (raw_bounds c Hc) as [H1 H2]. pose proof (numValues_fits c Hc) as Hn.
  split; [done |]. split; [pose proof (writePage_length PageData EncRaw (c_codec c)
    (u32 (Z.of_nat (numValues c))) firstRow 0 (c_data c)); unfold raw_page; lia |].
  intros rest. unfold raw_page. rewrite u32_small by done.
  eexists _, _. split; [apply readPage_writePage |].
  - exact PageData_fits.
  - by apply known_enc_fits.
  - exact Hn.
  - exact Hf.
  - exact (conj (Z.le_refl 0) eq_refl).
  - exact H1.
  - exact H2.
  - split_and!; reflexivity.
Qed.

Lemma enc_page_good c firstRow :
  col_ok c -> fits 32 firstRow -> encodable c = true -> c_enc c <> EncRaw ->
  let '(payload, base) := encodeValues (c_enc c) (readValues (c_data c) (c_width c)) (c_width c) in
  let page := writePage PageData (c_enc c) (c_codec c) (u32 (Z.of_nat (numValues c)))
                firstRow base payload in
  (length page < length (raw_page c firstRow))%nat ->
  page_good c firstRow page (c_enc c).
Proof.
  intros Hc Hf He Hraw. pose proof (numValues_fits c Hc) as Hn.
  assert (Hw : width_ok (c_width c) = true)
    by (unfold encodable in He; destruct (decide _); done).
  assert (Hpos : (0 < c_width c)%nat) by (pose proof (ok_width c Hc); lia).
  set (vals := readValues (c_data c) (c_width c)).
  assert (Hvl : length vals = numValues c).
  { unfold vals. rewrite readValues_length, (proj2 (Nat.ltb_lt _ _)) by done.
    by rewrite numValues_div. }
  assert (Hv : Forall (fits (width_bits (c_width c))) vals) by (apply readValues_fits, Hc).
  pose proof (ok_enc c Hc) as Hk. apply bool_decide_eq_true in Hk.
  pose proof (ok_rows c Hc). pose proof max_rows_val.
  assert (Hs : page_small vals) by (unfold page_small; rewrite Hvl; lia).
  pose proof (encodeValues_length (c_enc c) vals (c_width c) Hw Hv Hs) as Hpl.
  assert (Hbase : fits 64 (encodeValues (c_enc c) vals (c_width c)).2).
  { apply encodeValues_base. eapply Forall_impl; [exact Hv |]. intros v. by apply width_bits_64. }
  assert (Hdec := decode_values_ok (c_enc c) vals (c_width c) Hw Hk Hv Hs).
  destruct (encodeValues (c_enc c) vals (c_width c)) as [payload base]. cbn [fst snd] in *.
  intros Hlt.
  pose proof (compress_length (c_codec c) payload) as Hcl.
  split; [lia |]. split.
  { pose proof (writePage_length PageData (c_enc c) (c_codec c)
      (u32 (Z.of_nat (numValues c))) firstRow base payload). lia. }
  intros rest. rewrite u32_small by done. eexists _, _.
  assert (Hk8 : fits 8 (c_enc c)) by (apply known_enc_fits, Hc).
  split.
  { eapply readPage_writePage.
    + exact PageData_fits.
    + exact Hk8.
    + exact Hn.
    + exact Hf.
    + exact Hbase.
    + lia.
    + lia. }
  cbn [ph_encoding ph_firstRowIndex ph_numValues].
  do 3 (split; [reflexivity |]). unfold decodePagePayload. cbn [ph_encoding ph_numValues ph_pageBase].
  rewrite (proj2 (Z.eqb_neq _ _)), Hw by done. cbn [negb].
  rewrite Nat2Z.id, <- Hvl, Hdec by (unfold page_small; lia). cbn [mbind res_bind]. unfold mret, res_ret.
  f_equal. apply writeValues_readValues; [done | apply Hc |].
  rewrite (ok_data c Hc). apply Nat.Div0.mod_mul.
Qed.

Lemma buildColumnPage_good c firstRow :
  col_ok c -> fits 32 firstRow ->
  page_good c firstRow (buildColumnPage c firstRow).1 (buildColumnPage c firstRow).2.
Proof.
  intros Hc Hf. unfold buildColumnPage.
  destruct ((c_enc c =? EncRaw) || negb (encodable c)) eqn:E; [by apply raw_page_good |].
  bool_prop. pose proof (enc_page_good c firstRow Hc Hf) as Hp.
  destruct (encodeValues _ _ _) as [payload base].
  destruct (Nat.ltb_spec (length (writePage PageData (c_enc c) (c_codec c)
      (u32 (Z.of_nat (numValues c))) firstRow base payload)) (length (raw_page c firstRow)));
    [by apply Hp | by apply raw_page_good].
Qed.

(** Splitting: the parts are well-formed, in order, and lose no byte. *)
Lemma split_loop_good fuel c n maxRows start :
  col_ok c -> numValues c = n -> (0 < maxRows)%nat -> (n <= start + fuel * maxRows)%nat ->
  (start <= n)%nat ->
  let subs := split_loop fuel c n maxRows start in
  mjoin (c_data <$> subs) = drop (start * c_width c) (c_data c) /\
  foldr (fun sc a => numValues sc + a)%nat 0%nat subs = (n - start)%nat /\
  Forall (fun sc => col_ok sc /\ c_id sc = c_id c /\ c_width sc = c_width c /\
            c_kind sc = c_kind c /\ c_codec sc = c_codec c) subs.
Proof.
  intros Hc Hn Hm. pose proof (ok_width c Hc) as Hw. pose proof (ok_data c Hc) as Hd.
  rewrite Hn in Hd. revert start. induction fuel as [|fuel IH]; intros start Hf Hs; cbn [split_loop].
  - assert (start = n) by lia. subst start. cbn.
    split_and!; [|lia | constructor]. symmetry. apply drop_ge. nia.
  - destruct (Nat.ltb_spec start n); [|cbn; split_and!; [symmetry; apply drop_ge; nia | lia | constructor]].
    set (e := Nat.min (start + maxRows) n).
    set (sub := mkColumn _ _ _ _ _ _).
    assert (Hsl : length (c_data sub) = ((e - start) * c_width c)%nat)
      by (cbn; rewrite slice_length; nia).
    destruct (col_ok_rows sub (e - start)) as [Hok Hnv]; try done.
    { pose proof (ok_rows c Hc). unfold e. lia. }
    { apply Forall_take, Forall_drop, Hc. }
    { apply Hc. }
    destruct (decide (start + maxRows <= n)%nat) as [Hle | Hgt].
    + destruct (IH (start + maxRows)%nat) as (E1 & E2 & E3); [lia | lia |].
      change (c_data sub ++ mjoin (c_data <$> split_loop fuel c n maxRows (start + maxRows))
              = drop (start * c_width c) (c_data c) /\
              (numValues sub + foldr (fun sc a => numValues sc + a)%nat 0%nat
                 (split_loop fuel c n maxRows (start + maxRows)))%nat = (n - start)%nat /\
              Forall (fun sc => col_ok sc /\ c_id sc = c_id c /\ c_width sc = c_width c /\
                 c_kind sc = c_kind c /\ c_codec sc = c_codec c)
                (sub :: split_loop fuel c n maxRows (start + maxRows))).
      rewrite E1, E2, Hnv. split_and!; [| unfold e; lia | by constructor].
      replace e with (start + maxRows)%nat in * by (unfold e; lia). cbn. unfold slice.
      set (k := ((start + maxRows) * c_width c - start * c_width c)%nat).
      trans (take k (drop (start * c_width c) (c_data c)) ++ drop k (drop (start * c_width c) (c_data c)));
        [|apply take_drop].
      rewrite drop_drop.
      replace (start * c_width c + k)%nat with ((start + maxRows) * c_width c)%nat by (unfold k; nia).
      unfold k. by replace e with (start + maxRows)%nat by (unfold e; lia).
    + assert (Hnil : split_loop fuel c n maxRows (start + maxRows) = []).
      { destruct fuel; [done |]. cbn [split_loop]. by rewrite (proj2 (Nat.ltb_ge _ _)) by lia. }
      assert (Hen : e = n) by (unfold e; lia).
      rewrite Hnil. cbn. rewrite app_nil_r, Hen. rewrite Hen in Hnv.
      split_and!; [| rewrite Hnv; lia | by apply Forall_singleton].
      unfold slice. rewrite take_ge; [done |]. rewrite length_drop. nia.
Qed.

Lemma splitColumn_good c maxRows :
  col_ok c ->
  mjoin (c_data <$> splitColumn c maxRows) = c_data c /\
  foldr (fun sc a => numValues sc + a)%nat 0%nat (splitColumn c maxRows) = numValues c /\
  Forall (fun sc => col_ok sc /\ c_id sc = c_id c /\ c_width sc = c_width c /\
            c_kind sc = c_kind c /\ c_codec sc = c_codec c) (splitColumn c maxRows).
Proof.
  intros Hc. unfold splitColumn.
  destruct ((maxRows <=? 0) || (Z.of_nat (numValues c) <=? maxRows)) eqn:E.
  - cbn. rewrite app_nil_r. split_and!; [done | lia | by apply Forall_singleton].
  - bool_prop. destruct (split_loop_good (numValues c) c (numValues c) (Z.to_nat maxRows) 0)
      as (E1 & E2 & E3); try done; try nia.
    cbn in E1. rewrite drop_0 in E1. rewrite Nat.sub_0_r in E2. done.
Qed.

(** The page loop reads back a run of pages laid end to end. *)
Lemma decode_pages_good subs width firstRow file pre rest data span :
  Forall (fun sc => col_ok sc /\ c_width sc = width) subs ->
  Z.of_nat firstRow + Z.of_nat (foldr (fun sc a => numValues sc + a)%nat 0%nat subs) < 2 ^ 32 ->
  file = pre ++ mjoin (fst <$> column_pages subs firstRow) ++ rest ->
  decode_pages (length subs) file (length pre) width data span
  = Ok (data ++ mjoin (c_data <$> subs), span ++ mjoin (fst <$> column_pages subs firstRow)).
Proof.
  intros Hsubs. revert firstRow pre data span.
  induction Hsubs as [|sc subs [Hok Hw] _ IH]; intros firstRow pre data span Hlt Hfile.
  - cbn. by rewrite !app_nil_r.
  - cbn [foldr] in Hlt. cbn [column_pages] in Hfile |- *.
    assert (Hfr : fits 32 (Z.of_nat firstRow)) by (unfold fits; lia).
    rewrite (u32_small (Z.of_nat firstRow)) in Hfile |- * by done.
    destruct (buildColumnPage_good sc (Z.of_nat firstRow) Hok Hfr) as (_ & _ & Hread).
    destruct (buildColumnPage sc (Z.of_nat firstRow)) as [page enc]. cbn [fst snd] in Hread.
    destruct (zoneMap sc) as [[zmin zmax] hz].
    set (pages := column_pages subs (firstRow + numValues sc)) in *.
    change (mjoin (fst <$> (page, mkPageEntry (Z.of_nat firstRow) (Z.of_nat (numValues sc))
               (Z.of_nat (length page)) enc zmin zmax hz) :: pages))
      with (page ++ mjoin (fst <$> pages)) in *.
    rewrite <- (app_assoc page) in Hfile. cbn [length decode_pages].
    assert (Hl : (length pre <= length file)%nat) by (rewrite Hfile, length_app; lia).
    assert (Hdr : drop (length pre) file = page ++ mjoin (fst <$> pages) ++ rest)
      by (rewrite Hfile; apply drop_app_length).
    assert (Hsl : slice file (length pre) (length pre + length page) = page)
      by (rewrite Hfile; apply slice_app_exact).
    rewrite (proj2 (Nat.leb_le _ _)), Hdr by done. cbn [ensure mbind res_bind].
    destruct (Hread (mjoin (fst <$> pages) ++ rest)) as (h & payload & -> & _ & _ & _ & Hdec).
    cbn [mbind res_bind]. rewrite <- Hw, Hdec. cbn [mbind res_bind].
    rewrite Hsl, Hw, <- length_app.
    rewrite (IH (firstRow + numValues sc)%nat (pre ++ page)); [| lia | by rewrite <- app_assoc].
    change (mjoin (c_data <$> sc :: subs)) with (c_data sc ++ mjoin (c_data <$> subs)).
    by rewrite !app_assoc.
Qed.

Lemma decode_column_good c start maxRows pre rest :
  col_ok c -> start = Z.of_nat (length pre) -> start < 2 ^ 62 ->
  decode_column (pre ++ (encode_column c start maxRows).1 ++ rest) (encode_column c start maxRows).2
  = Ok (c_data c).
Proof.
  intros Hc Hs Hlt. unfold encode_column.
  destruct (splitColumn_good c maxRows Hc) as (Hd & Hn & Hsubs).
  destruct (zoneMap c) as [[zmin zmax] hz]. cbn [fst snd]. unfold decode_column.
  cbn [cd_firstPageOffset cd_numPages cd_width cd_columnCRC32C].
  rewrite i64_small by lia. rewrite Hs, !length_app. bool_lia. cbn [orb negb ensure mbind res_bind].
  rewrite !Nat2Z.id. assert (Hw : u8 (Z.of_nat (c_width c)) = Z.of_nat (c_width c)).
  { pose proof (ok_width c Hc). unfold u8. apply Z.mod_small. lia. }
  rewrite Hw, Nat2Z.id.
  rewrite (decode_pages_good (splitColumn c maxRows) (c_width c) 0 _ pre rest).
  - cbn [app mbind res_bind]. rewrite Z.eqb_refl. cbn [mbind res_bind]. by rewrite Hd.
  - eapply Forall_impl; [exact Hsubs |]. by intros sc (E1 & E2 & E3 & _).
  - rewrite Hn. pose proof (numValues_fits c Hc). unfold fits in *. lia.
  - done.
Qed.

(** The directory and spans of a region, one column at a time. *)
Fixpoint region_of (cols : list column) (start : Z) (maxRows : Z) : list (list Z * columnDir) :=
  match cols with
  | [] => []
  | c :: cols =>
      let e := encode_column c start maxRows in
      e :: region_of cols (start + Z.of_nat (length e.1)) maxRows
  end.

Lemma encode_columns_region cols regionStart maxRows region dir :
  0 <= regionStart ->
  regionStart + Z.of_nat (length region) +
    Z.of_nat (length (mjoin (fst <$> region_of cols (regionStart + Z.of_nat (length region)) maxRows)))
    < 2 ^ 62 ->
  let r := region_of cols (regionStart + Z.of_nat (length region)) maxRows in
  encode_columns cols regionStart maxRows region dir
  = (region ++ mjoin (fst <$> r), dir ++ (snd <$> r)).
Proof.
  intros Hpos. revert region dir. induction cols as [|c cols IH]; intros region dir Hlt.
  - cbn. by rewrite !app_nil_r.
  - cbn [encode_columns region_of]. cbn [region_of] in Hlt.
    set (start := regionStart + Z.of_nat (length region)) in *.
    set (e := encode_column c start maxRows) in *.
    set (r := region_of cols (start + Z.of_nat (length e.1)) maxRows) in *.
    change (mjoin (fst <$> e :: r)) with (e.1 ++ mjoin (fst <$> r)) in *.
    rewrite length_app in Hlt.
    rewrite u64_small by (unfold fits; lia). fold e. destruct e as [span d] eqn:E. cbn [fst snd] in *.
    assert (Hst : regionStart + Z.of_nat (length (region ++ span)) = start + Z.of_nat (length span))
      by (rewrite length_app; lia).
    rewrite IH; rewrite Hst; fold r; [|lia].
    cbv zeta. rewrite <- !app_assoc. done.
Qed.

(** The bytes do not depend on where the region starts. *)
Lemma encode_columns_bytes cols regionStart maxRows region dir start :
  (encode_columns cols regionStart maxRows region dir).1
  = region ++ mjoin (fst <$> region_of cols start maxRows).
Proof.
  revert region dir start. induction cols as [|c cols IH]; intros region dir start.
  - cbn. by rewrite app_nil_r.
  - cbn [encode_columns region_of].
    assert (Hind : forall a b, (encode_column c a maxRows).1 = (encode_column c b maxRows).1)
      by (intros; unfold encode_column; by destruct (zoneMap c) as [[??]?]).
    pose proof (Hind (u64 (regionStart + Z.of_nat (length region))) start) as E.
    destruct (encode_column c (u64 _) maxRows) as [span d]. cbn [fst] in E. subst span.
    rewrite (IH _ _ (start + Z.of_nat (length (encode_column c start maxRows).1))).
    by rewrite <- app_assoc.
Qed.

Lemma encodeColumnRegion_bytes cols start maxRows :
  (encodeColumnRegion cols start maxRows).1 = mjoin (fst <$> region_of cols start maxRows).
Proof. unfold encodeColumnRegion. by rewrite (encode_columns_bytes _ _ _ _ _ start). Qed.

Lemma encodeColumnRegion_eq cols start maxRows :
  0 <= start -> start + Z.of_nat (length (encodeColumnRegion cols start maxRows).1) < 2 ^ 62 ->
  encodeColumnRegion cols start maxRows
  = (mjoin (fst <$> region_of cols start maxRows), snd <$> region_of cols start maxRows).
Proof.
  intros Hs Hlt. rewrite encodeColumnRegion_bytes in Hlt. unfold encodeColumnRegion.
  rewrite encode_columns_region; cbn [length Z.of_nat]; rewrite ?Z.add_0_r; done.
Qed.

Lemma decodeColumnRegion_good cols start maxRows pre rest out :
  Forall col_ok cols -> start = Z.of_nat (length pre) ->
  start + Z.of_nat (length (mjoin (fst <$> region_of cols start maxRows))) < 2 ^ 62 ->
  decodeColumnRegion_go (pre ++ mjoin (fst <$> region_of cols start maxRows) ++ rest)
    (snd <$> region_of cols start maxRows) out
  = Ok (foldl (fun m c => <[c_id c := c_data c]> m) out cols).
Proof.
  intros Hok. revert start pre out. induction Hok as [|c cols Hc _ IH]; intros start pre out Hs Hlt;
    [done |].
  cbn [region_of]. cbn [region_of] in Hlt. set (e := encode_column c start maxRows) in *.
  set (r := region_of cols (start + Z.of_nat (length e.1)) maxRows) in *.
  change (mjoin (fst <$> e :: r)) with (e.1 ++ mjoin (fst <$> r)) in *.
  rewrite length_app in Hlt. rewrite <- (app_assoc e.1).
  change (snd <$> e :: r) with (e.2 :: (snd <$> r)). cbn [decodeColumnRegion_go].
  pose proof (decode_column_good c start maxRows pre (mjoin (fst <$> r) ++ rest) Hc Hs ltac:(lia))
    as Hdec. fold e in Hdec. rewrite Hdec. cbn [mbind res_bind].
  assert (Hid : cd_columnID e.2 = c_id c)
    by (unfold e, encode_column; by destruct (zoneMap c) as [[??]?]).
  rewrite Hid, (app_assoc pre). unfold r.
  rewrite (IH (start + Z.of_nat (length e.1)) (pre ++ e.1)); [done | |].
  - rewrite length_app. lia.
  - unfold r in Hlt. lia.
Qed.

(** The skip list of a split column describes its pages. *)
Lemma column_pages_length subs firstRow : length (column_pages subs firstRow) = length subs.
Proof.
  revert firstRow. induction subs as [|sc subs IH]; intros firstRow; [done |].
  cbn [column_pages]. destruct (buildColumnPage _ _) as [page enc].
  destruct (zoneMap sc) as [[??]?]. cbn [length]. by rewrite IH.
Qed.

Lemma column_pages_entries subs firstRow pi sc :
  subs !! pi = Some sc -> exists page pe,
  column_pages subs firstRow !! pi = Some (page, pe) /\
  pe_firstRow pe = Z.of_nat (firstRow + foldr (fun sc a => numValues sc + a)%nat 0%nat (take pi subs)) /\
  pe_numValues pe = Z.of_nat (numValues sc) /\ pe_byteLen pe = Z.of_nat (length page) /\
  (pe_zoneMin pe, pe_zoneMax pe, pe_hasZone pe) = zoneMap sc.
Proof.
  revert firstRow pi. induction subs as [|c subs IH]; intros firstRow [|pi] Hpi; try done.
  - injection Hpi as ->. cbn [column_pages]. destruct (buildColumnPage _ _) as [page enc].
    destruct (zoneMap sc) as [[zmin zmax] hz] eqn:Ez. eexists _, _. split; [reflexivity |].
    cbn [take foldr pe_firstRow pe_numValues pe_byteLen pe_zoneMin pe_zoneMax pe_hasZone].
    by rewrite Nat.add_0_r.
  - cbn [column_pages]. destruct (buildColumnPage _ _) as [page enc].
    destruct (zoneMap c) as [[zmin zmax] hz].
    destruct (IH (firstRow + numValues c)%nat pi Hpi) as (pg & pe & E & Hf & Hr).
    exists pg, pe. split; [done |]. split; [|done].
    rewrite Hf. cbn [take foldr]. by rewrite Nat.add_assoc.
Qed.

Lemma sum_byteLen_spec (l : list (list Z * pageEntry)) off :
  Forall (fun p => pe_byteLen p.2 = Z.of_nat (length p.1)) l ->
  0 <= off -> off + Z.of_nat (length (mjoin (fst <$> l))) < 2 ^ 62 ->
  sum_byteLen (snd <$> l) off = off + Z.of_nat (length (mjoin (fst <$> l))).
Proof.
  intros Hl. revert off. induction Hl as [|[page pe] l Hp _ IH]; intros off Hpos Hlt.
  - cbn. lia.
  - change (mjoin (fst <$> (page, pe) :: l)) with (page ++ mjoin (fst <$> l)) in *.
    change (snd <$> (page, pe) :: l) with (pe :: (snd <$> l)). cbn [sum_byteLen fst snd] in *.
    rewrite length_app in *. rewrite Hp, (i64_small (Z.of_nat (length page))), i64_small by lia.
    rewrite IH; lia.
Qed.

Lemma mjoin_lookup_split {A} (l : list (list A)) i x :
  l !! i = Some x -> mjoin l = mjoin (take i l) ++ x ++ mjoin (drop (S i) l).
Proof.
  revert i. induction l as [|y l IH]; intros [|i] Hi; try done.
  - by injection Hi as ->.
  - change (y ++ mjoin l = (y ++ mjoin (take i l)) ++ x ++ mjoin (drop (S i) l)).
    rewrite (IH i Hi). by rewrite <- app_assoc.
Qed.

Lemma column_pages_page_good subs pi fr sc page pe :
  (fr + foldr (fun sc a => numValues sc + a) 0 subs <= max_rows)%nat ->
  subs !! pi = Some sc -> col_ok sc -> column_pages subs fr !! pi = Some (page, pe) ->
  exists fr enc, page_good sc fr page enc.
Proof.
  intros Hb Hpi Hok. revert pi fr Hb Hpi.
  induction subs as [|c subs IH]; intros pi fr Hb Hk Hp; [done |].
  cbn [foldr] in Hb. cbn [column_pages] in Hp.
  assert (Hfr : fits 32 (Z.of_nat fr)) by (pose proof max_rows_val; unfold fits; lia).
  destruct pi as [|pi].
  - injection Hk as ->. rewrite u32_small in Hp by done.
    pose proof (buildColumnPage_good sc (Z.of_nat fr) Hok Hfr) as Hg.
    destruct (buildColumnPage sc (Z.of_nat fr)) as [pg enc].
    destruct (zoneMap sc) as [[??]?]. injection Hp as -> _. eauto.
  - destruct (buildColumnPage c _) as [pg enc]. destruct (zoneMap c) as [[??]?].
    apply (IH pi (fr + numValues c)%nat); [lia | done | exact Hp].
Qed.

Lemma decodeColumnPage_good c start maxRows pre rest pi sc :
  col_ok c -> start = Z.of_nat (length pre) ->
  start + Z.of_nat (length (encode_column c start maxRows).1) < 2 ^ 62 ->
  splitColumn c maxRows !! pi = Some sc -> (1 < length (splitColumn c maxRows))%nat ->
  decodeColumnPage (pre ++ (encode_column c start maxRows).1 ++ rest)
    (encode_column c start maxRows).2 pi = Ok (c_data sc).
Proof.
  intros Hc Hs Hlt Hpi Hmany. unfold encode_column in *.
  destruct (splitColumn_good c maxRows Hc) as (Hd & Hn & Hsubs).
  destruct (zoneMap c) as [[zmin zmax] hz]. cbn [fst snd] in *.
  set (subs := splitColumn c maxRows) in *. rewrite (proj2 (Nat.ltb_lt _ _)) by done.
  unfold decodeColumnPage. cbn [cd_firstPageOffset cd_pages cd_width].
  destruct (column_pages_entries subs 0 pi sc Hpi) as (page & pe & Hpe & Hfirst & _ & Hlen & _).
  set (pages := column_pages subs 0) in *. rewrite <- fmap_take.
  assert (Hpage : (fst <$> pages) !! pi = Some page) by (by rewrite list_lookup_fmap, Hpe).
  pose proof (mjoin_lookup_split _ _ _ Hpage) as Hsplit. rewrite <- fmap_take in Hsplit.
  rewrite Hsplit, !length_app in Hlt. rewrite (i64_small start) by lia.
  rewrite sum_byteLen_spec; [| | lia | lia].
  2: { apply Forall_take, Forall_lookup. intros k [pg pe'] Hk.
       destruct (lookup_lt_is_Some_2 subs k) as [sck Hsck].
       { apply lookup_lt_Some in Hk. unfold pages in Hk. by rewrite column_pages_length in Hk. }
       destruct (column_pages_entries subs 0 k sck Hsck) as (? & ? & E & _ & _ & El & _).
       fold pages in E. rewrite Hk in E. by injection E as <- <-. }
  rewrite Hsplit.
  set (before := mjoin (fst <$> take pi pages)) in *.
  set (after := mjoin (drop (S pi) (fst <$> pages))) in *.
  assert (Hoff : start + Z.of_nat (length before) = Z.of_nat (length (pre ++ before)))
    by (rewrite length_app; lia).
  rewrite Hoff, Nat2Z.id.
  replace (pre ++ (before ++ page ++ after) ++ rest) with ((pre ++ before) ++ page ++ after ++ rest)
    by (by rewrite <- !app_assoc).
  rewrite drop_app_length.
  rewrite (proj2 (Z.ltb_ge _ 0)), (proj2 (Z.ltb_ge _ (Z.of_nat (length (pre ++ before)))))
    by (rewrite ?length_app; lia).
  cbn [orb negb ensure mbind res_bind].
  rewrite Forall_lookup in Hsubs. destruct (Hsubs pi sc Hpi) as (Hok & _ & Hw & _).
  assert (Hgood : exists fr enc, page_good sc fr page enc).
  { eapply (column_pages_page_good subs pi 0); try done. rewrite Hn. apply Hc. }
  destruct Hgood as (fr & enc & _ & _ & Hread).
  destruct (Hread (after ++ rest)) as (h & payload & -> & _ & _ & _ & Hdec).
  cbn [mbind res_bind].
  assert (Hw8 : u8 (Z.of_nat (c_width c)) = Z.of_nat (c_width c)).
  { pose proof (ok_width c Hc). unfold u8. apply Z.mod_small. lia. }
  by rewrite Hw8, Nat2Z.id, <- Hw.
Qed.
End codec_laws.

(** ** Zone maps *)

Definition column_values (c : column) : list Z :=
  (fun i => readUintWidth (c_data c) i (c_width c)) <$> seq 0 (numValues c).

Lemma zoneMap_spec c mn mx :
  zoneMap c = (mn, mx, true) ->
  c_kind c = kindUint /\ Forall (fun v => mn <= v <= mx) (column_values c).
Proof.
  unfold zoneMap. fold (column_values c).
  destruct (decide (c_kind c = kindUint)); [|done]. destruct (numValues c =? 0)%nat; [done |].
  intros [= <- <-]. split; [done |].
  destruct (list_min_spec MaxUint64 (column_values c)) as (_ & Hmin & _).
  destruct (list_max_spec 0 (column_values c)) as (_ & Hmax & _).
  rewrite Forall_forall in Hmin, Hmax. apply Forall_forall. intros v Hv.
  specialize (Hmin v Hv). specialize (Hmax v Hv). cbn in *. lia.
Qed.

Lemma foldl_insert_lookup (cols : list column) (m : gmap Z (list Z)) c :
  NoDup (c_id <$> cols) -> c ∈ cols ->
  foldl (fun m c => <[c_id c := c_data c]> m) m cols !! c_id c = Some (c_data c).
Proof.
  assert (Hout : forall cols (m : gmap Z (list Z)) i, i ∉ c_id <$> cols ->
    foldl (fun m c => <[c_id c := c_data c]> m) m cols !! i = m !! i).
  { clear. induction cols as [|d cols IH]; intros m i Hi; [done |]. cbn in *.
    apply not_elem_of_cons in Hi as [Hne Hi]. rewrite IH by done. by apply lookup_insert_ne. }
  revert m. induction cols as [|d cols IH]; intros m Hnd Hc; [by apply elem_of_nil in Hc |].
  cbn in *. apply NoDup_cons in Hnd as [Hd Hnd]. apply elem_of_cons in Hc as [-> | Hc].
  - rewrite Hout by done. apply lookup_insert_eq.
  - by apply IH.
Qed.

(** ** Properties *)

(** A table region of any columns, split into pages or not, decodes to
    exactly the columns' bytes wherever it sits in the file. *)
Theorem column_region_roundtrip `{BlockCodecLaws} (cols : list column) (regionStart maxRows : Z)
    (pre rest : list Z) (Hok : Forall col_ok cols) (Hids : NoDup (c_id <$> cols))
    (Hstart : regionStart = Z.of_nat (length pre))
    (Hsize : regionStart + Z.of_nat (length (encodeColumnRegion cols regionStart maxRows).1) < 2 ^ 62) :
  let '(region, dir) := encodeColumnRegion cols regionStart maxRows in
  exists m, decodeColumnRegion (pre ++ region ++ rest) dir = Ok m /\
    forall c, c ∈ cols -> m !! c_id c = Some (c_data c).
Proof.
  pose proof (encodeColumnRegion_eq cols regionStart maxRows ltac:(lia) Hsize) as E.
  rewrite encodeColumnRegion_bytes in Hsize. rewrite E. eexists. split.
  - unfold decodeColumnRegion. by apply decodeColumnRegion_good.
  - intros c Hc. by apply foldl_insert_lookup.
Qed.

#[local] Instance stored_codec : BlockCodec := {| zstd_enc s := s; zstd_dec s _ := Ok s |}.
#[local] Instance stored_codec_laws : BlockCodecLaws.
Proof. constructor; [reflexivity | cbn; lia]. Qed.

Definition example_columns : list column :=
  [mkColumn 0 2 kindUint EncFOR CodecZstd [1; 0; 2; 0; 9; 0];
   mkColumn 1 1 kindUint EncDict CodecZstd [4; 4; 5];
   mkColumn 2 16 kindRaw EncRaw CodecZstd (replicate 48 7)].

Lemma example_columns_ok : Forall col_ok example_columns.
Proof.
  repeat (apply Forall_cons; split); [.. | apply Forall_nil; done].
  - apply (col_ok_rows _ 3); [cbn; lia | done | | | done].
    + pose proof max_rows_val. lia.
    + apply (bool_decide_unpack _). by vm_compute.
  - apply (col_ok_rows _ 3); [cbn; lia | done | | | done].
    + pose proof max_rows_val. lia.
    + apply (bool_decide_unpack _). by vm_compute.
  - apply (col_ok_rows _ 3); [cbn; lia | done | | | done].
    + pose proof max_rows_val. lia.
    + apply (bool_decide_unpack _). by vm_compute.
Qed.

Lemma column_region_roundtrip_witness :
  exists m, decodeColumnRegion ([0; 0; 0] ++ (encodeColumnRegion example_columns 3 2).1 ++ [])
              (encodeColumnRegion example_columns 3 2).2 = Ok m /\
    forall c, c ∈ example_columns -> m !! c_id c = Some (c_data c).
Proof.
  pose proof (column_region_roundtrip example_columns 3 2 [0; 0; 0] [] example_columns_ok) as T.
  destruct (encodeColumnRegion example_columns 3 2) as [region dir] eqn:E. cbn [fst snd].
  apply T.
  - apply (bool_decide_unpack _). by vm_compute.
  - reflexivity.
  - apply (f_equal (fun p => length p.1)) in E. cbn [fst] in *. rewrite <- E. by vm_compute.
Defined.

(** The page the builder keeps for a column is never larger than the RAW
    page and decodes on its own to the column's bytes; page [pi] of a split
    column is read by striding over the skip list to exactly its rows; and a
    zone map bounds every value of the column. *)
Theorem column_pages_and_zones `{BlockCodecLaws} (c : column) (start maxRows : Z)
    (pre rest : list Z) (Hok : col_ok c) (Hstart : start = Z.of_nat (length pre))
    (Hsize : start + Z.of_nat (length (encode_column c start maxRows).1) < 2 ^ 62) :
  (length (buildColumnPage c 0).1 <= length (raw_page c 0))%nat /\
  mjoin (c_data <$> splitColumn c maxRows) = c_data c /\
  (forall pi sc, splitColumn c maxRows !! pi = Some sc -> (1 < length (splitColumn c maxRows))%nat ->
     decodeColumnPage (pre ++ (encode_column c start maxRows).1 ++ rest)
       (encode_column c start maxRows).2 pi = Ok (c_data sc)) /\
  (forall mn mx, zoneMap c = (mn, mx, true) ->
     Forall (fun v => mn <= v <= mx) (column_values c)).
Proof.
  split_and!.
  - apply buildColumnPage_good; [done |]. split; [done | reflexivity].
  - by apply splitColumn_good.
  - intros pi sc Hpi Hmany. by apply decodeColumnPage_good.
  - intros mn mx Hz. by apply zoneMap_spec in Hz as [_ ?].
Qed.

Lemma column_pages_and_zones_witness :
  Forall (fun v => 1 <= v <= 9) (column_values (mkColumn 0 2 kindUint EncFOR CodecZstd [1; 0; 2; 0; 9; 0])).
Proof.
  refine (proj2 (proj2 (proj2 (column_pages_and_zones
    (mkColumn 0 2 kindUint EncFOR CodecZstd [1; 0; 2; 0; 9; 0]) 0 2 [] [] _ _ _))) 1 9 _).
  - exact (Forall_inv example_columns_ok).
  - reflexivity.
  - by vm_compute.
  - reflexivity.
Defined.
