(* ===== verification/Table.v ===== *)
(** * The URL and host tables (format/table.go)

    The column schemas of the two tables, and the theorem that the records
    rebuilt from the columns are the records the columns were built from. *)

From S2P Require Import Prelude Words Model Rbuf Encoding Page Column.
Open Scope Z_scope.

(** ** Column ids *)

Definition colURLHostKey : Z := 0.
Definition colURLPathKey : Z := 1.
Definition colURLStatus : Z := 2.
Definition colURLPriority : Z := 3.
Definition colURLDepth : Z := 4.
Definition colURLDiscSource : Z := 5.
Definition colURLRef : Z := 6.
Definition colURLFirstSeen : Z := 7.
Definition colURLLastCrawled : Z := 8.
Definition colURLLastChanged : Z := 9.
Definition colURLNextDue : Z := 10.
Definition colURLLambda : Z := 11.
Definition colURLCrawlCount : Z := 12.
Definition colURLChangeCount : Z := 13.
Definition colURLNoChangeStk : Z := 14.
Definition colURLETagRef : Z := 15.
Definition colURLLastModified : Z := 16.
Definition colURLContentFP : Z := 17.
Definition colURLSimhash : Z := 18.
Definition colURLHTTPStatus : Z := 19.
Definition colURLRedirectRef : Z := 20.
Definition colURLRetryCount : Z := 21.
Definition colURLErrorCount : Z := 22.
Definition urlColumnCount : nat := 23.

Definition colHostKey : Z := 0.
Definition colHostRef : Z := 1.
Definition colHostGrouping : Z := 2.
Definition colHostRegistRef : Z := 3.
Definition colHostResolvedIP : Z := 4.
Definition colHostIPExpiry : Z := 5.
Definition colHostRobotsFetch : Z := 6.
Definition colHostRobotsExpiry : Z := 7.
Definition colHostRobotsRef : Z := 8.
Definition colHostCrawlDelay : Z := 9.
Definition colHostNextElig : Z := 10.
Definition colHostIPNextElig : Z := 11.
Definition colHostURLBudget : Z := 12.
Definition colHostURLCount : Z := 13.
Definition colHostDepthCap : Z := 14.
Definition colHostScore : Z := 15.
Definition colHostCrawlTotal : Z := 16.
Definition colHostErrorTotal : Z := 17.
Definition colHostAvgLatency : Z := 18.
Definition colHostFlags : Z := 19.
Definition hostColumnCount : nat := 20.

(** ** Building columns

    The appN loop of one fixed-width column over the records. *)
Definition col_data {R} (w : nat) (f : R -> Z) (recs : list R) : list Z :=
  mjoin ((fun r => le_bytes w (f r)) <$> recs).

Definition urlColumns (recs : list URLRecord) (codec : Z) : list column :=
  [mkColumn colURLHostKey 8 kindUint EncRLE codec (col_data 8 (fun r => HostKey (r_URLKey r)) recs);
   mkColumn colURLPathKey 8 kindUint EncDeltaFOR codec (col_data 8 (fun r => PathKey (r_URLKey r)) recs);
   mkColumn colURLStatus 1 kindUint EncDict codec (col_data 1 (fun r => status_code (r_Status r)) recs);
   mkColumn colURLPriority 4 kindFloat EncDict codec (col_data 4 (r_Priority) recs);
   mkColumn colURLDepth 2 kindUint EncFOR codec (col_data 2 (r_Depth) recs);
   mkColumn colURLDiscSource 1 kindUint EncDict codec (col_data 1 (r_DiscoverySource) recs);
   mkColumn colURLRef 8 kindUint EncDelta codec (col_data 8 (r_URLRef) recs);
   mkColumn colURLFirstSeen 4 kindUint EncDelta codec (col_data 4 (r_FirstSeen) recs);
   mkColumn colURLLastCrawled 4 kindUint EncDelta codec (col_data 4 (r_LastCrawled) recs);
   mkColumn colURLLastChanged 4 kindUint EncDelta codec (col_data 4 (r_LastChanged) recs);
   mkColumn colURLNextDue 4 kindUint EncDelta codec (col_data 4 (r_NextDue) recs);
   mkColumn colURLLambda 4 kindFloat EncDict codec (col_data 4 (r_Lambda) recs);
   mkColumn colURLCrawlCount 4 kindUint EncFOR codec (col_data 4 (r_CrawlCount) recs);
   mkColumn colURLChangeCount 4 kindUint EncFOR codec (col_data 4 (r_ChangeCount) recs);
   mkColumn colURLNoChangeStk 2 kindUint EncFOR codec (col_data 2 (r_NoChangeStreak) recs);
   mkColumn colURLETagRef 8 kindUint EncDelta codec (col_data 8 (r_ETagRef) recs);
   mkColumn colURLLastModified 4 kindUint EncDelta codec (col_data 4 (r_LastModified) recs);
   mkColumn colURLContentFP 8 kindUint EncRaw codec (col_data 8 (r_ContentFP) recs);
   mkColumn colURLSimhash 8 kindUint EncRaw codec (col_data 8 (r_Simhash) recs);
   mkColumn colURLHTTPStatus 2 kindUint EncDict codec (col_data 2 (r_HTTPStatus) recs);
   mkColumn colURLRedirectRef 8 kindUint EncRLE codec (col_data 8 (r_RedirectRef) recs);
   mkColumn colURLRetryCount 1 kindUint EncFOR codec (col_data 1 (r_RetryCount) recs);
   mkColumn colURLErrorCount 2 kindUint EncFOR codec (col_data 2 (r_ErrorCount) recs)].

Definition hostColumns (recs : list HostRecord) (codec : Z) : list column :=
  [mkColumn colHostKey 8 kindUint EncDeltaFOR codec (col_data 8 h_HostKey recs);
   mkColumn colHostRef 8 kindUint EncDelta codec (col_data 8 h_HostRef recs);
   mkColumn colHostGrouping 1 kindUint EncDict codec (col_data 1 h_Grouping recs);
   mkColumn colHostRegistRef 8 kindUint EncDelta codec (col_data 8 h_RegistrableRef recs);
   mkColumn colHostResolvedIP 16 kindRaw EncRaw codec (mjoin (h_ResolvedIP <$> recs));
   mkColumn colHostIPExpiry 4 kindUint EncDelta codec (col_data 4 h_IPExpiry recs);
   mkColumn colHostRobotsFetch 4 kindUint EncDelta codec (col_data 4 h_RobotsFetched recs);
   mkColumn colHostRobotsExpiry 4 kindUint EncDelta codec (col_data 4 h_RobotsExpiry recs);
   mkColumn colHostRobotsRef 8 kindUint EncDelta codec (col_data 8 h_RobotsRef recs);
   mkColumn colHostCrawlDelay 2 kindUint EncDict codec (col_data 2 h_CrawlDelay recs);
   mkColumn colHostNextElig 4 kindUint EncDelta codec (col_data 4 h_HostNextEligible recs);
   mkColumn colHostIPNextElig 4 kindUint EncDelta codec (col_data 4 h_IPNextEligible recs);
   mkColumn colHostURLBudget 4 kindUint EncFOR codec (col_data 4 h_URLBudget recs);
   mkColumn colHostURLCount 4 kindUint EncFOR codec (col_data 4 h_URLCount recs);
   mkColumn colHostDepthCap 2 kindUint EncDict codec (col_data 2 h_DepthCap recs);
   mkColumn colHostScore 4 kindFloat EncDict codec (col_data 4 h_HostScore recs);
   mkColumn colHostCrawlTotal 4 kindUint EncFOR codec (col_data 4 h_CrawlTotal recs);
   mkColumn colHostErrorTotal 4 kindUint EncFOR codec (col_data 4 h_ErrorTotal recs);
   mkColumn colHostAvgLatency 2 kindUint EncFOR codec (col_data 2 h_AvgLatency recs);
   mkColumn colHostFlags 2 kindUint EncDict codec (col_data 2 h_Flags recs)].

(** ** Reading rows

    The getN helpers index the column bytes; an index past the end panics. *)
Definition get_at (w : nat) (data : list Z) (i : nat) : res (list Z) :=
  if (i * w + w <=? length data)%nat then Ok (slice data (i * w) (i * w + w)) else Err GoPanic.

Definition get_u (cols : gmap Z (list Z)) (id : Z) (w i : nat) : res Z :=
  b ← get_at w (default [] (cols !! id)) i; mret (le_val b).

Definition all_present (cols : gmap Z (list Z)) (n : nat) : bool :=
  forallb (fun id => bool_decide (is_Some (cols !! Z.of_nat id))) (seq 0 n).

Definition url_row (cols : gmap Z (list Z)) (i : nat) : res URLRecord :=
  v0 ← get_u cols colURLHostKey 8 i;
  v1 ← get_u cols colURLPathKey 8 i;
  v2 ← get_u cols colURLStatus 1 i;
  v3 ← get_u cols colURLPriority 4 i;
  v4 ← get_u cols colURLDepth 2 i;
  v5 ← get_u cols colURLDiscSource 1 i;
  v6 ← get_u cols colURLRef 8 i;
  v7 ← get_u cols colURLFirstSeen 4 i;
  v8 ← get_u cols colURLLastCrawled 4 i;
  v9 ← get_u cols colURLLastChanged 4 i;
  v10 ← get_u cols colURLNextDue 4 i;
  v11 ← get_u cols colURLLambda 4 i;
  v12 ← get_u cols colURLCrawlCount 4 i;
  v13 ← get_u cols colURLChangeCount 4 i;
  v14 ← get_u cols colURLNoChangeStk 2 i;
  v15 ← get_u cols colURLETagRef 8 i;
  v16 ← get_u cols colURLLastModified 4 i;
  v17 ← get_u cols colURLContentFP 8 i;
  v18 ← get_u cols colURLSimhash 8 i;
  v19 ← get_u cols colURLHTTPStatus 2 i;
  v20 ← get_u cols colURLRedirectRef 8 i;
  v21 ← get_u cols colURLRetryCount 1 i;
  v22 ← get_u cols colURLErrorCount 2 i;
  mret (mkURL (mkKey v0 v1) v0 (status_of v2) v3 v4 v5 v6 v7 v8 v9 v10 v11 v12 v13 v14 v15 v16 v17 v18 v19 v20 v21 v22).

Definition urlRecordsFromColumns (cols : gmap Z (list Z)) (n : Z) : res (list URLRecord) :=
  _ ← ensure (all_present cols urlColumnCount) ErrCorrupt;
  _ ← ensure (0 <=? n) GoPanic;   (* make([]URLRecord, n) *)
  mapM (url_row cols) (seq 0 (Z.to_nat n)).

Definition host_row (cols : gmap Z (list Z)) (i : nat) : res HostRecord :=
  v0 ← get_u cols colHostKey 8 i;
  v1 ← get_u cols colHostRef 8 i;
  v2 ← get_u cols colHostGrouping 1 i;
  v3 ← get_u cols colHostRegistRef 8 i;
  v4 ← get_at 16 (default [] (cols !! colHostResolvedIP)) i;
  v5 ← get_u cols colHostIPExpiry 4 i;
  v6 ← get_u cols colHostRobotsFetch 4 i;
  v7 ← get_u cols colHostRobotsExpiry 4 i;
  v8 ← get_u cols colHostRobotsRef 8 i;
  v9 ← get_u cols colHostCrawlDelay 2 i;
  v10 ← get_u cols colHostNextElig 4 i;
  v11 ← get_u cols colHostIPNextElig 4 i;
  v12 ← get_u cols colHostURLBudget 4 i;
  v13 ← get_u cols colHostURLCount 4 i;
  v14 ← get_u cols colHostDepthCap 2 i;
  v15 ← get_u cols colHostScore 4 i;
  v16 ← get_u cols colHostCrawlTotal 4 i;
  v17 ← get_u cols colHostErrorTotal 4 i;
  v18 ← get_u cols colHostAvgLatency 2 i;
  v19 ← get_u cols colHostFlags 2 i;
  mret (mkHost v0 v1 v2 v3 v4 v5 v6 v7 v8 v9 v10 v11 v12 v13 v14 v15 v16 v17 v18 v19).

Definition hostRecordsFromColumns (cols : gmap Z (list Z)) (n : Z) : res (list HostRecord) :=
  _ ← ensure (all_present cols hostColumnCount) ErrCorrupt;
  _ ← ensure (0 <=? n) GoPanic;
  mapM (host_row cols) (seq 0 (Z.to_nat n)).

(** ** Lemmas *)

Lemma col_data_length {R} w (f : R -> Z) recs : length (col_data w f recs) = (length recs * w)%nat.
Proof.
  unfold col_data. rewrite (list_fmap_compose f (le_bytes w)), mjoin_le_bytes_length.
  by rewrite length_fmap.
Qed.

Lemma col_data_ok {R} w (f : R -> Z) recs : Forall byte_ok (col_data w f recs).
Proof.
  unfold col_data. induction recs as [|r recs IH]; [constructor |].
  apply Forall_app_2; [apply le_bytes_ok | exact IH].
Qed.

Lemma get_col_data {R} w (f : R -> Z) recs i r :
  recs !! i = Some r -> get_at w (col_data w f recs) i = Ok (le_bytes w (f r)).
Proof.
  intros Hi. pose proof (lookup_lt_Some _ _ _ Hi). unfold get_at. rewrite col_data_length.
  rewrite (proj2 (Nat.leb_le _ _)) by nia. f_equal.
  unfold col_data. rewrite (list_fmap_compose f (le_bytes w)), slice_mjoin_le by (by rewrite length_fmap).
  do 2 f_equal. by rewrite nth_lookup_default, list_lookup_fmap, Hi.
Qed.

Lemma get_u_data {R} cols cid w (f : R -> Z) recs i r :
  cols !! cid = Some (col_data w f recs) -> recs !! i = Some r -> fits (8 * Z.of_nat w) (f r) ->
  get_u cols cid w i = Ok (f r).
Proof.
  intros Hc Hi Hf. unfold get_u. rewrite Hc. cbn [default from_option id].
  rewrite (get_col_data _ _ _ _ _ Hi). cbn. by rewrite le_val_bytes_fits.
Qed.

Lemma slice_mjoin_fixed {R} (f : R -> list Z) w recs i r :
  Forall (fun r => length (f r) = w) recs -> recs !! i = Some r ->
  slice (mjoin (f <$> recs)) (i * w) (i * w + w) = f r /\
  length (mjoin (f <$> recs)) = (length recs * w)%nat.
Proof.
  intros Hl. revert r i. induction Hl as [|x recs Hx _ IH]; intros r i Hi; [done |].
  change (mjoin (f <$> x :: recs)) with (f x ++ mjoin (f <$> recs)).
  assert (Hlen : length (mjoin (f <$> recs)) = (length recs * w)%nat).
  { destruct recs as [|y recs]; [done |]. by destruct (IH y 0%nat eq_refl). }
  split; [|rewrite length_app, Hx, Hlen; cbn; lia].
  unfold slice. destruct i as [|i].
  - injection Hi as ->. rewrite Nat.mul_0_l, drop_0. apply take_app_exact. lia.
  - rewrite drop_app_ge, Hx by lia. destruct (IH r i Hi) as [E _]. rewrite <- E. unfold slice.
    replace (S i * w - w)%nat with (i * w)%nat by lia. f_equal. lia.
Qed.

(** The columns of a table, looked up by id. *)
Definition holds (cols : gmap Z (list Z)) (cs : list column) : Prop :=
  forall c, c ∈ cs -> cols !! c_id c = Some (c_data c).

Lemma mapM_seq_ok {R} (f : nat -> res R) (l : list R) :
  (forall i r, l !! i = Some r -> f i = Ok r) -> mapM f (seq 0 (length l)) = Ok l.
Proof.
  assert (H : forall l k, (forall i r, l !! i = Some r -> f (k + i)%nat = Ok r) ->
    mapM f (seq k (length l)) = Ok l).
  { clear. induction l as [|r l IH]; intros k Hf; [done |]. cbn [length seq mapM].
    pose proof (Hf 0%nat r eq_refl) as H0. rewrite Nat.add_0_r in H0. rewrite H0. cbn [mbind res_bind].
    rewrite (IH (S k)); [done |]. intros i x Hi. rewrite Nat.add_succ_comm. by apply Hf. }
  intros Hf. by apply (H l 0%nat).
Qed.

Lemma all_present_holds cols n :
  (forall k, (k < n)%nat -> is_Some (cols !! Z.of_nat k)) -> all_present cols n = true.
Proof.
  intros H. unfold all_present. apply forallb_forall. intros k Hk.
  apply bool_decide_eq_true_2, H. apply in_seq in Hk. lia.
Qed.

(** Picks the column of a given position out of [holds]. *)
Ltac column_at H k :=
  match type of H with
  | holds _ ?cs =>
      let c := eval hnf in (nth k cs (mkColumn 0 0 kindRaw 0 0 [])) in
      exact (H c (list_elem_of_lookup_2 cs k c eq_refl))
  end.

Lemma urlRecords_roundtrip recs codec cols :
  Forall url_wf recs -> holds cols (urlColumns recs codec) ->
  urlRecordsFromColumns cols (Z.of_nat (length recs)) = Ok recs.
Proof.
  intros Hwf Hh. unfold urlRecordsFromColumns.
  assert (C0 : cols !! colURLHostKey = Some (col_data 8 (fun r => HostKey (r_URLKey r)) recs)) by column_at Hh 0%nat.
  assert (C1 : cols !! colURLPathKey = Some (col_data 8 (fun r => PathKey (r_URLKey r)) recs)) by column_at Hh 1%nat.
  assert (C2 : cols !! colURLStatus = Some (col_data 1 (fun r => status_code (r_Status r)) recs)) by column_at Hh 2%nat.
  assert (C3 : cols !! colURLPriority = Some (col_data 4 (r_Priority) recs)) by column_at Hh 3%nat.
  assert (C4 : cols !! colURLDepth = Some (col_data 2 (r_Depth) recs)) by column_at Hh 4%nat.
  assert (C5 : cols !! colURLDiscSource = Some (col_data 1 (r_DiscoverySource) recs)) by column_at Hh 5%nat.
  assert (C6 : cols !! colURLRef = Some (col_data 8 (r_URLRef) recs)) by column_at Hh 6%nat.
  assert (C7 : cols !! colURLFirstSeen = Some (col_data 4 (r_FirstSeen) recs)) by column_at Hh 7%nat.
  assert (C8 : cols !! colURLLastCrawled = Some (col_data 4 (r_LastCrawled) recs)) by column_at Hh 8%nat.
  assert (C9 : cols !! colURLLastChanged = Some (col_data 4 (r_LastChanged) recs)) by column_at Hh 9%nat.
  assert (C10 : cols !! colURLNextDue = Some (col_data 4 (r_NextDue) recs)) by column_at Hh 10%nat.
  assert (C11 : cols !! colURLLambda = Some (col_data 4 (r_Lambda) recs)) by column_at Hh 11%nat.
  assert (C12 : cols !! colURLCrawlCount = Some (col_data 4 (r_CrawlCount) recs)) by column_at Hh 12%nat.
  assert (C13 : cols !! colURLChangeCount = Some (col_data 4 (r_ChangeCount) recs)) by column_at Hh 13%nat.
  assert (C14 : cols !! colURLNoChangeStk = Some (col_data 2 (r_NoChangeStreak) recs)) by column_at Hh 14%nat.
  assert (C15 : cols !! colURLETagRef = Some (col_data 8 (r_ETagRef) recs)) by column_at Hh 15%nat.
  assert (C16 : cols !! colURLLastModified = Some (col_data 4 (r_LastModified) recs)) by column_at Hh 16%nat.
  assert (C17 : cols !! colURLContentFP = Some (col_data 8 (r_ContentFP) recs)) by column_at Hh 17%nat.
  assert (C18 : cols !! colURLSimhash = Some (col_data 8 (r_Simhash) recs)) by column_at Hh 18%nat.
  assert (C19 : cols !! colURLHTTPStatus = Some (col_data 2 (r_HTTPStatus) recs)) by column_at Hh 19%nat.
  assert (C20 : cols !! colURLRedirectRef = Some (col_data 8 (r_RedirectRef) recs)) by column_at Hh 20%nat.
  assert (C21 : cols !! colURLRetryCount = Some (col_data 1 (r_RetryCount) recs)) by column_at Hh 21%nat.
  assert (C22 : cols !! colURLErrorCount = Some (col_data 2 (r_ErrorCount) recs)) by column_at Hh 22%nat.
  rewrite all_present_holds.
  2: { intros k Hk. unfold urlColumnCount in Hk.
       do 23 (destruct k as [|k]; [eexists; eassumption |]). lia. }
  bool_lia. cbn [ensure mbind res_bind]. rewrite Nat2Z.id. apply mapM_seq_ok. intros i r Hi. unfold url_row.
  rewrite Forall_lookup in Hwf. destruct (Hwf i r Hi) as ((K1 & K2) & K3 & K4 & K5 & K6 & K7 & K8 & K9 &
    K10 & K11 & K12 & K13 & K14 & K15 & K16 & K17 & K18 & K19 & K20 & K21 & K22 & K23 & K24).
  rewrite (get_u_data _ _ _ _ _ _ _ C0 Hi) by (done || by apply status_code_fits).
  rewrite (get_u_data _ _ _ _ _ _ _ C1 Hi) by (done || by apply status_code_fits).
  rewrite (get_u_data _ _ _ _ _ _ _ C2 Hi) by (done || by apply status_code_fits).
  rewrite (get_u_data _ _ _ _ _ _ _ C3 Hi) by (done || by apply status_code_fits).
  rewrite (get_u_data _ _ _ _ _ _ _ C4 Hi) by (done || by apply status_code_fits).
  rewrite (get_u_data _ _ _ _ _ _ _ C5 Hi) by (done || by apply status_code_fits).
  rewrite (get_u_data _ _ _ _ _ _ _ C6 Hi) by (done || by apply status_code_fits).
  rewrite (get_u_data _ _ _ _ _ _ _ C7 Hi) by (done || by apply status_code_fits).
  rewrite (get_u_data _ _ _ _ _ _ _ C8 Hi) by (done || by apply status_code_fits).
  rewrite (get_u_data _ _ _ _ _ _ _ C9 Hi) by (done || by apply status_code_fits).
  rewrite (get_u_data _ _ _ _ _ _ _ C10 Hi) by (done || by apply status_code_fits).
  rewrite (get_u_data _ _ _ _ _ _ _ C11 Hi) by (done || by apply status_code_fits).
  rewrite (get_u_data _ _ _ _ _ _ _ C12 Hi) by (done || by apply status_code_fits).
  rewrite (get_u_data _ _ _ _ _ _ _ C13 Hi) by (done || by apply status_code_fits).
  rewrite (get_u_data _ _ _ _ _ _ _ C14 Hi) by (done || by apply status_code_fits).
  rewrite (get_u_data _ _ _ _ _ _ _ C15 Hi) by (done || by apply status_code_fits).
  rewrite (get_u_data _ _ _ _ _ _ _ C16 Hi) by (done || by apply status_code_fits).
  rewrite (get_u_data _ _ _ _ _ _ _ C17 Hi) by (done || by apply status_code_fits).
  rewrite (get_u_data _ _ _ _ _ _ _ C18 Hi) by (done || by apply status_code_fits).
  rewrite (get_u_data _ _ _ _ _ _ _ C19 Hi) by (done || by apply status_code_fits).
  rewrite (get_u_data _ _ _ _ _ _ _ C20 Hi) by (done || by apply status_code_fits).
  rewrite (get_u_data _ _ _ _ _ _ _ C21 Hi) by (done || by apply status_code_fits).
  rewrite (get_u_data _ _ _ _ _ _ _ C22 Hi) by (done || by apply status_code_fits).
  cbn [mbind res_bind]. rewrite status_of_code by done. unfold mret, res_ret. f_equal.
  destruct r as [[hk pk]]. cbn in *. by subst.
Qed.

Lemma hostRecords_roundtrip recs codec cols :
  Forall host_wf recs -> holds cols (hostColumns recs codec) ->
  hostRecordsFromColumns cols (Z.of_nat (length recs)) = Ok recs.
Proof.
  intros Hwf Hh. unfold hostRecordsFromColumns.
  assert (C0 : cols !! colHostKey = Some (col_data 8 h_HostKey recs)) by column_at Hh 0%nat.
  assert (C1 : cols !! colHostRef = Some (col_data 8 h_HostRef recs)) by column_at Hh 1%nat.
  assert (C2 : cols !! colHostGrouping = Some (col_data 1 h_Grouping recs)) by column_at Hh 2%nat.
  assert (C3 : cols !! colHostRegistRef = Some (col_data 8 h_RegistrableRef recs)) by column_at Hh 3%nat.
  assert (C4 : cols !! colHostResolvedIP = Some (mjoin (h_ResolvedIP <$> recs))) by column_at Hh 4%nat.
  assert (C5 : cols !! colHostIPExpiry = Some (col_data 4 h_IPExpiry recs)) by column_at Hh 5%nat.
  assert (C6 : cols !! colHostRobotsFetch = Some (col_data 4 h_RobotsFetched recs)) by column_at Hh 6%nat.
  assert (C7 : cols !! colHostRobotsExpiry = Some (col_data 4 h_RobotsExpiry recs)) by column_at Hh 7%nat.
  assert (C8 : cols !! colHostRobotsRef = Some (col_data 8 h_RobotsRef recs)) by column_at Hh 8%nat.
  assert (C9 : cols !! colHostCrawlDelay = Some (col_data 2 h_CrawlDelay recs)) by column_at Hh 9%nat.
  assert (C10 : cols !! colHostNextElig = Some (col_data 4 h_HostNextEligible recs)) by column_at Hh 10%nat.
  assert (C11 : cols !! colHostIPNextElig = Some (col_data 4 h_IPNextEligible recs)) by column_at Hh 11%nat.
  assert (C12 : cols !! colHostURLBudget = Some (col_data 4 h_URLBudget recs)) by column_at Hh 12%nat.
  assert (C13 : cols !! colHostURLCount = Some (col_data 4 h_URLCount recs)) by column_at Hh 13%nat.
  assert (C14 : cols !! colHostDepthCap = Some (col_data 2 h_DepthCap recs)) by column_at Hh 14%nat.
  assert (C15 : cols !! colHostScore = Some (col_data 4 h_HostScore recs)) by column_at Hh 15%nat.
  assert (C16 : cols !! colHostCrawlTotal = Some (col_data 4 h_CrawlTotal recs)) by column_at Hh 16%nat.
  assert (C17 : cols !! colHostErrorTotal = Some (col_data 4 h_ErrorTotal recs)) by column_at Hh 17%nat.
  assert (C18 : cols !! colHostAvgLatency = Some (col_data 2 h_AvgLatency recs)) by column_at Hh 18%nat.
  assert (C19 : cols !! colHostFlags = Some (col_data 2 h_Flags recs)) by column_at Hh 19%nat.
  rewrite all_present_holds.
  2: { intros k Hk. unfold hostColumnCount in Hk.
       do 20 (destruct k as [|k]; [eexists; eassumption |]). lia. }
  bool_lia. cbn [ensure mbind res_bind]. rewrite Nat2Z.id. apply mapM_seq_ok. intros i r Hi. unfold host_row.
  assert (Hip : Forall (fun r => length (h_ResolvedIP r) = 16%nat) recs)
    by (eapply Forall_impl; [exact Hwf | intros x Hx; apply Hx]).
  destruct (slice_mjoin_fixed h_ResolvedIP 16 recs i r Hip Hi) as [S1 S2].
  rewrite Forall_lookup in Hwf. destruct (Hwf i r Hi) as (K1 & K2 & K3 & K4 & (K5 & _) & K6 & K7 & K8 & K9 &
    K10 & K11 & K12 & K13 & K14 & K15 & K16 & K17 & K18 & K19 & K20).
  rewrite (get_u_data _ _ _ _ _ _ _ C0 Hi) by done.
  rewrite (get_u_data _ _ _ _ _ _ _ C1 Hi) by done.
  rewrite (get_u_data _ _ _ _ _ _ _ C2 Hi) by done.
  rewrite (get_u_data _ _ _ _ _ _ _ C3 Hi) by done.
  rewrite C4. cbn [default from_option id]. unfold get_at.
  rewrite S2, (proj2 (Nat.leb_le _ _)), S1 by (apply lookup_lt_Some in Hi; lia).
  rewrite (get_u_data _ _ _ _ _ _ _ C5 Hi) by done.
  rewrite (get_u_data _ _ _ _ _ _ _ C6 Hi) by done.
  rewrite (get_u_data _ _ _ _ _ _ _ C7 Hi) by done.
  rewrite (get_u_data _ _ _ _ _ _ _ C8 Hi) by done.
  rewrite (get_u_data _ _ _ _ _ _ _ C9 Hi) by done.
  rewrite (get_u_data _ _ _ _ _ _ _ C10 Hi) by done.
  rewrite (get_u_data _ _ _ _ _ _ _ C11 Hi) by done.
  rewrite (get_u_data _ _ _ _ _ _ _ C12 Hi) by done.
  rewrite (get_u_data _ _ _ _ _ _ _ C13 Hi) by done.
  rewrite (get_u_data _ _ _ _ _ _ _ C14 Hi) by done.
  rewrite (get_u_data _ _ _ _ _ _ _ C15 Hi) by done.
  rewrite (get_u_data _ _ _ _ _ _ _ C16 Hi) by done.
  rewrite (get_u_data _ _ _ _ _ _ _ C17 Hi) by done.
  rewrite (get_u_data _ _ _ _ _ _ _ C18 Hi) by done.
  rewrite (get_u_data _ _ _ _ _ _ _ C19 Hi) by done.
  by destruct r.
Qed.

(** The columns are the shape [decodeColumnRegion] needs. *)
Lemma col_data_col_ok {R} id w kind enc codec (f : R -> Z) recs :
  (0 < w <= 16)%nat -> known_enc enc = true -> (length recs <= max_rows)%nat ->
  col_ok (mkColumn id w kind enc codec (col_data w f recs)).
Proof.
  intros Hw He Hn.
  refine (proj1 (col_ok_rows (mkColumn id w kind enc codec (col_data w f recs)) (length recs)
    Hw _ Hn _ He)); [apply col_data_length | apply col_data_ok].
Qed.

Lemma urlColumns_ok recs codec :
  (length recs <= max_rows)%nat -> Forall col_ok (urlColumns recs codec).
Proof.
  intros Hn. unfold urlColumns.
  repeat (apply Forall_cons; split; [apply col_data_col_ok; [lia | reflexivity | exact Hn] |]).
  by apply Forall_nil.
Qed.

Lemma hostColumns_ok recs codec :
  Forall host_wf recs -> (length recs <= max_rows)%nat -> Forall col_ok (hostColumns recs codec).
Proof.
  intros Hwf Hn. unfold hostColumns.
  repeat (apply Forall_cons; split; [first [apply col_data_col_ok; [lia | reflexivity | exact Hn] | idtac] |]);
    [| by apply Forall_nil].
  assert (Hlen : length (mjoin (h_ResolvedIP <$> recs)) = (length recs * 16)%nat).
  { destruct recs as [|r recs]; [done |].
    destruct (slice_mjoin_fixed h_ResolvedIP 16 (r :: recs) 0 r) as [_ ?]; try done.
    eapply Forall_impl; [exact Hwf | intros x Hx; apply Hx]. }
  apply (col_ok_rows _ (length recs)); try done; [cbn; lia |]. cbn.
  induction Hwf as [|r recs Hr _ IH]; [constructor |]. apply Forall_app_2; [apply Hr |].
  apply IH; [cbn in Hn; lia |].
  change (mjoin (h_ResolvedIP <$> r :: recs)) with (h_ResolvedIP r ++ mjoin (h_ResolvedIP <$> recs)) in Hlen.
  rewrite length_app in Hlen. destruct Hr as (_ & _ & _ & _ & [Hr _] & _). cbn in Hlen. lia.
Qed.

Lemma urlColumns_ids recs codec : NoDup (c_id <$> urlColumns recs codec).
Proof. apply (bool_decide_unpack _). by vm_compute. Qed.

Lemma hostColumns_ids recs codec : NoDup (c_id <$> hostColumns recs codec).
Proof. apply (bool_decide_unpack _). by vm_compute. Qed.
