(* ===== verification/Schedule.v ===== *)
(** * The schedule index (format/schedule.go)

    The durable timing wheel: scheduled rows grouped into 283 buckets of
    widening windows.  Proved here: a bucket's window contains the times filed
    in it, the region decodes to the wheel it was built from, and a due query
    returns every due row, each at most once, and nothing unscheduled. *)

From S2P Require Import Prelude Words Model Rbuf Encoding Page.
Open Scope Z_scope.

(** ** Wheel shape *)

Definition schedNearSpan : Z := 168.
Definition schedMidWidth : Z := 24.
Definition schedMidSpan : Z := 2160.
Definition schedFarWidth : Z := 720.
Definition schedFarSpan : Z := 17280.
Definition schedMidOff : Z := 168.
Definition schedFarOff : Z := 2328.
Definition schedOverflowOff : Z := 19608.
Definition schedMidIdx : Z := 168.
Definition schedFarIdx : Z := 258.
Definition schedOverflowBucket : Z := 282.
Definition schedBuckets : nat := 283.

Definition schedBucketOf (offset : Z) : Z :=
  if offset <? schedNearSpan then offset
  else
    let offset := u32 (offset - schedNearSpan) in
    if offset <? schedMidSpan then schedMidIdx + offset / schedMidWidth
    else
      let offset := u32 (offset - schedMidSpan) in
      if offset <? schedFarSpan then schedFarIdx + offset / schedFarWidth
      else schedOverflowBucket.

Definition schedBucketStart (b : Z) : Z :=
  if b <? schedMidIdx then u32 b
  else if b <? schedFarIdx then u32 (schedMidOff + u32 (b - schedMidIdx) * schedMidWidth)
  else if b <? schedOverflowBucket then u32 (schedFarOff + u32 (b - schedFarIdx) * schedFarWidth)
  else schedOverflowOff.

(** ** Building *)

(** dueRange of format/file.go: the smallest and largest nonzero NextDue. *)
Definition dueRange (recs : list URLRecord) : Z * Z :=
  foldl (fun (a : Z * Z) r =>
    let '(mn, mx) := a in let d := r_NextDue r in
    if d =? 0 then (mn, mx)
    else (if (mn =? 0) || (d <? mn) then d else mn, if mx <? d then d else mx)) (0, 0) recs.

Fixpoint file_rows (recs : list URLRecord) (i : Z) (base : Z) (buckets : list (list Z))
    : list (list Z) :=
  match recs with
  | [] => buckets
  | r :: recs =>
      let d := r_NextDue r in
      if d =? 0 then file_rows recs (i + 1) base buckets
      else
        let b := Z.to_nat (schedBucketOf (u32 (d - base))) in
        file_rows recs (i + 1) base (alter (fun ids => ids ++ [u32 i]) b buckets)
  end.

Definition buildScheduleIndex (recs : list URLRecord) : option (Z * list (list Z)) :=
  let base := (dueRange recs).1 in
  if base =? 0 then None
  else Some (base, file_rows recs 0 base (replicate schedBuckets [])).

(** The delta-varint row ids of one bucket. *)
Fixpoint ids_write (prev : Z) (ids : list Z) (w : wbuf) : wbuf :=
  match ids with
  | [] => w
  | idx :: ids => ids_write idx ids (w_uvarint w (u32 (idx - prev)))
  end.

Definition sched_payload (base n : Z) (buckets : list (list Z)) : list Z :=
  let w := w_u32 (w_u32 [] base) (u32 n) in
  let w := w_uvarint w (Z.of_nat schedBuckets) in
  let w := foldl (fun w b => w_uvarint w (Z.of_nat (length b))) w buckets in
  foldl (fun w b => ids_write 0 b w) w buckets.

Definition encodeScheduleRegion `{BlockCodec} (recs : list URLRecord) (codec : Z) : list Z :=
  match buildScheduleIndex recs with
  | None => []
  | Some (base, buckets) =>
      let scheduled := Z.of_nat (sum_list (length <$> buckets)) in
      writePage PageSchedule EncRaw codec (u32 scheduled) 0 base
        (sched_payload base (Z.of_nat (length recs)) buckets)
  end.

(** ** Reading *)

Record ScheduleIndex := mkSched { si_base : Z; si_covered : Z; si_buckets : list (list Z) }.

Fixpoint ids_read (n : nat) (prev : Z) : rd (list Z) :=
  match n with
  | O => mret []
  | S n =>
      v ← r_uvarint; let idx := u32 (prev + u32 v) in
      l ← ids_read n idx; mret (idx :: l)
  end.

Fixpoint buckets_read (counts : list Z) : rd (list (list Z)) :=
  match counts with
  | [] => mret []
  | c :: counts =>
      (* make([]uint32, count) panics on a negative count *)
      _ ← r_ensure (0 <=? i64 c) GoPanic;
      ids ← ids_read (Z.to_nat (i64 c)) 0;
      l ← buckets_read counts; mret (ids :: l)
  end.

Definition sched_read : rd ScheduleIndex :=
  base ← r_u32; covered ← r_u32; nb ← r_uvarint;
  _ ← r_ensure (i64 nb =? Z.of_nat schedBuckets) ErrCorrupt;
  counts ← r_repeat schedBuckets r_uvarint;
  buckets ← buckets_read counts;
  mret (mkSched base covered buckets).

Definition decodeScheduleRegion `{BlockCodec} (region : list Z) : res ScheduleIndex :=
  '(h, payload, _) ← readPage region;
  _ ← ensure (ph_kind h =? PageSchedule) ErrCorrupt;
  run_rd sched_read payload.

(** The loop over buckets with its early exit. *)
Fixpoint due_loop (bs : list (list Z)) (b : Z) (offset : Z) : list Z :=
  match bs with
  | [] => []
  | ids :: bs => if offset <? schedBucketStart b then [] else ids ++ due_loop bs (b + 1) offset
  end.

Definition DueBuckets (s : ScheduleIndex) (now : Z) : list Z :=
  if now <? si_base s then [] else due_loop (si_buckets s) 0 (u32 (now - si_base s)).

(** ** The windows *)

Lemma u32_id x : 0 <= x < 4294967296 -> u32 x = x.
Proof. intros. apply u32_small. unfold fits. change (2 ^ 32) with 4294967296. lia. Qed.

Ltac sched_unfold :=
  unfold schedBucketOf, schedBucketStart, schedNearSpan, schedMidSpan, schedFarSpan, schedMidIdx,
    schedFarIdx, schedOverflowBucket, schedMidWidth, schedFarWidth, schedMidOff, schedFarOff,
    schedOverflowOff in *.

Lemma schedBucketOf_eq off :
  fits 32 off ->
  schedBucketOf off =
    if off <? 168 then off
    else if off <? 2328 then 168 + (off - 168) / 24
    else if off <? 19608 then 258 + (off - 2328) / 720 else 282.
Proof.
  unfold fits. change (2 ^ 32) with 4294967296. intros H. sched_unfold. cbv zeta.
  destruct (Z.ltb_spec off 168); [done |]. rewrite u32_id by lia.
  destruct (Z.ltb_spec (off - 168) 2160), (Z.ltb_spec off 2328); try lia.
  rewrite u32_id by lia.
  destruct (Z.ltb_spec (off - 168 - 2160) 17280), (Z.ltb_spec off 19608); try lia.
  do 2 f_equal. lia.
Qed.

Lemma schedBucketStart_eq b :
  0 <= b <= 282 ->
  schedBucketStart b =
    if b <? 168 then b
    else if b <? 258 then 168 + (b - 168) * 24
    else if b <? 282 then 2328 + (b - 258) * 720 else 19608.
Proof.
  intros H. sched_unfold.
  destruct (Z.ltb_spec b 168); [apply u32_id; lia |].
  destruct (Z.ltb_spec b 258); [rewrite !u32_id by (rewrite ?u32_id by lia; lia); lia |].
  destruct (Z.ltb_spec b 282); [rewrite !u32_id by (rewrite ?u32_id by lia; lia); lia | done].
Qed.

Lemma schedBucketOf_range off : fits 32 off -> 0 <= schedBucketOf off <= 282.
Proof.
  intros H. rewrite schedBucketOf_eq by done. destruct H as [H _].
  repeat case_match; bool_prop; try lia; divmod.
Qed.

(** The window of a bucket contains the offsets filed in it. *)
Lemma sched_window off :
  fits 32 off ->
  schedBucketStart (schedBucketOf off) <= off /\
  (schedBucketOf off < 282 -> off < schedBucketStart (schedBucketOf off + 1)).
Proof.
  intros H. pose proof (schedBucketOf_range off H) as Hr.
  rewrite schedBucketStart_eq by done. split.
  - rewrite schedBucketOf_eq in * by done. destruct H as [H _].
    repeat case_match; bool_prop; try lia; divmod.
  - intros Hlt. rewrite schedBucketStart_eq by lia. rewrite schedBucketOf_eq in * by done.
    destruct H as [H _]. repeat case_match; bool_prop; try lia; divmod.
Qed.

Lemma schedBucketStart_mono a b : 0 <= a -> a <= b -> b <= 282 -> schedBucketStart a <= schedBucketStart b.
Proof.
  intros. rewrite !schedBucketStart_eq by lia. repeat case_match; bool_prop; lia.
Qed.

(** ** The filing loop *)

(** The ids of the rows filed in bucket [b], counting from [i]. *)
Fixpoint rows_of (recs : list URLRecord) (i : Z) (base : Z) (b : nat) : list Z :=
  match recs with
  | [] => []
  | r :: recs =>
      if (negb (r_NextDue r =? 0)) && (Z.to_nat (schedBucketOf (u32 (r_NextDue r - base))) =? b)%nat
      then u32 i :: rows_of recs (i + 1) base b
      else rows_of recs (i + 1) base b
  end.

Lemma file_rows_length recs i base buckets :
  length (file_rows recs i base buckets) = length buckets.
Proof.
  revert i buckets. induction recs as [|r recs IH]; intros i buckets; cbn [file_rows]; [done |].
  destruct (r_NextDue r =? 0); [apply IH |]. by rewrite IH, length_alter.
Qed.

Lemma file_rows_lookup recs i base buckets b ids :
  buckets !! b = Some ids ->
  file_rows recs i base buckets !! b = Some (ids ++ rows_of recs i base b).
Proof.
  revert i buckets ids. induction recs as [|r recs IH]; intros i buckets ids Hb; cbn [file_rows rows_of].
  - by rewrite app_nil_r.
  - destruct (r_NextDue r =? 0); cbn [negb andb]; [by apply IH |].
    destruct (Nat.eqb_spec (Z.to_nat (schedBucketOf (u32 (r_NextDue r - base)))) b) as [-> |].
    + rewrite (IH _ _ (ids ++ [u32 i])).
      * by rewrite <- app_assoc.
      * by rewrite list_lookup_alter_eq, Hb.
    + apply IH. by rewrite list_lookup_alter_ne.
Qed.

Lemma rows_of_elem recs i base b x :
  0 <= i -> i + Z.of_nat (length recs) <= 2 ^ 32 ->
  x ∈ rows_of recs i base b <->
  exists k r, recs !! k = Some r /\ x = i + Z.of_nat k /\ r_NextDue r <> 0 /\
    Z.to_nat (schedBucketOf (u32 (r_NextDue r - base))) = b.
Proof.
  revert i. induction recs as [|r recs IH]; intros i Hi Hlen; cbn [rows_of].
  - split; [by intros ?%elem_of_nil | intros (k & r & Hk & _); done].
  - cbn [length] in Hlen. rewrite Nat2Z.inj_succ in Hlen. change (2 ^ 32) with 4294967296 in *.
    assert (Hrec : x ∈ rows_of recs (i + 1) base b <->
      exists k r', (r :: recs) !! S k = Some r' /\ x = i + Z.of_nat (S k) /\ r_NextDue r' <> 0 /\
        Z.to_nat (schedBucketOf (u32 (r_NextDue r' - base))) = b).
    { rewrite IH by lia. cbn. split; intros (k & r' & H1 & H2 & H3); exists k, r'; split_and!; try done; try lia; apply H3. }
    destruct (Z.eqb_spec (r_NextDue r) 0) as [E0 | E0]; cbn [negb andb].
    + rewrite Hrec. split; [intros (k & r' & H); by exists (S k), r' |].
      intros ([|k] & r' & Hk & H); [by simplify_eq/=; destruct H as (_ & ? & _) | by exists k, r'].
    + destruct (Nat.eqb_spec (Z.to_nat (schedBucketOf (u32 (r_NextDue r - base)))) b) as [E1 | E1].
      * rewrite elem_of_cons, Hrec, (u32_id i) by lia. split.
        -- intros [-> | (k & r' & H)]; [exists 0%nat, r; split_and!; try done; lia | by exists (S k), r'].
        -- intros ([|k] & r' & Hk & Hx & H); [left; lia | right; by exists k, r'].
      * rewrite Hrec. split; [intros (k & r' & H); by exists (S k), r' |].
        intros ([|k] & r' & Hk & Hx & Hd & H); [by simplify_eq/= | by exists k, r'].
Qed.

Lemma rows_of_length recs i base b : (length (rows_of recs i base b) <= length recs)%nat.
Proof.
  revert i. induction recs as [|r recs IH]; intros i; cbn [rows_of length]; [lia |].
  specialize (IH (i + 1)). case_match; cbn [length]; lia.
Qed.

Lemma rows_of_fits recs i base b : Forall (fits 32) (rows_of recs i base b).
Proof.
  revert i. induction recs as [|r recs IH]; intros i; cbn [rows_of]; [constructor |].
  case_match; [constructor; [apply u32_fits |] |]; apply IH.
Qed.

(** The wheel: bucket [b] holds the ids of the rows whose time falls in it. *)
Definition wheel_of (recs : list URLRecord) (base : Z) : list (list Z) :=
  file_rows recs 0 base (replicate schedBuckets []).

Lemma wheel_of_length recs base : length (wheel_of recs base) = schedBuckets.
Proof. unfold wheel_of. by rewrite file_rows_length, length_replicate. Qed.

Lemma wheel_of_lookup recs base b :
  (b < schedBuckets)%nat -> wheel_of recs base !! b = Some (rows_of recs 0 base b).
Proof.
  intros Hb. unfold wheel_of. rewrite (file_rows_lookup _ _ _ _ _ []); [done |].
  by apply lookup_replicate.
Qed.

Lemma wheel_of_bucket recs base b ids :
  wheel_of recs base !! b = Some ids -> ids = rows_of recs 0 base b.
Proof.
  intros H. pose proof (lookup_lt_Some _ _ _ H) as Hl. rewrite wheel_of_length in Hl.
  rewrite wheel_of_lookup in H by done. by injection H.
Qed.

(** ** The region round trip *)

Lemma ids_write_app prev ids w : ids_write prev ids w = w ++ ids_write prev ids [].
Proof.
  revert prev w. induction ids as [|x ids IH]; intros prev w; cbn [ids_write].
  - by rewrite app_nil_r.
  - rewrite (IH x (w_uvarint w _)), (IH x (w_uvarint [] _)), !w_uvarint_app, app_nil_l.
    by rewrite <- app_assoc.
Qed.

Lemma u32_back prev x : fits 32 x -> u32 (prev + u32 (u32 (x - prev))) = x.
Proof. words. Qed.

Lemma reads_ids ids prev :
  Forall (fits 32) ids -> reads (ids_read (length ids) prev) (ids_write prev ids []) ids.
Proof.
  intros Hids. revert prev. induction Hids as [|x ids Hx _ IH]; intros prev; [apply reads_ret |].
  cbn [length ids_read ids_write]. rewrite ids_write_app, w_uvarint_app, app_nil_l.
  eapply reads_bind.
  - apply reads_uvarint. eapply fits_weaken; [|apply u32_fits]. lia.
  - cbn beta zeta. rewrite u32_back by done. eapply reads_bind_nil; [apply IH | apply reads_ret].
Qed.

Lemma foldl_ids_write buckets w :
  foldl (fun w b => ids_write 0 b w) w buckets = w ++ mjoin ((fun b => ids_write 0 b []) <$> buckets).
Proof.
  revert w. induction buckets as [|b bs IH]; intros w; [by rewrite app_nil_r |].
  cbn [foldl]. rewrite IH, ids_write_app.
  change (mjoin ((fun b => ids_write 0 b []) <$> b :: bs))
    with (ids_write 0 b [] ++ mjoin ((fun b => ids_write 0 b []) <$> bs)).
  by rewrite <- app_assoc.
Qed.

Lemma foldl_counts (buckets : list (list Z)) w :
  foldl (fun w b => w_uvarint w (Z.of_nat (length b))) w buckets
  = w ++ mjoin (put_uvarint <$> ((fun b => Z.of_nat (length b)) <$> buckets)).
Proof.
  revert w. induction buckets as [|b bs IH]; intros w; [by rewrite app_nil_r |].
  cbn [foldl]. rewrite IH, w_uvarint_app.
  change (mjoin (put_uvarint <$> ((fun b : list Z => Z.of_nat (length b)) <$> b :: bs)))
    with (put_uvarint (Z.of_nat (length b)) ++
          mjoin (put_uvarint <$> ((fun b : list Z => Z.of_nat (length b)) <$> bs))).
  by rewrite <- app_assoc.
Qed.

Definition bucket_ok (b : list Z) : Prop := Forall (fits 32) b /\ Z.of_nat (length b) < 2 ^ 32.

Lemma reads_buckets buckets :
  Forall bucket_ok buckets ->
  reads (buckets_read ((fun b => Z.of_nat (length b)) <$> buckets))
    (mjoin ((fun b => ids_write 0 b []) <$> buckets)) buckets.
Proof.
  induction 1 as [|b bs [Hb Hl] _ IH]; [apply reads_ret |].
  change ((fun b => Z.of_nat (length b)) <$> b :: bs)
    with (Z.of_nat (length b) :: ((fun b => Z.of_nat (length b)) <$> bs)).
  cbn [buckets_read].
  change (mjoin ((fun b => ids_write 0 b []) <$> b :: bs))
    with ([] ++ ids_write 0 b [] ++ mjoin ((fun b => ids_write 0 b []) <$> bs)).
  rewrite i64_small by lia. bool_lia. eapply reads_bind; [apply reads_ensure |].
  rewrite Nat2Z.id. eapply reads_bind; [by apply reads_ids |].
  eapply reads_bind_nil; [exact IH | apply reads_ret].
Qed.

Lemma reads_sched base n buckets :
  fits 32 base -> fits 32 n -> length buckets = schedBuckets -> Forall bucket_ok buckets ->
  reads sched_read (sched_payload base n buckets) (mkSched base n buckets).
Proof.
  intros Hb Hn Hl Hok. unfold sched_payload. rewrite foldl_ids_write, foldl_counts, w_uvarint_app.
  unfold w_u32. rewrite app_nil_l, <- !app_assoc, (u32_small n) by done. unfold sched_read.
  eapply reads_bind; [by apply reads_u32 |].
  eapply reads_bind; [by apply reads_u32 |].
  eapply reads_bind; [apply reads_uvarint; by vm_compute |].
  rewrite <- (app_nil_l (mjoin _ ++ _)).
  eapply reads_bind; [rewrite i64_small by (unfold schedBuckets; lia); rewrite Z.eqb_refl; apply reads_ensure |].
  rewrite <- Hl, <- (length_fmap (fun b : list Z => Z.of_nat (length b)) buckets).
  eapply reads_bind.
  - apply reads_repeat. apply Forall_fmap. eapply Forall_impl; [exact Hok |].
    intros b [_ Hb']. apply reads_uvarint. unfold fits. lia.
  - eapply reads_bind_nil; [by apply reads_buckets | apply reads_ret].
Qed.

Lemma mjoin_length_sum {A B} (f : A -> list B) (g : A -> nat) l :
  Forall (fun x => (length (f x) <= g x)%nat) l ->
  (length (mjoin (f <$> l)) <= sum_list (g <$> l))%nat.
Proof.
  induction 1 as [|x l Hx _ IH]; [done |].
  change (mjoin (f <$> x :: l)) with (f x ++ mjoin (f <$> l)). rewrite length_app.
  change (sum_list (g <$> x :: l)) with (g x + sum_list (g <$> l))%nat. lia.
Qed.

Lemma ids_write_length prev ids : (length (ids_write prev ids []) <= 10 * length ids)%nat.
Proof.
  revert prev. induction ids as [|x ids IH]; intros prev; [done |].
  cbn [ids_write]. rewrite ids_write_app, w_uvarint_app, app_nil_l, length_app. cbn [length].
  pose proof (put_uvarint_length (u32 (x - prev))). specialize (IH x). lia.
Qed.

(** Every row is filed at most once. *)
Lemma sum_alter (l : list (list Z)) b x :
  (sum_list (length <$> alter (fun ids => ids ++ [x]) b l) <= S (sum_list (length <$> l)))%nat.
Proof.
  revert b. induction l as [|y l IH]; intros [|b]; cbn; try lia.
  - rewrite length_app. cbn. lia.
  - specialize (IH b). lia.
Qed.

Lemma file_rows_sum recs i base buckets :
  (sum_list (length <$> file_rows recs i base buckets) <= sum_list (length <$> buckets) + length recs)%nat.
Proof.
  revert i buckets. induction recs as [|r recs IH]; intros i buckets; cbn [file_rows length]; [lia |].
  destruct (r_NextDue r =? 0).
  - etrans; [apply IH |]. lia.
  - etrans; [apply IH |].
    pose proof (sum_alter buckets (Z.to_nat (schedBucketOf (u32 (r_NextDue r - base)))) (u32 i)). lia.
Qed.

Lemma wheel_of_sum recs base : (sum_list (length <$> wheel_of recs base) <= length recs)%nat.
Proof.
  unfold wheel_of. etrans; [apply file_rows_sum |].
  assert (H : forall n, sum_list (length <$> replicate n ([] : list Z)) = 0%nat)
    by (intros n; induction n; done). rewrite H. lia.
Qed.

Lemma sched_payload_length base n buckets :
  (length (sched_payload base n buckets) <= 18 + 10 * length buckets + 10 * sum_list (length <$> buckets))%nat.
Proof.
  unfold sched_payload. rewrite foldl_ids_write, foldl_counts, w_uvarint_app. unfold w_u32.
  rewrite !length_app, !le_bytes_length. cbn [length].
  pose proof (put_uvarint_length (Z.of_nat schedBuckets)).
  pose proof (mjoin_length_sum (fun b => ids_write 0 b []) (fun b => 10 * length b)%nat buckets) as H1.
  pose proof (mjoin_length_le put_uvarint 10 ((fun b : list Z => Z.of_nat (length b)) <$> buckets)
    (fun x => proj2 (put_uvarint_length x))) as H2. rewrite length_fmap in H2.
  assert (E : sum_list ((fun b : list Z => (10 * length b)%nat) <$> buckets)
              = (10 * sum_list (length <$> buckets))%nat)
    by (clear; induction buckets as [|b bs IH]; [done | rewrite !fmap_cons; cbn [sum_list_with]; unfold id in *; lia]).
  rewrite E in H1. assert (Forall (fun b => (length (ids_write 0 b []) <= 10 * length b)%nat) buckets)
    by (apply Forall_true; intros b; apply ids_write_length). specialize (H1 H0).
  unfold mjoin in *. lia.
Qed.

Lemma wheel_of_ok recs base :
  Z.of_nat (length recs) <= 2 ^ 26 -> Forall bucket_ok (wheel_of recs base).
Proof.
  intros Hn. apply Forall_lookup. intros b ids Hb. apply wheel_of_bucket in Hb as ->.
  split; [apply rows_of_fits |]. pose proof (rows_of_length recs 0 base b). lia.
Qed.

Lemma dueRange_fits recs :
  Forall (fun r => fits 32 (r_NextDue r)) recs -> fits 32 (dueRange recs).1 /\ fits 32 (dueRange recs).2.
Proof.
  unfold dueRange. intros H.
  assert (Hg : forall a : Z * Z, fits 32 a.1 -> fits 32 a.2 ->
    fits 32 (foldl (fun (a : Z * Z) r => let '(mn, mx) := a in let d := r_NextDue r in
      if d =? 0 then (mn, mx)
      else (if (mn =? 0) || (d <? mn) then d else mn, if mx <? d then d else mx)) a recs).1 /\
    fits 32 (foldl (fun (a : Z * Z) r => let '(mn, mx) := a in let d := r_NextDue r in
      if d =? 0 then (mn, mx)
      else (if (mn =? 0) || (d <? mn) then d else mn, if mx <? d then d else mx)) a recs).2).
  { induction H as [|r recs Hr _ IH]; intros [mn mx] H1 H2; [done |]. cbn [foldl]. apply IH.
    - cbv zeta. repeat case_match; done.
    - cbv zeta. repeat case_match; done. }
  apply Hg; by vm_compute.
Qed.

Lemma decodeScheduleRegion_encode `{BlockCodecLaws} recs codec :
  Z.of_nat (length recs) <= 2 ^ 26 -> Forall (fun r => fits 32 (r_NextDue r)) recs ->
  let base := (dueRange recs).1 in base <> 0 ->
  decodeScheduleRegion (encodeScheduleRegion recs codec)
  = Ok (mkSched base (Z.of_nat (length recs)) (wheel_of recs base)).
Proof.
  intros Hn Hd base Hb. unfold encodeScheduleRegion, buildScheduleIndex. fold base.
  rewrite (proj2 (Z.eqb_neq _ _)) by done. fold (wheel_of recs base).
  pose proof (sched_payload_length base (Z.of_nat (length recs)) (wheel_of recs base)) as Hpl.
  pose proof (wheel_of_sum recs base) as Hsum. rewrite wheel_of_length in Hpl.
  destruct (dueRange_fits recs Hd) as [Hbf _]. fold base in Hbf.
  assert (Hpr : reads sched_read (sched_payload base (Z.of_nat (length recs)) (wheel_of recs base))
    (mkSched base (Z.of_nat (length recs)) (wheel_of recs base))).
  { apply reads_sched; [done | unfold fits; lia | apply wheel_of_length | by apply wheel_of_ok]. }
  set (payload := sched_payload _ _ _) in *. unfold schedBuckets in Hpl.
  pose proof (compress_length codec payload) as Hcl.
  set (sc := u32 _). assert (Hsc : fits 32 sc) by apply u32_fits. clearbody sc.
  unfold decodeScheduleRegion. rewrite <- (app_nil_r (writePage _ _ _ _ _ _ _)).
  rewrite readPage_writePage.
  - cbn [mbind res_bind]. cbn [ph_kind]. rewrite Z.eqb_refl. cbn [ensure mbind res_bind].
    rewrite <- (app_nil_r payload). apply reads_run; [done |]. unfold buf_max. lia.
  - by vm_compute.
  - by vm_compute.
  - exact Hsc.
  - by vm_compute.
  - eapply fits_weaken; [|exact Hbf]. lia.
  - lia.
  - lia.
Qed.

(** ** Due queries *)

(** Its low end is 0 when no row is scheduled, and the due time of a row otherwise. *)
Lemma dueRange_low recs :
  ((dueRange recs).1 = 0 /\ forall r, r ∈ recs -> r_NextDue r = 0) \/
  ((dueRange recs).1 <> 0 /\ exists r, r ∈ recs /\ r_NextDue r = (dueRange recs).1).
Proof.
  induction recs as [|x recs IH] using rev_ind.
  { left. split; [done |]. by intros r ?%elem_of_nil. }
  assert (E : (dueRange (recs ++ [x])).1 = if r_NextDue x =? 0 then (dueRange recs).1 else
    if ((dueRange recs).1 =? 0) || (r_NextDue x <? (dueRange recs).1) then r_NextDue x else (dueRange recs).1).
  { unfold dueRange. rewrite foldl_app. cbn [foldl]. set (acc := foldl _ _ recs).
    destruct acc as [mn mx]. cbn. by destruct (r_NextDue x =? 0). }
  rewrite E. destruct (Z.eqb_spec (r_NextDue x) 0) as [Ex | Ex].
  - destruct IH as [[E0 Hall] | (E0 & r & Hr & Er)].
    + left. split; [done |]. intros r [? | ->%list_elem_of_singleton]%elem_of_app; auto.
    + right. split; [done |]. exists r. split; [by apply elem_of_app; left | done].
  - right. destruct ((dueRange recs).1 =? 0) eqn:E1; cbn [orb].
    { split; [done |]. exists x. split; [by apply elem_of_app; right; left | done]. }
    apply Z.eqb_neq in E1. destruct IH as [[E0 _] | (_ & r & Hr & Er)]; [done |].
    destruct (r_NextDue x <? (dueRange recs).1).
    + split; [done |]. exists x. split; [by apply elem_of_app; right; left | done].
    + split; [done |]. exists r. split; [by apply elem_of_app; left | done].
Qed.

Lemma dueRange_min recs r :
  (dueRange recs).1 <> 0 -> Forall (fun r => fits 32 (r_NextDue r)) recs -> r ∈ recs ->
  r_NextDue r <> 0 -> (dueRange recs).1 <= r_NextDue r.
Proof.
  intros _ Hf Hr Hd. unfold dueRange.
  set (f := fun (a : Z * Z) r => _).
  assert (Hmono : forall l (a : Z * Z), Forall (fun r => fits 32 (r_NextDue r)) l -> a.1 <> 0 ->
            (foldl f a l).1 <> 0 /\ (foldl f a l).1 <= a.1).
  { clear. induction l as [|x l IH]; intros [mn mx] Hl Ha; cbn [foldl]; [cbn in *; lia |].
    apply Forall_cons in Hl as [Hx Hl]. cbn [fst] in Ha.
    destruct (IH (f (mn, mx) x) Hl) as [H1 H2].
    - unfold f. cbv zeta. repeat case_match; cbn; bool_prop; lia || (destruct (_ || _) eqn:?; bool_prop; lia).
    - split; [done |]. etrans; [exact H2 |]. unfold f. cbv zeta.
      destruct (Z.eqb_spec (r_NextDue x) 0); cbn; [lia |].
      destruct (Z.eqb_spec mn 0); [lia |]. cbn. destruct (Z.ltb_spec (r_NextDue x) mn); lia. }
  assert (Hgen : forall l (a : Z * Z), Forall (fun r => fits 32 (r_NextDue r)) l -> r ∈ l ->
            (foldl f a l).1 <= r_NextDue r).
  { induction l as [|x l IH]; intros [mn mx] Hl Hin; [by apply elem_of_nil in Hin |].
    apply Forall_cons in Hl as [Hx Hl]. cbn [foldl].
    apply elem_of_cons in Hin as [<- | Hin]; [|by apply IH].
    assert (Hle : (f (mn, mx) r).1 <= r_NextDue r /\ (f (mn, mx) r).1 <> 0).
    { unfold f. cbv zeta. destruct (Z.eqb_spec (r_NextDue r) 0); [done |].
      cbn. destruct (Z.eqb_spec mn 0); cbn; [lia |]. destruct (Z.ltb_spec (r_NextDue r) mn); lia. }
    destruct (Hmono l (f (mn, mx) r) Hl) as [_ H2]; lia. }
  by apply Hgen.
Qed.

Lemma due_loop_elem bs b offset x :
  0 <= b -> b + Z.of_nat (length bs) <= 283 ->
  x ∈ due_loop bs b offset <->
  exists j ids, bs !! j = Some ids /\ x ∈ ids /\ schedBucketStart (b + Z.of_nat j) <= offset.
Proof.
  revert b. induction bs as [|ids bs IH]; intros b Hb Hl; cbn [due_loop].
  - split; [by intros ?%elem_of_nil | intros (j & ids & Hj & _); done].
  - cbn [length] in Hl. destruct (Z.ltb_spec offset (schedBucketStart b)) as [Hlt | Hge].
    + split; [by intros ?%elem_of_nil |]. intros (j & ids' & Hj & _ & Hs).
      apply lookup_lt_Some in Hj. cbn [length] in Hj.
      pose proof (schedBucketStart_mono b (b + Z.of_nat j)). lia.
    + rewrite elem_of_app, IH by lia. split.
      * intros [Hx | (j & ids' & Hj & Hx & Hs)].
        -- exists 0%nat, ids. rewrite Z.add_0_r. auto.
        -- exists (S j), ids'. split_and!; [done | done |].
           by replace (b + Z.of_nat (S j)) with (b + 1 + Z.of_nat j) by lia.
      * intros ([|j] & ids' & Hj & Hx & Hs); [left; by simplify_eq/= |].
        right. exists j, ids'. split_and!; [done | done |].
        by replace (b + 1 + Z.of_nat j) with (b + Z.of_nat (S j)) by lia.
Qed.

Lemma due_loop_NoDup bs b offset :
  Forall NoDup bs ->
  (forall i j x y, bs !! i = Some x -> bs !! j = Some y -> i <> j -> forall z, z ∈ x -> z ∈ y -> False) ->
  NoDup (due_loop bs b offset).
Proof.
  intros Hn. revert b. induction Hn as [|ids bs Hids _ IH]; intros b Hdis; cbn [due_loop]; [constructor |].
  destruct (offset <? schedBucketStart b); [constructor |].
  apply NoDup_app. split; [done |]. split.
  - intros z Hz Hin.
    assert (Hsub : forall bs b, z ∈ due_loop bs b offset -> exists j y, bs !! j = Some y /\ z ∈ y).
    { clear. induction bs as [|ids bs IH]; intros b; cbn [due_loop]; [by intros ?%elem_of_nil |].
      destruct (_ <? _); [by intros ?%elem_of_nil |]. intros [Hz | Hz]%elem_of_app; [by exists 0%nat, ids |].
      destruct (IH _ Hz) as (j & y & ? & ?). by exists (S j), y. }
    destruct (Hsub _ _ Hin) as (j & y & Hj & Hy).
    by apply (Hdis 0%nat (S j) ids y) with z.
  - apply IH. intros i j x y Hi Hj Hne z. apply (Hdis (S i) (S j) x y); try done. lia.
Qed.

Lemma rows_of_NoDup recs i base b :
  0 <= i -> i + Z.of_nat (length recs) <= 2 ^ 32 -> NoDup (rows_of recs i base b).
Proof.
  revert i. induction recs as [|r recs IH]; intros i Hi Hlen; cbn [rows_of]; [constructor |].
  cbn [length] in Hlen. change (2 ^ 32) with 4294967296 in *.
  destruct (_ && _); [|apply IH; lia]. constructor; [|apply IH; lia].
  rewrite (u32_id i) by lia. intros Hin. apply rows_of_elem in Hin as (k & r' & _ & Hk & _); lia.
Qed.

Lemma DueBuckets_elem recs base n now x :
  Z.of_nat (length recs) <= 2 ^ 26 ->
  x ∈ DueBuckets (mkSched base n (wheel_of recs base)) now <->
  base <= now /\ exists k r, recs !! k = Some r /\ x = Z.of_nat k /\ r_NextDue r <> 0 /\
    schedBucketStart (schedBucketOf (u32 (r_NextDue r - base))) <= u32 (now - base).
Proof.
  intros Hn. change (2 ^ 26) with 67108864 in Hn. unfold DueBuckets. cbn [si_base si_buckets].
  destruct (Z.ltb_spec now base); [split; [by intros ?%elem_of_nil | lia] |].
  rewrite due_loop_elem by (rewrite ?wheel_of_length; unfold schedBuckets; lia). split.
  - intros (j & ids & Hj & Hx & Hs). split; [done |]. apply wheel_of_bucket in Hj as ->.
    apply rows_of_elem in Hx as (k & r & Hk & -> & Hd & <-); [| lia | change (2 ^ 32) with 4294967296; lia].
    exists k, r. split_and!; try done. rewrite Z2Nat.id in Hs; [done |].
    apply schedBucketOf_range, u32_fits.
  - intros (_ & k & r & Hk & -> & Hd & Hs).
    pose proof (schedBucketOf_range (u32 (r_NextDue r - base)) (u32_fits _)) as Hr.
    exists (Z.to_nat (schedBucketOf (u32 (r_NextDue r - base)))), (rows_of recs 0 base
      (Z.to_nat (schedBucketOf (u32 (r_NextDue r - base))))). split_and!.
    + apply wheel_of_lookup. unfold schedBuckets. lia.
    + apply rows_of_elem; [lia | change (2 ^ 32) with 4294967296; lia |]. by exists k, r.
    + rewrite Z.add_0_l, Z2Nat.id by lia. done.
Qed.

(** ** Property *)

(** The due query of a wheel built from the rows. *)
Lemma wheel_due_rows (recs : list URLRecord) (now : Z) :
  Z.of_nat (length recs) <= 2 ^ 26 -> Forall (fun r => fits 32 (r_NextDue r)) recs ->
  (dueRange recs).1 <> 0 -> fits 32 now ->
  let idx := mkSched (dueRange recs).1 (Z.of_nat (length recs)) (wheel_of recs (dueRange recs).1) in
  NoDup (DueBuckets idx now) /\
  (forall k r, recs !! k = Some r -> r_NextDue r <> 0 -> r_NextDue r <= now ->
     Z.of_nat k ∈ DueBuckets idx now) /\
  (forall x, x ∈ DueBuckets idx now -> exists k r, recs !! k = Some r /\ x = Z.of_nat k /\
     r_NextDue r <> 0 /\ (r_NextDue r < now + 720 \/ (dueRange recs).1 + 19608 <= now)).
Proof.
  intros Hn Hd Hsome Hnow. cbv zeta.
  destruct (dueRange_fits recs Hd) as [Hb _].
  set (base := (dueRange recs).1) in *.
  change (2 ^ 26) with 67108864 in Hn. unfold fits in Hb, Hnow. change (2 ^ 32) with 4294967296 in Hb, Hnow.
  assert (Hmin : forall k r, recs !! k = Some r -> r_NextDue r <> 0 ->
    u32 (r_NextDue r - base) = r_NextDue r - base /\ base <= r_NextDue r).
  { intros k r Hk Hr. assert (base <= r_NextDue r)
      by (apply dueRange_min; try done; by eapply list_elem_of_lookup_2).
    rewrite Forall_lookup in Hd. specialize (Hd k r Hk). unfold fits in Hd.
    change (2 ^ 32) with 4294967296 in Hd. split; [apply u32_id; lia | done]. }
  split_and!.
  - unfold DueBuckets. cbn [si_base si_buckets]. destruct (now <? base); [constructor |].
    apply due_loop_NoDup.
    + apply Forall_lookup. intros b ids Hids. apply wheel_of_bucket in Hids as ->.
      apply rows_of_NoDup; [lia | change (2 ^ 32) with 4294967296; lia].
    + intros i j x y Hi Hj Hne z Hx Hy. apply wheel_of_bucket in Hi as ->, Hj as ->.
      apply rows_of_elem in Hx as (k & r & Hk & -> & _ & <-); [| lia | change (2 ^ 32) with 4294967296; lia].
      apply rows_of_elem in Hy as (k' & r' & Hk' & E & _ & <-); [| lia | change (2 ^ 32) with 4294967296; lia].
      assert (k = k') by lia. by simplify_eq.
  - intros k r Hk Hr Hle. apply DueBuckets_elem; [done |].
    destruct (Hmin k r Hk Hr) as [E Hge]. split; [lia |]. exists k, r. split_and!; try done.
    rewrite E, (u32_id (now - base)) by lia.
    destruct (sched_window (r_NextDue r - base)) as [Hw _].
    { rewrite <- E. apply u32_fits. } lia.
  - intros x Hx. apply DueBuckets_elem in Hx as (Hge & k & r & Hk & -> & Hr & Hs); [|done].
    exists k, r. split_and!; try done. destruct (Hmin k r Hk Hr) as [E Hge'].
    rewrite E, (u32_id (now - base)) in Hs by lia.
    destruct (sched_window (r_NextDue r - base)) as [_ Hw]; [rewrite <- E; apply u32_fits |].
    pose proof (schedBucketOf_range (r_NextDue r - base) ltac:(rewrite <- E; apply u32_fits)) as Hrg.
    set (b := schedBucketOf _) in *. destruct (decide (b < 282)) as [Hlt | Hge2].
    + left. specialize (Hw Hlt). rewrite schedBucketStart_eq in Hs, Hw by lia.
      revert Hs Hw. repeat case_match; bool_prop; lia.
    + right. assert (b = 282) as Eb by lia. rewrite Eb in Hs.
      change (schedBucketStart 282) with 19608 in Hs. lia.
Qed.

(** C30: The durable timing wheel answers due queries: after a round trip through
    its region, a query at [now] returns every scheduled row that is due, no row
    twice, only scheduled rows, and none due more than 720 hours after [now]
    unless [now] has passed the two-year horizon of the wheel. *)
Theorem schedule_due_rows `{BlockCodecLaws} (recs : list URLRecord) (codec now : Z)
    (Hn : Z.of_nat (length recs) <= 2 ^ 26) (Hd : Forall (fun r => fits 32 (r_NextDue r)) recs)
    (Hsome : (dueRange recs).1 <> 0) (Hnow : fits 32 now) :
  exists idx, decodeScheduleRegion (encodeScheduleRegion recs codec) = Ok idx /\
    NoDup (DueBuckets idx now) /\
    (forall k r, recs !! k = Some r -> r_NextDue r <> 0 -> r_NextDue r <= now ->
       Z.of_nat k ∈ DueBuckets idx now) /\
    (forall x, x ∈ DueBuckets idx now -> exists k r, recs !! k = Some r /\ x = Z.of_nat k /\
       r_NextDue r <> 0 /\ (r_NextDue r < now + 720 \/ (dueRange recs).1 + 19608 <= now)).
Proof.
  eexists. split; [by apply decodeScheduleRegion_encode |]. by apply wheel_due_rows.
Qed.

#[local] Instance stored_codec : BlockCodec := {| zstd_enc s := s; zstd_dec s _ := Ok s |}.
#[local] Instance stored_codec_laws : BlockCodecLaws.
Proof. constructor; [reflexivity | cbn; lia]. Qed.

Definition example_row (due : Z) : URLRecord :=
  mkURL (mkKey 1 due) 1 StatusCrawled 0 1 1 7 5 6 6 due 0 1 0 1 0 0 11 12 200 0 0 0.

Lemma schedule_due_rows_witness :
  exists idx, decodeScheduleRegion (encodeScheduleRegion [example_row 0; example_row 500; example_row 900] 2)
    = Ok idx /\ 1 ∈ DueBuckets idx 600.
Proof.
  destruct (schedule_due_rows [example_row 0; example_row 500; example_row 900] 2 600)
    as (idx & E & _ & Hc & _).
  - by vm_compute.
  - apply (bool_decide_unpack _). by vm_compute.
  - by vm_compute.
  - by vm_compute.
  - exists idx. split; [exact E |]. apply (Hc 1%nat (example_row 500)); [done | done | cbn; lia].
Defined.
