(* ===== verification/Footer.v ===== *)
(** * The footer (format/footer.go)

    The tagged sections at the end of a file: the region directory, the two
    column directories with their page skip lists, the statistics and the string
    metadata.  Decoding an encoded footer gives it back, with the metadata in
    key order. *)

From S2P Require Import Prelude Words Rbuf Encoding Page Column.
Open Scope Z_scope.

(** ** Data *)

Definition secRegions : Z := 1.
Definition secURLColumns : Z := 2.
Definition secHostColumns : Z := 3.
Definition secStats : Z := 7.
Definition secKeyValueMeta : Z := 8.

Record regionDesc := mkRegion {
  rg_id : Z; rg_offset : Z; rg_length : Z; rg_crc : Z; rg_flags : Z
}.

Record statsBlock := mkStats {
  st_urlCount : Z; st_hostCount : Z; st_hostKeyLo : Z; st_hostKeyHi : Z; st_scheduledCount : Z;
  st_dueMin : Z; st_dueMax : Z; st_totalCompressed : Z; st_totalUncompressed : Z;
  st_bytesPerURL : Z   (** a float32 bit pattern *)
}.

(** A Go string is its bytes. *)
Abbreviation kvPair := (list Z * list Z)%type.

Record footerData := mkFooter {
  f_regions : list regionDesc; f_urlDir : list columnDir; f_hostDir : list columnDir;
  f_stats : statsBlock; f_meta : list kvPair
}.

(** ** Key order: Go's [<] on strings *)

Fixpoint str_le (a b : list Z) : bool :=
  match a, b with
  | [], _ => true
  | _ :: _, [] => false
  | x :: a, y :: b => (x <? y) || ((x =? y) && str_le a b)
  end.

Definition kv_le (a b : kvPair) : Prop := str_le a.1 b.1 = true.
#[export] Instance kv_le_dec a b : Decision (kv_le a b).
Proof. unfold kv_le. apply _. Defined.

(** ** Encoding *)

Definition region_bytes (r : regionDesc) : list Z :=
  [u8 (rg_id r)] ++ le_bytes 8 (rg_offset r) ++ le_bytes 8 (rg_length r) ++
  le_bytes 4 (rg_crc r) ++ [u8 (rg_flags r)].

Definition encode_regions (l : list regionDesc) : list Z :=
  put_uvarint (Z.of_nat (length l)) ++ mjoin (region_bytes <$> l).

Definition page_entry_bytes (pe : pageEntry) : list Z :=
  le_bytes 8 (pe_firstRow pe) ++ le_bytes 8 (pe_numValues pe) ++ le_bytes 8 (pe_byteLen pe) ++
  [u8 (pe_encoding pe)] ++ [if pe_hasZone pe then 1 else 0] ++
  le_bytes 8 (pe_zoneMin pe) ++ le_bytes 8 (pe_zoneMax pe).

Definition encodePageSkipList (pages : list pageEntry) : list Z := mjoin (page_entry_bytes <$> pages).

Definition column_dir_bytes (d : columnDir) : list Z :=
  put_uvarint (u64 (cd_columnID d)) ++ le_bytes 8 (cd_firstPageOffset d) ++
  le_bytes 8 (cd_totalCompressed d) ++ le_bytes 8 (cd_totalUncompressed d) ++
  put_uvarint (cd_numValues d) ++ put_uvarint (cd_numPages d) ++
  [u8 (cd_width d)] ++ [u8 (cd_encoding d)] ++ [u8 (cd_codec d)] ++
  le_bytes 8 (cd_totalUncompressed d) ++ le_bytes 4 (cd_columnCRC32C d) ++
  [if cd_hasZone d then 1 else 0] ++ le_bytes 8 (cd_zoneMin d) ++ le_bytes 8 (cd_zoneMax d) ++
  (if 1 <? cd_numPages d then encodePageSkipList (cd_pages d) else le_bytes 8 0).

Definition encodeColumnDir (dir : list columnDir) : list Z :=
  put_uvarint (Z.of_nat (length dir)) ++ mjoin (column_dir_bytes <$> dir).

Definition encode_stats (s : statsBlock) : list Z :=
  le_bytes 8 (st_urlCount s) ++ le_bytes 8 (st_hostCount s) ++ le_bytes 8 (st_hostKeyLo s) ++
  le_bytes 8 (st_hostKeyHi s) ++ le_bytes 8 (st_scheduledCount s) ++ le_bytes 4 (st_dueMin s) ++
  le_bytes 4 (st_dueMax s) ++ le_bytes 8 (st_totalCompressed s) ++
  le_bytes 8 (st_totalUncompressed s) ++ le_bytes 4 (st_bytesPerURL s).

Definition kv_bytes (kv : kvPair) : list Z :=
  put_uvarint (Z.of_nat (length kv.1)) ++ kv.1 ++ put_uvarint (Z.of_nat (length kv.2)) ++ kv.2.

(** [sort.Slice] by key; the keys of a Go map are distinct, so the order is
    determined ([sort_meta_unique]). *)
Definition sort_meta (meta : list kvPair) : list kvPair := merge_sort kv_le meta.

Definition encode_meta (meta : list kvPair) : list Z :=
  put_uvarint (Z.of_nat (length meta)) ++ mjoin (kv_bytes <$> meta).

Definition writeSection (tag : Z) (body : list Z) : list Z :=
  put_uvarint tag ++ put_uvarint (Z.of_nat (length body)) ++ body.

Definition encodeFooter (f : footerData) : list Z :=
  writeSection secRegions (encode_regions (f_regions f)) ++
  writeSection secURLColumns (encodeColumnDir (f_urlDir f)) ++
  writeSection secHostColumns (encodeColumnDir (f_hostDir f)) ++
  writeSection secStats (encode_stats (f_stats f)) ++
  match f_meta f with
  | [] => []
  | _ :: _ => writeSection secKeyValueMeta (encode_meta (sort_meta (f_meta f)))
  end.

(** ** Decoding *)

(** [n := int(r.uvarint()); make([]T, 0, n)]: a negative capacity panics.  (A
    capacity too large for memory panics too; memory is not modelled.) *)
Definition r_count : rd nat :=
  n ← r_uvarint; _ ← r_ensure (0 <=? i64 n) GoPanic; mret (Z.to_nat (i64 n)).

Definition region_read : rd regionDesc :=
  i ← r_u8; off ← r_u64; len ← r_u64; crc ← r_u32; fl ← r_u8; mret (mkRegion i off len crc fl).

(** The section readers never look at [r.err]: a short body yields zeroes. *)
Definition decodeRegions (b : list Z) : res (list regionDesc) :=
  run_rd_unchecked (n ← r_count; r_repeat n region_read) b.

Definition page_entry_read : rd pageEntry :=
  fr ← r_u64; nv ← r_u64; bl ← r_u64; e ← r_u8; z ← r_u8; mn ← r_u64; mx ← r_u64;
  mret (mkPageEntry fr nv bl e mn mx (Z.odd z)).

Definition decodePageSkipList (n : Z) : rd (list pageEntry) :=
  _ ← r_ensure (0 <=? i64 n) GoPanic; r_repeat (Z.to_nat (i64 n)) page_entry_read.

Definition column_dir_read : rd columnDir :=
  cid ← r_uvarint; off ← r_u64; tc ← r_u64; tu ← r_u64; nv ← r_uvarint; np ← r_uvarint;
  w ← r_u8; e ← r_u8; cd ← r_u8; _ ← r_u64; crc ← r_u32; fl ← r_u8; mn ← r_u64; mx ← r_u64;
  pages ← (if 1 <? np then decodePageSkipList np else (_ ← r_u64; mret []));
  mret (mkColumnDir (i64 cid) off tc tu nv np w e cd crc mn mx (Z.odd fl) pages).

Definition decodeColumnDir (b : list Z) : res (list columnDir) :=
  run_rd_unchecked (n ← r_count; r_repeat n column_dir_read) b.

Definition stats_read : rd statsBlock :=
  a ← r_u64; b ← r_u64; c ← r_u64; d ← r_u64; e ← r_u64; f ← r_u32; g ← r_u32; h ← r_u64;
  i ← r_u64; j ← r_u32; mret (mkStats a b c d e f g h i j).

Definition decodeStats (b : list Z) : res statsBlock := run_rd_unchecked stats_read b.

Definition kv_read : rd kvPair :=
  kl ← r_uvarint; k ← r_bytes (i64 kl); vl ← r_uvarint; v ← r_bytes (i64 vl); mret (k, v).

Definition decodeMeta (b : list Z) : res (list kvPair) :=
  run_rd_unchecked (n ← r_count; r_repeat n kv_read) b.

Definition zero_stats : statsBlock := mkStats 0 0 0 0 0 0 0 0 0 0.

(** The [switch] on the section tag; an unknown tag changes nothing. *)
Definition decode_section (tag : Z) (body : list Z) (f : footerData) : res footerData :=
  if tag =? secRegions then
    x ← decodeRegions body; mret (mkFooter x (f_urlDir f) (f_hostDir f) (f_stats f) (f_meta f))
  else if tag =? secURLColumns then
    x ← decodeColumnDir body; mret (mkFooter (f_regions f) x (f_hostDir f) (f_stats f) (f_meta f))
  else if tag =? secHostColumns then
    x ← decodeColumnDir body; mret (mkFooter (f_regions f) (f_urlDir f) x (f_stats f) (f_meta f))
  else if tag =? secStats then
    x ← decodeStats body; mret (mkFooter (f_regions f) (f_urlDir f) (f_hostDir f) x (f_meta f))
  else if tag =? secKeyValueMeta then
    x ← decodeMeta body; mret (mkFooter (f_regions f) (f_urlDir f) (f_hostDir f) (f_stats f) x)
  else mret f.

(** The section loop.  A round that does not fail consumes at least two bytes,
    so [length b] rounds empty the footer. *)
Fixpoint footer_loop (fuel : nat) (r : rbuf) (f : footerData) : res footerData :=
  match fuel with
  | O => Err ErrCorrupt
  | S fuel =>
      match rb_err r with
      | Some e => Err e
      | None =>
          if (length (rb_b r) <=? rb_pos r)%nat then Ok f
          else
            let '(hd, r) := (tag ← r_uvarint; n ← r_uvarint; mret (tag, n)) r in
            match rb_err r with
            | Some e => Err e
            | None =>
                let '(body, r) := r_bytes (i64 hd.2) r in
                match rb_err r with
                | Some e => Err e
                | None => f ← decode_section hd.1 body f; footer_loop fuel r f
                end
            end
      end
  end.

Definition decodeFooter (b : list Z) : res footerData :=
  footer_loop (S (length b)) (mkRbuf b 0 None) (mkFooter [] [] [] zero_stats []).

(** ** Well-formed footers *)

Definition region_wf (r : regionDesc) : Prop :=
  fits 8 (rg_id r) /\ fits 64 (rg_offset r) /\ fits 64 (rg_length r) /\ fits 32 (rg_crc r) /\
  fits 8 (rg_flags r).

Definition page_entry_wf (p : pageEntry) : Prop :=
  fits 64 (pe_firstRow p) /\ fits 64 (pe_numValues p) /\ fits 64 (pe_byteLen p) /\
  fits 8 (pe_encoding p) /\ fits 64 (pe_zoneMin p) /\ fits 64 (pe_zoneMax p).

Definition column_dir_wf (d : columnDir) : Prop :=
  0 <= cd_columnID d < 2 ^ 31 /\ fits 64 (cd_firstPageOffset d) /\ fits 64 (cd_totalCompressed d) /\
  fits 64 (cd_totalUncompressed d) /\ fits 64 (cd_numValues d) /\ fits 31 (cd_numPages d) /\
  fits 8 (cd_width d) /\ fits 8 (cd_encoding d) /\ fits 8 (cd_codec d) /\
  fits 32 (cd_columnCRC32C d) /\ fits 64 (cd_zoneMin d) /\ fits 64 (cd_zoneMax d) /\
  Forall page_entry_wf (cd_pages d) /\
  (if 1 <? cd_numPages d then Z.of_nat (length (cd_pages d)) = cd_numPages d else cd_pages d = []).

Definition stats_wf (s : statsBlock) : Prop :=
  fits 64 (st_urlCount s) /\ fits 64 (st_hostCount s) /\ fits 64 (st_hostKeyLo s) /\
  fits 64 (st_hostKeyHi s) /\ fits 64 (st_scheduledCount s) /\ fits 32 (st_dueMin s) /\
  fits 32 (st_dueMax s) /\ fits 64 (st_totalCompressed s) /\ fits 64 (st_totalUncompressed s) /\
  fits 32 (st_bytesPerURL s).

Definition footer_wf (f : footerData) : Prop :=
  Forall region_wf (f_regions f) /\ Forall column_dir_wf (f_urlDir f) /\
  Forall column_dir_wf (f_hostDir f) /\ stats_wf (f_stats f).

(** ** Reads *)

(** One field of a record reader. *)
Ltac read_field :=
  eapply reads_bind;
  [first [apply reads_u8; assumption | apply reads_u32; assumption | apply reads_u64; assumption
         | apply reads_uvarint; assumption] |]; cbn beta.
Ltac read_last :=
  eapply reads_bind_nil;
  [first [apply reads_u8; assumption | apply reads_u32; assumption | apply reads_u64; assumption] |];
  cbn beta.

Lemma reads_region r : region_wf r -> reads region_read (region_bytes r) r.
Proof.
  destruct r as [i o l c f]. intros (H1 & H2 & H3 & H4 & H5).
  cbn [rg_id rg_offset rg_length rg_crc rg_flags] in *.
  unfold region_read, region_bytes. cbn [rg_id rg_offset rg_length rg_crc rg_flags]. do 4 read_field. read_last. apply reads_ret.
Qed.

Lemma reads_page_entry p : page_entry_wf p -> reads page_entry_read (page_entry_bytes p) p.
Proof.
  destruct p as [fr nv bl e mn mx z]. intros (H1 & H2 & H3 & H4 & H5 & H6).
  unfold page_entry_read, page_entry_bytes. cbn [pe_firstRow pe_numValues pe_byteLen pe_encoding
    pe_zoneMin pe_zoneMax pe_hasZone] in *.
  do 4 read_field.
  replace [if z then 1 else 0] with [u8 (if z then 1 else 0)] by (by destruct z).
  eapply reads_bind; [apply reads_u8; by destruct z |]. cbn beta.
  read_field. read_last. destruct z; apply reads_ret.
Qed.

Lemma reads_skip_list (pages : list pageEntry) n :
  Forall page_entry_wf pages -> Z.of_nat (length pages) = n -> n < 2 ^ 31 ->
  reads (decodePageSkipList n) (encodePageSkipList pages) pages.
Proof.
  intros Hp <- Hn. unfold decodePageSkipList, encodePageSkipList. rewrite i64_small by lia.
  bool_lia. rewrite Nat2Z.id. rewrite <- (app_nil_l (mjoin _)).
  eapply reads_bind; [apply reads_ensure |]. apply reads_repeat.
  eapply Forall_impl; [exact Hp | apply reads_page_entry].
Qed.

Lemma reads_column_dir d : column_dir_wf d -> reads column_dir_read (column_dir_bytes d) d.
Proof.
  destruct d as [cid off tc tu nv np w e cd crc mn mx z pages].
  intros (H1 & H2 & H3 & H4 & H5 & H6 & H7 & H8 & H9 & H10 & H11 & H12 & H13 & H14).
  unfold column_dir_read, column_dir_bytes. cbn [cd_columnID cd_firstPageOffset cd_totalCompressed
    cd_totalUncompressed cd_numValues cd_numPages cd_width cd_encoding cd_codec cd_columnCRC32C
    cd_zoneMin cd_zoneMax cd_hasZone cd_pages] in *.
  assert (Hc : fits 64 cid) by (unfold fits; lia).
  assert (Hnp : fits 64 np) by (eapply fits_weaken; [|exact H6]; lia).
  rewrite (u64_small cid) by done. do 11 read_field.
  replace [if z then 1 else 0] with [u8 (if z then 1 else 0)] by (by destruct z).
  eapply reads_bind; [apply reads_u8; by destruct z |]. cbn beta. do 2 read_field.
  eapply reads_bind_nil.
  - instantiate (1 := pages). destruct (1 <? np).
    + apply reads_skip_list; [done | done | apply H6].
    + subst pages. eapply reads_bind_nil; [apply reads_u64; by vm_compute | apply reads_ret].
  - cbn beta. rewrite (i64_small cid) by lia. destruct z; apply reads_ret.
Qed.

Lemma reads_stats s : stats_wf s -> reads stats_read (encode_stats s) s.
Proof.
  destruct s as [a b c d e f g h i j]. intros (H1 & H2 & H3 & H4 & H5 & H6 & H7 & H8 & H9 & H10).
  cbn [st_urlCount st_hostCount st_hostKeyLo st_hostKeyHi st_scheduledCount st_dueMin st_dueMax
    st_totalCompressed st_totalUncompressed st_bytesPerURL] in *.
  unfold stats_read, encode_stats. cbn [st_urlCount st_hostCount st_hostKeyLo st_hostKeyHi
    st_scheduledCount st_dueMin st_dueMax st_totalCompressed st_totalUncompressed st_bytesPerURL].
  do 9 read_field. read_last. apply reads_ret.
Qed.

Lemma reads_kv (kv : kvPair) :
  Z.of_nat (length kv.1) < 2 ^ 62 -> Z.of_nat (length kv.2) < 2 ^ 62 -> reads kv_read (kv_bytes kv) kv.
Proof.
  destruct kv as [k v]. cbn [fst snd]. intros Hk Hv. unfold kv_read, kv_bytes. cbn [fst snd].
  eapply reads_bind; [apply reads_uvarint; unfold fits; lia |]. cbn beta.
  eapply reads_bind; [apply reads_bytes'; rewrite i64_small by lia; done |]. cbn beta.
  eapply reads_bind; [apply reads_uvarint; unfold fits; lia |]. cbn beta.
  eapply reads_bind_nil; [apply reads_bytes'; rewrite i64_small by lia; done | apply reads_ret].
Qed.

Lemma reads_counted {A} (m : rd A) (enc : A -> list Z) (l : list A) :
  Forall (fun a => reads m (enc a) a) l -> Z.of_nat (length l) < 2 ^ 62 ->
  reads (n ← r_count; r_repeat n m) (put_uvarint (Z.of_nat (length l)) ++ mjoin (enc <$> l)) l.
Proof.
  intros Hl Hn. eapply reads_bind.
  - unfold r_count. eapply reads_bind_nil; [apply reads_uvarint; unfold fits; lia |]. cbn beta.
    rewrite i64_small by lia. bool_lia. eapply reads_bind_nil; [apply reads_ensure | apply reads_ret].
  - cbn beta. rewrite Nat2Z.id. by apply reads_repeat.
Qed.

Lemma Forall_impl' {A} (P Q : A -> Prop) l : Forall P l -> (forall x, P x -> Q x) -> Forall Q l.
Proof. intros H HPQ. by eapply Forall_impl. Qed.

Lemma decode_count {A} (m : rd A) (enc : A -> list Z) (l : list A) (body : list Z) :
  body = put_uvarint (Z.of_nat (length l)) ++ mjoin (enc <$> l) ->
  Forall (fun a => reads m (enc a) a) l -> Z.of_nat (length body) < buf_max ->
  (forall a, (1 <= length (enc a))%nat) ->
  run_rd_unchecked (n ← r_count; r_repeat n m) body = Ok l.
Proof.
  intros -> Hl Hlt Henc. rewrite <- (app_nil_r (put_uvarint _ ++ _)). apply reads_run_unchecked; [|done].
  apply reads_counted; [done |]. rewrite length_app in Hlt. unfold buf_max in Hlt.
  assert (length l <= length (mjoin (enc <$> l)))%nat; [|lia].
  clear -Henc. induction l as [|a l IH]; [done |].
  change (mjoin (enc <$> a :: l)) with (enc a ++ mjoin (enc <$> l)). rewrite length_app.
  specialize (Henc a). cbn [length]. lia.
Qed.

Lemma decodeRegions_encode l :
  Forall region_wf l -> Z.of_nat (length (encode_regions l)) < buf_max ->
  decodeRegions (encode_regions l) = Ok l.
Proof.
  intros Hl Hn. apply (decode_count _ region_bytes); [done | | done |].
  - eapply Forall_impl'; [exact Hl | apply reads_region].
  - intros a. unfold region_bytes. rewrite !length_app. cbn [length]. lia.
Qed.

Lemma decodeColumnDir_encode l :
  Forall column_dir_wf l -> Z.of_nat (length (encodeColumnDir l)) < buf_max ->
  decodeColumnDir (encodeColumnDir l) = Ok l.
Proof.
  intros Hl Hn. apply (decode_count _ column_dir_bytes); [done | | done |].
  - eapply Forall_impl'; [exact Hl | apply reads_column_dir].
  - intros a. unfold column_dir_bytes. rewrite !length_app. cbn [length]. lia.
Qed.

Lemma decodeStats_encode s : stats_wf s -> decodeStats (encode_stats s) = Ok s.
Proof.
  intros Hs. unfold decodeStats. rewrite <- (app_nil_r (encode_stats s)).
  apply reads_run_unchecked; [by apply reads_stats |].
  unfold encode_stats. rewrite !length_app, !le_bytes_length. unfold buf_max. lia.
Qed.

Lemma kv_length_le (kv : kvPair) (l : list kvPair) :
  kv ∈ l -> (length (kv_bytes kv) <= length (mjoin (kv_bytes <$> l)))%nat.
Proof.
  induction l as [|x l IH]; intros Hin; [by apply elem_of_nil in Hin |].
  change (mjoin (kv_bytes <$> x :: l)) with (kv_bytes x ++ mjoin (kv_bytes <$> l)).
  rewrite length_app. apply elem_of_cons in Hin as [-> | Hin]; [lia |]. specialize (IH Hin). lia.
Qed.

Lemma decodeMeta_encode l :
  Z.of_nat (length (encode_meta l)) < buf_max -> decodeMeta (encode_meta l) = Ok l.
Proof.
  intros Hn. apply (decode_count _ kv_bytes); [done | | done |].
  - apply Forall_forall. intros kv Hin. pose proof (kv_length_le kv l Hin) as Hle.
    unfold encode_meta, buf_max in Hn. rewrite length_app in Hn. unfold kv_bytes in Hle at 1.
    rewrite !length_app in Hle. apply reads_kv; lia.
  - intros a. unfold kv_bytes. rewrite !length_app.
    pose proof (put_uvarint_length (Z.of_nat (length a.1))). lia.
Qed.

(** ** The section loop *)

Definition reads_at (pre : list Z) (b : list Z) : rbuf := mkRbuf b (length pre) None.

Lemma footer_loop_section fuel pre tag body rest f :
  fits 64 tag -> Z.of_nat (length (pre ++ writeSection tag body)) < buf_max ->
  footer_loop (S fuel) (reads_at pre (pre ++ writeSection tag body ++ rest)) f
  = (f' ← decode_section tag body f;
     footer_loop fuel (reads_at (pre ++ writeSection tag body) (pre ++ writeSection tag body ++ rest)) f').
Proof.
  intros Ht Hlen. pose proof Hlen as Hlen'. unfold writeSection in Hlen.
  rewrite !length_app in Hlen. unfold buf_max in Hlen.
  assert (Hb : Z.of_nat (length body) < 2 ^ 62) by lia.
  set (hdr := put_uvarint tag ++ put_uvarint (Z.of_nat (length body))).
  assert (Hs : writeSection tag body = hdr ++ body) by (unfold writeSection, hdr; by rewrite app_assoc).
  rewrite Hs in *. unfold reads_at. cbn [footer_loop rb_err rb_b rb_pos].
  rewrite !length_app in Hlen'. unfold buf_max in Hlen'. 
  assert (Hh : reads (tag ← r_uvarint; n ← r_uvarint; mret (tag, n)) hdr (tag, Z.of_nat (length body))).
  { unfold hdr. eapply reads_bind; [by apply reads_uvarint |].
    eapply reads_bind_nil; [apply reads_uvarint; unfold fits; lia | apply reads_ret]. }
  assert (Hne : (1 <= length hdr)%nat)
    by (unfold hdr; rewrite length_app; pose proof (put_uvarint_length tag); lia).
  rewrite (proj2 (Nat.leb_gt _ _)) by (rewrite !length_app; lia).
  rewrite <- (app_assoc hdr). rewrite Hh by (rewrite length_app; unfold buf_max; lia).
  cbn [rb_err snd fst]. rewrite i64_small by lia.
  pose proof (reads_bytes body (pre ++ hdr) rest) as Hbody.
  rewrite <- !app_assoc, !length_app in Hbody.
  rewrite Hbody by (unfold buf_max; lia). cbn [rb_err].
  by rewrite !length_app, Nat.add_assoc.
Qed.

Lemma footer_loop_end fuel pre f : footer_loop (S fuel) (reads_at pre pre) f = Ok f.
Proof. unfold reads_at. cbn. by rewrite (proj2 (Nat.leb_le _ _)) by lia. Qed.

(** Decoding a run of sections one after another. *)
Fixpoint apply_sections (secs : list (Z * list Z)) (f : footerData) : res footerData :=
  match secs with
  | [] => Ok f
  | (tag, body) :: secs => f ← decode_section tag body f; apply_sections secs f
  end.

Definition sections_bytes (secs : list (Z * list Z)) : list Z :=
  mjoin ((fun s : Z * list Z => writeSection s.1 s.2) <$> secs).

Lemma footer_loop_sections fuel secs pre f g :
  Forall (fun s : Z * list Z => fits 64 s.1) secs ->
  Z.of_nat (length (pre ++ sections_bytes secs)) < buf_max -> (length secs < fuel)%nat ->
  apply_sections secs f = Ok g ->
  footer_loop fuel (reads_at pre (pre ++ sections_bytes secs)) f = Ok g.
Proof.
  intros Hs. revert fuel pre f. induction Hs as [|[tag body] secs Ht _ IH]; intros fuel pre f Hlen Hf Hg.
  - destruct fuel; [cbn in Hf; lia |]. cbn in Hg. injection Hg as <-.
    unfold sections_bytes. cbn. rewrite app_nil_r. apply footer_loop_end.
  - destruct fuel as [|fuel]; [cbn in Hf; lia |]. cbn [length] in Hf. cbn [fst] in Ht.
    change (sections_bytes ((tag, body) :: secs)) with (writeSection tag body ++ sections_bytes secs) in *.
    cbn [apply_sections] in Hg. apply res_bind_ok in Hg as (f' & E & Hg).
    rewrite footer_loop_section, E by (done || (rewrite !length_app in *; lia)). cbn [mbind res_bind].
    rewrite app_assoc. apply IH; [by rewrite <- app_assoc | lia | done].
Qed.

(** What decoding gives back: the metadata comes out in key order. *)
Definition footer_sorted (f : footerData) : footerData :=
  mkFooter (f_regions f) (f_urlDir f) (f_hostDir f) (f_stats f) (sort_meta (f_meta f)).

Definition footer_sections (f : footerData) : list (Z * list Z) :=
  [(secRegions, encode_regions (f_regions f)); (secURLColumns, encodeColumnDir (f_urlDir f));
   (secHostColumns, encodeColumnDir (f_hostDir f)); (secStats, encode_stats (f_stats f))] ++
  match f_meta f with
  | [] => []
  | _ :: _ => [(secKeyValueMeta, encode_meta (sort_meta (f_meta f)))]
  end.

Lemma sections_bytes_cons s secs :
  sections_bytes (s :: secs) = writeSection s.1 s.2 ++ sections_bytes secs.
Proof. reflexivity. Qed.

Lemma encodeFooter_sections f : encodeFooter f = sections_bytes (footer_sections f).
Proof.
  unfold encodeFooter, footer_sections. destruct (f_meta f) as [|kv l];
    cbn [app]; rewrite !sections_bytes_cons; cbn [fst snd]; change (sections_bytes []) with (@nil Z);
    by rewrite ?app_nil_r.
Qed.

Lemma section_length tag body secs :
  (tag, body) ∈ secs -> (length body <= length (sections_bytes secs))%nat.
Proof.
  induction secs as [|[t b] secs IH]; intros Hin; [by apply elem_of_nil in Hin |].
  change (sections_bytes ((t, b) :: secs)) with (writeSection t b ++ sections_bytes secs).
  rewrite length_app. apply elem_of_cons in Hin as [[= -> ->] | Hin]; [|specialize (IH Hin); lia].
  unfold writeSection. rewrite !length_app. lia.
Qed.

Section tags.
Variables (body : list Z) (f : footerData).
Lemma sec_regions : decode_section secRegions body f =
  (x ← decodeRegions body; mret (mkFooter x (f_urlDir f) (f_hostDir f) (f_stats f) (f_meta f))).
Proof. reflexivity. Qed.
Lemma sec_urls : decode_section secURLColumns body f =
  (x ← decodeColumnDir body; mret (mkFooter (f_regions f) x (f_hostDir f) (f_stats f) (f_meta f))).
Proof. reflexivity. Qed.
Lemma sec_hosts : decode_section secHostColumns body f =
  (x ← decodeColumnDir body; mret (mkFooter (f_regions f) (f_urlDir f) x (f_stats f) (f_meta f))).
Proof. reflexivity. Qed.
Lemma sec_stats : decode_section secStats body f =
  (x ← decodeStats body; mret (mkFooter (f_regions f) (f_urlDir f) (f_hostDir f) x (f_meta f))).
Proof. reflexivity. Qed.
Lemma sec_meta : decode_section secKeyValueMeta body f =
  (x ← decodeMeta body; mret (mkFooter (f_regions f) (f_urlDir f) (f_hostDir f) (f_stats f) x)).
Proof. reflexivity. Qed.
End tags.

Lemma apply_sections_footer f :
  footer_wf f -> Z.of_nat (length (encodeFooter f)) < buf_max ->
  apply_sections (footer_sections f) (mkFooter [] [] [] zero_stats []) = Ok (footer_sorted f).
Proof.
  intros (Hr & Hu & Hh & Hs) Hlen. rewrite encodeFooter_sections in Hlen.
  assert (Hsec : forall tag body, (tag, body) ∈ footer_sections f -> Z.of_nat (length body) < buf_max)
    by (intros tag body Hin; apply section_length in Hin; lia).
  unfold footer_sections in *. cbn [app apply_sections].
  rewrite sec_regions.
  rewrite decodeRegions_encode by (done || (eapply Hsec; left)). cbn [mbind res_bind mret res_ret].
  rewrite sec_urls.
  rewrite decodeColumnDir_encode by (done || (eapply Hsec; right; left)). cbn [mbind res_bind mret res_ret].
  rewrite sec_hosts.
  rewrite decodeColumnDir_encode by (done || (eapply Hsec; right; right; left)). cbn [mbind res_bind mret res_ret].
  rewrite sec_stats.
  rewrite decodeStats_encode by done. cbn [mbind res_bind mret res_ret].
  unfold footer_sorted. destruct (f_meta f) as [|kv l]; [done |]. cbn [apply_sections].
  rewrite sec_meta.
  rewrite decodeMeta_encode by (eapply Hsec; do 4 right; left). done.
Qed.

Lemma decodeFooter_encode f :
  footer_wf f -> Z.of_nat (length (encodeFooter f)) < buf_max ->
  decodeFooter (encodeFooter f) = Ok (footer_sorted f).
Proof.
  intros Hwf Hlen. pose proof (apply_sections_footer f Hwf Hlen) as Happ. unfold decodeFooter.
  rewrite encodeFooter_sections in *.
  apply (footer_loop_sections _ (footer_sections f) []); [| done | | done].
  - unfold footer_sections. destruct (f_meta f); repeat constructor; by vm_compute.
  - assert (H : forall secs, (length secs <= length (sections_bytes secs))%nat); [|specialize (H (footer_sections f)); lia].
    intros secs. induction secs as [|[t b] secs IH]; [done |].
    change (sections_bytes ((t, b) :: secs)) with (writeSection t b ++ sections_bytes secs).
    unfold writeSection at 1. rewrite !length_app. pose proof (put_uvarint_length t). cbn [length]. lia.
Qed.

(** ** The metadata order *)

Lemma str_le_refl a : str_le a a = true.
Proof. induction a as [|x a IH]; cbn; [done |]. by rewrite Z.eqb_refl, IH, orb_true_r. Qed.

Lemma str_le_spec x a y b :
  str_le (x :: a) (y :: b) = true <-> x < y \/ (x = y /\ str_le a b = true).
Proof. cbn. rewrite orb_true_iff, andb_true_iff, Z.ltb_lt, Z.eqb_eq. done. Qed.

Lemma str_le_trans a b c : str_le a b = true -> str_le b c = true -> str_le a c = true.
Proof.
  revert b c. induction a as [|x a IH]; intros [|y b] [|z c]; try done.
  rewrite !str_le_spec. intros [? | [-> ?]] [? | [-> ?]]; try (left; lia). right. eauto.
Qed.

Lemma str_le_antisymm a b : str_le a b = true -> str_le b a = true -> a = b.
Proof.
  revert b. induction a as [|x a IH]; intros [|y b]; try done.
  rewrite !str_le_spec. intros [? | [-> ?]] [? | [? ?]]; try lia. f_equal. auto.
Qed.

Lemma str_le_total a b : str_le a b = true \/ str_le b a = true.
Proof.
  revert b. induction a as [|x a IH]; intros [|y b]; [by left | by left | by right |].
  rewrite !str_le_spec. destruct (Z.lt_total x y) as [? | [-> | ?]]; [tauto | | tauto].
  destruct (IH b); tauto.
Qed.

#[export] Instance kv_le_trans : Transitive kv_le.
Proof. intros a b c. apply str_le_trans. Qed.
#[export] Instance kv_le_total : Total kv_le.
Proof. intros a b. apply str_le_total. Qed.

(** Whatever order a map is iterated in, its sorted pairs are the same. *)
Lemma sort_meta_unique (l1 l2 : list kvPair) :
  NoDup (fst <$> l1) -> l1 ≡ₚ l2 -> sort_meta l1 = sort_meta l2.
Proof.
  intros Hnd Hp. unfold sort_meta.
  apply (StronglySorted_unique_strong kv_le);
    [| apply StronglySorted_merge_sort, _ .. | by rewrite !merge_sort_Permutation]; try apply _.
  intros [k1 v1] [k2 v2]. rewrite !merge_sort_Permutation, <- Hp. intros H1 H2 L1 L2.
  assert (k1 = k2) as -> by (by apply str_le_antisymm).
  apply list_elem_of_lookup_1 in H1 as [i Hi], H2 as [j Hj].
  assert (i = j) as ->; [|congruence].
  eapply (NoDup_lookup _ i j k2 Hnd); by rewrite list_lookup_fmap, ?Hi, ?Hj.
Qed.
