(* ===== verification/File.v ===== *)
(** * The file codec (format/partition.go, file.go, blob.go, seenset.go)

    [Encode] lays a partition out as one file and [Decode] parses it back,
    checking every checksum on the way.  The main theorem is the round trip of a
    whole file. *)

From S2P Require Import Prelude Words Model Rbuf Encoding Page Column Table Schedule Footer.
Open Scope Z_scope.

(** ** Partitions *)

Record Partition := mkPartition {
  p_ID : Z; p_HostKeyLo : Z; p_HostKeyHi : Z; p_CreatedHours : Z; p_DefaultCodec : Z;
  p_URLs : list URLRecord; p_Hosts : list HostRecord; p_Strings : list Z;
  p_SeenFilter : list Z; p_BuildSchedule : bool; p_MaxPageRows : Z;
  p_Meta : gmap (list Z) (list Z)
}.

Fixpoint sortedURLs (recs : list URLRecord) : bool :=
  match recs with
  | a :: ((b :: _) as tl) => if Less (r_URLKey b) (r_URLKey a) then false else sortedURLs tl
  | _ => true
  end.

Fixpoint sortedHosts (recs : list HostRecord) : bool :=
  match recs with
  | a :: ((b :: _) as tl) => if h_HostKey b <? h_HostKey a then false else sortedHosts tl
  | _ => true
  end.

(** ** float32

    [float32(a)/float32(b)] for positive integers, rounded half to even at each
    step, as a bit pattern; it only feeds the bytes-per-url statistic.  A finite
    positive float32 is [m * 2^s] with [2^23 <= m < 2^24]. *)
Definition f32_round (num den : Z) : Z * Z :=
  let e0 := Z.log2 num - Z.log2 den in
  let ge e := if 0 <=? e then den * 2 ^ e <=? num else den <=? num * 2 ^ (- e) in
  let e := if ge e0 then e0 else e0 - 1 in
  let s := e - 23 in
  let n' := if 0 <=? s then num else num * 2 ^ (- s) in
  let d' := if 0 <=? s then den * 2 ^ s else den in
  let q := n' / d' in
  let r := n' mod d' in
  let q := if 2 * r <? d' then q else if d' <? 2 * r then q + 1 else if Z.odd q then q + 1 else q in
  if q =? 2 ^ 24 then (2 ^ 23, s + 1) else (q, s).

Definition f32_bits (f : Z * Z) : Z := u32 ((f.2 + 150) * 2 ^ 23 + (f.1 - 2 ^ 23)).

Definition f32_quot (a b : Z) : Z :=
  let '(m1, s1) := f32_round a 1 in
  let '(m2, s2) := f32_round b 1 in
  f32_bits (f32_round (m1 * 2 ^ Z.max 0 (s1 - s2)) (m2 * 2 ^ Z.max 0 (s2 - s1))).

Example f32_quot_third : f32_quot 100 3 = 0x42055555. Proof. reflexivity. Qed.
Example f32_quot_five : f32_quot 5 1 = 0x40A00000. Proof. reflexivity. Qed.

(** ** Region ids and header flags *)

Definition RegionURLTable : Z := 0.
Definition RegionHostTable : Z := 1.
Definition RegionSchedule : Z := 2.
Definition RegionSeenset : Z := 3.
Definition RegionStringBlob : Z := 4.
Definition FlagSorted : Z := 1.
Definition FlagHasSchedule : Z := 2.
Definition FlagHasSeenset : Z := 4.
Definition FlagHasBlob : Z := 8.
Definition ChecksumCRC32C : Z := 1.
Definition trailerSize : nat := 12.

Definition is_empty {A} (l : list A) : bool := match l with [] => true | _ => false end.

(** ** Metadata

    [pairs] is the map in the order the runtime happens to iterate it. *)
Definition metaPairs (meta : gmap (list Z) (list Z)) : list kvPair := map_to_list meta.
Definition metaMap (pairs : list kvPair) : gmap (list Z) (list Z) :=
  foldl (fun m kv => <[kv.1 := kv.2]> m) ∅ pairs.

Definition findRegion (regions : list regionDesc) (rid : Z) : option regionDesc :=
  head (filter (fun r => rg_id r = rid) regions).

Definition dirTotals (dir : list columnDir) : Z :=
  foldl (fun t d => u64 (t + cd_totalCompressed d)) 0 dir.
Definition uncompTotals (dir : list columnDir) : Z :=
  foldl (fun t d => u64 (t + cd_totalUncompressed d)) 0 dir.

Section codec.
Context `{BlockCodec}.

(** ** The opaque regions *)

Definition encodeBlobRegion (arena : list Z) (codec : Z) : list Z :=
  if is_empty arena then []
  else writePage PageBlob EncRaw codec (u32 (Z.of_nat (length arena))) 0 0 arena.

Definition decodeBlobRegion (region : list Z) : res (list Z) :=
  if is_empty region then Ok []
  else '(_, arena, _) ← readPage region; mret arena.

Definition encodeSeensetRegion (blob : list Z) (keyCount codec : Z) : list Z :=
  if is_empty blob then [] else writePage PageFilter EncRaw codec (u32 keyCount) 0 0 blob.

Definition decodeSeensetRegion (region : list Z) : res (list Z) :=
  '(h, payload, _) ← readPage region;
  _ ← ensure (ph_kind h =? PageFilter) ErrCorrupt;
  mret payload.

(** ** Encode *)

(** The regions in file order and the directories of the two tables. *)
Record layout := mkLayout {
  l_url : list Z; l_urlDir : list columnDir; l_host : list Z; l_hostDir : list columnDir;
  l_sched : list Z; l_seen : list Z; l_blob : list Z
}.

Definition lay_out (p : Partition) : layout :=
  let codec := p_DefaultCodec p in
  let pos := Z.of_nat HeaderSize in
  let url := encodeColumnRegion (urlColumns (p_URLs p) codec) pos (p_MaxPageRows p) in
  let pos := pos + Z.of_nat (length url.1) in
  let host := encodeColumnRegion (hostColumns (p_Hosts p) codec) pos (p_MaxPageRows p) in
  mkLayout url.1 url.2 host.1 host.2
    (if p_BuildSchedule p then encodeScheduleRegion (p_URLs p) codec else [])
    (encodeSeensetRegion (p_SeenFilter p) (Z.of_nat (length (p_URLs p))) codec)
    (encodeBlobRegion (p_Strings p) codec).

(** The absolute offsets; [pos] after each region (lengths of slices in
    memory, so the sums stay far below 2^64). *)
Definition urlOff : Z := Z.of_nat HeaderSize.
Definition hostOff (l : layout) : Z := urlOff + Z.of_nat (length (l_url l)).
Definition schedOff (l : layout) : Z := hostOff l + Z.of_nat (length (l_host l)).
Definition seenOff (l : layout) : Z := schedOff l + Z.of_nat (length (l_sched l)).
Definition strOff (l : layout) : Z := seenOff l + Z.of_nat (length (l_seen l)).
Definition footerOff (l : layout) : Z := strOff l + Z.of_nat (length (l_blob l)).

Definition region_entry (rid off : Z) (region : list Z) : regionDesc :=
  mkRegion rid off (Z.of_nat (length region)) (crc32c region) 0.

Definition optional_region (rid off : Z) (region : list Z) : list regionDesc :=
  if is_empty region then [] else [region_entry rid off region].

Definition regions_of (l : layout) : list regionDesc :=
  [region_entry RegionURLTable urlOff (l_url l); region_entry RegionHostTable (hostOff l) (l_host l)]
  ++ optional_region RegionSchedule (schedOff l) (l_sched l)
  ++ optional_region RegionSeenset (seenOff l) (l_seen l)
  ++ optional_region RegionStringBlob (strOff l) (l_blob l).

Definition stats_of (p : Partition) (l : layout) : statsBlock :=
  let '(dueMin, dueMax) := dueRange (p_URLs p) in
  mkStats (Z.of_nat (length (p_URLs p))) (Z.of_nat (length (p_Hosts p)))
    (p_HostKeyLo p) (p_HostKeyHi p) 0 dueMin dueMax
    (u64 (dirTotals (l_urlDir l) + dirTotals (l_hostDir l)))
    (u64 (uncompTotals (l_urlDir l) + uncompTotals (l_hostDir l)))
    (if is_empty (p_URLs p) then 0
     else f32_quot (footerOff l) (Z.of_nat (length (p_URLs p)))).

Definition footer_of (p : Partition) (l : layout) (pairs : list kvPair) : footerData :=
  mkFooter (regions_of l) (l_urlDir l) (l_hostDir l) (stats_of p l) pairs.

Definition header_of (p : Partition) (l : layout) : Header :=
  let flags := FlagSorted in
  let flags := if is_empty (l_sched l) then flags else Z.lor flags FlagHasSchedule in
  let flags := if is_empty (l_seen l) then flags else Z.lor flags FlagHasSeenset in
  let flags := if is_empty (p_Strings p) then flags else Z.lor flags FlagHasBlob in
  mkHeader VersionMajor VersionMinor (p_ID p) flags ChecksumCRC32C (p_DefaultCodec p)
    (p_HostKeyLo p) (p_HostKeyHi p) (Z.of_nat (length (p_URLs p)))
    (Z.of_nat (length (p_Hosts p))) (footerOff l) (p_CreatedHours p).

Definition trailer (footerBytes : list Z) : list Z :=
  w_bytes (w_u32 (w_u32 [] (u32 (Z.of_nat (length footerBytes)))) (crc32c footerBytes)) Magic.

(** The concatenation at the end of [Encode]. *)
Definition file_bytes (p : Partition) (pairs : list kvPair) : list Z :=
  let l := lay_out p in
  let footerBytes := encodeFooter (footer_of p l pairs) in
  header_Encode (header_of p l) ++ l_url l ++ l_host l ++ l_sched l ++ l_seen l ++
  l_blob l ++ footerBytes ++ trailer footerBytes.

(** [Encode] with the metadata iterated in the order [pairs]. *)
Definition Encode_in (pairs : list kvPair) (p : Partition) : res (list Z) :=
  _ ← ensure (sortedURLs (p_URLs p)) ErrNotSorted;
  _ ← ensure (sortedHosts (p_Hosts p)) ErrNotSorted;
  mret (file_bytes p pairs).

Definition Encode (p : Partition) : res (list Z) := Encode_in (metaPairs (p_Meta p)) p.

(** ** Decode *)

(** The bounds test is in wrapping uint64 arithmetic. *)
Definition region_valid (b : list Z) (reg : regionDesc) : res unit :=
  let e := u64 (rg_offset reg + rg_length reg) in
  let n := Z.of_nat (length b) in
  _ ← ensure (negb ((n <? rg_offset reg) || (n <? e) || (e <? rg_offset reg))) ErrCorrupt;
  ensure (crc32c (slice b (Z.to_nat (rg_offset reg)) (Z.to_nat e)) =? rg_crc reg) ErrChecksum.

Fixpoint verifyRegions (b : list Z) (regions : list regionDesc) : res unit :=
  match regions with
  | [] => Ok tt
  | reg :: regions => _ ← region_valid b reg; verifyRegions b regions
  end.

Definition region_slice (b : list Z) (reg : regionDesc) : list Z :=
  slice b (Z.to_nat (rg_offset reg)) (Z.to_nat (rg_offset reg + rg_length reg)).

(** The open shared by [Decode] and [NewReader]: header, trailer, footer. *)
Definition open_file (b : list Z) : res (Header * footerData) :=
  _ ← ensure (HeaderSize + trailerSize <=? length b)%nat ErrShortFile;
  h ← DecodeHeader (take HeaderSize b);
  _ ← ensure (bool_decide (drop (length b - 4) b = Magic)) ErrBadMagic;
  let tail := drop (length b - trailerSize) b in
  let footerLen := le_at tail 0 4 in
  let footerCRC := le_at tail 4 4 in
  let footerStart := Z.of_nat (length b) - Z.of_nat trailerSize - footerLen in
  _ ← ensure (negb ((footerStart <? Z.of_nat HeaderSize) ||
                    negb (footerStart =? i64 (hd_FooterOffset h)))) ErrCorrupt;
  let footerBytes := slice b (Z.to_nat footerStart) (length b - trailerSize) in
  _ ← ensure (crc32c footerBytes =? footerCRC) ErrChecksum;
  f ← decodeFooter footerBytes;
  mret (h, f).

Definition opt_region {A} (f : footerData) (rid : Z) (d : A) (k : regionDesc -> res A) : res A :=
  match findRegion (f_regions f) rid with Some reg => k reg | None => Ok d end.

Definition Decode (b : list Z) : res Partition :=
  '(h, f) ← open_file b;
  _ ← verifyRegions b (f_regions f);
  urlCols ← decodeColumnRegion b (f_urlDir f);
  hostCols ← decodeColumnRegion b (f_hostDir f);
  urls ← urlRecordsFromColumns urlCols (i64 (hd_URLCount h));
  hosts ← hostRecordsFromColumns hostCols (i64 (hd_HostCount h));
  let sched := bool_decide (is_Some (findRegion (f_regions f) RegionSchedule)) in
  seen ← opt_region f RegionSeenset [] (fun reg => decodeSeensetRegion (region_slice b reg));
  strs ← opt_region f RegionStringBlob [] (fun reg => decodeBlobRegion (region_slice b reg));
  _ ← ensure (sortedURLs urls) ErrNotSorted;
  mret (mkPartition (hd_PartitionID h) (hd_HostKeyLo h) (hd_HostKeyHi h) (hd_CreatedHours h)
          (hd_DefaultCodec h) urls hosts strs seen sched 0 (metaMap (f_meta f))).
End codec.

(** ** Well-formed directories *)

Lemma max_list_fits l n : 0 <= n -> Forall (fits n) l -> fits n (list_max 0 l).
Proof.
  intros Hn Hl. destruct (list_max_spec 0 l) as (_ & _ & [-> | Hin]).
  - split; [done | by apply Z.pow_pos_nonneg].
  - rewrite Forall_forall in Hl. by apply Hl.
Qed.

Lemma zoneMap_fits c mn mx z :
  col_ok c -> zoneMap c = (mn, mx, z) -> fits 64 mn /\ fits 64 mx.
Proof.
  intros Hc. unfold zoneMap.
  destruct (decide _); [|intros [= <- <- _]; by vm_compute].
  destruct (_ =? 0)%nat; [intros [= <- <- _]; by vm_compute |].
  assert (Hv : Forall (fits 64) ((fun i => readUintWidth (c_data c) i (c_width c)) <$> seq 0 (numValues c))).
  { apply Forall_fmap, Forall_forall. intros i _. cbn.
    destruct (width_ok (c_width c)) eqn:Hw.
    - apply (width_bits_64 _ _ Hw). apply readUintWidth_fits, Hc.
    - unfold readUintWidth. rewrite Hw. by vm_compute. }
  intros [= <- <- _]. split; [|by apply max_list_fits].
  apply list_min_in; [by vm_compute | done].
Qed.

Section dirs.
Context `{BlockCodecLaws}.

Lemma buildColumnPage_enc c fr : col_ok c -> fits 8 (buildColumnPage c fr).2.
Proof.
  intros Hc. assert (He : fits 8 (c_enc c)) by (apply known_enc_fits, Hc).
  unfold buildColumnPage. destruct (_ || _); [by vm_compute |].
  destruct (encodeValues _ _ _) as [payload base]. destruct (_ <? _)%nat; [done | by vm_compute].
Qed.

Lemma column_pages_wf subs fr :
  Forall col_ok subs -> (fr + foldr (fun sc a => numValues sc + a) 0 subs <= max_rows)%nat ->
  Z.of_nat (length (mjoin (fst <$> column_pages subs fr))) < 2 ^ 62 ->
  Forall (fun p : list Z * pageEntry => page_entry_wf p.2) (column_pages subs fr).
Proof.
  intros Hs. revert fr. induction Hs as [|sc subs Hsc _ IH]; intros fr Hb Hlen; [constructor |].
  cbn [column_pages] in *. cbn [foldr] in Hb.
  pose proof (buildColumnPage_enc sc (u32 (Z.of_nat fr)) Hsc) as He.
  destruct (buildColumnPage _ _) as [page enc]. destruct (zoneMap sc) as [[mn mx] z] eqn:Ez.
  destruct (zoneMap_fits _ _ _ _ Hsc Ez) as [Hmn Hmx]. pose proof max_rows_val.
  match type of Hlen with context [mjoin (fst <$> ?x :: ?t)] =>
    change (mjoin (fst <$> x :: t)) with (page ++ mjoin (fst <$> t)) in Hlen end.
  rewrite length_app in Hlen. constructor.
  - unfold page_entry_wf. cbn [fst snd pe_firstRow pe_numValues pe_byteLen pe_encoding pe_zoneMin pe_zoneMax] in *.
    assert (Hfr : fits 64 (Z.of_nat fr)) by (unfold fits; lia).
    assert (Hnv : fits 64 (Z.of_nat (numValues sc))) by (unfold fits; lia).
    assert (Hbl : fits 64 (Z.of_nat (length page))) by (unfold fits; lia).
    exact (conj Hfr (conj Hnv (conj Hbl (conj He (conj Hmn Hmx))))).
  - apply IH; lia.
Qed.

Lemma split_loop_length fuel c n m start : (length (split_loop fuel c n m start) <= fuel)%nat.
Proof.
  revert start. induction fuel as [|fuel IH]; intros start; cbn [split_loop]; [done |].
  destruct (_ <? _)%nat; cbn [length]; [specialize (IH (start + m)%nat); lia | lia].
Qed.

Lemma splitColumn_length c mr :
  col_ok c -> (1 <= length (splitColumn c mr))%nat /\ Z.of_nat (length (splitColumn c mr)) < 2 ^ 31.
Proof.
  intros Hc. pose proof (ok_rows c Hc). pose proof max_rows_val.
  unfold splitColumn. destruct ((mr <=? 0) || _) eqn:E; [cbn; lia |].
  bool_prop. pose proof (split_loop_length (numValues c) c (numValues c) (Z.to_nat mr) 0). split; [|lia].
  destruct (numValues c) as [|n] eqn:En; [lia |]. cbn [split_loop].
  rewrite (proj2 (Nat.ltb_lt 0 _)) by lia. cbn [length]. lia.
Qed.

Lemma encode_column_dir_wf c start mr :
  col_ok c -> 0 <= c_id c < 2 ^ 31 -> fits 8 (c_codec c) -> 0 <= start < 2 ^ 62 ->
  Z.of_nat (length (encode_column c start mr).1) < 2 ^ 62 ->
  column_dir_wf (encode_column c start mr).2.
Proof.
  intros Hc Hid Hcodec Hstart Hlen. unfold encode_column in *.
  destruct (splitColumn_good c mr Hc) as (_ & Hn & Hsubs).
  destruct (splitColumn_length c mr Hc) as [Hl1 Hl2].
  destruct (zoneMap c) as [[mn mx] z] eqn:Ez. destruct (zoneMap_fits _ _ _ _ Hc Ez) as [Hmn Hmx].
  cbn [fst snd] in *. destruct (raw_bounds c Hc) as [Hraw _].
  assert (Hp : Forall (fun p : list Z * pageEntry => page_entry_wf p.2) (column_pages (splitColumn c mr) 0)).
  { apply column_pages_wf; [| | done].
    - eapply Forall_impl; [exact Hsubs |]. by intros sc (? & _).
    - rewrite Hn. apply Hc. }
  pose proof (column_pages_length (splitColumn c mr) 0) as Hpl.
  set (subs := splitColumn c mr) in *. set (pages := column_pages subs 0) in *.
  pose proof (numValues_fits c Hc) as Hnf. pose proof (ok_width c Hc) as Hw.
  unfold column_dir_wf. cbn [cd_columnID cd_firstPageOffset cd_totalCompressed
    cd_totalUncompressed cd_numValues cd_numPages cd_width cd_encoding cd_codec cd_columnCRC32C
    cd_zoneMin cd_zoneMax cd_hasZone cd_pages].
  assert (Hf : forall (l : list (list Z * pageEntry)) a, fits 64 a -> fits 64
    (foldl (fun acc p => u64 (acc + Z.of_nat (length p.1) - Z.of_nat PageHeaderSize)) a l)).
  { induction l as [|p l IH]; intros a Ha; [done |]. cbn [foldl]. apply IH, u64_fits. }
  split; [exact Hid |]. split; [unfold fits; lia |]. split; [apply Hf; by vm_compute |].
  split; [unfold fits; lia |]. split; [eapply fits_weaken; [|exact Hnf]; lia |].
  split; [unfold fits; lia |]. split; [apply u8_fits |]. split.
  { destruct pages as [|[page pe] pages']; [by vm_compute |]. exact (proj1 (proj2 (proj2 (proj2 (Forall_inv Hp))))). }
  split; [exact Hcodec |]. split; [apply crc32c_fits |]. split; [exact Hmn |]. split; [exact Hmx |].
  split.
  - destruct (1 <? length subs)%nat; [by apply Forall_fmap | constructor].
  - destruct (Z.ltb_spec 1 (Z.of_nat (length subs))), (Nat.ltb_spec 1 (length subs));
      [by rewrite length_fmap, Hpl | lia | lia | reflexivity].
Qed.

Lemma region_of_dir_wf cols start mr :
  Forall (fun c => col_ok c /\ 0 <= c_id c < 2 ^ 31 /\ fits 8 (c_codec c)) cols -> 0 <= start ->
  start + Z.of_nat (length (mjoin (fst <$> region_of cols start mr))) < 2 ^ 62 ->
  Forall column_dir_wf (snd <$> region_of cols start mr).
Proof.
  intros Hc. revert start. induction Hc as [|c cols (Hc & Hid & Hcd) _ IH]; intros start Hs Hlen;
    [constructor |].
  cbn [region_of] in *. set (e := encode_column c start mr) in *.
  set (r := region_of cols _ mr) in *.
  change (mjoin (fst <$> e :: r)) with (e.1 ++ mjoin (fst <$> r)) in Hlen. rewrite length_app in Hlen.
  constructor; [apply encode_column_dir_wf; try done; fold e; lia | apply IH; fold r; lia].
Qed.

Lemma url_dir_wf recs codec start mr :
  (length recs <= max_rows)%nat -> fits 8 codec -> 0 <= start ->
  start + Z.of_nat (length (mjoin (fst <$> region_of (urlColumns recs codec) start mr))) < 2 ^ 62 ->
  Forall column_dir_wf (snd <$> region_of (urlColumns recs codec) start mr).
Proof.
  intros Hn Hcd. apply region_of_dir_wf. pose proof (urlColumns_ok recs codec Hn) as Hok.
  rewrite Forall_forall in Hok. apply Forall_forall. intros c Hin. split; [by apply Hok |].
  revert Hin. clear Hok. unfold urlColumns.
  do 23 (intros Hin; apply elem_of_cons in Hin as [-> | Hin]; [split; [by vm_compute | exact Hcd] | revert Hin]).
  by intros ?%elem_of_nil.
Qed.

Lemma host_dir_wf recs codec start mr :
  Forall host_wf recs -> (length recs <= max_rows)%nat -> fits 8 codec -> 0 <= start ->
  start + Z.of_nat (length (mjoin (fst <$> region_of (hostColumns recs codec) start mr))) < 2 ^ 62 ->
  Forall column_dir_wf (snd <$> region_of (hostColumns recs codec) start mr).
Proof.
  intros Hwf Hn Hcd. apply region_of_dir_wf. pose proof (hostColumns_ok recs codec Hwf Hn) as Hok.
  rewrite Forall_forall in Hok. apply Forall_forall. intros c Hin. split; [by apply Hok |].
  revert Hin. clear Hok. unfold hostColumns.
  do 20 (intros Hin; apply elem_of_cons in Hin as [-> | Hin]; [split; [by vm_compute | exact Hcd] | revert Hin]).
  by intros ?%elem_of_nil.
Qed.
End dirs.

(** ** The round trip *)

Record partition_wf (p : Partition) : Prop := {
  pw_id : fits 32 (p_ID p);
  pw_lo : fits 64 (p_HostKeyLo p);
  pw_hi : fits 64 (p_HostKeyHi p);
  pw_created : fits 32 (p_CreatedHours p);
  pw_codec : fits 8 (p_DefaultCodec p);
  pw_urls : Forall url_wf (p_URLs p);
  pw_hosts : Forall host_wf (p_Hosts p);
  pw_nurls : (length (p_URLs p) <= max_rows)%nat;
  pw_nhosts : (length (p_Hosts p) <= max_rows)%nat;
  pw_strings : Z.of_nat (length (p_Strings p)) <= 2 ^ 30;
  pw_seen : Z.of_nat (length (p_SeenFilter p)) <= 2 ^ 30
}.

Lemma trailer_length f : length (trailer f) = trailerSize.
Proof. unfold trailer, w_bytes, w_u32. by rewrite !length_app, !le_bytes_length. Qed.

Lemma is_empty_length {A} (l : list A) : is_empty l = true <-> length l = 0%nat.
Proof. by destruct l. Qed.

Lemma trailer_eq fb :
  trailer fb = le_bytes 4 (u32 (Z.of_nat (length fb))) ++ le_bytes 4 (crc32c fb) ++ Magic.
Proof. unfold trailer, w_bytes, w_u32. by rewrite app_nil_l, <- !app_assoc. Qed.

Lemma trailer_len fb : fits 32 (Z.of_nat (length fb)) -> le_at (trailer fb) 0 4 = Z.of_nat (length fb).
Proof. intros H. rewrite trailer_eq, u32_small by done. by apply le_at_here. Qed.

Lemma trailer_crc fb : le_at (trailer fb) 4 4 = crc32c fb.
Proof.
  rewrite trailer_eq, le_at_skip by (rewrite le_bytes_length; lia). rewrite le_bytes_length.
  apply le_at_here, crc32c_fits.
Qed.

Lemma trailer_magic fb : drop 8 (trailer fb) = Magic.
Proof.
  rewrite trailer_eq, app_assoc. apply drop_app_exact. by rewrite length_app, !le_bytes_length.
Qed.

(** The checks of the open, one hypothesis each. *)
Lemma open_file_spec b h fb f :
  (76 <= length b)%nat -> DecodeHeader (take 64 b) = Ok h -> drop (length b - 4) b = Magic ->
  le_at (drop (length b - 12) b) 0 4 = Z.of_nat (length fb) ->
  le_at (drop (length b - 12) b) 4 4 = crc32c fb ->
  64 <= Z.of_nat (length b) - 12 - Z.of_nat (length fb) /\
  Z.of_nat (length b) - 12 - Z.of_nat (length fb) = i64 (hd_FooterOffset h) ->
  slice b (length b - 12 - length fb) (length b - 12) = fb ->
  decodeFooter fb = Ok f -> open_file b = Ok (h, f).
Proof.
  intros Hl Hh Hm H0 H4 [Hge Hoff] Hs Hf. unfold open_file, HeaderSize, trailerSize.
  rewrite (proj2 (Nat.leb_le _ _)) by lia. cbn [ensure mbind res_bind]. rewrite Hh.
  cbn [mbind res_bind]. rewrite Hm, bool_decide_eq_true_2 by reflexivity.
  cbn [ensure mbind res_bind]. rewrite H0, H4, <- Hoff, Z.eqb_refl.
  rewrite (proj2 (Z.ltb_ge _ _)) by lia. cbn [orb negb ensure mbind res_bind].
  replace (Z.to_nat (Z.of_nat (length b) - Z.of_nat 12 - Z.of_nat (length fb)))
    with (length b - 12 - length fb)%nat by lia.
  rewrite Hs, Z.eqb_refl. cbn [mbind res_bind]. by rewrite Hf.
Qed.

Lemma open_file_layout h mid fb f :
  header_wf h -> hd_VersionMajor h = VersionMajor ->
  hd_FooterOffset h = 64 + Z.of_nat (length mid) ->
  Z.of_nat (length (header_Encode h ++ mid ++ fb ++ trailer fb)) < 2 ^ 32 ->
  decodeFooter fb = Ok f -> open_file (header_Encode h ++ mid ++ fb ++ trailer fb) = Ok (h, f).
Proof.
  intros Hwf Hv Hoff Hlen Hf.
  pose proof (header_Encode_length h) as Hh. unfold HeaderSize in Hh.
  pose proof (trailer_length fb) as Ht. unfold trailerSize in Ht.
  set (b := header_Encode h ++ mid ++ fb ++ trailer fb) in *.
  assert (E : length b = (64 + length mid + length fb + 12)%nat)
    by (unfold b; rewrite !length_app; lia).
  assert (Hft : Z.of_nat (length fb) < 2 ^ 32) by lia.
  assert (T1 : take 64 b = header_Encode h ++ [])
    by (rewrite app_nil_r; by apply take_app_exact).
  assert (Htl : drop (length b - 12) b = trailer fb).
  { unfold b at 2. rewrite !app_assoc. apply drop_app_exact. rewrite !length_app. lia. }
  assert (Htm : drop (length b - 4) b = Magic).
  { replace (length b - 4)%nat with ((length b - 12) + 8)%nat by lia.
    by rewrite <- drop_drop, Htl, trailer_magic. }
  assert (Hsl : slice b (64 + length mid) (length b - 12) = fb).
  { replace (length b - 12)%nat with (64 + length mid + length fb)%nat by lia.
    unfold b. rewrite <- Hh, <- length_app, app_assoc. apply slice_app_exact. }
  apply (open_file_spec b h fb f).
  - lia.
  - by rewrite T1, DecodeHeader_Encode.
  - exact Htm.
  - rewrite Htl. apply trailer_len. unfold fits. lia.
  - rewrite Htl. apply trailer_crc.
  - replace (Z.of_nat (length b) - 12 - Z.of_nat (length fb)) with (64 + Z.of_nat (length mid)) by lia.
    rewrite Hoff, i64_small by lia. lia.
  - replace (length b - 12 - length fb)%nat with (64 + length mid)%nat by lia. exact Hsl.
  - exact Hf.
Qed.

(** Pages around opaque bytes. *)
Lemma opaque_page `{BlockCodecLaws} kind codec n payload :
  fits 8 kind -> fits 32 n -> Z.of_nat (length payload) <= 2 ^ 30 ->
  exists h, readPage (writePage kind EncRaw codec n 0 0 payload)
    = Ok (h, payload, length (writePage kind EncRaw codec n 0 0 payload)) /\ ph_kind h = kind.
Proof.
  intros Hk Hn Hl. pose proof (compress_length codec payload) as Hc.
  pose proof (readPage_writePage kind EncRaw codec n 0 0 payload [] Hk ltac:(fits_const) Hn
    ltac:(fits_const) ltac:(fits_const) ltac:(lia) ltac:(lia)) as R.
  cbv zeta in R. rewrite app_nil_r in R. eexists. split; [exact R | reflexivity].
Qed.

Lemma decode_filter_page `{BlockCodecLaws} codec n payload :
  Z.of_nat (length payload) <= 2 ^ 30 ->
  decodeSeensetRegion (writePage PageFilter EncRaw codec (u32 n) 0 0 payload) = Ok payload.
Proof.
  intros Hl. unfold decodeSeensetRegion.
  destruct (opaque_page PageFilter codec (u32 n) payload ltac:(fits_const) (u32_fits n) Hl) as (h & -> & Hk).
  cbn [mbind res_bind]. rewrite Hk. reflexivity.
Qed.

Lemma read_blob_page `{BlockCodecLaws} codec n payload :
  Z.of_nat (length payload) <= 2 ^ 30 ->
  ('(_, arena, _) ← readPage (writePage PageBlob EncRaw codec (u32 n) 0 0 payload); mret arena)
  = Ok payload.
Proof.
  intros Hl.
  destruct (opaque_page PageBlob codec (u32 n) payload ltac:(fits_const) (u32_fits n) Hl) as (h & -> & _).
  reflexivity.
Qed.

Lemma decodeBlob_encode `{BlockCodecLaws} arena codec :
  Z.of_nat (length arena) <= 2 ^ 30 -> decodeBlobRegion (encodeBlobRegion arena codec) = Ok arena.
Proof.
  intros Hl. unfold decodeBlobRegion, encodeBlobRegion. destruct (is_empty arena) eqn:E.
  - apply is_empty_length in E. by destruct arena.
  - destruct (is_empty (writePage _ _ _ _ _ _ _)) eqn:Ee; [|by apply read_blob_page].
    apply is_empty_length in Ee.
    pose proof (writePage_length PageBlob EncRaw codec (u32 (Z.of_nat (length arena))) 0 0 arena). lia.
Qed.

(** The metadata comes back as the map it was. *)
Lemma foldl_insert_map (l : list kvPair) (m0 : gmap (list Z) (list Z)) :
  NoDup (fst <$> l) ->
  foldl (fun m (kv : kvPair) => <[kv.1 := kv.2]> m) m0 l = list_to_map l ∪ m0.
Proof.
  revert m0. induction l as [|[k v] l IH]; intros m0 Hnd.
  - cbn. by rewrite (left_id_L ∅ (∪)).
  - cbn [foldl fst snd]. cbn in Hnd. apply NoDup_cons in Hnd as [Hk Hnd]. rewrite IH by done.
    rewrite list_to_map_cons, <- insert_union_r, <- insert_union_l; [done |].
    by apply not_elem_of_list_to_map_1.
Qed.

Lemma metaMap_sorted (m : gmap (list Z) (list Z)) pairs :
  pairs ≡ₚ map_to_list m -> metaMap (sort_meta pairs) = m.
Proof.
  intros Hp. unfold metaMap, sort_meta.
  assert (Hnd : NoDup (fst <$> merge_sort kv_le pairs))
    by (rewrite merge_sort_Permutation, Hp; apply NoDup_fst_map_to_list).
  rewrite foldl_insert_map by done. rewrite (right_id_L ∅ (∪)).
  rewrite <- (list_to_map_to_list m). apply list_to_map_proper; [done |].
  by rewrite merge_sort_Permutation.
Qed.

Section roundtrip.
Context `{BlockCodecLaws} (p : Partition) (pairs : list kvPair) (Hp : partition_wf p).
Let l := lay_out p.
Let fb := encodeFooter (footer_of p l pairs).
Let hdr := header_Encode (header_of p l).
Let b := file_bytes p pairs.
Context (Hlen : Z.of_nat (length b) < 2 ^ 32).

Lemma b_eq : b = hdr ++ l_url l ++ l_host l ++ l_sched l ++ l_seen l ++ l_blob l ++ fb ++ trailer fb.
Proof. reflexivity. Qed.

Lemma file_length :
  length b = (64 + length (l_url l) + length (l_host l) + length (l_sched l) + length (l_seen l)
              + length (l_blob l) + length fb + 12)%nat.
Proof.
  rewrite b_eq. unfold hdr. rewrite !length_app, header_Encode_length, trailer_length.
  unfold HeaderSize, trailerSize. lia.
Qed.

Lemma footerOff_val :
  footerOff l = Z.of_nat (64 + length (l_url l) + length (l_host l) + length (l_sched l)
                          + length (l_seen l) + length (l_blob l)).
Proof. unfold footerOff, strOff, seenOff, schedOff, hostOff, urlOff, HeaderSize. lia. Qed.

Lemma header_of_wf : header_wf (header_of p l).
Proof.
  pose proof file_length as E. pose proof footerOff_val as F. pose proof max_rows_val as M.
  pose proof (pw_nurls p Hp). pose proof (pw_nhosts p Hp).
  unfold header_wf, header_of. cbn [hd_VersionMajor hd_VersionMinor hd_PartitionID hd_Flags
    hd_ChecksumAlgo hd_DefaultCodec hd_HostKeyLo hd_HostKeyHi hd_URLCount hd_HostCount
    hd_FooterOffset hd_CreatedHours].
  split; [fits_const |]. split; [fits_const |]. split; [apply Hp |]. split.
  { destruct (is_empty (l_sched l)), (is_empty (l_seen l)), (is_empty (p_Strings p)); fits_const. }
  split; [fits_const |]. split; [apply Hp |]. split; [apply Hp |]. split; [apply Hp |].
  split; [unfold fits; lia |]. split; [unfold fits; lia |]. split; [unfold fits; lia |]. apply Hp.
Qed.

(** The two tables. *)
Let ucols := urlColumns (p_URLs p) (p_DefaultCodec p).
Let hcols := hostColumns (p_Hosts p) (p_DefaultCodec p).

Lemma lay_out_url_region :
  l_url l = (encodeColumnRegion ucols 64 (p_MaxPageRows p)).1 /\
  l_urlDir l = (encodeColumnRegion ucols 64 (p_MaxPageRows p)).2.
Proof.
  split; reflexivity.
Qed.

Lemma lay_out_host_region :
  l_host l = (encodeColumnRegion hcols (hostOff l) (p_MaxPageRows p)).1 /\
  l_hostDir l = (encodeColumnRegion hcols (hostOff l) (p_MaxPageRows p)).2.
Proof.
  split; reflexivity.
Qed.

Lemma lay_out_url :
  l_url l = mjoin (fst <$> region_of ucols 64 (p_MaxPageRows p)) /\
  l_urlDir l = snd <$> region_of ucols 64 (p_MaxPageRows p).
Proof.
  pose proof file_length as E. destruct lay_out_url_region as [E1 E2].
  rewrite E1 in E |- *. rewrite E2.
  rewrite (encodeColumnRegion_eq ucols 64) by lia. split; reflexivity.
Qed.

Lemma lay_out_host :
  l_host l = mjoin (fst <$> region_of hcols (hostOff l) (p_MaxPageRows p)) /\
  l_hostDir l = snd <$> region_of hcols (hostOff l) (p_MaxPageRows p).
Proof.
  pose proof file_length as E. destruct lay_out_host_region as [E1 E2].
  rewrite E1 in E |- *. rewrite E2.
  assert (Hh : hostOff l = 64 + Z.of_nat (length (l_url l))) by reflexivity.
  rewrite (encodeColumnRegion_eq hcols (hostOff l)) by lia. split; reflexivity.
Qed.

(** Where each part sits. *)
Lemma slice_at (pre reg post : list Z) off :
  b = pre ++ reg ++ post -> off = Z.of_nat (length pre) ->
  slice b (Z.to_nat off) (Z.to_nat (off + Z.of_nat (length reg))) = reg /\
  off + Z.of_nat (length reg) <= Z.of_nat (length b).
Proof.
  intros E ->. rewrite Nat2Z.id. replace (Z.to_nat _) with (length pre + length reg)%nat by lia.
  rewrite E, !length_app. split; [apply slice_app_exact | lia].
Qed.

Lemma region_valid_ok (pre reg post : list Z) rid off :
  b = pre ++ reg ++ post -> off = Z.of_nat (length pre) ->
  region_valid b (region_entry rid off reg) = Ok tt.
Proof.
  intros E Hoff. destruct (slice_at pre reg post off E Hoff) as [Hs Hle].
  unfold region_valid, region_entry. cbn [rg_offset rg_length rg_crc].
  rewrite u64_small by (unfold fits; lia). bool_lia. cbn [orb negb ensure mbind res_bind].
  by rewrite Hs, Z.eqb_refl.
Qed.

Lemma at_url : b = hdr ++ l_url l ++ (l_host l ++ l_sched l ++ l_seen l ++ l_blob l ++ fb ++ trailer fb).
Proof. reflexivity. Qed.
Lemma at_host : b = (hdr ++ l_url l) ++ l_host l ++ (l_sched l ++ l_seen l ++ l_blob l ++ fb ++ trailer fb).
Proof. rewrite b_eq. by rewrite <- !app_assoc. Qed.
Lemma at_sched : b = (hdr ++ l_url l ++ l_host l) ++ l_sched l ++ (l_seen l ++ l_blob l ++ fb ++ trailer fb).
Proof. rewrite b_eq. by rewrite <- !app_assoc. Qed.
Lemma at_seen : b = (hdr ++ l_url l ++ l_host l ++ l_sched l) ++ l_seen l ++ (l_blob l ++ fb ++ trailer fb).
Proof. rewrite b_eq. by rewrite <- !app_assoc. Qed.
Lemma at_blob : b = (hdr ++ l_url l ++ l_host l ++ l_sched l ++ l_seen l) ++ l_blob l ++ (fb ++ trailer fb).
Proof. rewrite b_eq. by rewrite <- !app_assoc. Qed.
Lemma at_footer : b = (hdr ++ l_url l ++ l_host l ++ l_sched l ++ l_seen l ++ l_blob l) ++ fb ++ trailer fb.
Proof. rewrite b_eq. by rewrite <- !app_assoc. Qed.

Lemma hdr_length : length hdr = 64%nat.
Proof. unfold hdr. by rewrite header_Encode_length. Qed.

Lemma off_url : urlOff = Z.of_nat (length hdr).
Proof. by rewrite hdr_length. Qed.
Lemma off_host : hostOff l = Z.of_nat (length (hdr ++ l_url l)).
Proof. rewrite length_app, hdr_length. unfold hostOff, urlOff, HeaderSize. lia. Qed.
Lemma off_sched : schedOff l = Z.of_nat (length (hdr ++ l_url l ++ l_host l)).
Proof. rewrite !length_app, hdr_length. unfold schedOff, hostOff, urlOff, HeaderSize. lia. Qed.
Lemma off_seen : seenOff l = Z.of_nat (length (hdr ++ l_url l ++ l_host l ++ l_sched l)).
Proof. rewrite !length_app, hdr_length. unfold seenOff, schedOff, hostOff, urlOff, HeaderSize. lia. Qed.
Lemma off_blob : strOff l = Z.of_nat (length (hdr ++ l_url l ++ l_host l ++ l_sched l ++ l_seen l)).
Proof. rewrite !length_app, hdr_length. unfold strOff, seenOff, schedOff, hostOff, urlOff, HeaderSize. lia. Qed.

Lemma verifyRegions_app b' r1 r2 :
  verifyRegions b' r1 = Ok tt -> verifyRegions b' r2 = Ok tt -> verifyRegions b' (r1 ++ r2) = Ok tt.
Proof.
  intros H1 H2. induction r1 as [|r r1 IH]; [exact H2 |]. cbn [app verifyRegions] in *.
  destruct (region_valid b' r) as [[]|]; [|done]. by apply IH.
Qed.

Lemma verify_optional rid off pre reg post :
  b = pre ++ reg ++ post -> off = Z.of_nat (length pre) ->
  verifyRegions b (optional_region rid off reg) = Ok tt.
Proof.
  intros E Hoff. unfold optional_region. destruct (is_empty reg); [reflexivity |].
  cbn [verifyRegions]. by rewrite (region_valid_ok pre reg post).
Qed.

Lemma verify_ok : verifyRegions b (regions_of l) = Ok tt.
Proof.
  unfold regions_of. apply verifyRegions_app; [|apply verifyRegions_app; [|apply verifyRegions_app]].
  - pose proof (region_valid_ok hdr (l_url l) _ RegionURLTable urlOff at_url off_url) as V1.
    pose proof (region_valid_ok (hdr ++ l_url l) (l_host l) _ RegionHostTable (hostOff l) at_host off_host) as V2.
    cbn [verifyRegions]. rewrite V1. cbn [mbind res_bind]. rewrite V2. reflexivity.
  - eapply verify_optional; [apply at_sched | apply off_sched].
  - eapply verify_optional; [apply at_seen | apply off_seen].
  - eapply verify_optional; [apply at_blob | apply off_blob].
Qed.

Lemma regions_wf : Forall region_wf (regions_of l).
Proof.
  pose proof file_length as E.
  assert (Hreg : forall rid off reg, fits 8 rid -> 0 <= off -> off + Z.of_nat (length reg) <= Z.of_nat (length b) ->
    region_wf (region_entry rid off reg)).
  { intros rid off reg Hr Ho Hle. unfold region_wf, region_entry. cbn [rg_id rg_offset rg_length rg_crc rg_flags].
    split; [exact Hr |]. split; [unfold fits; lia |]. split; [unfold fits; lia |].
    split; [apply crc32c_fits | fits_const]. }
  assert (Hopt : forall rid off reg, fits 8 rid -> 0 <= off -> off + Z.of_nat (length reg) <= Z.of_nat (length b) ->
    Forall region_wf (optional_region rid off reg)).
  { intros. unfold optional_region. destruct (is_empty reg); [constructor |].
    apply Forall_singleton. by apply Hreg. }
  pose proof (slice_at _ _ _ _ at_url off_url) as [_ H1].
  pose proof (slice_at _ _ _ _ at_host off_host) as [_ H2].
  pose proof (slice_at _ _ _ _ at_sched off_sched) as [_ H3].
  pose proof (slice_at _ _ _ _ at_seen off_seen) as [_ H4].
  pose proof (slice_at _ _ _ _ at_blob off_blob) as [_ H5].
  pose proof off_url as O1. pose proof off_host as O2. pose proof off_sched as O3.
  pose proof off_seen as O4. pose proof off_blob as O5.
  unfold regions_of. repeat apply Forall_app_2.
  - repeat (apply Forall_cons; split; [apply Hreg; [fits_const | lia | assumption] |]). by apply Forall_nil.
  - apply Hopt; [fits_const | lia | assumption].
  - apply Hopt; [fits_const | lia | assumption].
  - apply Hopt; [fits_const | lia | assumption].
Qed.

Lemma footer_of_wf : footer_wf (footer_of p l pairs).
Proof.
  pose proof file_length as E. destruct lay_out_url as [U1 U2]. destruct lay_out_host as [V1 V2].
  unfold footer_wf, footer_of. cbn [f_regions f_urlDir f_hostDir f_stats].
  split; [apply regions_wf |]. split.
  { rewrite U2. apply url_dir_wf; [apply Hp | apply Hp | lia | fold ucols; rewrite <- U1; lia]. }
  assert (Hh : hostOff l = 64 + Z.of_nat (length (l_url l))) by reflexivity.
  split.
  { rewrite V2. apply host_dir_wf; [apply Hp | apply Hp | apply Hp | lia | fold hcols; rewrite <- V1; lia]. }
  assert (Hd : Forall (fun r => fits 32 (r_NextDue r)) (p_URLs p))
    by (eapply Forall_impl; [apply Hp | intros r Hr; apply Hr]).
  destruct (dueRange_fits _ Hd) as [D1 D2].
  pose proof max_rows_val. pose proof (pw_nurls p Hp). pose proof (pw_nhosts p Hp).
  unfold stats_of. destruct (dueRange (p_URLs p)) as [mn mx]. unfold stats_wf.
  cbn [st_urlCount st_hostCount st_hostKeyLo st_hostKeyHi st_scheduledCount st_dueMin st_dueMax
       st_totalCompressed st_totalUncompressed st_bytesPerURL fst snd] in *.
  split; [unfold fits; lia |]. split; [unfold fits; lia |]. split; [apply Hp |]. split; [apply Hp |].
  split; [fits_const |]. split; [exact D1 |]. split; [exact D2 |]. split; [apply u64_fits |].
  split; [apply u64_fits |]. destruct (is_empty _); [fits_const |].
  unfold f32_quot. destruct (f32_round _ _). destruct (f32_round _ _). apply u32_fits.
Qed.

Lemma open_file_ok : open_file b = Ok (header_of p l, footer_sorted (footer_of p l pairs)).
Proof.
  pose proof file_length as E. pose proof footerOff_val as F.
  assert (Hb : b = header_Encode (header_of p l)
    ++ (l_url l ++ l_host l ++ l_sched l ++ l_seen l ++ l_blob l) ++ fb ++ trailer fb)
    by (rewrite b_eq; unfold hdr; by rewrite <- !app_assoc).
  rewrite Hb. apply open_file_layout.
  - apply header_of_wf.
  - reflexivity.
  - cbn [header_of hd_FooterOffset]. rewrite F, !length_app. lia.
  - rewrite <- Hb. exact Hlen.
  - apply decodeFooter_encode; [apply footer_of_wf | fold fb; unfold buf_max; lia].
Qed.

(** The tables decode to the records. *)
Lemma decode_urls : exists cols, decodeColumnRegion b (l_urlDir l) = Ok cols /\
  urlRecordsFromColumns cols (Z.of_nat (length (p_URLs p))) = Ok (p_URLs p).
Proof.
  pose proof file_length as E. destruct lay_out_url as [U1 U2]. eexists. split.
  - rewrite at_url, U2, U1. unfold decodeColumnRegion. apply decodeColumnRegion_good.
    + apply urlColumns_ok, Hp.
    + by rewrite hdr_length.
    + rewrite <- U1. lia.
  - apply (urlRecords_roundtrip _ (p_DefaultCodec p)); [apply Hp |].
    intros c Hc. apply foldl_insert_lookup; [apply urlColumns_ids | exact Hc].
Qed.

Lemma decode_hosts : exists cols, decodeColumnRegion b (l_hostDir l) = Ok cols /\
  hostRecordsFromColumns cols (Z.of_nat (length (p_Hosts p))) = Ok (p_Hosts p).
Proof.
  pose proof file_length as E. destruct lay_out_host as [U1 U2]. eexists. split.
  - rewrite at_host, U2, U1. unfold decodeColumnRegion. apply decodeColumnRegion_good.
    + apply hostColumns_ok; apply Hp.
    + apply off_host.
    + assert (Hh : hostOff l = 64 + Z.of_nat (length (l_url l))) by reflexivity.
      rewrite <- U1. lia.
  - apply (hostRecords_roundtrip _ (p_DefaultCodec p)); [apply Hp |].
    intros c Hc. apply foldl_insert_lookup; [apply hostColumns_ids | exact Hc].
Qed.

(** The optional regions. *)
Lemma find_regions :
  findRegion (regions_of l) RegionSchedule =
    (if is_empty (l_sched l) then None else Some (region_entry RegionSchedule (schedOff l) (l_sched l))) /\
  findRegion (regions_of l) RegionSeenset =
    (if is_empty (l_seen l) then None else Some (region_entry RegionSeenset (seenOff l) (l_seen l))) /\
  findRegion (regions_of l) RegionStringBlob =
    (if is_empty (l_blob l) then None else Some (region_entry RegionStringBlob (strOff l) (l_blob l))).
Proof.
  unfold findRegion, regions_of, optional_region.
  destruct (is_empty (l_sched l)), (is_empty (l_seen l)), (is_empty (l_blob l)); split_and!; reflexivity.
Qed.

Lemma seen_ok :
  opt_region (footer_sorted (footer_of p l pairs)) RegionSeenset []
    (fun reg => decodeSeensetRegion (region_slice b reg)) = Ok (p_SeenFilter p).
Proof.
  destruct find_regions as (_ & Hf & _). unfold opt_region, footer_sorted, footer_of.
  cbn [f_regions]. rewrite Hf.
  pose proof (slice_at _ _ _ _ at_seen off_seen) as [Hs _].
  assert (Hsl : forall rid, region_slice b (region_entry rid (seenOff l) (l_seen l)) = l_seen l)
    by (intros; exact Hs).
  assert (Hseen : l_seen l = encodeSeensetRegion (p_SeenFilter p) (Z.of_nat (length (p_URLs p))) (p_DefaultCodec p))
    by reflexivity.
  destruct (is_empty (l_seen l)) eqn:Ee.
  - rewrite Hseen in Ee. unfold encodeSeensetRegion in Ee. destruct (p_SeenFilter p) as [|x xs]; [reflexivity |].
    cbn [is_empty] in Ee. apply is_empty_length in Ee.
    pose proof (writePage_length PageFilter EncRaw (p_DefaultCodec p) (u32 (Z.of_nat (length (p_URLs p)))) 0 0 (x :: xs)).
    lia.
  - rewrite Hsl, Hseen. rewrite Hseen in Ee. unfold encodeSeensetRegion in Ee |- *.
    destruct (is_empty (p_SeenFilter p)); [discriminate |].
    apply decode_filter_page. apply Hp.
Qed.

Lemma blob_ok :
  opt_region (footer_sorted (footer_of p l pairs)) RegionStringBlob []
    (fun reg => decodeBlobRegion (region_slice b reg)) = Ok (p_Strings p).
Proof.
  destruct find_regions as (_ & _ & Hf). unfold opt_region, footer_sorted, footer_of.
  cbn [f_regions]. rewrite Hf.
  pose proof (slice_at _ _ _ _ at_blob off_blob) as [Hs _].
  assert (Hsl : forall rid, region_slice b (region_entry rid (strOff l) (l_blob l)) = l_blob l)
    by (intros; exact Hs).
  assert (Hblob : l_blob l = encodeBlobRegion (p_Strings p) (p_DefaultCodec p)) by reflexivity.
  destruct (is_empty (l_blob l)) eqn:Ee.
  - rewrite Hblob in Ee. unfold encodeBlobRegion in Ee. destruct (p_Strings p) as [|x xs]; [reflexivity |].
    cbn [is_empty] in Ee. apply is_empty_length in Ee.
    pose proof (writePage_length PageBlob EncRaw (p_DefaultCodec p) (u32 (Z.of_nat (length (x :: xs)))) 0 0 (x :: xs)).
    lia.
  - unfold decodeBlobRegion. rewrite Hsl, Ee, Hblob. rewrite Hblob in Ee. unfold encodeBlobRegion in Ee |- *.
    destruct (is_empty (p_Strings p)); [discriminate |].
    apply read_blob_page. apply Hp.
Qed.

(** What [Decode] returns: the split cap is not stored, and the schedule is
    recorded as present when the region was written. *)
Definition decoded : Partition :=
  mkPartition (p_ID p) (p_HostKeyLo p) (p_HostKeyHi p) (p_CreatedHours p) (p_DefaultCodec p)
    (p_URLs p) (p_Hosts p) (p_Strings p) (p_SeenFilter p)
    (p_BuildSchedule p && negb ((dueRange (p_URLs p)).1 =? 0)) 0 (p_Meta p).

Lemma sched_present :
  bool_decide (is_Some (findRegion (regions_of l) RegionSchedule))
  = p_BuildSchedule p && negb ((dueRange (p_URLs p)).1 =? 0).
Proof.
  destruct find_regions as (Hf & _). rewrite Hf.
  assert (Hs : l_sched l = if p_BuildSchedule p then encodeScheduleRegion (p_URLs p) (p_DefaultCodec p) else [])
    by reflexivity.
  rewrite Hs. clear Hf Hs. destruct (p_BuildSchedule p); [|reflexivity]. cbn [andb].
  unfold encodeScheduleRegion, buildScheduleIndex.
  destruct ((dueRange (p_URLs p)).1 =? 0); [reflexivity |]. cbn [negb].
  match goal with |- context [is_empty (writePage ?a ?b ?c ?d ?e ?f ?g)] =>
    pose proof (writePage_length a b c d e f g) as Hl; destruct (is_empty (writePage a b c d e f g)) eqn:Ee end;
    [apply is_empty_length in Ee; lia | by apply bool_decide_eq_true_2].
Qed.

Lemma Decode_ok :
  pairs ≡ₚ map_to_list (p_Meta p) -> sortedURLs (p_URLs p) = true -> Decode b = Ok decoded.
Proof.
  intros Hpairs Hsorted. destruct decode_urls as (uc & U1 & U2). destruct decode_hosts as (hc & V1 & V2).
  pose proof open_file_ok as Ho. pose proof verify_ok as Hv. pose proof seen_ok as Hse.
  pose proof blob_ok as Hbl. pose proof sched_present as Hsc.
  pose proof max_rows_val. pose proof (pw_nurls p Hp). pose proof (pw_nhosts p Hp).
  assert (Nu : i64 (hd_URLCount (header_of p l)) = Z.of_nat (length (p_URLs p)))
    by (cbn [header_of hd_URLCount]; apply i64_small; lia).
  assert (Nh : i64 (hd_HostCount (header_of p l)) = Z.of_nat (length (p_Hosts p)))
    by (cbn [header_of hd_HostCount]; apply i64_small; lia).
  pose proof (metaMap_sorted _ _ Hpairs) as Hm.
  unfold decoded. rewrite <- Hsc, <- Hm. clear Hsc Hm.
  clearbody b. unfold Decode. rewrite Ho. cbn [mbind res_bind].
  change (f_regions (footer_sorted (footer_of p l pairs))) with (regions_of l).
  change (f_urlDir (footer_sorted (footer_of p l pairs))) with (l_urlDir l).
  change (f_hostDir (footer_sorted (footer_of p l pairs))) with (l_hostDir l).
  change (f_meta (footer_sorted (footer_of p l pairs))) with (sort_meta pairs).
  rewrite Hv. cbn [mbind res_bind]. rewrite U1. cbn [mbind res_bind]. rewrite V1. cbn [mbind res_bind].
  rewrite Nu, U2. cbn [mbind res_bind]. rewrite Nh, V2. cbn [mbind res_bind].
  rewrite Hse. cbn [mbind res_bind]. rewrite Hbl. cbn [mbind res_bind].
  rewrite Hsorted. cbn [ensure mbind res_bind]. reflexivity.
Qed.
End roundtrip.

(** ** Sortedness *)

Lemma sortedURLs_spec recs :
  sortedURLs recs = true <-> Sorted (fun a b => key_le (r_URLKey a) (r_URLKey b)) recs.
Proof.
  induction recs as [|a [|b recs] IH].
  - split; constructor.
  - split; [repeat constructor | done].
  - change (sortedURLs (a :: b :: recs))
      with (if Less (r_URLKey b) (r_URLKey a) then false else sortedURLs (b :: recs)).
    split.
    + destruct (Less (r_URLKey b) (r_URLKey a)) eqn:E; [done |]. intros Hs.
      constructor; [by apply IH | constructor; exact E].
    + intros Hs. apply Sorted_inv in Hs as [Hs Hd]. apply HdRel_inv in Hd. unfold key_le in Hd.
      rewrite Hd. by apply IH.
Qed.

Lemma sortedHosts_spec recs :
  sortedHosts recs = true <-> Sorted (fun a b => h_HostKey a <= h_HostKey b) recs.
Proof.
  induction recs as [|a [|b recs] IH].
  - split; constructor.
  - split; [repeat constructor | done].
  - change (sortedHosts (a :: b :: recs))
      with (if h_HostKey b <? h_HostKey a then false else sortedHosts (b :: recs)).
    split.
    + destruct (Z.ltb_spec (h_HostKey b) (h_HostKey a)); [done |]. intros Hs.
      constructor; [by apply IH | constructor; lia].
    + intros Hs. apply Sorted_inv in Hs as [Hs Hd]. apply HdRel_inv in Hd.
      rewrite (proj2 (Z.ltb_ge _ _)) by done. by apply IH.
Qed.

(** ** Corruption *)

Definition decode_error (e : gerr) : Prop := e = ErrBadMagic \/ e = ErrChecksum \/ e = ErrCorrupt.

(** The failing checks of the open, in the order they are made. *)
Lemma open_file_bad_header b e :
  (76 <= length b)%nat -> DecodeHeader (take 64 b) = Err e -> open_file b = Err e.
Proof.
  intros Hl Hh. unfold open_file, HeaderSize, trailerSize.
  rewrite (proj2 (Nat.leb_le _ _)) by lia. cbn [ensure mbind res_bind]. by rewrite Hh.
Qed.

Lemma open_file_bad_trailer b h :
  (76 <= length b)%nat -> DecodeHeader (take 64 b) = Ok h ->
  drop (length b - 4) b <> Magic \/
  Z.of_nat (length b) - 12 - le_at (drop (length b - 12) b) 0 4 <> i64 (hd_FooterOffset h) \/
  (let start := Z.of_nat (length b) - 12 - le_at (drop (length b - 12) b) 0 4 in
   crc32c (slice b (Z.to_nat start) (length b - 12)) <> le_at (drop (length b - 12) b) 4 4) ->
  exists e, open_file b = Err e /\ decode_error e.
Proof.
  intros Hl Hh Hbad. unfold open_file, HeaderSize, trailerSize, decode_error.
  rewrite (proj2 (Nat.leb_le _ _)) by lia. cbn [ensure mbind res_bind]. rewrite Hh.
  cbn [mbind res_bind]. destruct (bool_decide (drop (length b - 4) b = Magic)) eqn:Em.
  2: { exists ErrBadMagic. split; [reflexivity | tauto]. }
  apply bool_decide_eq_true in Em. cbn [ensure mbind res_bind].
  destruct (Z.eqb_spec (Z.of_nat (length b) - Z.of_nat 12 - le_at (drop (length b - 12) b) 0 4)
              (i64 (hd_FooterOffset h))) as [E | E].
  2: { exists ErrCorrupt. split; [|tauto]. by rewrite orb_true_r. }
  destruct (Z.ltb_spec (Z.of_nat (length b) - Z.of_nat 12 - le_at (drop (length b - 12) b) 0 4) (Z.of_nat 64)).
  { exists ErrCorrupt. split; [reflexivity | tauto]. }
  cbn [negb orb ensure mbind res_bind].
  destruct (Z.eqb_spec (crc32c (slice b (Z.to_nat (Z.of_nat (length b) - Z.of_nat 12 -
      le_at (drop (length b - 12) b) 0 4)) (length b - 12))) (le_at (drop (length b - 12) b) 4 4)) as [Ec | Ec].
  - exfalso. change (Z.of_nat 12) with 12 in *. destruct Hbad as [H1 | [H1 | H1]]; [done | lia | by apply H1].
  - exists ErrChecksum. split; [reflexivity | tauto].
Qed.

Lemma verifyRegions_bad b regions reg :
  reg ∈ regions -> region_valid b reg = Err ErrChecksum ->
  exists e, verifyRegions b regions = Err e /\ decode_error e.
Proof.
  intros Hin Hbad. induction regions as [|r regions IH]; [by apply elem_of_nil in Hin |].
  cbn [verifyRegions]. destruct (region_valid b r) as [[]|e] eqn:E.
  - cbn [mbind res_bind]. apply elem_of_cons in Hin as [-> | Hin]; [congruence | by apply IH].
  - exists e. split; [reflexivity |]. unfold region_valid, ensure in E. unfold decode_error.
    destruct (negb _); cbn in E; [|injection E; auto]. destruct (_ =? _); [done |]. injection E; auto.
Qed.

Lemma slice_full {A} (pre reg post : list A) i y :
  (length pre <= i < length pre + length reg)%nat ->
  slice (<[i := y]> (pre ++ reg ++ post)) (length pre) (length pre + length reg)
  = <[(i - length pre)%nat := y]> reg.
Proof. intros Hi. rewrite slice_insert_in by lia. by rewrite slice_app_exact. Qed.

(** One byte of a region changed: its stored checksum no longer matches. *)
Lemma region_tampered (pre reg post : list Z) rid off i x y :
  off = Z.of_nat (length pre) -> Z.of_nat (length (pre ++ reg ++ post)) < 2 ^ 62 ->
  (length pre <= i < length pre + length reg)%nat ->
  (pre ++ reg ++ post) !! i = Some x -> u8 x <> u8 y ->
  region_valid (<[i := y]> (pre ++ reg ++ post)) (region_entry rid off reg) = Err ErrChecksum.
Proof.
  intros -> Hlen Hi Hx Hne. rewrite !length_app in Hlen.
  unfold region_valid, region_entry. cbn [rg_offset rg_length rg_crc].
  rewrite u64_small by (unfold fits; lia). rewrite length_insert, !length_app. bool_lia.
  cbn [orb negb ensure mbind res_bind]. rewrite Nat2Z.id.
  replace (Z.to_nat (Z.of_nat (length pre) + Z.of_nat (length reg))) with (length pre + length reg)%nat by lia.
  rewrite slice_full by done.
  rewrite (proj2 (Z.eqb_neq (crc32c _) _)); [reflexivity |].
  apply crc32c_insert with x; [|done].
  rewrite lookup_app_r, lookup_app_l in Hx by lia. exact Hx.
Qed.

Lemma take_insert_in {A} (l : list A) n i (y : A) :
  (i < n)%nat -> take n (<[i := y]> l) = <[i := y]> (take n l).
Proof. apply take_insert_lt. Qed.

Section tamper.
Context `{BlockCodecLaws} (h : Header) (mid fb : list Z) (f : footerData).
Context (Hwf : header_wf h) (Hv : hd_VersionMajor h = VersionMajor).
Context (Hoff : hd_FooterOffset h = 64 + Z.of_nat (length mid)).
Let b := header_Encode h ++ mid ++ fb ++ trailer fb.
Context (Hlen : Z.of_nat (length b) < 2 ^ 32) (Hf : decodeFooter fb = Ok f).
Context (i : nat) (x y : Z) (Hx : b !! i = Some x) (Hy : byte_ok y) (Hne : u8 x <> u8 y).

Lemma tamper_length : length b = (64 + length mid + length fb + 12)%nat.
Proof.
  unfold b. rewrite !length_app, header_Encode_length, trailer_length. unfold HeaderSize, trailerSize. lia.
Qed.

Lemma take_header : take 64 b = header_Encode h ++ [].
Proof. rewrite app_nil_r. apply take_app_exact. by rewrite header_Encode_length. Qed.

Lemma drop_trailer : drop (length b - 12) b = trailer fb.
Proof.
  rewrite tamper_length. unfold b. rewrite !app_assoc. apply drop_app_exact.
  rewrite !length_app, header_Encode_length. unfold HeaderSize. lia.
Qed.

Lemma drop_magic : drop (length b - 4) b = Magic.
Proof.
  pose proof tamper_length. replace (length b - 4)%nat with ((length b - 12) + 8)%nat by lia.
  by rewrite <- drop_drop, drop_trailer, trailer_magic.
Qed.

Lemma slice_footer : slice b (64 + length mid) (64 + length mid + length fb) = fb.
Proof.
  unfold b. rewrite app_assoc.
  replace (64 + length mid)%nat with (length (header_Encode h ++ mid))
    by (rewrite length_app, header_Encode_length; done).
  apply slice_app_exact.
Qed.

(** A byte outside the header, the footer and the trailer does not disturb the open. *)
Lemma open_tampered_mid :
  (64 <= i < 64 + length mid)%nat -> open_file (<[i := y]> b) = Ok (h, f).
Proof.
  intros Hi. pose proof tamper_length as E. apply (open_file_spec _ h fb f); rewrite ?length_insert.
  - lia.
  - rewrite take_insert_ge by lia. rewrite take_header. by apply DecodeHeader_Encode.
  - rewrite drop_insert_lt by lia. apply drop_magic.
  - rewrite drop_insert_lt by lia. rewrite drop_trailer. apply trailer_len. unfold fits. lia.
  - rewrite drop_insert_lt by lia. rewrite drop_trailer. apply trailer_crc.
  - replace (Z.of_nat (length b) - 12 - Z.of_nat (length fb)) with (64 + Z.of_nat (length mid)) by lia.
    rewrite Hoff, i64_small by lia. lia.
  - rewrite slice_insert_out by lia.
    replace (length b - 12 - length fb)%nat with (64 + length mid)%nat by lia.
    replace (length b - 12)%nat with (64 + length mid + length fb)%nat by lia. apply slice_footer.
  - exact Hf.
Qed.

(** A byte anywhere else makes it fail. *)
Lemma open_tampered_else :
  ~ (64 <= i < 64 + length mid)%nat -> exists e, open_file (<[i := y]> b) = Err e /\ decode_error e.
Proof.
  intros Hi. pose proof tamper_length as E. pose proof (lookup_lt_Some _ _ _ Hx) as Hil.
  assert (Hxy : x <> y) by congruence.
  destruct (decide (i < 64)%nat) as [Hlt | Hge].
  { eexists. split.
    - apply open_file_bad_header; [rewrite length_insert; lia |].
      rewrite take_insert_in by lia. rewrite take_header.
      apply DecodeHeader_tampered with x; [done | | done | done].
      unfold b in Hx. rewrite lookup_app_l in Hx; [done |]. by rewrite header_Encode_length.
    - unfold decode_error. case_decide; auto. }
  assert (Hhd : DecodeHeader (take 64 (<[i := y]> b)) = Ok h)
    by (rewrite take_insert_ge by lia; rewrite take_header; by apply DecodeHeader_Encode).
  apply (open_file_bad_trailer _ h); rewrite ?length_insert; [lia | exact Hhd |].
  destruct (decide (i < length b - 12)%nat) as [Hfoot | Htail].
  - (* in the footer *)
    right; right. cbv zeta. rewrite drop_insert_lt by lia. rewrite drop_trailer, trailer_crc.
    rewrite trailer_len by (unfold fits; lia).
    replace (Z.to_nat (Z.of_nat (length b) - 12 - Z.of_nat (length fb))) with (64 + length mid)%nat by lia.
    replace (length b - 12)%nat with (64 + length mid + length fb)%nat by lia.
    rewrite slice_insert_in, slice_footer by lia. apply crc32c_insert with x; [|done].
    pose proof (slice_lookup b (64 + length mid) (64 + length mid + length fb) i x Hx ltac:(lia)) as Hs.
    by rewrite slice_footer in Hs.
  - (* in the trailer *)
    set (k := (i - (length b - 12))%nat).
    assert (Htx : trailer fb !! k = Some x).
    { rewrite <- drop_trailer, lookup_drop. unfold k. by replace (length b - 12 + (i - (length b - 12)))%nat with i by lia. }
    rewrite (drop_insert_ge _ (length b - 12)), drop_trailer by lia. fold k.
    destruct (decide (i < length b - 4)%nat) as [Hsum | Hmagic].
    + destruct (decide (k < 4)%nat) as [Hk | Hk].
      * right; left. assert (Hl : le_at (<[k := y]> (trailer fb)) 0 4 <> Z.of_nat (length fb)).
        { unfold le_at. rewrite slice_insert_in by lia. apply (le_bytes_neq 4).
          - rewrite length_insert, trailer_eq. unfold slice.
            rewrite drop_0, take_app_exact by (by rewrite le_bytes_length). by rewrite le_bytes_length.
          - apply Forall_insert_ok; [|done]. rewrite trailer_eq. unfold slice.
            rewrite drop_0, take_app_exact by (by rewrite le_bytes_length). apply le_bytes_ok.
          - pose proof (slice_lookup _ 0 4 k x Htx ltac:(lia)) as Hs. revert Hs.
            rewrite trailer_eq. unfold slice. rewrite drop_0, take_app_exact by (by rewrite le_bytes_length).
            rewrite u32_small by (unfold fits; lia). intros Hs. by eapply list_insert_neq. }
        rewrite Hoff, i64_small by lia. lia.
      * right; right. cbv zeta.
        assert (L0 : le_at (<[k := y]> (trailer fb)) 0 4 = Z.of_nat (length fb)).
        { unfold le_at. rewrite slice_insert_out by lia. apply trailer_len. unfold fits. lia. }
        rewrite L0. replace (Z.to_nat (Z.of_nat (length b) - 12 - Z.of_nat (length fb))) with (64 + length mid)%nat by lia.
        replace (length b - 12)%nat with (64 + length mid + length fb)%nat by lia.
        rewrite slice_insert_out, slice_footer by lia. apply not_eq_sym.
        assert (Hsl : slice (trailer fb) 4 8 = le_bytes 4 (crc32c fb)).
        { rewrite trailer_eq. unfold slice. rewrite drop_app_exact by (by rewrite le_bytes_length).
          by rewrite take_app_exact by (by rewrite le_bytes_length). }
        unfold le_at. rewrite slice_insert_in by (unfold k in *; lia). change (4 + 4)%nat with 8%nat.
        rewrite Hsl. apply (le_bytes_neq 4).
        -- by rewrite length_insert, le_bytes_length.
        -- apply Forall_insert_ok; [apply le_bytes_ok | done].
        -- rewrite <- Hsl. eapply list_insert_neq; [|exact Hxy].
           apply slice_lookup; [exact Htx | unfold k in *; lia].
    + left. rewrite drop_insert_ge by lia. rewrite drop_magic.
      assert (Hm : Magic !! (i - (length b - 4))%nat = Some x).
      { rewrite <- drop_magic, lookup_drop. by replace (length b - 4 + (i - (length b - 4)))%nat with i by lia. }
      by eapply list_insert_neq.
Qed.
End tamper.

Section file_tamper.
Context `{BlockCodecLaws} (p : Partition) (pairs : list kvPair) (Hp : partition_wf p).
Let l := lay_out p.
Let fb := encodeFooter (footer_of p l pairs).
Let hdr := header_Encode (header_of p l).
Let mid := l_url l ++ l_host l ++ l_sched l ++ l_seen l ++ l_blob l.
Context (Hlen : Z.of_nat (length (file_bytes p pairs)) < 2 ^ 32).
Context (i : nat) (x y : Z) (Hx : file_bytes p pairs !! i = Some x) (Hy : byte_ok y)
  (Hne : u8 x <> u8 y).

Lemma file_bytes_mid : file_bytes p pairs = hdr ++ mid ++ fb ++ trailer fb.
Proof. unfold mid. rewrite <- !app_assoc. reflexivity. Qed.

(** Every byte between header and footer belongs to a region of the directory. *)
Lemma region_of_byte :
  (64 <= i < 64 + length mid)%nat ->
  exists reg, reg ∈ regions_of l /\ region_valid (<[i := y]> (file_bytes p pairs)) reg = Err ErrChecksum.
Proof.
  intros Hi. pose proof (hdr_length p) as Hh. fold l hdr in Hh.
  unfold mid in Hi. rewrite !length_app in Hi.
  pose proof (file_length p pairs) as E. fold l fb in E.
  assert (Hcase : forall pre reg post rid off, file_bytes p pairs = pre ++ reg ++ post ->
    off = Z.of_nat (length pre) -> (length pre <= i < length pre + length reg)%nat ->
    region_valid (<[i := y]> (file_bytes p pairs)) (region_entry rid off reg) = Err ErrChecksum).
  { intros pre reg post rid off Ef Ho Hin. pose proof Hx as Hx'. rewrite Ef in Hx' |- *.
    apply region_tampered with x; [done | | done | done | done]. rewrite <- Ef. lia. }
  assert (Hopt : forall rid off (reg : list Z), (0 < length reg)%nat ->
    optional_region rid off reg = [region_entry rid off reg]).
  { intros rid off reg Hr. unfold optional_region. destruct reg; [cbn in Hr; lia | reflexivity]. }
  destruct (decide (i < 64 + length (l_url l))%nat).
  { exists (region_entry RegionURLTable urlOff (l_url l)). split; [left |].
    eapply Hcase; [apply at_url | apply off_url | fold l hdr; lia]. }
  destruct (decide (i < 64 + length (l_url l) + length (l_host l))%nat).
  { exists (region_entry RegionHostTable (hostOff l) (l_host l)). split; [right; left |].
    eapply Hcase; [apply at_host | apply (off_host p pairs) | fold l hdr; rewrite !length_app; lia]. }
  unfold regions_of.
  destruct (decide (i < 64 + length (l_url l) + length (l_host l) + length (l_sched l))%nat).
  { exists (region_entry RegionSchedule (schedOff l) (l_sched l)). split.
    - rewrite (Hopt RegionSchedule) by lia. do 2 right. left.
    - eapply Hcase; [apply at_sched | apply (off_sched p pairs) | fold l hdr; rewrite !length_app; lia]. }
  destruct (decide (i < 64 + length (l_url l) + length (l_host l) + length (l_sched l) + length (l_seen l))%nat).
  { exists (region_entry RegionSeenset (seenOff l) (l_seen l)). split.
    - rewrite (Hopt RegionSeenset) by lia. do 2 right. apply elem_of_app. right. left.
    - eapply Hcase; [apply at_seen | apply (off_seen p pairs) | fold l hdr; rewrite !length_app; lia]. }
  exists (region_entry RegionStringBlob (strOff l) (l_blob l)). split.
  - rewrite (Hopt RegionStringBlob) by lia. do 2 right. rewrite !elem_of_app. right. right. left.
  - eapply Hcase; [apply at_blob | apply (off_blob p pairs) | fold l hdr; rewrite !length_app; lia].
Qed.

Lemma Decode_tampered :
  exists e, Decode (<[i := y]> (file_bytes p pairs)) = Err e /\ decode_error e.
Proof.
  pose proof (header_of_wf p pairs Hp Hlen) as Hwf. fold l in Hwf.
  assert (Hoff : hd_FooterOffset (header_of p l) = 64 + Z.of_nat (length mid)).
  { cbn [header_of hd_FooterOffset]. unfold l. rewrite (footerOff_val p pairs). fold l.
    unfold mid. rewrite !length_app. lia. }
  pose proof (decodeFooter_encode (footer_of p l pairs) (footer_of_wf p pairs Hp Hlen)) as Hf.
  fold fb in Hf. pose proof file_bytes_mid as Eb.
  pose proof (file_length p pairs) as E. fold l fb in E.
  specialize (Hf ltac:(unfold buf_max; lia)).
  destruct (decide (64 <= i < 64 + length mid)%nat) as [Hin | Hout].
  - destruct (region_of_byte Hin) as (reg & Hreg & Hbad).
    destruct (verifyRegions_bad (<[i := y]> (file_bytes p pairs)) (regions_of l) reg Hreg Hbad)
      as (e & He & Hde).
    exists e. split; [|done].
    assert (Ho : open_file (<[i := y]> (file_bytes p pairs)) = Ok (header_of p l, footer_sorted (footer_of p l pairs))).
    { rewrite Eb. rewrite Eb in Hlen.
      exact (open_tampered_mid (header_of p l) mid fb _ Hwf eq_refl Hoff Hlen Hf i y Hin). }
    revert Ho He. generalize (<[i := y]> (file_bytes p pairs)). intros b Ho He. unfold Decode.
    rewrite Ho. cbn [mbind res_bind].
    change (f_regions (footer_sorted (footer_of p l pairs))) with (regions_of l). by rewrite He.
  - assert (Ho : exists e, open_file (<[i := y]> (file_bytes p pairs)) = Err e /\ decode_error e).
    { rewrite Eb. rewrite Eb in Hlen, Hx.
      exact (open_tampered_else (header_of p l) mid fb Hwf eq_refl Hoff Hlen i x y Hx Hy Hne Hout). }
    destruct Ho as (e & Ho & Hde). exists e. split; [|done]. revert Ho.
    generalize (<[i := y]> (file_bytes p pairs)). intros b Ho. unfold Decode. by rewrite Ho.
Qed.
End file_tamper.

(** ** Properties *)

Lemma Encode_in_eq `{BlockCodec} pairs p :
  Encode_in pairs p =
  if sortedURLs (p_URLs p) && sortedHosts (p_Hosts p) then Ok (file_bytes p pairs) else Err ErrNotSorted.
Proof.
  unfold Encode_in. destruct (sortedURLs (p_URLs p)); [|reflexivity].
  destruct (sortedHosts (p_Hosts p)); reflexivity.
Qed.

(** C6: A whole file round trips: what [Encode] writes for a partition of sorted
    rows, [Decode] parses back to the same tables, strings, filter and metadata
    (the page cap is not stored); and [Encode] refuses exactly the unsorted
    partitions, with ErrNotSorted. *)
Theorem file_roundtrip `{BlockCodecLaws} (p : Partition) (Hp : partition_wf p) :
  (forall b, Encode p = Ok b -> Z.of_nat (length b) < 2 ^ 32 -> Decode b = Ok (decoded p)) /\
  ((exists b, Encode p = Ok b) <->
   Sorted (fun a b => key_le (r_URLKey a) (r_URLKey b)) (p_URLs p) /\
   Sorted (fun a b => h_HostKey a <= h_HostKey b) (p_Hosts p)) /\
  (forall e, Encode p = Err e -> e = ErrNotSorted).
Proof.
  rewrite <- sortedURLs_spec, <- sortedHosts_spec. unfold Encode. rewrite Encode_in_eq.
  destruct (sortedURLs (p_URLs p)) eqn:Eu, (sortedHosts (p_Hosts p)) eqn:Eh; cbn [andb].
  - split; [|split].
    + intros b Hb Hlen. injection Hb as <-. exact (Decode_ok p _ Hp Hlen (reflexivity _) Eu).
    + split; [intros _; split; reflexivity | intros _; eexists; reflexivity].
    + discriminate.
  - split; [discriminate |]. split; [split; [intros [? [=]] | intros [_ [=]]] | by intros ? [= <-]].
  - split; [discriminate |]. split; [split; [intros [? [=]] | intros [[=] _]] | by intros ? [= <-]].
  - split; [discriminate |]. split; [split; [intros [? [=]] | intros [[=] _]] | by intros ? [= <-]].
Qed.

(** A small partition, for the witnesses. *)
#[local] Instance stored_codec : BlockCodec := {| zstd_enc s := s; zstd_dec s _ := Ok s |}.
#[local] Instance stored_codec_laws : BlockCodecLaws.
Proof. constructor; [reflexivity | cbn; lia]. Qed.

Definition example_url (host path due : Z) : URLRecord :=
  mkURL (mkKey host path) host StatusCrawled 0 1 1 1 5 6 6 due 0 1 0 1 0 0 11 12 200 0 0 0.
Definition example_host (host : Z) : HostRecord :=
  mkHost host 1 0 1 (replicate 16 127) 0 0 0 0 5 0 0 100 1 8 0 1 0 20 0.
Definition example_partition : Partition :=
  mkPartition 7 0 (2 ^ 64 - 1) 480000 CodecZstd
    [example_url 1 5 100; example_url 1 9 0; example_url 2 3 40] [example_host 1; example_host 2]
    [0; 3; 97; 98; 99] [1; 2; 3] true 2 {[ [107] := [118] ]}.

Lemma example_partition_wf : partition_wf example_partition.
Proof.
  pose proof max_rows_val.
  split; [fits_const .. | cbn; lia | cbn; lia | fits_const | fits_const].
Qed.

Definition example_file : list Z := default [] (match Encode example_partition with Ok b => Some b | _ => None end).

Lemma example_file_ok : Encode example_partition = Ok example_file.
Proof. vm_compute. reflexivity. Qed.

Lemma example_file_small : Z.of_nat (length example_file) < 2 ^ 32.
Proof. vm_compute. reflexivity. Qed.

Lemma file_roundtrip_witness : Decode example_file = Ok (decoded example_partition).
Proof.
  exact (proj1 (file_roundtrip example_partition example_partition_wf)
    example_file example_file_ok example_file_small).
Defined.

(** C7: Any single corrupted byte of a file, wherever it is, makes [Decode] fail
    with one of its errors: no corruption of one byte is read as data. *)
Theorem file_detects_corruption `{BlockCodecLaws} (p : Partition) (b : list Z) (i : nat) (x y : Z)
    (Hp : partition_wf p) (Hb : Encode p = Ok b) (Hlen : Z.of_nat (length b) < 2 ^ 32)
    (Hx : b !! i = Some x) (Hy : byte_ok y) (Hne : u8 x <> u8 y) :
  exists e, Decode (<[i := y]> b) = Err e /\ (e = ErrBadMagic \/ e = ErrChecksum \/ e = ErrCorrupt).
Proof.
  unfold Encode in Hb. rewrite Encode_in_eq in Hb. destruct (_ && _); [|discriminate].
  injection Hb as <-. exact (Decode_tampered p _ Hp Hlen i x y Hx Hy Hne).
Qed.

Lemma file_detects_corruption_witness :
  exists e, Decode (<[700%nat := 99]> example_file) = Err e /\ (e = ErrBadMagic \/ e = ErrChecksum \/ e = ErrCorrupt).
Proof.
  refine (file_detects_corruption example_partition example_file 700 (nth 700 example_file 0) 99
    example_partition_wf example_file_ok example_file_small _ _ _).
  - vm_compute. reflexivity.
  - fits_const.
  - vm_compute. discriminate.
Defined.

(** The encoding is deterministic: the bytes do not depend on the order in
    which the runtime iterates the metadata map. *)
Theorem encode_deterministic `{BlockCodec} (p : Partition) (pairs : list kvPair)
    (Hpairs : pairs ≡ₚ map_to_list (p_Meta p)) : Encode_in pairs p = Encode p.
Proof.
  unfold Encode. rewrite !Encode_in_eq. destruct (_ && _); [|reflexivity]. f_equal.
  assert (Hs : sort_meta pairs = sort_meta (metaPairs (p_Meta p))).
  { apply sort_meta_unique; [|exact Hpairs]. rewrite Hpairs. apply NoDup_fst_map_to_list. }
  assert (Hf : encodeFooter (footer_of p (lay_out p) pairs)
               = encodeFooter (footer_of p (lay_out p) (metaPairs (p_Meta p)))).
  { unfold encodeFooter, footer_of. cbn [f_regions f_urlDir f_hostDir f_stats f_meta]. rewrite Hs.
    destruct pairs as [|kv pairs], (metaPairs (p_Meta p)) as [|kv' pairs'] eqn:E; try reflexivity.
    - unfold metaPairs in E. rewrite E in Hpairs. by apply Permutation_nil_cons in Hpairs.
    - unfold metaPairs in E. rewrite E in Hpairs. by apply Permutation_nil_r in Hpairs. }
  unfold file_bytes. cbv zeta. by rewrite Hf.
Qed.

Lemma encode_deterministic_witness :
  Encode_in [([107], [118])] example_partition = Encode example_partition.
Proof. apply (encode_deterministic example_partition). vm_compute. reflexivity. Defined.
