(* ===== verification/Reader.v ===== *)
(** * Reading a file without decoding it (format/reader.go)

    A reader parses the header and footer once and then decodes only the columns a query
    names, or only the pages a range can meet. On an encoded file every projection gives
    what decoding the whole file and projecting the rows gives. *)

From S2P Require Import Prelude Words Model Encoding Page Column Table Schedule Footer File.
Open Scope Z_scope.

Record Reader := mkReader { rd_file : list Z; rd_header : Header; rd_footer : footerData }.

Section Queries.
Context `{BlockCodec}.

Definition NewReader (b : list Z) : res Reader :=
  '(h, f) ← open_file b;
  Ok (mkReader b h f).

Definition URLCount (r : Reader) : Z := i64 (hd_URLCount (rd_header r)).
Definition HostCount (r : Reader) : Z := i64 (hd_HostCount (rd_header r)).
Definition HostKeyRange (r : Reader) : Z * Z := (hd_HostKeyLo (rd_header r), hd_HostKeyHi (rd_header r)).

Definition MaybeOwnsHost (r : Reader) (hostKey : Z) : bool :=
  (hd_HostKeyLo (rd_header r) <=? hostKey) && (hostKey <=? hd_HostKeyHi (rd_header r)).

Definition DueRange (r : Reader) : Z * Z := (st_dueMin (f_stats (rd_footer r)), st_dueMax (f_stats (rd_footer r))).

Definition MaybeDueAt (r : Reader) (now : Z) : bool :=
  let min := st_dueMin (f_stats (rd_footer r)) in
  negb (min =? 0) && (min <=? now).

Definition URLZone (r : Reader) (col : Z) : Z * Z * bool :=
  match head (filter (fun d => cd_columnID d = col) (f_urlDir (rd_footer r))) with
  | Some d => (cd_zoneMin d, cd_zoneMax d, cd_hasZone d)
  | None => (0, 0, false)
  end.

Definition projectURL (r : Reader) (cols : list Z) : res (gmap Z (list Z)) :=
  decodeColumnRegion (rd_file r) (filter (fun d => cd_columnID d ∈ cols) (f_urlDir (rd_footer r))).

Definition column_of (cols : gmap Z (list Z)) (id : Z) : list Z := default [] (cols !! id).

(** [len(col) < n*w] in int. *)
Definition short_column (cols : gmap Z (list Z)) (id : Z) (n w : Z) : bool :=
  Z.of_nat (length (column_of cols id)) <? i64 (n * w).

Definition key_at (cols : gmap Z (list Z)) (i : nat) : res URLKey :=
  hk ← get_u cols colURLHostKey 8 i;
  pk ← get_u cols colURLPathKey 8 i;
  Ok (mkKey hk pk).

Definition URLKeys (r : Reader) : res (list URLKey) :=
  cols ← projectURL r [colURLHostKey; colURLPathKey];
  let n := URLCount r in
  _ ← ensure (negb (short_column cols colURLHostKey n 8 || short_column cols colURLPathKey n 8)) ErrCorrupt;
  _ ← ensure (0 <=? n) GoPanic;   (* make([]m.URLKey, n) *)
  mapM (key_at cols) (seq 0 (Z.to_nat n)).

Definition NextDue (r : Reader) : res (list Z) :=
  cols ← projectURL r [colURLNextDue];
  let n := URLCount r in
  _ ← ensure (negb (short_column cols colURLNextDue n 4)) ErrCorrupt;
  _ ← ensure (0 <=? n) GoPanic;   (* make([]uint32, n) *)
  mapM (get_u cols colURLNextDue 4) (seq 0 (Z.to_nat n)).

(** The rows [rows], each kept when it is due; [check] is the bound test on a row. *)
Fixpoint due_keys (cols : gmap Z (list Z)) (check : Z -> bool) (now : Z) (rows : list Z) : res (list URLKey) :=
  match rows with
  | [] => Ok []
  | i :: rows =>
      _ ← ensure (check i) ErrCorrupt;
      due ← get_u cols colURLNextDue 4 (Z.to_nat i);
      if negb (due =? 0) && (due <=? now) then
        k ← key_at cols (Z.to_nat i);
        out ← due_keys cols check now rows;
        Ok (k :: out)
      else due_keys cols check now rows
  end.

Definition due_columns (r : Reader) : res (gmap Z (list Z)) :=
  cols ← projectURL r [colURLHostKey; colURLPathKey; colURLNextDue];
  let n := URLCount r in
  _ ← ensure (negb (short_column cols colURLHostKey n 8 || short_column cols colURLPathKey n 8 ||
                    short_column cols colURLNextDue n 4)) ErrCorrupt;
  Ok cols.

Definition DueKeys (r : Reader) (now : Z) : res (list URLKey) :=
  if negb (MaybeDueAt r now) then Ok []
  else
    cols ← due_columns r;
    due_keys cols (fun _ => true) now (Z.of_nat <$> seq 0 (Z.to_nat (URLCount r))).

(** ** Host ranges *)

(** The loop over the directory keeps the last entry of each id. *)
Definition last_dir (dir : list columnDir) (id : Z) : option columnDir :=
  last (filter (fun d => cd_columnID d = id) dir).

(** The entries of the pages before [pi] are indexed without a bound test. *)
Definition page_data (file : list Z) (d : columnDir) (pi : nat) : res (list Z) :=
  _ ← ensure (pi <=? length (cd_pages d))%nat GoPanic;
  decodeColumnPage file d pi.

Definition in_range (lo hi : Z) (k : URLKey) : bool := (lo <=? HostKey k) && (HostKey k <=? hi).

Definition u64_at (data : list Z) (i : nat) : res Z := b ← get_at 8 data i; mret (le_val b).

Definition page_keys (hk pk : list Z) (lo hi : Z) (nv : Z) : res (list URLKey) :=
  ks ← mapM (fun i =>
    v ← u64_at hk i;
    if (lo <=? v) && (v <=? hi) then p ← u64_at pk i; Ok [mkKey v p] else Ok []) (seq 0 (Z.to_nat nv));
  Ok (mjoin ks).

Definition page_misses (pe : pageEntry) (lo hi : Z) : bool :=
  pe_hasZone pe && ((pe_zoneMax pe <? lo) || (hi <? pe_zoneMin pe)).

Fixpoint page_loop (file : list Z) (hkDir pkDir : columnDir) (lo hi : Z) (pages : list pageEntry) (pi : nat)
    : res (list URLKey) :=
  match pages with
  | [] => Ok []
  | pe :: pages =>
      if page_misses pe lo hi then page_loop file hkDir pkDir lo hi pages (S pi)
      else
        hk ← page_data file hkDir pi;
        pk ← page_data file pkDir pi;
        let nv := i64 (pe_numValues pe) in
        _ ← ensure (negb ((Z.of_nat (length hk) <? i64 (nv * 8)) || (Z.of_nat (length pk) <? i64 (nv * 8)))) ErrCorrupt;
        ks ← page_keys hk pk lo hi nv;
        out ← page_loop file hkDir pkDir lo hi pages (S pi);
        Ok (ks ++ out)
  end.

Definition HostRangeURLKeys (r : Reader) (lo hi : Z) : res (list URLKey) :=
  if (hi <? lo) || (hi <? hd_HostKeyLo (rd_header r)) || (hd_HostKeyHi (rd_header r) <? lo) then Ok []
  else
    match last_dir (f_urlDir (rd_footer r)) colURLHostKey, last_dir (f_urlDir (rd_footer r)) colURLPathKey with
    | Some hkDir, Some pkDir =>
        if (cd_numPages hkDir <=? 1) || (length (cd_pages hkDir) =? 0)%nat then
          keys ← URLKeys r;
          Ok (filter (fun k => in_range lo hi k = true) keys)
        else page_loop (rd_file r) hkDir pkDir lo hi (cd_pages hkDir) 0
    | _, _ => Err ErrCorrupt
    end.

Definition HostRangePageScan (r : Reader) (lo hi : Z) : nat * nat :=
  match head (filter (fun d => cd_columnID d = colURLHostKey) (f_urlDir (rd_footer r))) with
  | Some d => (length (filter (fun pe => page_misses pe lo hi = false) (cd_pages d)), length (cd_pages d))
  | None => (0%nat, 0%nat)
  end.

(** ** The wheel *)

Definition HasSchedule (r : Reader) : bool :=
  bool_decide (is_Some (findRegion (f_regions (rd_footer r)) RegionSchedule)).

(** The slice of the file is not bounded by a test: the bounds wrap in uint64. *)
Definition rd_Schedule (r : Reader) : res (option ScheduleIndex) :=
  match findRegion (f_regions (rd_footer r)) RegionSchedule with
  | None => Ok None
  | Some reg =>
      let e := u64 (rg_offset reg + rg_length reg) in
      _ ← ensure ((rg_offset reg <=? e) && (e <=? Z.of_nat (length (rd_file r)))) GoPanic;
      idx ← decodeScheduleRegion (slice (rd_file r) (Z.to_nat (rg_offset reg)) (Z.to_nat e));
      Ok (Some idx)
  end.

Definition DueByWheel (r : Reader) (now : Z) : res (list URLKey) :=
  idx ← rd_Schedule r;
  match idx with
  | None => DueKeys r now
  | Some idx =>
      match DueBuckets idx now with
      | [] => Ok []
      | cand =>
          cols ← due_columns r;
          due_keys cols (fun i => (0 <=? i) && (i <? URLCount r)) now cand
      end
  end.
End Queries.

(** ** The columns of an encoded file, one at a time *)

Section Columns.
Context `{BlockCodecLaws}.

Lemma region_of_lookup cols start maxRows pre rest i c :
  cols !! i = Some c -> start = Z.of_nat (length pre) ->
  exists pre' rest', let s := Z.of_nat (length pre') in
    region_of cols start maxRows !! i = Some (encode_column c s maxRows) /\
    pre ++ mjoin (fst <$> region_of cols start maxRows) ++ rest = pre' ++ (encode_column c s maxRows).1 ++ rest' /\
    s + Z.of_nat (length (encode_column c s maxRows).1) <=
      start + Z.of_nat (length (mjoin (fst <$> region_of cols start maxRows))).
Proof using Type.
  revert start pre i. induction cols as [|d cols IH]; intros start pre i Hi Hs; [done |].
  cbn [region_of]. set (e := encode_column d start maxRows).
  set (reg := region_of cols (start + Z.of_nat (length e.1)) maxRows) in *.
  change (mjoin (fst <$> e :: reg)) with (e.1 ++ mjoin (fst <$> reg)). destruct i as [|i].
  - injection Hi as ->. exists pre, (mjoin (fst <$> reg) ++ rest). cbv zeta. rewrite <- Hs. split_and!.
    + done.
    + by rewrite <- app_assoc.
    + rewrite length_app. fold e. lia.
  - destruct (IH (start + Z.of_nat (length e.1)) (pre ++ e.1) i Hi) as (pre' & rest' & E1 & E2 & E3).
    { rewrite length_app. lia. }
    exists pre', rest'. cbv zeta in *. split_and!; [done | |].
    + rewrite <- E2, <- !app_assoc. done.
    + rewrite length_app. fold reg in E3. lia.
Qed.

(** Decoding a selection of the directory decodes that selection of the columns. *)
Lemma decode_selection (file : list Z) (want : list Z) (cols : list column) dir out :
  Forall2 (fun c d => cd_columnID d = c_id c /\ decode_column file d = Ok (c_data c)) cols dir ->
  decodeColumnRegion_go file (filter (fun d => cd_columnID d ∈ want) dir) out =
  Ok (foldl (fun m c => <[c_id c := c_data c]> m) out (filter (fun c => c_id c ∈ want) cols)).
Proof using Type.
  intros Hf. revert out. induction Hf as [|c d cols dir [Hid Hd] _ IH]; intros out; [done |].
  rewrite !filter_cons, Hid. destruct (decide (c_id c ∈ want)); [| apply IH].
  cbn [decodeColumnRegion_go]. rewrite Hd. cbn [mbind res_bind]. rewrite IH, Hid. done.
Qed.
End Columns.

(** ** The rows of the pages of a key column *)

Section RowPages.
Context {R : Type}.

(** The rows page by page, as [splitColumn] cuts them. *)
Fixpoint row_chunks (fuel m start : nat) (l : list R) : list (list R) :=
  match fuel with
  | O => []
  | S fuel =>
      if (start <? length l)%nat then
        slice l start (Nat.min (start + m) (length l)) :: row_chunks fuel m (start + m) l
      else []
  end.

Definition row_pages (maxRows : Z) (l : list R) : list (list R) :=
  if (maxRows <=? 0) || (Z.of_nat (length l) <=? maxRows) then [l]
  else row_chunks (length l) (Z.to_nat maxRows) 0 l.

Definition key_column (cid enc codec : Z) (f : R -> Z) (l : list R) : column :=
  mkColumn cid 8 kindUint enc codec (col_data 8 f l).

Lemma col_data_app w (f : R -> Z) l k : col_data w f (l ++ k) = col_data w f l ++ col_data w f k.
Proof. unfold col_data. rewrite fmap_app. apply join_app. Qed.

Lemma col_data_cut w (f : R -> Z) l k :
  take (k * w) (col_data w f l) = col_data w f (take k l) /\ drop (k * w) (col_data w f l) = col_data w f (drop k l).
Proof.
  destruct (decide (k <= length l)%nat) as [Hk | Hk].
  - rewrite <- (take_drop k l) at 1 3. rewrite col_data_app.
    assert (E : length (col_data w f (take k l)) = (k * w)%nat) by (rewrite col_data_length, length_take; f_equal; lia).
    rewrite <- E. split; [apply take_app_length | apply drop_app_length].
  - rewrite (take_ge l), (drop_ge l) by lia.
    split; [rewrite take_ge | rewrite drop_ge]; rewrite ?col_data_length; (done || nia).
Qed.

Lemma col_data_slice w (f : R -> Z) l s e :
  slice (col_data w f l) (s * w) (e * w) = col_data w f (slice l s e).
Proof.
  unfold slice. rewrite (proj2 (col_data_cut w f l s)), <- Nat.mul_sub_distr_r. apply col_data_cut.
Qed.

Lemma key_column_rows cid enc codec f l : numValues (key_column cid enc codec f l) = length l.
Proof. rewrite numValues_div by (cbn; lia). cbn [key_column c_data c_width]. rewrite col_data_length. by apply Nat.div_mul. Qed.

Lemma split_key_column cid enc codec f l maxRows :
  splitColumn (key_column cid enc codec f l) maxRows = key_column cid enc codec f <$> row_pages maxRows l.
Proof.
  unfold splitColumn, row_pages. rewrite key_column_rows. destruct (_ || _); [done |].
  assert (Hg : forall fuel start,
    split_loop fuel (key_column cid enc codec f l) (length l) (Z.to_nat maxRows) start =
    key_column cid enc codec f <$> row_chunks fuel (Z.to_nat maxRows) start l); [| apply Hg].
  induction fuel as [|fuel IH]; intros start; [done |]. cbn [split_loop row_chunks].
  destruct (start <? length l)%nat; [| done]. rewrite fmap_cons, IH. f_equal.
  unfold key_column. cbn [c_id c_width c_kind c_enc c_codec c_data]. by rewrite col_data_slice.
Qed.

Lemma row_pages_join maxRows l : mjoin (row_pages maxRows l) = l.
Proof.
  unfold row_pages. destruct (_ || _) eqn:E; [apply app_nil_r |]. bool_prop.
  set (m := Z.to_nat maxRows). assert (Hm : (0 < m)%nat) by lia.
  assert (Hg : forall fuel start, (length l <= start + fuel * m)%nat ->
    mjoin (row_chunks fuel m start l) = drop start l); [| apply Hg; nia].
  induction fuel as [|fuel IH]; intros start Hf; cbn [row_chunks]; [symmetry; apply drop_ge; lia |].
  destruct (Nat.ltb_spec start (length l)); [| symmetry; apply drop_ge; lia].
  change (mjoin (?x :: ?y)) with (x ++ mjoin y). rewrite IH by lia. unfold slice.
  destruct (Nat.min_spec (start + m) (length l)) as [[_ ->] | [Hle ->]].
  - replace (start + m - start)%nat with m by lia. rewrite <- drop_drop. apply take_drop.
  - rewrite (drop_ge l (start + m)) by lia. rewrite app_nil_r. apply take_ge. rewrite length_drop. lia.
Qed.
End RowPages.

Lemma key_column_values {R} cid enc codec (f : R -> Z) l :
  Forall (fun x => fits 64 (f x)) l -> column_values (key_column cid enc codec f l) = f <$> l.
Proof.
  intros Hf. unfold column_values. rewrite key_column_rows. cbn [key_column c_data c_width].
  unfold col_data. rewrite (list_fmap_compose f (le_bytes 8)), <- (length_fmap f l).
  apply read_mjoin; [done | by apply Forall_fmap].
Qed.

(** ** The rows of a host range *)

Definition host_of (u : URLRecord) : Z := HostKey (r_URLKey u).
Definition path_of (u : URLRecord) : Z := PathKey (r_URLKey u).
Definition wanted (lo hi : Z) (u : URLRecord) : Prop := in_range lo hi (r_URLKey u) = true.
#[export] Instance wanted_dec lo hi u : Decision (wanted lo hi u).
Proof. unfold wanted. apply _. Defined.

Lemma u64_at_ok (f : URLRecord -> Z) us i u : us !! i = Some u -> fits 64 (f u) -> u64_at (col_data 8 f us) i = Ok (f u).
Proof. intros Hi Hf. unfold u64_at. rewrite (get_col_data _ _ _ _ _ Hi). cbn [mbind res_bind mret]. unfold mret, res_ret. by rewrite le_val_bytes_fits. Qed.

Lemma page_keys_ok lo hi us : Forall url_wf us ->
  page_keys (col_data 8 host_of us) (col_data 8 path_of us) lo hi (Z.of_nat (length us)) =
  Ok (r_URLKey <$> filter (wanted lo hi) us).
Proof.
  intros Hw. unfold page_keys. rewrite Nat2Z.id.
  set (pick := fun u => if decide (wanted lo hi u) then [r_URLKey u] else []).
  rewrite <- (length_fmap pick), (mapM_seq_ok _ (pick <$> us)).
  - cbn. f_equal. unfold pick. clear Hw. induction us as [|u us IH]; [done |].
    rewrite fmap_cons, filter_cons. change (mjoin (?x :: ?y)) with (x ++ mjoin y). rewrite IH. by destruct (decide _).
  - intros i ks Hi. rewrite list_lookup_fmap in Hi. destruct (us !! i) as [u |] eqn:Eu; [| done]. injection Hi as <-.
    destruct (Forall_lookup_1 _ _ _ _ Hw Eu) as [[Hh Hk] _].
    rewrite (u64_at_ok host_of _ _ u Eu Hh), (u64_at_ok path_of _ _ u Eu Hk). cbn [mbind res_bind].
    unfold pick, wanted, in_range, host_of. destruct (decide _) as [E | E]; [rewrite E | apply not_true_is_false in E; rewrite E].
    + by destruct (r_URLKey u) eqn:Ek; unfold path_of; rewrite Ek.
    + done.
Qed.

Lemma wanted_keys lo hi (us : list URLRecord) :
  filter (fun k => in_range lo hi k = true) (r_URLKey <$> us) = r_URLKey <$> filter (wanted lo hi) us.
Proof.
  induction us as [|u us IH]; [done |]. rewrite fmap_cons. destruct (decide (wanted lo hi u)) as [E | E].
  - rewrite (filter_cons_True (wanted lo hi)), (filter_cons_True _ (r_URLKey u)) by done. by rewrite fmap_cons, IH.
  - by rewrite (filter_cons_False (wanted lo hi)), (filter_cons_False _ (r_URLKey u)) by done.
Qed.

(** What the skip list says of a page of rows. *)
Definition page_of (enc codec : Z) (pe : pageEntry) (us : list URLRecord) : Prop :=
  pe_numValues pe = Z.of_nat (length us) /\
  (pe_zoneMin pe, pe_zoneMax pe, pe_hasZone pe) = zoneMap (key_column colURLHostKey enc codec host_of us).

(** A page whose zone misses the range has none of its rows. *)
Lemma page_misses_rows enc codec lo hi pe us : Forall url_wf us -> page_of enc codec pe us ->
  page_misses pe lo hi = true -> filter (wanted lo hi) us = [].
Proof.
  intros Hw [_ Hz] Hm. unfold page_misses in Hm. apply andb_prop in Hm as [Hh Hm]. rewrite Hh in Hz.
  destruct (zoneMap_spec _ _ _ (eq_sym Hz)) as [_ Hv].
  rewrite key_column_values in Hv by (eapply Forall_impl; [exact Hw |]; intros u Hu; apply Hu).
  apply Forall_fmap in Hv. apply filter_none, Forall_forall. intros u Hu Hin.
  rewrite Forall_forall in Hv. specialize (Hv u Hu). cbn in Hv.
  unfold wanted, in_range in Hin. unfold host_of in Hv. bool_prop. lia.
Qed.

Lemma page_loop_ok `{BlockCodec} file hkDir pkDir enc codec lo hi pages chunks pi :
  Forall2 (page_of enc codec) pages chunks ->
  Forall (fun us => Forall url_wf us /\ (length us <= max_rows)%nat) chunks ->
  (forall k us, chunks !! k = Some us ->
     page_data file hkDir (pi + k) = Ok (col_data 8 host_of us) /\
     page_data file pkDir (pi + k) = Ok (col_data 8 path_of us)) ->
  page_loop file hkDir pkDir lo hi pages pi = Ok (r_URLKey <$> filter (wanted lo hi) (mjoin chunks)).
Proof.
  intros Hf. revert pi. induction Hf as [|pe us pages chunks Hpe _ IH]; intros pi Hw Hd; [done |].
  apply Forall_cons in Hw as [[Hus Hlen] Hw]. cbn [page_loop]. change (mjoin (us :: chunks)) with (us ++ mjoin chunks).
  rewrite filter_app, fmap_app.
  assert (IH' : page_loop file hkDir pkDir lo hi pages (S pi) = Ok (r_URLKey <$> filter (wanted lo hi) (mjoin chunks))).
  { apply IH; [done |]. intros k vs Hk. rewrite Nat.add_succ_comm. by apply (Hd (S k)). }
  rewrite IH'. destruct (page_misses pe lo hi) eqn:Em.
  - by rewrite (page_misses_rows _ _ _ _ _ _ Hus Hpe Em).
  - destruct (Hd 0%nat us eq_refl) as [E1 E2]. rewrite Nat.add_0_r in E1, E2. rewrite E1, E2. cbn [mbind res_bind].
    destruct Hpe as [-> _]. pose proof max_rows_val. rewrite !col_data_length, (i64_small (Z.of_nat _)) by lia.
    rewrite i64_small by lia. bool_lia. cbn [orb negb ensure mbind res_bind]. by rewrite page_keys_ok.
Qed.

Section Encoded.
Context `{BlockCodecLaws} (p : Partition) (pairs : list kvPair) (Hp : partition_wf p).
Let b := file_bytes p pairs.
Context (Hlen : Z.of_nat (length b) < 2 ^ 32).
Let ucols := urlColumns (p_URLs p) (p_DefaultCodec p).
Let r := mkReader b (header_of p (lay_out p)) (footer_sorted (footer_of p (lay_out p) pairs)).

Lemma reader_opens : NewReader b = Ok r.
Proof using H0 Hp Hlen. unfold NewReader, b. by rewrite (open_file_ok p pairs Hp Hlen). Qed.

(** Where a URL column sits and what its directory entry is. *)
Lemma url_column i c :
  ucols !! i = Some c -> col_ok c /\ exists pre rest,
    let s := Z.of_nat (length pre) in
    b = pre ++ (encode_column c s (p_MaxPageRows p)).1 ++ rest /\
    l_urlDir (lay_out p) !! i = Some (encode_column c s (p_MaxPageRows p)).2 /\
    s + Z.of_nat (length (encode_column c s (p_MaxPageRows p)).1) < 2 ^ 62.
Proof using H0 Hp Hlen.
  intros Hi. destruct (lay_out_url p pairs Hlen) as [U1 U2].
  assert (Hok : Forall col_ok ucols) by (apply urlColumns_ok, Hp).
  split; [by eapply Forall_lookup_1 |].
  destruct (region_of_lookup ucols 64 (p_MaxPageRows p) (header_Encode (header_of p (lay_out p)))
    (l_host (lay_out p) ++ l_sched (lay_out p) ++ l_seen (lay_out p) ++ l_blob (lay_out p) ++
     encodeFooter (footer_of p (lay_out p) pairs) ++ trailer (encodeFooter (footer_of p (lay_out p) pairs))) i c Hi)
    as (pre & rest & E1 & E2 & E3); [by rewrite header_Encode_length |].
  exists pre, rest. cbv zeta in *. split_and!.
  - rewrite <- E2. unfold b. rewrite (at_url p pairs). fold ucols in U1. by rewrite U1.
  - rewrite U2, list_lookup_fmap. fold ucols. by rewrite E1.
  - pose proof (file_length p pairs) as E. rewrite U1 in E. fold ucols in E. fold b in E. lia.
Qed.

Lemma url_dir_good :
  Forall2 (fun c d => cd_columnID d = c_id c /\ decode_column b d = Ok (c_data c)) ucols (l_urlDir (lay_out p)).
Proof using H0 Hp Hlen.
  destruct (lay_out_url p pairs Hlen) as [_ U2]. apply Forall2_same_length_lookup. split.
  { rewrite U2, length_fmap. fold ucols. generalize 64. induction ucols as [|c cols IH]; intros s; [done |].
    cbn. by rewrite <- IH. }
  intros i c d Hc Hd. destruct (url_column i c Hc) as (Hok & pre & rest & Eb & Ed & Hs). cbv zeta in *.
  rewrite Ed in Hd. injection Hd as <-. split.
  - unfold encode_column. by destruct (zoneMap c) as [[??]?].
  - rewrite Eb. apply decode_column_good; [done | done | lia].
Qed.

Lemma project_ok want :
  exists cols, projectURL r want = Ok cols /\
    forall c, c ∈ ucols -> c_id c ∈ want -> cols !! c_id c = Some (c_data c).
Proof using H0 Hp Hlen.
  eexists. split; [apply (decode_selection _ _ _ _ _ url_dir_good) |].
  intros c Hc Hid. apply foldl_insert_lookup.
  - pose proof (urlColumns_ids (p_URLs p) (p_DefaultCodec p)) as Hn. fold ucols in Hn.
    revert Hn. generalize ucols. clear. intros l Hn. eapply sublist_NoDup; [exact Hn |].
    apply fmap_sublist, sublist_filter.
  - by apply list_elem_of_filter.
Qed.

(** *** Rows out of a projection *)

(** What a projection of the key and due columns holds. *)
Record projected (cols : gmap Z (list Z)) : Prop := {
  pj_hk : cols !! colURLHostKey = Some (col_data 8 (fun u => HostKey (r_URLKey u)) (p_URLs p));
  pj_pk : cols !! colURLPathKey = Some (col_data 8 (fun u => PathKey (r_URLKey u)) (p_URLs p))
}.
Definition projected_due (cols : gmap Z (list Z)) : Prop :=
  cols !! colURLNextDue = Some (col_data 4 r_NextDue (p_URLs p)).

Lemma project_keys want : colURLHostKey ∈ want -> colURLPathKey ∈ want ->
  exists cols, projectURL r want = Ok cols /\ projected cols /\ (colURLNextDue ∈ want -> projected_due cols).
Proof using H0 Hp Hlen.
  intros Hh Hk. destruct (project_ok want) as (cols & E & Hc). exists cols.
  assert (Hin : forall i c, ucols !! i = Some c -> c_id c ∈ want -> cols !! c_id c = Some (c_data c))
    by (intros i c Hi; apply Hc; by eapply list_elem_of_lookup_2).
  split; [done |]. split; [split |].
  - exact (Hin 0%nat _ eq_refl Hh).
  - exact (Hin 1%nat _ eq_refl Hk).
  - intros Hd. exact (Hin 10%nat _ eq_refl Hd).
Qed.

Lemma count_ok : URLCount r = Z.of_nat (length (p_URLs p)).
Proof using Hp.
  unfold URLCount. cbn [rd_header header_of hd_URLCount]. apply i64_small.
  pose proof (pw_nurls p Hp). pose proof max_rows_val. lia.
Qed.

Lemma long_column {R} cols cid w k (f : R -> Z) (l : list R) :
  cols !! cid = Some (col_data w f l) -> k = Z.of_nat w -> (w <= 8)%nat -> (length l <= max_rows)%nat ->
  short_column cols cid (Z.of_nat (length l)) k = false.
Proof using Hp Hlen.
  intros Hc -> Hw Hl. unfold short_column, column_of. rewrite Hc. cbn [default from_option id].
  rewrite col_data_length. pose proof max_rows_val. rewrite i64_small by nia. apply Z.ltb_ge. lia.
Qed.

Lemma url_at_wf i u : p_URLs p !! i = Some u -> url_wf u.
Proof using Hp. intros Hi. pose proof (pw_urls p Hp) as Hw. by eapply Forall_lookup_1 in Hw. Qed.

Lemma key_at_ok cols i u : projected cols -> p_URLs p !! i = Some u -> key_at cols i = Ok (r_URLKey u).
Proof using Hp.
  intros [Hh Hk] Hi. destruct (url_at_wf i u Hi) as [[Hf1 Hf2] _]. unfold key_at.
  rewrite (get_u_data _ _ 8 _ _ _ _ Hh Hi), (get_u_data _ _ 8 _ _ _ _ Hk Hi) by done. cbn. by destruct (r_URLKey u).
Qed.

Lemma due_at_ok cols i u : projected_due cols -> p_URLs p !! i = Some u -> get_u cols colURLNextDue 4 i = Ok (r_NextDue u).
Proof using Hp.
  intros Hd Hi. apply (get_u_data _ _ 4 _ _ _ _ Hd Hi). destruct (url_at_wf i u Hi). naive_solver.
Qed.

Definition due_now (now : Z) (u : URLRecord) : Prop := r_NextDue u <> 0 /\ r_NextDue u <= now.

Lemma due_keys_ok cols check now rows us :
  projected cols -> projected_due cols ->
  Forall2 (fun i u => check i = true /\ p_URLs p !! Z.to_nat i = Some u) rows us ->
  due_keys cols check now rows = Ok (r_URLKey <$> filter (due_now now) us).
Proof using Hp.
  intros Hk Hd. induction 1 as [|i u rows us [Hc Hi] _ IH]; [done |]. cbn [due_keys].
  rewrite Hc. cbn [ensure mbind res_bind]. rewrite (due_at_ok cols _ u Hd Hi). cbn [mbind res_bind].
  rewrite IH, (key_at_ok cols _ u Hk Hi), filter_cons.
  destruct (decide (due_now now u)) as [[Hn Hl] | Hno].
  - by rewrite (proj2 (Z.eqb_neq _ _) Hn), (proj2 (Z.leb_le _ _) Hl).
  - destruct (Z.eqb_spec (r_NextDue u) 0), (Z.leb_spec (r_NextDue u) now); try done. by destruct Hno.
Qed.

Lemma URLKeys_ok : URLKeys r = Ok (r_URLKey <$> p_URLs p).
Proof using H0 Hp Hlen.
  unfold URLKeys. destruct (project_keys [colURLHostKey; colURLPathKey]) as (cols & -> & Hk & _);
    [by left | by right; left |]. cbn [mbind res_bind]. rewrite count_ok.
  rewrite (long_column _ _ 8 8 _ _ (pj_hk _ Hk)), (long_column _ _ 8 8 _ _ (pj_pk _ Hk)) by (done || apply Hp || lia).
  cbn [negb orb ensure mbind res_bind]. bool_lia. cbn [ensure mbind res_bind].
  rewrite Nat2Z.id, <- (length_fmap r_URLKey). apply mapM_seq_ok. intros i k Hi.
  rewrite list_lookup_fmap in Hi. destruct (p_URLs p !! i) as [u |] eqn:Eu; [| done]. injection Hi as <-.
  by apply key_at_ok.
Qed.

Lemma NextDue_ok : NextDue r = Ok (r_NextDue <$> p_URLs p).
Proof using H0 Hp Hlen.
  unfold NextDue. destruct (project_ok [colURLNextDue]) as (cols & -> & Hc). cbn [mbind res_bind]. rewrite count_ok.
  assert (Hd : projected_due cols).
  { apply (Hc (mkColumn colURLNextDue 4 kindUint EncDelta (p_DefaultCodec p) (col_data 4 r_NextDue (p_URLs p)))).
    - by apply (list_elem_of_lookup_2 _ 10).
    - by left. }
  rewrite (long_column _ _ 4 4 _ _ Hd) by (done || apply Hp || lia).
  cbn [negb ensure mbind res_bind]. bool_lia. cbn [ensure mbind res_bind].
  rewrite Nat2Z.id, <- (length_fmap r_NextDue). apply mapM_seq_ok. intros i k Hi.
  rewrite list_lookup_fmap in Hi. destruct (p_URLs p !! i) as [u |] eqn:Eu; [| done]. injection Hi as <-.
  by apply due_at_ok.
Qed.

Lemma due_columns_ok : exists cols, due_columns r = Ok cols /\ projected cols /\ projected_due cols.
Proof using H0 Hp Hlen.
  unfold due_columns. destruct (project_keys [colURLHostKey; colURLPathKey; colURLNextDue]) as (cols & -> & Hk & Hd);
    [by left | by right; left |]. specialize (Hd ltac:(by right; right; left)).
  cbn [mbind res_bind]. rewrite count_ok.
  rewrite (long_column _ _ 8 8 _ _ (pj_hk _ Hk)), (long_column _ _ 8 8 _ _ (pj_pk _ Hk)), (long_column _ _ 4 4 _ _ Hd)
    by (done || apply Hp || lia).
  cbn [negb orb ensure mbind res_bind]. by exists cols.
Qed.

Lemma dues_fit : Forall (fun u => fits 32 (r_NextDue u)) (p_URLs p).
Proof using Hp. eapply Forall_impl; [apply Hp |]. intros u Hu. apply Hu. Qed.

Lemma stats_due : st_dueMin (f_stats (rd_footer r)) = (dueRange (p_URLs p)).1.
Proof using Type. cbn. unfold stats_of. by destruct (dueRange (p_URLs p)). Qed.

(** The pushdown is exact. *)
Lemma MaybeDueAt_ok now : MaybeDueAt r now = true <-> exists u, u ∈ p_URLs p /\ due_now now u.
Proof using Hp.
  unfold MaybeDueAt. rewrite stats_due. unfold due_now.
  destruct (dueRange_low (p_URLs p)) as [[E Hall] | (E & u & Hu & Eu)].
  - rewrite E. cbn. split; [done |]. intros (u & Hu & Hn & _). by rewrite (Hall u Hu) in Hn.
  - rewrite (proj2 (Z.eqb_neq _ _) E). cbn [negb andb]. rewrite Z.leb_le. split.
    + intros Hle. exists u. rewrite Eu. done.
    + intros (v & Hv & Hn & Hle). pose proof (dueRange_min _ v E dues_fit Hv Hn). lia.
Qed.

Lemma seq_rows : Forall2 (fun i u => true = true /\ p_URLs p !! Z.to_nat i = Some u)
  (Z.of_nat <$> seq 0 (length (p_URLs p))) (p_URLs p).
Proof using Type.
  apply Forall2_same_length_lookup. split; [by rewrite length_fmap, length_seq |].
  intros i x u Hx Hu. rewrite list_lookup_fmap in Hx. destruct (seq 0 _ !! i) as [j |] eqn:Ej; [| done].
  injection Hx as <-. apply lookup_seq in Ej as [-> _]. by rewrite Nat2Z.id.
Qed.

Lemma DueKeys_ok now : DueKeys r now = Ok (r_URLKey <$> filter (due_now now) (p_URLs p)).
Proof using H0 Hp Hlen.
  unfold DueKeys. destruct (MaybeDueAt r now) eqn:Em; cbn [negb].
  - destruct due_columns_ok as (cols & -> & Hk & Hd). cbn [mbind res_bind]. rewrite count_ok, Nat2Z.id.
    apply due_keys_ok; [done | done | apply seq_rows].
  - rewrite filter_none; [done |]. apply Forall_forall. intros u Hu Hd.
    apply not_true_iff_false in Em. apply Em, MaybeDueAt_ok. by exists u.
Qed.

(** Rows picked by position. *)
Definition picked (rows : list Z) : list URLRecord := omap (fun i => p_URLs p !! Z.to_nat i) rows.
Definition due_row (now i : Z) : bool :=
  match p_URLs p !! Z.to_nat i with Some u => bool_decide (due_now now u) | None => false end.

Lemma picked_due now rows : filter (due_now now) (picked rows) = picked (filter (fun i => due_row now i = true) rows).
Proof using Type.
  unfold picked. induction rows as [|i rows IH]; [done |]. rewrite filter_cons. cbn [omap list_omap].
  destruct (p_URLs p !! Z.to_nat i) as [u |] eqn:Eu.
  - assert (Hr : due_row now i = bool_decide (due_now now u)) by (unfold due_row; by rewrite Eu).
    destruct (decide (due_row now i = true)) as [Ht | Ht]; rewrite Hr, bool_decide_eq_true in Ht.
    + rewrite filter_cons_True by done. cbn [omap list_omap]. rewrite Eu. by rewrite IH.
    + rewrite filter_cons_False by done. exact IH.
  - rewrite decide_False; [done |]. unfold due_row. by rewrite Eu.
Qed.

Lemma picked_all : picked (Z.of_nat <$> seq 0 (length (p_URLs p))) = p_URLs p.
Proof using Type.
  assert (Hg : forall rows us, Forall2 (fun i u => true = true /\ p_URLs p !! Z.to_nat i = Some u) rows us ->
    picked rows = us); [| apply Hg, seq_rows].
  unfold picked. induction 1 as [|i u rows us [_ Hi] _ IH]; [done |].
  cbn [omap list_omap]. rewrite Hi. by rewrite IH.
Qed.

Lemma picked_rows cand : (forall i, i ∈ cand -> 0 <= i < Z.of_nat (length (p_URLs p))) ->
  Forall2 (fun i u => (0 <=? i) && (i <? URLCount r) = true /\ p_URLs p !! Z.to_nat i = Some u) cand (picked cand).
Proof using Hp.
  rewrite count_ok. induction cand as [|i cand IH]; intros Hc; [constructor |].
  destruct (lookup_lt_is_Some_2 (p_URLs p) (Z.to_nat i)) as [u Hu]; [specialize (Hc i (list_elem_of_here _ _)); lia |].
  unfold picked. cbn [omap list_omap]. rewrite Hu. constructor; [| apply IH; intros j Hj; apply Hc; by right].
  split; [| done]. specialize (Hc i (list_elem_of_here _ _)). by bool_lia.
Qed.

Lemma rd_Schedule_ok :
  rd_Schedule r = Ok (if p_BuildSchedule p && negb ((dueRange (p_URLs p)).1 =? 0)
    then Some (mkSched (dueRange (p_URLs p)).1 (Z.of_nat (length (p_URLs p)))
                 (wheel_of (p_URLs p) (dueRange (p_URLs p)).1)) else None).
Proof using H0 Hp Hlen.
  pose proof (sched_present p pairs) as Hs. destruct (find_regions p) as (Hf & _). unfold rd_Schedule.
  change (f_regions (rd_footer r)) with (regions_of (lay_out p)). rewrite Hf in Hs |- *.
  destruct (is_empty (l_sched (lay_out p))) eqn:Ee; rewrite <- Hs; [done |].
  rewrite bool_decide_eq_true_2 by done. symmetry in Hs. rewrite bool_decide_eq_true_2 in Hs by done.
  apply andb_prop in Hs as [Hb Hd]. apply negb_true_iff, Z.eqb_neq in Hd. cbv zeta.
  destruct (slice_at p pairs _ _ _ _ (at_sched p pairs) (off_sched p pairs)) as [Es El]. fold b in Es, El.
  assert (Ho : 0 <= schedOff (lay_out p)) by (rewrite (off_sched p pairs); lia).
  cbn [region_entry rg_offset rg_length rd_file r]. rewrite u64_small by (unfold fits; lia).
  bool_lia. cbn [andb ensure mbind res_bind]. rewrite Es.
  change (l_sched (lay_out p)) with (if p_BuildSchedule p then encodeScheduleRegion (p_URLs p) (p_DefaultCodec p) else []).
  assert (Hn : Z.of_nat (length (p_URLs p)) <= 2 ^ 26)
    by (pose proof (pw_nurls p Hp); pose proof max_rows_val; lia).
  rewrite Hb. by rewrite (decodeScheduleRegion_encode _ _ Hn dues_fit Hd).
Qed.

Lemma DueByWheel_ok now : fits 32 now ->
  exists ks, DueByWheel r now = Ok ks /\ ks ≡ₚ r_URLKey <$> filter (due_now now) (p_URLs p).
Proof using H0 Hp Hlen.
  intros Hnow. unfold DueByWheel. rewrite rd_Schedule_ok. cbn [mbind res_bind].
  destruct (p_BuildSchedule p && negb ((dueRange (p_URLs p)).1 =? 0)) eqn:Eb.
  2: { eexists. by rewrite DueKeys_ok. }
  apply andb_prop in Eb as [_ Ed%negb_true_iff%Z.eqb_neq].
  destruct (wheel_due_rows (p_URLs p) now) as (Hnd & Hdue & Hcand); [| apply dues_fit | done | done |].
  { pose proof (pw_nurls p Hp). pose proof max_rows_val. lia. }
  set (idx := mkSched _ _ _) in *.
  assert (Hperm : filter (due_now now) (picked (DueBuckets idx now)) ≡ₚ filter (due_now now) (p_URLs p)).
  { rewrite <- (f_equal (filter (due_now now)) picked_all), !picked_due. unfold picked. apply omap_Permutation, NoDup_Permutation.
    - by apply NoDup_filter.
    - apply NoDup_filter, NoDup_fmap_2; [by intros ???%Nat2Z.inj | apply NoDup_seq].
    - intros i. rewrite !list_elem_of_filter. unfold due_row. split; intros [Hr Hi]; (split; [done |]).
      + destruct (Hcand i Hi) as (k & u & Hk & -> & _). apply list_elem_of_fmap. exists k. split; [done |].
        apply elem_of_seq. apply lookup_lt_Some in Hk. lia.
      + apply list_elem_of_fmap in Hi as (k & -> & _). rewrite Nat2Z.id in Hr.
        destruct (p_URLs p !! k) as [u |] eqn:Eu; [| done]. apply bool_decide_eq_true in Hr as [Hn Hle].
        by apply (Hdue k u). }
  destruct (DueBuckets idx now) as [|i cand] eqn:Ec.
  - exists []. split; [done |]. rewrite <- Hperm. done.
  - rewrite <- Ec in *. destruct due_columns_ok as (cols & -> & Hk & Hd). cbn [mbind res_bind].
    rewrite (due_keys_ok cols _ now _ (picked (DueBuckets idx now))); [| done | done |].
    + eexists. split; [done |]. by rewrite Hperm.
    + apply picked_rows. intros j Hj. destruct (Hcand j Hj) as (k & u & Hku & -> & _).
      apply lookup_lt_Some in Hku. lia.
Qed.

(** *** A host range *)

Lemma dir_ids : cd_columnID <$> l_urlDir (lay_out p) = c_id <$> ucols.
Proof using H0 Hp Hlen.
  pose proof url_dir_good as Hf. revert Hf. generalize (l_urlDir (lay_out p)). generalize ucols.
  induction 1 as [|c d cs ds [Hid _] _ IH]; [done |]. by rewrite !fmap_cons, Hid, IH.
Qed.

Lemma dir_unique i d cid : l_urlDir (lay_out p) !! i = Some d -> cd_columnID d = cid ->
  filter (fun e => cd_columnID e = cid) (l_urlDir (lay_out p)) = [d].
Proof using H0 Hp Hlen.
  intros Hd <-. revert Hd.
  assert (Hn : NoDup (cd_columnID <$> l_urlDir (lay_out p))) by (rewrite dir_ids; apply urlColumns_ids).
  revert i Hn. induction (l_urlDir (lay_out p)) as [|e l IH]; intros [|i] Hn Hi; [done | done | |];
    rewrite fmap_cons in Hn; apply NoDup_cons in Hn as [Hout Hn].
  - injection Hi as ->. rewrite filter_cons_True, filter_none; [done | | done].
    apply Forall_forall. intros x Hx E. apply Hout. rewrite <- E. by apply list_elem_of_fmap_2.
  - rewrite filter_cons_False; [by apply (IH i) |]. intros E. apply Hout. rewrite E.
    apply list_elem_of_fmap_2. by eapply list_elem_of_lookup_2.
Qed.

Let chunks := row_pages (p_MaxPageRows p) (p_URLs p).

Lemma chunks_wf : Forall (fun us => Forall url_wf us /\ (length us <= max_rows)%nat) chunks.
Proof using H0 Hp Hlen.
  assert (Hj : mjoin chunks = p_URLs p) by apply row_pages_join.
  pose proof (pw_urls p Hp) as Hw. pose proof (pw_nurls p Hp) as Hn. rewrite <- Hj in Hw, Hn. clear Hj.
  revert Hw Hn. generalize chunks. intros l. induction l as [|us l IH]; intros Hw Hn; [constructor |].
  change (mjoin (us :: l)) with (us ++ mjoin l) in *. apply Forall_app in Hw as [H1 H2]. rewrite length_app in Hn.
  constructor; [split; [done | lia] | apply IH; [done | lia]].
Qed.

(** A directory entry of a key column, page by page. *)
Lemma key_dir i cid enc f :
  ucols !! i = Some (key_column cid enc (p_DefaultCodec p) f (p_URLs p)) ->
  exists d, l_urlDir (lay_out p) !! i = Some d /\ cd_columnID d = cid /\
    cd_numPages d = Z.of_nat (length chunks) /\
    ((1 < length chunks)%nat -> length (cd_pages d) = length chunks /\
     forall k us, chunks !! k = Some us ->
       page_data b d k = Ok (col_data 8 f us) /\
       exists pe, cd_pages d !! k = Some pe /\ pe_numValues pe = Z.of_nat (length us) /\
         (pe_zoneMin pe, pe_zoneMax pe, pe_hasZone pe) = zoneMap (key_column cid enc (p_DefaultCodec p) f us)).
Proof using H0 Hp Hlen.
  intros Hi. destruct (url_column i _ Hi) as (Hok & pre & rest & Eb & Ed & Hs). cbv zeta in *.
  set (c := key_column cid enc (p_DefaultCodec p) f (p_URLs p)) in *.
  set (d := (encode_column c (Z.of_nat (length pre)) (p_MaxPageRows p)).2) in *.
  assert (Esub : splitColumn c (p_MaxPageRows p) = key_column cid enc (p_DefaultCodec p) f <$> chunks)
    by apply split_key_column.
  assert (Hd : cd_columnID d = cid /\ cd_numPages d = Z.of_nat (length chunks) /\
    cd_pages d = if (1 <? length chunks)%nat
      then snd <$> column_pages (key_column cid enc (p_DefaultCodec p) f <$> chunks) 0 else []).
  { unfold d, encode_column. rewrite Esub. destruct (zoneMap c) as [[??]?].
    cbn [snd cd_columnID cd_numPages cd_pages]. by rewrite length_fmap. }
  destruct Hd as (Hid & Hnp & Hpg). exists d. split_and!; [done | done | done |]. intros Hmany.
  rewrite (proj2 (Nat.ltb_lt _ _)) in Hpg by done.
  assert (Hlp : length (cd_pages d) = length chunks) by (by rewrite Hpg, length_fmap, column_pages_length, length_fmap).
  split; [done |]. intros k us Hk.
  assert (Hsub : splitColumn c (p_MaxPageRows p) !! k = Some (key_column cid enc (p_DefaultCodec p) f us))
    by (by rewrite Esub, list_lookup_fmap, Hk).
  split.
  - unfold page_data. rewrite (proj2 (Nat.leb_le _ _)) by (apply lookup_lt_Some in Hk; lia).
    cbn [ensure mbind res_bind]. rewrite Eb.
    apply (decodeColumnPage_good c _ (p_MaxPageRows p) pre rest k (key_column cid enc (p_DefaultCodec p) f us) Hok eq_refl);
      [lia | done |]. by rewrite Esub, length_fmap.
  - rewrite Esub in Hsub. destruct (column_pages_entries _ 0 _ _ Hsub) as (pg & pe & Epe & _ & Hnv & _ & Hz).
    exists pe. rewrite key_column_rows in Hnv. rewrite Hpg, list_lookup_fmap, Epe. done.
Qed.

Lemma HostRange_ok lo hi :
  Forall (fun u => p_HostKeyLo p <= host_of u <= p_HostKeyHi p) (p_URLs p) ->
  HostRangeURLKeys r lo hi = Ok (r_URLKey <$> filter (wanted lo hi) (p_URLs p)).
Proof using H0 Hp Hlen.
  intros Hr. unfold HostRangeURLKeys.
  change (hd_HostKeyLo (rd_header r)) with (p_HostKeyLo p). change (hd_HostKeyHi (rd_header r)) with (p_HostKeyHi p).
  destruct (_ || _) eqn:Eout.
  { rewrite filter_none; [done |]. eapply Forall_impl; [exact Hr |]. intros u Hu Hin.
    unfold wanted, in_range in Hin. unfold host_of in Hu. bool_prop. lia. }
  clear Eout. destruct (key_dir 0 colURLHostKey EncRLE host_of eq_refl) as (hkd & Ehk & Hid & Hnum & Hpages).
  destruct (key_dir 1 colURLPathKey EncDeltaFOR path_of eq_refl) as (pkd & Epk & Hid' & _ & Hpages').
  change (f_urlDir (rd_footer r)) with (l_urlDir (lay_out p)). unfold last_dir.
  rewrite (dir_unique _ _ _ Ehk Hid), (dir_unique _ _ _ Epk Hid'). cbn [last].
  rewrite Hnum. destruct (_ || _) eqn:Eone.
  - rewrite URLKeys_ok. cbn [mbind res_bind]. f_equal.
    apply wanted_keys.
  - bool_prop. destruct (Hpages ltac:(lia)) as [Hl Hk]. destruct (Hpages' ltac:(lia)) as [_ Hk'].
    rewrite (page_loop_ok _ _ _ EncRLE (p_DefaultCodec p) _ _ _ chunks); [| | apply chunks_wf |].
    + f_equal. unfold chunks. by rewrite row_pages_join.
    + apply Forall2_same_length_lookup. split; [done |]. intros i pe us Hpe Hus.
      destruct (Hk i us Hus) as (_ & pe' & Epe & Hp'). rewrite Hpe in Epe. by injection Epe as <-.
    + intros k us Hus. split; [by apply Hk | by apply Hk'].
Qed.
End Encoded.

(** ** The property *)

(** C8: Reading columns out of a file agrees with decoding it: on what [Encode] writes for a
    well-formed partition, the reader opens, and its key column, its due column, its due
    keys at any hour (by scanning, and by the wheel when the file carries one), its exact
    due pushdown, and its page-skipping host range are the projections of the rows [Decode]
    returns, when the partition's host range covers its rows. *)
Theorem reader_agrees_with_decode `{BlockCodecLaws} (p : Partition) (b : list Z) (Hp : partition_wf p)
    (He : Encode p = Ok b) (Hlen : Z.of_nat (length b) < 2 ^ 32)
    (Hr : Forall (fun u => p_HostKeyLo p <= HostKey (r_URLKey u) <= p_HostKeyHi p) (p_URLs p)) :
  exists r q, NewReader b = Ok r /\ Decode b = Ok q /\
    let rows := p_URLs q in
    URLKeys r = Ok (r_URLKey <$> rows) /\
    NextDue r = Ok (r_NextDue <$> rows) /\
    (forall lo hi, HostRangeURLKeys r lo hi = Ok (r_URLKey <$> filter (wanted lo hi) rows)) /\
    forall now,
      (MaybeDueAt r now = true <-> exists u, u ∈ rows /\ due_now now u) /\
      DueKeys r now = Ok (r_URLKey <$> filter (due_now now) rows) /\
      (fits 32 now -> exists ks, DueByWheel r now = Ok ks /\ ks ≡ₚ r_URLKey <$> filter (due_now now) rows).
Proof.
  unfold Encode in He. rewrite Encode_in_eq in He. destruct (sortedURLs (p_URLs p)) eqn:Eu; [| done].
  destruct (sortedHosts (p_Hosts p)); [| done]. injection He as <-. set (pairs := map_to_list (p_Meta p)) in *.
  exists (mkReader (file_bytes p pairs) (header_of p (lay_out p)) (footer_sorted (footer_of p (lay_out p) pairs))), (decoded p).
  split; [by apply reader_opens |]. split; [exact (Decode_ok p _ Hp Hlen (reflexivity _) Eu) |]. cbv zeta.
  change (p_URLs (decoded p)) with (p_URLs p). split_and!.
  - by apply URLKeys_ok.
  - by apply NextDue_ok.
  - intros lo hi. by apply HostRange_ok.
  - intros now. split; [by apply MaybeDueAt_ok |]. split; [by apply DueKeys_ok | by apply DueByWheel_ok].
Qed.

#[local] Instance plain_codec : BlockCodec := {| zstd_enc s := s; zstd_dec s _ := Ok s |}.
#[local] Instance plain_codec_laws : BlockCodecLaws.
Proof. constructor; [reflexivity | cbn; lia]. Qed.

(** Three rows in pages of two. *)
Definition paged_partition : Partition :=
  mkPartition 7 0 (2 ^ 64 - 1) 2 CodecZstd
    [example_url 1 5 100; example_url 1 9 0; example_url 2 3 40] [example_host 1; example_host 2]
    [0; 3; 97; 98; 99] [1; 2; 3] true 2 ∅.
Definition paged_file : list Z := default [] (match Encode paged_partition with Ok b => Some b | _ => None end).

Lemma reader_agrees_with_decode_witness :
  exists r q, NewReader paged_file = Ok r /\ Decode paged_file = Ok q /\
    HostRangeURLKeys r 2 9 = Ok (r_URLKey <$> filter (wanted 2 9) (p_URLs q)) /\
    HostRangePageScan r 2 9 = (1%nat, 2%nat).
Proof.
  destruct (reader_agrees_with_decode paged_partition paged_file) as (r & q & Er & Eq & _ & _ & Hh & _).
  - pose proof max_rows_val. split; [fits_const .. | cbn; lia | cbn; lia | fits_const | fits_const].
  - vm_compute. reflexivity.
  - vm_compute. reflexivity.
  - apply (bool_decide_unpack _). vm_compute. exact I.
  - exists r, q. split; [exact Er |]. split; [exact Eq |]. split; [apply Hh |].
    assert (Ec : (match NewReader paged_file with Ok r => HostRangePageScan r 2 9 | _ => (0%nat, 0%nat) end) = (1%nat, 2%nat))
      by (vm_compute; reflexivity).
    rewrite Er in Ec. exact Ec.
Defined.
(** A file whose footer places the schedule region outside the file: the checks of
    [NewReader] do not look at it. *)
Definition misplaced_file : list Z :=
  let l := lay_out paged_partition in
  let f := footer_of paged_partition l [] in
  let move reg := if decide (rg_id reg = RegionSchedule) then mkRegion (rg_id reg) 4000000 (rg_length reg) (rg_crc reg) (rg_flags reg) else reg in
  let footerBytes := encodeFooter (mkFooter (move <$> f_regions f) (f_urlDir f) (f_hostDir f) (f_stats f) (f_meta f)) in
  header_Encode (header_of paged_partition l) ++ l_url l ++ l_host l ++ l_sched l ++ l_seen l ++ l_blob l ++
  footerBytes ++ trailer footerBytes.

(** Decode reports such a file as corrupt, and the reader opens it and panics on the wheel. *)
Theorem reader_schedule_unchecked :
  Decode misplaced_file = Err ErrCorrupt /\
  exists r, NewReader misplaced_file = Ok r /\ HasSchedule r = true /\ DueByWheel r 100 = Err GoPanic.
Proof.
  split; [vm_compute; reflexivity |].
  assert (Hc : (match NewReader misplaced_file with Ok r => (HasSchedule r, DueByWheel r 100) | Err e => (false, Err e) end)
    = (true, Err GoPanic)) by (vm_compute; reflexivity).
  destruct (NewReader misplaced_file) as [r |]; [| discriminate]. injection Hc as H1 H2. by exists r.
Qed.
