(* ===== verification/Heap.v ===== *)
(** * The two binary heaps of the frontier

    frontier/heap.go keeps the hosts whose politeness window is shut, and
    frontier/wheel.go the URLs due beyond the wheel's horizon, each in a
    hand-rolled array heap.  The two sift loops of the two files are written
    differently; both are modelled as written, over one theory of array heaps:
    an index path [i -> (i-1)/2], an order broken at one index, and the swap that
    moves the break along the path. *)

From S2P Require Import Prelude Words Model.
Open Scope nat_scope.

(** ** Array heaps over a strict weak order *)

Section Heap.
Context {A : Type} (less : A -> A -> bool).

(** Go's [a[i], a[j] = a[j], a[i]]. *)
Definition swap (l : list A) (i j : nat) : list A :=
  match l !! i, l !! j with
  | Some x, Some y => <[i := y]> (<[j := x]> l)
  | _, _ => l
  end.

(** [less] at two indexes. *)
Definition less_at (l : list A) (i j : nat) : bool :=
  match l !! i, l !! j with
  | Some x, Some y => less x y
  | _, _ => false
  end.

Definition parent (i : nat) : nat := (i - 1) / 2.

(** waitHeap.up and the sift of overHeap.push: while the child is strictly less
    than its parent, swap them.  [fuel] bounds the index. *)
Fixpoint up (fuel : nat) (l : list A) (i : nat) : list A :=
  match fuel with
  | O => l
  | S fuel =>
      if i =? 0 then l
      else if negb (less_at l i (parent i)) then l
      else up fuel (swap l i (parent i)) (parent i)
  end.

(** waitHeap.down: the smaller child first, then the comparison with the parent. *)
Fixpoint down (fuel : nat) (l : list A) (i : nat) : list A :=
  match fuel with
  | O => l
  | S fuel =>
      let left := 2 * i + 1 in
      if length l <=? left then l
      else
        let right := left + 1 in
        let small := if (right <? length l) && less_at l right left then right else left in
        if negb (less_at l small i) then l
        else down fuel (swap l i small) small
  end.

(** The sift of overHeap.pop: the smallest of the three, stop when it is [i]. *)
Fixpoint sift3 (fuel : nat) (l : list A) (i : nat) : list A :=
  match fuel with
  | O => l
  | S fuel =>
      let lc := 2 * i + 1 in
      let rc := 2 * i + 2 in
      let small := if (lc <? length l) && less_at l lc i then lc else i in
      let small := if (rc <? length l) && less_at l rc small then rc else small in
      if small =? i then l else sift3 fuel (swap l small i) small
  end.

(** The heap order: no element is less than its parent. *)
Definition heap_ordered (l : list A) : Prop :=
  forall i, 0 < i < length l -> less_at l i (parent i) = false.

(** What the comparison must be for the loops to work. *)
Class StrictWeak : Prop := {
  sw_irrefl x : less x x = false;
  sw_trans x y z : less x y = true -> less y z = true -> less x z = true;
  sw_neg_trans x y z : less y x = false -> less z y = false -> less z x = false }.

(** *** Swaps *)

Lemma swap_length l i j : length (swap l i j) = length l.
Proof. unfold swap. repeat case_match; rewrite ?length_insert; done. Qed.

Lemma swap_lookup l i j k x y :
  l !! i = Some x -> l !! j = Some y ->
  swap l i j !! k = if decide (k = i) then Some y else if decide (k = j) then Some x else l !! k.
Proof.
  intros Hi Hj. unfold swap. rewrite Hi, Hj.
  pose proof (lookup_lt_Some _ _ _ Hi). pose proof (lookup_lt_Some _ _ _ Hj).
  destruct (decide (k = i)) as [-> | ?].
  - rewrite list_lookup_insert_eq by (rewrite length_insert; lia). done.
  - rewrite list_lookup_insert_ne by done. destruct (decide (k = j)) as [-> | ?].
    + by rewrite list_lookup_insert_eq by lia.
    + by rewrite list_lookup_insert_ne by done.
Qed.

Lemma swap_perm l i j : swap l i j ≡ₚ l.
Proof.
  unfold swap. destruct (l !! i) as [x |] eqn:Hi; [| done].
  destruct (l !! j) as [y |] eqn:Hj; [| done].
  destruct (decide (i = j)) as [-> | Hne].
  { rewrite Hi in Hj. injection Hj as ->. rewrite list_insert_insert_eq.
    by rewrite list_insert_id. }
  apply Permutation_inj. split.
  { by rewrite !length_insert. }
  exists (fun k => if decide (k = i) then j else if decide (k = j) then i else k). split.
  - intros a b. repeat case_decide; congruence.
  - intros k. pose proof (swap_lookup l i j k x y Hi Hj) as E. unfold swap in E.
    rewrite Hi, Hj in E. rewrite E. repeat case_decide; subst; congruence.
Qed.

Lemma swap_comm l i j : swap l i j = swap l j i.
Proof.
  destruct (l !! i) as [x |] eqn:Hi, (l !! j) as [y |] eqn:Hj;
    try (unfold swap; by rewrite Hi, Hj).
  apply list_eq. intros k.
  rewrite (swap_lookup l i j k x y), (swap_lookup l j i k y x) by done.
  repeat case_decide; congruence.
Qed.

(** *** The sift loops keep the elements *)

Lemma up_perm fuel l i : up fuel l i ≡ₚ l.
Proof.
  revert l i. induction fuel as [|fuel IH]; intros l i; [done |]. cbn [up].
  repeat case_match; [done | done |]. rewrite IH. apply swap_perm.
Qed.

Lemma down_perm fuel l i : down fuel l i ≡ₚ l.
Proof.
  revert l i. induction fuel as [|fuel IH]; intros l i; [done |]. cbn [down]. cbv zeta.
  case_match; [done |]. case_match; [done |]. rewrite IH. apply swap_perm.
Qed.

(** *** The order after a swap *)

Lemma less_at_lookup l i j x y :
  l !! i = Some x -> l !! j = Some y -> less_at l i j = less x y.
Proof. intros Hi Hj. unfold less_at. by rewrite Hi, Hj. Qed.

Lemma parent_lt i : 0 < i -> parent i < i.
Proof. intros. unfold parent. apply Nat.Div0.div_lt_upper_bound. lia. Qed.

Lemma parent_children i k : 0 < k -> parent k = i <-> k = 2 * i + 1 \/ k = 2 * i + 2.
Proof.
  intros Hk. unfold parent. split.
  - intros <-. pose proof (Nat.div_mod_eq (k - 1) 2).
    pose proof (Nat.mod_upper_bound (k - 1) 2). lia.
  - intros [-> | ->].
    + replace (2 * i + 1 - 1) with (i * 2) by lia. by rewrite Nat.div_mul.
    + replace (2 * i + 2 - 1) with (i * 2 + 1) by lia.
      rewrite Nat.div_add_l by lia. rewrite (Nat.div_small 1 2) by lia. lia.
Qed.

(** [up_inv l i]: ordered but possibly at [i], whose children respect [i]'s
    parent. *)
Definition up_inv (l : list A) (i : nat) : Prop :=
  (forall k, 0 < k < length l -> k <> i -> less_at l k (parent k) = false) /\
  (forall k, 0 < k < length l -> 0 < i -> parent k = i -> less_at l k (parent i) = false).

(** [down_inv l i]: ordered but possibly below [i], whose children respect [i]'s
    parent. *)
Definition down_inv (l : list A) (i : nat) : Prop :=
  (forall k, 0 < k < length l -> parent k <> i -> less_at l k (parent k) = false) /\
  (forall k, 0 < k < length l -> 0 < i -> parent k = i -> less_at l k (parent i) = false).

Context {SW : StrictWeak}.

Lemma less_asym x y : less x y = true -> less y x = false.
Proof.
  intros E. destruct (less y x) eqn:E2; [| done].
  pose proof (sw_trans _ _ _ E E2) as C. by rewrite sw_irrefl in C.
Qed.

Definition sw (i j k : nat) : nat := if decide (k = i) then j else if decide (k = j) then i else k.

Lemma less_at_swap l i j a b :
  i < length l -> j < length l ->
  less_at (swap l i j) a b = less_at l (sw i j a) (sw i j b).
Proof.
  intros Hi Hj. destruct (lookup_lt_is_Some_2 _ _ Hi) as [x Ex].
  destruct (lookup_lt_is_Some_2 _ _ Hj) as [y Ey].
  assert (E : forall k, swap l i j !! k = l !! sw i j k).
  { intros k. rewrite (swap_lookup l i j k x y Ex Ey). unfold sw.
    repeat case_decide; congruence. }
  unfold less_at. by rewrite !E.
Qed.

Lemma less_at_asym l a b : less_at l a b = true -> less_at l b a = false.
Proof.
  unfold less_at. destruct (l !! a) as [x |], (l !! b) as [y |]; try done. apply less_asym.
Qed.

Lemma less_at_neg_trans l a b c :
  b < length l -> less_at l b a = false -> less_at l c b = false -> less_at l c a = false.
Proof.
  intros Hb. destruct (lookup_lt_is_Some_2 _ _ Hb) as [y Ey]. unfold less_at. rewrite Ey.
  destruct (l !! a) as [x |], (l !! c) as [z |]; try done. apply sw_neg_trans.
Qed.

Lemma less_at_trans l a b c :
  less_at l a b = true -> less_at l b c = true -> less_at l a c = true.
Proof.
  unfold less_at. destruct (l !! a) as [x |], (l !! b) as [y |], (l !! c) as [z |]; try done.
  apply sw_trans.
Qed.

(** A parent that is less than its child's parent keeps the sibling in order. *)
Lemma less_at_sibling l k i p :
  less_at l k p = false -> less_at l i p = true -> less_at l k i = false.
Proof.
  intros H1 H2. destruct (less_at l k i) eqn:E; [| done].
  by rewrite (less_at_trans _ _ _ _ E H2) in H1.
Qed.

Ltac sw_cases := unfold sw; repeat (case_decide; try lia; try congruence).

Lemma up_ordered fuel l i :
  i <= fuel -> i < length l -> up_inv l i -> heap_ordered (up fuel l i).
Proof.
  revert l i. induction fuel as [|fuel IH]; intros l i Hf Hi [I1 I2]; cbn [up].
  { intros k Hk. apply I1; lia. }
  destruct (i =? 0) eqn:E0; bool_prop.
  { intros k Hk. apply I1; lia. }
  pose proof (parent_lt i ltac:(lia)) as Hp.
  destruct (less_at l i (parent i)) eqn:El; simpl.
  2: { intros k Hk. destruct (decide (k = i)) as [-> |]; [done | by apply I1]. }
  apply IH; [lia | rewrite swap_length; lia |].
  split; rewrite swap_length; intros k Hk; rewrite less_at_swap by lia.
  - intros Hkp. pose proof (parent_lt k ltac:(lia)).
    destruct (decide (k = i)) as [-> | Hki].
    { sw_cases; by apply less_at_asym. }
    pose proof (I1 k Hk Hki) as Ik.
    destruct (decide (parent k = i)) as [Epk | ?].
    { sw_cases; apply I2; (done || lia). }
    destruct (decide (parent k = parent i)) as [Epk | ?].
    + rewrite Epk in Ik |- *. sw_cases; by eapply less_at_sibling.
    + sw_cases; done.
  - intros Hp0 Epk. pose proof (parent_lt (parent i) Hp0).
    pose proof (I1 (parent i) ltac:(lia) ltac:(lia)) as Ip.
    destruct (decide (k = i)) as [-> | Hki]; [by sw_cases |].
    pose proof (I1 k Hk Hki) as Ik. rewrite Epk in Ik.
    pose proof (parent_lt k ltac:(lia)).
    sw_cases; eapply (less_at_neg_trans _ _ (parent i)); (done || lia).
Qed.

(** The step both down loops take: swap [i] with its smallest child. *)
Lemma down_step l i s :
  parent s = i -> 0 < s < length l -> less_at l s i = true ->
  (forall k, 0 < k < length l -> parent k = i -> less_at l k s = false) ->
  down_inv l i -> down_inv (swap l i s) s.
Proof.
  intros Eps Hs Hlt Hmin [I1 I2]. pose proof (parent_lt s ltac:(lia)).
  split; rewrite swap_length; intros k Hk; rewrite less_at_swap by lia;
    pose proof (parent_lt k ltac:(lia)).
  - intros Hne. destruct (decide (k = i)) as [-> | Hki]; [| destruct (decide (k = s)) as [-> | Hks]].
    + sw_cases; apply I2; (done || lia).
    + rewrite Eps. sw_cases; by apply less_at_asym.
    + destruct (decide (parent k = i)) as [Epk | ?].
      * rewrite Epk. sw_cases; by apply Hmin.
      * sw_cases; apply I1; (done || lia).
  - intros _ Epk. rewrite Eps. sw_cases; rewrite <- Epk. apply I1; (done || lia).
Qed.

(** Where they stop: no child is less than [i]. *)
Lemma down_stop l i :
  (forall k, 0 < k < length l -> parent k = i -> less_at l k i = false) ->
  down_inv l i -> heap_ordered l.
Proof.
  intros Hmin [I1 _] k Hk. destruct (decide (parent k = i)) as [E | E].
  - rewrite E. by apply Hmin.
  - by apply I1.
Qed.

Lemma down_ordered fuel l i :
  length l <= fuel + i -> down_inv l i -> heap_ordered (down fuel l i).
Proof.
  revert l i. induction fuel as [|fuel IH]; intros l i Hf HI; cbn [down]; cbv zeta.
  { apply (down_stop l i); [| done]. intros k Hk Epk. apply (parent_children i k ltac:(lia)) in Epk; lia. }
  destruct (length l <=? 2 * i + 1) eqn:Elen; bool_prop.
  { apply (down_stop l i); [| done]. intros k Hk Epk. apply (parent_children i k ltac:(lia)) in Epk; lia. }
  set (right := 2 * i + 1 + 1).
  assert (Hs : exists s, (if (right <? length l) && less_at l right (2 * i + 1)
                          then right else 2 * i + 1) = s /\
     parent s = i /\ 0 < s < length l /\ i < s /\
     forall k, 0 < k < length l -> parent k = i -> less_at l k s = false).
  { eexists. split; [reflexivity |].
    assert (Hrefl : forall k, less_at l k k = false).
    { intros k. unfold less_at. case_match; [apply sw_irrefl | done]. }
    destruct ((right <? length l) && less_at l right (2 * i + 1)) eqn:Er; bool_prop.
    - split; [apply parent_children; lia |]. split; [lia |]. split; [lia |].
      intros k Hk Epk. apply (parent_children i k ltac:(lia)) in Epk as [-> | ->].
      + by apply less_at_asym.
      + replace right with (2 * i + 2) by lia. done.
    - split; [apply parent_children; lia |]. split; [lia |]. split; [lia |].
      intros k Hk Epk. apply (parent_children i k ltac:(lia)) in Epk as [-> | ->]; [done |].
      apply andb_false_iff in Er as [Er | Er]; bool_prop; [lia |].
      by replace (2 * i + 2) with right by lia. }
  destruct Hs as (s & -> & Eps & Hs & His & Hmin).
  destruct (less_at l s i) eqn:El; simpl.
  - apply IH; [rewrite swap_length; lia |]. by apply down_step.
  - apply (down_stop l i); [| done]. intros k Hk Epk.
    eapply (less_at_neg_trans _ _ s); [lia | done | by apply Hmin].
Qed.

(** The sift of overHeap.pop visits the same indexes as waitHeap.down. *)
Lemma sift3_down fuel l i : sift3 fuel l i = down fuel l i.
Proof.
  revert l i. induction fuel as [|fuel IH]; intros l i; [done |]. cbn [sift3 down]. cbv zeta.
  replace (2 * i + 1 + 1) with (2 * i + 2) by lia.
  destruct (length l <=? 2 * i + 1) eqn:El; bool_prop.
  { rewrite (proj2 (Nat.ltb_ge _ _)) by lia. simpl. rewrite (proj2 (Nat.ltb_ge _ _)) by lia.
    simpl. by rewrite Nat.eqb_refl. }
  rewrite (proj2 (Nat.ltb_lt (2 * i + 1) _)) by lia. cbn [andb].
  assert (Hl : (2 * i + 1 =? i) = false) by (apply Nat.eqb_neq; lia).
  assert (Hr : (2 * i + 2 =? i) = false) by (apply Nat.eqb_neq; lia).
  destruct (less_at l (2 * i + 1) i) eqn:E1.
  - destruct ((2 * i + 2 <? length l) && less_at l (2 * i + 2) (2 * i + 1)) eqn:E2.
    + apply andb_true_iff in E2 as [_ E2]. rewrite Hr, (less_at_trans _ _ _ _ E2 E1).
      simpl. rewrite swap_comm. apply IH.
    + rewrite Hl, E1. simpl. rewrite swap_comm. apply IH.
  - destruct (2 * i + 2 <? length l) eqn:E2; cbn [andb].
    + destruct (less_at l (2 * i + 2) i) eqn:E3.
      * rewrite Hr. destruct (less_at l (2 * i + 2) (2 * i + 1)) eqn:E4.
        -- rewrite E3. simpl. rewrite swap_comm. apply IH.
        -- by rewrite (less_at_neg_trans l i (2 * i + 1) (2 * i + 2)) in E3 by (done || lia).
      * rewrite Nat.eqb_refl. destruct (less_at l (2 * i + 2) (2 * i + 1)); by rewrite ?E3, ?E1.
    + by rewrite Nat.eqb_refl, E1.
Qed.

(** *** The heap operations *)

(** Removing the root: the last element takes its place, the array shrinks. *)
Definition drop_root (l : list A) : list A :=
  match l !! (length l - 1) with
  | Some x => take (length l - 1) (<[0 := x]> l)
  | None => l
  end.

Lemma push_heap l x :
  heap_ordered l -> heap_ordered (up (length l) (l ++ [x]) (length l)) /\
  up (length l) (l ++ [x]) (length l) ≡ₚ x :: l.
Proof.
  intros Hl. split.
  - apply up_ordered; rewrite ?length_app; [lia | simpl; lia |]. split; rewrite length_app; simpl.
    + intros k Hk Hne. specialize (Hl k ltac:(lia)). pose proof (parent_lt k ltac:(lia)).
      unfold less_at in *. by rewrite !lookup_app_l by lia.
    + intros k Hk _ Epk. pose proof (parent_lt k ltac:(lia)). lia.
  - rewrite up_perm. by rewrite Permutation_app_comm.
Qed.

(** The root of a heap is a least element. *)
Lemma heap_min l x y :
  heap_ordered l -> head l = Some x -> y ∈ l -> less y x = false.
Proof.
  intros Hl Hx Hy. apply list_elem_of_lookup in Hy as [k Hk].
  assert (H0 : l !! 0 = Some x) by (by destruct l).
  assert (E : less_at l k 0 = false); [| unfold less_at in E; by rewrite Hk, H0 in E].
  pose proof (lookup_lt_Some _ _ _ Hk) as Hlt. clear Hk.
  induction k as [k IH] using lt_wf_ind. destruct (decide (k = 0)) as [-> |].
  { unfold less_at. rewrite H0. apply sw_irrefl. }
  pose proof (parent_lt k ltac:(lia)). eapply (less_at_neg_trans l 0 (parent k)); [lia | |].
  - apply IH; lia.
  - apply Hl. lia.
Qed.

Lemma drop_root_spec x l :
  heap_ordered (x :: l) ->
  down_inv (drop_root (x :: l)) 0 /\ drop_root (x :: l) ≡ₚ l /\
  length (drop_root (x :: l)) = length l.
Proof.
  intros Hl. unfold drop_root.
  assert (E1 : length (x :: l) - 1 = length l) by (simpl; lia). rewrite E1.
  destruct (lookup_lt_is_Some_2 (x :: l) (length l) ltac:(simpl; lia)) as [z Hz]. rewrite Hz.
  assert (Elen : length (take (length l) (<[0:=z]> (x :: l))) = length l).
  { rewrite length_take, length_insert. simpl. lia. }
  split; [| split; [| exact Elen]].
  - split; [| intros; lia]. rewrite Elen. intros k Hk Hne.
    specialize (Hl k ltac:(simpl; lia)). pose proof (parent_lt k ltac:(lia)).
    unfold less_at in *. rewrite !lookup_take_lt by lia.
    by rewrite !list_lookup_insert_ne by lia.
  - clear Elen Hl E1. induction l as [|y l _] using rev_ind; [reflexivity |].
    rewrite length_app in Hz |- *. simpl in Hz |- *. rewrite Nat.add_1_r in Hz |- *.
    simpl in Hz |- *. rewrite take_app_length. rewrite lookup_app_r, Nat.sub_diag in Hz by lia.
    injection Hz as ->. by rewrite Permutation_app_comm.
Qed.

End Heap.

Arguments sw_irrefl {A less _} x.
Arguments sw_trans {A less _} x y z _ _.
Arguments sw_neg_trans {A less _} x y z _ _.

(** ** waitHeap (frontier/heap.go) *)

Record waitItem := mkWaitItem { wi_hostKey : Z; wi_eligible : Z }.
Definition waitHeap : Type := list waitItem.

#[export] Instance waitItem_eq_dec : EqDecision waitItem.
Proof. solve_decision. Defined.

Definition wait_less (a b : waitItem) : bool :=
  if negb (wi_eligible a =? wi_eligible b)%Z then (wi_eligible a <? wi_eligible b)%Z
  else (wi_hostKey a <? wi_hostKey b)%Z.

Definition wait_push (h : waitHeap) (hostKey eligible : Z) : waitHeap :=
  let items := h ++ [mkWaitItem hostKey eligible] in
  up wait_less (length items - 1) items (length items - 1).

Definition wait_peekMin (h : waitHeap) : option waitItem := head h.

Definition wait_popMin (h : waitHeap) : option (waitItem * waitHeap) :=
  match h with
  | [] => None
  | root :: _ =>
      let items := drop_root h in
      Some (root, if 0 <? length items then down wait_less (length items) items 0 else items)
  end.

#[export] Instance wait_less_sw : StrictWeak wait_less.
Proof.
  split; unfold wait_less; intros; repeat case_match; bool_prop; try congruence;
    try apply Z.ltb_lt; try apply Z.ltb_ge; lia.
Qed.

(** The order is total: two items neither of which is less are the same item. *)
Lemma wait_less_total a b : wait_less a b = false -> wait_less b a = false -> a = b.
Proof.
  destruct a as [h1 e1], b as [h2 e2]; unfold wait_less; simpl. intros.
  repeat case_match; bool_prop; try lia. f_equal; lia.
Qed.

Lemma wait_push_heap h k e :
  heap_ordered wait_less h ->
  heap_ordered wait_less (wait_push h k e) /\ wait_push h k e ≡ₚ mkWaitItem k e :: h.
Proof.
  intros Hh. unfold wait_push. rewrite length_app. simpl. rewrite Nat.add_sub.
  apply push_heap; [exact _ | done].
Qed.

(** What popping a heap's root leaves, for either sift. *)
Lemma pop_heap {A} (less : A -> A -> bool) {SW : StrictWeak less} x l :
  heap_ordered less (x :: l) ->
  let items := drop_root (x :: l) in
  heap_ordered less (down less (length items) items 0) /\
  down less (length items) items 0 ≡ₚ l.
Proof.
  intros Hl items. destruct (drop_root_spec less x l Hl) as (Hd & Hp & Hlen). split.
  - apply down_ordered; [exact SW | unfold items; lia | exact Hd].
  - by rewrite down_perm.
Qed.

Lemma wait_popMin_heap x l :
  heap_ordered wait_less (x :: l) ->
  exists l', wait_popMin (x :: l) = Some (x, l') /\ heap_ordered wait_less l' /\ l' ≡ₚ l.
Proof.
  intros Hl. destruct (pop_heap wait_less x l Hl) as [Ho Hp]. unfold wait_popMin. cbv zeta.
  eexists. split; [reflexivity |]. destruct (0 <? _)%nat eqn:E; [done |]. bool_prop.
  destruct (drop_root (x :: l)) eqn:Ed; simpl in *; [done | lia].
Qed.

(** *** The abstract queue: a list kept sorted by (eligible, hostKey) *)

Inductive queue_op := QPush (hostKey eligible : Z) | QPop.

Definition wait_step (h : waitHeap) (o : queue_op) : option waitItem * waitHeap :=
  match o with
  | QPush k e => (None, wait_push h k e)
  | QPop => match wait_popMin h with Some (x, h') => (Some x, h') | None => (None, h) end
  end.

(** The items a sequence of operations hands out. *)
Fixpoint wait_run (h : waitHeap) (os : list queue_op) : list (option waitItem) :=
  match os with
  | [] => []
  | o :: os => let '(r, h') := wait_step h o in r :: wait_run h' os
  end.

Fixpoint insert_sorted (x : waitItem) (l : list waitItem) : list waitItem :=
  match l with
  | [] => [x]
  | y :: l' => if wait_less y x then y :: insert_sorted x l' else x :: l
  end.

Definition spec_step (s : list waitItem) (o : queue_op) : option waitItem * list waitItem :=
  match o with
  | QPush k e => (None, insert_sorted (mkWaitItem k e) s)
  | QPop => match s with x :: s' => (Some x, s') | [] => (None, []) end
  end.

Fixpoint spec_run (s : list waitItem) (os : list queue_op) : list (option waitItem) :=
  match os with
  | [] => []
  | o :: os => let '(r, s') := spec_step s o in r :: spec_run s' os
  end.

Definition wait_le (a b : waitItem) : Prop := wait_less b a = false.

Lemma insert_sorted_perm x l : insert_sorted x l ≡ₚ x :: l.
Proof. induction l as [|y l IH]; simpl; [done |]. case_match; [| done]. rewrite IH. constructor. Qed.

Lemma insert_sorted_sorted x l :
  StronglySorted wait_le l -> StronglySorted wait_le (insert_sorted x l).
Proof.
  induction 1 as [|y l Hs IH Hy]; simpl; [by repeat constructor |].
  destruct (wait_less y x) eqn:E.
  - constructor; [done |]. rewrite insert_sorted_perm. constructor; [| done].
    exact (less_asym wait_less _ _ E).
  - constructor; [by constructor |]. constructor; [done |].
    eapply Forall_impl; [exact Hy |]. intros z Hz. exact (sw_neg_trans _ _ _ E Hz).
Qed.

(** A heap and a sorted list of the same items hand out the same item. *)
Definition queue_rel (h : waitHeap) (s : list waitItem) : Prop :=
  heap_ordered wait_less h /\ h ≡ₚ s /\ StronglySorted wait_le s.

Lemma queue_step_rel h s o :
  queue_rel h s ->
  (wait_step h o).1 = (spec_step s o).1 /\ queue_rel (wait_step h o).2 (spec_step s o).2.
Proof.
  intros (Hh & Hp & Hs). destruct o as [k e |]; simpl.
  - destruct (wait_push_heap h k e Hh) as [Ho Hp']. split; [done |]. split; [done |]. split.
    + by rewrite Hp', insert_sorted_perm, Hp.
    + by apply insert_sorted_sorted.
  - destruct h as [|x h].
    { apply Permutation_nil in Hp as ->. simpl. split; [done |]. split; [intros i Hi; simpl in Hi; lia | split; [done | constructor]]. }
    destruct (wait_popMin_heap x h Hh) as (h' & -> & Ho & Hp').
    destruct s as [|y s]; [by apply Permutation_nil_r in Hp |]. simpl.
    inversion Hs as [| ? ? Hs' Hy]; subst.
    assert (x = y) as ->.
    { apply wait_less_total.
      - assert (Hx : x ∈ y :: s) by (rewrite <- Hp; left). apply elem_of_cons in Hx as [-> | Hx].
        + apply sw_irrefl.
        + rewrite Forall_forall in Hy. by apply Hy.
      - apply (heap_min wait_less (x :: h) x y Hh eq_refl). rewrite Hp. left. }
    split; [done |]. split; [done |]. split; [| done].
    rewrite Hp'. by apply (Permutation_cons_inv (a := y)).
Qed.

(** C31: the host heap is a priority queue on (eligible, hostKey): whatever the
    sequence of pushes and pops from the empty heap, it hands out the very items a
    list kept sorted by eligible time, ties by host key, would hand out, so the
    dispatch order is fully determined; and peekMin is what popMin would return. *)
Theorem wait_heap_refines_sorted_queue (os : list queue_op) :
  wait_run [] os = spec_run [] os /\
  forall h, wait_peekMin h = fst <$> wait_popMin h.
Proof.
  split; [| by intros [|x h]].
  assert (G : forall h s, queue_rel h s -> wait_run h os = spec_run s os).
  { induction os as [|o os IH]; intros h s HR; [done |]. simpl.
    destruct (queue_step_rel h s o HR) as [E HR'].
    destruct (wait_step h o), (spec_step s o). simpl in *. subst. f_equal. by apply IH. }
  apply G. split; [| split; [done | constructor]]. intros i Hi. simpl in Hi. lia.
Qed.

(** ** overHeap (frontier/wheel.go) *)

Record overItem := mkOverItem { oi_due : Z; oi_key : URLKey }.
Definition overHeap : Type := list overItem.

Definition over_less (a b : overItem) : bool := (oi_due a <? oi_due b)%Z.

Definition over_len (h : overHeap) : nat := length h.
Definition over_peek (h : overHeap) : option overItem := head h.

(** The loop stops on [a[p].due <= a[i].due], the negation of [over_less]. *)
Definition over_push (h : overHeap) (it : overItem) : overHeap :=
  let a := h ++ [it] in up over_less (length a - 1) a (length a - 1).

Definition over_pop (h : overHeap) : option (overItem * overHeap) :=
  match h with
  | [] => None
  | top :: _ => let a := drop_root h in Some (top, sift3 over_less (length a) a 0)
  end.

#[export] Instance over_less_sw : StrictWeak over_less.
Proof.
  split; unfold over_less; intros; bool_prop; try apply Z.ltb_lt; try apply Z.ltb_ge; lia.
Qed.

Lemma over_push_heap h it :
  heap_ordered over_less h ->
  heap_ordered over_less (over_push h it) /\ over_push h it ≡ₚ it :: h.
Proof.
  intros Hh. unfold over_push. rewrite length_app. simpl. rewrite Nat.add_sub.
  apply push_heap; [exact _ | done].
Qed.

Lemma over_pop_heap x l :
  heap_ordered over_less (x :: l) ->
  exists l', over_pop (x :: l) = Some (x, l') /\ heap_ordered over_less l' /\ l' ≡ₚ l.
Proof.
  intros Hl. destruct (pop_heap over_less x l Hl) as [Ho Hp]. unfold over_pop. cbv zeta.
  rewrite (sift3_down over_less) by apply _. eauto.
Qed.

Lemma over_head_min h x y :
  heap_ordered over_less h -> head h = Some x -> y ∈ h -> (oi_due x <= oi_due y)%Z.
Proof.
  intros Hh Hx Hy. pose proof (heap_min over_less h x y Hh Hx Hy) as E.
  unfold over_less in E. by bool_prop.
Qed.
