(* ===== verification/Ring.v ===== *)
(** * The front bank: a bucketed priority ring

    frontier/ring.go.  A priority is a float32, carried by its 32-bit pattern;
    [frontBucket] is computed on the exact value.  The ring keeps 64 FIFO buckets,
    an occupancy word and a count; it is refined to one list of items in insertion
    order, tagged with their bucket. *)

From S2P Require Import Prelude Words.
Open Scope Z_scope.

(** ** float32 priorities *)

Definition f32_sign (b : Z) : bool := 2 ^ 31 <=? b.
Definition f32_abs (b : Z) : Z := b mod 2 ^ 31.
Definition f32_nan (b : Z) : bool := 255 * 2 ^ 23 <? f32_abs b.

(** The magnitude of a finite float32 in units of 2^-149, the smallest one. *)
Definition f32_ulps (b : Z) : Z :=
  let e := f32_abs b / 2 ^ 23 in
  let m := f32_abs b mod 2 ^ 23 in
  if e =? 0 then m else (2 ^ 23 + m) * 2 ^ (e - 1).

(** Go's [p <= 0] and [p >= 1] on a float32: false on a NaN. *)
Definition f32_le0 (b : Z) : bool := negb (f32_nan b) && (f32_sign b || (f32_abs b =? 0)).
Definition f32_ge1 (b : Z) : bool := negb (f32_nan b) && negb (f32_sign b) && (127 * 2 ^ 23 <=? b).

Definition priorityLevels : Z := 64.

(** [int(-math.Log2(p)*4)] for p = u * 2^-149: 4 * -log2 p = 596 - log2 (u^4),
    truncated.  The float64 computation gives this integer: the powers of two are
    exact in math.Log2, and every other float32 is more than 2^-26 away, in
    relative terms, from the bucket bounds 2^(-k/4), against an error of a few
    units in 2^-46 for the logarithm.  The level of a NaN is that of the smallest
    int, which [max] makes 0. *)
Definition frontLevel (p : Z) : Z :=
  if f32_nan p then 0 else Z.max (596 - Z.log2_up (f32_ulps p ^ 4)) 0.

Definition frontBucket (p : Z) : Z :=
  if f32_le0 p then 0
  else if f32_ge1 p then priorityLevels - 1
  else
    let level := frontLevel p in
    let level := if priorityLevels <=? level then priorityLevels - 1 else level in
    priorityLevels - 1 - level.

(** bits.LeadingZeros64. *)
Definition LeadingZeros64 (x : Z) : Z := if x =? 0 then 64 else 63 - Z.log2 x.

Lemma frontBucket_range p : 0 <= frontBucket p < 64.
Proof.
  unfold frontBucket, frontLevel, priorityLevels. cbv zeta.
  repeat case_match; bool_prop; lia.
Qed.

Lemma f32_ulps_mono a b :
  0 <= f32_abs a <= f32_abs b -> 0 <= f32_ulps a <= f32_ulps b.
Proof.
  unfold f32_ulps. intros [H0 H]. cbv zeta.
  set (x := f32_abs a) in *. set (y := f32_abs b) in *.
  pose proof (Z.mod_pos_bound x (2 ^ 23) ltac:(lia)). pose proof (Z.mod_pos_bound y (2 ^ 23) ltac:(lia)).
  pose proof (Z.div_mod x (2 ^ 23) ltac:(lia)). pose proof (Z.div_mod y (2 ^ 23) ltac:(lia)).
  pose proof (Z.div_le_mono x y (2 ^ 23) ltac:(lia) H).
  pose proof (Z.div_pos x (2 ^ 23) H0 ltac:(lia)).
  set (ex := x / 2 ^ 23) in *. set (ey := y / 2 ^ 23) in *.
  set (mx := x mod 2 ^ 23) in *. set (my := y mod 2 ^ 23) in *.
  assert (Hpow : forall e, 1 <= e -> 1 <= 2 ^ (e - 1)) 
    by (intros e He; pose proof (Z.pow_pos_nonneg 2 (e - 1)); lia).
  destruct (ex =? 0) eqn:Ex; destruct (ey =? 0) eqn:Ey; bool_prop; [lia | | lia |].
  - pose proof (Hpow ey ltac:(lia)). nia.
  - pose proof (Hpow ex ltac:(lia)). split; [nia |].
    destruct (decide (ex = ey)) as [-> | Hne].
    + apply Z.mul_le_mono_nonneg_r; lia.
    + transitivity (2 ^ 24 * 2 ^ (ex - 1)); [nia |].
      rewrite <- Z.pow_add_r by lia. transitivity (2 ^ 23 * 2 ^ (ey - 1)); [| nia].
      rewrite <- Z.pow_add_r by lia. apply Z.pow_le_mono_r; lia.
Qed.

Lemma log2_up_pow4_mono x y : 0 <= x <= y -> Z.log2_up (x ^ 4) <= Z.log2_up (y ^ 4).
Proof. intros. apply Z.log2_up_le_mono. apply Z.pow_le_mono_l. lia. Qed.

Lemma ulps_one : Z.log2_up (f32_ulps (127 * 2 ^ 23) ^ 4) = 596.
Proof. vm_compute. reflexivity. Qed.

(** Below one, the level is never negative. *)
Lemma frontLevel_nonneg p :
  0 <= p < 127 * 2 ^ 23 -> f32_nan p = false /\ frontLevel p = 596 - Z.log2_up (f32_ulps p ^ 4).
Proof.
  intros Hp. assert (Ea : f32_abs p = p) by (unfold f32_abs; apply Z.mod_small; lia).
  assert (En : f32_nan p = false) by (unfold f32_nan; rewrite Ea; apply Z.ltb_ge; lia).
  split; [done |]. unfold frontLevel. rewrite En. apply Z.max_l.
  assert (H : f32_ulps p <= f32_ulps (127 * 2 ^ 23)).
  { apply f32_ulps_mono. rewrite Ea. unfold f32_abs. rewrite Z.mod_small by lia. lia. }
  assert (H0 : 0 <= f32_ulps p) by (apply (f32_ulps_mono p p); lia).
  pose proof (log2_up_pow4_mono _ _ (conj H0 H)) as H'.
  rewrite ulps_one in H'. lia.
Qed.

(** The bucket of a priority strictly between zero and one. *)
Lemma frontBucket_mid p :
  0 < p < 127 * 2 ^ 23 ->
  frontBucket p = Z.max 0 (63 - (596 - Z.log2_up (f32_ulps p ^ 4))).
Proof.
  intros Hp. destruct (frontLevel_nonneg p) as [En El]; [lia |].
  unfold frontBucket, f32_le0, f32_ge1, priorityLevels, f32_sign, f32_abs. rewrite En, El.
  rewrite (Z.mod_small p) by lia. bool_lia. simpl. case_match; bool_prop; lia.
Qed.

Lemma f32_ulps_half p :
  2 * 2 ^ 23 <= p < 2 ^ 31 -> f32_ulps p = 2 * f32_ulps (p - 2 ^ 23).
Proof.
  intros Hp. unfold f32_ulps, f32_abs. cbv zeta. rewrite !(Z.mod_small _ (2 ^ 31)) by lia.
  replace (p - 2 ^ 23) with (p + (-1) * 2 ^ 23) by lia. rewrite Z.div_add, Z.mod_add by lia.
  assert (2 <= p / 2 ^ 23) by (apply Z.div_le_lower_bound; lia). bool_lia.
  replace (p / 2 ^ 23 - 1) with (Z.succ (p / 2 ^ 23 + -1 - 1)) by lia.
  rewrite Z.pow_succ_r by lia. lia.
Qed.

Lemma f32_pos_cases p :
  fits 32 p -> f32_nan p = false ->
  frontBucket p = 0 /\ (2 ^ 31 <= p \/ p = 0) \/
  frontBucket p = 63 /\ 127 * 2 ^ 23 <= p < 2 ^ 31 \/ 0 < p < 127 * 2 ^ 23.
Proof.
  intros Hp En. unfold frontBucket, f32_le0, f32_ge1. rewrite En. cbn [negb andb].
  unfold fits in Hp. unfold f32_sign, f32_abs.
  destruct (2 ^ 31 <=? p) eqn:Es; bool_prop; [left; split; [done | lia] |]. cbn [orb negb andb].
  rewrite Z.mod_small by lia.
  destruct (p =? 0) eqn:Ez; bool_prop; [left; split; [done | lia] |].
  destruct (127 * 2 ^ 23 <=? p) eqn:Eo; bool_prop; [right; left; unfold priorityLevels | right; right]; lia.
Qed.

(** FrontBucket is a bucket of the ring for every priority, NaN and the
    out-of-range ones included; it never decreases as the priority grows; and
    halving a normal positive priority below one (subtracting one from its exponent field)
    moves it down exactly four buckets, until the bottom one. *)
Theorem frontBucket_monotone (p q : Z) (Hp : fits 32 p) (Hq : fits 32 q)
    (Hnp : f32_nan p = false) (Hnq : f32_nan q = false)
    (Hle : f32_sign p = true \/ (f32_sign q = false /\ p <= q)) :
  (forall x, 0 <= frontBucket x < 64) /\ frontBucket p <= frontBucket q /\
  (2 * 2 ^ 23 <= p < 127 * 2 ^ 23 ->
     frontBucket (p - 2 ^ 23) = Z.max 0 (frontBucket p - 4)).
Proof.
  split; [apply frontBucket_range |]. split.
  - pose proof (frontBucket_range q). pose proof (frontBucket_range p).
    destruct Hle as [Hs | [Hs Hle]].
    { assert (frontBucket p = 0); [| lia]. unfold frontBucket, f32_le0. by rewrite Hnp, Hs. }
    unfold f32_sign in Hs. bool_prop.
    destruct (f32_pos_cases p Hp Hnp) as [[-> ?] | [[Ep ?] | Hp2]]; [lia | |];
      destruct (f32_pos_cases q Hq Hnq) as [[Eq ?] | [[Eq ?] | Hq2]]; try lia.
    rewrite !frontBucket_mid by lia.
    assert (Hu : 0 <= f32_ulps p <= f32_ulps q).
    { apply f32_ulps_mono. unfold f32_abs. rewrite !Z.mod_small by lia. lia. }
    pose proof (log2_up_pow4_mono _ _ Hu). lia.
  - intros Hr. rewrite !frontBucket_mid by lia.
    rewrite (f32_ulps_half p) by lia. rewrite Z.pow_mul_l, Z.mul_comm.
    assert (0 < f32_ulps (p - 2 ^ 23)).
    { assert (E : 0 <= f32_ulps (2 ^ 23) <= f32_ulps (p - 2 ^ 23)).
      { apply f32_ulps_mono. unfold f32_abs. rewrite !Z.mod_small by lia. lia. }
      vm_compute (f32_ulps (2 ^ 23)) in E. lia. }
    change (2 ^ 4) with (2 ^ (Z.of_nat 4)). rewrite Z.log2_up_mul_pow2 by (try apply Z.pow_pos_nonneg; lia).
    lia.
Qed.

Lemma frontBucket_monotone_witness :
  frontBucket 0x3f000000 <= frontBucket 0x3f400000 /\ frontBucket 0x3f000000 = 59.
Proof.
  split; [| reflexivity].
  apply (frontBucket_monotone 0x3f000000 0x3f400000);
    [fits_const | fits_const | reflexivity | reflexivity | right; split; [reflexivity | lia]].
Defined.

(** ** The ring *)

Record prioRing (T : Type) := mkRing { buckets : list (list T); occ : Z; rn : Z }.
Arguments mkRing {T} _ _ _.
Arguments buckets {T} _.
Arguments occ {T} _.
Arguments rn {T} _.

Section Ring.
Context {T : Type} `{EqDecision T}.
Implicit Types (r : prioRing T) (s : list (Z * T)).

(** The zero value of a Go prioRing. *)
Definition empty_ring : prioRing T := mkRing (replicate 64 []) 0 0.

Definition ring_len r : Z := rn r.

Definition bucket r (b : Z) : list T := default [] (buckets r !! Z.to_nat b).
Definition set_bucket r (b : Z) (l : list T) : prioRing T :=
  mkRing (<[Z.to_nat b := l]> (buckets r)) (occ r) (rn r).

Definition ring_push r (item : T) (priority : Z) : prioRing T :=
  let b := frontBucket priority in
  let r := set_bucket r b (bucket r b ++ [item]) in
  mkRing (buckets r) (Z.lor (occ r) (Z.shiftl 1 b)) (rn r + 1).

Definition highest r : Z :=
  if occ r =? 0 then -1 else priorityLevels - 1 - LeadingZeros64 (occ r).

Definition ring_peek r : option T :=
  let b := highest r in if b <? 0 then None else head (bucket r b).

(** [occ &^= 1 << b] once bucket [b] is empty. *)
Definition clear_if_empty r (b : Z) : prioRing T :=
  if decide (bucket r b = []) then mkRing (buckets r) (Z.ldiff (occ r) (Z.shiftl 1 b)) (rn r)
  else r.

Definition ring_pop r : option (T * prioRing T) :=
  let b := highest r in
  if b <? 0 then None
  else match bucket r b with
  | [] => None
  | item :: rest =>
      let r := clear_if_empty (set_bucket r b rest) b in
      Some (item, mkRing (buckets r) (occ r) (rn r - 1))
  end.

(** The scan of the old bucket stops at the first equal item. *)
Definition rebucket r (item : T) (oldPriority newPriority : Z) : bool * prioRing T :=
  let ob := frontBucket oldPriority in
  let nb := frontBucket newPriority in
  if ob =? nb then (false, r)
  else
    let bucket := bucket r ob in
    match list_find (eq item) bucket with
    | None => (false, r)
    | Some (i, _) =>
        let r := clear_if_empty (set_bucket r ob (take i bucket ++ drop (S i) bucket)) ob in
        (true, ring_push (mkRing (buckets r) (occ r) (rn r - 1)) item newPriority)
    end.

(** *** The abstract ring: items in insertion order, each with its bucket *)

Definition spec_top s : Z := foldr Z.max (-1) s.*1.

Definition spec_push s (item : T) (priority : Z) : list (Z * T) :=
  s ++ [(frontBucket priority, item)].

(** The oldest item of the highest bucket. *)
Definition spec_pop s : option (T * list (Z * T)) :=
  match list_find (fun e => e.1 = spec_top s) s with
  | Some (i, e) => Some (e.2, delete i s)
  | None => None
  end.

Definition spec_rebucket s (item : T) (ob nb : Z) : bool * list (Z * T) :=
  if ob =? nb then (false, s)
  else match list_find (eq (ob, item)) s with
  | Some (i, _) => (true, delete i s ++ [(nb, item)])
  | None => (false, s)
  end.

Record ring_rel r s : Prop := {
  rr_len : length (buckets r) = 64%nat;
  rr_buckets b : 0 <= b < 64 -> bucket r b = at_bucket b s;
  rr_fits : fits 64 (occ r);
  rr_occ b : 0 <= b < 64 -> Z.testbit (occ r) b = negb (bool_decide (at_bucket b s = []));
  rr_n : rn r = Z.of_nat (length s);
  rr_range : Forall (fun e => 0 <= e.1 < 64) s }.

Lemma bucket_set_eq r b l : length (buckets r) = 64%nat -> 0 <= b < 64 -> bucket (set_bucket r b l) b = l.
Proof.
  intros Hl Hb. unfold bucket, set_bucket. simpl. by rewrite list_lookup_insert_eq by lia.
Qed.

Lemma bucket_set_ne r b b' l :
  0 <= b -> 0 <= b' -> b <> b' -> bucket (set_bucket r b l) b' = bucket r b'.
Proof.
  intros Hb Hb' Hne. unfold bucket, set_bucket. simpl. by rewrite list_lookup_insert_ne by lia.
Qed.

Lemma testbit_fits n x : fits n x -> forall i, n <= i -> Z.testbit x i = false.
Proof.
  intros [H0 H] i Hi. destruct (decide (x = 0)) as [-> | Hx]; [apply Z.testbit_0_l |].
  destruct (decide (0 <= n)) as [Hn | Hn]; [| rewrite Z.pow_neg_r in H by lia; lia].
  apply Z.bits_above_log2; [done |]. apply Z.log2_lt_pow2 in H; lia.
Qed.

Lemma fits_testbit n x :
  0 <= n -> 0 <= x -> (forall i, n <= i -> Z.testbit x i = false) -> fits n x.
Proof.
  intros Hn H0 H. split; [done |]. destruct (decide (x = 0)) as [-> | Hx]; [by apply Z.pow_pos_nonneg |].
  apply Z.log2_lt_pow2; [lia |]. destruct (decide (Z.log2 x < n)); [done |].
  specialize (H (Z.log2 x) ltac:(lia)). by rewrite Z.bit_log2 in H by lia.
Qed.

Lemma testbit_one_shift b i : 0 <= b -> 0 <= i -> Z.testbit (Z.shiftl 1 b) i = (b =? i).
Proof.
  intros Hb Hi. rewrite Z.shiftl_1_l. destruct (b =? i) eqn:E; bool_prop; subst.
  - by apply Z.pow2_bits_true.
  - by apply Z.pow2_bits_false.
Qed.

Lemma occ_set_fits x b : fits 64 x -> 0 <= b < 64 -> fits 64 (Z.lor x (Z.shiftl 1 b)).
Proof.
  intros Hx Hb. apply fits_testbit; [lia | |].
  - apply Z.lor_nonneg. split; [apply Hx |]. apply Z.shiftl_nonneg. lia.
  - intros i Hi. rewrite Z.lor_spec, testbit_one_shift, (testbit_fits 64) by (done || lia).
    simpl. apply Z.eqb_neq. lia.
Qed.

Lemma occ_clear_fits x b : fits 64 x -> 0 <= b < 64 -> fits 64 (Z.ldiff x (Z.shiftl 1 b)).
Proof.
  intros Hx Hb. apply fits_testbit; [lia | |].
  - apply Z.ldiff_nonneg. left. apply Hx.
  - intros i Hi. by rewrite Z.ldiff_spec, (testbit_fits 64) by (done || lia).
Qed.

Lemma ring_push_rel r s item p :
  ring_rel r s -> ring_rel (ring_push r item p) (spec_push s item p).
Proof.
  intros [Hl Hb Hf Ho Hn Hr]. unfold ring_push, spec_push. cbv zeta.
  pose proof (frontBucket_range p) as Hp. set (fb := frontBucket p) in *.
  assert (Hat : forall b, at_bucket b [(fb, item)] = if decide (fb = b) then [item] else []).
  { intros b. rewrite at_bucket_cons. simpl. unfold at_bucket. simpl. by case_decide. }
  split; simpl.
  - by rewrite length_insert.
  - intros b Hb'. rewrite at_bucket_app, Hat.
    change (bucket _ b) with (bucket (set_bucket r fb (bucket r fb ++ [item])) b).
    destruct (decide (fb = b)) as [<- | Hne].
    + rewrite bucket_set_eq, Hb by done. done.
    + rewrite bucket_set_ne, Hb, app_nil_r by (done || lia). done.
  - by apply occ_set_fits.
  - intros b Hb'. rewrite Z.lor_spec, testbit_one_shift, Ho by lia. rewrite at_bucket_app, Hat.
    destruct (decide (fb = b)) as [<- | Hne].
    + rewrite Z.eqb_refl, orb_true_r. symmetry. apply negb_true_iff, bool_decide_eq_false.
      by destruct (at_bucket fb s).
    + rewrite (proj2 (Z.eqb_neq fb b)), orb_false_r, app_nil_r by done. done.
  - rewrite length_app, Hn. simpl. lia.
  - apply Forall_app. split; [done |]. by apply Forall_singleton.
Qed.

(** Taking one item out of a bucket, the step pop and rebucket share. *)
Definition remove_from r (b : Z) (l : list T) : prioRing T :=
  let r := clear_if_empty (set_bucket r b l) b in mkRing (buckets r) (occ r) (rn r - 1).

Lemma remove_rel r s1 s2 b x :
  ring_rel r (s1 ++ (b, x) :: s2) ->
  ring_rel (remove_from r b (at_bucket b s1 ++ at_bucket b s2)) (s1 ++ s2).
Proof.
  intros [Hl Hb Hf Ho Hn Hr].
  assert (Hb64 : 0 <= b < 64).
  { rewrite Forall_app, Forall_cons in Hr. apply (proj1 (proj2 Hr)). }
  assert (Hat : forall b', b <> b' -> at_bucket b' (s1 ++ (b, x) :: s2) = at_bucket b' (s1 ++ s2)).
  { intros b' Hne. rewrite !at_bucket_app, at_bucket_cons. simpl. by rewrite decide_False. }
  unfold remove_from. set (l := at_bucket b s1 ++ at_bucket b s2). cbv zeta.
  assert (Hl' : l = at_bucket b (s1 ++ s2)) by (by rewrite at_bucket_app).
  unfold clear_if_empty. rewrite bucket_set_eq by done.
  assert (Hbk : forall r' b', buckets r' = buckets (set_bucket r b l) -> 0 <= b' < 64 ->
                  bucket r' b' = at_bucket b' (s1 ++ s2)).
  { intros r' b' Er Hb'. unfold bucket. rewrite Er. fold (bucket (set_bucket r b l) b').
    destruct (decide (b = b')) as [<- | Hne]; [by rewrite bucket_set_eq |].
    rewrite bucket_set_ne, Hb, Hat by (done || lia). done. }
  split.
  - case_decide; simpl; by rewrite length_insert.
  - intros b' Hb'. apply Hbk; [| done]. by case_decide.
  - case_decide; simpl; [by apply occ_clear_fits | done].
  - intros b' Hb'. destruct (decide (b = b')) as [<- | Hne].
    + rewrite <- Hl'. destruct (decide (l = [])) as [E | E]; simpl.
      * rewrite Z.ldiff_spec, testbit_one_shift, Z.eqb_refl, andb_false_r by lia.
        by rewrite bool_decide_eq_true_2.
      * rewrite Ho, bool_decide_eq_false_2, bool_decide_eq_false_2 by
          (done || (rewrite at_bucket_app, at_bucket_cons; simpl; rewrite decide_True by done;
                    by destruct (at_bucket b s1))). done.
    + rewrite <- Hat, <- Ho by done. case_decide; simpl; [| done].
      rewrite Z.ldiff_spec, testbit_one_shift by lia.
      by rewrite (proj2 (Z.eqb_neq b b')), andb_true_r.
  - case_decide; simpl; rewrite Hn, !length_app; simpl; lia.
  - rewrite Forall_app, Forall_cons in Hr. rewrite Forall_app. tauto.
Qed.

Lemma spec_top_ge e s : e ∈ s -> e.1 <= spec_top s.
Proof.
  unfold spec_top. intros He. induction s as [|e' s IH]; [by apply not_elem_of_nil in He |].
  rewrite fmap_cons. cbn [foldr]. apply elem_of_cons in He as [-> | He]; [lia |].
  specialize (IH He). lia.
Qed.

Lemma spec_top_in s : s <> [] -> Forall (fun e => 0 <= e.1) s -> exists e, e ∈ s /\ e.1 = spec_top s.
Proof.
  unfold spec_top. induction s as [|e s IH]; [done |]. intros _ H. inversion H; subst. rewrite fmap_cons. cbn [foldr].
  destruct (decide (s = [])) as [-> | Hne].
  - exists e. split; [by left |]. simpl. lia.
  - destruct (IH Hne) as (e' & Hin & E); [done |].
    destruct (Z.max_spec e.1 (foldr Z.max (-1) s.*1)) as [[_ ->] | [_ ->]].
    + exists e'. split; [by right | done].
    + exists e. split; [by left | done].
Qed.

Lemma highest_top r s : ring_rel r s -> highest r = spec_top s.
Proof.
  intros [Hl Hb Hf Ho Hn Hr]. unfold highest, LeadingZeros64, priorityLevels.
  destruct (decide (s = [])) as [-> | Hs].
  { destruct (occ r =? 0) eqn:E; bool_prop; [done |]. exfalso.
    pose proof (Z.bit_log2 (occ r) ltac:(destruct Hf; lia)) as Hbit.
    assert (Z.log2 (occ r) < 64) by (apply Z.log2_lt_pow2; destruct Hf; lia).
    pose proof (Z.log2_nonneg (occ r)). rewrite Ho in Hbit by lia. done. }
  destruct (spec_top_in s Hs) as (e & Hin & He).
  { eapply Forall_impl; [exact Hr |]. simpl. lia. }
  rewrite Forall_forall in Hr. pose proof (Hr e Hin) as Hre.
  assert (Hbit : Z.testbit (occ r) (spec_top s) = true).
  { rewrite <- He, Ho by done. apply negb_true_iff, bool_decide_eq_false.
    rewrite at_bucket_empty, Forall_forall. intros Hall. by apply (Hall e). }
  destruct (occ r =? 0) eqn:E; bool_prop; [by rewrite E, Z.testbit_0_l in Hbit |].
  replace (64 - 1 - (63 - Z.log2 (occ r))) with (Z.log2 (occ r)) by lia.
  assert (Z.log2 (occ r) < 64) by (apply Z.log2_lt_pow2; destruct Hf; lia).
  pose proof (Z.log2_nonneg (occ r)). apply Z.le_antisymm.
  - pose proof (Z.bit_log2 (occ r) ltac:(destruct Hf; lia)) as Hb2. rewrite Ho in Hb2 by lia.
    apply negb_true_iff, bool_decide_eq_false in Hb2.
    destruct (decide (spec_top s < Z.log2 (occ r))) as [Hlt |]; [| lia]. exfalso. apply Hb2.
    apply at_bucket_empty, Forall_forall. intros e' He'. pose proof (spec_top_ge e' s He'). lia.
  - destruct (decide (spec_top s <= Z.log2 (occ r))); [done |].
    rewrite Z.bits_above_log2 in Hbit; [done | apply Hf | lia].
Qed.

Lemma spec_pop_nil s : Forall (fun e => 0 <= e.1 < 64) s -> spec_pop s = None -> s = [].
Proof.
  intros Hr. unfold spec_pop. case_match eqn:E; [by case_match |]. intros _.
  destruct (decide (s = [])) as [-> | Hs]; [done |]. exfalso.
  destruct (spec_top_in s Hs) as (e & Hin & He).
  { eapply Forall_impl; [exact Hr |]. simpl. lia. }
  apply list_find_None in E. rewrite Forall_forall in E. by apply (E e).
Qed.

Lemma ring_pop_rel r s :
  ring_rel r s ->
  match spec_pop s with
  | Some (x, s') => exists r', ring_pop r = Some (x, r') /\ ring_rel r' s'
  | None => ring_pop r = None
  end.
Proof.
  intros HR. pose proof (highest_top r s HR) as Ht. unfold ring_pop. rewrite Ht. cbv zeta.
  destruct (spec_pop s) as [[x s'] |] eqn:E.
  2: { apply spec_pop_nil in E as ->; [done | apply HR]. }
  unfold spec_pop in E. case_match eqn:E2; [| done]. destruct p as [i e]. injection E as <- <-.
  apply list_find_split in E2 as (s1 & s2 & -> & _ & -> & He & Hs1).
  assert (Hin : 0 <= e.1 < 64).
  { pose proof (rr_range _ _ HR) as Hr. rewrite Forall_app, Forall_cons in Hr. tauto. }
  rewrite <- He in *. bool_lia.
  rewrite (rr_buckets _ _ HR) by done. rewrite at_bucket_app, at_bucket_cons, decide_True by done.
  apply at_bucket_empty in Hs1. rewrite Hs1. simpl. eexists. split; [reflexivity |].
  destruct e as [b x]. simpl in *.
  pose proof (remove_rel r s1 s2 b x HR) as HR'. by rewrite Hs1 in HR'.
Qed.

Lemma ring_peek_rel r s : ring_rel r s -> ring_peek r = fst <$> spec_pop s.
Proof.
  intros HR. pose proof (ring_pop_rel r s HR) as Hp. unfold ring_peek.
  unfold ring_pop in Hp. cbv zeta in Hp |- *. destruct (spec_pop s) as [[x s'] |].
  - destruct Hp as (r' & Hp & _). destruct (highest r <? 0); [done |].
    destruct (bucket r (highest r)); [done |]. simpl. by injection Hp as ->.
  - destruct (highest r <? 0); [done |]. by destruct (bucket r (highest r)).
Qed.

Lemma rebucket_rel r s item p q :
  ring_rel r s ->
  (rebucket r item p q).1 = (spec_rebucket s item (frontBucket p) (frontBucket q)).1 /\
  ring_rel (rebucket r item p q).2 (spec_rebucket s item (frontBucket p) (frontBucket q)).2.
Proof.
  intros HR. unfold rebucket, spec_rebucket. cbv zeta.
  pose proof (frontBucket_range p) as Hp. set (ob := frontBucket p) in *.
  destruct (ob =? frontBucket q) eqn:E; [done |]. rewrite (rr_buckets _ _ HR) by done.
  destruct (list_find (eq (ob, item)) s) as [[i e] |] eqn:E1.
  - apply list_find_split in E1 as (s1 & s2 & -> & _ & -> & <- & Hs1).
    rewrite at_bucket_app, at_bucket_cons, decide_True by done. simpl.
    rewrite (list_find_app_first (eq item) (at_bucket ob s1)); [| | done].
    2: { apply Forall_forall. intros x Hx ->. unfold at_bucket in Hx.
         apply list_elem_of_fmap in Hx as ([b' x'] & -> & Hx). apply list_elem_of_filter in Hx as [Hb Hx].
         simpl in Hb. subst. rewrite Forall_forall in Hs1. by apply (Hs1 _ Hx). }
    simpl. split; [done |]. apply ring_push_rel.
    pose proof (remove_rel r s1 s2 ob item HR) as HR'. unfold remove_from in HR'.
    rewrite take_app_length. change (at_bucket ob s1 ++ item :: at_bucket ob s2)
      with (at_bucket ob s1 ++ [item] ++ at_bucket ob s2).
    rewrite app_assoc, drop_app_exact by (rewrite length_app; simpl; lia). exact HR'.
  - destruct (list_find (eq item) (at_bucket ob s)) as [[i x] |] eqn:E2; [| done]. exfalso.
    apply list_find_Some in E2 as (Hx & <- & _). apply list_elem_of_lookup_2 in Hx.
    unfold at_bucket in Hx. apply list_elem_of_fmap in Hx as ([b' x'] & -> & Hx).
    apply list_elem_of_filter in Hx as [Hb Hx]. simpl in Hb. subst.
    apply list_find_None in E1. rewrite Forall_forall in E1. by apply (E1 _ Hx).
Qed.

(** *** Runs *)

Inductive ring_op := RPush (item : T) (p : Z) | RPop | RRebucket (item : T) (p q : Z).

(** What a caller sees of one operation: the item popped, whether a rebucket moved
    anything, then the length and the peek afterwards. *)
Definition ring_out : Type := option T * bool * Z * option T.

Definition ring_step r (o : ring_op) : option T * bool * prioRing T :=
  match o with
  | RPush item p => (None, false, ring_push r item p)
  | RPop => match ring_pop r with Some (x, r') => (Some x, false, r') | None => (None, false, r) end
  | RRebucket item p q => let '(m, r') := rebucket r item p q in (None, m, r')
  end.

Fixpoint ring_run r (os : list ring_op) : list ring_out :=
  match os with
  | [] => []
  | o :: os => let '(x, m, r') := ring_step r o in
               (x, m, ring_len r', ring_peek r') :: ring_run r' os
  end.

Definition spec_ring_step s (o : ring_op) : option T * bool * list (Z * T) :=
  match o with
  | RPush item p => (None, false, spec_push s item p)
  | RPop => match spec_pop s with Some (x, s') => (Some x, false, s') | None => (None, false, s) end
  | RRebucket item p q =>
      let '(m, s') := spec_rebucket s item (frontBucket p) (frontBucket q) in (None, m, s')
  end.

Fixpoint spec_ring_run s (os : list ring_op) : list ring_out :=
  match os with
  | [] => []
  | o :: os => let '(x, m, s') := spec_ring_step s o in
               (x, m, Z.of_nat (length s'), fst <$> spec_pop s') :: spec_ring_run s' os
  end.

Lemma ring_step_rel r s o :
  ring_rel r s ->
  (ring_step r o).1 = (spec_ring_step s o).1 /\ ring_rel (ring_step r o).2 (spec_ring_step s o).2.
Proof.
  intros HR. destruct o as [item p | | item p q]; simpl.
  - split; [done | by apply ring_push_rel].
  - pose proof (ring_pop_rel r s HR) as Hp. destruct (spec_pop s) as [[x s'] |].
    + by destruct Hp as (r' & -> & HR').
    + by rewrite Hp.
  - destruct (rebucket_rel r s item p q HR) as [E HR'].
    destruct (rebucket r item p q), (spec_rebucket s item _ _). simpl in *. by subst.
Qed.

Lemma empty_ring_rel : ring_rel empty_ring [].
Proof.
  split; [done | | done | | done | done].
  - intros b Hb. change (default [] (replicate 64 (@nil T) !! Z.to_nat b) = []).
    destruct (replicate 64 (@nil T) !! Z.to_nat b) as [l |] eqn:E; [| done].
    by apply lookup_replicate in E as [-> _].
  - intros b _. by rewrite Z.testbit_0_l.
Qed.

(** C32: the front bank refines a list of items in insertion order.  Whatever the
    sequence of pushes, pops and rebuckets from the zero ring, every operation's
    result, the length and the peek after it are those of the list: pop hands out
    the oldest item of the highest bucket, rebucket moves the first equal item of
    its old bucket to the end of the new one and reports whether it did, and the
    occupancy word never points at an empty bucket. *)
Theorem ring_refines_fifo_buckets (os : list ring_op) :
  ring_run empty_ring os = spec_ring_run [] os.
Proof.
  enough (G : forall r s, ring_rel r s -> ring_run r os = spec_ring_run s os)
    by (apply G, empty_ring_rel).
  induction os as [|o os IH]; intros r s HR; [done |]. simpl.
  destruct (ring_step_rel r s o HR) as [E HR'].
  destruct (ring_step r o) as [[x m] r'], (spec_ring_step s o) as [[x' m'] s']. simpl in *.
  injection E as -> ->. unfold ring_len. rewrite (rr_n _ _ HR'), (ring_peek_rel _ _ HR').
  f_equal. by apply IH.
Qed.

End Ring.
