(* ===== verification/Wheel.v ===== *)
(** * The due wheel of the frontier

    frontier/wheel.go: a hashed timing wheel over epoch-hours with an overflow
    heap.  The abstract wheel is a cursor and a bag of (due hour, key) pairs; the
    ring, its count and the heap refine it, every key fires exactly once and never
    before its hour. *)

From S2P Require Import Prelude Words Model Heap.
Open Scope Z_scope.

Definition wheelSpan : Z := 1024.

Record dueWheel := mkWheel {
  w_cursor : Z;                 (* uint32 *)
  w_ring : list (list URLKey);  (* wheelSpan buckets *)
  w_over : overHeap;
  w_ringCount : Z }.

Definition newDueWheel (base : Z) : dueWheel := mkWheel base (replicate 1024 []) [] 0.

Definition satSub (a b : Z) : Z := if a <? b then 0 else u32 (a - b).

(** [append(ring[i%wheelSpan], key); ringCount++] *)
Definition ring_at (w : dueWheel) (h : Z) : list URLKey :=
  default [] (w_ring w !! Z.to_nat (h mod wheelSpan)).
Definition ring_add (w : dueWheel) (h : Z) (key : URLKey) : dueWheel :=
  mkWheel (w_cursor w) (<[Z.to_nat (h mod wheelSpan) := ring_at w h ++ [key]]> (w_ring w))
    (w_over w) (w_ringCount w + 1).

Definition wheel_add (w : dueWheel) (key : URLKey) (dueHour : Z) : dueWheel :=
  let dueHour := if dueHour <=? w_cursor w then w_cursor w else dueHour in
  if u32 (dueHour - w_cursor w) <? wheelSpan then ring_add w dueHour key
  else mkWheel (w_cursor w) (w_ring w) (over_push (w_over w) (mkOverItem dueHour key)) (w_ringCount w).

(** The loop of admitOverflow; each turn pops one entry, so the number of entries
    is enough fuel. *)
Fixpoint admit_loop (fuel : nat) (w : dueWheel) : dueWheel :=
  match fuel with
  | O => w
  | S fuel =>
      match over_peek (w_over w) with
      | None => w
      | Some it =>
          if (w_cursor w <? oi_due it) && (wheelSpan <=? u32 (oi_due it - w_cursor w)) then w
          else
            let over := match over_pop (w_over w) with Some (_, h) => h | None => w_over w end in
            let w := mkWheel (w_cursor w) (w_ring w) over (w_ringCount w) in
            admit_loop fuel (ring_add w (Z.max (oi_due it) (w_cursor w)) (oi_key it))
      end
  end.
Definition admitOverflow (w : dueWheel) : dueWheel := admit_loop (S (over_len (w_over w))) w.

(** What the loop body of due does next: leave with the cursor one past [nowHour],
    go round again without firing, or fire a bucket. *)
Definition due_iter (w : dueWheel) (nowHour : Z) : (dueWheel * list URLKey) + dueWheel :=
  if w_ringCount w =? 0 then
    let caught_up := mkWheel (u32 (nowHour + 1)) (w_ring w) (w_over w) (w_ringCount w) in
    match over_peek (w_over w) with
    | None => inr caught_up
    | Some it =>
        let edge := satSub (oi_due it) (wheelSpan - 1) in
        if nowHour <? edge then inr caught_up
        else
          let cursor := if w_cursor w <? edge then edge else w_cursor w in
          inl (admitOverflow (mkWheel cursor (w_ring w) (w_over w) (w_ringCount w)), [])
    end
  else
    let i := w_cursor w mod wheelSpan in
    let b := ring_at w (w_cursor w) in
    let w1 := if decide (b = []) then w
              else mkWheel (w_cursor w) (<[Z.to_nat i := []]> (w_ring w)) (w_over w)
                     (w_ringCount w - Z.of_nat (length b)) in
    inl (admitOverflow (mkWheel (u32 (w_cursor w1 + 1)) (w_ring w1) (w_over w1) (w_ringCount w1)), b).

Fixpoint wheel_due_loop (fuel : nat) (w : dueWheel) (nowHour : Z) : option (list URLKey * dueWheel) :=
  if nowHour <? w_cursor w then Some ([], w)
  else match fuel with
  | O => None
  | S fuel =>
      match due_iter w nowHour with
      | inr w' => Some ([], w')
      | inl (w', b) =>
          match wheel_due_loop fuel w' nowHour with
          | Some (fired, w'') => Some (b ++ fired, w'')
          | None => None
          end
      end
  end.

(** Each hour costs at most two turns, one to admit and one to fire. *)
Definition due_fuel (w : dueWheel) (nowHour : Z) : nat :=
  Z.to_nat (2 * (nowHour + 1 - w_cursor w) + 2).
Definition wheel_due (w : dueWheel) (nowHour : Z) : option (list URLKey * dueWheel) :=
  wheel_due_loop (due_fuel w nowHour) w nowHour.

Fixpoint scan_ring (fuel : nat) (w : dueWheel) (d : Z) : option Z :=
  match fuel with
  | O => None
  | S fuel =>
      if d <? u32 (w_cursor w + wheelSpan) then
        if decide (ring_at w d = []) then scan_ring fuel w (u32 (d + 1)) else Some d
      else None
  end.

Definition wheel_nextDue (w : dueWheel) : option Z :=
  let later := oi_due <$> over_peek (w_over w) in
  if 0 <? w_ringCount w then
    match scan_ring 1024 w (w_cursor w) with Some d => Some d | None => later end
  else later.

Definition wheel_len (w : dueWheel) : Z := w_ringCount w + Z.of_nat (over_len (w_over w)).

(** ** The abstract wheel *)

(** A pending URL with the hour it fires at. *)
Abbreviation pending := (list (Z * URLKey)).

(** Hours the crawler can reach: the last 2048 of the uint32 range, some 490,000
    years after the epoch, are left out, since the cursor must run a span ahead. *)
Definition hour_ok (h : Z) : Prop := 0 <= h < 2 ^ 32 - 2048.

Definition item_pair (it : overItem) : Z * URLKey := (oi_due it, oi_key it).

Record wheel_split (w : dueWheel) (p pr po : pending) : Prop := {
  ws_perm : p ≡ₚ pr ++ po;
  ws_cursor : 0 <= w_cursor w <= 2 ^ 32 - 2048;
  ws_len : length (w_ring w) = 1024%nat;
  ws_near : Forall (fun e => w_cursor w <= e.1 < w_cursor w + 1024) pr;
  ws_ring h : w_cursor w <= h < w_cursor w + 1024 -> ring_at w h ≡ₚ at_bucket h pr;
  ws_count : w_ringCount w = Z.of_nat (length pr);
  ws_far : Forall (fun e => hour_ok e.1) po;
  ws_over : item_pair <$> w_over w ≡ₚ po;
  ws_heap : heap_ordered over_less (w_over w) }.

(** [wheel_rel w p]: the wheel holds the pending URLs [p]; those in the overflow heap
    are at least a span minus one hour ahead, so the ring comes first. *)
Definition wheel_rel (w : dueWheel) (p : pending) : Prop :=
  exists pr po, wheel_split w p pr po /\ Forall (fun e => w_cursor w + 1023 <= e.1) po.

Lemma ring_at_other w h h' key :
  length (w_ring w) = 1024%nat -> h mod 1024 <> h' mod 1024 ->
  ring_at (ring_add w h key) h' = ring_at w h'.
Proof.
  intros Hl Hne. unfold ring_at, ring_add, wheelSpan. simpl.
  rewrite list_lookup_insert_ne; [done |].
  pose proof (Z.mod_pos_bound h 1024 ltac:(lia)). pose proof (Z.mod_pos_bound h' 1024 ltac:(lia)). lia.
Qed.

Lemma ring_at_same w h key :
  length (w_ring w) = 1024%nat -> ring_at (ring_add w h key) h = ring_at w h ++ [key].
Proof.
  intros Hl. unfold ring_at at 1, ring_add, wheelSpan. simpl.
  rewrite list_lookup_insert_eq; [done |].
  pose proof (Z.mod_pos_bound h 1024 ltac:(lia)). lia.
Qed.

(** Two hours of one window share a bucket only when equal. *)
Lemma window_mod c h h' :
  c <= h < c + 1024 -> c <= h' < c + 1024 -> h mod 1024 = h' mod 1024 -> h = h'.
Proof. intros. divmod. Qed.

(** Filing a key of the window into the ring. *)
Lemma ring_add_split w p pr po h key :
  wheel_split w p pr po -> w_cursor w <= h < w_cursor w + 1024 ->
  wheel_split (ring_add w h key) ((h, key) :: p) (pr ++ [(h, key)]) po.
Proof.
  intros [Hp Hc Hl Hn Hr Hk Hf Ho Hh] Hw. split; simpl; try done.
  - rewrite Hp, <- app_assoc. simpl. apply Permutation_middle.
  - by rewrite length_insert.
  - apply Forall_app. split; [done |]. by apply Forall_singleton.
  - intros h' Hh'. rewrite at_bucket_app, at_bucket_cons. simpl.
    destruct (decide (h = h')) as [<- | Hne].
    + rewrite ring_at_same by done. by rewrite Hr by done.
    + rewrite ring_at_other, app_nil_r by (done || (intros E; by apply Hne, (window_mod (w_cursor w)))).
      by apply Hr.
  - rewrite length_app, Hk. simpl. lia.
Qed.

Lemma over_head_pair w p pr po it :
  wheel_split w p pr po -> over_peek (w_over w) = Some it ->
  item_pair it ∈ po /\ Forall (fun e => oi_due it <= e.1) po.
Proof.
  intros [Hp Hc Hl Hn Hr Hk Hf Ho Hh] Hit. unfold over_peek in Hit. split.
  - rewrite <- Ho. apply list_elem_of_fmap. exists it. split; [done |].
    destruct (w_over w); [done |]. injection Hit as <-. left.
  - rewrite <- Ho. apply Forall_fmap, Forall_forall. intros x Hx. simpl.
    by eapply over_head_min.
Qed.

(** admitOverflow moves the entries of the window into the ring and leaves only
    entries beyond it. *)
Lemma admit_loop_split fuel w p pr po :
  wheel_split w p pr po -> Forall (fun e => w_cursor w <= e.1) po ->
  (over_len (w_over w) < fuel)%nat ->
  exists pr' po', wheel_split (admit_loop fuel w) p (pr ++ pr') po' /\ po ≡ₚ pr' ++ po' /\
    w_cursor (admit_loop fuel w) = w_cursor w /\
    Forall (fun e => w_cursor w + 1024 <= e.1) po'.
Proof.
  revert w p pr po. induction fuel as [|fuel IH]; intros w p pr po HS Hge Hf; [lia |]. cbn [admit_loop].
  destruct (over_peek (w_over w)) as [it |] eqn:Ep.
  2: { exists [], po. rewrite app_nil_r. split; [done |]. split; [done |]. split; [done |].
       pose proof (ws_over _ _ _ _ HS) as Ho. unfold over_peek in Ep. destruct (w_over w); [| done].
       simpl in Ho. apply Permutation_nil in Ho as ->. constructor. }
  destruct (over_head_pair _ _ _ _ _ HS Ep) as [Hin Hmin].
  pose proof HS as [Hp Hc Hl Hn Hr Hk Hfar Ho Hh].
  assert (Hd : w_cursor w <= oi_due it).
  { rewrite Forall_forall in Hge. apply (Hge _ Hin). }
  assert (Hok : hour_ok (oi_due it)).
  { rewrite Forall_forall in Hfar. apply (Hfar _ Hin). }
  unfold hour_ok in Hok. rewrite u32_small by (unfold fits; lia). unfold wheelSpan.
  destruct ((w_cursor w <? oi_due it) && (1024 <=? oi_due it - w_cursor w)) eqn:E.
  - bool_prop. exists [], po. rewrite app_nil_r. split; [done |]. split; [done |]. split; [done |].
    eapply Forall_impl; [exact Hmin |]. simpl. lia.
  - assert (Hnear : oi_due it < w_cursor w + 1024).
    { apply andb_false_iff in E as [E | E]; bool_prop; lia. }
    unfold over_peek in Ep. destruct (w_over w) as [|x rest] eqn:Ew; [done |]. injection Ep as ->.
    destruct (over_pop_heap it rest Hh) as (l' & -> & Hh' & Hl'). cbv beta iota.
    cbn [w_cursor]. rewrite (Z.max_l (oi_due it) (w_cursor w)) by lia.
    assert (HS' : wheel_split (mkWheel (w_cursor w) (w_ring w) l' (w_ringCount w))
                    (pr ++ (item_pair <$> l')) pr (item_pair <$> l')).
    { split; simpl; try done. rewrite Hl'. rewrite <- Ho in Hfar. by inversion Hfar. }
    apply (ring_add_split _ _ _ _ (oi_due it) (oi_key it)) in HS'; [| simpl; lia].
    destruct (IH _ _ _ _ HS') as (pr' & po' & HS2 & Hpo & Hcur & Hbeyond).
    + simpl. rewrite Hl'. rewrite <- Ho in Hge. by inversion Hge.
    + simpl. unfold over_len in *. rewrite (Permutation_length Hl'). simpl in Hf. lia.
    + exists (item_pair it :: pr'), po'.
      rewrite <- app_assoc in HS2. simpl in HS2, Hcur. split; [| split; [| split; [done | done]]].
      * destruct HS2 as [Hp2 Hc2 Hl2 Hn2 Hr2 Hk2 Hf2 Ho2 Hh2]. split; try done.
        rewrite <- Hp2, Hp, <- Ho, Hl'. simpl. symmetry. apply Permutation_middle.
      * rewrite <- Ho. simpl. rewrite <- Hl', Hpo. done.
Qed.

Lemma admit_rel w p pr po :
  wheel_split w p pr po -> Forall (fun e => w_cursor w <= e.1) po ->
  exists pr' po', wheel_split (admitOverflow w) p (pr ++ pr') po' /\ po ≡ₚ pr' ++ po' /\
    w_cursor (admitOverflow w) = w_cursor w /\ Forall (fun e => w_cursor w + 1024 <= e.1) po'.
Proof. intros HS Hge. by apply admit_loop_split; [| | lia]. Qed.

#[export] Instance wheel_rel_perm w : Proper ((≡ₚ) ==> impl) (wheel_rel w).
Proof.
  intros p q E (pr & po & [] & Hfar). exists pr, po. split; [| done]. split; try done.
  by rewrite <- E.
Qed.

Lemma wheel_rel_ge w p : wheel_rel w p -> Forall (fun e => w_cursor w <= e.1) p.
Proof.
  intros (pr & po & HS & Hfar). rewrite (ws_perm _ _ _ _ HS). apply Forall_app. split.
  - eapply Forall_impl; [apply (ws_near _ _ _ _ HS) |]. simpl. lia.
  - eapply Forall_impl; [exact Hfar |]. simpl. lia.
Qed.

Lemma newDueWheel_rel base : hour_ok base -> wheel_rel (newDueWheel base) [].
Proof.
  intros Hb. exists [], []. split; [| done]. unfold hour_ok in Hb.
  split; simpl; try done.
  - lia.
  - intros h _. unfold ring_at, newDueWheel. cbn [w_ring].
    assert (replicate 1024 (@nil URLKey) !! Z.to_nat (h mod wheelSpan) = Some []) as ->; [| done].
    apply lookup_replicate_2. unfold wheelSpan. pose proof (Z.mod_pos_bound h 1024 ltac:(lia)). lia.
Qed.

Lemma wheel_add_rel w p key d :
  wheel_rel w p -> hour_ok d -> wheel_rel (wheel_add w key d) ((Z.max d (w_cursor w), key) :: p).
Proof.
  intros (pr & po & HS & Hfar) Hd. unfold wheel_add. cbv zeta.
  assert (E : (if d <=? w_cursor w then w_cursor w else d) = Z.max d (w_cursor w)).
  { case_match; bool_prop; lia. }
  rewrite E. set (h := Z.max d (w_cursor w)). pose proof (ws_cursor _ _ _ _ HS) as Hc.
  unfold hour_ok in Hd. rewrite u32_small by (unfold fits, h; lia).
  unfold wheelSpan. destruct (h - w_cursor w <? 1024) eqn:Eh; bool_prop.
  - exists (pr ++ [(h, key)]), po. split; [| done]. apply ring_add_split; [done | unfold h in *; lia].
  - exists pr, ((h, key) :: po). split; [| constructor; [simpl; lia | done]].
    destruct HS as [Hp _ Hl Hn Hr Hk Hf Ho Hh].
    destruct (over_push_heap (w_over w) (mkOverItem h key) Hh) as [Hh' Hp'].
    split; simpl; try done.
    + rewrite Hp. apply Permutation_middle.
    + constructor; [simpl; unfold hour_ok, h; lia | done].
    + rewrite Hp'. simpl. by rewrite Ho.
Qed.

(** With no key in the ring the cursor may jump anywhere. *)
Lemma jump_split w p po c :
  wheel_split w p [] po -> 0 <= c <= 2 ^ 32 - 2048 ->
  wheel_split (mkWheel c (w_ring w) (w_over w) (w_ringCount w)) p [] po.
Proof.
  intros [Hp Hc0 Hl Hn Hr Hk Hf Ho Hh] Hc. split; simpl; try done.
  intros h _. set (h0 := w_cursor w + (h - w_cursor w) mod 1024).
  pose proof (Z.mod_pos_bound (h - w_cursor w) 1024 ltac:(lia)).
  specialize (Hr h0 ltac:(unfold h0; lia)). unfold ring_at, wheelSpan in *. simpl.
  assert (h mod 1024 = h0 mod 1024) as -> by (unfold h0; divmod). done.
Qed.

Lemma at_bucket_pairs {T} c (l : list (Z * T)) :
  filter (fun e => e.1 = c) l = (fun k => (c, k)) <$> at_bucket c l.
Proof.
  induction l as [|[h k] l IH]; [done |]. rewrite at_bucket_cons, filter_cons. simpl.
  case_decide; simpl; [subst; by rewrite IH | done].
Qed.

Lemma at_bucket_out {T} h (l : list (Z * T)) : Forall (fun e => e.1 <> h) l -> at_bucket h l = [].
Proof. apply at_bucket_empty. Qed.

Lemma at_bucket_filter {T} h c (l : list (Z * T)) :
  h <> c -> at_bucket h (filter (fun e => e.1 <> c) l) = at_bucket h l.
Proof.
  intros Hne. induction l as [|[h' k] l IH]; [done |]. rewrite filter_cons. simpl.
  rewrite at_bucket_cons. simpl. case_decide.
  - rewrite at_bucket_cons, IH. done.
  - rewrite IH, decide_False by congruence. done.
Qed.

Lemma length_at_bucket {T} c (l : list (Z * T)) :
  length l = (length (at_bucket c l) + length (filter (fun e => e.1 <> c) l))%nat.
Proof.
  induction l as [|[h k] l IH]; [done |]. rewrite at_bucket_cons, filter_cons. simpl.
  repeat case_decide; simpl; try lia; done.
Qed.

(** Firing the cursor's bucket. *)
Lemma fire_split w p pr po :
  wheel_split w p pr po -> Forall (fun e => w_cursor w + 1023 <= e.1) po ->
  w_cursor w < 2 ^ 32 - 2048 ->
  wheel_split
    (mkWheel (w_cursor w + 1) (<[Z.to_nat (w_cursor w mod 1024) := []]> (w_ring w)) (w_over w)
       (w_ringCount w - Z.of_nat (length (ring_at w (w_cursor w)))))
    (filter (fun e => e.1 <> w_cursor w) p) (filter (fun e => e.1 <> w_cursor w) pr) po.
Proof.
  intros [Hp Hc Hl Hn Hr Hk Hf Ho Hh] Hfar Hlt. set (c := w_cursor w) in *.
  pose proof (Z.mod_pos_bound c 1024 ltac:(lia)) as Hm.
  split; simpl; try done.
  - rewrite Hp, filter_app. f_equiv.
    rewrite (filter_all (fun e => e.1 <> c)); [done |].
    eapply Forall_impl; [exact Hfar |]. simpl. lia.
  - lia.
  - by rewrite length_insert.
  - apply Forall_forall. intros e He. apply list_elem_of_filter in He as [Hne He].
    rewrite Forall_forall in Hn. specialize (Hn e He). lia.
  - intros h Hh'. destruct (decide (h = c + 1024)) as [-> | Hne].
    + rewrite at_bucket_out.
      * unfold ring_at, wheelSpan. simpl. replace ((c + 1024) mod 1024) with (c mod 1024) by divmod.
        by rewrite list_lookup_insert_eq by lia.
      * apply Forall_forall. intros e He. apply list_elem_of_filter in He as [_ He].
        rewrite Forall_forall in Hn. specialize (Hn e He). lia.
    + rewrite at_bucket_filter by lia. rewrite <- Hr by lia. unfold ring_at, wheelSpan. simpl.
      rewrite list_lookup_insert_ne; [done |]. pose proof (Z.mod_pos_bound h 1024 ltac:(lia)).
      intros E. assert (c = h); [| lia]. apply (window_mod c); [lia | lia |]. lia.
  - rewrite Hk, (length_at_bucket c pr), (Permutation_length (Hr c ltac:(lia))). lia.
Qed.

Lemma fire_state w p pr po :
  wheel_split w p pr po ->
  let b := ring_at w (w_cursor w) in
  (if decide (b = []) then w
   else mkWheel (w_cursor w) (<[Z.to_nat (w_cursor w mod wheelSpan) := []]> (w_ring w)) (w_over w)
          (w_ringCount w - Z.of_nat (length b)))
  = mkWheel (w_cursor w) (<[Z.to_nat (w_cursor w mod 1024) := []]> (w_ring w)) (w_over w)
      (w_ringCount w - Z.of_nat (length b)).
Proof.
  intros [_ Hc Hl _ _ _ _ _ _]. cbv zeta. case_decide as E; [| done].
  rewrite E. unfold ring_at, wheelSpan in E.
  pose proof (Z.mod_pos_bound (w_cursor w) 1024 ltac:(lia)).
  destruct (lookup_lt_is_Some_2 (w_ring w) (Z.to_nat (w_cursor w mod 1024))) as [l El]; [lia |].
  rewrite El in E. simpl in E. subst. rewrite list_insert_id by done.
  destruct w as [c r o n]; simpl. f_equal. lia.
Qed.

(** The hours of a list of fired keys never go back. *)
Abbreviation in_hour_order := (StronglySorted (fun a b : Z * URLKey => a.1 <= b.1)).

Lemma same_hour_order c (l : list URLKey) : in_hour_order ((fun k => (c, k)) <$> l).
Proof.
  induction l as [|k l IH]; simpl; constructor; [done |].
  apply Forall_fmap, Forall_true. intros x. simpl. lia.
Qed.

Lemma hour_order_app a b c :
  in_hour_order a -> in_hour_order b -> Forall (fun e => e.1 <= c) a -> Forall (fun e => c <= e.1) b ->
  in_hour_order (a ++ b).
Proof.
  intros Ha Hb Hac Hbc. induction Ha as [|x a Ha IH Hx]; [done |]. inversion Hac; subst. simpl.
  constructor; [by apply IH |]. apply Forall_app. split; [done |].
  eapply Forall_impl; [exact Hbc |]. simpl. intros e He. lia.
Qed.

(** What an advance to [now] must do to the pending URLs [p]: hand out those due by
    then, hour by hour, and keep the others. *)
Definition fires (w : dueWheel) (p : pending) (now : Z) (r : option (list URLKey * dueWheel)) : Prop :=
  exists fd w', r = Some (fd.*2, w') /\ fd ≡ₚ filter (fun e => e.1 <= now) p /\ in_hour_order fd /\
    wheel_rel w' (filter (fun e => ~ e.1 <= now) p) /\ w_cursor w' = Z.max (w_cursor w) (now + 1).

Lemma fires_nothing w w' p now :
  wheel_rel w' p -> Forall (fun e => now < e.1) p -> w_cursor w' = Z.max (w_cursor w) (now + 1) ->
  fires w p now (Some ([], w')).
Proof.
  intros HR Hp Hc. exists [], w'.
  rewrite (filter_none (fun e => e.1 <= now)), (filter_all (fun e => ~ e.1 <= now)).
  - repeat (split; [done || constructor |]). exact Hc.
  - eapply Forall_impl; [exact Hp |]. simpl. lia.
  - eapply Forall_impl; [exact Hp |]. simpl. lia.
Qed.

Lemma over_empty w p pr po :
  wheel_split w p pr po -> over_peek (w_over w) = None -> po = [].
Proof.
  intros HS E. pose proof (ws_over _ _ _ _ HS) as Ho. unfold over_peek in E.
  destruct (w_over w); [| done]. by apply Permutation_nil in Ho.
Qed.

Lemma empty_near w p pr po : wheel_split w p pr po -> w_ringCount w = 0 -> pr = [].
Proof. intros HS E. rewrite (ws_count _ _ _ _ HS) in E. destruct pr; [done |]. simpl in E. lia. Qed.

(** One turn of the loop of due with an empty ring. *)
Lemma due_iter_empty w p now :
  wheel_rel w p -> w_ringCount w = 0 -> hour_ok now -> w_cursor w <= now ->
  match due_iter w now with
  | inr w' => wheel_rel w' p /\ Forall (fun e => now < e.1) p /\ w_cursor w' = now + 1
  | inl (w', b) => b = [] /\ wheel_rel w' p /\ w_cursor w <= w_cursor w' <= now /\ 0 < w_ringCount w'
  end.
Proof.
  intros (pr & po & HS & Hfar) E0 Hnow Hle. pose proof (empty_near _ _ _ _ HS E0) as ->.
  unfold due_iter. rewrite (proj2 (Z.eqb_eq _ _) E0). cbv zeta.
  pose proof (ws_cursor _ _ _ _ HS) as Hc. unfold hour_ok in Hnow.
  pose proof (ws_perm _ _ _ _ HS) as Hp. simpl in Hp.
  assert (Hnext : u32 (now + 1) = now + 1) by (apply u32_small; unfold fits; lia).
  rewrite Hnext.
  destruct (over_peek (w_over w)) as [it |] eqn:Ep.
  2: { assert (po = []) as -> by exact (over_empty _ _ _ _ HS Ep). split; [| split; [| reflexivity]].
       2: { rewrite Hp. constructor. }
       exists [], []. split; [| constructor]. apply jump_split; [done | lia]. }
  destruct (over_head_pair _ _ _ _ _ HS Ep) as [Hin Hmin].
  assert (Hit : w_cursor w + 1023 <= oi_due it /\ hour_ok (oi_due it)).
  { pose proof (ws_far _ _ _ _ HS) as Hf. rewrite Forall_forall in Hfar, Hf.
    split; [apply (Hfar _ Hin) | apply (Hf _ Hin)]. }
  destruct Hit as [Hit Hok].
  assert (Hedge : satSub (oi_due it) (wheelSpan - 1) = oi_due it - 1023).
  { unfold satSub, wheelSpan. unfold hour_ok in Hok. bool_lia.
    rewrite u32_small by (unfold fits; lia). lia. }
  rewrite Hedge. destruct (now <? oi_due it - 1023) eqn:En; bool_prop.
  - split; [| split; [| done]].
    + exists [], po. split; [apply jump_split; [done | lia] |]. simpl.
      eapply Forall_impl; [exact Hmin |]. simpl. lia.
    + rewrite Hp. eapply Forall_impl; [exact Hmin |]. simpl. lia.
  - set (c := if w_cursor w <? oi_due it - 1023 then oi_due it - 1023 else w_cursor w).
    assert (Hcc : w_cursor w <= c <= now /\ c = oi_due it - 1023)
      by (unfold c; case_match; bool_prop; lia).
    destruct (admit_rel (mkWheel c (w_ring w) (w_over w) (w_ringCount w)) p [] po)
      as (pr' & po' & HS' & Hpo & Hcur & Hbeyond).
    { apply jump_split; [done | lia]. }
    { simpl. eapply Forall_impl; [exact Hmin |]. simpl. lia. }
    simpl in HS', Hcur, Hbeyond. split; [done |]. split; [| split; [lia |]].
    + exists pr', po'. split; [done |]. rewrite Hcur. eapply Forall_impl; [exact Hbeyond |]. simpl. lia.
    + rewrite (ws_count _ _ _ _ HS'). destruct pr' as [|e pr']; [| simpl; lia]. exfalso.
      simpl in Hpo. rewrite Hpo in Hin. rewrite Forall_forall in Hbeyond.
      specialize (Hbeyond _ Hin). unfold item_pair in Hbeyond. simpl in Hbeyond. lia.
Qed.

(** One turn that fires the cursor's bucket. *)
Lemma due_iter_fire w p now :
  wheel_rel w p -> w_ringCount w <> 0 -> hour_ok now -> w_cursor w <= now ->
  exists w', due_iter w now = inl (w', ring_at w (w_cursor w)) /\
    ring_at w (w_cursor w) ≡ₚ at_bucket (w_cursor w) p /\
    wheel_rel w' (filter (fun e => e.1 <> w_cursor w) p) /\ w_cursor w' = w_cursor w + 1.
Proof.
  intros (pr & po & HS & Hfar) E0 Hnow Hle. unfold due_iter.
  rewrite (proj2 (Z.eqb_neq _ _)) by done. rewrite (fire_state _ _ _ _ HS). cbv zeta.
  cbn [w_cursor w_ring w_over w_ringCount]. unfold hour_ok in Hnow.
  pose proof (ws_cursor _ _ _ _ HS) as Hc. rewrite u32_small by (unfold fits; lia).
  eexists. split; [reflexivity |]. split.
  { rewrite (ws_ring _ _ _ _ HS) by lia. rewrite (ws_perm _ _ _ _ HS), at_bucket_app.
    rewrite (at_bucket_out _ po); [by rewrite app_nil_r |].
    eapply Forall_impl; [exact Hfar |]. simpl. lia. }
  destruct (admit_rel _ _ _ _ (fire_split _ _ _ _ HS Hfar ltac:(lia)))
    as (pr' & po' & HS' & _ & Hcur & Hbeyond).
  { simpl. eapply Forall_impl; [exact Hfar |]. simpl. lia. }
  simpl in Hcur, Hbeyond. split; [| done].
  eexists _, po'. split; [exact HS' |]. rewrite Hcur. eapply Forall_impl; [exact Hbeyond |].
  simpl. lia.
Qed.

Lemma due_loop_spec fuel w p now :
  wheel_rel w p -> hour_ok now ->
  2 * (now + 1 - w_cursor w) + (if w_ringCount w =? 0 then 1 else 0) <= Z.of_nat fuel ->
  fires w p now (wheel_due_loop fuel w now).
Proof.
  revert w p. induction fuel as [|fuel IH]; intros w p HR Hnow Hm; simpl.
  all: pose proof (wheel_rel_ge _ _ HR) as Hge.
  all: destruct (now <? w_cursor w) eqn:En; bool_prop;
    [apply fires_nothing; [done | eapply Forall_impl; [exact Hge |]; simpl; lia | lia] |].
  { destruct (w_ringCount w =? 0); lia. }
  destruct (decide (w_ringCount w = 0)) as [E0 | E0].
  - rewrite E0 in Hm. simpl in Hm.
    pose proof (due_iter_empty w p now HR E0 Hnow En) as Hi.
    destruct (due_iter w now) as [[w' b] | w'].
    + destruct Hi as (-> & HR' & Hc & Hpos).
      destruct (IH w' p HR' Hnow) as (fd & w'' & -> & Hfd & Hord & HR'' & Hc'').
      { rewrite (proj2 (Z.eqb_neq _ _)) by lia. lia. }
      exists fd, w''. split; [done |]. do 3 (split; [done |]). lia.
    + destruct Hi as (HR' & Hp & Hc). apply fires_nothing; [done | done | lia].
  - destruct (due_iter_fire w p now HR E0 Hnow En) as (w' & -> & Hb & HR' & Hc).
    destruct (IH w' _ HR' Hnow) as (fd & w'' & -> & Hfd & Hord & HR'' & Hc'').
    { rewrite Hc. rewrite (proj2 (Z.eqb_neq _ _)) in Hm by done. case_match; lia. }
    set (c := w_cursor w) in *.
    exists (((fun k => (c, k)) <$> ring_at w c) ++ fd), w''. split; [| split; [| split; [| split]]].
    + rewrite fmap_app, <- list_fmap_compose. do 3 f_equal. symmetry. by apply list_fmap_id.
    + rewrite Hfd, Hb, <- at_bucket_pairs, list_filter_filter.
      rewrite (filter_split_perm (fun e => e.1 = c) (filter (fun e => e.1 <= now) p)).
      rewrite !list_filter_filter. f_equiv; apply reflexive_eq, list_filter_iff; intros e; lia.
    + apply (hour_order_app _ _ c); [apply same_hour_order | done | |].
      * apply Forall_fmap, Forall_true. intros x. simpl. lia.
      * rewrite Hfd. apply Forall_forall. intros e He. apply list_elem_of_filter in He as [_ He].
        apply list_elem_of_filter in He as [_ He]. rewrite Forall_forall in Hge. by apply Hge.
    + rewrite list_filter_filter in HR''. erewrite list_filter_iff in HR''; [exact HR'' |].
      intros e. simpl. lia.
    + lia.
Qed.

Lemma wheel_due_spec w p now :
  wheel_rel w p -> hour_ok now -> fires w p now (wheel_due w now).
Proof.
  intros HR Hnow. apply due_loop_spec; [done | done |]. unfold due_fuel.
  destruct (w_ringCount w =? 0); lia.
Qed.

(** The scan of the ring finds the first occupied hour of the window. *)
Lemma scan_ring_spec fuel w d :
  0 <= d -> w_cursor w <= d -> d + Z.of_nat fuel = w_cursor w + 1024 -> w_cursor w <= 2 ^ 32 - 2048 ->
  (forall h, w_cursor w <= h < d -> ring_at w h = []) ->
  match scan_ring fuel w d with
  | Some h => w_cursor w <= h < w_cursor w + 1024 /\ ring_at w h <> [] /\
              forall h', w_cursor w <= h' < h -> ring_at w h' = []
  | None => forall h, w_cursor w <= h < w_cursor w + 1024 -> ring_at w h = []
  end.
Proof.
  revert d. induction fuel as [|fuel IH]; intros d H0 Hd Hf Hc He; cbn [scan_ring].
  { intros h Hh. apply He. lia. }
  unfold wheelSpan. rewrite (u32_small (w_cursor w + 1024)) by (unfold fits; lia). bool_lia.
  destruct (decide (ring_at w d = [])) as [E | E].
  - rewrite u32_small by (unfold fits; lia). apply IH; [lia | lia | lia | lia |].
    intros h Hh. destruct (decide (h = d)) as [-> |]; [done |]. apply He. lia.
  - split; [lia |]. split; [done |]. exact He.
Qed.

Lemma wheel_nextDue_spec w p :
  wheel_rel w p ->
  match wheel_nextDue w with
  | Some h => (exists k, (h, k) ∈ p) /\ Forall (fun e => h <= e.1) p
  | None => p = []
  end.
Proof.
  intros (pr & po & HS & Hfar). unfold wheel_nextDue. cbv zeta.
  pose proof HS as [Hp Hc Hl Hn Hr Hk Hf Ho Hh].
  assert (Hover : pr = [] -> match oi_due <$> over_peek (w_over w) with
    | Some h => (exists k, (h, k) ∈ p) /\ Forall (fun e => h <= e.1) p
    | None => p = []
    end).
  { intros ->. simpl in Hp. destruct (over_peek (w_over w)) as [it |] eqn:Ep; simpl.
    - destruct (over_head_pair _ _ _ _ _ HS Ep) as [Hin Hmin]. rewrite <- Hp in Hin, Hmin.
      split; [| done]. by exists (oi_key it).
    - rewrite (over_empty _ _ _ _ HS Ep) in Hp. by apply Permutation_nil_r in Hp. }
  destruct (0 <? w_ringCount w) eqn:E0; bool_prop.
  2: { apply Hover, (empty_near _ _ _ _ HS). rewrite Hk in *. lia. }
  pose proof (scan_ring_spec 1024 w (w_cursor w) ltac:(lia) ltac:(lia) ltac:(lia) ltac:(lia) ltac:(lia)) as Hs.
  destruct (scan_ring 1024 w (w_cursor w)) as [h |].
  - destruct Hs as (Hwin & Hne & Hlt). split.
    + destruct (at_bucket h pr) as [|k l] eqn:Eb.
      { specialize (Hr h Hwin). rewrite Eb in Hr. by apply Permutation_nil_r in Hr. }
      exists k. rewrite Hp. apply elem_of_app. left.
      assert (Hin : (h, k) ∈ filter (fun e => e.1 = h) pr)
        by (rewrite at_bucket_pairs, Eb; left).
      by apply list_elem_of_filter in Hin as [_ Hin].
    + rewrite Hp. apply Forall_app. split.
      * rewrite Forall_forall in Hn |- *. intros [h' k'] He. specialize (Hn _ He). simpl in *.
        destruct (decide (h <= h')); [done |]. exfalso.
        assert (Hr' := Hr h' ltac:(lia)). rewrite Hlt in Hr' by lia.
        apply Permutation_nil in Hr'. apply at_bucket_empty in Hr'. rewrite Forall_forall in Hr'.
        by apply (Hr' _ He).
      * eapply Forall_impl; [exact Hfar |]. simpl. lia.
  - exfalso. assert (pr = []) as ->; [| simpl in Hk; lia].
    destruct pr as [|[h k] pr]; [done |]. inversion Hn; subst. simpl in *.
    assert (Hr' := Hr h ltac:(lia)). rewrite Hs in Hr' by lia. apply Permutation_nil in Hr'.
    apply at_bucket_empty in Hr'. inversion Hr'; subst. done.
Qed.

Lemma wheel_len_spec w p : wheel_rel w p -> wheel_len w = Z.of_nat (length p).
Proof.
  intros (pr & po & [Hp _ _ _ _ Hk _ Ho _] & _). unfold wheel_len, over_len.
  rewrite Hk, Hp, length_app. apply Permutation_length in Ho. rewrite length_fmap in Ho. lia.
Qed.

(** ** Runs *)

Inductive wheel_op := WAdd (key : URLKey) (dueHour : Z) | WDue (nowHour : Z).

Definition op_hour (o : wheel_op) : Z := match o with WAdd _ d => d | WDue n => n end.

(** The abstract step on the cursor and the pending URLs. *)
Inductive wheel_spec : Z * pending -> wheel_op -> list URLKey -> Z * pending -> Prop :=
  | spec_add c p key d :
      wheel_spec (c, p) (WAdd key d) [] (c, (Z.max d c, key) :: p)
  | spec_due c p now fd :
      fd ≡ₚ filter (fun e => e.1 <= now) p -> in_hour_order fd ->
      wheel_spec (c, p) (WDue now) fd.*2 (Z.max c (now + 1), filter (fun e => ~ e.1 <= now) p).

Inductive wheel_spec_run : Z * pending -> list wheel_op -> list (list URLKey) -> Z * pending -> Prop :=
  | spec_run_nil s : wheel_spec_run s [] [] s
  | spec_run_cons s o out s' os outs s'' :
      wheel_spec s o out s' -> wheel_spec_run s' os outs s'' ->
      wheel_spec_run s (o :: os) (out :: outs) s''.

Definition wheel_step (w : dueWheel) (o : wheel_op) : option (list URLKey * dueWheel) :=
  match o with
  | WAdd key d => Some ([], wheel_add w key d)
  | WDue now => wheel_due w now
  end.

Fixpoint wheel_run (w : dueWheel) (os : list wheel_op) : option (list (list URLKey) * dueWheel) :=
  match os with
  | [] => Some ([], w)
  | o :: os =>
      '(out, w1) ← wheel_step w o;
      '(outs, w2) ← wheel_run w1 os;
      Some (out :: outs, w2)
  end.

Lemma wheel_step_spec w p o :
  wheel_rel w p -> hour_ok (op_hour o) ->
  exists out w' p', wheel_step w o = Some (out, w') /\ wheel_rel w' p' /\
    wheel_spec (w_cursor w, p) o out (w_cursor w', p').
Proof.
  intros HR Ho. destruct o as [key d | now]; simpl in *.
  - eexists _, _, _. split; [reflexivity |]. split; [by apply wheel_add_rel |].
    assert (w_cursor (wheel_add w key d) = w_cursor w) as ->
      by (unfold wheel_add, ring_add; cbv zeta; by case_match).
    constructor.
  - destruct (wheel_due_spec w p now HR Ho) as (fd & w' & -> & Hfd & Hord & HR' & Hc).
    eexists _, _, _. split; [reflexivity |]. split; [exact HR' |]. rewrite Hc. by constructor.
Qed.

(** C33: every sequence of adds and advances of the wheel terminates and is a run of
    the abstract wheel: an advance to hour [now] hands out exactly the pending URLs
    due by [now], each once, hour by hour and never early, and keeps all the others,
    whatever tier they wait in and however far the cursor jumps; afterwards len is the
    number of URLs still pending and nextDue the earliest of their hours. *)
Theorem wheel_fires_each_key_once (base : Z) (os : list wheel_op)
    (Hbase : hour_ok base) (Hos : Forall (fun o => hour_ok (op_hour o)) os) :
  exists outs w p, wheel_run (newDueWheel base) os = Some (outs, w) /\
    wheel_spec_run (base, []) os outs (w_cursor w, p) /\
    wheel_len w = Z.of_nat (length p) /\
    match wheel_nextDue w with
    | Some h => (exists k, (h, k) ∈ p) /\ Forall (fun e => h <= e.1) p
    | None => p = []
    end.
Proof.
  enough (G : forall w0 p0, wheel_rel w0 p0 -> exists outs w p, wheel_run w0 os = Some (outs, w) /\
    wheel_spec_run (w_cursor w0, p0) os outs (w_cursor w, p) /\ wheel_rel w p).
  { destruct (G _ _ (newDueWheel_rel base Hbase)) as (outs & w & p & E & Hrun & HR).
    exists outs, w, p. split; [done |]. split; [done |].
    split; [by apply wheel_len_spec | by apply wheel_nextDue_spec]. }
  clear Hbase base. induction Hos as [|o os Ho _ IH]; intros w p HR; simpl.
  - exists [], w, p. split; [done |]. split; [constructor | done].
  - destruct (wheel_step_spec w p o HR Ho) as (out & w1 & p1 & -> & HR1 & Hs).
    destruct (IH w1 p1 HR1) as (outs & w2 & p2 & E & Hrun & HR2). simpl. rewrite E. simpl.
    exists (out :: outs), w2, p2. split; [done |]. split; [by econstructor | done].
Qed.

(** A near key, a far one that starts in the overflow heap, and a jump over both. *)
Lemma wheel_fires_each_key_once_witness :
  let os := [WAdd (mkKey 1 1) 5; WAdd (mkKey 1 2) 3000; WDue 4; WDue 3000] in
  (exists w, wheel_run (newDueWheel 2) os = Some ([[]; []; []; [mkKey 1 1; mkKey 1 2]], w)) /\
  exists outs w p, wheel_run (newDueWheel 2) os = Some (outs, w) /\
    wheel_spec_run (2, []) os outs (w_cursor w, p).
Proof.
  split; [eexists; vm_compute; reflexivity |].
  destruct (wheel_fires_each_key_once 2
    [WAdd (mkKey 1 1) 5; WAdd (mkKey 1 2) 3000; WDue 4; WDue 3000]) as (outs & w & p & E & H & _).
  - unfold hour_ok. lia.
  - repeat constructor; unfold hour_ok; simpl; lia.
  - exists outs, w, p. split; [exact E | exact H].
Defined.
