(* ===== verification/Arena.v ===== *)
(** * String arenas

    format/blob.go, format/dict.go, store/arena.go and frontier/arena.go: the flat
    byte buffer the [*Ref] columns index, every entry a uvarint length and the
    bytes, offset 0 the "none" sentinel; the content dictionary over it; and the
    three-mode packing of a robots blob. *)

From S2P Require Import Prelude Words Page.
Open Scope Z_scope.

Definition newArena : list Z := [0].

(** One entry: [AppendUvarint(len)] then the bytes. *)
Definition arena_entry (s : list Z) : list Z := put_uvarint (Z.of_nat (length s)) ++ s.

Definition arenaIntern (arena s : list Z) : list Z * Z :=
  let off := Z.of_nat (length arena) in
  let arena := arena ++ put_uvarint (Z.of_nat (length s)) in
  let arena := arena ++ s in
  (arena, off).

(** [None] is the nil span (or the empty string of the store and the frontier).
    The sum [start + n] is in uint64, so a corrupt length can bring [end] before
    [start]: the test on the bound passes and the slice expression panics. *)
Definition arenaRead (arena : list Z) (off : Z) : res (option (list Z)) :=
  let len := Z.of_nat (length arena) in
  if (off =? 0) || (len <=? off) then Ok None
  else match uvarint (drop (Z.to_nat off) arena) with
  | None => Ok None
  | Some (n, k) =>
      let start := u64 (off + Z.of_nat k) in
      let end_ := u64 (start + n) in
      if len <? end_ then Ok None
      else if end_ <? start then Err GoPanic
      else Ok (Some (slice arena (Z.to_nat start) (Z.to_nat end_)))
  end.

(** store/arena.go's readArena and frontier's str: the same scan, "" for nil. *)
Definition readArena (arena : list Z) (off : Z) : res (list Z) :=
  default [] <$> arenaRead arena off.

(** ** The content dictionary *)

Record arenaDict := mkDict { d_arena : list Z; d_by : gmap (list Z) Z }.

Definition newDict : arenaDict := mkDict newArena ∅.

Definition dict_intern (d : arenaDict) (span : list Z) : arenaDict * Z :=
  match d_by d !! span with
  | Some off => (d, off)
  | None =>
      let '(arena, off) := arenaIntern (d_arena d) span in
      (mkDict arena (<[span := off]> (d_by d)), off)
  end.

(** ** Robots blobs *)

Definition robotsAllowAll : Z := 0.
Definition robotsRaw : Z := 1.
Definition robotsCompressed : Z := 2.
Definition RobotsSizeHint : Z := 2 ^ 20.

Definition PackRobots `{BlockCodec} (blob : list Z) (codec : Z) : list Z :=
  if decide (blob = []) then [robotsAllowAll]
  else
    let '(used, comp) := compress codec blob in
    if negb (used =? CodecNone) && (length comp <? length blob)%nat then robotsCompressed :: comp
    else robotsRaw :: blob.

(** [None] is the not-ok result; the allow-all blob is nil. *)
Definition UnpackRobots `{BlockCodec} (packed : list Z) (codec sizeHint : Z) : option (list Z) :=
  match packed with
  | [] => None
  | mode :: body =>
      if mode =? robotsAllowAll then (if decide (body = []) then Some [] else None)
      else if mode =? robotsRaw then Some body
      else if mode =? robotsCompressed then
        match decompress codec body sizeHint with Ok out => Some out | Err _ => None end
      else None
  end.

(** ** Lemmas *)

Lemma arenaIntern_eq arena s :
  arenaIntern arena s = (arena ++ arena_entry s, Z.of_nat (length arena)).
Proof. unfold arenaIntern, arena_entry. by rewrite app_assoc. Qed.

Lemma arena_entry_length s : (1 + length s <= length (arena_entry s))%nat.
Proof.
  unfold arena_entry. rewrite length_app. pose proof (put_uvarint_length (Z.of_nat (length s))). lia.
Qed.

(** What follows an entry does not change what is read at it. *)
Lemma arenaRead_entry pre s rest :
  pre <> [] -> Z.of_nat (length (pre ++ arena_entry s ++ rest)) < 2 ^ 64 ->
  arenaRead (pre ++ arena_entry s ++ rest) (Z.of_nat (length pre)) = Ok (Some s).
Proof.
  intros Hne Hlen. unfold arenaRead.
  assert (Hpre : (0 < length pre)%nat) by (destruct pre; [done | simpl; lia]).
  pose proof (arena_entry_length s) as He. rewrite !length_app in Hlen |- *.
  rewrite (proj2 (Z.eqb_neq (Z.of_nat (length pre)) 0)) by lia.
  rewrite (proj2 (Z.leb_gt _ (Z.of_nat (length pre)))) by lia. cbn [orb].
  rewrite Nat2Z.id, drop_app_length. unfold arena_entry at 1. rewrite <- app_assoc.
  rewrite uvarint_put by (unfold fits; lia). cbv zeta.
  assert (Hl : length (arena_entry s) = (length (put_uvarint (Z.of_nat (length s))) + length s)%nat)
    by (unfold arena_entry; by rewrite length_app).
  rewrite !u64_small by (unfold fits; rewrite ?u64_small by (unfold fits; lia); lia).
  bool_lia. do 2 f_equal.
  rewrite <- Nat2Z.inj_add, <- Nat2Z.inj_add, !Nat2Z.id.
  unfold arena_entry. rewrite <- app_assoc, (app_assoc pre).
  rewrite <- length_app. apply slice_app_exact.
Qed.

Lemma arenaRead_zero arena : arenaRead arena 0 = Ok None.
Proof. reflexivity. Qed.

(** Appending to an arena keeps every span already readable. *)
Lemma uvarint_go_app buf ext i x r :
  uvarint_go buf i x = Some r -> uvarint_go (buf ++ ext) i x = Some r.
Proof.
  revert i x. induction buf as [|b buf IH]; intros i x; [done |]. cbn [uvarint_go app].
  repeat case_match; try done. apply IH.
Qed.

Lemma arenaRead_app arena ext off s :
  Z.of_nat (length (arena ++ ext)) < 2 ^ 64 ->
  arenaRead arena off = Ok (Some s) -> arenaRead (arena ++ ext) off = Ok (Some s).
Proof.
  unfold arenaRead. rewrite length_app. intros Hlen.
  destruct ((off =? 0) || (Z.of_nat (length arena) <=? off)) eqn:E0; [done |]. bool_prop.
  rewrite (proj2 (Z.eqb_neq off 0)) by done. rewrite (proj2 (Z.leb_gt _ off)) by lia. cbn [orb].
  destruct (uvarint (drop (Z.to_nat off) arena)) as [[n k] |] eqn:Eu; [| done].
  assert (E : uvarint (drop (Z.to_nat off) (arena ++ ext)) = Some (n, k)).
  { destruct (decide (Z.to_nat off <= length arena)%nat).
    - rewrite drop_app_le by done. by apply uvarint_go_app.
    - rewrite drop_ge in Eu by lia. done. }
  rewrite E. cbv zeta. destruct (_ <? u64 _) eqn:E1; [done |]. bool_prop.
  destruct (u64 (_ + n) <? _) eqn:E2; [done |]. bool_prop.
  rewrite (proj2 (Z.ltb_ge _ _)) by lia.
  intros [= <-]. do 2 f_equal. unfold slice.
  pose proof (u64_fits (u64 (off + Z.of_nat k) + n)) as [? _].
  pose proof (u64_fits (off + Z.of_nat k)) as [? _].
  set (b := u64 (u64 (off + Z.of_nat k) + n)) in *. set (a := u64 (off + Z.of_nat k)) in *.
  rewrite drop_app_le by lia. rewrite take_app_le by (rewrite length_drop; lia). done.
Qed.

(** *** The dictionary's invariant *)

(** [dict_ok d]: every indexed span is readable at its offset. *)
Definition dict_ok (d : arenaDict) : Prop :=
  d_arena d <> [] /\
  map_Forall (fun span off => off <> 0 /\ arenaRead (d_arena d) off = Ok (Some span)) (d_by d).

Lemma newDict_ok : dict_ok newDict.
Proof. split; [done |]. apply map_Forall_empty. Qed.

Lemma dict_intern_arena d span d' off :
  dict_intern d span = (d', off) -> exists ext, d_arena d' = d_arena d ++ ext.
Proof.
  unfold dict_intern. case_match; [| rewrite arenaIntern_eq]; intros [= <- <-].
  - exists []. by rewrite app_nil_r.
  - by exists (arena_entry span).
Qed.

Lemma dict_intern_ok d span d' off :
  dict_ok d -> dict_intern d span = (d', off) -> Z.of_nat (length (d_arena d')) < 2 ^ 64 ->
  dict_ok d' /\ off <> 0 /\ arenaRead (d_arena d') off = Ok (Some span) /\
  d_by d' !! span = Some off.
Proof.
  intros [Hne Hall] E Hlen. unfold dict_intern in E. destruct (d_by d !! span) as [o |] eqn:Eo.
  - injection E as <- <-. pose proof (Hall _ _ Eo) as [? ?]. done.
  - rewrite arenaIntern_eq in E. injection E as <- <-. cbn [d_arena d_by] in *.
    assert (Hr : arenaRead (d_arena d ++ arena_entry span) (Z.of_nat (length (d_arena d))) = Ok (Some span)).
    { rewrite <- (app_nil_r (arena_entry span)). apply arenaRead_entry; [done |]. by rewrite app_nil_r. }
    assert (H0 : Z.of_nat (length (d_arena d)) <> 0) by (destruct (d_arena d); [done | simpl; lia]).
    split; [| split; [done | split; [done | by rewrite lookup_insert_eq]]]. split.
    + by destruct (d_arena d).
    + apply map_Forall_insert_2; [done |]. eapply map_Forall_impl; [exact Hall |].
      intros s o [Ho Hs]. split; [done |]. by apply arenaRead_app.
Qed.

(** Interning into a content dictionary: the span reads back at the offset
    returned, spans interned before keep reading back, equal bytes get equal
    offsets, and a repeat leaves the arena alone; the frontier's and the store's
    plain arenas read back what they intern the same way, and a string interned
    before survives any later one. *)
Theorem arena_roundtrip (d : arenaDict) (span : list Z) (Hd : dict_ok d)
    (Hlen : Z.of_nat (length (d_arena (dict_intern d span).1)) < 2 ^ 64) :
  let '(d', off) := dict_intern d span in
  dict_ok d' /\ off <> 0 /\ arenaRead (d_arena d') off = Ok (Some span) /\
  dict_intern d' span = (d', off) /\
  (forall s o, arenaRead (d_arena d) o = Ok (Some s) -> arenaRead (d_arena d') o = Ok (Some s)) /\
  (forall s, Z.of_nat (length (arenaIntern (d_arena d) s).1) < 2 ^ 64 ->
     let '(a', o) := arenaIntern (d_arena d) s in readArena a' o = Ok s /\
     forall s' o', arenaRead (d_arena d) o' = Ok (Some s') -> readArena a' o' = Ok s').
Proof.
  destruct (dict_intern d span) as [d' off] eqn:E. cbn [fst] in Hlen.
  destruct (dict_intern_ok _ _ _ _ Hd E Hlen) as (Hok & H0 & Hr & Hby).
  split; [done |]. split; [done |]. split; [done |].
  split; [unfold dict_intern; by rewrite Hby |]. split.
  - intros s o Hs. destruct (dict_intern_arena _ _ _ _ E) as [ext Ed]. rewrite Ed in Hlen |- *.
    by apply arenaRead_app.
  - intros s. rewrite arenaIntern_eq. cbn [fst]. intros Hl. unfold readArena. destruct Hd as [Hne _]. split.
    + rewrite <- (app_nil_r (arena_entry s)), arenaRead_entry; [done | done | by rewrite app_nil_r].
    + intros s' o' Hs. by rewrite (arenaRead_app _ _ _ _ Hl Hs).
Qed.

Lemma arena_roundtrip_witness :
  arenaRead (d_arena (dict_intern newDict [104; 105]).1) (dict_intern newDict [104; 105]).2
  = Ok (Some [104; 105]) /\ (dict_intern newDict [104; 105]).2 = 1.
Proof.
  split; [| reflexivity].
  exact (proj1 (proj2 (proj2 (arena_roundtrip newDict [104; 105] newDict_ok (eq_refl Lt))))).
Defined.

(** Robots packing: unpacking what was packed with the same codec gives the
    blob back, the packed form is never more than one byte longer than the blob,
    an empty blob packs to the one-byte allow-all sentinel, and the two malformed
    shapes (empty input, a sentinel with a body) are not ok. *)
Theorem robots_pack_roundtrip `{BlockCodecLaws} (blob : list Z) (codec hint : Z) :
  UnpackRobots (PackRobots blob codec) codec hint = Some blob /\
  (length (PackRobots blob codec) <= S (length blob))%nat /\
  PackRobots [] codec = [robotsAllowAll] /\
  UnpackRobots [] codec hint = None /\
  forall b bs, UnpackRobots (robotsAllowAll :: b :: bs) codec hint = None.
Proof.
  unfold PackRobots. split; [| split; [| done]].
  - case_decide as Eb; [by subst |].
    pose proof (decompress_compress codec blob hint) as Hd. unfold compress in *.
    destruct (codec =? CodecZstd) eqn:Ec; cbn [fst snd negb andb] in *.
    + replace (CodecZstd =? CodecNone) with false by done. cbn [negb andb].
      destruct (length (zstd_enc blob) <? length blob)%nat; [| done].
      cbn [UnpackRobots]. unfold decompress in *. rewrite Ec. cbn [Z.eqb] in *.
      change (robotsCompressed =? robotsAllowAll) with false. change (robotsCompressed =? robotsRaw) with false.
      change (robotsCompressed =? robotsCompressed) with true. cbv iota.
      change (CodecZstd =? CodecZstd) with true in Hd. cbv iota in Hd. by rewrite Hd.
    + done.
  - case_decide; [by subst; simpl; lia |]. unfold compress.
    destruct (codec =? CodecZstd); cbn [fst snd negb andb].
    + destruct (negb _ && _) eqn:E; simpl; [| lia]. apply andb_true_iff in E as [_ E]. bool_prop. lia.
    + simpl. lia.
Qed.

#[local] Instance stored_codec : BlockCodec := {| zstd_enc s := s; zstd_dec s _ := Ok s |}.
#[local] Instance stored_codec_laws : BlockCodecLaws.
Proof. constructor; [reflexivity | cbn; lia]. Qed.

Lemma robots_pack_roundtrip_witness :
  UnpackRobots (PackRobots [1; 2; 3] CodecZstd) CodecZstd RobotsSizeHint = Some [1; 2; 3].
Proof. exact (proj1 (robots_pack_roundtrip [1; 2; 3] CodecZstd RobotsSizeHint)). Defined.

(** A corrupt length of 2^64 - 1 sends the end of the span before its start:
    readArena panics on it, though its contract is to return the empty string. *)
Theorem readArena_corrupt_length_panics :
  let corrupt := [0; 255; 255; 255; 255; 255; 255; 255; 255; 255; 1] in
  readArena corrupt 1 = Err GoPanic /\ forall off, off = 0 \/ 11 <= off -> readArena corrupt off = Ok [].
Proof.
  split; [reflexivity |]. intros off Hoff. unfold readArena, arenaRead. simpl length.
  destruct Hoff as [-> | Hoff]; [done |].
  rewrite (proj2 (Z.leb_le _ off)) by lia. by rewrite orb_true_r.
Qed.
