(* ===== verification/Ops.v ===== *)
(** * Partition maintenance: pack, compact, split, merge

    format/ops.go.  The rows are kept or divided as they are; only the [*Ref]
    columns change, each rebased by content into one dictionary. *)

From S2P Require Import Prelude Words Model Page File Arena.
Open Scope Z_scope.

Definition Pack (id lo hi created codec : Z) (urls : list URLRecord) (hosts : list HostRecord)
    (strings : list Z) : Partition :=
  mkPartition id lo hi created codec urls hosts strings [] false 0 ∅.

(** The rows with other references. *)
Definition url_refs (r : URLRecord) (u e d : Z) : URLRecord :=
  mkURL (r_URLKey r) (r_HostKey r) (r_Status r) (r_Priority r) (r_Depth r) (r_DiscoverySource r)
    u (r_FirstSeen r) (r_LastCrawled r) (r_LastChanged r) (r_NextDue r) (r_Lambda r)
    (r_CrawlCount r) (r_ChangeCount r) (r_NoChangeStreak r) e (r_LastModified r)
    (r_ContentFP r) (r_Simhash r) (r_HTTPStatus r) d (r_RetryCount r) (r_ErrorCount r).
Definition host_refs (h : HostRecord) (a b c : Z) : HostRecord :=
  mkHost (h_HostKey h) a (h_Grouping h) b (h_ResolvedIP h) (h_IPExpiry h) (h_RobotsFetched h)
    (h_RobotsExpiry h) c (h_CrawlDelay h) (h_HostNextEligible h) (h_IPNextEligible h)
    (h_URLBudget h) (h_URLCount h) (h_DepthCap h) (h_HostScore h) (h_CrawlTotal h)
    (h_ErrorTotal h) (h_AvgLatency h) (h_Flags h).

(** ** The rebaser; the dictionary it shares is threaded beside it *)

Record rebaser := mkRebaser { rb_src : list Z; rb_cache : gmap Z Z }.
Definition newRebaser (src : list Z) : rebaser := mkRebaser src ∅.

Definition rb_intern (rb : rebaser) (d : arenaDict) (off : Z) : res (rebaser * arenaDict * Z) :=
  if off =? 0 then Ok (rb, d, 0)
  else match rb_cache rb !! off with
  | Some v => Ok (rb, d, v)
  | None =>
      span ← arenaRead (rb_src rb) off;
      match span with
      | None => Ok (rb, d, 0)
      | Some span =>
          let '(d, newOff) := dict_intern d span in
          Ok (mkRebaser (rb_src rb) (<[off := newOff]> (rb_cache rb)), d, newOff)
      end
  end.

Definition copyURL (rb : rebaser) (d : arenaDict) (r : URLRecord) : res (rebaser * arenaDict * URLRecord) :=
  '(rb, d, u) ← rb_intern rb d (r_URLRef r);
  '(rb, d, e) ← rb_intern rb d (r_ETagRef r);
  '(rb, d, m) ← rb_intern rb d (r_RedirectRef r);
  Ok (rb, d, url_refs r u e m).

Definition copyHost (rb : rebaser) (d : arenaDict) (h : HostRecord) : res (rebaser * arenaDict * HostRecord) :=
  '(rb, d, a) ← rb_intern rb d (h_HostRef h);
  '(rb, d, b) ← rb_intern rb d (h_RegistrableRef h);
  '(rb, d, c) ← rb_intern rb d (h_RobotsRef h);
  Ok (rb, d, host_refs h a b c).

(** The loop that copies every row of a table. *)
Fixpoint copy_all {A} (copy : rebaser -> arenaDict -> A -> res (rebaser * arenaDict * A))
    (rb : rebaser) (d : arenaDict) (rows : list A) : res (rebaser * arenaDict * list A) :=
  match rows with
  | [] => Ok (rb, d, [])
  | r :: rows =>
      '(rb, d, r) ← copy rb d r;
      '(rb, d, rows) ← copy_all copy rb d rows;
      Ok (rb, d, r :: rows)
  end.

Definition rebaseArena (dst : Partition) (src : list Z) : res Partition :=
  '(rb, d, urls) ← copy_all copyURL (newRebaser src) newDict (p_URLs dst);
  '(_, d, hosts) ← copy_all copyHost rb d (p_Hosts dst);
  Ok (mkPartition (p_ID dst) (p_HostKeyLo dst) (p_HostKeyHi dst) (p_CreatedHours dst)
        (p_DefaultCodec dst) urls hosts (d_arena d) (p_SeenFilter dst) (p_BuildSchedule dst)
        (p_MaxPageRows dst) (p_Meta dst)).

(** ** The three operations *)

Definition Compact (p : Partition) : res Partition :=
  let live := filter (fun r => r_Status r <> StatusGone) (p_URLs p) in
  rebaseArena
    (mkPartition (p_ID p) (p_HostKeyLo p) (p_HostKeyHi p) (p_CreatedHours p) (p_DefaultCodec p)
       live (p_Hosts p) [] [] false 0 (p_Meta p))
    (p_Strings p).

Definition url_at (p : Partition) (i : nat) : Z := default 0 ((HostKey ∘ r_URLKey) <$> p_URLs p !! i).
Definition host_at (p : Partition) (i : nat) : Z := default 0 (h_HostKey <$> p_Hosts p !! i).

Definition Split (p : Partition) (atHostKey : Z) : res (Partition * Partition) :=
  let ui := sortSearch (length (p_URLs p)) (fun i => atHostKey <=? url_at p i) in
  let hi0 := sortSearch (length (p_Hosts p)) (fun i => atHostKey <=? host_at p i) in
  let loHiHost := if atHostKey =? 0 then 0 else u64 (atHostKey - 1) in
  let lo := mkPartition (p_ID p) (p_HostKeyLo p) loHiHost (p_CreatedHours p) (p_DefaultCodec p)
              (take ui (p_URLs p)) (take hi0 (p_Hosts p)) [] [] false 0 (p_Meta p) in
  let hi := mkPartition (p_ID p) atHostKey (p_HostKeyHi p) (p_CreatedHours p) (p_DefaultCodec p)
              (drop ui (p_URLs p)) (drop hi0 (p_Hosts p)) [] [] false 0 (p_Meta p) in
  lo ← rebaseArena lo (p_Strings p);
  hi ← rebaseArena hi (p_Strings p);
  Ok (lo, hi).

Definition Merge (a0 b0 : Partition) : res Partition :=
  let '(a, b) := if p_HostKeyLo b0 <? p_HostKeyLo a0 then (b0, a0) else (a0, b0) in
  let urls := p_URLs a ++ p_URLs b in
  let hosts := p_Hosts a ++ p_Hosts b in
  _ ← ensure (sortedURLs urls && sortedHosts hosts) ErrNotSorted;
  '(ca, d, ua) ← copy_all copyURL (newRebaser (p_Strings a)) newDict (p_URLs a);
  '(cb, d, ub) ← copy_all copyURL (newRebaser (p_Strings b)) d (p_URLs b);
  '(_, d, ha) ← copy_all copyHost ca d (p_Hosts a);
  '(_, d, hb) ← copy_all copyHost cb d (p_Hosts b);
  Ok (mkPartition (p_ID a) (p_HostKeyLo a) (Z.max (p_HostKeyHi a) (p_HostKeyHi b))
        (p_CreatedHours a) (p_DefaultCodec a) (ua ++ ub) (ha ++ hb) (d_arena d) [] false 0 (p_Meta a)).

(** ** What rebasing keeps *)

(** The span a reference names, absent for the sentinel and a dangling offset. *)
Definition span_of (arena : list Z) (off : Z) : option (list Z) :=
  match arenaRead arena off with Ok o => o | Err _ => None end.

Definition readable (arena : list Z) (off : Z) : Prop := exists o, arenaRead arena off = Ok o.

#[export] Instance readable_dec arena off : Decision (readable arena off).
Proof.
  unfold readable. destruct (arenaRead arena off) as [o | e].
  - left. by exists o.
  - right. by intros [o [=]].
Defined.

(** [off'] in [dst] names the span [off] names in [src], and is the sentinel when
    that names none. *)
Definition ref_same (src dst : list Z) (off off' : Z) : Prop :=
  span_of dst off' = span_of src off /\ (off' = 0 <-> span_of src off = None).

Definition small (a : list Z) : Prop := Z.of_nat (length a) < 2 ^ 64.

Lemma span_of_zero a : span_of a 0 = None.
Proof. by unfold span_of; rewrite arenaRead_zero. Qed.

Lemma small_app a b : small (a ++ b) -> small a.
Proof. unfold small. rewrite length_app. lia. Qed.

Lemma span_of_app a ext off s : small (a ++ ext) -> span_of a off = Some s -> span_of (a ++ ext) off = Some s.
Proof.
  unfold span_of. intros Hs. destruct (arenaRead a off) as [[x |] |] eqn:E; try done.
  intros [= ->]. by rewrite (arenaRead_app _ _ _ _ Hs E).
Qed.

Lemma ref_same_app src dst ext off off' :
  small (dst ++ ext) -> ref_same src dst off off' -> ref_same src (dst ++ ext) off off'.
Proof.
  intros Hs [E Hz]. split; [| done]. destruct (span_of src off) as [s |] eqn:Es.
  - by apply span_of_app.
  - rewrite (proj2 Hz eq_refl) in *. by rewrite span_of_zero.
Qed.

(** The dictionary as the list of its spans, in the order interned. *)
Definition dict_spans (d : arenaDict) (spans : list (list Z)) : Prop :=
  d_arena d = newArena ++ mjoin (arena_entry <$> spans) /\ NoDup spans /\
  forall s, s ∈ spans <-> is_Some (d_by d !! s).

(** Only spans that some visited reference of the sources names are interned. *)
Definition only_named (named : list Z -> Prop) (d : arenaDict) : Prop :=
  exists spans, dict_spans d spans /\ Forall named spans.

Record rb_ok (rb : rebaser) (d : arenaDict) : Prop := {
  rbo_dict : dict_ok d;
  rbo_cache : map_Forall (fun off v => v <> 0 /\ exists s,
      span_of (rb_src rb) off = Some s /\ span_of (d_arena d) v = Some s) (rb_cache rb) }.

Lemma newRebaser_ok src d : dict_ok d -> rb_ok (newRebaser src) d.
Proof. intros Hd. split; [done |]. apply map_Forall_empty. Qed.

(** The dictionary grew in the meantime, on behalf of another rebaser. *)
Lemma rb_ok_grow rb d d' :
  rb_ok rb d -> dict_ok d' -> (exists ext, d_arena d' = d_arena d ++ ext) -> small (d_arena d') -> rb_ok rb d'.
Proof.
  intros [Hd Hc] Hd' [ext E] Hs. split; [done |]. eapply map_Forall_impl; [exact Hc |].
  intros o v (Hv & s & H1 & H2). split; [done |]. exists s. split; [done |].
  rewrite E in Hs |- *. by apply span_of_app.
Qed.

Lemma dict_intern_spans d span spans :
  dict_spans d spans ->
  dict_spans (dict_intern d span).1 spans \/ dict_spans (dict_intern d span).1 (spans ++ [span]).
Proof.
  intros (Ea & Hnd & Hin). unfold dict_intern. destruct (d_by d !! span) as [o |] eqn:Eo; [by left |].
  right. rewrite arenaIntern_eq. cbn [fst d_arena d_by]. split; [| split]; cbn [d_arena d_by].
  - rewrite Ea, fmap_app, join_app, <- app_assoc. cbn. by rewrite app_nil_r.
  - apply NoDup_app. split; [done |]. split; [| apply NoDup_singleton].
    intros s Hs ->%list_elem_of_singleton. apply Hin in Hs. rewrite Eo in Hs. by destruct Hs.
  - intros s. rewrite elem_of_app, list_elem_of_singleton, Hin.
    destruct (decide (s = span)) as [-> | Hne].
    + rewrite lookup_insert_eq. split; [by eauto | by right].
    + rewrite lookup_insert_ne by done. tauto.
Qed.

(** [step_spec rb d refs rb' d' refs']: a step of a rebaser that turned the references
    [refs] into [refs'].  The dictionary only grows; as long as it stays small, the
    invariant is kept, the references name the same spans, and only spans they name
    are interned. *)
Record step_spec (rb : rebaser) (d : arenaDict) (refs : list Z) (rb' : rebaser) (d' : arenaDict)
    (refs' : list Z) : Prop := {
  st_src : rb_src rb' = rb_src rb;
  st_grow : exists ext, d_arena d' = d_arena d ++ ext;
  st_ok : small (d_arena d') -> rb_ok rb d ->
    rb_ok rb' d' /\ Forall2 (ref_same (rb_src rb) (d_arena d')) refs refs';
  st_named (named : list Z -> Prop) :
    (forall off s, off ∈ refs -> span_of (rb_src rb) off = Some s -> named s) ->
    only_named named d -> only_named named d' }.

Lemma step_nil rb d : step_spec rb d [] rb d [].
Proof. split; [done | exists []; by rewrite app_nil_r | done | done]. Qed.

Lemma step_trans rb d refs1 rb1 d1 refs1' refs2 rb2 d2 refs2' :
  step_spec rb d refs1 rb1 d1 refs1' -> step_spec rb1 d1 refs2 rb2 d2 refs2' ->
  step_spec rb d (refs1 ++ refs2) rb2 d2 (refs1' ++ refs2').
Proof.
  intros [Hs1 [e1 E1] H1 Hn1] [Hs2 [e2 E2] H2 Hn2]. rewrite Hs1 in *. split.
  - done.
  - exists (e1 ++ e2). by rewrite E2, E1, app_assoc.
  - intros Hs Hok. destruct H1 as [Hok1 Hr1]; [rewrite E2 in Hs; by eapply small_app | done |].
    destruct H2 as [Hok2 Hr2]; [done | done |]. split; [done |]. apply Forall2_app; [| done].
    rewrite E2 in Hs |- *. eapply Forall2_impl; [exact Hr1 |]. intros o o'. by apply ref_same_app.
  - intros named Hnm Hd. apply Hn2; [| apply Hn1; [| done]]; intros off s Hoff;
      apply Hnm, elem_of_app; auto.
Qed.

Lemma step_keep rb d off off' :
  (rb_ok rb d -> ref_same (rb_src rb) (d_arena d) off off') -> step_spec rb d [off] rb d [off'].
Proof.
  intros Hr. split; [done | exists []; by rewrite app_nil_r | | done].
  intros _ Hok. split; [done |]. repeat constructor; by apply Hr.
Qed.

Lemma rb_intern_step rb d off rb' d' off' :
  rb_intern rb d off = Ok (rb', d', off') -> step_spec rb d [off] rb' d' [off'].
Proof.
  unfold rb_intern. destruct (off =? 0) eqn:E0; bool_prop.
  { intros [= <- <- <-]. subst. apply step_keep. intros _. split; rewrite !span_of_zero; done. }
  destruct (rb_cache rb !! off) as [v |] eqn:Ec.
  { intros [= <- <- <-]. apply step_keep. intros [_ Hc]. destruct (Hc _ _ Ec) as (Hv & s & H1 & H2).
    split; [congruence |]. split; congruence. }
  destruct (arenaRead (rb_src rb) off) as [[span |] |] eqn:Er; cbn [mbind res_bind]; [| | done].
  2: { intros [= <- <- <-]. apply step_keep. intros _. unfold ref_same, span_of at 2 3.
       rewrite Er, span_of_zero. done. }
  destruct (dict_intern d span) as [d1 o] eqn:Ed. intros [= <- <- <-].
  assert (Es : span_of (rb_src rb) off = Some span) by (unfold span_of; by rewrite Er).
  pose proof (dict_intern_arena _ _ _ _ Ed) as Hgrow. split; [done | done | |].
  - intros Hs [Hd Hc]. destruct (dict_intern_ok _ _ _ _ Hd Ed Hs) as (Hd1 & Ho & Hread & _).
    assert (Es' : span_of (d_arena d1) o = Some span) by (unfold span_of; by rewrite Hread).
    split.
    + split; [done |]. cbn [rb_cache rb_src]. apply map_Forall_insert_2.
      * split; [done |]. by exists span.
      * eapply map_Forall_impl; [exact Hc |]. intros o1 v (Hv & s & H1 & H2). split; [done |].
        exists s. split; [done |]. destruct Hgrow as [ext E]. rewrite E in Hs |- *. by apply span_of_app.
    + repeat constructor; [congruence | congruence |]. intros E. congruence.
  - intros named Hnm (spans & Hsp & Hall). pose proof (dict_intern_spans d span spans Hsp) as Hi.
    rewrite Ed in Hi. cbn [fst] in Hi. destruct Hi as [Hi | Hi]; [by exists spans |].
    exists (spans ++ [span]). split; [done |]. apply Forall_app. split; [done |].
    apply Forall_singleton. apply (Hnm off); [| done]. by apply list_elem_of_singleton.
Qed.

Lemma rb_intern_total rb d off :
  readable (rb_src rb) off -> exists r, rb_intern rb d off = Ok r.
Proof.
  intros [o Ho]. unfold rb_intern. case_match; [by eexists |]. case_match; [by eexists |].
  rewrite Ho. cbn [mbind res_bind]. destruct o; [| by eexists]. case_match. by eexists.
Qed.

(** ** Rows *)

(** A table row as the copier sees it: its references and the rest. *)
Class Row (A : Type) := {
  row_refs : A -> list Z;
  row_set : A -> list Z -> A;
  row_copy : rebaser -> arenaDict -> A -> res (rebaser * arenaDict * A) }.

(** What the copier of a row does: its references, in order, and nothing else. *)
Class RowLaws (A : Type) `{Row A} := {
  row_copy_spec rb d r rb' d' r' :
    row_copy rb d r = Ok (rb', d', r') ->
    r' = row_set r (row_refs r') /\ length (row_refs r') = length (row_refs r) /\
    step_spec rb d (row_refs r) rb' d' (row_refs r');
  row_copy_total rb d r :
    Forall (readable (rb_src rb)) (row_refs r) -> exists x, row_copy rb d r = Ok x;
  row_set_set r l l' :
    length l = length (row_refs r) -> length l' = length l ->
    row_set (row_set r l) l' = row_set r l' }.

#[export] Instance url_Row : Row URLRecord := {|
  row_refs r := [r_URLRef r; r_ETagRef r; r_RedirectRef r];
  row_set r l := match l with [u; e; m] => url_refs r u e m | _ => r end;
  row_copy := copyURL |}.

#[export] Instance host_Row : Row HostRecord := {|
  row_refs h := [h_HostRef h; h_RegistrableRef h; h_RobotsRef h];
  row_set h l := match l with [a; b; c] => host_refs h a b c | _ => h end;
  row_copy := copyHost |}.

(** Three references in a row, the shape of both copiers. *)
Lemma intern3 {A} rb d a b c (k : Z -> Z -> Z -> A) :
  (forall x, ('(rb, d, a') ← rb_intern rb d a; '(rb, d, b') ← rb_intern rb d b;
    '(rb, d, c') ← rb_intern rb d c; Ok (rb, d, k a' b' c')) = Ok x ->
   exists a' b' c', x.2 = k a' b' c' /\ step_spec rb d [a; b; c] x.1.1 x.1.2 [a'; b'; c']) /\
  (Forall (readable (rb_src rb)) [a; b; c] ->
   exists x, ('(rb, d, a') ← rb_intern rb d a; '(rb, d, b') ← rb_intern rb d b;
     '(rb, d, c') ← rb_intern rb d c; Ok (rb, d, k a' b' c')) = Ok x).
Proof.
  split.
  - intros x E. apply res_bind_ok in E as ([[rb1 d1] a'] & E1 & E).
    apply res_bind_ok in E as ([[rb2 d2] b'] & E2 & E).
    apply res_bind_ok in E as ([[rb3 d3] c'] & E3 & [= <-]). exists a', b', c'. split; [done |].
    apply rb_intern_step in E1, E2, E3. simpl.
    exact (step_trans _ _ [a] _ _ [a'] _ _ _ _ E1
             (step_trans _ _ [b] _ _ [b'] _ _ _ _ E2 E3)).
  - intros Hr. inversion_clear Hr as [| ? ? Ha Hr']. inversion_clear Hr' as [| ? ? Hb Hr].
    inversion_clear Hr as [| ? ? Hc _].
    destruct (rb_intern_total rb d a Ha) as [[[rb1 d1] a'] E1]. rewrite E1. cbn [mbind res_bind].
    pose proof (st_src _ _ _ _ _ _ (rb_intern_step _ _ _ _ _ _ E1)) as S1. rewrite <- S1 in Hb, Hc.
    destruct (rb_intern_total rb1 d1 b Hb) as [[[rb2 d2] b'] E2]. rewrite E2. cbn [mbind res_bind].
    pose proof (st_src _ _ _ _ _ _ (rb_intern_step _ _ _ _ _ _ E2)) as S2. rewrite <- S2 in Hc.
    destruct (rb_intern_total rb2 d2 c Hc) as [[[rb3 d3] c'] E3]. rewrite E3. cbn [mbind res_bind].
    by eexists.
Qed.

#[export] Instance url_Row_laws : RowLaws URLRecord.
Proof.
  split.
  - intros rb d r rb' d' r' E. apply (proj1 (intern3 rb d _ _ _ (url_refs r))) in E.
    destruct E as (u & e & m & Er & Hs). simpl in Er, Hs. subst r'. done.
  - intros rb d r. apply (proj2 (intern3 rb d _ _ _ (url_refs r))).
  - intros r [|a [|b [|c []]]] l'; try done. by destruct l' as [|? [|? [|? []]]].
Qed.

#[export] Instance host_Row_laws : RowLaws HostRecord.
Proof.
  split.
  - intros rb d r rb' d' r' E. apply (proj1 (intern3 rb d _ _ _ (host_refs r))) in E.
    destruct E as (u & e & m & Er & Hs). simpl in Er, Hs. subst r'. done.
  - intros rb d r. apply (proj2 (intern3 rb d _ _ _ (host_refs r))).
  - intros r [|a [|b [|c []]]] l'; try done. by destruct l' as [|? [|? [|? []]]].
Qed.

Section Tables.
Context {A : Type} `{RowLaws A}.

Definition table_refs (rows : list A) : list Z := mjoin (row_refs <$> rows).

Lemma table_refs_cons r rows : table_refs (r :: rows) = row_refs r ++ table_refs rows.
Proof. reflexivity. Qed.

(** Row by row, the same but for references that name the same spans. *)
Definition rows_same (src dst : list Z) (rows rows' : list A) : Prop :=
  Forall2 (fun r r' => r' = row_set r (row_refs r') /\
                       Forall2 (ref_same src dst) (row_refs r) (row_refs r')) rows rows'.

Definition rows_shape (rows rows' : list A) : Prop :=
  Forall2 (fun r r' => r' = row_set r (row_refs r') /\ length (row_refs r') = length (row_refs r)) rows rows'.

Lemma copy_all_spec rb d rows rb' d' rows' :
  copy_all row_copy rb d rows = Ok (rb', d', rows') ->
  rows_shape rows rows' /\ step_spec rb d (table_refs rows) rb' d' (table_refs rows').
Proof.
  revert rb d rb' d' rows'. induction rows as [|r rows IH]; intros rb d rb' d' rows' E; cbn [copy_all] in E.
  { injection E as <- <- <-. split; [constructor | apply step_nil]. }
  apply res_bind_ok in E as ([[rb1 d1] r'] & E1 & E).
  apply res_bind_ok in E as ([[rb2 d2] tl] & E2 & [= <- <- <-]).
  destruct (row_copy_spec _ _ _ _ _ _ E1) as (Er & Hl & Hs1).
  destruct (IH _ _ _ _ _ E2) as [Hsh Hs2].
  split; [by constructor | by eapply step_trans].
Qed.

Lemma copy_all_total rb d rows :
  Forall (readable (rb_src rb)) (table_refs rows) -> exists x, copy_all row_copy rb d rows = Ok x.
Proof.
  revert rb d. induction rows as [|r rows IH]; intros rb d Hr; cbn [copy_all]; [by eexists |].
  rewrite table_refs_cons in Hr. apply Forall_app in Hr as [Hr1 Hr2].
  destruct (row_copy_total rb d r Hr1) as [[[rb1 d1] r'] E1]. rewrite E1. cbn [mbind res_bind].
  destruct (row_copy_spec _ _ _ _ _ _ E1) as (_ & _ & Hs1).
  destruct (IH rb1 d1) as [[[rb2 d2] tl] E2]; [by rewrite (st_src _ _ _ _ _ _ Hs1) |].
  rewrite E2. by eexists.
Qed.

Lemma rows_same_intro src dst rows rows' :
  rows_shape rows rows' -> Forall2 (ref_same src dst) (table_refs rows) (table_refs rows') ->
  rows_same src dst rows rows'.
Proof.
  induction 1 as [|r r' rows rows' [Er Hl] _ IH]; [constructor |].
  rewrite !table_refs_cons. intros Hf. apply Forall2_app_inv in Hf as [H1 H2]; [| done].
  constructor; [done |]. by apply IH.
Qed.

Lemma ref_same_trans src mid dst a b c :
  ref_same src mid a b -> ref_same mid dst b c -> ref_same src dst a c.
Proof. intros [E1 Z1] [E2 Z2]. split; [congruence |]. by rewrite Z2, E1. Qed.

Lemma rows_same_trans src mid dst l1 l2 l3 :
  rows_same src mid l1 l2 -> rows_same mid dst l2 l3 -> rows_same src dst l1 l3.
Proof.
  intros H12. revert l3. induction H12 as [|r1 r2 l1 l2 [E12 S12] _ IH]; intros l3 H23;
    inversion H23 as [|? r3 ? l3' [E23 S23] H23']; subst; [constructor |].
  constructor; [| by apply IH]. split.
  - rewrite E12 in E23. rewrite E23 at 1. apply row_set_set; symmetry; by eapply Forall2_length.
  - clear - S12 S23. revert S23. generalize (row_refs r3). induction S12 as [|a b la lb Hab _ IH];
      intros lc S23; inversion S23; subst; constructor; [by eapply ref_same_trans | by apply IH].
Qed.

Lemma rows_same_readable src dst l l' :
  rows_same src dst l l' -> Forall (readable dst) (table_refs l').
Proof.
  induction 1 as [|r r' l l' [_ S] _ IH]; [constructor |]. rewrite table_refs_cons.
  apply Forall_app. split; [| done]. clear - S. induction S as [|o o' la lb [E Hz] _ IH]; constructor; [| done].
  destruct (span_of src o) as [s |].
  - unfold readable. unfold span_of in E. destruct (arenaRead dst o'); [by eexists | done].
  - rewrite (proj2 Hz eq_refl). by exists None.
Qed.

Lemma rows_same_grow src dst ext l l' :
  small (dst ++ ext) -> rows_same src dst l l' -> rows_same src (dst ++ ext) l l'.
Proof.
  intros Hs Hrows. eapply Forall2_impl; [exact Hrows |]. intros r r' [E S]. split; [done |].
  eapply Forall2_impl; [exact S |]. intros o o'. by apply ref_same_app.
Qed.

Lemma rows_same_refs_length src dst l l' :
  rows_same src dst l l' -> length (table_refs l') = length (table_refs l).
Proof.
  induction 1 as [|r r' l l' [_ S] _ IH]; [done |].
  by rewrite !table_refs_cons, !length_app, IH, (Forall2_length _ _ _ S).
Qed.

Lemma rows_same_opts src dst l l' :
  rows_same src dst l l' -> span_of dst <$> table_refs l' = span_of src <$> table_refs l.
Proof.
  induction 1 as [|r r' l l' [_ S] _ IH]; [done |]. rewrite !table_refs_cons, !fmap_app, IH. f_equal.
  clear - S. induction S as [|o o' la lb [E _] _ IH]; [done |]. rewrite !fmap_cons. by rewrite E, IH.
Qed.

(** One table copied by a rebaser whose dictionary then grew to [dn]. *)
Lemma copy_table rb d rows rb' d' rows' dn :
  copy_all row_copy rb d rows = Ok (rb', d', rows') -> rb_ok rb d ->
  (exists ext, d_arena dn = d_arena d' ++ ext) -> small (d_arena dn) ->
  rb_ok rb' d' /\ rows_same (rb_src rb) (d_arena dn) rows rows'.
Proof.
  intros E Hok [ext En] Hs. apply copy_all_spec in E as [Hsh Hst]. rewrite En in Hs |- *.
  destruct (st_ok _ _ _ _ _ _ Hst (small_app _ _ Hs) Hok) as [Hok' Hf]. split; [done |].
  apply rows_same_grow; [done |]. by apply rows_same_intro.
Qed.
End Tables.

(** ** Rebasing a partition *)

(** An arena of entries for exactly the spans among [opts], each once. *)
Definition compact_arena (opts : list (option (list Z))) (arena : list Z) : Prop :=
  exists spans, arena = newArena ++ mjoin (arena_entry <$> spans) /\ NoDup spans /\
    Forall (fun s => Some s ∈ opts) spans.

Lemma span_of_length src off s : span_of src off = Some s -> (length s <= length src)%nat.
Proof.
  unfold span_of, arenaRead. cbv zeta. destruct (_ || _); [done |].
  destruct (uvarint _) as [[n k] |]; [| done]. destruct (_ <? _); [done |].
  destruct (_ <? _); [done |]. intros [= <-].
  unfold slice. rewrite length_take, length_drop. lia.
Qed.

Lemma arena_entry_bound s : (length (arena_entry s) <= 10 + length s)%nat.
Proof.
  unfold arena_entry. rewrite length_app. pose proof (put_uvarint_length (Z.of_nat (length s))). lia.
Qed.

(** Memory sizes in reach: one entry per reference, each at most [n] bytes long. *)
Definition refs_fit (n refs : nat) : Prop := Z.of_nat (1 + refs * (10 + n)) < 2 ^ 64.

Lemma refs_fit_mono n k k' : (k' <= k)%nat -> refs_fit n k -> refs_fit n k'.
Proof. unfold refs_fit. intros Hk. pose proof (Nat.mul_le_mono_r _ _ (10 + n) Hk). lia. Qed.

(** A compact arena is no larger than one entry per reference. *)
Lemma compact_small n opts arena :
  compact_arena opts arena -> (forall s, Some s ∈ opts -> (length s <= n)%nat) ->
  refs_fit n (length opts) -> small arena.
Proof.
  intros (spans & -> & Hnd & Hall) Hn Hfit. unfold small, refs_fit in *.
  assert (Hc : (length spans <= length opts)%nat).
  { rewrite <- (length_fmap Some). apply submseteq_length, NoDup_submseteq.
    - by apply NoDup_fmap_2; [apply _ |].
    - intros o (s & -> & Hs)%list_elem_of_fmap. rewrite Forall_forall in Hall. by apply Hall. }
  assert (length (mjoin (arena_entry <$> spans)) <= length spans * (10 + n))%nat.
  { clear Hnd Hc. induction Hall as [|s spans Hs _ IH]; [simpl; lia |].
    rewrite fmap_cons. change (mjoin (arena_entry s :: (arena_entry <$> spans)))
      with (arena_entry s ++ mjoin (arena_entry <$> spans)).
    rewrite length_app. pose proof (arena_entry_bound s). specialize (Hn s Hs).
    cbn [length]. rewrite Nat.mul_succ_l. lia. }
  unfold newArena. rewrite length_app. cbn [length].
  assert (length spans * (10 + n) <= length opts * (10 + n))%nat by (by apply Nat.mul_le_mono_r). lia.
Qed.

Lemma only_named_new named : only_named named newDict.
Proof.
  exists []. split; [| constructor]. split; [done |]. split; [constructor |].
  intros s. cbn. rewrite lookup_empty. split; [by intros ?%not_elem_of_nil | by intros [? [=]]].
Qed.

Lemma only_named_compact opts d :
  only_named (fun s => Some s ∈ opts) d -> compact_arena opts (d_arena d).
Proof. intros (spans & (Ea & Hnd & _) & Hall). by exists spans. Qed.

Lemma named_in src (refs : list Z) off s : off ∈ refs -> span_of src off = Some s -> Some s ∈ span_of src <$> refs.
Proof. intros Hoff <-. by apply list_elem_of_fmap_2. Qed.

Lemma named_length src (refs : list Z) s : Some s ∈ span_of src <$> refs -> (length s <= length src)%nat.
Proof. intros (off & E & _)%list_elem_of_fmap. by eapply span_of_length. Qed.

(** All the references of a partition. *)
Definition part_refs (p : Partition) : list Z := table_refs (p_URLs p) ++ table_refs (p_Hosts p).

(** The rows of [out] are [urls] and [hosts], rebased from [src] onto a compact arena. *)
Record rebased (src : list Z) (urls : list URLRecord) (hosts : list HostRecord) (out : Partition) : Prop := {
  rs_urls : rows_same src (p_Strings out) urls (p_URLs out);
  rs_hosts : rows_same src (p_Strings out) hosts (p_Hosts out);
  rs_arena : compact_arena (span_of src <$> table_refs urls ++ table_refs hosts) (p_Strings out);
  rs_small : small (p_Strings out) }.

(** [n] bounds the spans the rows name. *)
Lemma rebaseArena_spec_n n dst src out :
  rebaseArena dst src = Ok out ->
  (forall s, Some s ∈ span_of src <$> table_refs (p_URLs dst) ++ table_refs (p_Hosts dst) -> (length s <= n)%nat) ->
  refs_fit n (length (table_refs (p_URLs dst) ++ table_refs (p_Hosts dst))) ->
  rebased src (p_URLs dst) (p_Hosts dst) out /\
  out = mkPartition (p_ID dst) (p_HostKeyLo dst) (p_HostKeyHi dst) (p_CreatedHours dst)
          (p_DefaultCodec dst) (p_URLs out) (p_Hosts out) (p_Strings out) (p_SeenFilter dst)
          (p_BuildSchedule dst) (p_MaxPageRows dst) (p_Meta dst).
Proof.
  unfold rebaseArena. intros E Hn Hfit.
  apply res_bind_ok in E as ([[rb1 d1] urls] & E1 & E).
  apply res_bind_ok in E as ([[rb2 d2] hosts] & E2 & [= <-]). split; [| done]. cbn [p_URLs p_Hosts].
  change copyURL with (row_copy (A := URLRecord)) in E1. change copyHost with (row_copy (A := HostRecord)) in E2.
  apply copy_all_spec in E1 as [Hsh1 Hs1]. apply copy_all_spec in E2 as [Hsh2 Hs2].
  pose proof (st_src _ _ _ _ _ _ Hs1) as Hsrc. cbn [rb_src newRebaser] in Hsrc.
  pose proof (step_trans _ _ _ _ _ _ _ _ _ _ Hs1 Hs2) as Hs.
  set (refs := table_refs (p_URLs dst) ++ table_refs (p_Hosts dst)) in *.
  assert (Hc : compact_arena (span_of src <$> refs) (d_arena d2)).
  { apply only_named_compact, (st_named _ _ _ _ _ _ Hs); [| apply only_named_new].
    intros off s. apply named_in. }
  pose proof (compact_small n _ _ Hc Hn
    ltac:(by rewrite length_fmap)) as Hsm.
  destruct (st_ok _ _ _ _ _ _ Hs Hsm) as [_ Hf]; [apply newRebaser_ok, newDict_ok |].
  cbn [rb_src newRebaser] in Hf.
  apply Forall2_app_inv in Hf as [Hf1 Hf2].
  - split; [by apply rows_same_intro | by apply rows_same_intro | done | done].
  - clear - Hsh1. induction Hsh1 as [|r r' l l' [_ Hl] _ IH]; [done |].
    by rewrite !table_refs_cons, !length_app, IH, Hl.
Qed.

Lemma rebaseArena_spec dst src out :
  rebaseArena dst src = Ok out ->
  refs_fit (length src) (length (table_refs (p_URLs dst) ++ table_refs (p_Hosts dst))) ->
  rebased src (p_URLs dst) (p_Hosts dst) out /\
  out = mkPartition (p_ID dst) (p_HostKeyLo dst) (p_HostKeyHi dst) (p_CreatedHours dst)
          (p_DefaultCodec dst) (p_URLs out) (p_Hosts out) (p_Strings out) (p_SeenFilter dst)
          (p_BuildSchedule dst) (p_MaxPageRows dst) (p_Meta dst).
Proof. intros E. apply (rebaseArena_spec_n (length src)); [done | by apply named_length]. Qed.

Lemma rebaseArena_total dst src :
  Forall (readable src) (table_refs (p_URLs dst) ++ table_refs (p_Hosts dst)) ->
  exists out, rebaseArena dst src = Ok out.
Proof.
  intros [H1 H2]%Forall_app. unfold rebaseArena.
  destruct (copy_all_total (newRebaser src) newDict (p_URLs dst) H1) as [[[rb1 d1] urls] E1].
  change copyURL with (row_copy (A := URLRecord)). change copyHost with (row_copy (A := HostRecord)).
  rewrite E1. cbn [mbind res_bind].
  apply copy_all_spec in E1 as [_ Hs1]. pose proof (st_src _ _ _ _ _ _ Hs1) as Hsrc. cbn in Hsrc.
  destruct (copy_all_total rb1 d1 (p_Hosts dst)) as [[[rb2 d2] hosts] E2]; [by rewrite Hsrc |].
  rewrite E2. by eexists.
Qed.

(** ** Sortedness *)

Definition url_order (a b : URLRecord) : Prop := key_le (r_URLKey a) (r_URLKey b).
Definition host_order (a b : HostRecord) : Prop := h_HostKey a <= h_HostKey b.

#[export] Instance url_order_dec a b : Decision (url_order a b).
Proof. unfold url_order. apply _. Defined.
#[export] Instance host_order_dec a b : Decision (host_order a b).
Proof. unfold host_order. apply _. Defined.
#[export] Instance url_order_total : Total url_order.
Proof. intros a b. unfold url_order. apply (total key_le). Qed.
#[export] Instance host_order_total : Total host_order.
Proof. intros a b. unfold host_order. lia. Qed.
#[export] Instance url_order_trans : Transitive url_order.
Proof. intros a b c. unfold url_order. apply key_le_trans. Qed.
#[export] Instance host_order_trans : Transitive host_order.
Proof. intros a b c. unfold host_order. lia. Qed.

Lemma sortedURLs_strong l : sortedURLs l = true <-> StronglySorted url_order l.
Proof.
  rewrite sortedURLs_spec. split; [| apply StronglySorted_Sorted].
  apply Sorted_StronglySorted. exact url_order_trans.
Qed.

Lemma sortedHosts_strong l : sortedHosts l = true <-> StronglySorted host_order l.
Proof.
  rewrite sortedHosts_spec. split; [| apply StronglySorted_Sorted].
  apply Sorted_StronglySorted. exact host_order_trans.
Qed.

(** Rebasing does not touch the sort keys. *)
Lemma sortedURLs_keys l l' : r_URLKey <$> l = r_URLKey <$> l' -> sortedURLs l = sortedURLs l'.
Proof.
  revert l'. induction l as [|a l IH]; intros [|a' l'] E; try done. injection E as Ea E.
  specialize (IH l' E). destruct l as [|b l], l' as [|b' l']; try done. injection E as Eb E.
  change (sortedURLs (a :: b :: l)) with (if Less (r_URLKey b) (r_URLKey a) then false else sortedURLs (b :: l)).
  rewrite IH, Ea, Eb. reflexivity.
Qed.

Lemma sortedHosts_keys l l' : h_HostKey <$> l = h_HostKey <$> l' -> sortedHosts l = sortedHosts l'.
Proof.
  revert l'. induction l as [|a l IH]; intros [|a' l'] E; try done. injection E as Ea E.
  specialize (IH l' E). destruct l as [|b l], l' as [|b' l']; try done. injection E as Eb E.
  change (sortedHosts (a :: b :: l)) with (if h_HostKey b <? h_HostKey a then false else sortedHosts (b :: l)).
  rewrite IH, Ea, Eb. reflexivity.
Qed.

Lemma rows_same_urls src dst l l' : rows_same src dst l l' -> r_URLKey <$> l = r_URLKey <$> l'.
Proof.
  induction 1 as [|r r' l l' [E _] _ IH]; [done |]. rewrite !fmap_cons, IH. f_equal.
  rewrite E. cbn. by repeat case_match.
Qed.

Lemma rows_same_hosts src dst l l' : rows_same src dst l l' -> h_HostKey <$> l = h_HostKey <$> l'.
Proof.
  induction 1 as [|r r' l l' [E _] _ IH]; [done |]. rewrite !fmap_cons, IH. f_equal.
  rewrite E. cbn. by repeat case_match.
Qed.

(** What the binary search of a sorted table cuts. *)
Lemma search_cut {A} (key : A -> Z) (at_key : Z) (l : list A) :
  StronglySorted (fun a b => key a <= key b) l ->
  let i := sortSearch (length l) (fun i => at_key <=? default 0 (key <$> l !! i)) in
  take i l = filter (fun r => key r < at_key) l /\ drop i l = filter (fun r => ~ key r < at_key) l.
Proof.
  intros Hs. cbv zeta.
  assert (Hm : forall a b x y, (a <= b)%nat -> l !! a = Some x -> l !! b = Some y -> key x <= key y).
  { clear at_key. induction Hs as [|z l Hs IH Hz]; intros a b x y Hab Ha Hb; [done |].
    rewrite Forall_forall in Hz. destruct a as [|a], b as [|b]; simpl in Ha, Hb; try lia.
    - simplify_eq. lia.
    - simplify_eq. apply Hz. by eapply list_elem_of_lookup_2.
    - apply (IH a b); [lia | done | done]. }
  set (f := fun i => at_key <=? default 0 (key <$> l !! i)).
  destruct (sortSearch_spec (length l) f) as (Hr & Hlo & Hhi).
  { intros a b Hab. unfold f.
    destruct (lookup_lt_is_Some_2 l a ltac:(lia)) as [x Ea].
    destruct (lookup_lt_is_Some_2 l b ltac:(lia)) as [y Eb]. rewrite Ea, Eb. simpl.
    intros Hx. bool_prop. apply Z.leb_le. pose proof (Hm a b x y ltac:(lia) Ea Eb). lia. }
  set (i := sortSearch (length l) f) in *.
  assert (H1 : Forall (fun r => key r < at_key) (take i l)).
  { apply Forall_lookup. intros k x Hk. apply lookup_take_Some in Hk as [Hk Hki].
    specialize (Hlo k Hki). unfold f in Hlo. rewrite Hk in Hlo. simpl in Hlo. by bool_prop. }
  assert (H2 : Forall (fun r => ~ key r < at_key) (drop i l)).
  { apply Forall_lookup. intros k x Hk. rewrite lookup_drop in Hk.
    pose proof (lookup_lt_Some _ _ _ Hk). specialize (Hhi (i + k)%nat ltac:(lia)).
    unfold f in Hhi. rewrite Hk in Hhi. simpl in Hhi. bool_prop. lia. }
  rewrite <- (take_drop i l) at 2 4. rewrite !filter_app.
  rewrite (filter_all _ _ H1), (filter_none _ _ H2), app_nil_r.
  rewrite (filter_all _ _ H2). split; [done |].
  rewrite filter_none; [done |]. eapply Forall_impl; [exact H1 |]. simpl. lia.
Qed.

(** ** Merging two arenas into one dictionary *)

Lemma Merge_ok n a b :
  p_HostKeyLo a <= p_HostKeyLo b ->
  sortedURLs (p_URLs a ++ p_URLs b) = true -> sortedHosts (p_Hosts a ++ p_Hosts b) = true ->
  Forall (readable (p_Strings a)) (part_refs a) -> Forall (readable (p_Strings b)) (part_refs b) ->
  (forall s, Some s ∈ (span_of (p_Strings a) <$> part_refs a) ++ (span_of (p_Strings b) <$> part_refs b) ->
     (length s <= n)%nat) ->
  refs_fit n (length (part_refs a ++ part_refs b)) ->
  exists q ua ub ha hb, Merge a b = Ok q /\ p_URLs q = ua ++ ub /\ p_Hosts q = ha ++ hb /\
    rows_same (p_Strings a) (p_Strings q) (p_URLs a) ua /\
    rows_same (p_Strings b) (p_Strings q) (p_URLs b) ub /\
    rows_same (p_Strings a) (p_Strings q) (p_Hosts a) ha /\
    rows_same (p_Strings b) (p_Strings q) (p_Hosts b) hb /\
    compact_arena ((span_of (p_Strings a) <$> part_refs a) ++ (span_of (p_Strings b) <$> part_refs b))
      (p_Strings q) /\ small (p_Strings q).
Proof.
  intros Hlo Su Sh Ra Rb Hn Hfit. unfold Merge. rewrite (proj2 (Z.ltb_ge _ _)) by lia.
  cbv zeta. rewrite Su, Sh. cbn [andb ensure mbind res_bind].
  change copyURL with (row_copy (A := URLRecord)). change copyHost with (row_copy (A := HostRecord)).
  unfold part_refs in Ra, Rb. apply Forall_app in Ra as [Ra1 Ra2]. apply Forall_app in Rb as [Rb1 Rb2].
  destruct (copy_all_total (newRebaser (p_Strings a)) newDict (p_URLs a) Ra1) as [[[ca d1] ua] E1].
  rewrite E1. cbn [mbind res_bind].
  destruct (copy_all_total (newRebaser (p_Strings b)) d1 (p_URLs b) Rb1) as [[[cb d2] ub] E2].
  rewrite E2. cbn [mbind res_bind].
  destruct (copy_all_spec _ _ _ _ _ _ E1) as [_ S1]. destruct (copy_all_spec _ _ _ _ _ _ E2) as [_ S2].
  pose proof (st_src _ _ _ _ _ _ S1) as C1. pose proof (st_src _ _ _ _ _ _ S2) as C2. cbn in C1, C2.
  destruct (copy_all_total ca d2 (p_Hosts a)) as [[[ca' d3] ha] E3]; [by rewrite C1 |].
  rewrite E3. cbn [mbind res_bind].
  destruct (copy_all_total cb d3 (p_Hosts b)) as [[[cb' d4] hb] E4]; [by rewrite C2 |].
  rewrite E4. cbn [mbind res_bind].
  destruct (copy_all_spec _ _ _ _ _ _ E3) as [_ S3]. destruct (copy_all_spec _ _ _ _ _ _ E4) as [_ S4].
  assert (Hc : compact_arena ((span_of (p_Strings a) <$> part_refs a) ++
                              (span_of (p_Strings b) <$> part_refs b)) (d_arena d4)).
  { apply only_named_compact. unfold part_refs.
    apply (st_named _ _ _ _ _ _ S4); [| apply (st_named _ _ _ _ _ _ S3);
      [| apply (st_named _ _ _ _ _ _ S2); [| apply (st_named _ _ _ _ _ _ S1); [| apply only_named_new]]]];
    intros off s Hoff Hs; rewrite ?C1, ?C2 in Hs; cbn [rb_src newRebaser] in Hs;
      apply elem_of_app; [right | left | right | left];
      (eapply named_in; [apply elem_of_app |]; [| exact Hs]); auto. }
  assert (Hsm : small (d_arena d4)).
  { eapply compact_small; [exact Hc | exact Hn |].
    rewrite length_app, !length_fmap, <- length_app. exact Hfit. }
  destruct (st_grow _ _ _ _ _ _ S2) as [x2 G2]. destruct (st_grow _ _ _ _ _ _ S3) as [x3 G3].
  destruct (st_grow _ _ _ _ _ _ S4) as [x4 G4].
  assert (G34 : exists ext, d_arena d4 = d_arena d3 ++ ext) by eauto.
  assert (G24 : exists ext, d_arena d4 = d_arena d2 ++ ext) by (exists (x3 ++ x4); by rewrite G4, G3, app_assoc).
  assert (G14 : exists ext, d_arena d4 = d_arena d1 ++ ext)
    by (exists (x2 ++ x3 ++ x4); by rewrite G4, G3, G2, !app_assoc).
  assert (Sm3 : small (d_arena d3)) by (rewrite G4 in Hsm; by eapply small_app).
  assert (Sm2 : small (d_arena d2)) by (rewrite G3 in Sm3; by eapply small_app).
  destruct (copy_table _ _ _ _ _ _ d4 E1 (newRebaser_ok _ _ newDict_ok) G14 Hsm) as [O1 R1].
  destruct (copy_table _ _ _ _ _ _ d4 E2 (newRebaser_ok _ _ (rbo_dict _ _ O1)) G24 Hsm) as [O2 R2].
  pose proof (rb_ok_grow _ _ _ O1 (rbo_dict _ _ O2) (ex_intro _ _ G2) Sm2) as O1'.
  destruct (copy_table _ _ _ _ _ _ d4 E3 O1' G34 Hsm) as [O3 R3].
  pose proof (rb_ok_grow _ _ _ O2 (rbo_dict _ _ O3) (ex_intro _ _ G3) Sm3) as O2'.
  destruct (copy_table _ _ _ _ _ _ d4 E4 O2' ltac:(exists []; by rewrite app_nil_r) Hsm) as [O4 R4].
  rewrite C1 in R3. rewrite C2 in R4. cbn [rb_src newRebaser] in *.
  eexists _, ua, ub, ha, hb. split; [reflexivity |]. done.
Qed.

(** The identity a rebased copy of [p] keeps, with its own range. *)
Definition same_identity (p out : Partition) (lo hi : Z) : Prop :=
  p_ID out = p_ID p /\ p_HostKeyLo out = lo /\ p_HostKeyHi out = hi /\
  p_CreatedHours out = p_CreatedHours p /\ p_DefaultCodec out = p_DefaultCodec p /\
  p_Meta out = p_Meta p /\ p_SeenFilter out = [].

(** C34: Compact keeps exactly the rows that are not Gone, in order, every column as
    it was but for the references, and each reference names in the new arena the very
    span it named in the old one (the sentinel when it named none); the new arena
    holds each span the surviving rows name once and nothing else; and a sorted
    partition stays sorted, so Encode still accepts it. *)
Theorem compact_keeps_live_rows (p : Partition)
    (Hr : Forall (readable (p_Strings p)) (part_refs p))
    (Hf : refs_fit (length (p_Strings p)) (length (part_refs p))) :
  let live := filter (fun r => r_Status r <> StatusGone) (p_URLs p) in
  exists out, Compact p = Ok out /\ rebased (p_Strings p) live (p_Hosts p) out /\
    same_identity p out (p_HostKeyLo p) (p_HostKeyHi p) /\
    (sortedURLs (p_URLs p) = true -> sortedURLs (p_URLs out) = true) /\
    sortedHosts (p_Hosts out) = sortedHosts (p_Hosts p).
Proof.
  cbv zeta. unfold Compact. set (live := filter _ _).
  assert (Hsub : table_refs live ⊆+ table_refs (p_URLs p)).
  { unfold live. clear. induction (p_URLs p) as [|r l IH]; [done |]. rewrite filter_cons, table_refs_cons.
    case_decide; [rewrite table_refs_cons; by apply submseteq_skips_l |]. by apply submseteq_inserts_l. }
  destruct (rebaseArena_total (mkPartition (p_ID p) (p_HostKeyLo p) (p_HostKeyHi p) (p_CreatedHours p)
    (p_DefaultCodec p) live (p_Hosts p) [] [] false 0 (p_Meta p)) (p_Strings p)) as [out E].
  { cbn. unfold part_refs in Hr. apply Forall_app in Hr as [H1 H2]. apply Forall_app. split; [| done].
    rewrite Forall_forall in H1 |- *. intros o Ho. apply H1. by eapply elem_of_submseteq. }
  rewrite E. exists out. split; [done |].
  destruct (rebaseArena_spec _ _ _ E) as [HR Eout].
  { eapply refs_fit_mono; [| exact Hf]. cbn [p_URLs p_Hosts]. unfold part_refs. rewrite !length_app.
    apply submseteq_length in Hsub. lia. }
  cbn in HR, Eout. split; [done |]. split; [by rewrite Eout |].
  pose proof (rows_same_urls _ _ _ _ (rs_urls _ _ _ _ HR)) as Ku.
  pose proof (rows_same_hosts _ _ _ _ (rs_hosts _ _ _ _ HR)) as Kh. split.
  - rewrite <- (sortedURLs_keys _ _ Ku), !sortedURLs_strong. apply StronglySorted_filter.
  - symmetry. by apply sortedHosts_keys.
Qed.

Lemma part_refs_filter (p : Partition) (P : URLRecord -> Prop) (Q : HostRecord -> Prop)
    `{forall r, Decision (P r)} `{forall h, Decision (Q h)} :
  table_refs (filter P (p_URLs p)) ++ table_refs (filter Q (p_Hosts p)) ⊆+ part_refs p.
Proof.
  assert (G : forall A (HA : Row A) (HL : RowLaws A) (R : A -> Prop) (HR : forall x, Decision (R x)) l,
    table_refs (filter R l) ⊆+ table_refs l).
  { intros A HA HL R HR l. induction l as [|r l IH]; [done |]. rewrite filter_cons, table_refs_cons.
    case_decide; [rewrite table_refs_cons; by apply submseteq_skips_l |]. by apply submseteq_inserts_l. }
  apply submseteq_app; apply G; apply _.
Qed.

Lemma rebased_opts src urls hosts out :
  rebased src urls hosts out ->
  span_of (p_Strings out) <$> part_refs out = span_of src <$> table_refs urls ++ table_refs hosts.
Proof.
  intros [Hu Hh _ _]. unfold part_refs. rewrite !fmap_app. f_equal; by apply rows_same_opts.
Qed.

Lemma rebased_refs_length src urls hosts out :
  rebased src urls hosts out ->
  length (part_refs out) = length (table_refs urls ++ table_refs hosts).
Proof. intros HR. pose proof (rebased_opts _ _ _ _ HR) as E. apply (f_equal length) in E. by rewrite !length_fmap in E. Qed.

Lemma rebased_readable src urls hosts out :
  rebased src urls hosts out -> Forall (readable (p_Strings out)) (part_refs out).
Proof. intros [Hu Hh _ _]. apply Forall_app. split; by eapply rows_same_readable. Qed.

(** One half of a split. *)
Lemma split_half p P Q `{forall r, Decision (P r)} `{forall h, Decision (Q h)} lo hi :
  Forall (readable (p_Strings p)) (part_refs p) ->
  refs_fit (length (p_Strings p)) (length (part_refs p)) ->
  exists out, rebaseArena (mkPartition (p_ID p) lo hi (p_CreatedHours p) (p_DefaultCodec p)
      (filter P (p_URLs p)) (filter Q (p_Hosts p)) [] [] false 0 (p_Meta p)) (p_Strings p) = Ok out /\
    rebased (p_Strings p) (filter P (p_URLs p)) (filter Q (p_Hosts p)) out /\ same_identity p out lo hi.
Proof.
  intros Hr Hf. set (q := mkPartition _ _ _ _ _ _ _ _ _ _ _ _).
  pose proof (part_refs_filter p P Q) as Hsub.
  destruct (rebaseArena_total q (p_Strings p)) as [out E].
  { unfold q. cbn [p_URLs p_Hosts]. rewrite Forall_forall in Hr |- *. intros o Ho. apply Hr.
    by eapply elem_of_submseteq. }
  rewrite E. exists out. split; [done |].
  destruct (rebaseArena_spec _ _ _ E) as [HR Eout].
  { eapply refs_fit_mono; [| exact Hf]. by apply submseteq_length. }
  cbn in HR, Eout. split; [done |]. by rewrite Eout.
Qed.

(** C35: Split cuts both tables at the host key: the low half has exactly the rows of
    hosts below it and the high half the others, so no host is cut in two, each on a
    compact arena of its own, still sorted and with the two adjoining ranges; and
    Merge of the halves gives the original tables back row by row, every reference
    naming the span it named, under the original identity. *)
Theorem split_then_merge (p : Partition) (at_key : Z)
    (Hu : sortedURLs (p_URLs p) = true) (Hh : sortedHosts (p_Hosts p) = true)
    (Hr : Forall (readable (p_Strings p)) (part_refs p))
    (Hf : refs_fit (length (p_Strings p)) (length (part_refs p)))
    (Hat : 0 < at_key < 2 ^ 64) (Hlo : p_HostKeyLo p <= at_key) :
  let below r := HostKey (r_URLKey r) < at_key in
  let hbelow h := h_HostKey h < at_key in
  exists lo hi q, Split p at_key = Ok (lo, hi) /\
    rebased (p_Strings p) (filter below (p_URLs p)) (filter hbelow (p_Hosts p)) lo /\
    rebased (p_Strings p) (filter (fun r => ~ below r) (p_URLs p))
      (filter (fun h => ~ hbelow h) (p_Hosts p)) hi /\
    same_identity p lo (p_HostKeyLo p) (at_key - 1) /\ same_identity p hi at_key (p_HostKeyHi p) /\
    Merge lo hi = Ok q /\
    rows_same (p_Strings p) (p_Strings q) (p_URLs p) (p_URLs q) /\
    rows_same (p_Strings p) (p_Strings q) (p_Hosts p) (p_Hosts q).
Proof.
  cbv zeta.
  destruct (search_cut (HostKey ∘ r_URLKey) at_key (p_URLs p)) as [Tu Du].
  { apply sortedURLs_strong in Hu. eapply StronglySorted_impl; [| exact Hu].
    intros a b Hab. apply key_le_spec in Hab. simpl. lia. }
  destruct (search_cut h_HostKey at_key (p_Hosts p)) as [Th Dh]; [by apply sortedHosts_strong in Hh |].
  unfold Split. cbv zeta. rewrite (proj2 (Z.eqb_neq at_key 0)) by lia.
  rewrite u64_small by (unfold fits; lia). unfold url_at, host_at. rewrite Tu, Du, Th, Dh.
  destruct (split_half p (fun r => (HostKey ∘ r_URLKey) r < at_key) (fun h => h_HostKey h < at_key)
    (p_HostKeyLo p) (at_key - 1) Hr Hf) as (lo & -> & Rlo & Ilo). cbn [mbind res_bind].
  destruct (split_half p (fun r => ~ (HostKey ∘ r_URLKey) r < at_key) (fun h => ~ h_HostKey h < at_key)
    at_key (p_HostKeyHi p) Hr Hf) as (hi & -> & Rhi & Ihi). cbn [mbind res_bind].
  assert (Eu : filter (fun r => (HostKey ∘ r_URLKey) r < at_key) (p_URLs p) ++
               filter (fun r => ~ (HostKey ∘ r_URLKey) r < at_key) (p_URLs p) = p_URLs p)
    by (rewrite <- Tu, <- Du; apply take_drop).
  assert (Eh : filter (fun h => h_HostKey h < at_key) (p_Hosts p) ++
               filter (fun h => ~ h_HostKey h < at_key) (p_Hosts p) = p_Hosts p)
    by (rewrite <- Th, <- Dh; apply take_drop).
  assert (Hlen : (length (part_refs lo ++ part_refs hi) <= length (part_refs p))%nat).
  { rewrite length_app, (rebased_refs_length _ _ _ _ Rlo), (rebased_refs_length _ _ _ _ Rhi).
    unfold part_refs. rewrite <- Eu at 3. rewrite <- Eh at 3.
    unfold table_refs. rewrite !fmap_app, !join_app, !length_app. lia. }
  destruct (Merge_ok (length (p_Strings p)) lo hi)
    as (q & ua & ub & ha & hb & Em & Qu & Qh & Ra & Rb & Rc & Rd & _ & _).
  - destruct Ilo as (_ & -> & _). destruct Ihi as (_ & -> & _). lia.
  - rewrite <- Hu. apply sortedURLs_keys.
    rewrite fmap_app, <- (rows_same_urls _ _ _ _ (rs_urls _ _ _ _ Rlo)),
      <- (rows_same_urls _ _ _ _ (rs_urls _ _ _ _ Rhi)), <- fmap_app. by rewrite Eu.
  - rewrite <- Hh. apply sortedHosts_keys.
    rewrite fmap_app, <- (rows_same_hosts _ _ _ _ (rs_hosts _ _ _ _ Rlo)),
      <- (rows_same_hosts _ _ _ _ (rs_hosts _ _ _ _ Rhi)), <- fmap_app. by rewrite Eh.
  - by eapply rebased_readable.
  - by eapply rebased_readable.
  - rewrite (rebased_opts _ _ _ _ Rlo), (rebased_opts _ _ _ _ Rhi).
    intros s [Hs | Hs]%elem_of_app; by eapply named_length.
  - by eapply refs_fit_mono.
  - exists lo, hi, q. do 5 (split; [done |]). split; [done |]. rewrite Qu, Qh. split.
    + rewrite <- Eu at 1. apply Forall2_app; eapply rows_same_trans;
        [apply (rs_urls _ _ _ _ Rlo) | done | apply (rs_urls _ _ _ _ Rhi) | done].
    + rewrite <- Eh at 1. apply Forall2_app; eapply rows_same_trans;
        [apply (rs_hosts _ _ _ _ Rlo) | done | apply (rs_hosts _ _ _ _ Rhi) | done].
Qed.

(** ** Witnesses: two hosts sharing a registrable domain, one Gone row *)

Definition row_example (host path : Z) (status : URLStatus) (ref etag : Z) : URLRecord :=
  mkURL (mkKey host path) host status 0 1 1 ref 5 6 6 0 0 1 0 1 etag 0 11 12 200 0 0 0.
Definition host_example (host ref reg : Z) : HostRecord :=
  mkHost host ref 0 reg (replicate 16 127) 0 0 0 0 5 0 0 100 1 8 0 1 0 20 0.
Definition ops_example : Partition :=
  mkPartition 7 0 (2 ^ 64 - 1) 480000 CodecZstd
    [row_example 1 5 StatusCrawled 1 3; row_example 1 9 StatusGone 5 0; row_example 2 3 StatusReady 3 0]
    [host_example 1 1 7; host_example 2 3 7]
    [0; 1; 97; 1; 98; 1; 99; 2; 100; 101] [1; 2; 3] true 2 ∅.

Lemma ops_example_readable : Forall (readable (p_Strings ops_example)) (part_refs ops_example).
Proof. apply (bool_decide_unpack _). vm_compute. exact I. Qed.

Lemma ops_example_fits : refs_fit (length (p_Strings ops_example)) (length (part_refs ops_example)).
Proof. vm_compute. reflexivity. Qed.

Lemma compact_keeps_live_rows_witness :
  exists out, Compact ops_example = Ok out /\ p_Strings out = [0; 1; 97; 1; 98; 2; 100; 101] /\
    rows_same (p_Strings ops_example) (p_Strings out)
      (filter (fun r => r_Status r <> StatusGone) (p_URLs ops_example)) (p_URLs out).
Proof.
  destruct (compact_keeps_live_rows ops_example ops_example_readable ops_example_fits)
    as (out & E & HR & _).
  exists out. split; [exact E |]. split; [| exact (rs_urls _ _ _ _ HR)].
  assert (Ev : Compact ops_example =
    Ok (match Compact ops_example with Ok o => o | Err _ => ops_example end)) by (vm_compute; reflexivity).
  rewrite Ev in E. injection E as <-. vm_compute. reflexivity.
Defined.

Lemma split_then_merge_witness :
  exists lo hi q, Split ops_example 2 = Ok (lo, hi) /\ Merge lo hi = Ok q /\
    length (p_URLs lo) = 2%nat /\
    rows_same (p_Strings ops_example) (p_Strings q) (p_URLs ops_example) (p_URLs q).
Proof.
  destruct (split_then_merge ops_example 2) as (lo & hi & q & E & Rlo & _ & _ & _ & Em & Hrows & _).
  - vm_compute. reflexivity.
  - vm_compute. reflexivity.
  - exact ops_example_readable.
  - exact ops_example_fits.
  - split; vm_compute; reflexivity.
  - vm_compute. discriminate.
  - exists lo, hi, q. split; [exact E |]. split; [exact Em |]. split; [| exact Hrows].
    pose proof (Forall2_length _ _ _ (rs_urls _ _ _ _ Rlo)) as L. rewrite <- L. vm_compute. reflexivity.
Defined.
