(* ===== verification/Extract.v ===== *)
(** * Slicing hosts out of a partition (format/extract.go)

    Extract divides a partition by host: the rows of the hosts that move, and the others,
    each on an arena of its own. A slice is described against the partition it was cut
    from in the end, however many cuts lie between. *)

From S2P Require Import Prelude Words Model Page File Arena Ops.
Open Scope Z_scope.

Definition hostRange (p : Partition) : Partition :=
  match p_Hosts p, last (p_Hosts p) with
  | h0 :: _, Some hn =>
      mkPartition (p_ID p) (h_HostKey h0) (h_HostKey hn) (p_CreatedHours p) (p_DefaultCodec p)
        (p_URLs p) (p_Hosts p) (p_Strings p) (p_SeenFilter p) (p_BuildSchedule p) (p_MaxPageRows p) (p_Meta p)
  | _, _ => p
  end.

Definition url_host (r : URLRecord) : Z := HostKey (r_URLKey r).

(** One side of the division, before its references are rebased. *)
Definition side (p : Partition) (P : Z -> Prop) `{forall k, Decision (P k)} : Partition :=
  hostRange (mkPartition (p_ID p) 0 0 (p_CreatedHours p) (p_DefaultCodec p)
    (filter (fun r => P (url_host r)) (p_URLs p)) (filter (fun h => P (h_HostKey h)) (p_Hosts p))
    [] [] false 0 (p_Meta p)).

(** A Go map from keys to true is a set. *)
Definition Extract (p : Partition) (moving : gset Z) : res (Partition * Partition) :=
  out ← rebaseArena (side p (fun k => k ∈ moving)) (p_Strings p);
  rest ← rebaseArena (side p (fun k => k ∉ moving)) (p_Strings p);
  Ok (out, rest).

(** A partition in order always encodes. *)
Lemma Encode_sorted `{BlockCodec} p :
  sortedURLs (p_URLs p) = true -> sortedHosts (p_Hosts p) = true -> exists b, Encode p = Ok b.
Proof. intros Eu Eh. unfold Encode, Encode_in. rewrite Eu, Eh. by eexists. Qed.

(** ** Rows that name the same strings *)

Section Named.
Context {A : Type} `{RowLaws A}.

(** Row by row the same but for the references, and those name the same spans. *)
Definition rows_named (src dst : list Z) (rows rows' : list A) : Prop :=
  Forall2 (fun r r' => r' = row_set r (row_refs r') /\
    Forall2 (fun o o' => span_of dst o' = span_of src o) (row_refs r) (row_refs r')) rows rows'.

Lemma rows_same_named src dst l l' : rows_same src dst l l' -> rows_named src dst l l'.
Proof using Type.
  intros Hs. eapply Forall2_impl; [exact Hs |]. intros r r' [E S]. split; [done |].
  eapply Forall2_impl; [exact S |]. by intros o o' [? _].
Qed.

Lemma rows_named_trans src mid dst l1 l2 l3 :
  rows_named src mid l1 l2 -> rows_named mid dst l2 l3 -> rows_named src dst l1 l3.
Proof using H0.
  intros H12. revert l3. induction H12 as [|r1 r2 l1 l2 [E12 S12] _ IH]; intros l3 H23;
    inversion H23 as [|? r3 ? l3' [E23 S23] H23']; subst; [constructor |].
  constructor; [| by apply IH]. split.
  - rewrite E12 in E23. rewrite E23 at 1. apply row_set_set; symmetry; by eapply Forall2_length.
  - clear - S12 S23. revert S23. generalize (row_refs r3). induction S12 as [|a b la lb Hab _ IH];
      intros lc S23; inversion S23; subst; constructor; [congruence | by apply IH].
Qed.

Lemma rows_named_refs src dst l l' :
  rows_named src dst l l' -> span_of dst <$> table_refs l' = span_of src <$> table_refs l.
Proof using Type.
  induction 1 as [|r r' l l' [_ S] _ IH]; [done |]. rewrite !table_refs_cons, !fmap_app, IH. f_equal.
  clear - S. induction S as [|o o' la lb E _ IH]; [done |]. rewrite !fmap_cons. by rewrite E, IH.
Qed.

(** Filters on what rebasing keeps. *)
Lemma rows_named_filter src dst (key : A -> Z) (P : Z -> Prop) `{forall k, Decision (P k)} l l' :
  (forall r refs, key (row_set r refs) = key r) ->
  rows_named src dst l l' ->
  rows_named src dst (filter (fun r => P (key r)) l) (filter (fun r => P (key r)) l').
Proof using Type.
  intros Hkey. induction 1 as [|r r' l l' [E S] _ IH]; [constructor |]. rewrite !filter_cons.
  assert (Ek : key r' = key r) by (rewrite E; apply Hkey). rewrite Ek.
  case_decide; [by constructor | done].
Qed.
End Named.

Lemma rows_named_refl_urls a (l : list URLRecord) : rows_named a a l l.
Proof.
  induction l as [|r l IH]; constructor; [| done]. split; [by destruct r |].
  cbn. by repeat constructor.
Qed.
Lemma rows_named_refl_hosts a (l : list HostRecord) : rows_named a a l l.
Proof.
  induction l as [|r l IH]; constructor; [| done]. split; [by destruct r |].
  cbn. by repeat constructor.
Qed.

Lemma url_host_set (r : URLRecord) refs : url_host (row_set r refs) = url_host r.
Proof. cbn. by repeat case_match. Qed.
Lemma host_key_set (h : HostRecord) refs : h_HostKey (row_set h refs) = h_HostKey h.
Proof. cbn. by repeat case_match. Qed.

(** ** Slices *)

(** [q] has exactly the rows of [p] whose host satisfies [P], in order, each reference
    naming the span it named in [p]. *)
Record cut (p : Partition) (P : Z -> Prop) `{forall k, Decision (P k)} (q : Partition) : Prop := {
  cut_urls : rows_named (p_Strings p) (p_Strings q) (filter (fun r => P (url_host r)) (p_URLs p)) (p_URLs q);
  cut_hosts : rows_named (p_Strings p) (p_Strings q) (filter (fun h => P (h_HostKey h)) (p_Hosts p)) (p_Hosts q);
  cut_readable : Forall (readable (p_Strings q)) (part_refs q)
}.

(** What slicing needs: references that resolve, and sizes in reach. *)
Definition sliceable (p : Partition) : Prop :=
  Forall (readable (p_Strings p)) (part_refs p) /\ refs_fit (length (p_Strings p)) (length (part_refs p)).

Lemma cut_all p (P : Z -> Prop) `{forall k, Decision (P k)} : sliceable p -> (forall k, P k) -> cut p P p.
Proof.
  intros [Hr _] HP. split; [| | done]; rewrite filter_all by (apply Forall_forall; auto);
    [apply rows_named_refl_urls | apply rows_named_refl_hosts].
Qed.

Lemma cut_ext p (P Q : Z -> Prop) `{forall k, Decision (P k)} `{forall k, Decision (Q k)} q :
  (forall k, P k <-> Q k) -> cut p P q -> cut p Q q.
Proof.
  intros HPQ [Hu Hh Hr]. split; [| | done].
  - rewrite (list_filter_iff _ (fun r => P (url_host r))); [done | by intros r].
  - rewrite (list_filter_iff _ (fun h => P (h_HostKey h))); [done | by intros h].
Qed.

Lemma cut_spans p P `{forall k, Decision (P k)} q s :
  cut p P q -> Some s ∈ span_of (p_Strings q) <$> part_refs q -> (length s <= length (p_Strings p))%nat.
Proof.
  intros [Hu Hh _] Hs. unfold part_refs in Hs.
  rewrite fmap_app, (rows_named_refs _ _ _ _ Hu), (rows_named_refs _ _ _ _ Hh), <- fmap_app in Hs.
  by eapply named_length.
Qed.

Lemma cut_refs_count p P `{forall k, Decision (P k)} q :
  cut p P q -> (length (part_refs q) <= length (part_refs p))%nat.
Proof.
  intros [Hu Hh _]. transitivity (length (table_refs (filter (fun r => P (url_host r)) (p_URLs p)) ++
    table_refs (filter (fun h => P (h_HostKey h)) (p_Hosts p)))).
  - unfold part_refs. pose proof (f_equal length (rows_named_refs _ _ _ _ Hu)) as Eu.
    pose proof (f_equal length (rows_named_refs _ _ _ _ Hh)) as Eh. rewrite !length_fmap in Eu, Eh.
    rewrite !length_app. lia.
  - apply submseteq_length, part_refs_filter.
Qed.

Lemma cut_sorted p P `{forall k, Decision (P k)} q :
  cut p P q -> sortedURLs (p_URLs p) = true -> sortedHosts (p_Hosts p) = true ->
  sortedURLs (p_URLs q) = true /\ sortedHosts (p_Hosts q) = true.
Proof.
  intros [Hu Hh _] Su Sh. split.
  - rewrite <- (sortedURLs_keys (filter (fun r => P (url_host r)) (p_URLs p))).
    + apply sortedURLs_strong, StronglySorted_filter. by apply sortedURLs_strong.
    + clear - Hu. induction Hu as [|r r' l l' [E _] _ IH]; [done |]. rewrite !fmap_cons, IH. f_equal.
      rewrite E. cbn. by repeat case_match.
  - rewrite <- (sortedHosts_keys (filter (fun h => P (h_HostKey h)) (p_Hosts p))).
    + apply sortedHosts_strong, StronglySorted_filter. by apply sortedHosts_strong.
    + clear - Hh. induction Hh as [|r r' l l' [E _] _ IH]; [done |]. rewrite !fmap_cons, IH. f_equal.
      rewrite E. symmetry. apply host_key_set.
Qed.

Lemma hostRange_fields p :
  p_URLs (hostRange p) = p_URLs p /\ p_Hosts (hostRange p) = p_Hosts p /\ p_ID (hostRange p) = p_ID p.
Proof. unfold hostRange. by repeat case_match. Qed.

(** A side of a slice is a slice. *)
Lemma side_cut p P q Q `{forall k, Decision (P k)} `{forall k, Decision (Q k)} :
  sliceable p -> cut p P q ->
  exists out, rebaseArena (side q Q) (p_Strings q) = Ok out /\ cut p (fun k => Q k /\ P k) out /\
    p_ID out = p_ID q.
Proof.
  intros [_ Hfit] Hc. pose proof Hc as [Hu Hh Hr]. unfold side.
  set (s := mkPartition _ _ _ _ _ _ _ _ _ _ _ _). destruct (hostRange_fields s) as (Eu & Eh & Eid).
  pose proof (part_refs_filter q (fun r => Q (url_host r)) (fun h => Q (h_HostKey h))) as Hsub.
  destruct (rebaseArena_total (hostRange s) (p_Strings q)) as [out E].
  { rewrite Eu, Eh. cbn [p_URLs p_Hosts s]. rewrite Forall_forall in Hr |- *.
    intros o Ho. apply Hr. by eapply elem_of_submseteq. }
  exists out. split; [done |].
  destruct (rebaseArena_spec_n (length (p_Strings p)) _ _ _ E) as [HR Eout].
  { rewrite Eu, Eh. intros sp (o & Esp & Ho)%list_elem_of_fmap. apply (cut_spans p P q); [done |].
    rewrite Esp. apply list_elem_of_fmap_2. by eapply elem_of_submseteq. }
  { rewrite Eu, Eh. eapply refs_fit_mono; [| exact Hfit]. etransitivity; [by apply submseteq_length |].
    by eapply cut_refs_count. }
  rewrite Eu, Eh in HR. cbn [p_URLs p_Hosts s] in HR. split; [| by rewrite Eout].
  pose proof HR as [Ru Rh _ _]. split; [| | by eapply rebased_readable].
  - rewrite <- (list_filter_filter (fun r => Q (url_host r)) (fun r => P (url_host r))).
    eapply rows_named_trans; [| by apply rows_same_named].
    apply (rows_named_filter _ _ url_host Q); [apply url_host_set | done].
  - rewrite <- (list_filter_filter (fun h => Q (h_HostKey h)) (fun h => P (h_HostKey h))).
    eapply rows_named_trans; [| by apply rows_same_named].
    apply (rows_named_filter _ _ h_HostKey Q); [apply host_key_set | done].
Qed.

(** Extract cuts a slice in two by host. *)
Lemma Extract_cut p P q moving `{forall k, Decision (P k)} :
  sliceable p -> cut p P q ->
  exists out rest, Extract q moving = Ok (out, rest) /\
    cut p (fun k => k ∈ moving /\ P k) out /\ cut p (fun k => k ∉ moving /\ P k) rest /\
    p_ID out = p_ID q /\ p_ID rest = p_ID q.
Proof.
  intros Hs Hc. unfold Extract.
  destruct (side_cut p P q (fun k => k ∈ moving) Hs Hc) as (out & -> & Ho & Io).
  destruct (side_cut p P q (fun k => k ∉ moving) Hs Hc) as (rest & Er & Hr & Ir).
  cbn [mbind res_bind]. exists out, rest. split; [| done]. unfold mbind, res_bind. by rewrite Er.
Qed.
