(* ===== verification/Fsst.v ===== *)
(** * The FSST string codec (format/fsst.go)

    A static table of up to 255 symbols of one to eight bytes, trained over the strings;
    each string is encoded on its own as symbol codes and escaped bytes, and laid out
    in an arena of spans. Training always yields a well-formed table, whatever the
    strings; a well-formed table decodes what it encodes, alone or read back from its
    bytes. A loop whose progress rests on symbols being non-empty runs on fuel. *)

From S2P Require Import Prelude Words Arena GoSort.
Open Scope Z_scope.

Definition fsstMaxSymbols : nat := 255.
Definition fsstMaxLen : nat := 8.
Definition fsstEscape : Z := 255.
Definition fsstRounds : nat := 8.

(** ** Symbols and tables *)

Record fsstSymbol := mkSym { y_val : list Z; y_n : nat }.
#[export] Instance fsstSymbol_inhabited : Inhabited fsstSymbol := populate (mkSym [] 0).
#[export] Instance fsstSymbol_eq_dec : EqDecision fsstSymbol.
Proof. solve_decision. Defined.

Definition sym_bytes (y : fsstSymbol) : list Z := take (y_n y) (y_val y).

Record fsstTable := mkTable { t_syms : list fsstSymbol; t_byFirst : list (list nat) }.

(** The table of [&fsstTable{}]. *)
Definition zero_table : fsstTable := mkTable [] (replicate 256 []).

Definition makeSymbol (b : list Z) : fsstSymbol :=
  mkSym (take fsstMaxLen (b ++ replicate fsstMaxLen 0)) (Z.to_nat (u8 (Z.of_nat (length b)))).

Definition first_byte (y : fsstSymbol) : nat := Z.to_nat (hd 0 (y_val y)).

Definition bucket_add (bf : list (list nat)) (e : nat * fsstSymbol) : list (list nat) :=
  alter (fun bucket => bucket ++ [e.1]) (first_byte e.2) bf.

Section Codec.
Context `{GoSort}.

Definition longer (syms : list fsstSymbol) (x y : nat) : bool :=
  (y_n (syms !!! y) <? y_n (syms !!! x))%nat.

Definition buildIndex (syms : list fsstSymbol) : fsstTable :=
  mkTable syms (sort_slice (longer syms) <$> foldl bucket_add (replicate 256 []) (imap pair syms)).

(** ** Matching and coding; [s] is what is left of the string *)

Fixpoint match_loop (t : fsstTable) (bucket : list nat) (s : list Z) : Z * nat :=
  match bucket with
  | [] => (-1, 0%nat)
  | idx :: bucket =>
      let sym := t_syms t !!! idx in
      if (length s <? y_n sym)%nat then match_loop t bucket s
      else if decide (sym_bytes sym = take (y_n sym) s) then (Z.of_nat idx, y_n sym)
      else match_loop t bucket s
  end.

Definition fsst_match (t : fsstTable) (s : list Z) : Z * nat :=
  match_loop t (t_byFirst t !!! Z.to_nat (hd 0 s)) s.

Fixpoint encode_loop (fuel : nat) (t : fsstTable) (s : list Z) : res (list Z) :=
  match s, fuel with
  | [], _ => Ok []
  | _, O => Err OutOfFuel
  | b :: s', S fuel =>
      let '(idx, n) := fsst_match t s in
      if idx <? 0 then l ← encode_loop fuel t s'; Ok (fsstEscape :: b :: l)
      else l ← encode_loop fuel t (drop n s); Ok (u8 idx :: l)
  end.
Definition fsst_encode (t : fsstTable) (s : list Z) : res (list Z) := encode_loop (length s) t s.

Fixpoint fsst_decode (t : fsstTable) (code : list Z) : list Z :=
  match code with
  | [] => []
  | c :: code =>
      if c =? fsstEscape then
        match code with
        | [] => []
        | b :: code => b :: fsst_decode t code
        end
      else if (Z.to_nat c <? length (t_syms t))%nat then sym_bytes (t_syms t !!! Z.to_nat c) ++ fsst_decode t code
      else fsst_decode t code
  end.

(** The tokens [visit] is called with, in order. *)
Fixpoint tokenize_loop (fuel : nat) (t : fsstTable) (s : list Z) : res (list (list Z)) :=
  match s, fuel with
  | [], _ => Ok []
  | _, O => Err OutOfFuel
  | b :: s', S fuel =>
      let '(idx, n) := fsst_match t s in
      if idx <? 0 then l ← tokenize_loop fuel t s'; Ok ([b] :: l)
      else l ← tokenize_loop fuel t (drop n s); Ok (take n s :: l)
  end.
Definition tokenize (t : fsstTable) (s : list Z) : res (list (list Z)) := tokenize_loop (length s) t s.

(** ** Training *)

Definition gain_add (gain : gmap (list Z) Z) (tok : list Z) : gmap (list Z) Z :=
  <[tok := i64 (default 0 (gain !! tok) + Z.of_nat (length tok))]> gain.

Definition count_token (st : gmap (list Z) Z * list Z) (tok : list Z) : gmap (list Z) Z * list Z :=
  let '(gain, prev) := st in
  let gain := gain_add gain tok in
  let gain :=
    if (0 <? length prev)%nat && (length prev + length tok <=? fsstMaxLen)%nat
    then gain_add gain (prev ++ tok) else gain in
  (gain, tok).

Fixpoint bytes_less (a b : list Z) : bool :=
  match a, b with
  | [], [] => false
  | [], _ :: _ => true
  | _ :: _, [] => false
  | x :: a, y :: b => (x <? y) || ((x =? y) && bytes_less a b)
  end.

Definition better (a b : list Z * Z) : bool :=
  if negb (a.2 =? b.2) then b.2 <? a.2 else bytes_less a.1 b.1.

Definition topSymbols (gain : gmap (list Z) Z) : list fsstSymbol :=
  let cands := sort_slice better (map_to_list gain) in
  (fun c => makeSymbol c.1) <$> take fsstMaxSymbols cands.

Fixpoint count_samples (t : fsstTable) (gain : gmap (list Z) Z) (samples : list (list Z))
    : res (gmap (list Z) Z) :=
  match samples with
  | [] => Ok gain
  | s :: samples =>
      toks ← tokenize t s;
      count_samples t (foldl count_token (gain, []) toks).1 samples
  end.

Fixpoint train_rounds (rounds : nat) (t : fsstTable) (samples : list (list Z)) : res fsstTable :=
  match rounds with
  | O => Ok t
  | S rounds =>
      gain ← count_samples t ∅ samples;
      train_rounds rounds (buildIndex (topSymbols gain)) samples
  end.
Definition trainFSST (samples : list (list Z)) : res fsstTable :=
  train_rounds fsstRounds (buildIndex []) samples.

(** ** The table's bytes *)

Definition sym_entry (s : fsstSymbol) : list Z := Z.of_nat (y_n s) :: sym_bytes s.

Definition encodeTable (t : fsstTable) : list Z :=
  put_uvarint (Z.of_nat (length (t_syms t))) ++
  mjoin (sym_entry <$> t_syms t).

(** The loop of [decodeTable], which stops early at a malformed symbol; the bytes read
    and the symbols. *)
Fixpoint table_loop (count : nat) (b : list Z) : list fsstSymbol * nat :=
  match count, b with
  | O, _ | _, [] => ([], 0%nat)
  | S count, n :: b =>
      let n := Z.to_nat n in
      if (fsstMaxLen <? n)%nat || (length b <? n)%nat then ([], 1%nat)
      else
        let '(syms, off) := table_loop count (drop n b) in
        (makeSymbol (take n b) :: syms, (S n + off)%nat)
  end.

(** [make] with a capacity read from the bytes panics past Go's limit; a symbol takes
    nine bytes. No more symbols than bytes are read, whatever the count. *)
Definition decodeTable (b : list Z) : res (fsstTable * nat) :=
  match uvarint b with
  | None => Ok (zero_table, 0%nat)
  | Some (count, k) =>
      _ ← ensure (make_ok count 9) GoPanic;
      let '(syms, off) := table_loop (Z.to_nat (Z.min count (Z.of_nat (length b)))) (drop k b) in
      Ok (buildIndex syms, (k + off)%nat)
  end.

(** ** The arena *)

Record FSSTArena := mkFArena { fa_table : list Z; fa_spans : list Z; fa_t : fsstTable }.

Fixpoint lay_spans (t : fsstTable) (spans : list Z) (strs : list (list Z)) : res (list Z * list Z) :=
  match strs with
  | [] => Ok (spans, [])
  | s :: strs =>
      let off := Z.of_nat (length spans) in
      code ← fsst_encode t s;
      '(spans, offs) ← lay_spans t (spans ++ put_uvarint (Z.of_nat (length code)) ++ code) strs;
      Ok (spans, off :: offs)
  end.

Definition BuildFSSTArena (strs : list (list Z)) : res (FSSTArena * list Z) :=
  t ← trainFSST strs;
  '(spans, offs) ← lay_spans t [0] strs;
  Ok (mkFArena (encodeTable t) spans t, offs).

(** The scan of the spans is the one of the plain arena. *)
Definition fsst_Read (a : FSSTArena) (off : Z) : res (option (list Z)) :=
  span ← arenaRead (fa_spans a) off; Ok (option_map (fsst_decode (fa_t a)) span).

Definition LoadFSSTArena (table spans : list Z) : res FSSTArena :=
  '(t, _) ← decodeTable table;
  Ok (mkFArena table spans t).
End Codec.

(** ** Well-formed tables *)

Definition word_ok (b : list Z) : Prop := (1 <= length b <= fsstMaxLen)%nat /\ Forall byte_ok b.

Definition sym_wf (y : fsstSymbol) : Prop := exists b, y = makeSymbol b /\ word_ok b.

Lemma makeSymbol_spec b :
  word_ok b ->
  sym_bytes (makeSymbol b) = b /\ y_n (makeSymbol b) = length b /\
  first_byte (makeSymbol b) = Z.to_nat (hd 0 b).
Proof.
  intros [Hl _]. unfold sym_bytes, first_byte, makeSymbol, fsstMaxLen in *. cbn [y_n y_val].
  assert (En : Z.to_nat (u8 (Z.of_nat (length b))) = length b)
    by (unfold u8; rewrite Z.mod_small by lia; lia).
  split_and!; [| done |].
  - rewrite En, take_take, Nat.min_l by lia. by rewrite take_app_exact.
  - destruct b; [simpl in Hl; lia | done].
Qed.

Lemma sym_wf_bytes y : sym_wf y -> word_ok (sym_bytes y) /\ y_n y = length (sym_bytes y) /\
  y = makeSymbol (sym_bytes y) /\ first_byte y = Z.to_nat (hd 0 (sym_bytes y)).
Proof.
  intros (b & -> & Hb). destruct (makeSymbol_spec b Hb) as (E1 & E2 & E3).
  rewrite E1. by rewrite E2, E3.
Qed.

Lemma bucket_add_lookup iys bf b :
  foldl bucket_add bf iys !! b =
  (fun l => l ++ (filter (fun e => first_byte e.2 = b) iys).*1) <$> bf !! b.
Proof.
  revert bf. induction iys as [|e iys IH]; intros bf; cbn [foldl].
  - destruct (bf !! b); simpl; [by rewrite app_nil_r | done].
  - rewrite IH, filter_cons. unfold bucket_add. case_decide as E.
    + rewrite E, list_lookup_alter_eq. destruct (bf !! b); simpl; [by rewrite <- app_assoc | done].
    + by rewrite list_lookup_alter_ne.
Qed.

Section Facts.
Context `{GoSortLaws}.

Record table_wf (t : fsstTable) : Prop := {
  tw_syms : Forall sym_wf (t_syms t);
  tw_count : (length (t_syms t) <= fsstMaxSymbols)%nat;
  tw_index : t = buildIndex (t_syms t)
}.

Lemma longer_order P syms : weak_order P (longer syms).
Proof. split; unfold longer; intros; bool_prop; apply Nat.ltb_ge; lia. Qed.

(** A bucket holds the symbols that start with its byte, the longest first. *)
Lemma bucket_spec syms (b : nat) :
  (b < 256)%nat ->
  let bucket := t_byFirst (buildIndex syms) !!! b in
  (forall i, i ∈ bucket <-> exists y, syms !! i = Some y /\ first_byte y = b) /\
  StronglySorted (fun i j => y_n (syms !!! j) <= y_n (syms !!! i))%nat bucket.
Proof using H0.
  intros Hb bucket.
  set (raw := (filter (fun e : nat * fsstSymbol => first_byte e.2 = b) (imap pair syms)).*1).
  assert (Eb : bucket = sort_slice (longer syms) raw).
  { unfold bucket, buildIndex. cbn [t_byFirst]. apply list_lookup_total_correct.
    rewrite list_lookup_fmap, bucket_add_lookup, lookup_replicate_2 by lia. done. }
  split.
  - intros i. rewrite Eb, sort_slice_elem. unfold raw.
    rewrite list_elem_of_fmap. setoid_rewrite list_elem_of_filter.
    setoid_rewrite elem_of_lookup_imap. split.
    + intros ([i' y] & -> & Hf & j & y' & [= -> ->] & Hy). by exists y'.
    + intros (y & Hy & Hf). exists (i, y). split; [done |]. split; [done |]. by exists i, y.
  - rewrite Eb. generalize (sort_slice_sorted _ _ raw (longer_order _ syms)).
    apply StronglySorted_impl. intros x y. unfold not_after, longer. intros ?. by bool_prop.
Qed.

(** The symbol [i] is at the head of [s]. *)
Definition match_here (t : fsstTable) (s : list Z) (i : nat) : Prop :=
  ~ (length s < y_n (t_syms t !!! i))%nat /\ sym_bytes (t_syms t !!! i) = take (y_n (t_syms t !!! i)) s.
#[local] Instance match_here_dec t s i : Decision (match_here t s i).
Proof using Type. unfold match_here. apply _. Defined.

Lemma match_loop_find t bucket s :
  match_loop t bucket s =
  match list_find (match_here t s) bucket with
  | Some (_, i) => (Z.of_nat i, y_n (t_syms t !!! i))
  | None => (-1, 0%nat)
  end.
Proof using Type.
  induction bucket as [|i bucket IH]; cbn [match_loop list_find]; [done |]. rewrite IH.
  destruct (length s <? y_n (t_syms t !!! i))%nat eqn:El; bool_prop.
  - rewrite decide_False by (unfold match_here; lia). by destruct (list_find _ bucket) as [[]|].
  - case_decide as Ed.
    + by rewrite decide_True by (split; [lia | done]).
    + rewrite decide_False by (by intros [_ ?]). by destruct (list_find _ bucket) as [[]|].
Qed.

Lemma wf_symbol t i y : table_wf t -> t_syms t !! i = Some y ->
  t_syms t !!! i = y /\ sym_wf y /\ (i < fsstMaxSymbols)%nat.
Proof using Type.
  intros [Hs Hc _] Hy. split; [by apply list_lookup_total_correct |]. split.
  - rewrite Forall_lookup in Hs. by eapply Hs.
  - apply lookup_lt_Some in Hy. lia.
Qed.

(** A match is the longest symbol the string starts with; no match, none at all. *)
Lemma fsst_match_spec t b s :
  table_wf t -> byte_ok b ->
  match fsst_match t (b :: s) with
  | (idx, n) =>
      (idx = -1 /\ forall y, y ∈ t_syms t -> ~ sym_bytes y `prefix_of` b :: s) \/
      exists i y, idx = Z.of_nat i /\ t_syms t !! i = Some y /\ n = length (sym_bytes y) /\
        sym_bytes y ++ drop n (b :: s) = b :: s /\
        forall z, z ∈ t_syms t -> sym_bytes z `prefix_of` b :: s -> (length (sym_bytes z) <= n)%nat
  end.
Proof using H0.
  intros Hw Hb. unfold fsst_match. rewrite match_loop_find. cbn [hd].
  assert (Hb' : (Z.to_nat b < 256)%nat) by (unfold byte_ok, fits in Hb; lia).
  destruct (bucket_spec (t_syms t) (Z.to_nat b) Hb') as [Hin Hsort].
  rewrite <- (tw_index _ Hw) in Hin, Hsort. set (bucket := t_byFirst t !!! Z.to_nat b) in *.
  assert (Hcov : forall i y, t_syms t !! i = Some y -> sym_bytes y `prefix_of` b :: s ->
    i ∈ bucket /\ match_here t (b :: s) i).
  { intros i y Hy Hp. destruct (wf_symbol t i y Hw Hy) as (Ei & Hwf & _).
    destruct (sym_wf_bytes y Hwf) as ([Hl _] & Hn & _ & Hf). destruct Hp as [k Hk]. split.
    - apply Hin. exists y. split; [done |]. rewrite Hf.
      destruct (sym_bytes y) as [|c w]; [simpl in Hl; lia |]. by injection Hk as -> _.
    - unfold match_here. rewrite Ei, Hn, Hk. split; [rewrite length_app; lia |]. by rewrite take_app_length. }
  destruct (list_find (match_here t (b :: s)) bucket) as [[k i] |] eqn:Ef.
  - apply list_find_split in Ef as (l1 & l2 & Eb & _ & _ & Hi & Hl1). right.
    destruct (proj1 (Hin i)) as (y & Hy & _); [rewrite Eb; set_solver |].
    destruct (wf_symbol t i y Hw Hy) as (Ei & Hwf & _).
    destruct (sym_wf_bytes y Hwf) as (_ & Hn & _ & _).
    destruct Hi as [_ Hi]. rewrite Ei, Hn in Hi.
    exists i, y. rewrite Ei, Hn. split_and!; try done; [by rewrite Hi at 1; rewrite take_drop |].
    intros z Hz Hp. apply list_elem_of_lookup in Hz as [j Hj].
    destruct (Hcov j z Hj Hp) as [Hj1 Hj2]. destruct (wf_symbol t j z Hw Hj) as (Ej & Hwj & _).
    destruct (sym_wf_bytes z Hwj) as (_ & Hnj & _ & _). rewrite <- Hn, <- Hnj.
    rewrite Eb in Hj1, Hsort. apply elem_of_app in Hj1 as [Hj1 | [-> | Hj1]%elem_of_cons].
    + rewrite Forall_forall in Hl1. by apply Hl1 in Hj1.
    + rewrite Ei in Ej. by subst.
    + apply StronglySorted_app in Hsort as (_ & _ & Hsort). apply StronglySorted_inv in Hsort as [_ Hall].
      rewrite Forall_forall in Hall. specialize (Hall j Hj1). by rewrite Ei, Ej in Hall.
  - left. split; [done |]. intros y Hy Hp. apply list_elem_of_lookup in Hy as [i Hi].
    destruct (Hcov i y Hi Hp) as [H1 H2]. apply list_find_None in Ef.
    rewrite Forall_forall in Ef. by apply (Ef i).
Qed.

Lemma wf_length t y : table_wf t -> y ∈ t_syms t -> (1 <= length (sym_bytes y))%nat.
Proof using Type.
  intros [Hs _ _] Hy. rewrite Forall_forall in Hs. destruct (sym_wf_bytes y (Hs y Hy)) as [[? _] _]. lia.
Qed.

(** A string under a well-formed table: the codes are within the bytes, and decode to it. *)
Lemma encode_loop_ok t s fuel :
  table_wf t -> Forall byte_ok s -> (length s <= fuel)%nat ->
  exists code, encode_loop fuel t s = Ok code /\ fsst_decode t code = s /\
    (length code <= 2 * length s)%nat /\ Forall byte_ok code.
Proof using H0.
  intros Hw. revert s. induction fuel as [|fuel IH]; intros s Hs Hlen.
  { destruct s; [| simpl in Hlen; lia]. exists []. split_and!; simpl; try done. }
  destruct s as [|b s]; [exists []; split_and!; simpl; done |]. apply Forall_cons in Hs as [Hb Hs].
  cbn [encode_loop]. pose proof (fsst_match_spec t b s Hw Hb) as Hm.
  destruct (fsst_match t (b :: s)) as [idx n].
  destruct Hm as [[-> _] | (i & y & -> & Hy & -> & Hsplit & _)].
  - destruct (IH s) as (code & -> & Hd & Hl & Hc); [done | simpl in Hlen; lia |].
    exists (fsstEscape :: b :: code). cbn. rewrite Hd. split_and!; [done | done | lia |].
    repeat (constructor; [done || (unfold byte_ok; words) |]). done.
  - destruct (wf_symbol t i y Hw Hy) as (Ei & _ & Hi).
    pose proof (wf_length t y Hw (list_elem_of_lookup_2 _ _ _ Hy)) as Hpos.
    set (rest := drop (length (sym_bytes y)) (b :: s)) in *.
    assert (Hrest : (length rest < length (b :: s))%nat) by (unfold rest; rewrite length_drop; simpl; lia).
    destruct (IH rest) as (code & -> & Hd & Hl & Hc);
      [by apply Forall_drop, Forall_cons | simpl in *; lia |].
    rewrite (proj2 (Z.ltb_ge _ _)) by lia. unfold fsstMaxSymbols in Hi.
    assert (Eu : u8 (Z.of_nat i) = Z.of_nat i) by (unfold u8; rewrite Z.mod_small by lia; lia).
    exists (u8 (Z.of_nat i) :: code). cbn [mbind res_bind]. rewrite Eu. cbn [fsst_decode].
    rewrite (proj2 (Z.eqb_neq _ _)) by (unfold fsstEscape; lia). rewrite Nat2Z.id.
    rewrite (proj2 (Nat.ltb_lt _ _)) by (by eapply lookup_lt_Some). rewrite Ei, Hd.
    split_and!; [done | done | simpl in *; lia | constructor; [unfold byte_ok, fits; lia | done]].
Qed.

Lemma encode_ok t s :
  table_wf t -> Forall byte_ok s ->
  exists code, fsst_encode t s = Ok code /\ fsst_decode t code = s /\
    (length code <= 2 * length s)%nat /\ Forall byte_ok code.
Proof using H0. intros. by apply encode_loop_ok. Qed.

Lemma tokenize_loop_ok t s fuel :
  table_wf t -> Forall byte_ok s -> (length s <= fuel)%nat ->
  exists toks, tokenize_loop fuel t s = Ok toks /\ mjoin toks = s /\ Forall word_ok toks.
Proof using H0.
  intros Hw. revert s. induction fuel as [|fuel IH]; intros s Hs Hlen.
  { destruct s; [| simpl in Hlen; lia]. by exists []. }
  destruct s as [|b s]; [by exists [] |]. apply Forall_cons in Hs as [Hb Hs].
  cbn [tokenize_loop]. pose proof (fsst_match_spec t b s Hw Hb) as Hm.
  destruct (fsst_match t (b :: s)) as [idx n].
  destruct Hm as [[-> _] | (i & y & -> & Hy & -> & Hsplit & _)].
  - destruct (IH s) as (toks & -> & Hj & Hw'); [done | simpl in Hlen; lia |].
    exists ([b] :: toks). split_and!; [done | by rewrite <- Hj |].
    constructor; [split; [simpl; unfold fsstMaxLen; lia | by apply Forall_singleton] | done].
  - destruct (wf_symbol t i y Hw Hy) as (_ & Hwf & _). destruct (sym_wf_bytes y Hwf) as (Hword & _).
    set (rest := drop (length (sym_bytes y)) (b :: s)) in *.
    assert (Hrest : (length rest < length (b :: s))%nat)
      by (destruct Hword as [? _]; unfold rest; rewrite length_drop; simpl; lia).
    destruct (IH rest) as (toks & -> & Hj & Hw');
      [by apply Forall_drop, Forall_cons | simpl in *; lia |].
    rewrite (proj2 (Z.ltb_ge _ _)) by lia. exists (sym_bytes y :: toks). cbn [mbind res_bind].
    rewrite <- Hsplit at 1. rewrite take_app_length.
    split_and!; [done | | by constructor]. change (sym_bytes y ++ mjoin toks = b :: s). by rewrite Hj.
Qed.

(** *** Training *)

Definition gain_ok (gain : gmap (list Z) Z) : Prop := map_Forall (fun tok _ => word_ok tok) gain.

Lemma count_tokens_ok toks gain prev :
  Forall word_ok toks -> gain_ok gain -> (prev = [] \/ word_ok prev) ->
  gain_ok (foldl count_token (gain, prev) toks).1.
Proof using Type.
  intros Ht. revert gain prev. induction Ht as [|tok toks Htok _ IH]; intros gain prev Hg Hp; [done |].
  cbn [foldl count_token]. apply IH; [| by right].
  assert (Hadd : forall g w, word_ok w -> gain_ok g -> gain_ok (gain_add g w))
    by (intros; by apply map_Forall_insert_2).
  destruct (_ && _) eqn:E; [| by apply Hadd]. bool_prop.
  apply Hadd; [| by apply Hadd]. destruct Hp as [-> | [_ Hp]]; [simpl in *; lia |].
  destruct Htok as [_ Htok]. split; [rewrite length_app; lia | by apply Forall_app].
Qed.

Lemma count_samples_ok t samples gain :
  table_wf t -> Forall (Forall byte_ok) samples -> gain_ok gain ->
  exists gain', count_samples t gain samples = Ok gain' /\ gain_ok gain'.
Proof using H0.
  intros Hw Hs. revert gain. induction Hs as [|s samples Hb _ IH]; intros gain Hg; [by exists gain |].
  cbn [count_samples]. destruct (tokenize_loop_ok t s (length s) Hw Hb) as (toks & E & _ & Ht); [done |].
  unfold tokenize. rewrite E. cbn. apply IH. by apply count_tokens_ok; [| | left].
Qed.

Lemma buildIndex_wf syms :
  Forall sym_wf syms -> (length syms <= fsstMaxSymbols)%nat -> table_wf (buildIndex syms).
Proof using Type. done. Qed.

Lemma topSymbols_wf gain : gain_ok gain -> table_wf (buildIndex (topSymbols gain)).
Proof using H0.
  intros Hg. apply buildIndex_wf; unfold topSymbols.
  - apply Forall_fmap, Forall_take, Forall_forall. intros [tok g]. rewrite sort_slice_perm.
    intros Hin%elem_of_map_to_list. exists tok. split; [done |]. by apply (Hg tok g).
  - rewrite length_fmap, length_take. lia.
Qed.

Lemma train_rounds_ok rounds t samples :
  table_wf t -> Forall (Forall byte_ok) samples ->
  exists t', train_rounds rounds t samples = Ok t' /\ table_wf t'.
Proof using H0.
  intros Hw Hs. revert t Hw. induction rounds as [|rounds IH]; intros t Hw; [by exists t |].
  cbn [train_rounds]. destruct (count_samples_ok t samples ∅ Hw Hs) as (gain & -> & Hg);
    [apply map_Forall_empty |].
  cbn. by apply IH, topSymbols_wf.
Qed.

Lemma trainFSST_ok samples :
  Forall (Forall byte_ok) samples -> exists t, trainFSST samples = Ok t /\ table_wf t.
Proof using H0.
  intros Hs. apply train_rounds_ok; [| done]. apply buildIndex_wf; [constructor |]. simpl. lia.
Qed.

(** *** The table's bytes *)

Lemma table_loop_symbols syms rest :
  Forall sym_wf syms ->
  table_loop (length syms) (mjoin (sym_entry <$> syms) ++ rest) =
  (syms, length (mjoin (sym_entry <$> syms))).
Proof using Type.
  induction 1 as [|y syms Hy _ IH]; [by destruct rest |].
  destruct (sym_wf_bytes y Hy) as ([Hl _] & Hn & Ey & _).
  change (mjoin (sym_entry <$> y :: syms)) with (sym_entry y ++ mjoin (sym_entry <$> syms)).
  unfold sym_entry at 1 3. cbn [length table_loop app]. rewrite Nat2Z.id, Hn. rewrite (proj2 (Nat.ltb_ge _ _)) by lia.
  rewrite (proj2 (Nat.ltb_ge _ _)) by (rewrite <- app_assoc, length_app; lia). cbn [orb].
  rewrite <- app_assoc, drop_app_length, take_app_length.
  rewrite IH, <- Ey. f_equal. rewrite length_app. lia.
Qed.

Lemma decodeTable_encodeTable t :
  table_wf t -> decodeTable (encodeTable t) = Ok (t, length (encodeTable t)).
Proof using Type.
  intros [Hs Hc Hi]. unfold decodeTable, encodeTable.
  assert (Hcount : (length (t_syms t) <= 255)%nat) by done.
  rewrite uvarint_put by (unfold fits; lia).
  unfold make_ok. bool_lia. cbn [andb ensure mbind res_bind].
  assert (Hlen : (length (t_syms t) <= length (mjoin (sym_entry <$> t_syms t)))%nat).
  { clear. induction (t_syms t) as [|y l IH]; [simpl; lia |].
    change (mjoin (sym_entry <$> y :: l)) with (sym_entry y ++ mjoin (sym_entry <$> l)).
    rewrite length_app. simpl length. lia. }
  rewrite length_app, drop_app_length, Z.min_l by lia. rewrite Nat2Z.id.
  rewrite <- (app_nil_r (mjoin _)), table_loop_symbols by done. rewrite app_nil_r.
  by rewrite <- Hi.
Qed.

(** *** The arena *)

Lemma lay_spans_ok t strs spans :
  table_wf t -> Forall (Forall byte_ok) strs -> spans <> [] ->
  exists spans' offs, lay_spans t spans strs = Ok (spans', offs) /\
    spans `prefix_of` spans' /\ length offs = length strs /\
    Sorted Z.lt offs /\ (forall o, hd_error offs = Some o -> o = Z.of_nat (length spans)) /\
    (length spans' <= length spans + length strs * 10 + 2 * length (mjoin strs))%nat /\
    forall i s o, strs !! i = Some s -> offs !! i = Some o ->
      Z.of_nat (length spans) <= o < Z.of_nat (length spans') /\
      (Z.of_nat (length spans') < 2 ^ 64 ->
       exists code, arenaRead spans' o = Ok (Some code) /\ fsst_decode t code = s).
Proof using H0.
  intros Hw Hs. revert spans. induction Hs as [|s strs Hb _ IH]; intros spans Hne.
  { exists spans, []. split_and!; try done; try (simpl; lia). }
  cbn [lay_spans]. destruct (encode_ok t s Hw Hb) as (code & -> & Hd & Hl & _). cbn [mbind res_bind].
  change (put_uvarint (Z.of_nat (length code)) ++ code) with (arena_entry code).
  destruct (IH (spans ++ arena_entry code)) as (spans' & offs & -> & Hpre & Hlen & Hsort & Hhd & Hbound & Hread);
    [by destruct spans |]. cbn [mbind res_bind].
  pose proof (arena_entry_length code) as He. pose proof (put_uvarint_length (Z.of_nat (length code))) as Hu.
  assert (Hent : length (arena_entry code) = (length (put_uvarint (Z.of_nat (length code))) + length code)%nat)
    by (unfold arena_entry; by rewrite length_app).
  exists spans', (Z.of_nat (length spans) :: offs).
  destruct Hpre as [ext ->]. rewrite !length_app in Hbound. split_and!.
  - done.
  - exists (arena_entry code ++ ext). by rewrite app_assoc.
  - simpl. by rewrite Hlen.
  - constructor; [done |]. destruct offs as [|o offs]; constructor.
    rewrite (Hhd o), length_app by done. lia.
  - by intros o [= <-].
  - simpl. rewrite !length_app. lia.
  - intros [|i] s' o Hs' Ho.
    + injection Hs' as <-. injection Ho as <-. rewrite !length_app. split; [lia |].
      intros Hsmall. exists code. rewrite <- app_assoc. split; [| done].
      apply arenaRead_entry; [done |]. rewrite !length_app. lia.
    + destruct (Hread i s' o Hs' Ho) as [Ho' Hr]. rewrite !length_app in *. split; [lia |]. done.
Qed.
End Facts.

Lemma encodeTable_length `{GoSort} t : table_wf t -> (length (encodeTable t) <= 10 + 9 * fsstMaxSymbols)%nat.
Proof.
  intros [Hs Hc _]. unfold encodeTable. rewrite length_app.
  assert (length (mjoin (sym_entry <$> t_syms t)) <= 9 * length (t_syms t))%nat.
  2: { pose proof (put_uvarint_length (Z.of_nat (length (t_syms t)))). lia. }
  clear Hc. induction Hs as [|y syms Hy _ IH]; [done |].
  change (mjoin (sym_entry <$> y :: syms)) with (sym_entry y ++ mjoin (sym_entry <$> syms)).
  destruct (sym_wf_bytes y Hy) as ([[_ Hl] _] & _). unfold fsstMaxLen in Hl. change (length (y :: syms)) with (S (length syms)).
  rewrite length_app. unfold sym_entry at 1. cbn [length]. lia.
Qed.

(** What building an arena gives, in one piece. *)
Record arena_built `{GoSort} (strs : list (list Z)) (a : FSSTArena) (offs : list Z) : Prop := {
  ab_table : table_wf (fa_t a) /\ fa_table a = encodeTable (fa_t a);
  ab_size : (length (fa_spans a) <= 1 + length strs * 10 + 2 * length (mjoin strs))%nat;
  ab_offs : length offs = length strs /\ Sorted Z.lt offs /\
    Forall (fun o => 1 <= o < Z.of_nat (length (fa_spans a))) offs;
  ab_read : forall i s o, strs !! i = Some s -> offs !! i = Some o -> fsst_Read a o = Ok (Some s)
}.

Lemma BuildFSSTArena_ok `{GoSortLaws} strs :
  Forall (Forall byte_ok) strs -> Z.of_nat (1 + length strs * 10 + 2 * length (mjoin strs)) < 2 ^ 64 ->
  exists a offs, BuildFSSTArena strs = Ok (a, offs) /\ arena_built strs a offs.
Proof.
  intros Hb Hlen. destruct (trainFSST_ok strs Hb) as (t & Et & Hw).
  destruct (lay_spans_ok t strs [0] Hw Hb) as (spans & offs & El & _ & Hn & Hsort & _ & Hsize & Hread); [done |].
  unfold BuildFSSTArena. rewrite Et. cbn [mbind res_bind]. rewrite El. cbn [mbind res_bind].
  eexists _, offs. split; [done |]. simpl length in *.
  split; cbn [fa_table fa_spans fa_t]; [done | done | split_and!; try done |].
  - apply Forall_lookup. intros i o Ho. destruct (lookup_lt_is_Some_2 strs i) as [s Hs].
    { rewrite <- Hn. by eapply lookup_lt_Some. }
    by destruct (Hread i s o Hs Ho) as [? _].
  - intros i s o Hs Ho. destruct (Hread i s o Hs Ho) as [_ Hr]. unfold fsst_Read. cbn [fa_spans fa_t].
    destruct Hr as (code & -> & Hd); [lia |]. cbn. by rewrite Hd.
Qed.

Lemma LoadFSSTArena_built `{GoSort} strs a offs :
  arena_built strs a offs -> LoadFSSTArena (fa_table a) (fa_spans a) = Ok a.
Proof.
  intros [[Hw Et] _ _ _]. unfold LoadFSSTArena. rewrite Et, decodeTable_encodeTable by done.
  cbn [mbind res_bind]. rewrite <- Et. by destruct a.
Qed.

(** ** Properties *)

(** C17: whatever the strings, training ends, the arena is laid out, and every string reads
    back at the offset returned for it, from the arena and from one loaded from its two byte
    regions; offsets rise and are never the sentinel 0, which reads back nil; and under the
    trained table the code taken at any position is that of the longest symbol there. *)
Theorem fsst_arena_roundtrip `{GoSort} (HS : GoSortLaws) (strs : list (list Z))
    (Hb : Forall (Forall byte_ok) strs)
    (Hlen : Z.of_nat (1 + length strs * 10 + 2 * length (mjoin strs)) < 2 ^ 64) :
  exists a offs,
    BuildFSSTArena strs = Ok (a, offs) /\ LoadFSSTArena (fa_table a) (fa_spans a) = Ok a /\
    length offs = length strs /\ Sorted Z.lt offs /\ Forall (Z.lt 0) offs /\
    (forall i s o, strs !! i = Some s -> offs !! i = Some o -> fsst_Read a o = Ok (Some s)) /\
    fsst_Read a 0 = Ok None /\
    (forall b s, byte_ok b ->
       let '(idx, n) := fsst_match (fa_t a) (b :: s) in
       forall y, y ∈ t_syms (fa_t a) -> sym_bytes y `prefix_of` b :: s ->
         0 <= idx /\ (length (sym_bytes y) <= n)%nat).
Proof.
  destruct (BuildFSSTArena_ok strs Hb Hlen) as (a & offs & E & Ha). exists a, offs.
  destruct (ab_offs _ _ _ Ha) as (Hn & Hsort & Hoff).
  split_and!; try done; [by eapply LoadFSSTArena_built | | apply Ha |].
  - eapply Forall_impl; [exact Hoff |]. simpl. lia.
  - intros b s Hbyte. destruct (ab_table _ _ _ Ha) as [Hw _].
    pose proof (fsst_match_spec (fa_t a) b s Hw Hbyte) as Hm.
    destruct (fsst_match (fa_t a) (b :: s)) as [idx n]. intros y Hy Hp.
    destruct Hm as [[_ Hno] | (i & z & -> & _ & _ & _ & Hmax)]; [by destruct (Hno y Hy) |].
    split; [lia | by apply Hmax].
Qed.

Definition fsst_urls : list (list Z) :=
  [[104; 116; 116; 112; 58; 47; 47; 97; 47]; [104; 116; 116; 112; 58; 47; 47; 98; 255]; []].

Lemma fsst_arena_roundtrip_witness :
  exists a offs, @BuildFSSTArena stable_sort fsst_urls = Ok (a, offs) /\
    fsst_Read a (offs !!! 1%nat) = Ok (Some [104; 116; 116; 112; 58; 47; 47; 98; 255]).
Proof.
  destruct (@fsst_arena_roundtrip stable_sort stable_sort_laws fsst_urls) as (a & offs & E & _ & Hn & _ & _ & Hr & _).
  - repeat constructor; unfold byte_ok, fits; lia.
  - vm_compute. reflexivity.
  - exists a, offs. split; [exact E |]. apply (Hr 1%nat); [reflexivity |].
    apply list_lookup_lookup_total_lt. rewrite Hn. vm_compute. lia.
Defined.
