(* ===== verification/Batch.v ===== *)
(** * The discovery batch on the wire (distribute/batch.go)

    A batch is laid out column by column, its keys delta-coded over the rows in key order
    and its URLs in one FSST arena. Decoding an encoded batch gives its rows in that order;
    a body that was not encoded can make the decoder panic, though it should report not-ok. *)

From S2P Require Import Prelude Words Model Encoding Arena GoSort Fsst.
Open Scope Z_scope.

(** ** Encoding *)

Definition byKey (a b : Discovery) : bool := Less (d_URLKey a) (d_URLKey b).

(** A column of uvarints, each the step [delta] from the value before. *)
Fixpoint put_deltas (delta : Z -> Z -> Z) (prev : Z) (col : list Z) : list Z :=
  match col with
  | [] => []
  | cur :: col => put_uvarint (delta prev cur) ++ put_deltas delta cur col
  end.

Definition plain_delta (prev cur : Z) : Z := u64 (cur - prev).
Definition zigzag_delta (prev cur : Z) : Z := zigzag (i64 (cur - prev)).
Definition no_delta (_ cur : Z) : Z := cur.

Section Wire.
Context `{GoSort}.

Definition EncodeBatch (batch : list Discovery) : res (list Z) :=
  match batch with
  | [] => Ok []
  | _ =>
      let b := sort_slice byKey batch in
      let n := length b in
      '(arena, offs) ← BuildFSSTArena (d_CanonicalURL <$> b);
      let table := fa_table arena in
      let spans := fa_spans arena in
      Ok (put_uvarint (Z.of_nat n) ++
          put_deltas plain_delta 0 ((fun d => HostKey (d_URLKey d)) <$> b) ++
          put_deltas zigzag_delta 0 ((fun d => i64 (PathKey (d_URLKey d))) <$> b) ++
          put_deltas no_delta 0 (d_Depth <$> b) ++
          ((fun d => u8 (d_DiscoverySource d)) <$> b) ++
          put_deltas zigzag_delta 0 ((fun d => i64 (d_SrcHostKey d)) <$> b) ++
          mjoin ((fun d => le_bytes 4 (d_LinkWeight d)) <$> b) ++
          ((fun d => u8 (d_AnchorHint d)) <$> b) ++
          put_deltas zigzag_delta 0 (d_ObservedAt <$> b) ++
          put_deltas plain_delta 0 offs ++
          put_uvarint (Z.of_nat (length table)) ++ table ++
          put_uvarint (Z.of_nat (length spans)) ++ spans)
  end.

(** ** Decoding

    The closures [readUv] and [readBytes] share the position [p] in the body; not-ok is
    [None]. *)
Definition brd (A : Type) : Type := list Z -> nat -> res (option (A * nat)).

#[global] Instance brd_ret : MRet brd := fun A a body p => Ok (Some (a, p)).
#[global] Instance brd_bind : MBind brd := fun A B f m body p =>
  match m body p with
  | Ok (Some (a, p)) => f a body p
  | Ok None => Ok None
  | Err e => Err e
  end.

Definition not_ok {A} : brd A := fun _ _ => Ok None.
Definition lift {A} (m : res A) : brd A := fun _ p =>
  match m with Ok a => Ok (Some (a, p)) | Err e => Err e end.
Definition len_body : brd Z := fun body p => Ok (Some (Z.of_nat (length body), p)).

Definition readUv : brd Z := fun body p =>
  match uvarint (drop p body) with
  | None => Ok None
  | Some (v, k) => Ok (Some (v, (p + k)%nat))
  end.

(** [p+n] is an int: for a length near 2^63 it wraps, passes the test and the slice
    expression panics. *)
Definition readBytes (n : Z) : brd (list Z) := fun body p =>
  let end_ := i64 (Z.of_nat p + n) in
  if (n <? 0) || (Z.of_nat (length body) <? end_) then Ok None
  else if end_ <? Z.of_nat p then Err GoPanic
  else Ok (Some (slice body p (Z.to_nat end_), Z.to_nat end_)).

Fixpoint read_col (next : Z -> Z -> Z) (n : nat) (prev : Z) : brd (list Z) :=
  match n with
  | O => mret []
  | S n =>
      d ← readUv;
      let cur := next prev d in
      l ← read_col next n cur;
      mret (cur :: l)
  end.

Definition plain_next (prev d : Z) : Z := u64 (prev + d).
Definition zigzag_next (prev z : Z) : Z := i64 (prev + unzigzag z).
Definition no_next (_ v : Z) : Z := v.

(** The row [i] of the columns. *)
Definition row (hosts paths depths srcs srcHosts weights anchors observed : list Z)
    (url : list Z) (i : nat) : Discovery :=
  mkDisc (mkKey (hosts !!! i) (u64 (paths !!! i))) url (u16 (depths !!! i)) (srcs !!! i)
    (u64 (srcHosts !!! i)) (le_val (slice weights (4 * i) (4 * i + 4))) (anchors !!! i)
    (u32 (observed !!! i)).

Fixpoint read_urls (arena : FSSTArena) (refs : list Z) : res (list (list Z)) :=
  match refs with
  | [] => Ok []
  | r :: refs =>
      url ← fsst_Read arena r;
      urls ← read_urls arena refs;
      Ok (default [] url :: urls)
  end.

Definition decode_body : brd (list Discovery) :=
  n64 ← readUv;
  len ← len_body;
  let n := i64 n64 in
  if (n <? 0) || (len <? n) then not_ok
  else
    let cnt := Z.to_nat n in
    hosts ← read_col plain_next cnt 0;
    paths ← read_col zigzag_next cnt 0;
    depths ← read_col no_next cnt 0;
    srcs ← readBytes n;
    srcHosts ← read_col zigzag_next cnt 0;
    weights ← readBytes (i64 (4 * n));
    anchors ← readBytes n;
    observed ← read_col zigzag_next cnt 0;
    refs ← read_col plain_next cnt 0;
    tlen ← readUv;
    table ← readBytes (i64 tlen);
    slen ← readUv;
    spans ← readBytes (i64 slen);
    arena ← lift (LoadFSSTArena table spans);
    urls ← lift (read_urls arena refs);
    mret ((fun i => row hosts paths depths srcs srcHosts weights anchors observed (urls !!! i) i) <$> seq 0 cnt).

Definition DecodeBatch (body : list Z) : res (option (list Discovery)) :=
  match body with
  | [] => Ok (Some [])
  | _ => r ← decode_body body 0%nat; Ok (option_map fst r)
  end.
End Wire.

(** ** Reading back what was written *)

(** [breads m bs a]: at any position of a body that [bs] starts at, [m] reads exactly [bs]
    and gives [a]. *)
Definition breads {A} (m : brd A) (bs : list Z) (a : A) : Prop :=
  forall pre rest, Z.of_nat (length (pre ++ bs ++ rest)) < 2 ^ 63 ->
    m (pre ++ bs ++ rest) (length pre) = Ok (Some (a, (length pre + length bs)%nat)).

Lemma breads_ret {A} (a b : A) : a = b -> breads (mret a) [] b.
Proof. intros -> pre rest _. cbn. by rewrite Nat.add_0_r. Qed.

Lemma breads_bind {A B} (m : brd A) (f : A -> brd B) bs1 bs2 a b :
  breads m bs1 a -> breads (f a) bs2 b -> breads (m ≫= f) (bs1 ++ bs2) b.
Proof.
  intros Hm Hf pre rest Hlen. unfold mbind, brd_bind.
  rewrite <- app_assoc in Hlen |- *. rewrite Hm by done.
  rewrite app_assoc in Hlen |- *. rewrite <- length_app, Hf by done.
  do 3 f_equal. rewrite !length_app. lia.
Qed.

Lemma breads_last {A B} (m : brd A) (f : A -> brd B) bs a b :
  breads m bs a -> breads (f a) [] b -> breads (m ≫= f) bs b.
Proof. intros Hm Hf. rewrite <- (app_nil_r bs). by eapply breads_bind. Qed.

Lemma breads_len {B} (f : Z -> brd B) bs b :
  (forall len, Z.of_nat (length bs) <= len < 2 ^ 63 -> breads (f len) bs b) -> breads (len_body ≫= f) bs b.
Proof.
  intros Hf pre rest Hlen. unfold mbind, brd_bind, len_body. rewrite (Hf _); [done | | done].
  rewrite !length_app in *. lia.
Qed.

Lemma breads_lift {A} (m : res A) a : m = Ok a -> breads (lift m) [] a.
Proof. intros -> pre rest _. cbn. by rewrite Nat.add_0_r. Qed.

Lemma breads_uv v : fits 64 v -> breads readUv (put_uvarint v) v.
Proof. intros Hv pre rest _. unfold readUv. by rewrite drop_app_length, uvarint_put. Qed.

Lemma breads_bytes n l : n = Z.of_nat (length l) -> breads (readBytes n) l l.
Proof.
  intros -> pre rest Hlen. unfold readBytes. rewrite !length_app in *.
  rewrite i64_small by lia. bool_lia. cbn [orb].
  rewrite <- Nat2Z.inj_add, Nat2Z.id. by rewrite slice_app_exact.
Qed.

Lemma breads_col (P : Z -> Prop) delta next prev col :
  (forall p c, P p -> P c -> fits 64 (delta p c) /\ next p (delta p c) = c) ->
  P prev -> Forall P col ->
  breads (read_col next (length col) prev) (put_deltas delta prev col) col.
Proof.
  intros Hstep Hp Hcol. revert prev Hp. induction Hcol as [|c col Hc _ IH]; intros p Hp;
    cbn [length read_col put_deltas]; [by apply breads_ret |].
  destruct (Hstep p c Hp Hc) as [Hf E].
  eapply breads_bind; [by apply breads_uv |]. cbv zeta. rewrite E.
  eapply breads_last; [by apply IH | by apply breads_ret].
Qed.

(** A column read as a field of the rows. *)
Lemma breads_field {A} (P : Z -> Prop) delta next (field : A -> Z) (b : list A) :
  (forall p c, P p -> P c -> fits 64 (delta p c) /\ next p (delta p c) = c) ->
  P 0 -> Forall (fun a => P (field a)) b ->
  breads (read_col next (length b) 0) (put_deltas delta 0 (field <$> b)) (field <$> b).
Proof.
  intros Hstep H0 Hb. rewrite <- (length_fmap field b).
  apply (breads_col P); [done | done | by apply Forall_fmap].
Qed.

Definition int64 (x : Z) : Prop := - 2 ^ 63 <= x < 2 ^ 63.

Lemma plain_step p c : fits 64 p -> fits 64 c -> fits 64 (plain_delta p c) /\ plain_next p (plain_delta p c) = c.
Proof. intros _ Hc. split; [apply u64_fits | by apply udelta_back]. Qed.

Lemma zigzag_step p c : int64 p -> int64 c -> fits 64 (zigzag_delta p c) /\ zigzag_next p (zigzag_delta p c) = c.
Proof.
  intros _ Hc. unfold zigzag_delta, zigzag_next. split; [apply zigzag_fits, i64_range |].
  rewrite unzigzag_zigzag by apply i64_range. destruct (i64_shift (c - p)) as [k ->].
  replace (p + (c - p + k * 2 ^ 64)) with (c + k * 2 ^ 64) by ring.
  unfold i64, int64 in *. replace (c + k * 2 ^ 64 + 2 ^ 63) with (c + 2 ^ 63 + k * 2 ^ 64) by ring.
  rewrite Z.mod_add, Z.mod_small by lia. lia.
Qed.

Lemma no_step p c : fits 64 p -> fits 64 c -> fits 64 (no_delta p c) /\ no_next p (no_delta p c) = c.
Proof. done. Qed.

Lemma fits_int64 n x : 0 <= n < 64 -> fits n x -> int64 x.
Proof.
  intros Hn [H0 H1]. unfold int64. assert (2 ^ n <= 2 ^ 63) by (apply Z.pow_le_mono_r; lia). lia.
Qed.

Lemma byKey_order P : weak_order P byKey.
Proof.
  unfold byKey. split; intros a b.
  - rewrite Less_spec, <- not_true_iff_false, Less_spec. lia.
  - intros c. rewrite <- !not_true_iff_false, !Less_spec. lia.
Qed.

(** The rows assembled from the columns of a batch are the batch. *)
Lemma rows_of_columns (b : list Discovery) urls :
  Forall disc_wf b -> urls = d_CanonicalURL <$> b ->
  (fun i => row ((fun d => HostKey (d_URLKey d)) <$> b) ((fun d => i64 (PathKey (d_URLKey d))) <$> b)
     (d_Depth <$> b) ((fun d => u8 (d_DiscoverySource d)) <$> b) ((fun d => i64 (d_SrcHostKey d)) <$> b)
     (mjoin ((fun d => le_bytes 4 (d_LinkWeight d)) <$> b)) ((fun d => u8 (d_AnchorHint d)) <$> b)
     (d_ObservedAt <$> b) (urls !!! i) i) <$> seq 0 (length b) = b.
Proof.
  intros Hwf ->. apply list_eq. intros i. rewrite list_lookup_fmap.
  destruct (decide (i < length b)%nat) as [Hi | Hi].
  2: { rewrite lookup_seq_ge, lookup_ge_None_2 by lia. done. }
  rewrite lookup_seq_lt by done. cbn [fmap option_fmap option_map Nat.add].
  destruct (lookup_lt_is_Some_2 b i Hi) as [d Hd]. rewrite Hd. f_equal.
  assert (Htot : forall B (Inh : Inhabited B) (f : Discovery -> B), (f <$> b) !!! i = f d).
  { intros B Inh f. apply list_lookup_total_correct. by rewrite list_lookup_fmap, Hd. }
  assert (Hw : slice (mjoin ((fun d => le_bytes 4 (d_LinkWeight d)) <$> b)) (4 * i) (4 * i + 4) =
    le_bytes 4 (d_LinkWeight d)).
  { change ((fun d => le_bytes 4 (d_LinkWeight d)) <$> b) with ((le_bytes 4 ∘ d_LinkWeight) <$> b).
    rewrite list_fmap_compose, (Nat.mul_comm 4 i).
    rewrite slice_mjoin_le by (by rewrite length_fmap). f_equal.
    by rewrite nth_lookup_default, list_lookup_fmap, Hd. }
  unfold row. rewrite !Htot, Hw. rewrite Forall_lookup in Hwf.
  destruct (Hwf i d Hd) as ([Hk1 Hk2] & _ & Hde & Hso & Hsr & Hlw & Han & Hob).
  destruct d as [[hk pk] url de so sr lw an ob].
  cbn [d_URLKey HostKey PathKey d_CanonicalURL d_Depth d_DiscoverySource d_SrcHostKey d_LinkWeight
    d_AnchorHint d_ObservedAt] in *.
  rewrite le_val_bytes_fits by done. rewrite !u64_i64, !u64_small, u16_small, u32_small by done.
  unfold u8. by rewrite !Z.mod_small.
Qed.

Section Facts.
Context `{GoSortLaws}.

Lemma read_urls_ok arena strs offs :
  length offs = length strs ->
  (forall i s o, strs !! i = Some s -> offs !! i = Some o -> fsst_Read arena o = Ok (Some s)) ->
  read_urls arena offs = Ok strs.
Proof using Type.
  revert offs. induction strs as [|s strs IH]; intros [|o offs] Hlen Hr; try (simpl in Hlen; lia); [done |].
  cbn [read_urls]. rewrite (Hr 0%nat s o eq_refl eq_refl). cbn [mbind res_bind].
  rewrite IH; [done | simpl in Hlen; lia |]. intros i. apply (Hr (S i)).
Qed.
End Facts.

(** ** Properties *)

Lemma put_deltas_length delta prev col : (length (put_deltas delta prev col) <= 10 * length col)%nat.
Proof.
  revert prev. induction col as [|c col IH]; intros prev; [simpl; lia |]. cbn [put_deltas].
  rewrite length_app. pose proof (put_uvarint_length (delta prev c)). specialize (IH c). simpl length in *. lia.
Qed.

(** The bytes of the URLs of a batch. *)
Definition url_bytes (batch : list Discovery) : nat := length (mjoin (d_CanonicalURL <$> batch)).

Lemma url_bytes_perm b b' : b ≡ₚ b' -> url_bytes b = url_bytes b'.
Proof. intros E. unfold url_bytes. rewrite !length_join. by rewrite E. Qed.

Definition batch_bound (batch : list Discovery) : Z :=
  Z.of_nat (100 * length batch + 2 * url_bytes batch + 4000).

Section Properties.
Context `{GoSortLaws}.

(** The body of a batch already in key order. *)
Lemma weights_length (b : list Discovery) :
  length (mjoin ((fun d => le_bytes 4 (d_LinkWeight d)) <$> b)) = (length b * 4)%nat.
Proof using Type.
  change ((fun d => le_bytes 4 (d_LinkWeight d)) <$> b) with ((le_bytes 4 ∘ d_LinkWeight) <$> b).
  by rewrite list_fmap_compose, mjoin_le_bytes_length, length_fmap.
Qed.

Lemma decode_encoded (b : list Discovery) arena offs :
  b <> [] -> Forall disc_wf b -> batch_bound b < 2 ^ 63 ->
  arena_built (d_CanonicalURL <$> b) arena offs ->
  breads decode_body
    (put_uvarint (Z.of_nat (length b)) ++
     put_deltas plain_delta 0 ((fun d => HostKey (d_URLKey d)) <$> b) ++
     put_deltas zigzag_delta 0 ((fun d => i64 (PathKey (d_URLKey d))) <$> b) ++
     put_deltas no_delta 0 (d_Depth <$> b) ++
     ((fun d => u8 (d_DiscoverySource d)) <$> b) ++
     put_deltas zigzag_delta 0 ((fun d => i64 (d_SrcHostKey d)) <$> b) ++
     mjoin ((fun d => le_bytes 4 (d_LinkWeight d)) <$> b) ++
     ((fun d => u8 (d_AnchorHint d)) <$> b) ++
     put_deltas zigzag_delta 0 (d_ObservedAt <$> b) ++
     put_deltas plain_delta 0 offs ++
     put_uvarint (Z.of_nat (length (fa_table arena))) ++ fa_table arena ++
     put_uvarint (Z.of_nat (length (fa_spans arena))) ++ fa_spans arena) b.
Proof using H0.
  intros Hne Hwf Hbound Ha. unfold batch_bound in Hbound.
  pose proof Ha as [Htab Hsize (Hlo & _ & Hfo) Hread].
  rewrite length_fmap in Hlo, Hsize. fold (url_bytes b) in Hsize.
  assert (Htl : (length (fa_table arena) <= 10 + 9 * 255)%nat)
    by (destruct Htab as [? ->]; by apply encodeTable_length).
  assert (H0i : int64 0) by (unfold int64; lia). assert (H00 : fits 64 0) by (unfold fits; lia).
  pose proof (weights_length b) as Hwl.
  unfold decode_body. eapply breads_bind; [apply breads_uv; unfold fits; lia |].
  apply breads_len. intros len Hlen. cbv zeta. rewrite !length_app, length_fmap in Hlen.
  rewrite (i64_small (Z.of_nat (length b))), Nat2Z.id by lia. bool_lia. cbn [orb].
  eapply breads_bind; [apply (breads_field (fits 64)); [apply plain_step | done |] |].
  { eapply Forall_impl; [exact Hwf |]. by intros ? ([? ?] & _). }
  eapply breads_bind; [apply (breads_field int64); [apply zigzag_step | done |] |].
  { apply Forall_forall. intros ? _. apply i64_range. }
  eapply breads_bind; [apply (breads_field (fits 64)); [apply no_step | done |] |].
  { eapply Forall_impl; [exact Hwf |]. intros ? (_ & _ & ? & _). by eapply (fits_weaken 16). }
  eapply breads_bind; [apply breads_bytes; by rewrite length_fmap |].
  eapply breads_bind; [apply (breads_field int64); [apply zigzag_step | done |] |].
  { apply Forall_forall. intros ? _. apply i64_range. }
  eapply breads_bind; [apply breads_bytes; rewrite i64_small, Hwl by lia; lia |].
  eapply breads_bind; [apply breads_bytes; by rewrite length_fmap |].
  eapply breads_bind; [apply (breads_field int64); [apply zigzag_step | done |] |].
  { eapply Forall_impl; [exact Hwf |]. intros ? (_ & _ & _ & _ & _ & _ & _ & ?). by eapply (fits_int64 32). }
  eapply breads_bind; [rewrite <- Hlo; apply (breads_col (fits 64)); [apply plain_step | done |] |].
  { eapply Forall_impl; [exact Hfo |]. unfold fits. simpl. lia. }
  eapply breads_bind; [apply breads_uv; unfold fits; lia |].
  eapply breads_bind; [apply breads_bytes; rewrite i64_small; lia |].
  eapply breads_bind; [apply breads_uv; unfold fits; lia |].
  eapply breads_last; [apply breads_bytes; rewrite i64_small; lia |].
  eapply breads_last; [by apply breads_lift, (LoadFSSTArena_built (d_CanonicalURL <$> b) _ offs) |].
  eapply breads_last; [apply breads_lift, (read_urls_ok _ (d_CanonicalURL <$> b)); [by rewrite length_fmap | exact Hread] |].
  eapply breads_ret. by apply rows_of_columns.
Qed.

Lemma EncodeBatch_sorted batch :
  let b := sort_slice byKey batch in
  batch <> [] -> Forall disc_wf batch -> batch_bound batch < 2 ^ 63 ->
  exists body, EncodeBatch batch = Ok body /\ body <> [] /\ Z.of_nat (length body) < 2 ^ 63 /\
    breads decode_body body b.
Proof using H0.
  intros b Hne Hwf Hbound. assert (Hp : b ≡ₚ batch) by apply sort_slice_perm.
  assert (Hwfb : Forall disc_wf b) by (by rewrite Hp).
  assert (Hbb : batch_bound b < 2 ^ 63) by (unfold batch_bound in *; by rewrite (url_bytes_perm b batch), Hp).
  assert (Hbn : b <> []) by (intros E; rewrite E in Hp; by apply Permutation_nil in Hp).
  destruct (BuildFSSTArena_ok (d_CanonicalURL <$> b)) as (arena & offs & E & Ha).
  { apply Forall_fmap. eapply Forall_impl; [exact Hwfb |]. by intros ? (_ & ? & _). }
  { unfold batch_bound, url_bytes in Hbb. rewrite length_fmap. lia. }
  unfold EncodeBatch. destruct batch as [|d0 batch0]; [done |]. fold b.
  rewrite E. cbn [mbind res_bind]. eexists. split; [done |]. split_and!.
  - pose proof (put_uvarint_length (Z.of_nat (length b))). destruct (put_uvarint _); [simpl in *; lia | done].
  - destruct Ha as [[Hw ->] Hsize (Hlo & _) _]. pose proof (encodeTable_length (fa_t arena) Hw) as Ht.
    change fsstMaxSymbols with 255%nat in Ht. rewrite length_fmap in Hlo, Hsize. fold (url_bytes b) in Hsize.
    unfold batch_bound in Hbb. rewrite !length_app, weights_length, !length_fmap.
    repeat match goal with
    | |- context [length (put_uvarint ?v)] =>
        lazymatch goal with H : context [length (put_uvarint v)] |- _ => fail | _ => pose proof (put_uvarint_length v) end
    | |- context [length (put_deltas ?dl ?p ?c)] =>
        lazymatch goal with H : context [length (put_deltas dl p c)] |- _ => fail
        | _ => pose proof (put_deltas_length dl p c) end
    end.
    rewrite !length_fmap in *. lia.
  - by apply (decode_encoded b arena offs).
Qed.

Lemma EncodeBatch_decodes (batch : list Discovery) :
  batch <> [] -> Forall disc_wf batch -> batch_bound batch < 2 ^ 63 ->
  exists body, EncodeBatch batch = Ok body /\ DecodeBatch body = Ok (Some (sort_slice byKey batch)).
Proof using H0.
  intros Hne Hwf Hbound.
  destruct (EncodeBatch_sorted batch Hne Hwf Hbound) as (body & E & Hbody & Hlen & Hd).
  exists body. split; [done |]. unfold DecodeBatch. destruct body as [|x body]; [done |].
  specialize (Hd [] []). cbn [app length] in Hd. rewrite app_nil_r in Hd. by rewrite Hd.
Qed.

(** C16: a batch decodes to its rows in key order: encoding always succeeds, decoding its
    body, of which no byte is left over, gives the rows of the batch sorted by URL key with
    every field as it was, and an empty batch is the empty body. *)
Theorem batch_roundtrip (batch : list Discovery)
    (Hwf : Forall disc_wf batch) (Hbound : batch_bound batch < 2 ^ 63) :
  exists body rows, EncodeBatch batch = Ok body /\ DecodeBatch body = Ok (Some rows) /\
    rows ≡ₚ batch /\ StronglySorted (fun a b => key_le (d_URLKey a) (d_URLKey b)) rows.
Proof using H0.
  destruct (decide (batch = [])) as [-> | Hne].
  { exists [], []. split_and!; try done. constructor. }
  destruct (EncodeBatch_decodes batch Hne Hwf Hbound) as (body & E & D).
  exists body, (sort_slice byKey batch). split_and!; [done | done | apply sort_slice_perm |].
  apply sort_slice_sorted, byKey_order.
Qed.
End Properties.

Definition batch_example : list Discovery :=
  [mkDisc (mkKey 7 (2 ^ 64 - 1)) [104; 116] 3 1 (2 ^ 63) 17 2 400000;
   mkDisc (mkKey 5 9) [104; 116; 255] 65535 4 0 (2 ^ 32 - 1) 0 0].

Lemma batch_roundtrip_witness :
  exists body rows, @EncodeBatch stable_sort batch_example = Ok body /\
    @DecodeBatch stable_sort body = Ok (Some rows) /\ rows ≡ₚ batch_example.
Proof.
  destruct (@batch_roundtrip stable_sort stable_sort_laws batch_example) as (body & rows & E & D & P & _).
  - repeat constructor; unfold byte_ok, fits; simpl; lia.
  - vm_compute. reflexivity.
  - exists body, rows. split; [exact E |]. split; [exact D | exact P].
Defined.

(** A malformed body can panic the decoder instead of being reported not-ok: a length
    of 2^63 - 1 wraps the bound test of readBytes, and a symbol count as large makes the
    allocation of the table panic. A truncated body is reported. *)
Theorem malformed_batch_panics `{GoSort} :
  DecodeBatch ([0] ++ put_uvarint (2 ^ 63 - 1)) = Err GoPanic /\
  DecodeBatch ([0; 9] ++ put_uvarint (2 ^ 63 - 1) ++ [0]) = Err GoPanic /\
  DecodeBatch [3; 1] = Ok None /\ DecodeBatch [255] = Ok None.
Proof. repeat split; vm_compute; reflexivity. Qed.
