(* ===== verification/Jump.v ===== *)
(** * The partition map (distribute/map.go)

    Which partition owns a host: the override table first, then the jump consistent hash
    over the partition count, computed in float64 as the source does. The hash is total,
    in range, and when a bucket is added a key either stays or moves to the new bucket. *)

From Stdlib Require Import SpecFloat.
From S2P Require Import Prelude Words Floats.
Open Scope Z_scope.

Definition PartitionID : Type := Z.

Inductive HealthState := Alive | Degraded | Failed | Draining.
#[export] Instance HealthState_eq_dec : EqDecision HealthState.
Proof. solve_decision. Defined.

(** ** The jump hash *)

Definition jump_next (b key : Z) : Z :=
  f64_to_int64 (f64_mul (f64_of_int (i64 (b + 1)))
    (f64_div (f64_of_int (2 ^ 31)) (f64_of_int (u64 (Z.shiftr key 33 + 1))))).

Definition jump_key (key : Z) : Z := u64 (u64 (key * 2862933555777941757) + 1).

(** The loop. [j] grows at every turn, so [numBuckets] turns are enough; [None] is out
    of fuel. *)
Fixpoint jump_loop (fuel : nat) (key b j numBuckets : Z) : option Z :=
  if j <? numBuckets then
    match fuel with
    | O => None
    | S fuel =>
        let b := j in
        let key := jump_key key in
        jump_loop fuel key b (jump_next b key) numBuckets
    end
  else Some b.

Definition jump_run (key numBuckets : Z) : option Z :=
  jump_loop (Z.to_nat numBuckets) key (-1) 0 numBuckets.

(** The loop always ends ([jump_loop_ends]), so the default is never taken. *)
Definition jumpHash (key numBuckets : Z) : Z :=
  if numBuckets <=? 1 then 0 else default (-1) (jump_run key numBuckets).

(** ** The map *)

Record PartitionMeta := mkMeta {
  pm_ID : PartitionID; pm_Address : list Z; pm_Health : HealthState;
  pm_HostKeyLo : Z; pm_HostKeyHi : Z; pm_Primary : Z; pm_Replicas : list PartitionID
}.
#[export] Instance PartitionMeta_eq_dec : EqDecision PartitionMeta.
Proof. solve_decision. Defined.

(** distribute.Map; a nil override map is the empty one. *)
Record PMap := mkPMap {
  m_Epoch : Z; m_NumPartitions : Z; m_Overrides : gmap Z PartitionID;
  m_Weights : list Z; m_Replicas : Z; m_Partitions : list PartitionMeta
}.

Definition Owner (m : PMap) (hostKey : Z) : PartitionID :=
  match m_Overrides m !! hostKey with
  | Some pid => pid
  | None => u32 (jumpHash hostKey (m_NumPartitions m))
  end.

(** The copy is deep; in a model without sharing it is the map itself. *)
Definition Clone (m : PMap) : PMap :=
  mkPMap (m_Epoch m) (m_NumPartitions m) (m_Overrides m) (m_Weights m) (m_Replicas m)
    ((fun p => mkMeta (pm_ID p) (pm_Address p) (pm_Health p) (pm_HostKeyLo p) (pm_HostKeyHi p)
        (pm_Primary p) (pm_Replicas p)) <$> m_Partitions m).

(** ** The jump moves forward *)

Definition max_buckets : Z := 2 ^ 28.

Lemma jump_key_fits key : fits 64 (jump_key key).
Proof. apply u64_fits. Qed.

Lemma jump_next_forward b key :
  0 <= b < max_buckets -> fits 64 key -> b < jump_next b key <= 2 ^ 61.
Proof.
  unfold max_buckets, fits. intros Hb Hk. unfold jump_next.
  set (k := u64 (Z.shiftr key 33 + 1)).
  assert (Hk' : 1 <= k <= 2 ^ 31).
  { unfold k, u64. rewrite Z.shiftr_div_pow2 by lia.
    assert (0 <= key / 2 ^ 33 < 2 ^ 31) by (split; [apply Z.div_pos | apply Z.div_lt_upper_bound]; lia).
    rewrite Z.mod_small; lia. }
  rewrite i64_small by lia.
  destruct (f64_div_bounds (2 ^ 31) k) as (vq & Hq & Hlo & Hhi); [lia | lia |].
  assert (H1 : scaled_int 1 <= vq) by (apply Hlo; lia).
  assert (H2 : vq <= scaled_int (2 ^ 32)) by (apply Hhi; nia).
  destruct (f64_mul_bounds (b + 1) (f64_div (f64_of_int (2 ^ 31)) (f64_of_int k)) vq 61) as (v & Hv & Hup & Hdn); [lia | exact Hq | lia | |].
  { unfold scaled_int, unit_exp in *.
    eapply Z.le_lt_trans; [apply (Z.mul_le_mono_nonneg (b + 1) (2 ^ 28) vq (2 ^ 32 * 2 ^ 1100)); lia |].
    rewrite <- !Z.pow_add_r by lia. apply Z.pow_lt_mono_r; lia. }
  pose proof (f64_to_int64_bounds (-157) _ v (b + 1) (2 ^ 61) ltac:(lia) Hv ltac:(lia)) as Hr.
  specialize (Hdn H1). lia.
Qed.

(** ** The loop *)

Lemma jump_loop_ends fuel key b j n :
  n <= max_buckets -> fits 64 key -> -1 <= b < j -> b < n -> 0 <= j -> n - j <= Z.of_nat fuel ->
  exists b', jump_loop fuel key b j n = Some b' /\ b <= b' < n /\ (0 < n -> b' = b /\ n <= j \/ 0 <= b').
Proof.
  intros Hn Hk. revert key b j Hk. induction fuel as [|fuel IH]; intros key b j Hk Hb Hbn Hj Hf;
    cbn [jump_loop]; destruct (Z.ltb_spec j n); try lia.
  - exists b. split; [done |]. lia.
  - destruct (jump_next_forward j (jump_key key)) as [H1 _]; [lia | apply jump_key_fits |].
    destruct (IH (jump_key key) j (jump_next j (jump_key key))) as (b' & E & Hr & _);
      [apply jump_key_fits | lia .. |].
    exists b'. split; [done |]. lia.
  - exists b. split; [done |]. lia.
Qed.

(** One bucket more: the same walk, or one jump onto the new bucket. *)
Lemma jump_loop_grow fuel fuel' key b j n b1 :
  n + 1 <= max_buckets -> fits 64 key -> -1 <= b < j -> 0 <= j ->
  n - j <= Z.of_nat fuel -> n + 1 - j <= Z.of_nat fuel' ->
  jump_loop fuel key b j n = Some b1 ->
  jump_loop fuel' key b j (n + 1) = Some b1 \/ jump_loop fuel' key b j (n + 1) = Some n.
Proof.
  intros Hn Hk. revert fuel' key b j Hk. induction fuel as [|fuel IH];
    intros fuel' key b j Hk Hb Hj Hf Hf' E; cbn [jump_loop] in E.
  - destruct (Z.ltb_spec j n); [done |]. injection E as <-.
    destruct fuel' as [|fuel']; cbn [jump_loop]; destruct (Z.ltb_spec j (n + 1)); try lia; try (by left).
    right. assert (j = n) as -> by lia.
    destruct (jump_next_forward n (jump_key key)) as [H1 _]; [lia | apply jump_key_fits |].
    destruct fuel' as [|fuel']; cbn [jump_loop]; by rewrite (proj2 (Z.ltb_ge _ _)) by lia.
  - destruct (Z.ltb_spec j n).
    + destruct fuel' as [|fuel']; cbn [jump_loop]; rewrite (proj2 (Z.ltb_lt _ _)) by lia; [lia |].
      destruct (jump_next_forward j (jump_key key)) as [H1 _]; [lia | apply jump_key_fits |].
      apply IH; [apply jump_key_fits | lia .. | done].
    + injection E as <-.
      destruct fuel' as [|fuel']; cbn [jump_loop]; destruct (Z.ltb_spec j (n + 1)); try lia; try (by left).
      right. assert (j = n) as -> by lia.
      destruct (jump_next_forward n (jump_key key)) as [H1 _]; [lia | apply jump_key_fits |].
      destruct fuel' as [|fuel']; cbn [jump_loop]; by rewrite (proj2 (Z.ltb_ge _ _)) by lia.
Qed.

Lemma jump_run_ends key n :
  fits 64 key -> 1 <= n <= max_buckets -> exists b, jump_run key n = Some b /\ 0 <= b < n.
Proof.
  intros Hk Hn. destruct (jump_loop_ends (Z.to_nat n) key (-1) 0 n) as (b & E & Hr & Hz); try lia; [done |].
  exists b. split; [done |]. destruct Hz as [[-> ?] | ?]; lia.
Qed.

Lemma jumpHash_range key n : fits 64 key -> 1 <= n <= max_buckets -> 0 <= jumpHash key n < n.
Proof.
  intros Hk Hn. unfold jumpHash. destruct (Z.leb_spec n 1); [lia |].
  destruct (jump_run_ends key n Hk) as (b & -> & Hb); [lia |]. done.
Qed.

Lemma jumpHash_grow key n :
  fits 64 key -> 1 <= n < max_buckets ->
  jumpHash key (n + 1) = jumpHash key n \/ jumpHash key (n + 1) = n.
Proof.
  intros Hk Hn. unfold jumpHash. rewrite (proj2 (Z.leb_gt (n + 1) 1)) by lia.
  destruct (jump_run_ends key n Hk) as (b & E & Hb); [lia |].
  assert (Hg : jump_run key (n + 1) = Some b \/ jump_run key (n + 1) = Some n).
  { eapply jump_loop_grow; [| exact Hk | | | | | exact E]; lia. }
  destruct (Z.leb_spec n 1) as [H1 | H1].
  - assert (b = 0) as -> by lia. destruct Hg as [-> | ->]; auto.
  - rewrite E. destruct Hg as [-> | ->]; auto.
Qed.

Lemma Clone_same m : Clone m = m.
Proof.
  destruct m as [e n ov w r ps]. unfold Clone. cbn. f_equal.
  rewrite <- (list_fmap_id ps) at 2. apply list_fmap_ext. intros i p _. by destruct p.
Qed.

(** C18: the jump hash ends for every key and count, lands in a bucket that exists, and is
    consistent: with one bucket more, every key keeps its bucket or moves to the new one.
    So an owner under a map is a partition of it unless the host is pinned, and growing the
    count moves an unpinned host nowhere but to the new partition. *)
Theorem jump_hash_consistent (m : PMap) (key : Z) (Hk : fits 64 key)
    (Hn : 1 <= m_NumPartitions m < max_buckets) :
  let grown := mkPMap (m_Epoch m + 1) (m_NumPartitions m + 1) (m_Overrides m) (m_Weights m)
                 (m_Replicas m) (m_Partitions m) in
  is_Some (jump_run key (m_NumPartitions m)) /\ 0 <= jumpHash key (m_NumPartitions m) < m_NumPartitions m /\
  (m_Overrides m !! key = None -> 0 <= Owner m key < m_NumPartitions m) /\
  (Owner grown key = Owner m key \/ m_Overrides m !! key = None /\ Owner grown key = m_NumPartitions m).
Proof.
  intros grown. pose proof (jumpHash_range key (m_NumPartitions m) Hk ltac:(lia)) as Hr.
  assert (Hs : forall x, 0 <= x <= m_NumPartitions m -> u32 x = x).
  { intros x Hx. apply u32_small. unfold fits, max_buckets in Hn |- *. lia. }
  split; [destruct (jump_run_ends key (m_NumPartitions m) Hk) as (b & -> & _); [lia | by eexists] |].
  split; [done |]. unfold Owner. unfold grown. cbn [m_Overrides m_NumPartitions].
  destruct (m_Overrides m !! key); [split; [done | by left] |]. rewrite (Hs (jumpHash _ _)) by lia.
  split; [done |]. destruct (jumpHash_grow key (m_NumPartitions m) Hk ltac:(lia)) as [-> | ->].
  - left. apply Hs. lia.
  - right. split; [done |]. apply Hs. lia.
Qed.

Definition map_example (n : Z) : PMap := mkPMap 1 n {[ 99 := 0 ]} [] 0 [].

Lemma jump_hash_consistent_witness : 0 <= jumpHash 9 7 < 7 /\ jumpHash 9 7 = 2 /\ jumpHash 9 8 = 7.
Proof.
  split; [| split; vm_compute; reflexivity].
  refine (proj1 (proj2 (jump_hash_consistent (map_example 7) 9 _ _))); split; reflexivity || discriminate.
Defined.
