(* ===== verification/Control.v ===== *)
(** * The control plane (distribute/rendezvous.go, control.go, failover.go)

    The plane that owns the partition map: rendezvous placement of partitions on machines,
    the four map changes, heartbeats and fail-over. Its lock serializes the operations, so
    each is a function of the state. Proved: the shape of the map is kept and its epoch
    never goes back; a fail-over moves exactly the lost machine's partitions, each to
    its first replica. The places where the plane falls short of that are at the end. *)

From Stdlib Require Import SpecFloat.
From S2P Require Import Prelude Words Rbuf Floats GoSort Jump.
Open Scope Z_scope.

(** ** Rendezvous placement *)

Definition MachineID : Type := Z.

Record Machine := mkMachine { mc_ID : MachineID; mc_Weight : spec_float; mc_Address : list Z }.

Definition hashCombine (a b : Z) : Z :=
  let x := Z.lxor (u64 (a * 0x9E3779B97F4A7C15)) b in
  let x := Z.lxor x (Z.shiftr x 30) in
  let x := u64 (x * 0xBF58476D1CE4E5B9) in
  let x := Z.lxor x (Z.shiftr x 27) in
  let x := u64 (x * 0x94D049BB133111EB) in
  Z.lxor x (Z.shiftr x 31).

(** The ranked entries and their order, by weight down, then by machine. *)
Definition rank_less (a b : Z * MachineID) : bool :=
  if negb (a.1 =? b.1) then b.1 <? a.1 else a.2 <? b.2.

Definition wrank_less (a b : spec_float * MachineID) : bool :=
  if negb (SFeqb a.1 b.1) then SFltb b.1 a.1 else a.2 <? b.2.

Definition pref_count (replicaCount : Z) (n : nat) : nat := Z.to_nat (Z.min (replicaCount + 1) (Z.of_nat n)).

Definition machineIDs (machines : list Machine) : list MachineID := mc_ID <$> machines.

Section Placement.
Context `{GoSort}.

Definition preferenceList (partition : PartitionID) (machines : list MachineID) (replicaCount : Z)
    : list MachineID :=
  let ranked := sort_slice rank_less ((fun mac => (hashCombine partition mac, mac)) <$> machines) in
  take (pref_count replicaCount (length ranked)) (snd <$> ranked).

Definition weightedPreference (partition : PartitionID) (machines : list Machine) (replicaCount : Z)
    : list MachineID :=
  let ranked := sort_slice wrank_less
    ((fun mac => (f64_mul (f64_of_int (hashCombine partition (mc_ID mac))) (mc_Weight mac), mc_ID mac)) <$> machines) in
  take (pref_count replicaCount (length ranked)) (snd <$> ranked).

(** ** The state *)

Record Control := mkControl {
  c_m : PMap; c_machines : list Machine; c_misses : gmap PartitionID Z;
  c_backlog : gmap PartitionID Z; c_failThreshold : Z
}.

Definition DefaultFailThreshold : Z := 3.

Definition NewControl : Control :=
  mkControl (mkPMap 1 1 ∅ [] 0 [mkMeta 0 [] Alive 0 0 0 []]) [] ∅ ∅ DefaultFailThreshold.

(** Assignments to fields. *)
Definition set_m (c : Control) (m : PMap) : Control :=
  mkControl m (c_machines c) (c_misses c) (c_backlog c) (c_failThreshold c).
Definition set_machines (c : Control) (l : list Machine) : Control :=
  mkControl (c_m c) l (c_misses c) (c_backlog c) (c_failThreshold c).
Definition set_misses (c : Control) (ms : gmap PartitionID Z) : Control :=
  mkControl (c_m c) (c_machines c) ms (c_backlog c) (c_failThreshold c).
Definition set_backlog (c : Control) (b : gmap PartitionID Z) : Control :=
  mkControl (c_m c) (c_machines c) (c_misses c) b (c_failThreshold c).
Definition set_partitions (m : PMap) (l : list PartitionMeta) : PMap :=
  mkPMap (m_Epoch m) (m_NumPartitions m) (m_Overrides m) (m_Weights m) (m_Replicas m) l.
Definition set_health (p : PartitionMeta) (h : HealthState) : PartitionMeta :=
  mkMeta (pm_ID p) (pm_Address p) h (pm_HostKeyLo p) (pm_HostKeyHi p) (pm_Primary p) (pm_Replicas p).
Definition set_placement (p : PartitionMeta) (address : list Z) (primary : MachineID)
    (replicas : list PartitionID) : PartitionMeta :=
  mkMeta (pm_ID p) address (pm_Health p) (pm_HostKeyLo p) (pm_HostKeyHi p) primary replicas.

Definition bump (c : Control) : Control :=
  let m := c_m c in
  set_m c (mkPMap (u64 (m_Epoch m + 1)) (m_NumPartitions m) (m_Overrides m) (m_Weights m)
             (m_Replicas m) (m_Partitions m)).

Definition addressOf (machines : list Machine) (id : MachineID) : list Z :=
  match list_find (fun mac => mc_ID mac = id) machines with
  | Some (_, mac) => mc_Address mac
  | None => []
  end.

(** Some machine carries a weight other than 0 and 1. *)
Definition weighted (machines : list Machine) : bool :=
  existsb (fun mac => negb (SFeqb (mc_Weight mac) (S754_zero false)) &&
                      negb (SFeqb (mc_Weight mac) (f64_of_int 1))) machines.

(** The preference list [replace] ranks a partition by. *)
Definition pref_of (machines : list Machine) (replicas : Z) (id : PartitionID) : list MachineID :=
  if weighted machines then weightedPreference id machines replicas
  else preferenceList id (machineIDs machines) replicas.

Definition place_one (machines : list Machine) (replicas : Z) (p : PartitionMeta) : PartitionMeta :=
  match pref_of machines replicas (pm_ID p) with
  | [] => set_placement p (pm_Address p) (pm_Primary p) []
  | primary :: rest =>
      let addr := addressOf machines primary in
      set_placement p (if decide (addr = []) then pm_Address p else addr) primary (u32 <$> rest)
  end.

Definition replace (c : Control) : Control :=
  let m := c_m c in
  set_m c (set_partitions m
    (if (length (c_machines c) =? 0)%nat || (m_Replicas m <=? 0)
     then (fun p => set_placement p (pm_Address p) (pm_Primary p) []) <$> m_Partitions m
     else place_one (c_machines c) (m_Replicas m) <$> m_Partitions m)).

(** ** Reading the plane *)

Definition FetchMap (c : Control) : PMap := Clone (c_m c).
Definition Epoch (c : Control) : Z := m_Epoch (c_m c).
Definition NumPartitions (c : Control) : Z := m_NumPartitions (c_m c).

Definition Backlog (c : Control) : list Z :=
  (fun id => default 0 (c_backlog c !! Z.of_nat id)) <$> seq 0 (Z.to_nat (m_NumPartitions (c_m c))).

Definition Primary (c : Control) (id : PartitionID) : option MachineID :=
  pm_Primary <$> (snd <$> list_find (fun p => pm_ID p = id) (m_Partitions (c_m c))).

(** ** The map changes *)

Definition SetReplicas (c : Control) (n : Z) : Control :=
  let m := c_m c in
  replace (set_m c (mkPMap (m_Epoch m) (m_NumPartitions m) (m_Overrides m) (m_Weights m) n (m_Partitions m))).

Definition SetMachines (c : Control) (machines : list Machine) : Control :=
  replace (set_machines c machines).

Definition AddPartition (c : Control) (address : list Z) : Control * PartitionID :=
  let m := c_m c in
  let id := u32 (m_NumPartitions m) in
  let c := set_m c (mkPMap (m_Epoch m) (i64 (m_NumPartitions m + 1)) (m_Overrides m) (m_Weights m)
             (m_Replicas m) (m_Partitions m ++ [mkMeta id address Alive 0 0 0 []])) in
  (replace (bump c), id).

Definition RemovePartition (c : Control) : Control * option PartitionID :=
  let m := c_m c in
  if m_NumPartitions m <=? 1 then (c, None)
  else
    let id := u32 (m_NumPartitions m - 1) in
    let c := set_m c (mkPMap (m_Epoch m) (m_NumPartitions m - 1) (m_Overrides m) (m_Weights m)
               (m_Replicas m) (take (length (m_Partitions m) - 1) (m_Partitions m))) in
    let c := set_backlog c (delete id (c_backlog c)) in
    (replace (bump c), Some id).

Definition Pin (c : Control) (hostKey : Z) (to : PartitionID) : Control :=
  let m := c_m c in
  bump (set_m c (mkPMap (m_Epoch m) (m_NumPartitions m) (<[hostKey := to]> (m_Overrides m)) (m_Weights m)
          (m_Replicas m) (m_Partitions m))).

(** The row of a partition rewritten: the first one of that id. *)
Definition update_row (f : PartitionMeta -> PartitionMeta) (i : nat) (c : Control) : Control :=
  set_m c (set_partitions (c_m c) (alter f i (m_Partitions (c_m c)))).

Definition SetHealth (c : Control) (id : PartitionID) (h : HealthState) : Control :=
  match list_find (fun p => pm_ID p = id) (m_Partitions (c_m c)) with
  | Some (i, _) => bump (update_row (fun p => set_health p h) i c)
  | None => c
  end.

(** ** Heartbeats and fail-over *)

(** A health change that bumps the epoch only when it is one. *)
Definition note_health (c : Control) (id : PartitionID) (h : HealthState) : Control :=
  match list_find (fun p => pm_ID p = id) (m_Partitions (c_m c)) with
  | Some (i, p) =>
      if decide (pm_Health p <> h) then bump (update_row (fun p => set_health p h) i c) else c
  | None => c
  end.

Definition heartbeatLocked (c : Control) (id : PartitionID) : Control :=
  note_health (set_misses c (delete id (c_misses c))) id Alive.

Definition Heartbeat (c : Control) (id : PartitionID) : Control := heartbeatLocked c id.

Definition HeartbeatLoad (c : Control) (id : PartitionID) (backlog : Z) : Control :=
  heartbeatLocked (set_backlog c (<[id := backlog]> (c_backlog c))) id.

Definition MissHeartbeat (c : Control) (id : PartitionID) : Control * HealthState :=
  let n := i64 (default 0 (c_misses c !! id) + 1) in
  let c := set_misses c (<[id := n]> (c_misses c)) in
  let next := if c_failThreshold c <=? n then Failed else Degraded in
  (note_health c id next, next).

Definition FailMachine (c : Control) (id : MachineID) : Control * list PartitionID :=
  let old : gmap PartitionID MachineID :=
    foldl (fun old p => <[pm_ID p := pm_Primary p]> old) ∅ (m_Partitions (c_m c)) in
  let kept := filter (fun mac => mc_ID mac <> id) (c_machines c) in
  if (length kept =? length (c_machines c))%nat then (c, [])
  else
    let c := bump (replace (set_machines c kept)) in
    (c, pm_ID <$> filter (fun p => pm_Primary p <> default 0 (old !! pm_ID p)) (m_Partitions (c_m c))).
End Placement.

(** ** The rankings *)

Lemma rank_order P : weak_order P rank_less.
Proof.
  unfold rank_less. split; intros a b.
  - intros _ _. destruct (Z.eqb_spec a.1 b.1), (Z.eqb_spec b.1 a.1); cbn; rewrite ?Z.ltb_lt, ?Z.ltb_ge; lia.
  - intros c _ _ _. destruct (Z.eqb_spec b.1 a.1), (Z.eqb_spec c.1 b.1), (Z.eqb_spec c.1 a.1); cbn;
      rewrite ?Z.ltb_ge; lia.
Qed.

Lemma rank_antisym a b : rank_less a b = false -> rank_less b a = false -> a.2 = b.2.
Proof.
  unfold rank_less. destruct (Z.eqb_spec a.1 b.1), (Z.eqb_spec b.1 a.1); cbn; rewrite ?Z.ltb_ge; lia.
Qed.

Lemma key_eq (x y : Z * Z * Z) : x = y <-> x.1.1 = y.1.1 /\ x.1.2 = y.1.2 /\ x.2 = y.2.
Proof. destruct x as [[]], y as [[]]. cbn. split; [by intros [= -> -> ->] | by intros (-> & -> & ->)]. Qed.

Lemma wrank_spec a b :
  f64_num a.1 -> f64_num b.1 ->
  wrank_less a b = true <->
  key_lt (f64_key b.1) (f64_key a.1) \/ f64_key a.1 = f64_key b.1 /\ a.2 < b.2.
Proof.
  intros Ha Hb. unfold wrank_less. pose proof (SFltb_key b.1 a.1 Hb Ha) as Hl.
  pose proof (SFeqb_key a.1 b.1 Ha Hb) as He. destruct (SFeqb a.1 b.1); cbn [negb].
  - destruct He as [He _]. rewrite Z.ltb_lt, (He eq_refl). unfold key_lt.
    split; [by right | intros [Hk | [_ ?]]; [lia | done]].
  - rewrite Hl. split; [by left |]. intros [? | [E _]]; [done |]. by apply He in E.
Qed.

Lemma wrank_order (l : list (spec_float * MachineID)) :
  Forall (fun a => f64_num a.1) l -> weak_order (.∈ l) wrank_less.
Proof.
  rewrite Forall_forall. intros Hl. split; intros a b.
  - intros Ha%Hl Hb%Hl. rewrite <- not_true_iff_false, !wrank_spec, !key_eq by done. unfold key_lt. lia.
  - intros c Ha%Hl Hb%Hl Hc%Hl. rewrite <- !not_true_iff_false, !wrank_spec, !key_eq by done.
    unfold key_lt. lia.
Qed.

Lemma shiftr_fits n x k : 0 <= k -> fits n x -> fits n (Z.shiftr x k).
Proof.
  intros Hk [H0 H1]. rewrite Z.shiftr_div_pow2 by done. split; [apply Z.div_pos; [done |]; by apply Z.pow_pos_nonneg |].
  eapply Z.le_lt_trans; [| exact H1]. apply Z.div_le_upper_bound; [by apply Z.pow_pos_nonneg |].
  assert (1 <= 2 ^ k) by (apply (Z.pow_le_mono_r 2 0); lia). nia.
Qed.

Lemma hashCombine_fits a b : fits 64 b -> fits 64 (hashCombine a b).
Proof.
  intros Hb. unfold hashCombine.
  assert (Hx : forall x k, 0 <= k -> fits 64 x -> fits 64 (Z.lxor x (Z.shiftr x k)))
    by (intros; apply lxor_fits; [lia | done | by apply shiftr_fits]).
  apply Hx; [lia | apply u64_fits].
Qed.

(** Elements told apart by a key. *)
Lemma NoDup_key {A B} (l : list A) (f : A -> B) a b :
  NoDup (f <$> l) -> a ∈ l -> b ∈ l -> f a = f b -> a = b.
Proof.
  induction l as [|x l IH]; intros Hnd Ha Hb E; [by apply not_elem_of_nil in Ha |].
  apply NoDup_cons in Hnd as [Hx Hnd].
  apply elem_of_cons in Ha as [-> | Ha]; apply elem_of_cons in Hb as [-> | Hb]; [done | | | by apply IH].
  - destruct Hx. rewrite E. by apply list_elem_of_fmap_2.
  - destruct Hx. rewrite <- E. by apply list_elem_of_fmap_2.
Qed.

Lemma filter_fmap_comm {A B} (f : A -> B) (P : B -> Prop) `{forall x, Decision (P x)} (l : list A) :
  filter P (f <$> l) = f <$> filter (fun a => P (f a)) l.
Proof.
  induction l as [|a l IH]; [done |]. cbn [fmap list_fmap]. rewrite !filter_cons.
  case_decide; cbn; by rewrite IH.
Qed.

Section Facts.
Context `{GoSortLaws}.

Definition entry (p : PartitionID) (mac : MachineID) : Z * MachineID := (hashCombine p mac, mac).
Definition wentry (p : PartitionID) (mac : Machine) : spec_float * MachineID :=
  (f64_mul (f64_of_int (hashCombine p (mc_ID mac))) (mc_Weight mac), mc_ID mac).

(** Every machine, the best for the partition first. *)
Definition ranking (machines : list Machine) (p : PartitionID) : list MachineID :=
  if weighted machines then snd <$> sort_slice wrank_less (wentry p <$> machines)
  else snd <$> sort_slice rank_less (entry p <$> machineIDs machines).

Lemma pref_of_ranking machines r p :
  pref_of machines r p = take (pref_count r (length machines)) (ranking machines p).
Proof using H0.
  unfold pref_of, ranking, preferenceList, weightedPreference. destruct (weighted machines);
    rewrite sort_slice_length; unfold machineIDs; by rewrite !length_fmap.
Qed.

Lemma ranking_perm machines p : ranking machines p ≡ₚ machineIDs machines.
Proof using H0.
  unfold ranking. destruct (weighted machines); rewrite sort_slice_perm, <- list_fmap_compose; [done |].
  unfold machineIDs, entry. rewrite list_fmap_id. done.
Qed.

(** A fleet whose members are told apart by their ids and have finite weights. *)
Definition fleet_ok (machines : list Machine) : Prop :=
  NoDup (machineIDs machines) /\
  Forall (fun mac => fits 32 (mc_ID mac) /\ f64_finite (mc_Weight mac)) machines.

(** Losing a machine takes it out of every ranking and leaves the rest in order, unless it
    also changes how the fleet is ranked. *)
Lemma ranking_without machines p id :
  fleet_ok machines ->
  let kept := filter (fun mac => mc_ID mac <> id) machines in
  weighted kept = weighted machines ->
  ranking kept p = filter (fun x => x <> id) (ranking machines p).
Proof using H0.
  intros [Hnd Hok] kept Hw. unfold ranking. rewrite Hw. destruct (weighted machines).
  - assert (Hnum : Forall (fun a => f64_num a.1) (wentry p <$> machines)).
    { apply Forall_fmap. eapply Forall_impl; [exact Hok |]. intros mac [Hid Hfin].
      apply f64_mul_num; [apply f64_of_int_finite, hashCombine_fits | done]. by eapply (fits_weaken 32). }
    rewrite filter_fmap_comm, <- sort_slice_filter.
    + f_equal. f_equal. rewrite filter_fmap_comm. done.
    + by apply wrank_order.
    + intros a b (ma & -> & Ha)%list_elem_of_fmap (mb & -> & Hb)%list_elem_of_fmap L1 L2.
      rewrite <- not_true_iff_false, wrank_spec in L1, L2
        by (rewrite Forall_fmap, Forall_forall in Hnum; by apply Hnum).
      rewrite key_eq in L1, L2. unfold key_lt in L1, L2.
      assert (E : (wentry p ma).2 = (wentry p mb).2) by lia. clear L1 L2.
      by rewrite (NoDup_key machines mc_ID ma mb Hnd Ha Hb E).
  - rewrite filter_fmap_comm, <- sort_slice_filter.
    + f_equal. f_equal. unfold machineIDs. rewrite !filter_fmap_comm. done.
    + apply rank_order.
    + intros a b (ma & -> & _)%list_elem_of_fmap (mb & -> & _)%list_elem_of_fmap L1 L2.
      pose proof (rank_antisym _ _ L1 L2) as E. cbn in E. by subst.
Qed.

(** *** The shape of the map *)

(** The rows are the partitions 0 to n - 1, in order. *)
Definition shape_ok (m : PMap) : Prop :=
  1 <= m_NumPartitions m /\ m_NumPartitions m = Z.of_nat (length (m_Partitions m)) /\
  pm_ID <$> m_Partitions m = Z.of_nat <$> seq 0 (length (m_Partitions m)).

(** The rows are where the placement puts them. *)
Definition placed (c : Control) : Prop := m_Partitions (c_m (replace c)) = m_Partitions (c_m c).

Lemma place_one_idem machines r p : place_one machines r (place_one machines r p) = place_one machines r p.
Proof using Type.
  unfold place_one. destruct (pref_of machines r (pm_ID p)) as [|primary rest] eqn:E; cbn [pm_ID set_placement];
    rewrite E; [done |]. unfold set_placement. cbn. f_equal. by repeat case_decide.
Qed.

Lemma replace_placed c : placed (replace c).
Proof using Type.
  unfold placed, replace. cbn. destruct (_ || _).
  - rewrite <- list_fmap_compose. done.
  - rewrite <- list_fmap_compose. apply list_fmap_ext. intros i p _. cbn. apply place_one_idem.
Qed.

Lemma replace_ids c : pm_ID <$> m_Partitions (c_m (replace c)) = pm_ID <$> m_Partitions (c_m c).
Proof using Type.
  unfold replace. cbn. destruct (_ || _); rewrite <- list_fmap_compose; apply list_fmap_ext; intros i p _; [done |].
  cbn. unfold place_one. by case_match.
Qed.

Lemma replace_length c : length (m_Partitions (c_m (replace c))) = length (m_Partitions (c_m c)).
Proof using Type. unfold replace. cbn. destruct (_ || _); by rewrite length_fmap. Qed.

Lemma shape_ok_rows m m' :
  m_NumPartitions m' = m_NumPartitions m -> pm_ID <$> m_Partitions m' = pm_ID <$> m_Partitions m ->
  shape_ok m -> shape_ok m'.
Proof using Type.
  intros En Er (H1 & H2 & H3).
  assert (El : length (m_Partitions m') = length (m_Partitions m)) by (by rewrite <- (length_fmap pm_ID), Er, length_fmap).
  unfold shape_ok. by rewrite En, El, Er.
Qed.

Lemma replace_shape c : shape_ok (c_m c) -> shape_ok (c_m (replace c)).
Proof using Type. apply shape_ok_rows; [done | apply replace_ids]. Qed.

(** A change of health leaves ids and placement alone. *)
Lemma update_health_ids i h c :
  pm_ID <$> m_Partitions (c_m (update_row (fun p => set_health p h) i c)) = pm_ID <$> m_Partitions (c_m c).
Proof using Type.
  cbn. apply list_eq. intros j. rewrite !list_lookup_fmap. destruct (decide (j = i)) as [-> | Hne].
  - rewrite list_lookup_alter_eq. by destruct (m_Partitions (c_m c) !! i).
  - by rewrite list_lookup_alter_ne.
Qed.

Lemma place_health machines r p h :
  place_one machines r (set_health p h) = set_health (place_one machines r p) h.
Proof using Type. unfold place_one. cbn. by case_match. Qed.

Lemma update_health_placed i h c : placed c -> placed (update_row (fun p => set_health p h) i c).
Proof using Type.
  unfold placed, replace. cbn. intros Hp. destruct (_ || _);
    rewrite <- Hp at 2; apply list_eq; intros j; rewrite !list_lookup_fmap;
    (destruct (decide (j = i)) as [-> | Hne];
     [rewrite !list_lookup_alter_eq, list_lookup_fmap; destruct (m_Partitions (c_m c) !! i); cbn; [| done]
     | rewrite !list_lookup_alter_ne, list_lookup_fmap by done; done]).
  - done.
  - by rewrite place_health.
Qed.

(** *** Runs of the plane *)

Inductive control_op :=
  | OpSetReplicas (n : Z) | OpSetMachines (l : list Machine) | OpAdd (address : list Z) | OpRemove
  | OpPin (hostKey : Z) (to : PartitionID) | OpSetHealth (id : PartitionID) (h : HealthState)
  | OpBeat (id : PartitionID) | OpBeatLoad (id : PartitionID) (n : Z) | OpMiss (id : PartitionID)
  | OpFail (id : MachineID).

Definition control_step (c : Control) (op : control_op) : Control :=
  match op with
  | OpSetReplicas n => SetReplicas c n
  | OpSetMachines l => SetMachines c l
  | OpAdd address => (AddPartition c address).1
  | OpRemove => (RemovePartition c).1
  | OpPin k to => Pin c k to
  | OpSetHealth id h => SetHealth c id h
  | OpBeat id => Heartbeat c id
  | OpBeatLoad id n => HeartbeatLoad c id n
  | OpMiss id => (MissHeartbeat c id).1
  | OpFail id => (FailMachine c id).1
  end.

(** The operations that only place replicas; the source leaves the epoch alone there. *)
Definition placement_op (op : control_op) : bool :=
  match op with OpSetReplicas _ | OpSetMachines _ => true | _ => false end.

Definition control_run (ops : list control_op) : Control := foldl control_step NewControl ops.

Record control_ok (c : Control) : Prop := {
  co_shape : shape_ok (c_m c);
  co_placed : placed c
}.

Lemma note_health_ok c id h : control_ok c -> control_ok (note_health c id h).
Proof using Type.
  intros [Hs Hp]. unfold note_health. destruct (list_find _ _) as [[i p] |]; [| done].
  case_decide; [| done]. split.
  - apply (shape_ok_rows (c_m c)); [done | apply (update_health_ids i h c) | done].
  - by apply (update_health_placed i h c).
Qed.

(** With fewer than 2^28 partitions an operation keeps the shape and the placement. *)
Lemma control_step_ok c op :
  control_ok c -> m_NumPartitions (c_m c) < max_buckets -> control_ok (control_step c op).
Proof using Type.
  intros [Hs Hp] Hn. unfold max_buckets in Hn. pose proof Hs as (Hs1 & Hs2 & Hs3).
  destruct op as [n|l|address| |k to|id h|id|id n|id|id]; cbn [control_step].
  - split; [| apply replace_placed]. apply replace_shape. done.
  - split; [| apply replace_placed]. apply replace_shape. done.
  - split; [| apply (replace_placed (bump _))]. apply replace_shape. unfold shape_ok. cbn.
    rewrite length_app, i64_small by lia. cbn. split_and!; [lia | lia |].
    rewrite fmap_app, Hs3, seq_app, fmap_app. cbn. do 2 f_equal.
    rewrite u32_small by (unfold fits; lia). lia.
  - unfold RemovePartition. destruct (Z.leb_spec (m_NumPartitions (c_m c)) 1); [by split |].
    split; [| apply (replace_placed (bump _))]. apply replace_shape. unfold shape_ok. cbn.
    rewrite length_take. split_and!; [lia | lia |].
    rewrite fmap_take, Hs3, <- fmap_take, take_seq. do 2 f_equal.
  - by split.
  - unfold SetHealth. destruct (list_find _ _) as [[i p] |]; [| by split]. split.
    + apply (shape_ok_rows (c_m c)); [done | apply (update_health_ids i h c) | done].
    + by apply (update_health_placed i h c).
  - by apply note_health_ok.
  - by apply note_health_ok.
  - by apply note_health_ok.
  - unfold FailMachine. destruct (_ =? _)%nat; [by split |]. cbn [fst]. split.
    + apply (replace_shape (set_machines c _)). done.
    + apply (replace_placed (set_machines c _)).
Qed.

(** *** The epoch *)

Lemma note_health_map c id h :
  c_m (note_health c id h) = c_m c \/ m_Epoch (c_m (note_health c id h)) = u64 (m_Epoch (c_m c) + 1).
Proof using Type.
  unfold note_health. destruct (list_find _ _) as [[i p] |]; [| by left]. case_decide; [by right | by left].
Qed.

Lemma control_step_epoch c op :
  m_Epoch (c_m (control_step c op)) = u64 (m_Epoch (c_m c) + 1) \/
  m_Epoch (c_m (control_step c op)) = m_Epoch (c_m c) /\
    (placement_op op = true \/ c_m (control_step c op) = c_m c).
Proof using Type.
  assert (Hnote : forall c' id h, c_m c' = c_m c ->
    m_Epoch (c_m (note_health c' id h)) = u64 (m_Epoch (c_m c) + 1) \/
    m_Epoch (c_m (note_health c' id h)) = m_Epoch (c_m c) /\
      (placement_op op = true \/ c_m (note_health c' id h) = c_m c)).
  { intros c' id h E. destruct (note_health_map c' id h) as [-> | ->]; rewrite E; auto. }
  destruct op as [n|l|address| |k to|id h|id|id n|id|id]; cbn [control_step].
  - right. split; [done | by left].
  - right. split; [done | by left].
  - by left.
  - unfold RemovePartition. destruct (_ <=? 1); [right; split; [done | by right] | by left].
  - by left.
  - unfold SetHealth. destruct (list_find _ _) as [[i p] |]; [by left | right; split; [done | by right]].
  - by apply Hnote.
  - by apply Hnote.
  - by apply Hnote.
  - unfold FailMachine. destruct (_ =? _)%nat; [right; split; [done | by right] | by left].
Qed.

Lemma control_step_count c op :
  control_ok c -> m_NumPartitions (c_m c) < max_buckets ->
  1 <= m_NumPartitions (c_m (control_step c op)) <= m_NumPartitions (c_m c) + 1.
Proof using Type.
  intros Hok Hn. destruct (control_step_ok c op Hok Hn) as [(H1 & _) _]. split; [done |]. clear H1.
  assert (Hnote : forall c' id h, m_NumPartitions (c_m (note_health c' id h)) = m_NumPartitions (c_m c')).
  { intros c' id h. unfold note_health. destruct (list_find _ _) as [[i p] |]; [| done]. by case_decide. }
  destruct Hok as [(H1 & _) _]. unfold max_buckets in Hn.
  destruct op as [n|l|address| |k to|id h|id|id n|id|id]; cbn [control_step]; try (cbn; lia).
  - cbn. rewrite i64_small by lia. lia.
  - unfold RemovePartition. destruct (_ <=? 1); cbn; lia.
  - unfold SetHealth. destruct (list_find _ _) as [[i p] |]; cbn; lia.
  - unfold Heartbeat, heartbeatLocked. rewrite Hnote. cbn. lia.
  - unfold HeartbeatLoad, heartbeatLocked. rewrite Hnote. cbn. lia.
  - cbn [MissHeartbeat fst]. rewrite Hnote. cbn. lia.
  - unfold FailMachine. destruct (_ =? _)%nat; cbn; lia.
Qed.

Lemma NewControl_ok : control_ok NewControl.
Proof using Type. split; [| done]. unfold shape_ok. cbn. done. Qed.

Lemma control_run_ok ops :
  Z.of_nat (length ops) < max_buckets - 1 ->
  let c := control_run ops in
  control_ok c /\ m_NumPartitions (c_m c) <= 1 + Z.of_nat (length ops) /\
  1 <= m_Epoch (c_m c) <= 1 + Z.of_nat (length ops).
Proof using Type.
  unfold control_run, max_buckets. induction ops as [|op ops IH] using rev_ind; intros Hl.
  { split; [apply NewControl_ok |]. cbn. lia. }
  rewrite length_app, foldl_snoc in *. cbn in Hl |- *.
  destruct IH as (Hok & Hn & He); [lia |]. set (c := foldl control_step NewControl ops) in *.
  assert (Hmax : m_NumPartitions (c_m c) < max_buckets) by (unfold max_buckets; lia).
  split; [by apply control_step_ok |].
  pose proof (control_step_count c op Hok Hmax). split; [lia |].
  destruct (control_step_epoch c op) as [-> | [-> _]]; [rewrite u64_small by (unfold fits; lia) |]; lia.
Qed.

(** *** Fail-over *)

Lemma old_lookup (rows : list PartitionMeta) (acc : gmap PartitionID MachineID) p :
  NoDup (pm_ID <$> rows) -> p ∈ rows ->
  foldl (fun old q => <[pm_ID q := pm_Primary q]> old) acc rows !! pm_ID p = Some (pm_Primary p).
Proof using Type.
  assert (Hskip : forall rows (acc : gmap PartitionID MachineID) k, k ∉ pm_ID <$> rows ->
    foldl (fun old q => <[pm_ID q := pm_Primary q]> old) acc rows !! k = acc !! k).
  { clear. induction rows as [|q rows IH]; intros acc k Hk; [done |]. cbn [foldl fmap list_fmap] in *.
    apply not_elem_of_cons in Hk as [Hne Hk]. rewrite IH by done. by rewrite lookup_insert_ne. }
  revert acc. induction rows as [|q rows IH]; intros acc Hnd Hp; [by apply not_elem_of_nil in Hp |].
  apply NoDup_cons in Hnd as [Hq Hnd]. cbn [foldl]. apply elem_of_cons in Hp as [-> | Hp]; [| by apply IH].
  rewrite Hskip by done. by rewrite lookup_insert_eq.
Qed.

Lemma pref_count_pos r n : 0 < r -> (1 <= n)%nat -> exists k, pref_count r n = S k /\ (1 < n -> 1 <= k)%nat.
Proof using Type. intros Hr Hn. exists (pred (pref_count r n)). unfold pref_count. lia. Qed.

(** What losing a machine does to one row. *)
Lemma place_without machines r id p :
  fleet_ok machines -> 0 < r ->
  let kept := filter (fun mac => mc_ID mac <> id) machines in
  weighted kept = weighted machines -> kept <> [] -> place_one machines r p = p ->
  let p' := place_one kept r p in
  pm_Health p' = pm_Health p /\ pm_Primary p' <> id /\ id ∉ pm_Replicas p' /\
  (pm_Primary p <> id -> pm_Primary p' = pm_Primary p) /\
  (pm_Primary p = id -> exists rest, pm_Replicas p = pm_Primary p' :: rest).
Proof using H0.
  intros Hok Hr kept Hw Hne Hp p'. pose proof (ranking_without machines (pm_ID p) id Hok Hw) as Hrank.
  fold kept in Hrank. destruct Hok as [Hnd Hfin].
  pose proof (ranking_perm machines (pm_ID p)) as Hperm.
  assert (Hnd' : NoDup (ranking machines (pm_ID p))) by (by rewrite Hperm).
  assert (Hfit : Forall (fun x => u32 x = x) (ranking machines (pm_ID p))).
  { rewrite Hperm. apply Forall_fmap. eapply Forall_impl; [exact Hfin |]. intros mac [? _]. by apply u32_small. }
  assert (Hk : (1 <= length kept)%nat) by (destruct kept; [done | simpl; lia]).
  assert (Hlen : length (ranking kept (pm_ID p)) = length kept)
    by (rewrite ranking_perm; unfold machineIDs; by rewrite length_fmap).
  assert (Hlen' : length (ranking machines (pm_ID p)) = length machines)
    by (rewrite ranking_perm; unfold machineIDs; by rewrite length_fmap).
  unfold place_one in Hp. unfold p', place_one. rewrite pref_of_ranking in Hp |- *.
  set (R := ranking machines (pm_ID p)) in *. rewrite Hrank in Hlen |- *.
  destruct (pref_count_pos r (length kept) Hr Hk) as (k & -> & _).
  assert (Hm : (1 <= length machines)%nat) by (pose proof (length_filter (fun mac => mc_ID mac <> id) machines) as Hf; fold kept in Hf; lia).
  destruct (pref_count_pos r (length machines) Hr Hm) as (k' & Ek' & Hk'). rewrite Ek' in Hp.
  assert (Hno : forall n, id ∉ u32 <$> take n (filter (fun x => x <> id) R)).
  { intros n (x & Ex & Hx%elem_of_take)%list_elem_of_fmap. destruct Hx as (i & Hx & _).
    apply list_elem_of_lookup_2, list_elem_of_filter in Hx as [Hx HR].
    rewrite Forall_forall in Hfit. rewrite Hfit in Ex by done. by subst. }
  destruct R as [|x tl]; [simpl in Hlen'; lia |]. cbn [take] in Hp.
  apply Forall_cons in Hfit as [Hx Hfit]. apply NoDup_cons in Hnd' as [Hxtl _].
  rewrite filter_cons in Hlen, Hno |- *. destruct (decide (x <> id)) as [Hxid | Hxid].
  - cbn [take] in *. cbn [set_placement pm_Health pm_Primary pm_Replicas].
    assert (Epx : pm_Primary p = x) by (by rewrite <- Hp).
    split_and!; [done | done | | by intros _ | by intros E; rewrite Epx in E].
    intros Hin. apply (Hno (S k)). by right.
  - apply dec_stable in Hxid. subst x.
    rewrite (filter_all (fun x => x <> id)) in Hlen, Hno |- * by (apply Forall_forall; intros y Hy ->; done).
    destruct tl as [|y tl]; [simpl in Hlen; lia |]. cbn [take] in *.
    cbn [set_placement pm_Health pm_Primary pm_Replicas].
    apply Forall_cons in Hfit as [Hy _].
    assert (Hyid : y <> id) by (intros ->; apply Hxtl; left).
    assert (Epx : pm_Primary p = id) by (by rewrite <- Hp).
    split_and!; [done | done | | by intros E; rewrite Epx in E |].
    + intros Hin. apply (Hno (S k)). by right.
    + intros _. destruct k' as [|k'']; [simpl in Hlen'; lia |]. cbn [take fmap list_fmap] in Hp.
      rewrite Hy in Hp. exists (u32 <$> take k'' tl). rewrite <- Hp at 1. done.
Qed.
End Facts.

(** ** Properties *)

Lemma shape_row m i p : shape_ok m -> m_Partitions m !! i = Some p -> pm_ID p = Z.of_nat i.
Proof.
  intros (_ & _ & Hids) Hp. apply (f_equal (.!! i)) in Hids. rewrite !list_lookup_fmap, Hp in Hids.
  rewrite lookup_seq_lt in Hids by (by eapply lookup_lt_Some). cbn in Hids. by injection Hids.
Qed.

Lemma filter_ext_in {A} (P Q : A -> Prop) `{forall x, Decision (P x), forall x, Decision (Q x)} (l : list A) :
  (forall x, x ∈ l -> P x <-> Q x) -> filter P l = filter Q l.
Proof.
  induction l as [|x l IH]; intros HPQ; [done |]. rewrite !filter_cons.
  pose proof (HPQ x (list_elem_of_here _ _)) as Hx. rewrite IH by (intros y Hy; apply HPQ; by right).
  repeat case_decide; tauto || done.
Qed.

Lemma placed_row `{GoSort} c p :
  placed c -> c_machines c <> [] -> 0 < m_Replicas (c_m c) -> p ∈ m_Partitions (c_m c) ->
  place_one (c_machines c) (m_Replicas (c_m c)) p = p.
Proof.
  unfold placed, replace. intros Hp Hne Hr [i Hi]%list_elem_of_lookup. cbn in Hp.
  destruct (c_machines c) as [|mac l]; [done |]. cbn [length Nat.eqb orb] in Hp.
  rewrite (proj2 (Z.leb_gt _ _)) in Hp by done. apply (f_equal (.!! i)) in Hp.
  rewrite list_lookup_fmap, Hi in Hp. by injection Hp.
Qed.

Lemma fail_rows `{GoSort} c kept :
  kept <> [] -> 0 < m_Replicas (c_m c) ->
  m_Partitions (c_m (bump (replace (set_machines c kept)))) = place_one kept (m_Replicas (c_m c)) <$> m_Partitions (c_m c).
Proof.
  intros Hne Hr. unfold replace. cbn. destruct kept; [done |]. cbn [length Nat.eqb orb].
  by rewrite (proj2 (Z.leb_gt _ _)).
Qed.

(** C14: whatever sequence of map changes, heartbeats and fail-overs a plane has taken, its
    rows are the partitions 0 to n-1, placed where rendezvous ranking puts them; every host
    that is not pinned is owned by a partition with a row; and the epoch never goes
    back: an operation leaves it or adds one, and adds one whenever it changes the map,
    except that setting the machines or the replica count re-places the partitions and
    leaves it, against the comment that every change moves the epoch. *)
Theorem control_keeps_map `{GoSort} (HS : GoSortLaws) (ops : list control_op) (op : control_op)
    (Hlen : Z.of_nat (length ops) < max_buckets - 1) :
  let c := control_run ops in let c' := control_step c op in
  pm_ID <$> m_Partitions (c_m c) = Z.of_nat <$> seq 0 (Z.to_nat (NumPartitions c)) /\
  m_Partitions (c_m (replace c)) = m_Partitions (c_m c) /\
  (forall hostKey, fits 64 hostKey -> m_Overrides (FetchMap c) !! hostKey = None ->
     Owner (FetchMap c) hostKey ∈ pm_ID <$> m_Partitions (c_m c)) /\
  1 <= Epoch c <= 1 + Z.of_nat (length ops) /\
  (Epoch c' = Epoch c + 1 \/ Epoch c' = Epoch c /\ (placement_op op = true \/ c_m c' = c_m c)).
Proof.
  intros c c'. destruct (control_run_ok ops Hlen) as ([Hs Hp] & Hn & He). fold c in Hs, Hp, Hn, He.
  destruct Hs as (Hs1 & Hs2 & Hs3). unfold max_buckets in Hlen. split_and!; [| exact Hp | | exact (proj1 He) | exact (proj2 He) |].
  - unfold NumPartitions. by rewrite Hs2, Nat2Z.id.
  - intros hk Hf. unfold FetchMap. rewrite Clone_same. intros Hpin. unfold Owner. rewrite Hpin.
    pose proof (jumpHash_range hk (m_NumPartitions (c_m c)) Hf) as Hj. unfold max_buckets in Hj.
    rewrite u32_small by (unfold fits; lia). rewrite Hs3. apply list_elem_of_fmap.
    exists (Z.to_nat (jumpHash hk (m_NumPartitions (c_m c)))). split; [lia |]. apply elem_of_seq. lia.
  - unfold Epoch. destruct (control_step_epoch c op) as [E | E]; [left | by right].
    unfold c'. rewrite E, u64_small; [done | unfold fits; lia].
Qed.

(** C15: when a machine of a fleet of distinct machines, of finite weights, is lost, replicas are configured,
    another machine is left, and losing it does not change whether the fleet is ranked
    by weight, fail-over moves exactly the partitions it was primary for, each to the
    first replica that partition had; no row names the machine any more, no other primary
    moves, health is untouched, the ids of the moved partitions are returned, and the epoch
    rises by one. *)
Theorem fail_over_promotes_replicas `{GoSort} (HS : GoSortLaws) (ops : list control_op) (id : MachineID)
    (Hlen : Z.of_nat (length ops) < max_buckets - 1)
    (Hfleet : fleet_ok (c_machines (control_run ops))) (Hrep : 0 < m_Replicas (c_m (control_run ops)))
    (Hin : id ∈ machineIDs (c_machines (control_run ops)))
    (Hother : exists other, other <> id /\ other ∈ machineIDs (c_machines (control_run ops)))
    (Hrank : weighted (filter (fun mac => mc_ID mac <> id) (c_machines (control_run ops))) =
             weighted (c_machines (control_run ops))) :
  let c := control_run ops in let '(c', promoted) := FailMachine c id in
  Epoch c' = Epoch c + 1 /\
  promoted = pm_ID <$> filter (fun p => pm_Primary p = id) (m_Partitions (c_m c)) /\
  Forall2 (fun p p' => pm_ID p' = pm_ID p /\ pm_Health p' = pm_Health p /\
      pm_Primary p' <> id /\ id ∉ pm_Replicas p' /\
      (pm_Primary p <> id -> pm_Primary p' = pm_Primary p) /\
      (pm_Primary p = id -> exists rest, pm_Replicas p = pm_Primary p' :: rest))
    (m_Partitions (c_m c)) (m_Partitions (c_m c')).
Proof.
  intros c. destruct (control_run_ok ops Hlen) as ([Hs Hp] & _ & He). fold c in Hs, Hp, He, Hfleet, Hrep, Hin, Hother, Hrank.
  unfold FailMachine. set (kept := filter (fun mac => mc_ID mac <> id) (c_machines c)) in *.
  assert (Hne : kept <> []).
  { destruct Hother as (o & Ho & (mac & -> & Hmac)%list_elem_of_fmap). intros E.
    assert (mac ∈ kept) as Hk by (by apply list_elem_of_filter). rewrite E in Hk. by apply not_elem_of_nil in Hk. }
  assert (Hlost : (length kept =? length (c_machines c))%nat = false).
  { apply Nat.eqb_neq. apply list_elem_of_fmap in Hin as (mac & -> & Hmac).
    pose proof (length_filter_lt (fun m => mc_ID m <> mc_ID mac) (c_machines c) mac Hmac) as Hlt.
    unfold kept. specialize (Hlt ltac:(by intros ?)). lia. }
  rewrite Hlost. cbv zeta.
  assert (Hmne : c_machines c <> []) by (intros E; unfold kept in Hne; by rewrite E in Hne).
  rewrite (fail_rows c kept Hne Hrep).
  assert (Hrow : forall p, p ∈ m_Partitions (c_m c) -> _)
    by exact (fun p Hp' => place_without (c_machines c) _ id p Hfleet Hrep Hrank Hne (placed_row c p Hp Hmne Hrep Hp')).
  assert (Hid : forall p, pm_ID (place_one kept (m_Replicas (c_m c)) p) = pm_ID p)
    by (intros p; unfold place_one; by case_match).
  split_and!.
  - unfold Epoch. cbn. rewrite u64_small; [done |]. unfold fits, max_buckets in *. lia.
  - rewrite filter_fmap_comm, <- list_fmap_compose.
    assert (Hnd : NoDup (pm_ID <$> m_Partitions (c_m c))).
    { destruct Hs as (_ & _ & ->). apply NoDup_fmap_2; [apply _ | apply NoDup_seq]. }
    rewrite (filter_ext_in _ (fun p => pm_Primary p = id)).
    + apply list_fmap_ext. intros i p _. apply Hid.
    + intros p Hp'. rewrite Hid, (old_lookup _ ∅ p Hnd Hp'). simpl.
      destruct (Hrow p Hp') as (_ & H1 & _ & H2 & H3). split; [| by intros <-].
      intros Hmv. destruct (decide (pm_Primary p = id)); [done | by apply H2 in n].
  - apply Forall2_fmap_r, Forall_Forall2_diag, Forall_forall. intros p Hp'. split; [apply Hid |].
    by apply Hrow.
Qed.

Definition fleet_example : list Machine :=
  [mkMachine 1 (f64_of_int 1) [97]; mkMachine 2 (f64_of_int 1) [98]; mkMachine 3 (f64_of_int 1) [99]].
Definition ops_example : list control_op :=
  [OpAdd [120]; OpAdd [121]; OpAdd [122]; OpAdd [122]; OpSetReplicas 1; OpSetMachines fleet_example].

Lemma control_keeps_map_witness :
  let c := @control_run stable_sort ops_example in
  Owner (FetchMap c) 9 ∈ pm_ID <$> m_Partitions (c_m c) /\ NumPartitions c = 5.
Proof.
  split; [| vm_compute; reflexivity].
  destruct (@control_keeps_map stable_sort stable_sort_laws ops_example OpRemove) as (_ & _ & Ho & _).
  - vm_compute. reflexivity.
  - apply Ho; [split; reflexivity || discriminate |]. vm_compute. reflexivity.
Defined.

Lemma fleet_example_ok : fleet_ok fleet_example.
Proof.
  split.
  - unfold machineIDs. cbn. repeat (constructor; [rewrite ?elem_of_cons, ?elem_of_nil; lia |]). constructor.
  - repeat constructor; try (vm_compute; congruence); by vm_compute.
Qed.

Lemma fail_over_promotes_replicas_witness :
  (@FailMachine stable_sort (@control_run stable_sort ops_example) 3).2 = [2; 3].
Proof.
  pose proof (@fail_over_promotes_replicas stable_sort stable_sort_laws ops_example 3) as T.
  assert (E : c_machines (@control_run stable_sort ops_example) = fleet_example) by (vm_compute; reflexivity).
  cbv zeta in T. rewrite E in T.
  destruct (@FailMachine stable_sort (@control_run stable_sort ops_example) 3) as [c' promoted].
  destruct T as (_ & T & _).
  - vm_compute. reflexivity.
  - exact fleet_example_ok.
  - vm_compute. reflexivity.
  - unfold machineIDs. cbn. rewrite !elem_of_cons. lia.
  - exists 1. split; [lia |]. unfold machineIDs. cbn. rewrite !elem_of_cons. lia.
  - vm_compute. reflexivity.
  - cbn [snd]. rewrite T. vm_compute. reflexivity.
Defined.

(** ** Where the plane falls short

    Concrete runs, on the insertion sort. *)

Definition mixed_fleet : list Machine :=
  [mkMachine 1 (S754_zero false) [97]; mkMachine 2 (S754_zero false) [98]; mkMachine 3 (f64_of_int 2) [99]].

(** Five runs in which the plane does not do what it is described to do. Setting the
    machines moves the address a partition is reached at without raising the epoch, so no
    router learns of it. A heartbeat makes a draining partition alive again. A partition
    number used again inherits the misses of its predecessor, and fails at its first miss.
    A pin survives the removal of its partition, and its host is owned by nobody. Losing
    the only weighted machine changes how the fleet is ranked, and promotes a machine
    that held no copy of the partition. *)
Theorem control_plane_gaps :
  let run := @control_run stable_sort in
  let rows ops := m_Partitions (c_m (run ops)) in
  (let before := [OpAdd [120]; OpSetReplicas 1] in let after := before ++ [OpSetMachines fleet_example] in
   Epoch (run after) = Epoch (run before) /\
   pm_Address <$> rows before = [[]; [120]] /\ pm_Address <$> rows after = [[98]; [97]]) /\
  pm_Health <$> rows [OpSetHealth 0 Draining; OpBeat 0] = [Alive] /\
  (let reused := [OpAdd []; OpMiss 1; OpMiss 1; OpRemove; OpAdd []] in
   pm_Health <$> rows (reused ++ [OpMiss 1]) = [Alive; Failed] /\
   pm_Health <$> rows ([OpAdd []; OpMiss 1]) = [Alive; Degraded]) /\
  (let pinned := [OpAdd []; OpPin 7 1; OpRemove] in
   Owner (FetchMap (run pinned)) 7 = 1 /\ pm_ID <$> rows pinned = [0]) /\
  (let placed := [OpSetReplicas 1; OpSetMachines mixed_fleet] in
   (fun p => (pm_Primary p, pm_Replicas p)) <$> rows placed = [(3, [1])] /\
   (fun p => (pm_Primary p, pm_Replicas p)) <$> rows (placed ++ [OpFail 3]) = [(2, [1])]).
Proof. repeat split; vm_compute; reflexivity. Qed.
