(* ===== verification/Elastic.v ===== *)
(** * The elasticity loop (distribute/elasticity.go)

    The loop that adds and removes partitions on the backlog. A tick reads the backlog of
    its source, which is an argument here (the control plane is one). Over any run the
    partition count stays in its band, every resize rests on a sustained breach of a
    water mark, and two resizes are a cooldown and a breach window apart. *)

From S2P Require Import Prelude Words GoSort Jump Control.
Open Scope Z_scope.

Record ElasticityConfig := mkElasticityConfig {
  HighWater : Z; LowWater : Z; MinPartitions : Z; MaxPartitions : Z; Breaches : Z; Cooldown : Z
}.

Record Elasticity := mkElasticity {
  e_cfg : ElasticityConfig; e_highStreak : Z; e_lowStreak : Z; e_cooldown : Z
}.

Inductive Scale := ScaleHold | ScaleUp | ScaleDown.
#[export] Instance Scale_eq_dec : EqDecision Scale.
Proof. solve_decision. Defined.

Definition NewElasticity (cfg : ElasticityConfig) : Elasticity :=
  let minp := if MinPartitions cfg <? 1 then 1 else MinPartitions cfg in
  let maxp := if MaxPartitions cfg <? minp then minp else MaxPartitions cfg in
  let breaches := if Breaches cfg <? 1 then 1 else Breaches cfg in
  let high := if HighWater cfg <? 1 then 1 else HighWater cfg in
  mkElasticity (mkElasticityConfig high (LowWater cfg) minp maxp breaches (Cooldown cfg)) 0 0 0.

Definition afterAction (e : Elasticity) : Elasticity := mkElasticity (e_cfg e) 0 0 (Cooldown (e_cfg e)).

Definition meanBacklog (b : list Z) : Z :=
  if (length b =? 0)%nat then 0
  else Z.quot (foldl (fun total v => i64 (total + v)) 0 b) (Z.of_nat (length b)).

(** The streaks after a load is read. *)
Definition count_load (e : Elasticity) (load : Z) : Elasticity :=
  let cfg := e_cfg e in
  if HighWater cfg <? load then mkElasticity cfg (e_highStreak e + 1) 0 (e_cooldown e)
  else if (0 <? LowWater cfg) && (load <? LowWater cfg) then mkElasticity cfg 0 (e_lowStreak e + 1) (e_cooldown e)
  else mkElasticity cfg 0 0 (e_cooldown e).

Section Loop.
Context `{GoSort}.

Definition Tick (e : Elasticity) (ctl : Control) (backlog : list Z) : Elasticity * Control * Scale :=
  if 0 <? e_cooldown e then (mkElasticity (e_cfg e) 0 0 (e_cooldown e - 1), ctl, ScaleHold)
  else
    let load := meanBacklog backlog in
    let n := NumPartitions ctl in
    let e := count_load e load in
    let cfg := e_cfg e in
    if (Breaches cfg <=? e_highStreak e) && (n <? MaxPartitions cfg) then
      (afterAction e, (AddPartition ctl []).1, ScaleUp)
    else if (Breaches cfg <=? e_lowStreak e) && (MinPartitions cfg <? n) then
      match RemovePartition ctl with
      | (ctl, Some _) => (afterAction e, ctl, ScaleDown)
      | (ctl, None) => (e, ctl, ScaleHold)
      end
    else (e, ctl, ScaleHold).

(** ** Runs: the mean load read at each tick and the decision taken, the last tick first *)

Definition tick_log (st : Elasticity * Control * list (Z * Scale)) (backlog : list Z)
    : Elasticity * Control * list (Z * Scale) :=
  let '(e, ctl, hist) := st in
  let '(e, ctl, d) := Tick e ctl backlog in
  (e, ctl, (meanBacklog backlog, d) :: hist).

Definition elastic_run (cfg : ElasticityConfig) (ctl : Control) (backlogs : list (list Z))
    : Elasticity * Control * list (Z * Scale) :=
  foldl tick_log (NewElasticity cfg, ctl, []) backlogs.

(** What a resize must rest on, given the ticks before it. *)
Definition rested (cfg : ElasticityConfig) (before : list (Z * Scale)) : Prop :=
  forall i x, before !! i = Some x -> x.2 <> ScaleHold -> Cooldown cfg + Breaches cfg <= Z.of_nat i + 1.

Definition breach (bad : Z -> Prop) (cfg : ElasticityConfig) (before : list (Z * Scale)) (load : Z) : Prop :=
  bad load /\ Breaches cfg - 1 <= Z.of_nat (length before) /\
  Forall (fun x => bad x.1 /\ x.2 = ScaleHold) (take (Z.to_nat (Breaches cfg - 1)) before).

Definition over (cfg : ElasticityConfig) (load : Z) : Prop := HighWater cfg < load.
Definition under (cfg : ElasticityConfig) (load : Z) : Prop := 0 < LowWater cfg /\ load < LowWater cfg.

Definition justified (cfg : ElasticityConfig) (before : list (Z * Scale)) (x : Z * Scale) : Prop :=
  match x.2 with
  | ScaleHold => True
  | ScaleUp => rested cfg before /\ breach (over cfg) cfg before x.1
  | ScaleDown => rested cfg before /\ breach (under cfg) cfg before x.1
  end.

Definition count_of (d : Scale) (hist : list (Z * Scale)) : Z :=
  Z.of_nat (length (filter (fun x => x.2 = d) hist)).

(** *** The invariant of the loop *)

Record streaks_ok (cfg : ElasticityConfig) (hist : list (Z * Scale)) (e : Elasticity) : Prop := {
  so_cfg : e_cfg e = cfg;
  so_cool : 0 <= e_cooldown e;
  so_high : 0 <= e_highStreak e <= Z.of_nat (length hist) /\
    Forall (fun x => over cfg x.1 /\ x.2 = ScaleHold) (take (Z.to_nat (e_highStreak e)) hist);
  so_low : 0 <= e_lowStreak e <= Z.of_nat (length hist) /\
    Forall (fun x => under cfg x.1 /\ x.2 = ScaleHold) (take (Z.to_nat (e_lowStreak e)) hist);
  so_quiet : forall i x, hist !! i = Some x -> x.2 <> ScaleHold ->
    Cooldown cfg - e_cooldown e + Z.max (e_highStreak e) (e_lowStreak e) <= Z.of_nat i
}.

Lemma streak_grow (bad : Z -> Prop) hist k load :
  bad load -> 0 <= k ->
  Forall (fun x : Z * Scale => bad x.1 /\ x.2 = ScaleHold) (take (Z.to_nat k) hist) ->
  Forall (fun x => bad x.1 /\ x.2 = ScaleHold) (take (Z.to_nat (k + 1)) ((load, ScaleHold) :: hist)).
Proof using Type.
  intros Hb Hk Hf. replace (Z.to_nat (k + 1)) with (S (Z.to_nat k)) by lia. cbn [take]. by constructor.
Qed.

(** A tick that reads a load and holds. *)
Lemma count_load_ok cfg hist e load :
  streaks_ok cfg hist e -> e_cooldown e = 0 ->
  streaks_ok cfg ((load, ScaleHold) :: hist) (count_load e load).
Proof using Type.
  intros [Ec Hc [Hh1 Hh2] [Hl1 Hl2] Hq] H0. unfold count_load. rewrite Ec.
  destruct (Z.ltb_spec (HighWater cfg) load) as [Hov | Hov];
    [| destruct ((0 <? LowWater cfg) && (load <? LowWater cfg)) eqn:Eu; bool_prop];
    split; cbn [e_cfg e_cooldown e_highStreak e_lowStreak length]; try done; try lia.
  1, 3: split; [lia |]; apply streak_grow; [done | lia | done].
  all: intros [|i] x Hx Hd; [by injection Hx as <- |]; specialize (Hq i x Hx Hd); lia.
Qed.

(** A streak of [Breaches] loads, the last one included, justifies a resize. *)
Lemma streak_breach (bad : Z -> Prop) cfg hist k load :
  1 <= Breaches cfg -> Breaches cfg <= k -> k <= Z.of_nat (S (length hist)) ->
  Forall (fun x : Z * Scale => bad x.1 /\ x.2 = ScaleHold) (take (Z.to_nat k) ((load, ScaleHold) :: hist)) ->
  breach bad cfg hist load.
Proof using Type.
  intros Hb Hk Hl Hf. replace (Z.to_nat k) with (S (Z.to_nat (k - 1))) in Hf by lia.
  cbn [take] in Hf. apply Forall_cons in Hf as [[H1 _] Hf]. split; [done |]. split; [lia |].
  replace (take (Z.to_nat (Breaches cfg - 1)) hist)
    with (take (Z.to_nat (Breaches cfg - 1)) (take (Z.to_nat (k - 1)) hist)) by (rewrite take_take; f_equal; lia).
  by apply Forall_take.
Qed.

Lemma streak_rested cfg hist e load :
  streaks_ok cfg hist e -> e_cooldown e = 0 ->
  Breaches cfg <= Z.max (e_highStreak (count_load e load)) (e_lowStreak (count_load e load)) ->
  rested cfg hist.
Proof using Type.
  intros Hs H0 Hb i x Hi Hx. destruct (count_load_ok cfg hist e load Hs H0) as [_ _ _ _ Hq].
  specialize (Hq (S i) x Hi Hx).
  assert (Ec : e_cooldown (count_load e load) = 0) by (unfold count_load; repeat case_match; done).
  rewrite Ec in Hq. lia.
Qed.

Lemma afterAction_ok cfg hist e x :
  e_cfg e = cfg -> 0 <= Cooldown cfg -> streaks_ok cfg (x :: hist) (afterAction e).
Proof using Type.
  intros Ec Hc. split; cbn; rewrite ?Ec; try done. intros i y _ _. lia.
Qed.

(** The partition count, and what a resize does to it. *)
Definition band_ok (cfg : ElasticityConfig) (ctl : Control) : Prop :=
  1 <= MinPartitions cfg <= NumPartitions ctl /\ NumPartitions ctl <= MaxPartitions cfg < 2 ^ 62.

Definition size_change (d : Scale) : Z :=
  match d with ScaleHold => 0 | ScaleUp => 1 | ScaleDown => -1 end.

Lemma Tick_ok cfg e ctl hist b :
  1 <= Breaches cfg -> 0 <= Cooldown cfg -> streaks_ok cfg hist e -> band_ok cfg ctl ->
  let '(e', ctl', d) := Tick e ctl b in
  let x := (meanBacklog b, d) in
  streaks_ok cfg (x :: hist) e' /\ band_ok cfg ctl' /\ justified cfg hist x /\
  NumPartitions ctl' = NumPartitions ctl + size_change d.
Proof using Type.
  intros Hb Hcd Hs Hband. unfold Tick. destruct (Z.ltb_spec 0 (e_cooldown e)) as [Hc | Hc].
  { destruct Hs as [Ec Hc0 [Hh _] [Hl _] Hq].
    split_and!; [split; cbn; try done; try lia | done | done | cbn; lia].
    intros [|i] x Hx Hd; [by injection Hx as <- |]. specialize (Hq i x Hx Hd). lia. }
  assert (H0 : e_cooldown e = 0) by (destruct Hs; lia).
  pose proof (count_load_ok cfg hist e (meanBacklog b) Hs H0) as Hs1.
  pose proof (streak_rested cfg hist e (meanBacklog b) Hs H0) as Hr.
  set (e1 := count_load e (meanBacklog b)) in *. cbv zeta.
  rewrite (so_cfg _ _ _ Hs1). pose proof Hband as [[Hm1 Hm2] [Hm3 Hm4]].
  pose proof Hs1 as [_ _ [Hh1 Hh2] [Hl1 Hl2] _].
  destruct (_ && _) eqn:Eup; bool_prop.
  - unfold AddPartition. cbn [fst]. unfold justified, band_ok, NumPartitions in *. cbn.
    rewrite i64_small by lia.
    split_and!; [apply afterAction_ok; [apply Hs1 | done] | lia .. | apply Hr; lia | | lia].
    apply (streak_breach (over cfg) cfg hist (e_highStreak e1)); [done | done | apply Hh1 | done].
  - clear Eup. destruct (_ && _) eqn:Edn; bool_prop; [| split_and!; try done; cbn; lia].
    unfold RemovePartition. unfold NumPartitions in *. rewrite (proj2 (Z.leb_gt _ _)) by lia. cbv zeta.
    unfold justified, band_ok, NumPartitions. cbn.
    split_and!; [apply afterAction_ok; [apply Hs1 | done] | lia .. | apply Hr; lia | | lia].
    apply (streak_breach (under cfg) cfg hist (e_lowStreak e1)); [done | done | apply Hl1 | done].
Qed.
End Loop.

(** ** Properties *)

(** C20: over any run of the loop the partition count stays between MinPartitions and
    MaxPartitions and moves by one at each resize and not otherwise; a partition is added
    only on the last of [Breaches] ticks in a row, none of which resized, whose mean backlog
    was above the high water mark, and removed only on one of as many below the low one;
    and between two resizes there are at least [Cooldown + Breaches] ticks. *)
Theorem elastic_loop_is_damped `{GoSort} (raw : ElasticityConfig) (ctl : Control) (backlogs : list (list Z))
    (Hcd : 0 <= Cooldown raw) (Hband : band_ok (e_cfg (NewElasticity raw)) ctl) :
  let cfg := e_cfg (NewElasticity raw) in
  let '(_, ctl', hist) := elastic_run raw ctl backlogs in
  MinPartitions cfg <= NumPartitions ctl' <= MaxPartitions cfg /\
  NumPartitions ctl' = NumPartitions ctl + count_of ScaleUp hist - count_of ScaleDown hist /\
  forall later x before, hist = later ++ x :: before -> justified cfg before x.
Proof.
  intros cfg. assert (Hb : 1 <= Breaches cfg) by (unfold cfg; cbn; case_match; bool_prop; lia).
  assert (Hcfg : Cooldown cfg = Cooldown raw) by done. rewrite <- Hcfg in Hcd. clear Hcfg.
  fold cfg in Hband.
  assert (Hinv : let '(e, ctl', hist) := elastic_run raw ctl backlogs in
    streaks_ok cfg hist e /\ band_ok cfg ctl' /\
    NumPartitions ctl' = NumPartitions ctl + count_of ScaleUp hist - count_of ScaleDown hist /\
    forall later x before, hist = later ++ x :: before -> justified cfg before x).
  { unfold elastic_run. induction backlogs as [|b backlogs IH] using rev_ind.
    { cbn. split_and!; [split; cbn; try done; try lia; split; try lia; constructor | apply Hband .. | |].
      - unfold count_of. cbn. lia.
      - intros [|] ? ? E; discriminate E. }
    rewrite foldl_snoc. destruct (foldl tick_log _ backlogs) as [[e ctl1] hist].
    destruct IH as (Hs & Hbd & Hn & Hj). cbn [tick_log].
    pose proof (Tick_ok cfg e ctl1 hist b Hb Hcd Hs Hbd) as Ht.
    destruct (Tick e ctl1 b) as [[e' ctl'] d]. destruct Ht as (Hs' & Hbd' & Hjx & Hn').
    split_and!; [exact Hs' | apply Hbd' .. | |].
    - rewrite Hn', Hn. unfold count_of. rewrite !filter_cons. cbn [snd].
      destruct d; repeat case_decide; try done; cbn [length size_change]; lia.
    - intros [|y later] x before E; [by injection E as <- <- |].
      injection E as _ E. by eapply Hj. }
  destruct (elastic_run raw ctl backlogs) as [[e ctl'] hist].
  destruct Hinv as (_ & [[_ ?] [? _]] & Hn & Hj). done.
Qed.

Definition elastic_example : ElasticityConfig := mkElasticityConfig 10 3 1 4 2 3.

Lemma elastic_loop_is_damped_witness :
  let '(_, ctl, hist) := @elastic_run stable_sort elastic_example NewControl
    [[40]; [40]; [40]; [40]; [40]; [40]; [40]; [1]; [1]; [1]; [1]; [1]; [1]] in
  NumPartitions ctl <= 4 /\
  snd <$> rev hist = [ScaleHold; ScaleUp; ScaleHold; ScaleHold; ScaleHold; ScaleHold; ScaleUp;
    ScaleHold; ScaleHold; ScaleHold; ScaleHold; ScaleDown; ScaleHold].
Proof.
  pose proof (@elastic_loop_is_damped stable_sort elastic_example NewControl
    [[40]; [40]; [40]; [40]; [40]; [40]; [40]; [1]; [1]; [1]; [1]; [1]; [1]]) as T.
  cbv zeta in T. destruct (elastic_run _ _ _) as [[e ctl] hist] eqn:E.
  destruct T as ([_ T] & _).
  - vm_compute. discriminate.
  - repeat split; vm_compute; congruence.
  - split; [exact T |]. vm_compute in E. injection E as _ _ <-. vm_compute. reflexivity.
Defined.
