(* ===== verification/Dns.v ===== *)
(** * The resolver cache (dns/dns.go)

    Positive and negative entries behind one lock, refreshed by a pool of workers that a
    bounded queue feeds. Each operation is split at its lock and channel operations; the
    goroutines that are between two of them are tasks, and a run interleaves them freely.
    The lookups of the network are arguments. *)

From S2P Require Import Prelude.
Open Scope Z_scope.

(** Durations and instants in nanoseconds. *)
Definition Second : Z := 1000000000.
Definition DefaultTTL : Z := 5 * 60 * Second.
Definition defaultWorkers : Z := 16.
Definition defaultMinTTL : Z := 60 * Second.
Definition defaultMaxTTL : Z := 24 * 3600 * Second.
Definition defaultNegativeTTL : Z := 5 * 60 * Second.
Definition queue_cap : nat := 1024.

Abbreviation host := (list Z).
Abbreviation ip := (list Z).

(** ** Configuration *)

Record config := mkConfig { workers : Z; minTTL : Z; maxTTL : Z; negativeTTL : Z }.

Definition Option : Type := config -> config.
Definition WithWorkers (n : Z) : Option := fun c =>
  if 1 <=? n then mkConfig n (minTTL c) (maxTTL c) (negativeTTL c) else c.
Definition WithMinTTL (d : Z) : Option := fun c =>
  if 0 <? d then mkConfig (workers c) d (maxTTL c) (negativeTTL c) else c.
Definition WithMaxTTL (d : Z) : Option := fun c =>
  if 0 <? d then mkConfig (workers c) (minTTL c) d (negativeTTL c) else c.
Definition WithNegativeTTL (d : Z) : Option := fun c =>
  if 0 <? d then mkConfig (workers c) (minTTL c) (maxTTL c) d else c.

(** The configuration part of [NewCache]. *)
Definition new_config (opts : list Option) : config :=
  let c := foldl (fun c o => o c) (mkConfig defaultWorkers defaultMinTTL defaultMaxTTL defaultNegativeTTL) opts in
  if maxTTL c <? minTTL c then mkConfig (workers c) (minTTL c) (minTTL c) (negativeTTL c) else c.

Definition clamp (c : config) (ttl : Z) : Z :=
  if ttl <? minTTL c then minTTL c
  else if maxTTL c <? ttl then maxTTL c
  else ttl.

(** ** Addresses *)

(** net.IP.To16 *)
Definition To16 (a : list Z) : option (list Z) :=
  if (length a =? 4)%nat then Some (replicate 10 0 ++ [255; 255] ++ a)
  else if (length a =? 16)%nat then Some a
  else None.

Definition ipToArray (a : list Z) : ip :=
  match To16 a with Some v16 => v16 | None => replicate 16 0 end.

Definition arrayToIP (a : ip) : list Z := a.

(** What a resolver answers: an address with its lifetime, or an error. *)
Definition answer : Type := option (ip * Z).

(** SystemResolver.Resolve over the addresses that LookupIPAddr returned. *)
Definition system_Resolve (lookup : option (list (list Z))) : answer :=
  match lookup with
  | None => None
  | Some [] => None
  | Some (a :: _) => Some (ipToArray a, DefaultTTL)
  end.

(** ** The cache under its lock *)

Record entry := mkEntry { e_ip : ip; e_expiry : Z }.
Record negEntry := mkNeg { n_until : Z; n_failures : Z }.

Record Cache := mkCache {
  positive : gmap host entry; negative : gmap host negEntry; inflight : gset host
}.

Definition empty_cache : Cache := mkCache ∅ ∅ ∅.

Definition Lookup (c : Cache) (h : host) (now : Z) : option ip :=
  match positive c !! h with
  | None => None
  | Some e => if negb (now <? e_expiry e) then None else Some (e_ip e)
  end.

Definition Suppressed (c : Cache) (h : host) (now : Z) : bool :=
  match negative c !! h with None => false | Some n => now <? n_until n end.

Definition Failures (c : Cache) (h : host) : Z :=
  match negative c !! h with None => 0 | Some n => n_failures n end.

Record Stats := mkDnsStats { s_Positive : nat; s_Negative : nat; s_Pending : nat }.
Definition cache_Stats (c : Cache) : Stats := mkDnsStats (size (positive c)) (size (negative c)) (size (inflight c)).

Definition fresh_in (c : Cache) (h : host) (now : Z) : bool :=
  match positive c !! h with None => false | Some e => now <? e_expiry e end.

Definition skipLocked (c : Cache) (h : host) (now : Z) : bool :=
  if bool_decide (h ∈ inflight c) then true
  else if fresh_in c h now then true
  else Suppressed c h now.

Definition reserve (c : Cache) (h : host) : Cache := mkCache (positive c) (negative c) ({[h]} ∪ inflight c).
Definition release (c : Cache) (h : host) : Cache := mkCache (positive c) (negative c) (inflight c ∖ {[h]}).

(** The locked part of [resolveAndStore], on the answer [a] at [now]. *)
Definition store (cfg : config) (c : Cache) (h : host) (a : answer) (now : Z) : Cache * option ip :=
  let c := release c h in
  match a with
  | None =>
      let n := mkNeg (now + negativeTTL cfg) (Failures c h + 1) in
      (mkCache (positive c) (<[h := n]> (negative c)) (inflight c), None)
  | Some (rip, ttl) =>
      (mkCache (<[h := mkEntry rip (now + clamp cfg ttl)]> (positive c)) (delete h (negative c)) (inflight c), Some rip)
  end.

(** The locked part of [Resolve]: an answer from the cache, or none and the lookup goes on. *)
Definition resolve_cached (c : Cache) (h : host) (now : Z) : option (option ip) :=
  match positive c !! h with
  | Some e => if now <? e_expiry e then Some (Some (e_ip e))
              else if Suppressed c h now then Some None else None
  | None => if Suppressed c h now then Some None else None
  end.

(** ** The dial address

    net.SplitHostPort, net.JoinHostPort and net.IP.String are arguments. *)
Definition dialAddr (SplitHostPort : list Z -> option (host * list Z)) (JoinHostPort : list Z -> list Z -> list Z)
    (IPString : list Z -> list Z) (c : Cache) (addr : list Z) (now : Z) : list Z :=
  match SplitHostPort addr with
  | None => addr
  | Some (h, port) =>
      match Lookup c h now with
      | Some a => JoinHostPort (IPString (arrayToIP a)) port
      | None => addr
      end
  end.

(** ** Goroutines

    A task is a goroutine between two of its steps. In [Prefetch]: the host is reserved; it
    is counted as pending; the queue was full. In a worker: it resolves the host; it stored
    the answer. In [Resolve]: it resolves the host. *)
Inductive task :=
  | TReserved (h : host) | TCounted (h : host) | TFull (h : host)
  | TWorking (h : host) | TStored (h : host)
  | TSync (h : host).

Definition is_worker (t : task) : bool := match t with TWorking _ | TStored _ => true | _ => false end.

(** [pending] is the WaitGroup of queued work; [panicked] is set by a send on the closed
    channel, which ends the program. *)
Record world := mkWorld {
  w_cache : Cache; w_queue : list host; w_pending : Z; w_closed : bool; w_panicked : bool; w_tasks : list task
}.

Definition new_world : world := mkWorld empty_cache [] 0 false false [].

Definition busy_workers (ts : list task) : Z := Z.of_nat (length (filter (fun t => is_worker t = true) ts)).

(** An answer that was stored: the host, the answer and the instant. *)
Inductive event := ESilent | EStored (sync : bool) (h : host) (a : answer) (now : Z).

Inductive step (cfg : config) : world -> event -> world -> Prop :=
  | s_reserve c q p cl ts h now :
      h <> [] -> skipLocked c h now = false ->
      step cfg (mkWorld c q p cl false ts) ESilent (mkWorld (reserve c h) q p cl false (TReserved h :: ts))
  | s_count c q p cl ts1 ts2 h :
      step cfg (mkWorld c q p cl false (ts1 ++ TReserved h :: ts2)) ESilent
        (mkWorld c q (p + 1) cl false (ts1 ++ TCounted h :: ts2))
  | s_send c q p ts1 ts2 h :
      (length q < queue_cap)%nat ->
      step cfg (mkWorld c q p false false (ts1 ++ TCounted h :: ts2)) ESilent
        (mkWorld c (q ++ [h]) p false false (ts1 ++ ts2))
  | s_send_closed c q p ts1 ts2 h :
      step cfg (mkWorld c q p true false (ts1 ++ TCounted h :: ts2)) ESilent
        (mkWorld c q p true true (ts1 ++ TCounted h :: ts2))
  | s_full c q p ts1 ts2 h :
      (queue_cap <= length q)%nat ->
      step cfg (mkWorld c q p false false (ts1 ++ TCounted h :: ts2)) ESilent
        (mkWorld c q (p - 1) false false (ts1 ++ TFull h :: ts2))
  | s_unreserve c q p cl ts1 ts2 h :
      step cfg (mkWorld c q p cl false (ts1 ++ TFull h :: ts2)) ESilent
        (mkWorld (release c h) q p cl false (ts1 ++ ts2))
  | s_take c q p cl ts h :
      busy_workers ts < workers cfg ->
      step cfg (mkWorld c (h :: q) p cl false ts) ESilent (mkWorld c q p cl false (TWorking h :: ts))
  | s_work c q p cl ts1 ts2 h a now :
      step cfg (mkWorld c q p cl false (ts1 ++ TWorking h :: ts2)) (EStored false h a now)
        (mkWorld (store cfg c h a now).1 q p cl false (ts1 ++ TStored h :: ts2))
  | s_done c q p cl ts1 ts2 h :
      step cfg (mkWorld c q p cl false (ts1 ++ TStored h :: ts2)) ESilent
        (mkWorld c q (p - 1) cl false (ts1 ++ ts2))
  | s_sync c q p cl ts h now :
      resolve_cached c h now = None ->
      step cfg (mkWorld c q p cl false ts) ESilent (mkWorld c q p cl false (TSync h :: ts))
  | s_sync_store c q p cl ts1 ts2 h a now :
      step cfg (mkWorld c q p cl false (ts1 ++ TSync h :: ts2)) (EStored true h a now)
        (mkWorld (store cfg c h a now).1 q p cl false (ts1 ++ ts2))
  | s_close c q p ts cl :
      step cfg (mkWorld c q p cl false ts) ESilent (mkWorld c q p true false ts).

Inductive run (cfg : config) : list event -> world -> Prop :=
  | run_nil : run cfg [] new_world
  | run_snoc evs w e w' : run cfg evs w -> step cfg w e w' -> run cfg (evs ++ [e]) w'.

(** A whole call of [Prefetch] that no other goroutine interrupts. *)
Definition prefetch_host (w : world) (h : host) (now : Z) : world :=
  if bool_decide (h = []) then w
  else if skipLocked (w_cache w) h now then w
  else if w_closed w
  then mkWorld (reserve (w_cache w) h) (w_queue w) (w_pending w + 1) true true (TCounted h :: w_tasks w)
  else if (length (w_queue w) <? queue_cap)%nat
  then mkWorld (reserve (w_cache w) h) (w_queue w ++ [h]) (w_pending w + 1) false (w_panicked w) (w_tasks w)
  else mkWorld (release (reserve (w_cache w) h) h) (w_queue w) (w_pending w + 1 - 1) false (w_panicked w) (w_tasks w).

Fixpoint Prefetch (w : world) (hosts : list host) (now : Z) : world :=
  match hosts with
  | [] => w
  | h :: hosts => if w_panicked w then w else Prefetch (prefetch_host w h now) hosts now
  end.

(** [Wait] returns when the count is zero. *)
Definition Wait_returns (w : world) : bool := w_pending w =? 0.

(** ** The answers a cache was given *)

Definition stored_for (h : host) (e : event) : list (answer * Z) :=
  match e with EStored _ h' a now => if decide (h' = h) then [(a, now)] else [] | ESilent => [] end.
Definition answers (h : host) (evs : list event) : list (answer * Z) := mjoin (stored_for h <$> evs).

Definition failed (x : answer * Z) : Prop := x.1 = None.

(** What one answer makes of the entries of its host. *)
Definition pos_next (cfg : config) (acc : option entry) (x : answer * Z) : option entry :=
  match x.1 with Some (rip, ttl) => Some (mkEntry rip (x.2 + clamp cfg ttl)) | None => acc end.
Definition neg_next (cfg : config) (acc : option negEntry) (x : answer * Z) : option negEntry :=
  match x.1 with
  | None => Some (mkNeg (x.2 + negativeTTL cfg) (match acc with Some n => n_failures n | None => 0 end + 1))
  | Some _ => None
  end.

Definition cache_of (cfg : config) (c : Cache) (log : host -> list (answer * Z)) : Prop :=
  forall h, positive c !! h = foldl (pos_next cfg) None (log h) /\ negative c !! h = foldl (neg_next cfg) None (log h).

Lemma answers_snoc h evs e : answers h (evs ++ [e]) = answers h evs ++ stored_for h e.
Proof. unfold answers. rewrite fmap_app, join_app. cbn. by rewrite app_nil_r. Qed.

Lemma store_of cfg c h a now sync evs : cache_of cfg c (fun k => answers k evs) ->
  cache_of cfg (store cfg c h a now).1 (fun k => answers k (evs ++ [EStored sync h a now])).
Proof.
  intros Hc k. destruct (Hc k) as [Hp Hn]. rewrite answers_snoc, !foldl_app, <- Hp, <- Hn. cbn [stored_for].
  destruct (decide (h = k)) as [<- | Hne]; destruct a as [[rip ttl] |]; cbn.
  - by rewrite lookup_insert_eq, lookup_delete_eq.
  - rewrite lookup_insert_eq. done.
  - by rewrite lookup_insert_ne, lookup_delete_ne.
  - by rewrite lookup_insert_ne.
Qed.

Lemma run_cache cfg evs w : run cfg evs w -> cache_of cfg (w_cache w) (fun k => answers k evs).
Proof.
  induction 1 as [| evs w e w' _ IH Hs]; [done |].
  destruct Hs; cbn [w_cache] in *; try (by apply store_of); intros k; rewrite answers_snoc; cbn [stored_for];
    rewrite app_nil_r; apply IH.
Qed.

(** The positive entry is the last success; the negative one counts the failures since. *)
Lemma pos_spec cfg log e : foldl (pos_next cfg) None log = Some e <->
  exists l1 a ttl t l2, log = l1 ++ (Some (a, ttl), t) :: l2 /\ Forall failed l2 /\ e = mkEntry a (t + clamp cfg ttl).
Proof.
  induction log as [|[x t] log IH] using rev_ind.
  { split; [done |]. intros (l1 & a & ttl & t & l2 & E & _). by destruct l1. }
  rewrite foldl_app. cbn. destruct x as [[a ttl] |]; cbn.
  - split.
    + intros [= <-]. exists log, a, ttl, t, []. split; [done |]. split; [by apply Forall_nil | done].
    + intros (l1 & a' & ttl' & t' & l2 & E & Hf & ->). destruct l2 as [| y l2 _] using rev_ind.
      * apply app_inj_tail in E as [_ [= -> -> ->]]. done.
      * rewrite app_comm_cons, app_assoc in E. apply app_inj_tail in E as [_ <-].
        apply Forall_app in Hf as [_ Hf]. inversion Hf as [| ?? Hx]. done.
  - rewrite IH. split.
    + intros (l1 & a & ttl & t' & l2 & -> & Hf & ->). exists l1, a, ttl, t', (l2 ++ [(None, t)]).
      split; [by rewrite <- app_assoc |]. split; [| done]. apply Forall_app. split; [done |]. by constructor.
    + intros (l1 & a & ttl & t' & l2 & E & Hf & ->). destruct l2 as [| y l2 _] using rev_ind.
      * apply app_inj_tail in E as [_ ?]. done.
      * rewrite app_comm_cons, app_assoc in E. apply app_inj_tail in E as [-> _]. apply Forall_app in Hf as [Hf _].
        by exists l1, a, ttl, t', l2.
Qed.

Lemma neg_spec cfg log :
  exists l1 l2, log = l1 ++ l2 /\ Forall failed l2 /\ (forall x, last l1 = Some x -> ~ failed x) /\
    foldl (neg_next cfg) None log =
    match last l2 with Some x => Some (mkNeg (x.2 + negativeTTL cfg) (Z.of_nat (length l2))) | None => None end.
Proof.
  induction log as [|[x t] log IH] using rev_ind.
  { exists [], []. split; [done |]. split; [by apply Forall_nil |]. done. }
  destruct IH as (l1 & l2 & -> & Hf & Hl & E). rewrite foldl_app. cbn [foldl]. rewrite E. destruct x as [[a ttl] |]; cbn.
  - exists ((l1 ++ l2) ++ [(Some (a, ttl), t)]), []. split; [by rewrite app_nil_r |]. split; [by apply Forall_nil |].
    split; [| done]. intros y. rewrite last_snoc. by intros [= <-].
  - exists l1, (l2 ++ [(None, t)]). split; [by rewrite app_assoc |].
    split; [apply Forall_app; split; [done | by constructor] |]. split; [done |].
    rewrite last_snoc, length_app. cbn. f_equal. f_equal.
    destruct (last l2) as [y |] eqn:Ey; cbn; [lia |]. apply last_None in Ey as ->. done.
Qed.

(** ** The hosts in flight *)

Definition in_flight (t : task) : list host :=
  match t with TReserved h | TCounted h | TFull h | TWorking h => [h] | TStored _ | TSync _ => [] end.
Definition flight (w : world) : list host := w_queue w ++ mjoin (in_flight <$> w_tasks w).

Definition counted (t : task) : Prop := match t with TCounted _ | TWorking _ | TStored _ => True | _ => False end.
#[export] Instance counted_dec t : Decision (counted t).
Proof. destruct t; apply _. Defined.

Definition occ (h : host) (l : list host) : nat := length (filter (fun x => x = h) l).

Lemma occ_app h l k : occ h (l ++ k) = (occ h l + occ h k)%nat.
Proof. unfold occ. by rewrite filter_app, length_app. Qed.

Lemma occ_one h k : occ h [k] = if decide (k = h) then 1%nat else 0%nat.
Proof. unfold occ. cbn. by destruct (decide (k = h)). Qed.

Lemma occ_NoDup l : (forall h, (occ h l <= 1)%nat) -> NoDup l.
Proof.
  induction l as [|k l IH]; intros Hl; constructor.
  - intros Hin. specialize (Hl k). change (k :: l) with ([k] ++ l) in Hl. rewrite occ_app, occ_one, decide_True in Hl by done.
    assert (Hz : k ∈ filter (fun x => x = k) l) by by apply list_elem_of_filter.
    unfold occ in Hl. destruct (filter _ l); [by apply elem_of_nil in Hz | cbn in Hl; lia].
  - apply IH. intros h. specialize (Hl h). change (k :: l) with ([k] ++ l) in Hl. rewrite occ_app in Hl. lia.
Qed.

Lemma tasks_app ts1 ts2 : mjoin (in_flight <$> ts1 ++ ts2) = mjoin (in_flight <$> ts1) ++ mjoin (in_flight <$> ts2).
Proof. rewrite fmap_app. apply join_app. Qed.

Lemma tasks_cons t ts : mjoin (in_flight <$> t :: ts) = in_flight t ++ mjoin (in_flight <$> ts).
Proof. done. Qed.

(** Each host in flight is reserved, once. *)
Definition flight_ok (w : world) : Prop :=
  forall h, occ h (flight w) = if decide (h ∈ inflight (w_cache w)) then 1%nat else 0%nat.

Definition by_worker (e : event) : Prop := match e with EStored true _ _ _ => False | _ => True end.

Lemma store_inflight cfg c h a now : inflight (store cfg c h a now).1 = inflight c ∖ {[h]}.
Proof. unfold store, release. by destruct a as [[??]|]. Qed.

Lemma release_occ (c : Cache) h k n : (if decide (k ∈ inflight c) then 1%nat else 0%nat) = (n + occ k [h])%nat ->
  n = if decide (k ∈ inflight c ∖ {[h]}) then 1%nat else 0%nat.
Proof.
  rewrite occ_one. intros E. destruct (decide (k ∈ inflight c ∖ {[h]})) as [Hin | Hout].
  - rewrite elem_of_difference, elem_of_singleton in Hin. destruct Hin as [Hin Hne].
    rewrite decide_True, decide_False in E by (done || congruence). lia.
  - destruct (decide (h = k)) as [<- | Hne]; [destruct (decide _); lia |].
    rewrite decide_False in E; [lia |]. intros Hin. apply Hout. rewrite elem_of_difference, elem_of_singleton. split; [done |].
    congruence.
Qed.

Lemma step_flight cfg w e w' : step cfg w e w' -> by_worker e -> flight_ok w -> flight_ok w'.
Proof.
  intros Hs He Hw h. specialize (Hw h). unfold flight in *.
  destruct Hs; cbn [w_cache w_queue w_tasks] in *;
    repeat (rewrite ?tasks_app, ?tasks_cons, ?occ_app in Hw; cbn [in_flight] in Hw);
    repeat (rewrite ?tasks_app, ?tasks_cons, ?occ_app; cbn [in_flight]);
    change (@occ h []) with 0%nat in *; try (rewrite <- Hw; lia).
  - unfold skipLocked in H0. case_bool_decide as Hin; [done |]. cbn [reserve inflight]. rewrite occ_one.
    destruct (decide (h0 = h)) as [-> | Hne].
    + rewrite decide_False in Hw by done. rewrite decide_True by set_solver. lia.
    + rewrite Nat.add_assoc, (Nat.add_comm (occ h q)), <- Nat.add_assoc, Hw. cbn.
      destruct (decide (h ∈ inflight c)); [rewrite decide_True | rewrite decide_False]; set_solver.
  - cbn [release inflight]. apply (release_occ c h0). rewrite <- Hw. lia.
  - change (h0 :: q) with ([h0] ++ q) in Hw. rewrite occ_app in Hw. rewrite <- Hw. lia.
  - rewrite store_inflight. apply (release_occ c h0). rewrite <- Hw. lia.
  - done.
Qed.

(** The bookkeeping that holds in every run. *)
Definition counted_ok (cfg : config) (w : world) : Prop :=
  w_pending w = Z.of_nat (length (w_queue w)) + Z.of_nat (length (filter counted (w_tasks w))) /\
  (length (w_queue w) <= queue_cap)%nat /\ (0 <= workers cfg -> busy_workers (w_tasks w) <= workers cfg).

Lemma step_counted cfg w e w' : step cfg w e w' -> counted_ok cfg w -> counted_ok cfg w'.
Proof.
  intros Hs (Hp & Hq & Hb).
  destruct Hs; unfold counted_ok, busy_workers in *; cbn [w_cache w_queue w_tasks w_pending] in *;
    rewrite ?filter_app, ?filter_cons, ?length_app in *; cbn [counted is_worker] in *;
    repeat (first [rewrite decide_True in * by done | rewrite decide_False in * by (done || tauto)]);
    rewrite ?filter_app, ?length_app in *; cbn [length] in *; split_and!; try lia; intros; try lia.
Qed.

Lemma run_counted cfg evs w : run cfg evs w -> counted_ok cfg w.
Proof.
  induction 1 as [| evs w e w' _ IH Hs]; [| by eapply step_counted].
  unfold counted_ok, busy_workers. cbn. split_and!; lia.
Qed.

Lemma run_flight cfg evs w : run cfg evs w -> Forall by_worker evs -> flight_ok w.
Proof.
  induction 1 as [| evs w e w' _ IH Hs]; intros He; [done |].
  apply Forall_app in He as [He He1]. apply (step_flight cfg w e); [done | by inversion He1 | by apply IH].
Qed.

Lemma run_silent cfg evs w w' : run cfg evs w -> step cfg w ESilent w' -> run cfg (evs ++ [ESilent]) w'.
Proof. apply run_snoc. Qed.

(** [Prefetch] run alone is steps of the machine. *)
Lemma prefetch_host_runs cfg evs w h now : run cfg evs w -> w_panicked w = false ->
  exists n, run cfg (evs ++ replicate n ESilent) (prefetch_host w h now).
Proof.
  intros Hr Hp. destruct w as [c q p cl pn ts]. cbn in Hp. subst pn. unfold prefetch_host.
  cbn [w_cache w_queue w_pending w_closed w_panicked w_tasks].
  case_bool_decide as Hh; [exists 0%nat; by rewrite app_nil_r |].
  destruct (skipLocked c h now) eqn:Es; [exists 0%nat; by rewrite app_nil_r |].
  pose proof (run_silent _ _ _ _ Hr (s_reserve cfg c q p cl ts h now Hh Es)) as H1.
  pose proof (run_silent _ _ _ _ H1 (s_count cfg (reserve c h) q p cl [] ts h)) as H2. cbn [app] in H2.
  destruct cl.
  - pose proof (run_silent _ _ _ _ H2 (s_send_closed cfg (reserve c h) q (p + 1) [] ts h)) as H3.
    exists 3%nat. by rewrite <- !app_assoc in H3.
  - destruct (Nat.ltb_spec (length q) queue_cap) as [Hq | Hq].
    + pose proof (run_silent _ _ _ _ H2 (s_send cfg (reserve c h) q (p + 1) [] ts h Hq)) as H3.
      exists 3%nat. by rewrite <- !app_assoc in H3.
    + pose proof (run_silent _ _ _ _ H2 (s_full cfg (reserve c h) q (p + 1) [] ts h Hq)) as H3. cbn [app] in H3.
      pose proof (run_silent _ _ _ _ H3 (s_unreserve cfg (reserve c h) q (p + 1 - 1) false [] ts h)) as H4.
      exists 4%nat. by rewrite <- !app_assoc in H4.
Qed.

Lemma prefetch_runs cfg evs w hosts now : run cfg evs w ->
  exists n, run cfg (evs ++ replicate n ESilent) (Prefetch w hosts now).
Proof.
  revert evs w. induction hosts as [|h hosts IH]; intros evs w Hr; [exists 0%nat; by rewrite app_nil_r |].
  cbn [Prefetch]. destruct (w_panicked w) eqn:Ep; [exists 0%nat; by rewrite app_nil_r |].
  destruct (prefetch_host_runs cfg evs w h now Hr Ep) as [n Hn]. destruct (IH _ _ Hn) as [m Hm].
  exists (n + m)%nat. by rewrite replicate_add, app_assoc.
Qed.

Lemma clamp_bounds cfg ttl : minTTL cfg <= maxTTL cfg -> minTTL cfg <= clamp cfg ttl <= maxTTL cfg.
Proof.
  intros Hc. unfold clamp. destruct (Z.ltb_spec ttl (minTTL cfg)); [lia |]. destruct (Z.ltb_spec (maxTTL cfg) ttl); lia.
Qed.

(** Whatever the options, the floor of a lifetime is not above its cap. *)
Lemma new_config_bounds opts : minTTL (new_config opts) <= maxTTL (new_config opts).
Proof.
  unfold new_config. set (c := foldl _ _ _). destruct (Z.ltb_spec (maxTTL c) (minTTL c)); cbn; lia.
Qed.

(** ** Properties *)

(** C22: The cache reports the answers it was given. In every interleaving of prefetches,
    workers, synchronous resolves and closing, a lookup answers an address exactly when it is
    the last successful answer for the host and its lifetime, clamped to the configured
    bounds, has not passed; and the failure count is the number of failures since, with the
    host suppressed for the negative lifetime after the last of them. The count does not
    return to zero when the suppression lapses, as the comment on Failures has it: only a
    success resets it. *)
Theorem dns_cache_reports_answers (opts : list Option) (evs : list event) (w : world) (Hr : run (new_config opts) evs w) :
  let cfg := new_config opts in
  forall h now,
    (forall a, Lookup (w_cache w) h now = Some a <->
       exists l1 ttl t l2, answers h evs = l1 ++ (Some (a, ttl), t) :: l2 /\ Forall failed l2 /\ now < t + clamp cfg ttl) /\
    (forall ttl, minTTL cfg <= clamp cfg ttl <= maxTTL cfg) /\
    exists l1 l2, answers h evs = l1 ++ l2 /\ Forall failed l2 /\ (forall x, last l1 = Some x -> ~ failed x) /\
      Failures (w_cache w) h = Z.of_nat (length l2) /\
      (Suppressed (w_cache w) h now = true <-> exists x, last l2 = Some x /\ now < x.2 + negativeTTL cfg).
Proof.
  cbv zeta. set (cfg := new_config opts) in *. intros h now. destruct (run_cache cfg evs w Hr h) as [Hp Hn]. split; [| split].
  - intros a. unfold Lookup. rewrite Hp. split.
    + destruct (foldl (pos_next cfg) None (answers h evs)) as [e |] eqn:E; [| done].
      apply pos_spec in E as (l1 & a' & ttl & t & l2 & E & Hf & ->). cbn. destruct (Z.ltb_spec now (t + clamp cfg ttl)); [| done].
      intros [= <-]. by exists l1, ttl, t, l2.
    + intros (l1 & ttl & t & l2 & E & Hf & Hlt).
      rewrite (proj2 (pos_spec cfg (answers h evs) (mkEntry a (t + clamp cfg ttl)))); [| by exists l1, a, ttl, t, l2].
      cbn. by rewrite (proj2 (Z.ltb_lt _ _) Hlt).
  - intros ttl. apply clamp_bounds, new_config_bounds.
  - destruct (neg_spec cfg (answers h evs)) as (l1 & l2 & E & Hf & Hl & En). exists l1, l2. split; [done |]. split; [done |].
    split; [done |]. unfold Failures, Suppressed. rewrite Hn, En. destruct (last l2) as [x |] eqn:Ex; cbn.
    + split; [done |]. rewrite Z.ltb_lt. split; [intros ?; by exists x | by intros (y & [= <-] & ?)].
    + apply last_None in Ex as ->. split; [done |]. split; [done | by intros (y & ? & _)].
Qed.

(** C23: The pool's bookkeeping. In every run the count [Wait] waits on is the queued hosts and
    those counted or with a worker, the queue stays in its bound and no more workers are busy
    than configured; in every run without a synchronous lookup a host is in flight at most once,
    between its reservation and the answer or the release, and the reserved hosts are exactly
    those in flight; and a [Prefetch] that nothing interrupts is such a run. *)
Theorem dns_prefetch_once (cfg : config) (evs : list event) (w : world) (Hr : run cfg evs w) :
  (w_pending w = Z.of_nat (length (w_queue w)) + Z.of_nat (length (filter counted (w_tasks w))) /\
   (length (w_queue w) <= queue_cap)%nat /\ (0 <= workers cfg -> busy_workers (w_tasks w) <= workers cfg)) /\
  (Forall by_worker evs -> NoDup (flight w) /\ forall h, h ∈ inflight (w_cache w) <-> h ∈ flight w) /\
  (forall hosts now, exists n, run cfg (evs ++ replicate n ESilent) (Prefetch w hosts now)).
Proof.
  split; [by apply (run_counted cfg evs) |]. split; [| intros; by apply prefetch_runs].
  intros He. pose proof (run_flight cfg evs w Hr He) as Hf. split.
  - apply occ_NoDup. intros h. rewrite Hf. destruct (decide _); lia.
  - intros h. specialize (Hf h). split; intros Hin.
    + rewrite decide_True in Hf by done. unfold occ in Hf. destruct (filter _ (flight w)) as [|x l] eqn:Ex; [done |].
      assert (Hx : x ∈ filter (fun x => x = h) (flight w)) by (rewrite Ex; by left).
      apply list_elem_of_filter in Hx as [-> ?]. done.
    + destruct (decide (h ∈ inflight (w_cache w))); [done |]. unfold occ in Hf.
      assert (Hz : h ∈ filter (fun x => x = h) (flight w)) by by apply list_elem_of_filter.
      destruct (filter _ _); [by apply elem_of_nil in Hz | done].
Qed.

(** ** Concrete runs *)

Definition host_a : host := [97].
Definition ip_a : ip := replicate 15 0 ++ [7].

Definition default_config : config := new_config [].

(** [host_a] is queued. *)
Definition queued : world := mkWorld (reserve empty_cache host_a) [host_a] 1 false false [].

Lemma queued_run : run default_config (replicate 3 ESilent) queued.
Proof.
  pose proof (run_silent _ _ _ _ (run_nil default_config)
    (s_reserve default_config empty_cache [] 0 false [] host_a 0 ltac:(discriminate) ltac:(vm_compute; reflexivity))) as H1.
  pose proof (run_silent _ _ _ _ H1 (s_count default_config (reserve empty_cache host_a) [] 0 false [] [] host_a)) as H2.
  exact (run_silent _ _ _ _ H2 (s_send default_config (reserve empty_cache host_a) [] 1 [] [] host_a ltac:(unfold queue_cap; cbn; lia))).
Qed.

(** A worker resolved it for 90 seconds. *)
Definition resolved : world :=
  mkWorld (store default_config (reserve empty_cache host_a) host_a (Some (ip_a, 90 * Second)) 0).1 [] 1 false false [TStored host_a].
Definition resolved_events : list event := replicate 4 ESilent ++ [EStored false host_a (Some (ip_a, 90 * Second)) 0].

Lemma resolved_run : run default_config resolved_events resolved.
Proof.
  pose proof (run_silent _ _ _ _ queued_run (s_take default_config (reserve empty_cache host_a) [] 1 false [] host_a ltac:(reflexivity))) as H1.
  exact (run_snoc _ _ _ _ _ H1 (s_work default_config (reserve empty_cache host_a) [] 1 false [] [] host_a (Some (ip_a, 90 * Second)) 0)).
Qed.

Lemma dns_cache_reports_answers_witness :
  Lookup (w_cache resolved) host_a (89 * Second) = Some ip_a /\ Lookup (w_cache resolved) host_a (90 * Second) <> Some ip_a.
Proof.
  split.
  - apply (dns_cache_reports_answers [] resolved_events resolved resolved_run host_a (89 * Second)).
    exists [], (90 * Second), 0, []. split; [vm_compute; reflexivity |]. split; [apply Forall_nil; exact I |].
    vm_compute. reflexivity.
  - vm_compute. discriminate.
Defined.

Lemma dns_prefetch_once_witness :
  w_pending resolved = 1 /\ NoDup (flight resolved).
Proof.
  destruct (dns_prefetch_once default_config resolved_events resolved resolved_run) as ((Hp & _) & Hf & _).
  split; [exact Hp |]. apply Hf. repeat (apply Forall_cons; split; [exact I |]). apply Forall_nil. exact I.
Defined.

(** A synchronous resolve drops the reservation of a host that is still queued, so once its
    answer has expired a prefetch queues it a second time. *)
Theorem sync_resolve_drops_reservation :
  exists evs w, run default_config evs w /\ w_queue w = [host_a; host_a].
Proof.
  pose proof (run_silent _ _ _ _ queued_run (s_sync default_config (reserve empty_cache host_a) [host_a] 1 false [] host_a 0
    ltac:(vm_compute; reflexivity))) as H1.
  pose proof (run_snoc _ _ _ _ _ H1 (s_sync_store default_config (reserve empty_cache host_a) [host_a] 1 false [] [] host_a
    (Some (ip_a, 60 * Second)) 0)) as H2.
  set (c := (store default_config (reserve empty_cache host_a) host_a (Some (ip_a, 60 * Second)) 0).1) in *.
  pose proof (run_silent _ _ _ _ H2 (s_reserve default_config c [host_a] 1 false [] host_a (61 * Second)
    ltac:(discriminate) ltac:(vm_compute; reflexivity))) as H3.
  pose proof (run_silent _ _ _ _ H3 (s_count default_config (reserve c host_a) [host_a] 1 false [] [] host_a)) as H4.
  pose proof (run_silent _ _ _ _ H4 (s_send default_config (reserve c host_a) [host_a] 2 [] [] host_a
    ltac:(unfold queue_cap; cbn; lia))) as H5.
  eexists _, _. split; [exact H5 | reflexivity].
Qed.
