(* ===== verification/Handoff.v ===== *)
(** * Moving hosts between partitions (distribute/rebalance.go, handoff.go)

    Which hosts a partition no longer owns under a new map, their slices, and the safe
    move: a slice is shipped first and dropped only on an acknowledgement that matches it.
    The transport is an interface over a state of the world; what it promises is that a
    matching acknowledgement means the destination durably holds the bytes. *)

From S2P Require Import Prelude Words Model Rbuf Page File Arena Ops Extract Jump.
Open Scope Z_scope.

Definition SliceChecksum (slice : list Z) : Z := crc32c slice.

Record MoveAck := mkAck { ack_Dest : PartitionID; ack_Epoch : Z; ack_Checksum : Z; ack_Committed : bool }.

Definition acked (ack : MoveAck) (dest : PartitionID) (epoch sum : Z) : bool :=
  negb (negb (ack_Committed ack) || negb (ack_Dest ack =? dest) || negb (ack_Epoch ack =? epoch) ||
        negb (ack_Checksum ack =? sum)).

(** [None] is a transport error. *)
Class MoveTransport (W : Type) := {
  Ship : W -> PartitionID -> list Z -> Z -> Z -> W * option MoveAck;
  holds : W -> PartitionID -> list Z -> Prop
}.
Class MoveTransportLaws (W : Type) `{MoveTransport W} := {
  ship_holds w dest slice epoch sum w' ack :
    Ship w dest slice epoch sum = (w', Some ack) -> acked ack dest epoch sum = true -> holds w' dest slice;
  ship_keeps w dest slice epoch sum d s : holds w d s -> holds (Ship w dest slice epoch sum).1 d s
}.

(** ** Which hosts move *)

Definition MovingHosts (hosts : list HostRecord) (self : PartitionID) (nm : PMap) : list Z :=
  h_HostKey <$> filter (fun h => Owner nm (h_HostKey h) <> self) hosts.

(** The moving hosts grouped by their new owner. *)
Definition add_moving (self : PartitionID) (nm : PMap) (byDest : gmap PartitionID (gset Z)) (h : HostRecord)
    : gmap PartitionID (gset Z) :=
  let hk := h_HostKey h in
  let owner := Owner nm hk in
  if owner =? self then byDest else <[owner := {[hk]} ∪ default ∅ (byDest !! owner)]> byDest.

Definition group_moving (src : Partition) (self : PartitionID) (nm : PMap) : gmap PartitionID (gset Z) :=
  foldl (add_moving self nm) ∅ (p_Hosts src).

Definition with_id (p : Partition) (id : Z) : Partition :=
  mkPartition (u32 id) (p_HostKeyLo p) (p_HostKeyHi p) (p_CreatedHours p) (p_DefaultCodec p) (p_URLs p)
    (p_Hosts p) (p_Strings p) (p_SeenFilter p) (p_BuildSchedule p) (p_MaxPageRows p) (p_Meta p).

(** ** Redistribute: all the slices at once, in the order Go iterates the groups *)

Fixpoint slice_loop (byDest : gmap PartitionID (gset Z)) (order : list PartitionID)
    (ship : list (PartitionID * Partition)) (keep : Partition) : res (list (PartitionID * Partition) * Partition) :=
  match order with
  | [] => Ok (ship, keep)
  | dest :: order =>
      '(out, rest) ← Extract keep (default ∅ (byDest !! dest));
      slice_loop byDest order (ship ++ [(dest, with_id out dest)]) rest
  end.

Definition Redistribute (order : list PartitionID) (src : Partition) (self : PartitionID) (nm : PMap)
    : res (list (PartitionID * Partition) * Partition) :=
  '(ship, keep) ← slice_loop (group_moving src self nm) order [] src;
  Ok (ship, with_id keep self).

(** ** Handoff *)

Section Move.
Context `{BlockCodec} {W : Type} `{MoveTransport W}.

Fixpoint handoff_loop (byDest : gmap PartitionID (gset Z)) (epoch : Z) (dests : list PartitionID)
    (w : W) (keep : Partition) (moved : list PartitionID) : W * res (Partition * list PartitionID) :=
  match dests with
  | [] => (w, Ok (keep, moved))
  | dest :: dests =>
      match Extract keep (default ∅ (byDest !! dest)) with
      | Err e => (w, Err e)
      | Ok (out, rest) =>
          match Encode (with_id out dest) with
          | Err e => (w, Err e)
          | Ok blob =>
              let sum := SliceChecksum blob in
              match Ship w dest blob epoch sum with
              | (w, None) => handoff_loop byDest epoch dests w keep moved
              | (w, Some ack) =>
                  if acked ack dest epoch sum
                  then handoff_loop byDest epoch dests w rest (moved ++ [dest])
                  else handoff_loop byDest epoch dests w keep moved
              end
          end
      end
  end.

(** slices.Sort of the distinct keys of a map. *)
Definition sorted_dests (byDest : gmap PartitionID (gset Z)) : list PartitionID :=
  merge_sort Z.le (map_to_list byDest).*1.

Definition Handoff (src : Partition) (self : PartitionID) (nm : PMap) (epoch : Z) (w : W)
    : W * res (Partition * list PartitionID) :=
  let byDest := group_moving src self nm in
  let '(w, r) := handoff_loop byDest epoch (sorted_dests byDest) w src [] in
  (w, '(keep, moved) ← r; Ok (with_id keep self, moved)).
End Move.

(** ** Groups *)

Definition held (src : Partition) (k : Z) : Prop := k ∈ h_HostKey <$> p_Hosts src.

Lemma group_fold self nm hosts acc d k :
  k ∈ default ∅ (foldl (add_moving self nm) acc hosts !! d) <->
  k ∈ default ∅ (acc !! d) \/ (k ∈ h_HostKey <$> hosts /\ Owner nm k = d /\ d <> self).
Proof.
  revert acc. induction hosts as [|h hosts IH]; intros acc.
  { cbn. split; [by left |]. intros [? | [Hk _]]; [done | by apply not_elem_of_nil in Hk]. }
  cbn [foldl fmap list_fmap]. rewrite IH, elem_of_cons. unfold add_moving.
  destruct (Z.eqb_spec (Owner nm (h_HostKey h)) self) as [Es | Es].
  - intuition congruence.
  - destruct (decide (d = Owner nm (h_HostKey h))) as [-> | Hd].
    + rewrite lookup_insert_eq. cbn. rewrite elem_of_union, elem_of_singleton.
      assert (k = h_HostKey h -> Owner nm k = Owner nm (h_HostKey h)) by congruence. intuition congruence.
    + rewrite lookup_insert_ne by done. intuition congruence.
Qed.

Lemma group_spec src self nm d k :
  k ∈ default ∅ (group_moving src self nm !! d) <-> held src k /\ Owner nm k = d /\ d <> self.
Proof.
  unfold group_moving. rewrite group_fold, lookup_empty. cbn.
  split; [intros [Hk | ?]; [by apply not_elem_of_empty in Hk | done] | auto].
Qed.

Lemma group_keys self nm hosts acc d :
  is_Some (foldl (add_moving self nm) acc hosts !! d) <->
  is_Some (acc !! d) \/ exists k, k ∈ h_HostKey <$> hosts /\ Owner nm k = d /\ d <> self.
Proof.
  revert acc. induction hosts as [|h hosts IH]; intros acc; cbn [foldl fmap list_fmap].
  { split; [by left |]. intros [? | (k & Hk & _)]; [done | by apply not_elem_of_nil in Hk]. }
  rewrite IH. unfold add_moving. setoid_rewrite elem_of_cons.
  destruct (Z.eqb_spec (Owner nm (h_HostKey h)) self) as [Es | Es].
  - split; [intros [? | (k & ? & ? & ?)]; eauto 6 |].
    intros [? | (k & [-> | ?] & <- & ?)]; [by left | done | eauto 6].
  - destruct (decide (d = Owner nm (h_HostKey h))) as [-> | Hd].
    + rewrite lookup_insert_eq. split; [| by left; eexists]. intros _. right. eauto 6.
    + rewrite lookup_insert_ne by done. split; [intros [? | (k & ? & ? & ?)]; eauto 6 |].
      intros [? | (k & [-> | ?] & <- & ?)]; [by left | done | eauto 6].
Qed.

Lemma sorted_dests_spec src self nm :
  StronglySorted Z.lt (sorted_dests (group_moving src self nm)) /\
  forall d, d ∈ sorted_dests (group_moving src self nm) <-> d <> self /\ exists k, held src k /\ Owner nm k = d.
Proof.
  unfold sorted_dests. set (m := group_moving src self nm). split.
  - assert (Hs : StronglySorted Z.le (merge_sort Z.le (map_to_list m).*1))
      by (apply Sorted_StronglySorted; [apply _ | apply Sorted_merge_sort; apply _]).
    assert (Hn : NoDup (merge_sort Z.le (map_to_list m).*1))
      by (rewrite merge_sort_Permutation; apply NoDup_fst_map_to_list).
    induction Hs as [|x l Hs IH Hall]; [constructor |]. apply NoDup_cons in Hn as [Hx Hn].
    constructor; [by apply IH |]. rewrite Forall_forall in Hall |- *. intros y Hy.
    specialize (Hall y Hy). assert (x <> y) by by intros ->. lia.
  - intros d. rewrite merge_sort_Permutation.
    assert (Hk : d ∈ (map_to_list m).*1 <-> is_Some (m !! d)).
    { rewrite list_elem_of_fmap. split.
      - intros ([d' s] & -> & Hin%elem_of_map_to_list). by eexists.
      - intros [s Hs]. exists (d, s). split; [done |]. by apply elem_of_map_to_list. }
    rewrite Hk. unfold m, group_moving. rewrite group_keys, lookup_empty. split.
    + intros [[? [=]] | (k & ? & ? & ?)]. eauto.
    + intros (? & k & ? & ?). right. eauto.
Qed.

(** ** The slices of a move *)

Lemma with_id_cut p P `{forall k, Decision (P k)} q id : cut p P q -> cut p P (with_id q id).
Proof. by intros [? ? ?]. Qed.

(** What is not yet taken by the destinations [done]. *)
Definition still_here (src : Partition) (nm : PMap) (taken : list PartitionID) (k : Z) : Prop :=
  ~ (k ∈ h_HostKey <$> p_Hosts src /\ Owner nm k ∈ taken).
Definition goes_to (src : Partition) (nm : PMap) (d : PartitionID) (k : Z) : Prop :=
  k ∈ h_HostKey <$> p_Hosts src /\ Owner nm k = d.

#[export] Instance still_here_dec src nm taken k : Decision (still_here src nm taken k).
Proof. unfold still_here. apply _. Defined.
#[export] Instance goes_to_dec src nm d k : Decision (goes_to src nm d k).
Proof. unfold goes_to. apply _. Defined.

(** Cutting a destination's hosts from what is still here. *)
Lemma Extract_dest src self nm taken keep d :
  sliceable src -> cut src (still_here src nm taken) keep -> d ∉ taken -> d <> self ->
  exists out rest, Extract keep (default ∅ (group_moving src self nm !! d)) = Ok (out, rest) /\
    cut src (goes_to src nm d) out /\ cut src (still_here src nm (taken ++ [d])) rest.
Proof.
  intros Hs Hc Hd Hself.
  destruct (Extract_cut src _ keep (default ∅ (group_moving src self nm !! d)) Hs Hc)
    as (out & rest & E & Ho & Hr & _ & _).
  exists out, rest. split; [done |]. split; [refine (cut_ext _ _ _ _ _ Ho) | refine (cut_ext _ _ _ _ _ Hr)]; intros k; rewrite group_spec;
    unfold goes_to, still_here, held.
  - split; [by intros ((? & ? & ?) & _) |]. intros [Hk <-]. split; [done |]. by intros [_ ?].
  - rewrite elem_of_app, list_elem_of_singleton. split.
    + intros [H1 H2] [Hk [Ht | <-]]; [by apply H2 | by apply H1].
    + intros Hno. split; [intros (Hk & <- & _) | intros [Hk Ht]]; apply Hno; auto.
Qed.

(** ** The immediate redistribution *)

Lemma slice_loop_cuts src self nm order taken ship keep :
  sliceable src -> NoDup (taken ++ order) -> self ∉ order -> cut src (still_here src nm taken) keep ->
  exists ship' keep', slice_loop (group_moving src self nm) order ship keep = Ok (ship ++ ship', keep') /\
    ship'.*1 = order /\ cut src (still_here src nm (taken ++ order)) keep' /\
    Forall (fun x => cut src (goes_to src nm x.1) x.2 /\ p_ID x.2 = u32 x.1) ship'.
Proof.
  intros Hsl. revert taken ship keep. induction order as [|d order IH]; intros taken ship keep Hn Hself Hc.
  { exists [], keep. by rewrite !app_nil_r. }
  apply not_elem_of_cons in Hself as [Hds Hself].
  assert (Hd : d ∉ taken) by (apply NoDup_app in Hn as (_ & Hx & _); intros Hd; by apply (Hx d Hd); left).
  destruct (Extract_dest src self nm taken keep d Hsl Hc Hd ltac:(done)) as (out & rest & Ex & Ho & Hr).
  cbn [slice_loop]. rewrite Ex. cbn [mbind res_bind].
  destruct (IH (taken ++ [d]) (ship ++ [(d, with_id out d)]) rest) as (ship' & keep' & E & Ek & Hc' & Hs');
    [by rewrite <- app_assoc | done | done |].
  exists ((d, with_id out d) :: ship'), keep'. rewrite <- app_assoc in E, Hc'. split_and!; [done | | done |].
  - by rewrite fmap_cons, Ek.
  - constructor; [split; [by apply with_id_cut | done] | done].
Qed.

(** In whatever order Go ranges over the groups, redistribution succeeds: one slice for
    each new owner of a host the source holds, of exactly that owner's rows, and the
    source keeps exactly the rows it owns. *)
Theorem redistribute_partitions_rows src self nm order :
  sliceable src -> NoDup order -> (forall d, d ∈ order <-> d ∈ sorted_dests (group_moving src self nm)) ->
  exists ship keep, Redistribute order src self nm = Ok (ship, keep) /\ ship.*1 = order /\
    Forall (fun x => cut src (goes_to src nm x.1) x.2 /\ p_ID x.2 = u32 x.1) ship /\
    cut src (fun k => ~ (k ∈ h_HostKey <$> p_Hosts src /\ Owner nm k <> self)) keep /\ p_ID keep = u32 self.
Proof.
  intros Hsl Hn Hin. destruct (sorted_dests_spec src self nm) as [_ Hd].
  assert (Hself : self ∉ order) by (rewrite Hin, Hd; by intros [? _]).
  destruct (slice_loop_cuts src self nm order [] [] src Hsl Hn Hself) as (ship & keep & E & Ek & Hc & Hs).
  { apply cut_all; [done |]. intros k [_ Hk]. by apply not_elem_of_nil in Hk. }
  exists ship, (with_id keep self). unfold Redistribute. rewrite E. split_and!; try done.
  apply with_id_cut. refine (cut_ext _ _ _ _ _ Hc). intros k. unfold still_here, held. cbn [app].
  rewrite Hin, Hd. unfold held. split; intros Hno [Hk Ho]; apply Hno; (split; [done |]); [by eauto |]. by destruct Ho.
Qed.

Lemma StronglySorted_sublist {A} (R : A -> A -> Prop) l l' :
  l' `sublist_of` l -> StronglySorted R l -> StronglySorted R l'.
Proof.
  induction 1 as [|x l' l Hs IH|x l' l Hs IH]; intros Hl; [done | |];
    apply StronglySorted_inv in Hl as [Hl Hx]; [| by apply IH].
  constructor; [by apply IH |]. rewrite Forall_forall in Hx |- *. intros y Hy.
  apply Hx. by eapply elem_of_sublist.
Qed.

Section Safe.
Context `{BlockCodec} {W : Type} `{MoveTransportLaws W}.

(** The bytes a destination holds are its slice, stamped with its id. *)
Definition holds_slice (w : W) (src : Partition) (nm : PMap) (d : PartitionID) : Prop :=
  exists out blob, cut src (goes_to src nm d) out /\ p_ID out = u32 d /\ Encode out = Ok blob /\ holds w d blob.

Lemma handoff_loop_safe src self nm epoch dests w keep taken :
  sliceable src -> sortedURLs (p_URLs src) = true -> sortedHosts (p_Hosts src) = true ->
  StronglySorted Z.lt (taken ++ dests) -> self ∉ dests ->
  cut src (still_here src nm taken) keep -> Forall (holds_slice w src nm) taken ->
  exists w' kept moved, handoff_loop (group_moving src self nm) epoch dests w keep taken = (w', Ok (kept, taken ++ moved)) /\
    moved `sublist_of` dests /\ cut src (still_here src nm (taken ++ moved)) kept /\
    Forall (holds_slice w' src nm) (taken ++ moved).
Proof using H1.
  intros Hsl Su Sh. revert w keep taken. induction dests as [|d dests IH]; intros w keep taken Hsort Hself Hc Hheld.
  { exists w, keep, []. rewrite app_nil_r. done. }
  apply not_elem_of_cons in Hself as [Hds Hself].
  assert (Hd : d ∉ taken).
  { intros Hin. apply StronglySorted_app in Hsort as (Hlt & _ & _). specialize (Hlt d d Hin (list_elem_of_here _ _)). lia. }
  destruct (Extract_dest src self nm taken keep d Hsl Hc Hd ltac:(done)) as (out & rest & Ex & Ho & Hr).
  cbn [handoff_loop]. rewrite Ex.
  destruct (cut_sorted src _ out Ho Su Sh) as [Su' Sh'].
  destruct (Encode_sorted (with_id out d) Su' Sh') as [blob Eb]. rewrite Eb. cbv zeta.
  pose proof (ship_keeps w d blob epoch (SliceChecksum blob)) as Hk.
  pose proof (ship_holds w d blob epoch (SliceChecksum blob)) as Hh.
  destruct (Ship w d blob epoch (SliceChecksum blob)) as [w1 r] eqn:Es. cbn [fst] in Hk.
  assert (Hheld1 : Forall (holds_slice w1 src nm) taken).
  { eapply Forall_impl; [exact Hheld |]. intros d' (o & b & ? & ? & ? & ?). exists o, b. auto. }
  assert (Hsort' : StronglySorted Z.lt (taken ++ dests)).
  { eapply (StronglySorted_sublist _ (taken ++ d :: dests)); [| done].
    apply sublist_app; [done | by constructor]. }
  assert (Hstay : exists w' kept moved,
    handoff_loop (group_moving src self nm) epoch dests w1 keep taken = (w', Ok (kept, taken ++ moved)) /\
    moved `sublist_of` d :: dests /\ cut src (still_here src nm (taken ++ moved)) kept /\
    Forall (holds_slice w' src nm) (taken ++ moved)).
  { destruct (IH w1 keep taken Hsort' Hself Hc Hheld1) as (w' & kept & moved & E & Hm & ? & ?).
    exists w', kept, moved. split_and!; try done. by constructor. }
  destruct r as [ack |]; [| done]. destruct (acked ack d epoch (SliceChecksum blob)) eqn:Ea; [| done].
  destruct (IH w1 rest (taken ++ [d])) as (w' & kept & moved & E & Hm & ? & ?).
  - by rewrite <- app_assoc.
  - done.
  - done.
  - apply Forall_app. split; [done |]. apply Forall_singleton. exists (with_id out d), blob.
    split; [by apply with_id_cut |]. split; [done |]. split; [done |]. by eapply Hh.
  - exists w', kept, (d :: moved). rewrite <- app_assoc in E. rewrite <- app_assoc in *. split_and!; try done.
    by constructor.
Qed.

(** C12: no handoff loses a host. Whatever the transport answers, and however often it
    fails, the move succeeds; the destinations that took their slice are new owners of
    hosts the source holds, each once and never the source itself; each of them durably
    holds a file of exactly the rows of its hosts, naming the strings they named; and
    the source keeps every other row. *)
Theorem handoff_loses_no_host (src : Partition) (self : PartitionID) (nm : PMap) (epoch : Z) (w : W)
    (Hsl : sliceable src) (Hu : sortedURLs (p_URLs src) = true) (Hh : sortedHosts (p_Hosts src) = true) :
  exists w' kept moved, Handoff src self nm epoch w = (w', Ok (kept, moved)) /\
    p_ID kept = u32 self /\ StronglySorted Z.lt moved /\
    (forall d, d ∈ moved -> d <> self /\ exists k, held src k /\ Owner nm k = d) /\
    cut src (still_here src nm moved) kept /\ (forall d, d ∈ moved -> holds_slice w' src nm d) /\
    forall k, held src k ->
      k ∈ h_HostKey <$> p_Hosts kept \/
      exists d out blob, d = Owner nm k /\ Encode out = Ok blob /\ holds w' d blob /\
        k ∈ h_HostKey <$> p_Hosts out.
Proof using H1.
  destruct (sorted_dests_spec src self nm) as [Hs Hin].
  assert (Hself : self ∉ sorted_dests (group_moving src self nm)) by (rewrite Hin; by intros [? _]).
  assert (Hall : cut src (still_here src nm []) src).
  { apply cut_all; [done |]. intros k [_ Hk]. by apply not_elem_of_nil in Hk. }
  destruct (handoff_loop_safe src self nm epoch _ w src [] Hsl Hu Hh Hs Hself Hall (Forall_nil_2 _))
    as (w' & kept & moved & E & Hm & Hc & Hheld). cbn [app] in *.
  exists w', (with_id kept self), moved. unfold Handoff. cbv zeta.
  change (@nil PartitionID) with (@nil Z). rewrite E. rewrite Forall_forall in Hheld.
  assert (Hkeys : forall P (HP : forall k, Decision (P k)) q k, cut src P q -> held src k -> P k ->
    k ∈ h_HostKey <$> p_Hosts q).
  { intros P HP q k [_ Hq _] Hk HPk. apply list_elem_of_fmap in Hk as (h & -> & Hh').
    assert (Hf : h_HostKey <$> filter (fun h => P (h_HostKey h)) (p_Hosts src) = h_HostKey <$> p_Hosts q).
    { clear - Hq. induction Hq as [|r r' l l' [Er _] _ IH]; [done |]. rewrite !fmap_cons, IH. f_equal.
      rewrite Er. symmetry. apply host_key_set. }
    rewrite <- Hf. apply list_elem_of_fmap_2. by apply list_elem_of_filter. }
  split_and!; [done | done | by eapply (StronglySorted_sublist _ _ moved Hm) | | by apply with_id_cut | done |].
  - intros d Hd. apply Hin. by eapply elem_of_sublist.
  - intros k Hk. destruct (decide (Owner nm k ∈ moved)) as [Ho | Ho].
    + right. destruct (Hheld _ Ho) as (out & blob & Hcut & _ & Eb & Hb). exists (Owner nm k), out, blob.
      split_and!; [done | done | done |]. by eapply (Hkeys _ _ out k Hcut Hk).
    + left. apply (Hkeys _ _ kept k Hc Hk). by intros [_ ?].
Qed.
End Safe.

(** ** A move of two hosts, one of which the transport refuses *)

#[local] Instance stored_codec : BlockCodec := {| zstd_enc s := s; zstd_dec s _ := Ok s |}.

Definition shelf : Type := list (PartitionID * list Z).
#[local] Instance shelf_transport : MoveTransport shelf := {|
  Ship w dest slice epoch sum :=
    if dest =? 2 then (w, None) else ((dest, slice) :: w, Some (mkAck dest epoch sum true));
  holds w dest slice := (dest, slice) ∈ w
|}.
#[local] Instance shelf_transport_laws : MoveTransportLaws shelf.
Proof.
  split; cbn; intros w dest slice epoch sum.
  - intros w' ack. destruct (dest =? 2); [done |]. intros [= <- <-] _. apply list_elem_of_here.
  - intros d s Hin. destruct (dest =? 2); [done |]. by apply list_elem_of_further.
Defined.

Definition moving_map : PMap := mkPMap 3 3 {[ 1 := 1; 2 := 2 ]} [] 0 [].

Lemma handoff_loses_no_host_witness :
  exists w' kept, Handoff ops_example 0 moving_map 3 ([] : shelf) = (w', Ok (kept, [1])) /\
    (h_HostKey <$> p_Hosts kept) = [2] /\ holds_slice w' ops_example moving_map 1.
Proof.
  destruct (handoff_loses_no_host ops_example 0 moving_map 3 ([] : shelf)
    (conj ops_example_readable ops_example_fits) ltac:(vm_compute; reflexivity)
    ltac:(vm_compute; reflexivity)) as (w' & kept & moved & E & _ & _ & _ & _ & Hheld & _).
  assert (Ev : exists w' kept, Handoff ops_example 0 moving_map 3 ([] : shelf) = (w', Ok (kept, [1])) /\
    (h_HostKey <$> p_Hosts kept) = [2]) by (eexists _, _; split; vm_compute; reflexivity).
  destruct Ev as (w0 & kept0 & Ev & Ek). rewrite Ev in E. injection E as -> -> <-.
  exists w', kept. split; [exact Ev |]. split; [exact Ek |]. apply Hheld. apply list_elem_of_here.
Defined.
