(* ===== verification/Replica.v ===== *)
(** * A partition's standby copy (distribute/replicate.go)

    A snapshot, then the tail of the log streamed onto it. A replica that was sent every
    entry up to the highest one it applied, in whatever batches and however often, holds
    what the log says; promotion sorts its tables and puts the fetches in flight back. *)

From S2P Require Import Prelude Words Model Updates GoSort Page File Arena Ops Extract.
Open Scope Z_scope.

Inductive TailKind := TailPutURL | TailPutHost | TailDelURL | TailDelHost.

Record TailEntry := mkTail {
  te_LSN : Z; te_Kind : TailKind; te_URL : URLRecord; te_Host : HostRecord; te_URLKey : URLKey; te_HostKey : Z
}.

(** The builders leave the fields the kind does not use zero. *)
Definition zero_url : URLRecord :=
  mkURL (mkKey 0 0) 0 StatusDiscovered 0 0 0 0 0 0 0 0 0 0 0 0 0 0 0 0 0 0 0 0.
Definition zero_host : HostRecord := mkHost 0 0 0 0 (replicate 16 0) 0 0 0 0 0 0 0 0 0 0 0 0 0 0 0.
Definition tail_PutURL (lsn : Z) (rec : URLRecord) : TailEntry := mkTail lsn TailPutURL rec zero_host (mkKey 0 0) 0.
Definition tail_PutHost (lsn : Z) (rec : HostRecord) : TailEntry := mkTail lsn TailPutHost zero_url rec (mkKey 0 0) 0.
Definition tail_DelURL (lsn : Z) (key : URLKey) : TailEntry := mkTail lsn TailDelURL zero_url zero_host key 0.
Definition tail_DelHost (lsn : Z) (hostKey : Z) : TailEntry := mkTail lsn TailDelHost zero_url zero_host (mkKey 0 0) hostKey.

Record Replica := mkReplica {
  rp_id : Z; rp_created : Z; rp_codec : Z;
  rp_urls : gmap URLKey URLRecord; rp_hosts : gmap Z HostRecord; rp_strings : list Z;
  rp_applied : Z; rp_base : Z
}.

Definition NewReplica (snap : Partition) (snapLSN : Z) : Replica :=
  mkReplica (p_ID snap) (p_CreatedHours snap) (p_DefaultCodec snap)
    (foldl (fun m u => <[r_URLKey u := u]> m) ∅ (p_URLs snap))
    (foldl (fun m h => <[h_HostKey h := h]> m) ∅ (p_Hosts snap)) (p_Strings snap) snapLSN snapLSN.

Definition with_tables (r : Replica) (urls : gmap URLKey URLRecord) (hosts : gmap Z HostRecord) (applied : Z) : Replica :=
  mkReplica (rp_id r) (rp_created r) (rp_codec r) urls hosts (rp_strings r) applied (rp_base r).

Definition Apply (r : Replica) (e : TailEntry) : Replica :=
  if te_LSN e <=? rp_applied r then r
  else match te_Kind e with
  | TailPutURL => with_tables r (<[r_URLKey (te_URL e) := te_URL e]> (rp_urls r)) (rp_hosts r) (te_LSN e)
  | TailPutHost => with_tables r (rp_urls r) (<[h_HostKey (te_Host e) := te_Host e]> (rp_hosts r)) (te_LSN e)
  | TailDelURL => with_tables r (delete (te_URLKey e) (rp_urls r)) (rp_hosts r) (te_LSN e)
  | TailDelHost => with_tables r (rp_urls r) (delete (te_HostKey e) (rp_hosts r)) (te_LSN e)
  end.

Definition byLSN (a b : TailEntry) : bool := te_LSN a <? te_LSN b.

Definition AppliedLSN (r : Replica) : Z := rp_applied r.

Definition Lag (r : Replica) (primaryLSN : Z) : Z :=
  if primaryLSN <=? rp_applied r then 0 else primaryLSN - rp_applied r.

Definition RecoverInFlight (p : Partition) : Partition * Z :=
  (mkPartition (p_ID p) (p_HostKeyLo p) (p_HostKeyHi p) (p_CreatedHours p) (p_DefaultCodec p)
     ((fun u => if decide (r_Status u = StatusInFlight) then set_Status u StatusScheduled else u) <$> p_URLs p)
     (p_Hosts p) (p_Strings p) (p_SeenFilter p) (p_BuildSchedule p) (p_MaxPageRows p) (p_Meta p),
   Z.of_nat (length (filter (fun u => r_Status u = StatusInFlight) (p_URLs p)))).

Section Sorting.
Context `{GoSort}.

Definition Stream (r : Replica) (entries : list TailEntry) : Replica :=
  foldl Apply r (sort_slice byLSN entries).

Definition url_before (a b : URLRecord) : bool := Less (r_URLKey a) (r_URLKey b).
Definition host_before (a b : HostRecord) : bool := h_HostKey a <? h_HostKey b.

Definition host_bounds (hosts : list HostRecord) : Z * Z :=
  match hosts, last hosts with
  | h0 :: _, Some hn => (h_HostKey h0, h_HostKey hn)
  | _, _ => (0, 2 ^ 64 - 1)
  end.

(** [urls] and [hosts] are the values of the maps in the order Go ranges over them. *)
Definition materialize (r : Replica) (urls : list URLRecord) (hosts : list HostRecord) : Partition :=
  let hosts := sort_slice host_before hosts in
  let '(lo, hi) := host_bounds hosts in
  mkPartition (rp_id r) lo hi (rp_created r) (rp_codec r) (sort_slice url_before urls) hosts (rp_strings r)
    [] false 0 ∅.

Definition Promote (r : Replica) (urls : list URLRecord) (hosts : list HostRecord) : Partition :=
  (RecoverInFlight (materialize r urls hosts)).1.
End Sorting.

(** The lists a range over a map can give. *)
Definition ranges {K A} `{Countable K} (m : gmap K A) (l : list A) : Prop := l ≡ₚ (map_to_list m).*2.

(** ** What the log says *)

Definition tables : Type := gmap URLKey URLRecord * gmap Z HostRecord.

Definition write (t : tables) (e : TailEntry) : tables :=
  match te_Kind e with
  | TailPutURL => (<[r_URLKey (te_URL e) := te_URL e]> t.1, t.2)
  | TailPutHost => (t.1, <[h_HostKey (te_Host e) := te_Host e]> t.2)
  | TailDelURL => (delete (te_URLKey e) t.1, t.2)
  | TailDelHost => (t.1, delete (te_HostKey e) t.2)
  end.

Definition tables_of (r : Replica) : tables := (rp_urls r, rp_hosts r).

(** The primary's tables at an LSN: the snapshot, then the log up to it. *)
Definition at_lsn (t0 : tables) (journal : list TailEntry) (x : Z) : tables :=
  foldl write t0 (filter (fun e => te_LSN e <= x) journal).

(** A log after the snapshot's frontier, its LSNs rising. *)
Definition journal_ok (snapLSN : Z) (journal : list TailEntry) : Prop :=
  StronglySorted (fun a b => te_LSN a < te_LSN b) journal /\ Forall (fun e => snapLSN < te_LSN e) journal.

(** Batches of the journal, each of which leaves out nothing below its last entry that
    was not sent before; within a batch any order, and any entry sent again. *)
Fixpoint gapless (journal seen : list TailEntry) (batches : list (list TailEntry)) : Prop :=
  match batches with
  | [] => True
  | b :: batches =>
      (forall e, e ∈ b -> e ∈ journal) /\
      (forall e e', e ∈ b -> e' ∈ journal -> te_LSN e' <= te_LSN e -> e' ∈ seen ++ b) /\
      gapless journal (seen ++ b) batches
  end.

Lemma Apply_write r e :
  tables_of (Apply r e) = (if te_LSN e <=? rp_applied r then tables_of r else write (tables_of r) e) /\
  rp_applied (Apply r e) = Z.max (rp_applied r) (te_LSN e) /\ rp_strings (Apply r e) = rp_strings r.
Proof.
  unfold Apply. destruct (Z.leb_spec (te_LSN e) (rp_applied r)); [split_and!; [done | lia | done] |].
  unfold write, tables_of. destruct (te_Kind e); cbn; split_and!; done || lia.
Qed.

Lemma byLSN_order P : weak_order P byLSN.
Proof. unfold byLSN. split; intros a b; [| intros c]; rewrite !Z.ltb_ge || rewrite Z.ltb_lt, Z.ltb_ge; lia. Qed.

Lemma lsn_inj journal a b :
  StronglySorted (fun a b => te_LSN a < te_LSN b) journal -> a ∈ journal -> b ∈ journal ->
  te_LSN a = te_LSN b -> a = b.
Proof.
  induction 1 as [|x l Hs IH Hx]; [by intros ?%not_elem_of_nil |]. rewrite Forall_forall in Hx.
  intros [-> | Ha]%elem_of_cons [-> | Hb]%elem_of_cons E; [done | | | by apply IH].
  - specialize (Hx b Hb). lia.
  - specialize (Hx a Ha). lia.
Qed.

(** The log up to the next entry is the log so far and that entry. *)
Lemma next_entry journal a e :
  StronglySorted (fun a b => te_LSN a < te_LSN b) journal -> e ∈ journal -> a < te_LSN e ->
  (forall e', e' ∈ journal -> a < te_LSN e' -> te_LSN e <= te_LSN e') ->
  filter (fun x => te_LSN x <= te_LSN e) journal = filter (fun x => te_LSN x <= a) journal ++ [e].
Proof.
  intros Hs. induction Hs as [|x l Hs IH Hx]; [by intros ?%not_elem_of_nil |]. intros He Ha Hn.
  rewrite Forall_forall in Hx. rewrite !filter_cons. apply elem_of_cons in He as [-> | He].
  - rewrite decide_True, decide_False by lia.
    rewrite !filter_none; [done | |]; apply Forall_forall; intros y Hy; specialize (Hx y Hy); lia.
  - pose proof (Hx e He) as Hlt. rewrite decide_True by lia. rewrite decide_True.
    + cbn [app]. f_equal. apply IH; [done | done |]. intros y Hy. apply Hn. by right.
    + destruct (Z.le_gt_cases (te_LSN x) a); [done |]. specialize (Hn x (list_elem_of_here _ _)). lia.
Qed.

Section Replay.
Context (t0 : tables) (journal : list TailEntry).
Hypothesis Hj : StronglySorted (fun a b => te_LSN a < te_LSN b) journal.

Lemma Apply_sorted l r :
  tables_of r = at_lsn t0 journal (rp_applied r) ->
  StronglySorted (not_after byLSN) l -> (forall e, e ∈ l -> e ∈ journal) ->
  (forall e e', e ∈ l -> e' ∈ journal -> te_LSN e' <= te_LSN e -> te_LSN e' <= rp_applied r \/ e' ∈ l) ->
  let r' := foldl Apply r l in
  tables_of r' = at_lsn t0 journal (rp_applied r') /\ rp_strings r' = rp_strings r /\
  forall e, e ∈ journal -> te_LSN e <= rp_applied r' <-> te_LSN e <= rp_applied r \/ e ∈ l.
Proof using Hj.
  intros Hr Hs. revert r Hr. induction Hs as [|e l Hs IH He]; intros r Hr Hin Hgap.
  { split_and!; try done. intros e _. cbn. rewrite elem_of_nil. tauto. }
  cbn [foldl]. cbv zeta. destruct (Apply_write r e) as (Et & Ea & Es).
  assert (Hej : e ∈ journal) by (apply Hin; left).
  assert (Hge : forall e', e' ∈ l -> te_LSN e <= te_LSN e').
  { intros e' He'. rewrite Forall_forall in He. specialize (He e' He'). unfold not_after, byLSN in He.
    by apply Z.ltb_ge in He. }
  destruct (IH (Apply r e)) as (E1 & E2 & E3).
  - rewrite Et, Ea. destruct (Z.leb_spec (te_LSN e) (rp_applied r)) as [Hle | Hlt]; [by rewrite Z.max_l by lia |].
    rewrite Z.max_r by lia. rewrite Hr. unfold at_lsn.
    rewrite (next_entry journal (rp_applied r) e Hj Hej Hlt), foldl_app; [done |].
    intros e' He' Hlt'. destruct (Z.le_gt_cases (te_LSN e) (te_LSN e')) as [| Hgt]; [done |].
    destruct (Hgap e e' (list_elem_of_here _ _) He' ltac:(lia)) as [| [-> | ?]%elem_of_cons]; [lia | lia | auto].
  - intros e' He'. apply Hin. by right.
  - intros e1 e' He1 He' Hle. rewrite Ea.
    destruct (Hgap e1 e' ltac:(by right) He' Hle) as [| [-> | ?]%elem_of_cons]; [lia | lia | auto].
  - split_and!; [done | by rewrite E2 |]. intros e' He'. rewrite E3 by done. rewrite Ea, elem_of_cons. split.
    + intros [Hle | ?]; [| auto]. destruct (Z.le_gt_cases (te_LSN e') (rp_applied r)); [auto |].
      destruct (Hgap e e' (list_elem_of_here _ _) He' ltac:(lia)) as [| ?%elem_of_cons]; auto.
    + intros [? | [-> | ?]]; [lia | lia | auto].
Qed.

Context `{GoSortLaws}.

Lemma Stream_replays batches seen r :
  tables_of r = at_lsn t0 journal (rp_applied r) ->
  (forall e, e ∈ journal -> te_LSN e <= rp_applied r <-> e ∈ seen) -> gapless journal seen batches ->
  let r' := foldl Stream r batches in
  tables_of r' = at_lsn t0 journal (rp_applied r') /\ rp_strings r' = rp_strings r /\
  forall e, e ∈ journal -> te_LSN e <= rp_applied r' <-> e ∈ seen ++ mjoin batches.
Proof using Hj H0.
  revert seen r. induction batches as [|b batches IH]; intros seen r Hr Hseen Hg.
  { rewrite app_nil_r. done. }
  destruct Hg as (Hin & Hgap & Hg). cbn [foldl mjoin list_join]. cbv zeta.
  destruct (Apply_sorted (sort_slice byLSN b) r Hr) as (E1 & E2 & E3).
  - apply sort_slice_sorted, byLSN_order.
  - intros e. rewrite sort_slice_perm. apply Hin.
  - intros e e'. rewrite !sort_slice_perm. intros He He' Hle.
    apply (Hgap e e' He He') in Hle as [? | ?]%elem_of_app; [left; by apply Hseen | by right].
  - fold (Stream r b) in E1, E2, E3. destruct (IH (seen ++ b) (Stream r b) E1) as (F1 & F2 & F3); [| done |].
    + intros e He. rewrite E3, sort_slice_perm, elem_of_app, Hseen by done. done.
    + rewrite <- app_assoc in F3. split_and!; [done | by rewrite F2 | done].
Qed.
End Replay.

(** ** Tables out of maps *)

Definition keyed (t : tables) : Prop :=
  (forall k u, t.1 !! k = Some u -> r_URLKey u = k) /\ (forall k h, t.2 !! k = Some h -> h_HostKey h = k).

Lemma keyed_insert {K A} `{Countable K} (key : A -> K) (m : gmap K A) x :
  (forall k a, m !! k = Some a -> key a = k) -> forall k a, <[key x := x]> m !! k = Some a -> key a = k.
Proof. intros Hm k a [[<- <-] | [_ ?]]%lookup_insert_Some; [done | by apply Hm]. Qed.

Lemma keyed_rows {K A} `{Countable K} (key : A -> K) rows (m : gmap K A) :
  (forall k a, m !! k = Some a -> key a = k) ->
  forall k a, foldl (fun m x => <[key x := x]> m) m rows !! k = Some a -> key a = k.
Proof. revert m. induction rows as [|x rows IH]; intros m Hm; [done |]. apply IH. by apply keyed_insert. Qed.

Lemma write_keyed t e : keyed t -> keyed (write t e).
Proof.
  intros [Hu Hh]. unfold write. destruct (te_Kind e); split; cbn; try done; try by apply keyed_insert.
  - intros k u [_ ?]%lookup_delete_Some. by apply Hu.
  - intros k h [_ ?]%lookup_delete_Some. by apply Hh.
Qed.

Lemma at_lsn_keyed snap lsn journal x : keyed (at_lsn (tables_of (NewReplica snap lsn)) journal x).
Proof.
  unfold at_lsn. generalize (filter (fun e => te_LSN e <= x) journal). intros l.
  assert (Hk : keyed (tables_of (NewReplica snap lsn)))
    by (split; cbn; apply keyed_rows; intros k a; by rewrite lookup_empty).
  revert Hk. generalize (tables_of (NewReplica snap lsn)). induction l as [|e l IH]; intros t Ht; [done |].
  by apply IH, write_keyed.
Qed.

Lemma url_before_order P : weak_order P url_before.
Proof.
  unfold url_before. split; intros a b; [| intros c];
    [rewrite Less_spec, <- not_true_iff_false, Less_spec | rewrite <- !not_true_iff_false, !Less_spec]; lia.
Qed.
Lemma host_before_order P : weak_order P host_before.
Proof. unfold host_before. split; intros a b; [| intros c]; rewrite !Z.ltb_ge || rewrite Z.ltb_lt, Z.ltb_ge; lia. Qed.

(** A strictly rising list within [(a, x]] is no longer than the interval. *)
Lemma rising_length {A} (f : A -> Z) a x l :
  StronglySorted (fun p q => f p < f q) l -> Forall (fun p => a < f p <= x) l -> a <= x ->
  Z.of_nat (length l) <= x - a.
Proof.
  intros Hs. revert a. induction Hs as [|p l Hs IH Hp]; intros a Hl Ha; [cbn; lia |].
  apply Forall_cons in Hl as [Hx Hl]. cbn [length]. rewrite Nat2Z.inj_succ.
  specialize (IH (f p)). rewrite Forall_forall in Hp, Hl. assert (Z.of_nat (length l) <= x - f p); [| lia].
  apply IH; [| lia]. apply Forall_forall. intros q Hq. specialize (Hl q Hq). specialize (Hp q Hq). lia.
Qed.

Lemma sorted_ends (f : HostRecord -> Z) h0 l hn h :
  StronglySorted (fun a b => f a <= f b) (h0 :: l) -> last (h0 :: l) = Some hn -> h ∈ h0 :: l ->
  f h0 <= f h <= f hn.
Proof.
  intros Hs Hl Hh. split.
  - apply StronglySorted_inv in Hs as [_ Hx]. rewrite Forall_forall in Hx.
    apply elem_of_cons in Hh as [-> | ?]; [lia | by apply Hx].
  - apply last_Some in Hl as [l' E]. rewrite E in Hs, Hh. apply StronglySorted_app in Hs as (Hx & _ & _).
    apply elem_of_app in Hh as [Hh | ->%list_elem_of_singleton]; [| lia]. apply Hx; [done | left].
Qed.

Section Promotion.
Context `{GoSortLaws}.

Lemma sort_range {K A} `{Countable K} (key : A -> K) (less : A -> A -> bool) (m : gmap K A) l l' :
  (forall P, weak_order P less) -> (forall a b, less a b = false -> less b a = false -> key a = key b) ->
  (forall k a, m !! k = Some a -> key a = k) -> ranges m l -> ranges m l' ->
  sort_slice less l' = sort_slice less l.
Proof using H0.
  intros Hw Ht Hk Hl Hl'. unfold ranges in *. apply sort_slice_unique.
  - apply Hw.
  - by rewrite sort_slice_perm, Hl, Hl'.
  - by apply sort_slice_sorted.
  - assert (Hin : forall a, a ∈ l' -> m !! key a = Some a).
    { intros a. rewrite Hl', list_elem_of_fmap. intros ([k b] & -> & Hb%elem_of_map_to_list).
      cbn. by rewrite (Hk _ _ Hb). }
    intros a b Ha%Hin Hb%Hin L1 L2. rewrite (Ht a b L1 L2) in Ha. congruence.
Qed.

Record promoted (t : tables) (p : Partition) : Prop := {
  pr_urls : p_URLs p ≡ₚ (fun u => if decide (r_Status u = StatusInFlight) then set_Status u StatusScheduled else u)
    <$> (map_to_list t.1).*2;
  pr_hosts : p_Hosts p ≡ₚ (map_to_list t.2).*2;
  pr_sortedURLs : sortedURLs (p_URLs p) = true;
  pr_sortedHosts : sortedHosts (p_Hosts p) = true;
  pr_range : forall h, h ∈ p_Hosts p -> p_HostKeyLo p <= h_HostKey h <= p_HostKeyHi p;
  pr_idle : Forall (fun u => r_Status u <> StatusInFlight) (p_URLs p)
}.

Lemma Promote_spec r us hs : ranges (rp_urls r) us -> ranges (rp_hosts r) hs -> promoted (tables_of r) (Promote r us hs).
Proof using H0.
  intros Hu Hh. unfold Promote, materialize. set (hosts := sort_slice host_before hs).
  assert (Hs : StronglySorted (fun a b => h_HostKey a <= h_HostKey b) hosts).
  { apply (StronglySorted_impl (not_after host_before)); [| apply sort_slice_sorted, host_before_order].
    intros a b. unfold not_after, host_before. by rewrite Z.ltb_ge. }
  destruct (host_bounds hosts) as [lo hi] eqn:E. unfold host_bounds in E.
  split; cbn [RecoverInFlight fst p_URLs p_Hosts p_HostKeyLo p_HostKeyHi tables_of snd].
  - by rewrite sort_slice_perm, Hu.
  - unfold hosts. by rewrite sort_slice_perm, Hh.
  - apply sortedURLs_spec, StronglySorted_Sorted.
    assert (Hsu : StronglySorted (not_after url_before) (sort_slice url_before us))
      by apply sort_slice_sorted, url_before_order.
    induction Hsu as [|a l Hl IH Ha]; [constructor |]. rewrite fmap_cons. constructor; [done |].
    rewrite Forall_fmap. eapply Forall_impl; [exact Ha |]. intros b Hb. unfold key_le. cbn.
    by repeat (case_decide; cbn).
  - by apply sortedHosts_spec, StronglySorted_Sorted.
  - intros h Hin. destruct hosts as [|h0 l]; [by apply not_elem_of_nil in Hin |].
    destruct (last (h0 :: l)) as [hn |] eqn:El; [| by apply last_None in El].
    injection E as <- <-. by apply (sorted_ends h_HostKey h0 l hn h).
  - apply Forall_fmap, Forall_forall. intros u _. cbn. by case_decide.
Qed.
End Promotion.

(** C13: a replica is its log. Sent the journal in batches that leave no gap, in any order
    inside a batch and with any redelivery, a replica holds the snapshot with exactly the
    entries up to its applied LSN written over it, those being the entries it was sent; the
    entries it lacks are no more than its lag; and whatever order Go ranges over its maps
    in, promotion gives one partition: its rows sorted, with none in flight, inside the
    host range it states, so that encoding it succeeds. *)
Theorem replica_is_replay `{GoSort} (HS : GoSortLaws) (snap : Partition) (snapLSN : Z) (journal : list TailEntry)
    (batches : list (list TailEntry)) (Hj : journal_ok snapLSN journal) (Hd : gapless journal [] batches) :
  let r := foldl Stream (NewReplica snap snapLSN) batches in
  let t := at_lsn (tables_of (NewReplica snap snapLSN)) journal (AppliedLSN r) in
  tables_of r = t /\
  (forall e, e ∈ journal -> te_LSN e <= AppliedLSN r <-> e ∈ mjoin batches) /\
  (forall x, Forall (fun e => te_LSN e <= x) journal ->
     Z.of_nat (length (filter (fun e => AppliedLSN r < te_LSN e) journal)) <= Lag r x) /\
  forall us hs, ranges t.1 us -> ranges t.2 hs ->
    promoted t (Promote r us hs) /\
    (forall us' hs', ranges t.1 us' -> ranges t.2 hs' -> Promote r us' hs' = Promote r us hs) /\
    forall `{BlockCodec}, exists b, Encode (Promote r us hs) = Ok b.
Proof.
  destruct Hj as [Hj Hbase]. cbv zeta.
  destruct (Stream_replays (tables_of (NewReplica snap snapLSN)) journal Hj batches [] (NewReplica snap snapLSN))
    as (E1 & _ & E3); [| | done |].
  { unfold at_lsn. rewrite filter_none; [done |]. eapply Forall_impl; [exact Hbase |]. cbn. lia. }
  { intros e He. rewrite Forall_forall in Hbase. specialize (Hbase e He). cbn. rewrite elem_of_nil. lia. }
  set (r := foldl Stream (NewReplica snap snapLSN) batches) in *. unfold AppliedLSN.
  split_and!; [done | done | |].
  - intros x Hx. unfold Lag. destruct (Z.leb_spec x (rp_applied r)).
    + rewrite filter_none; [done |]. eapply Forall_impl; [exact Hx |]. cbn. lia.
    + apply (rising_length te_LSN); [by apply StronglySorted_filter | | lia]. apply Forall_forall.
      intros e [? He]%list_elem_of_filter. rewrite Forall_forall in Hx. specialize (Hx e He). lia.
  - rewrite <- E1. intros us hs Hu Hh. pose proof (Promote_spec r us hs Hu Hh) as Hp.
    pose proof (at_lsn_keyed snap snapLSN journal (rp_applied r)) as Hk. rewrite <- E1 in Hk. destruct Hk as [Hku Hkh].
    split_and!; [done | | intros Hb; apply Encode_sorted; apply Hp].
    intros us' hs' Hu' Hh'. unfold Promote, materialize.
    rewrite (sort_range h_HostKey host_before (rp_hosts r) hs hs'), (sort_range r_URLKey url_before (rp_urls r) us us');
      try done; auto using url_before_order, host_before_order.
    + intros [] [] L1 L2. unfold url_before in *. cbn in *. rewrite <- not_true_iff_false, Less_spec in L1, L2.
      destruct r_URLKey, r_URLKey0; cbn in *; f_equal; lia.
    + intros a b. unfold host_before. rewrite !Z.ltb_ge. lia.
Qed.

Definition tail_a : TailEntry := tail_PutURL 5 (row_example 1 5 StatusInFlight 1 0).
Definition tail_b : TailEntry := tail_DelURL 6 (mkKey 1 9).
Definition tail_c : TailEntry := tail_DelHost 8 2.

Lemma replica_is_replay_witness :
  let r := foldl (@Stream stable_sort) (NewReplica ops_example 4) [[tail_b; tail_a; tail_b]] in
  AppliedLSN r = 6 /\
  tables_of r = at_lsn (tables_of (NewReplica ops_example 4)) [tail_a; tail_b; tail_c] (AppliedLSN r) /\
  Lag r 8 = 2.
Proof.
  destruct (@replica_is_replay stable_sort stable_sort_laws ops_example 4 [tail_a; tail_b; tail_c]
    [[tail_b; tail_a; tail_b]]) as (E & _).
  - split; repeat constructor.
  - cbn [gapless app]. split_and!; [| | done].
    + intros e. rewrite !elem_of_cons, !elem_of_nil. tauto.
    + intros e e'. rewrite !elem_of_cons, !elem_of_nil.
      intros [-> | [-> | [-> | []]]] [-> | [-> | [-> | []]]] Hl;
        try (by auto); try (exfalso; vm_compute in Hl; by apply Hl).
  - split; [vm_compute; reflexivity |]. split; [exact E | vm_compute; reflexivity].
Defined.

(** The arena is not part of the tail: a row written on the primary after the snapshot
    names a string the replica does not have, and a promoted replica's row reads as no
    URL. An entry that arrives in a batch after one with a higher LSN is dropped. *)
Theorem replica_gaps :
  (exists snap primary entry us hs,
     p_Strings snap = take (length (p_Strings snap)) (p_Strings primary) /\
     te_Kind entry = TailPutURL /\ te_URL entry ∈ p_URLs primary /\
     let r := @Stream stable_sort (NewReplica snap 4) [entry] in
     ranges (rp_urls r) us /\ ranges (rp_hosts r) hs /\
     let p := @Promote stable_sort r us hs in
     te_URL entry ∈ p_URLs p /\
     arenaRead (p_Strings primary) (r_URLRef (te_URL entry)) = Ok (Some [100; 101]) /\
     arenaRead (p_Strings p) (r_URLRef (te_URL entry)) = Ok None) /\
  (exists a b : TailEntry, te_LSN a < te_LSN b /\
     foldl (@Stream stable_sort) (NewReplica ops_example 4) [[b]; [a]] =
     foldl (@Stream stable_sort) (NewReplica ops_example 4) [[b]]).
Proof.
  split.
  - pose (e := tail_PutURL 5 (row_example 1 1 StatusScheduled 7 0)).
    pose (snap := mkPartition 7 0 0 0 0 [] [] [0; 1; 97; 1; 98; 1; 99] [] false 0 ∅).
    pose (primary := mkPartition 7 0 0 0 0 [te_URL e] [] (p_Strings ops_example) [] false 0 ∅).
    exists snap, primary, e, [te_URL e], [].
    split; [reflexivity |]. split; [reflexivity |]. split; [by left |]. cbv zeta.
    split; [vm_compute; done |]. split; [vm_compute; done |].
    split; [vm_compute; by left |]. split; vm_compute; reflexivity.
  - exists (tail_DelURL 5 (mkKey 1 9)), (tail_DelURL 6 (mkKey 1 9)). split; vm_compute; reflexivity.
Qed.
