(* ===== verification/Router.v ===== *)
(** * Links between partitions (distribute/transport.go, router.go)

    A router returns the links its own partition owns and batches the others by owner; a
    batch leaves as one message when it is full or at a flush. The transport is an
    interface with two bindings here, channels of batches and channels of encoded ones.
    In any interleaving of a fleet's routers, flushes, drains and map changes every link
    routed to a partition is once in a sender's batch, in the partition's inbox, or with
    the partition. *)

From S2P Require Import Prelude Words Model GoSort Fsst Batch Jump.
Open Scope Z_scope.

(** ** What a call can do

    [Blocked]: it has not returned, and waits for another party. *)
Inductive outcome (A : Type) := Done (a : A) | Blocked | Panics.
Arguments Done {A} a.
Arguments Blocked {A}.
Arguments Panics {A}.

#[global] Instance outcome_ret : MRet outcome := fun A => Done.
#[global] Instance outcome_bind : MBind outcome := fun A B f m =>
  match m with Done a => f a | Blocked => Blocked | Panics => Panics end.

Definition run {A} (m : res A) : outcome A := match m with Ok a => Done a | Err _ => Panics end.

Class Transport (W : Type) := {
  (** The flag is the absence of an error. *)
  Send : W -> PartitionID -> list Discovery -> outcome (W * bool);
  Recv : W -> PartitionID -> outcome (W * option (list Discovery))
}.

(** What a transport promises: a message sent is in its destination's inbox until it is
    received, and receiving ends. *)
Class TransportLaws (W : Type) `{Transport W} := {
  tr_valid : W -> Prop;
  carries : list Discovery -> Prop;
  inbox : W -> PartitionID -> list Discovery;
  queued : W -> PartitionID -> nat;
  send_law w to b w' : tr_valid w -> carries b -> Send w to b = Done (w', true) ->
    tr_valid w' /\ inbox w' to ≡ₚ inbox w to ++ b /\ forall d, d <> to -> inbox w' d = inbox w d;
  recv_law w self : tr_valid w ->
    exists w', tr_valid w' /\ (forall d, d <> self -> inbox w' d = inbox w d) /\
      ((Recv w self = Done (w', None) /\ inbox w self = [] /\ inbox w' self = []) \/
       (exists b, Recv w self = Done (w', Some b) /\ inbox w self ≡ₚ b ++ inbox w' self /\
          queued w self = S (queued w' self)))
}.

(** ** Bounded channels, one for each destination, made on first use *)

Section Chan.
Context {X : Type}.

Record chans := mkChans { ch_map : gmap PartitionID (list X); ch_cap : Z }.

Definition newChans (depth : Z) : chans := mkChans ∅ (if depth <? 1 then 1 else depth).

Definition chanFor (t : chans) (p : PartitionID) : chans * list X :=
  match ch_map t !! p with
  | Some ch => (t, ch)
  | None => (mkChans (<[p := []]> (ch_map t)) (ch_cap t), [])
  end.

(** A push blocks on a full channel. *)
Definition chan_push (t : chans) (p : PartitionID) (x : X) : outcome chans :=
  let '(t, ch) := chanFor t p in
  if Z.of_nat (length ch) <? ch_cap t
  then Done (mkChans (<[p := ch ++ [x]]> (ch_map t)) (ch_cap t))
  else Blocked.

(** The select with a default. *)
Definition chan_pop (t : chans) (p : PartitionID) : chans * option X :=
  let '(t, ch) := chanFor t p in
  match ch with
  | x :: ch => (mkChans (<[p := ch]> (ch_map t)) (ch_cap t), Some x)
  | [] => (t, None)
  end.

Definition content (t : chans) (p : PartitionID) : list X := default [] (ch_map t !! p).
End Chan.
Arguments chans X : clear implicits.

Definition chanTransport : Type := chans (list Discovery).

#[export] Instance chan_transport : Transport chanTransport := {|
  Send t to batch :=
    match batch with
    | [] => Done (t, true)
    | _ => t ← chan_push t to batch; Done (t, true)
    end;
  Recv t self := Done (chan_pop t self)
|}.

Definition chanWireTransport : Type := chans (list Z).

#[export] Instance wire_transport `{GoSort} : Transport chanWireTransport := {|
  Send t to batch :=
    match batch with
    | [] => Done (t, true)
    | _ =>
        let t := (chanFor t to).1 in
        body ← run (EncodeBatch batch);
        t ← chan_push t to body;
        Done (t, true)
    end;
  Recv t self :=
    match chan_pop t self with
    | (t, Some body) => batch ← run (DecodeBatch body); Done (t, batch)
    | (t, None) => Done (t, None)
    end
|}.

(** ** The two bindings keep the promise *)

Section ChanLaws.
Context {X : Type}.
Implicit Types t : chans X.

Lemma chanFor_content t p : (chanFor t p).2 = content t p /\ forall q, content (chanFor t p).1 q = content t q.
Proof.
  unfold chanFor, content. destruct (ch_map t !! p) as [ch |] eqn:E; [done |]. split; [done |].
  intros q. cbn. destruct (decide (q = p)) as [-> |].
  - by rewrite lookup_insert_eq, E.
  - by rewrite lookup_insert_ne.
Qed.

Lemma chan_push_content t p x t' :
  chan_push t p x = Done t' -> content t' p = content t p ++ [x] /\ forall q, q <> p -> content t' q = content t q.
Proof.
  unfold chan_push. destruct (chanFor_content t p) as [E1 E2]. destruct (chanFor t p) as [t1 ch]. cbn in E1, E2.
  case_match; [| done]. intros [= <-]. unfold content at 1 3. cbn. split.
  - rewrite lookup_insert_eq. cbn. by rewrite E1.
  - intros q Hq. rewrite lookup_insert_ne by done. apply E2.
Qed.

Lemma chan_pop_content t p :
  (forall q, q <> p -> content (chan_pop t p).1 q = content t q) /\
  content t p = match (chan_pop t p).2 with Some x => [x] | None => [] end ++ content (chan_pop t p).1 p /\
  ((chan_pop t p).2 = None -> content t p = []).
Proof.
  unfold chan_pop. destruct (chanFor_content t p) as [E1 E2]. destruct (chanFor t p) as [t1 ch]. cbn in E1, E2.
  rewrite <- E1. destruct ch as [|x ch]; cbn; split_and!; try done.
  - by rewrite E2, <- E1.
  - intros q Hq. rewrite <- E2. unfold content. cbn. by rewrite lookup_insert_ne.
  - unfold content. cbn. by rewrite lookup_insert_eq.
Qed.
End ChanLaws.

#[export] Instance chan_transport_laws : TransportLaws chanTransport.
Proof.
  refine {| tr_valid _ := True; carries _ := True; inbox t p := mjoin (content t p);
            queued t p := length (content t p) |}.
  - intros t p b t' _ _ E. destruct b as [|d b]; cbn in E.
    { injection E as <-. by rewrite app_nil_r. }
    destruct (chan_push t p (d :: b)) as [t1 | |] eqn:Ep; try done. injection E as <-.
    destruct (chan_push_content _ _ _ _ Ep) as [E1 E2]. split; [done |]. split.
    + rewrite E1, join_app. cbn. by rewrite app_nil_r.
    + intros q Hq. by rewrite E2.
  - intros t p _. destruct (chan_pop_content t p) as (E1 & E2 & E3). cbn. destruct (chan_pop t p) as [t1 [b |]].
    + exists t1. split; [done |]. split; [intros q Hq; by rewrite <- E1 |]. right. exists b.
      split; [done |]. cbn in E2. rewrite E2. cbn. done.
    + exists t1. split; [done |]. split; [intros q Hq; by rewrite <- E1 |]. left. cbn in E2.
      rewrite <- E2, E3; done.
Defined.

Definition decoded `{GoSort} (body : list Z) : list Discovery :=
  match DecodeBatch body with Ok (Some b) => b | _ => [] end.

#[export] Instance wire_transport_laws `{GoSortLaws} : TransportLaws chanWireTransport.
Proof.
  refine {| tr_valid t := forall p body, body ∈ content t p -> exists b, DecodeBatch body = Ok (Some b);
            carries b := Forall disc_wf b /\ batch_bound b < 2 ^ 63;
            inbox t p := mjoin (decoded <$> content t p); queued t p := length (content t p) |}.
  - intros t p b t' Hv [Hw Hb] E. destruct b as [|d b]; cbn in E.
    { injection E as <-. by rewrite app_nil_r. }
    destruct (EncodeBatch_decodes (d :: b) ltac:(done) Hw Hb) as (body & Ee & Ed).
    cbn in Ee. rewrite Ee in E. cbn in E. destruct (chanFor_content t p) as [_ Ec].
    destruct (chan_push (chanFor t p).1 p body) as [t1 | |] eqn:Ep; try done. injection E as <-.
    destruct (chan_push_content _ _ _ _ Ep) as [E1 E2]. rewrite Ec in E1. split_and!.
    + intros q body'. destruct (decide (q = p)) as [-> | Hq].
      * rewrite E1, elem_of_app, list_elem_of_singleton. intros [? | ->]; eauto.
      * rewrite E2, Ec by done. apply Hv.
    + rewrite E1, fmap_app, join_app. cbn. rewrite app_nil_r. f_equiv. unfold decoded. rewrite Ed.
      by rewrite sort_slice_perm.
    + intros q Hq. by rewrite E2, Ec.
  - intros t p Hv. destruct (chan_pop_content t p) as (E1 & E2 & E3). cbn.
    destruct (chan_pop t p) as [t1 [body |]]; cbn in E2, E3, E1.
    + destruct (Hv p body) as [b Eb]; [rewrite E2; left |]. exists t1. split_and!.
      * intros q body'. destruct (decide (q = p)) as [-> | Hq]; [| rewrite E1 by done; apply Hv].
        intros Hin. apply (Hv p). rewrite E2. by right.
      * intros q Hq. by rewrite <- E1.
      * right. exists b. rewrite Eb. split; [done |]. rewrite E2. cbn. unfold decoded at 1. by rewrite Eb.
    + exists t1. split_and!.
      * intros q body'. destruct (decide (q = p)) as [-> | Hq]; [| rewrite E1 by done; apply Hv].
        rewrite <- E2. apply Hv.
      * intros q Hq. by rewrite <- E1.
      * left. rewrite <- E2, E3; done.
Defined.

(** ** The batcher and the router *)

Record batcher := mkBatcher { bt_maxSize : Z; bt_pending : gmap PartitionID (list Discovery) }.

Definition newBatcher (maxSize : Z) : batcher := mkBatcher (if maxSize <? 1 then 1 else maxSize) ∅.

Definition pending_for (b : batcher) (to : PartitionID) : list Discovery := default [] (bt_pending b !! to).

Record Router := mkRouter { rt_self : PartitionID; rt_cur : PMap; rt_size : Z; rt_bat : batcher }.

Definition NewRouter (self : PartitionID) (init : PMap) (batchSize : Z) : Router :=
  mkRouter self init batchSize (newBatcher batchSize).

Definition router_Owner (r : Router) (hostKey : Z) : PartitionID := Owner (rt_cur r) hostKey.

Definition router_Local (r : Router) (d : Discovery) : bool :=
  Owner (rt_cur r) (HostKey (d_URLKey d)) =? rt_self r.

(** The load and the compare-and-swap are one step: the loop only repeats when another
    swap came between. *)
Definition SwapMap (r : Router) (next : PMap) : Router * bool :=
  if m_Epoch next <=? m_Epoch (rt_cur r) then (r, false)
  else (mkRouter (rt_self r) next (rt_size r) (rt_bat r), true).

Definition with_bat (r : Router) (b : batcher) : Router := mkRouter (rt_self r) (rt_cur r) (rt_size r) b.

Section Routing.
Context {W : Type} `{Transport W}.

Definition batcher_flush (b : batcher) (w : W) (to : PartitionID) : outcome (batcher * W * bool) :=
  let batch := pending_for b to in
  match batch with
  | [] => Done (b, w, true)
  | _ =>
      let b := mkBatcher (bt_maxSize b) (delete to (bt_pending b)) in
      '(w, ok) ← Send w to batch;
      Done (b, w, ok)
  end.

Definition batcher_add (b : batcher) (w : W) (to : PartitionID) (d : Discovery) : outcome (batcher * W * bool) :=
  let b := mkBatcher (bt_maxSize b) (<[to := pending_for b to ++ [d]]> (bt_pending b)) in
  if bt_maxSize b <=? Z.of_nat (length (pending_for b to)) then batcher_flush b w to
  else Done (b, w, true).

(** [order] is how Go ranges over the pending map. *)
Fixpoint flushAll (order : list PartitionID) (b : batcher) (w : W) : outcome (batcher * W * bool) :=
  match order with
  | [] => Done (b, w, true)
  | to :: order =>
      '(b, w, ok) ← batcher_flush b w to;
      if (ok : bool) then flushAll order b w else Done (b, w, false)
  end.

Fixpoint route_loop (mp : PMap) (self : PartitionID) (links : list Discovery) (b : batcher) (w : W)
    (local : list Discovery) : outcome (batcher * W * list Discovery * bool) :=
  match links with
  | [] => Done (b, w, local, true)
  | d :: links =>
      let owner := Owner mp (HostKey (d_URLKey d)) in
      if owner =? self then route_loop mp self links b w (local ++ [d])
      else
        '(b, w, ok) ← batcher_add b w owner d;
        if (ok : bool) then route_loop mp self links b w local else Done (b, w, local, false)
  end.

Definition RouteLinks (r : Router) (w : W) (links : list Discovery) : outcome (Router * W * list Discovery * bool) :=
  '(b, w, local, ok) ← route_loop (rt_cur r) (rt_self r) links (rt_bat r) w [];
  Done (with_bat r b, w, local, ok).

Definition Flush (order : list PartitionID) (r : Router) (w : W) : outcome (Router * W * bool) :=
  '(b, w, ok) ← flushAll order (rt_bat r) w;
  Done (with_bat r b, w, ok).

(** Out of fuel the call has not returned. *)
Fixpoint recv_loop (fuel : nat) (w : W) (self : PartitionID) (acc : list Discovery) : outcome (W * list Discovery) :=
  match fuel with
  | O => Blocked
  | S fuel =>
      '(w, got) ← Recv w self;
      match got with
      | None => Done (w, acc)
      | Some batch => recv_loop fuel w self (acc ++ batch)
      end
  end.

Definition Drain (fuel : nat) (r : Router) (w : W) : outcome (W * list Discovery) := recv_loop fuel w (rt_self r) [].

(** ** A fleet: routers over one transport *)

Record fleet := mkFleet { fl_routers : list Router; fl_w : W }.

Inductive event :=
  | ERouted (self : PartitionID) (mp : PMap) (links local : list Discovery)
  | EFlushed
  | EDrained (self : PartitionID) (batch : list Discovery)
  | ESwapped (took : bool).

(** One call on one of the routers that returns without an error. *)
Inductive fleet_step : fleet -> event -> fleet -> Prop :=
  | step_route i r rs w links r' w' local :
      rs !! i = Some r -> RouteLinks r w links = Done (r', w', local, true) ->
      fleet_step (mkFleet rs w) (ERouted (rt_self r) (rt_cur r) links local) (mkFleet (<[i := r']> rs) w')
  | step_flush i r rs w order r' w' :
      rs !! i = Some r -> order ≡ₚ (map_to_list (bt_pending (rt_bat r))).*1 ->
      Flush order r w = Done (r', w', true) ->
      fleet_step (mkFleet rs w) EFlushed (mkFleet (<[i := r']> rs) w')
  | step_drain i r rs w fuel w' batch :
      rs !! i = Some r -> Drain fuel r w = Done (w', batch) ->
      fleet_step (mkFleet rs w) (EDrained (rt_self r) batch) (mkFleet rs w')
  | step_swap i r rs w next :
      rs !! i = Some r ->
      fleet_step (mkFleet rs w) (ESwapped (SwapMap r next).2) (mkFleet (<[i := (SwapMap r next).1]> rs) w).

Inductive fleet_run (s : fleet) : list event -> fleet -> Prop :=
  | run_nil : fleet_run s [] s
  | run_snoc evs s1 e s2 : fleet_run s evs s1 -> fleet_step s1 e s2 -> fleet_run s (evs ++ [e]) s2.

(** ** What became of the links *)

Definition link_owner (mp : PMap) (d : Discovery) : PartitionID := Owner mp (HostKey (d_URLKey d)).

Definition routed_in (to : PartitionID) (e : event) : list Discovery :=
  match e with
  | ERouted self mp links _ => filter (fun d => link_owner mp d = to /\ to <> self) links
  | _ => []
  end.
Definition drained_in (to : PartitionID) (e : event) : list Discovery :=
  match e with EDrained self batch => if decide (self = to) then batch else [] | _ => [] end.

Definition routed_to (to : PartitionID) (evs : list event) : list Discovery := mjoin (routed_in to <$> evs).
Definition drained_by (to : PartitionID) (evs : list event) : list Discovery := mjoin (drained_in to <$> evs).
Definition batched_for (to : PartitionID) (rs : list Router) : list Discovery :=
  mjoin ((fun r => pending_for (rt_bat r) to) <$> rs).
End Routing.
Arguments fleet W : clear implicits.

Section Delivery.
Context {W : Type} `{TransportLaws W} (okd : Discovery -> Prop) (N : Z).
Hypothesis Hfit : forall b, Forall okd b -> Z.of_nat (length b) <= N -> carries b.

(** A batcher between two calls. *)
Definition pend_ok (b : batcher) : Prop :=
  1 <= bt_maxSize b <= N /\
  forall to, Forall okd (pending_for b to) /\ Z.of_nat (length (pending_for b to)) < bt_maxSize b.

(** What is on its way to [to]: batched here or in its inbox. *)
Definition on_way (b : batcher) (w : W) (to : PartitionID) : list Discovery := pending_for b to ++ inbox w to.

Lemma pending_insert n p to l d :
  pending_for (mkBatcher n (<[to := l]> p)) d = if decide (d = to) then l else pending_for (mkBatcher n p) d.
Proof.
  unfold pending_for. cbn. case_decide; subst; [by rewrite lookup_insert_eq | by rewrite lookup_insert_ne].
Qed.
Lemma pending_delete n p to d :
  pending_for (mkBatcher n (delete to p)) d = if decide (d = to) then [] else pending_for (mkBatcher n p) d.
Proof.
  unfold pending_for. cbn. case_decide; subst; [by rewrite lookup_delete_eq | by rewrite lookup_delete_ne].
Qed.

Lemma batcher_flush_moves b w to b' w' :
  tr_valid w -> 1 <= bt_maxSize b <= N -> Forall okd (pending_for b to) ->
  Z.of_nat (length (pending_for b to)) <= bt_maxSize b ->
  batcher_flush b w to = Done (b', w', true) ->
  tr_valid w' /\ bt_maxSize b' = bt_maxSize b /\ (forall d, on_way b' w' d ≡ₚ on_way b w d) /\
  forall d, pending_for b' d = if decide (d = to) then [] else pending_for b d.
Proof using Hfit.
  intros Hv Hn Hok Hlen. unfold batcher_flush. destruct (pending_for b to) as [|x l] eqn:Ep.
  { intros [= <- <-]. split_and!; try done. intros d. by case_decide; subst. }
  rewrite <- Ep. destruct (Send w to (pending_for b to)) as [[w1 ok] | |] eqn:Es; try done. cbn. intros [= <- <- ->].
  destruct (send_law w to (pending_for b to) w1 Hv) as (Hv1 & Hi & Ho); [apply Hfit; rewrite Ep; [done | lia] | done |].
  destruct b as [n p]. cbn [bt_maxSize bt_pending]. split_and!; try done.
  - intros d. unfold on_way. rewrite pending_delete. case_decide; subst; [| by rewrite Ho].
    rewrite Hi. cbn. apply Permutation_app_comm.
  - intros d. apply pending_delete.
Qed.

Lemma batcher_add_moves b w to x b' w' :
  tr_valid w -> pend_ok b -> okd x -> batcher_add b w to x = Done (b', w', true) ->
  tr_valid w' /\ pend_ok b' /\
  forall d, on_way b' w' d ≡ₚ on_way b w d ++ (if decide (d = to) then [x] else []).
Proof using Hfit.
  intros Hv [Hn Hp] Hx. unfold batcher_add. destruct b as [n p]. cbn [bt_maxSize bt_pending] in *.
  set (b1 := mkBatcher n (<[to := pending_for (mkBatcher n p) to ++ [x]]> p)).
  assert (E1 : forall d, pending_for b1 d =
    pending_for (mkBatcher n p) d ++ (if decide (d = to) then [x] else [])).
  { intros d. unfold b1. rewrite pending_insert. case_decide; subst; [done | by rewrite app_nil_r]. }
  assert (Hok : forall d, Forall okd (pending_for b1 d)).
  { intros d. rewrite E1. apply Forall_app. split; [apply Hp |]. case_decide; by repeat constructor. }
  assert (Hw : forall d, on_way b1 w d ≡ₚ on_way (mkBatcher n p) w d ++ (if decide (d = to) then [x] else [])).
  { intros d. unfold on_way. rewrite E1, <- !app_assoc. f_equiv. apply Permutation_app_comm. }
  assert (Hl : forall d, Z.of_nat (length (pending_for b1 d)) <= n).
  { intros d. destruct (Hp d) as [_ Hl]. rewrite E1, length_app. case_decide; cbn; lia. }
  destruct (Z.leb_spec n (Z.of_nat (length (pending_for b1 to)))) as [Hfull | Hroom].
  - intros E. destruct (batcher_flush_moves b1 w to b' w' Hv Hn (Hok to) (Hl to) E) as (Hv' & Em & Hm & Hf).
    split; [done |]. split; [| intros d; by rewrite Hm]. split; [by rewrite Em |]. rewrite Em. intros d.
    rewrite Hf, E1. cbn. case_decide; cbn; [split; [constructor | lia] |]. rewrite app_nil_r. apply Hp.
  - intros [= <- <-]. split; [done |]. split; [| done]. split; [done |]. intros d. split; [apply Hok |].
    cbn [bt_maxSize b1]. destruct (decide (d = to)) as [-> | Hd]; [done |]. rewrite E1, decide_False, app_nil_r by done.
    apply Hp.
Qed.

Lemma route_loop_moves mp self links b w local b' w' local' :
  tr_valid w -> pend_ok b -> Forall okd links ->
  route_loop mp self links b w local = Done (b', w', local', true) ->
  tr_valid w' /\ pend_ok b' /\ local' = local ++ filter (fun d => link_owner mp d = self) links /\
  forall d, on_way b' w' d ≡ₚ on_way b w d ++ filter (fun x => link_owner mp x = d /\ d <> self) links.
Proof using Hfit.
  intros Hv Hp Hl. revert b w local Hv Hp. induction Hl as [|x links Hx Hl IH]; intros b w local Hv Hp; cbn [route_loop].
  { intros [= <- <- <-]. rewrite !app_nil_r. split_and!; try done. intros d. by rewrite app_nil_r. }
  rewrite filter_cons. unfold link_owner at 1. destruct (Z.eqb_spec (Owner mp (HostKey (d_URLKey x))) self) as [Es | Es].
  - intros E. destruct (IH b w (local ++ [x]) Hv Hp E) as (? & ? & -> & Hm). split_and!; try done.
    + by rewrite decide_True, <- app_assoc.
    + intros d. rewrite Hm, filter_cons, decide_False; [done |]. unfold link_owner. by intros [<- ?].
  - destruct (batcher_add b w (Owner mp (HostKey (d_URLKey x))) x) as [[[b1 w1] ok] | |] eqn:Ea; try done. cbn.
    destruct ok; [| done]. destruct (batcher_add_moves b w _ x b1 w1 Hv Hp Hx Ea) as (Hv1 & Hp1 & Hm1).
    intros E. destruct (IH b1 w1 local Hv1 Hp1 E) as (? & ? & -> & Hm). split_and!; try done.
    + by rewrite decide_False.
    + intros d. rewrite Hm, Hm1, <- app_assoc. f_equiv. unfold link_owner at 2.
      destruct (decide (d = Owner mp (HostKey (d_URLKey x)))) as [-> | Hd]; [by rewrite decide_True |].
      rewrite decide_False; [done |]. intros [E' _]. by apply Hd.
Qed.

Lemma flushAll_moves order b w b' w' :
  tr_valid w -> pend_ok b -> flushAll order b w = Done (b', w', true) ->
  tr_valid w' /\ pend_ok b' /\ (forall d, on_way b' w' d ≡ₚ on_way b w d) /\
  forall d, pending_for b' d = if decide (d ∈ order) then [] else pending_for b d.
Proof using Hfit.
  revert b w. induction order as [|to order IH]; intros b w Hv Hp; cbn [flushAll].
  { intros [= <- <-]. split_and!; done. }
  destruct (batcher_flush b w to) as [[[b1 w1] ok] | |] eqn:Ef; try done. cbn. destruct ok; [| done].
  destruct Hp as [Hn Hp]. destruct (Hp to) as [Hok Hlt].
  destruct (batcher_flush_moves b w to b1 w1 Hv Hn Hok ltac:(lia) Ef) as (Hv1 & Em & Hm1 & Hf).
  intros E. destruct (IH b1 w1 Hv1) as (? & ? & Hm & Hd); [| done |].
  - split; [by rewrite Em |]. rewrite Em. intros d. rewrite Hf. case_decide; [| apply Hp]. split; [constructor | cbn; lia].
  - split_and!; try done; [intros d; by rewrite Hm |]. intros d. rewrite Hd, Hf.
    destruct (decide (d = to)) as [-> | Hne]; [rewrite (decide_True (P := to ∈ to :: order)) by left; by case_decide |].
    destruct (decide (d ∈ order)); [rewrite decide_True by (by right) | rewrite decide_False]; try done.
    by intros [? | ?]%elem_of_cons.
Qed.

Lemma recv_loop_drains fuel w self acc w' got :
  tr_valid w -> recv_loop fuel w self acc = Done (w', got) ->
  tr_valid w' /\ got ≡ₚ acc ++ inbox w self /\ inbox w' self = [] /\ forall d, d <> self -> inbox w' d = inbox w d.
Proof using Type.
  revert w acc. induction fuel as [|fuel IH]; intros w acc Hv; [done |]. cbn [recv_loop].
  destruct (recv_law w self Hv) as (w1 & Hv1 & Ho & [(-> & Ei & Ei') | (b & -> & Ei & _)]); cbn.
  - intros [= <- <-]. rewrite Ei, app_nil_r. done.
  - intros E. destruct (IH w1 (acc ++ b) Hv1 E) as (? & Hg & ? & Ho').
    split_and!; try done; [by rewrite Hg, Ei, <- app_assoc |]. intros d Hd. by rewrite Ho', Ho.
Qed.

Lemma recv_loop_ends fuel w self acc :
  tr_valid w -> (queued w self < fuel)%nat -> exists w' got, recv_loop fuel w self acc = Done (w', got).
Proof using Type.
  revert w acc. induction fuel as [|fuel IH]; intros w acc Hv Hq; [lia |]. cbn [recv_loop].
  destruct (recv_law w self Hv) as (w1 & Hv1 & _ & [(-> & _) | (b & -> & _ & Eq)]); cbn; [by eexists _, _ |].
  apply IH; [done | lia].
Qed.

Lemma conserved_step {A} (P0 I0 R P1 I1 D P2 I2 d r : list A) :
  P1 ++ I1 ++ D ≡ₚ P0 ++ I0 ++ R -> P2 ++ I2 ++ d ≡ₚ P1 ++ I1 ++ r ->
  P2 ++ I2 ++ D ++ d ≡ₚ P0 ++ I0 ++ R ++ r.
Proof using Type.
  intros E1 E2. rewrite (Permutation_app_swap_app I2 D d), (Permutation_app_swap_app P2 D), E2.
  rewrite (Permutation_app_swap_app D P1), (Permutation_app_swap_app D I1).
  replace (P1 ++ I1 ++ D ++ r) with ((P1 ++ I1 ++ D) ++ r) by (by rewrite <- !app_assoc).
  by rewrite E1, <- !app_assoc.
Qed.

(** One router of the fleet in another state. *)
Lemma batched_update rs i r r' to :
  rs !! i = Some r -> exists rest,
    batched_for to rs ≡ₚ pending_for (rt_bat r) to ++ rest /\
    batched_for to (<[i := r']> rs) ≡ₚ pending_for (rt_bat r') to ++ rest.
Proof using Type.
  intros Hi. pose proof (lookup_lt_Some _ _ _ Hi) as Hlt. exists (batched_for to (take i rs ++ drop (S i) rs)).
  unfold batched_for. split.
  - rewrite <- (take_drop_middle rs i r Hi) at 1. rewrite !fmap_app, !join_app, fmap_cons. cbn.
    apply Permutation_app_swap_app.
  - rewrite insert_take_drop by done. rewrite !fmap_app, !join_app, fmap_cons. cbn.
    apply Permutation_app_swap_app.
Qed.

Definition links_ok (e : event) : Prop := match e with ERouted _ _ links _ => Forall okd links | _ => True end.
Definition local_right (e : event) : Prop :=
  match e with ERouted self mp links local => local = filter (fun d => link_owner mp d = self) links | _ => True end.

Record fleet_ok (s : fleet W) : Prop := {
  fo_valid : tr_valid (fl_w s);
  fo_pend : Forall (fun r => pend_ok (rt_bat r)) (fl_routers s)
}.

(** What is with or on its way to [to] grows by what was routed to it, and by no more. *)
Lemma fleet_step_keeps s e s' to :
  fleet_ok s -> links_ok e -> fleet_step s e s' ->
  fleet_ok s' /\ local_right e /\
  batched_for to (fl_routers s') ++ inbox (fl_w s') to ++ drained_in to e ≡ₚ
  batched_for to (fl_routers s) ++ inbox (fl_w s) to ++ routed_in to e.
Proof using Hfit.
  intros [Hv Hp] Hl Hs. destruct Hs as [i r rs w links r' w' local Hi E|i r rs w order r' w' Hi Ho E|
    i r rs w fuel w' batch Hi E|i r rs w next Hi]; cbn [fl_routers fl_w links_ok] in *;
    pose proof (Forall_lookup_1 _ _ _ _ Hp Hi) as Hr; cbn beta in Hr.
  - unfold RouteLinks in E. destruct (route_loop _ _ _ _ _ _) as [[[[b1 w1] l1] ok] | |] eqn:El; try done.
    cbn in E. injection E as <- <- <- ->.
    destruct (route_loop_moves _ _ _ _ _ _ _ _ _ Hv Hr Hl El) as (Hv1 & Hp1 & -> & Hm).
    split; [split; [done |]; by apply Forall_insert |]. split; [done |]. specialize (Hm to). unfold on_way in Hm.
    destruct (batched_update rs i r (with_bat r b1) to Hi) as (rest & Ea & Eb). cbn [routed_in drained_in].
    rewrite Ea, Eb, app_nil_r. cbn [with_bat rt_bat]. rewrite (Permutation_app_comm (pending_for b1 to)), <- app_assoc, Hm.
    rewrite (Permutation_app_comm (pending_for (rt_bat r) to) rest), <- !app_assoc. done.
  - unfold Flush in E. destruct (flushAll _ _ _) as [[[b1 w1] ok] | |] eqn:El; try done.
    cbn in E. injection E as <- <- ->.
    destruct (flushAll_moves _ _ _ _ _ Hv Hr El) as (Hv1 & Hp1 & Hm & _).
    split; [split; [done |]; by apply Forall_insert |]. split; [done |]. specialize (Hm to). unfold on_way in Hm.
    destruct (batched_update rs i r (with_bat r b1) to Hi) as (rest & Ea & Eb). cbn [routed_in drained_in].
    rewrite Ea, Eb, !app_nil_r. cbn [with_bat rt_bat]. rewrite (Permutation_app_comm (pending_for b1 to)), <- app_assoc, Hm.
    rewrite (Permutation_app_comm (pending_for (rt_bat r) to) rest), <- !app_assoc. done.
  - destruct (recv_loop_drains _ _ _ _ _ _ Hv E) as (Hv1 & Hg & Hnil & Ho). split; [by split |]. split; [done |].
    cbn [routed_in drained_in]. rewrite app_nil_r. f_equiv. case_decide; subst.
    + by rewrite Hnil, Hg.
    + by rewrite Ho, app_nil_r.
  - split; [split; [done |] |].
    { apply Forall_insert; [done |]. unfold SwapMap. by case_match. }
    split; [done |]. destruct (batched_update rs i r (SwapMap r next).1 to Hi) as (rest & Ea & Eb).
    cbn [routed_in drained_in]. rewrite Ea, Eb. unfold SwapMap. by case_match.
Qed.

Lemma fleet_run_keeps s0 evs s :
  fleet_ok s0 -> Forall links_ok evs -> fleet_run s0 evs s ->
  fleet_ok s /\ Forall local_right evs /\ forall to,
  batched_for to (fl_routers s) ++ inbox (fl_w s) to ++ drained_by to evs ≡ₚ
  batched_for to (fl_routers s0) ++ inbox (fl_w s0) to ++ routed_to to evs.
Proof using Hfit.
  intros H0' Hl Hr. induction Hr as [|evs s1 e s2 Hr IH Hs]; [done |].
  rewrite Forall_app, Forall_singleton in Hl. destruct Hl as [Hl He]. destruct (IH Hl) as (Hok & Hloc & Hm).
  destruct (fleet_step_keeps s1 e s2 0 Hok He Hs) as (Hok2 & Hloc2 & _). split; [done |].
  split; [by rewrite Forall_app, Forall_singleton |]. intros to. destruct (fleet_step_keeps s1 e s2 to Hok He Hs) as (_ & _ & Hm2).
  unfold drained_by, routed_to in *. specialize (Hm to). rewrite !fmap_app, !join_app. cbn. rewrite !app_nil_r.
  by apply (conserved_step _ _ _ _ _ _ _ _ _ _ Hm).
Qed.

(** A fleet before its first call. *)
Definition fresh_fleet (s : fleet W) : Prop :=
  1 <= N /\ tr_valid (fl_w s) /\ (forall to, inbox (fl_w s) to = []) /\
  Forall (fun r => rt_bat r = newBatcher (rt_size r) /\ rt_size r <= N) (fl_routers s).

Lemma fresh_fleet_ok s :
  fresh_fleet s -> fleet_ok s /\ forall to, batched_for to (fl_routers s) = [] /\ inbox (fl_w s) to = [].
Proof using Type.
  intros (Hn & Hv & Hi & Hr). split.
  - split; [done |]. eapply Forall_impl; [exact Hr |]. intros r [-> Hs]. split.
    + cbn. destruct (Z.ltb_spec (rt_size r) 1); lia.
    + intros to. unfold pending_for. cbn. rewrite lookup_empty. cbn. split; [constructor |].
      destruct (Z.ltb_spec (rt_size r) 1); lia.
  - intros to. split; [| done]. unfold batched_for. induction Hr as [|r rs [E _] _ IH]; [done |].
    rewrite fmap_cons, E. unfold pending_for at 1, newBatcher at 1. cbn. rewrite lookup_empty. exact IH.
Qed.

(** C11: every link reaches its owner once. In any interleaving of a fleet's calls over a
    transport that keeps its promise, whatever maps the routers hold and swap, the links
    routed to a partition are, each once, still in a sender's batch, in the partition's
    inbox, or drained by it; a router's own links come back to its caller in order; no
    batch waits at its size or above; a drain ends and empties the inbox; and a flush
    leaves nothing batched. *)
Theorem links_reach_owner (s0 s : fleet W) (evs : list event)
    (Hfresh : fresh_fleet s0) (Hlinks : Forall links_ok evs) (Hrun : fleet_run s0 evs s) :
  (forall to, routed_to to evs ≡ₚ batched_for to (fl_routers s) ++ inbox (fl_w s) to ++ drained_by to evs) /\
  Forall local_right evs /\
  forall r, r ∈ fl_routers s ->
    (forall to, Z.of_nat (length (pending_for (rt_bat r) to)) < bt_maxSize (rt_bat r)) /\
    (exists w' got, Drain (S (queued (fl_w s) (rt_self r))) r (fl_w s) = Done (w', got) /\
       got ≡ₚ inbox (fl_w s) (rt_self r) /\ inbox w' (rt_self r) = []) /\
    forall order r' w', order ≡ₚ (map_to_list (bt_pending (rt_bat r))).*1 ->
      Flush order r (fl_w s) = Done (r', w', true) ->
      forall to, pending_for (rt_bat r') to = [] /\ inbox w' to ≡ₚ pending_for (rt_bat r) to ++ inbox (fl_w s) to.
Proof using Hfit.
  destruct (fresh_fleet_ok s0 Hfresh) as [Hok0 Hempty].
  destruct (fleet_run_keeps s0 evs s Hok0 Hlinks Hrun) as ([Hv Hp] & Hloc & Hm).
  split; [intros to; rewrite Hm; by destruct (Hempty to) as [-> ->] |]. split; [done |].
  intros r Hr. rewrite Forall_forall in Hp. specialize (Hp r Hr). split; [intros to; apply Hp |]. split.
  - destruct (recv_loop_ends (S (queued (fl_w s) (rt_self r))) (fl_w s) (rt_self r) [] Hv) as (w' & got & E); [lia |].
    exists w', got. destruct (recv_loop_drains _ _ _ _ _ _ Hv E) as (_ & ? & ? & _). done.
  - intros order r' w' Ho E to. unfold Flush in E.
    destruct (flushAll order (rt_bat r) (fl_w s)) as [[[b1 w1] ok] | |] eqn:El; try done.
    cbn in E. injection E as <- <- ->. destruct (flushAll_moves _ _ _ _ _ Hv Hp El) as (_ & _ & Hw & Hd).
    assert (En : pending_for b1 to = []).
    { rewrite Hd. case_decide as Hin; [done |]. unfold pending_for.
      destruct (bt_pending (rt_bat r) !! to) as [l |] eqn:Ek; [| done]. exfalso. apply Hin. rewrite Ho.
      apply list_elem_of_fmap. exists (to, l). split; [done | by apply elem_of_map_to_list]. }
    split; [done |]. specialize (Hw to). unfold on_way in Hw. by rewrite En in Hw.
Qed.
End Delivery.

(** ** Two partitions over the encoded channels *)

#[local] Existing Instance stable_sort.
#[local] Existing Instance stable_sort_laws.

Definition pair_map : PMap := mkPMap 1 2 {[ 7 := 1; 5 := 0 ]} [] 0 [].
Definition pair_fleet : fleet chanWireTransport :=
  mkFleet [NewRouter 0 pair_map 8; NewRouter 1 pair_map 8] (newChans 4).

(** Links a message can carry: rows in range, with URLs of at most 4096 bytes. *)
Definition short_link (d : Discovery) : Prop := disc_wf d /\ (length (d_CanonicalURL d) <= 4096)%nat.

Lemma short_links_fit b : Forall short_link b -> Z.of_nat (length b) <= 2 ^ 32 ->
  carries (W := chanWireTransport) b.
Proof.
  intros Hb Hn. split; [eapply Forall_impl; [exact Hb |]; by intros d [? _] |].
  assert (Hu : (url_bytes b <= length b * 4096)%nat).
  { unfold url_bytes. clear Hn. induction Hb as [|d b [_ Hd] _ IH]; [done |].
    rewrite fmap_cons. change (mjoin (?x :: ?y)) with (x ++ mjoin y). cbn [length]. rewrite length_app. lia. }
  unfold batch_bound. lia.
Qed.

Definition link_7 : Discovery := mkDisc (mkKey 7 (2 ^ 64 - 1)) [104; 116] 3 1 (2 ^ 63) 17 2 400000.
Definition link_5 : Discovery := mkDisc (mkKey 5 9) [104; 116; 255] 65535 4 0 (2 ^ 32 - 1) 0 0.

Lemma links_short : Forall short_link [link_7; link_5].
Proof.
  repeat first [apply Forall_cons_2 | apply Forall_nil_2];
    (split; [repeat constructor; unfold byte_ok, fits; simpl; lia | apply Nat.leb_le; reflexivity]).
Qed.

Lemma links_reach_owner_witness :
  exists s evs, fleet_run pair_fleet evs s /\ routed_to 1 evs = [link_7] /\
    drained_by 1 evs ≡ₚ [link_7].
Proof.
  pose (r1 := RouteLinks (NewRouter 0 pair_map 8) (newChans 4 : chanWireTransport) [link_7; link_5]).
  assert (E1 : exists r w, r1 = Done (r, w, [link_5], true) /\
    exists r' w', Flush [1] r w = Done (r', w', true) /\ [1] ≡ₚ (map_to_list (bt_pending (rt_bat r))).*1 /\
    exists w'', Drain 2 (NewRouter 1 pair_map 8) w' = Done (w'', [link_7]) /\
      inbox w'' 1 = [] /\ pending_for (rt_bat r') 1 = []).
  { eexists _, _. split; [vm_compute; reflexivity |]. eexists _, _. split; [vm_compute; reflexivity |].
    split; [vm_compute; reflexivity |]. eexists. split; [vm_compute; reflexivity |].
    split; vm_compute; reflexivity. }
  destruct E1 as (r & w & E1 & r' & w' & E2 & Ho & w'' & E3 & Ei & Ep).
  pose (evs := [ERouted 0 pair_map [link_7; link_5] [link_5]; EFlushed;
                EDrained 1 [link_7]]).
  pose (s := mkFleet [r'; NewRouter 1 pair_map 8] w'').
  assert (Hrun : fleet_run pair_fleet evs s).
  { change evs with (([] ++ [ERouted 0 pair_map [link_7; link_5] [link_5]]) ++ [EFlushed] ++
      [EDrained 1 [link_7]]). rewrite app_assoc.
    apply (run_snoc _ _ (mkFleet [r'; NewRouter 1 pair_map 8] w')); [| exact (step_drain 1 (NewRouter 1 pair_map 8)
      [r'; NewRouter 1 pair_map 8] w' 2 w'' [link_7] eq_refl E3)].
    apply (run_snoc _ _ (mkFleet [r; NewRouter 1 pair_map 8] w)); [| exact (step_flush 0 r
      [r; NewRouter 1 pair_map 8] w [1] r' w' eq_refl Ho E2)].
    apply (run_snoc _ _ pair_fleet); [constructor |].
    exact (step_route 0 (NewRouter 0 pair_map 8) (fl_routers pair_fleet) (fl_w pair_fleet) [link_7; link_5]
      r w [link_5] eq_refl E1). }
  exists s, evs. split; [exact Hrun |]. split; [vm_compute; reflexivity |].
  destruct (links_reach_owner short_link (2 ^ 32) short_links_fit pair_fleet s evs) as (Hm & _).
  - split; [lia |]. split; [intros p body Hin; vm_compute in Hin; by apply not_elem_of_nil in Hin |].
    split; [done |]. repeat constructor; vm_compute; discriminate.
  - constructor; [exact links_short |]. by repeat constructor.
  - exact Hrun.
  - specialize (Hm 1). unfold batched_for in Hm. cbn [fl_routers s fmap list_fmap fl_w] in Hm.
    rewrite Ei, Ep in Hm. vm_compute in Hm |- *. symmetry. exact Hm.
Defined.

(** ** A send that fails *)

Definition dead_link : Transport unit := {| Send w _ _ := Done (w, false); Recv w _ := Done (w, None) |}.

(** The batch leaves the pending map before it is sent: when the send fails its links are
    no longer batched, and the links after the one that filled it, the router's own
    included, are neither batched nor returned. *)
Theorem failed_send_drops_links :
  let r := NewRouter 0 pair_map 1 in
  exists r', @RouteLinks _ dead_link r tt [link_7; link_5] = Done (r', tt, [], false) /\
    bt_pending (rt_bat r') = ∅ /\ link_owner pair_map link_7 = 1 /\ link_owner pair_map link_5 = 0.
Proof. eexists. split; [vm_compute; reflexivity |]. split_and!; vm_compute; reflexivity. Qed.
