(* ===== verification/Signal.v ===== *)
(** * Importing reputation bundles (distribute/signal.go)

    A bundle is split by owner and shipped; a partition applies what it receives under an
    epoch guard, so that only bundles newer than all it applied reach its sink. *)

From S2P Require Import Prelude Words Model Jump Router.
Open Scope Z_scope.

Class SignalTransport (W : Type) := {
  SendSignal : W -> PartitionID -> Signal -> outcome (W * bool);
  RecvSignal : W -> PartitionID -> W * option Signal
}.

Definition chanSignalTransport : Type := chans Signal.

Definition no_entries (s : Signal) : bool := bool_decide (s_Hosts s = [] /\ s_URLs s = []).

#[export] Instance chan_signal_transport : SignalTransport chanSignalTransport := {|
  SendSignal t to s :=
    if no_entries s then Done (t, true) else t ← chan_push t to s; Done (t, true);
  RecvSignal t self := chan_pop t self
|}.

(** The sink's two imports, on its state. *)
Class SignalSink (S : Type) := { sink_url : S -> URLSignal -> S; sink_host : S -> HostSignal -> S }.

Record SignalRouter := mkSignalRouter { sr_self : PartitionID; sr_cur : PMap; sr_seenEpoch : Z }.

Definition NewSignalRouter (self : PartitionID) (init : PMap) : SignalRouter := mkSignalRouter self init 0.

Definition signal_SwapMap (r : SignalRouter) (next : PMap) : SignalRouter * bool :=
  if m_Epoch next <=? m_Epoch (sr_cur r) then (r, false)
  else (mkSignalRouter (sr_self r) next (sr_seenEpoch r), true).

(** ** Splitting a bundle *)

Definition add_host (s : Signal) (h : HostSignal) : Signal := mkSignal (s_Epoch s) (s_Hosts s ++ [h]) (s_URLs s).
Definition add_url (s : Signal) (u : URLSignal) : Signal := mkSignal (s_Epoch s) (s_Hosts s) (s_URLs s ++ [u]).

(** The closure dest: the bundle of an owner, made on first use, is changed by [f]. *)
Definition at_dest (self : PartitionID) (epoch : Z) (owner : PartitionID) (f : Signal -> Signal)
    (st : Signal * gmap PartitionID Signal) : Signal * gmap PartitionID Signal :=
  if owner =? self then (f st.1, st.2)
  else (st.1, <[owner := f (default (mkSignal epoch [] []) (st.2 !! owner))]> st.2).

Definition split_signal (mp : PMap) (self : PartitionID) (s : Signal) : Signal * gmap PartitionID Signal :=
  let st := (mkSignal (s_Epoch s) [] [], ∅) in
  let st := foldl (fun st h => at_dest self (s_Epoch s) (Owner mp (hs_HostKey h)) (fun b => add_host b h) st) st (s_Hosts s) in
  foldl (fun st u => at_dest self (s_Epoch s) (Owner mp (HostKey (us_URLKey u))) (fun b => add_url b u) st) st (s_URLs s).

Section Ship.
Context {W : Type} `{SignalTransport W}.

(** [order] is how Go ranges over the bundles. *)
Fixpoint send_all (out : gmap PartitionID Signal) (order : list PartitionID) (w : W) : outcome (W * bool) :=
  match order with
  | [] => Done (w, true)
  | owner :: order =>
      '(w, ok) ← SendSignal w owner (default (mkSignal 0 [] []) (out !! owner));
      if (ok : bool) then send_all out order w else Done (w, false)
  end.

Definition RouteSignal (order : list PartitionID) (r : SignalRouter) (w : W) (s : Signal) : outcome (W * Signal * bool) :=
  let '(local, out) := split_signal (sr_cur r) (sr_self r) s in
  '(w, ok) ← send_all out order w;
  Done (w, local, ok).

(** ** Applying bundles *)

Context {S : Type} `{SignalSink S}.

Definition import (sink : S) (s : Signal) : S := foldl sink_url (foldl sink_host sink (s_Hosts s)) (s_URLs s).

Definition with_seen (r : SignalRouter) (e : Z) : SignalRouter := mkSignalRouter (sr_self r) (sr_cur r) e.

(** Out of fuel the call has not returned. *)
Fixpoint apply_loop (fuel : nat) (r : SignalRouter) (w : W) (sink : S) (applied : Z) : outcome (SignalRouter * W * S * Z) :=
  match fuel with
  | O => Blocked
  | Datatypes.S fuel =>
      match RecvSignal w (sr_self r) with
      | (w, None) => Done (r, w, sink, applied)
      | (w, Some s) =>
          if s_Epoch s <=? sr_seenEpoch r then apply_loop fuel r w sink applied
          else apply_loop fuel (with_seen r (s_Epoch s)) w (import sink s) (applied + 1)
      end
  end.

Definition signal_Apply (fuel : nat) (r : SignalRouter) (w : W) (sink : S) := apply_loop fuel r w sink 0.

Definition ApplyLocal (r : SignalRouter) (local : Signal) (sink : S) : SignalRouter * S * bool :=
  if (s_Epoch local <=? sr_seenEpoch r) || no_entries local then (r, sink, false)
  else (with_seen r (s_Epoch local), import sink local, true).
End Ship.

(** ** The entries of an owner *)

Definition host_owner (mp : PMap) (h : HostSignal) : PartitionID := Owner mp (hs_HostKey h).
Definition url_owner (mp : PMap) (u : URLSignal) : PartitionID := Owner mp (HostKey (us_URLKey u)).

Definition slice_for (mp : PMap) (s : Signal) (d : PartitionID) : Signal :=
  mkSignal (s_Epoch s) (filter (fun h => host_owner mp h = d) (s_Hosts s)) (filter (fun u => url_owner mp u = d) (s_URLs s)).

(** ** The split *)

Section Split.
Context (mp : PMap) (self : PartitionID) (e : Z).

Definition bundle_of (hs : list HostSignal) (us : list URLSignal) (d : PartitionID) : Signal :=
  mkSignal e (filter (fun h => host_owner mp h = d) hs) (filter (fun u => url_owner mp u = d) us).

(** The state of the split after some hosts and some URLs. *)
Record split_at (hs : list HostSignal) (us : list URLSignal) (st : Signal * gmap PartitionID Signal) : Prop := {
  sp_local : st.1 = bundle_of hs us self;
  sp_out : forall d, st.2 !! d =
    if decide (d = self) then None else if no_entries (bundle_of hs us d) then None else Some (bundle_of hs us d)
}.

Lemma no_entries_spec s : no_entries s = true <-> s_Hosts s = [] /\ s_URLs s = [].
Proof. unfold no_entries. by rewrite bool_decide_eq_true. Qed.

(** One entry more, which [f] adds to its owner's bundle. *)
Lemma at_dest_step hs us hs' us' st o f :
  split_at hs us st ->
  (forall d, bundle_of hs' us' d = if decide (d = o) then f (bundle_of hs us d) else bundle_of hs us d) ->
  (forall s, no_entries (f s) = false) -> split_at hs' us' (at_dest self e o f st).
Proof.
  intros [Hl Ho] Hb Hf. unfold at_dest. destruct (Z.eqb_spec o self) as [-> | Hne]; split; cbn [fst snd].
  - by rewrite Hb, decide_True, Hl.
  - intros d. rewrite Ho. destruct (decide (d = self)); [done |]. by rewrite Hb, decide_False.
  - by rewrite Hb, decide_False.
  - intros d. destruct (decide (d = o)) as [-> | Hd].
    + rewrite lookup_insert_eq, decide_False by done. rewrite Hb, decide_True, Hf by done. do 2 f_equal.
      rewrite Ho, decide_False by done. destruct (no_entries (bundle_of hs us o)) eqn:En; [| done].
      apply no_entries_spec in En as [E1 E2]. unfold bundle_of in *. cbn in *. by rewrite E1, E2.
    + rewrite lookup_insert_ne by done. rewrite Ho. destruct (decide (d = self)); [done |].
      by rewrite Hb, decide_False.
Qed.

Lemma add_host_entries s h : no_entries (add_host s h) = false.
Proof. apply not_true_iff_false. rewrite no_entries_spec. cbn. intros [E _]. by apply app_nil in E as [_ [=]]. Qed.
Lemma add_url_entries s u : no_entries (add_url s u) = false.
Proof. apply not_true_iff_false. rewrite no_entries_spec. cbn. intros [_ E]. by apply app_nil in E as [_ [=]]. Qed.

Lemma split_hosts l hs us st :
  split_at hs us st ->
  split_at (hs ++ l) us (foldl (fun st h => at_dest self e (Owner mp (hs_HostKey h)) (fun b => add_host b h) st) st l).
Proof.
  revert hs st. induction l as [|h l IH]; intros hs st Hst; [by rewrite app_nil_r |].
  cbn [foldl]. replace (hs ++ h :: l) with ((hs ++ [h]) ++ l) by (by rewrite <- app_assoc). apply IH.
  apply (at_dest_step hs us); [done | | intros; apply add_host_entries].
  intros d. unfold bundle_of. rewrite filter_app, filter_cons, filter_nil.
  destruct (decide (d = Owner mp (hs_HostKey h))) as [-> |]; [by rewrite decide_True |].
  rewrite decide_False by (intros E; by apply n). by rewrite app_nil_r.
Qed.

Lemma split_urls l hs us st :
  split_at hs us st ->
  split_at hs (us ++ l)
    (foldl (fun st u => at_dest self e (Owner mp (HostKey (us_URLKey u))) (fun b => add_url b u) st) st l).
Proof.
  revert us st. induction l as [|u l IH]; intros us st Hst; [by rewrite app_nil_r |].
  cbn [foldl]. replace (us ++ u :: l) with ((us ++ [u]) ++ l) by (by rewrite <- app_assoc). apply IH.
  apply (at_dest_step hs us); [done | | intros; apply add_url_entries].
  intros d. unfold bundle_of. rewrite filter_app, filter_cons, filter_nil.
  destruct (decide (d = Owner mp (HostKey (us_URLKey u)))) as [-> |]; [by rewrite decide_True |].
  rewrite decide_False by (intros E; by apply n). by rewrite app_nil_r.
Qed.
End Split.

Lemma split_signal_spec mp self s :
  split_at mp self (s_Epoch s) (s_Hosts s) (s_URLs s) (split_signal mp self s).
Proof.
  unfold split_signal. apply (split_urls _ _ _ (s_URLs s) (s_Hosts s) []), (split_hosts _ _ _ (s_Hosts s) [] []).
  split; [done |]. intros d. cbn. rewrite lookup_empty. by case_decide.
Qed.

(** ** The sends *)

Lemma send_all_content out order (w w' : chanSignalTransport) :
  NoDup order -> (forall d, d ∈ order -> exists b, out !! d = Some b /\ no_entries b = false) ->
  send_all out order w = Done (w', true) ->
  forall d, content w' d = content w d ++ (if decide (d ∈ order) then option_list (out !! d) else []).
Proof.
  intros Hn. revert w. induction Hn as [|o order Ho Hn IH]; intros w Hout E d; cbn in E.
  { injection E as <-. rewrite decide_False by (apply not_elem_of_nil). by rewrite app_nil_r. }
  destruct (Hout o) as (b & Eb & Hb); [left |]. rewrite Eb in E. cbn in E. rewrite Hb in E.
  destruct (chan_push w o b) as [w1 | |] eqn:Ep; try done. cbn in E.
  destruct (chan_push_content _ _ _ _ Ep) as [E1 E2].
  rewrite (IH w1 ltac:(intros; apply Hout; by right) E d). destruct (decide (d = o)) as [-> | Hd].
  - rewrite E1, decide_False, (decide_True (P := o ∈ o :: order)) by (done || left). by rewrite Eb, app_nil_r.
  - rewrite E2 by done. f_equal. destruct (decide (d ∈ order)); [by rewrite decide_True by (by right) |].
    rewrite decide_False; [done |]. by intros [? | ?]%elem_of_cons.
Qed.

(** ** The epoch guard *)

(** The bundles that pass, in order. *)
Fixpoint newer (seen : Z) (qs : list Signal) : list Signal :=
  match qs with
  | [] => []
  | s :: qs => if s_Epoch s <=? seen then newer seen qs else s :: newer (s_Epoch s) qs
  end.

Definition newest (seen : Z) (qs : list Signal) : Z := foldl (fun e s => Z.max e (s_Epoch s)) seen qs.

Lemma newest_le seen qs : seen <= newest seen qs /\ Forall (fun s => s_Epoch s <= newest seen qs) qs.
Proof.
  unfold newest. revert seen. induction qs as [|s qs IH]; intros seen; cbn [foldl]; [split; [lia | constructor] |].
  destruct (IH (Z.max seen (s_Epoch s))) as [H1 H2]. split; [lia |]. constructor; [lia | done].
Qed.

Lemma newer_rising seen qs :
  StronglySorted (fun a b => s_Epoch a < s_Epoch b) (newer seen qs) /\
  Forall (fun s => seen < s_Epoch s) (newer seen qs) /\ newer seen qs `sublist_of` qs.
Proof.
  revert seen. induction qs as [|s qs IH]; intros seen; cbn [newer]; [repeat constructor |].
  destruct (Z.leb_spec (s_Epoch s) seen).
  - destruct (IH seen) as (? & ? & ?). split_and!; try done. by constructor.
  - destruct (IH (s_Epoch s)) as (Hs & Hf & Hl). split_and!.
    + by constructor.
    + constructor; [lia |]. eapply Forall_impl; [exact Hf |]. cbn. lia.
    + by constructor.
Qed.

(** The newest epoch is applied, unless the partition had it. *)
Lemma newer_newest seen qs : newest seen qs = seen \/ exists s, s ∈ newer seen qs /\ s_Epoch s = newest seen qs.
Proof.
  unfold newest. revert seen. induction qs as [|s qs IH]; intros seen; cbn [newer foldl]; [by left |].
  destruct (Z.leb_spec (s_Epoch s) seen); [rewrite Z.max_l by lia; apply IH |].
  rewrite Z.max_r by lia. right. destruct (IH (s_Epoch s)) as [E | (s' & Hs' & E)].
  - exists s. split; [left | done].
  - exists s'. split; [by right | done].
Qed.

(** What was applied once passes no more. *)
Lemma newer_again seen qs : newer (newest seen qs) qs = [].
Proof.
  destruct (newest_le seen qs) as [_ Hf]. revert Hf. generalize (newest seen qs). intros e Hf.
  induction Hf as [|s qs Hs _ IH]; [done |]. cbn. by rewrite (proj2 (Z.leb_le _ _) Hs).
Qed.

Lemma apply_loop_spec {S} `{SignalSink S} fuel r (w : chanSignalTransport) (sink : S) n :
  (length (content w (sr_self r)) < fuel)%nat ->
  exists w', apply_loop fuel r w sink n =
    Done (with_seen r (newest (sr_seenEpoch r) (content w (sr_self r))), w',
      foldl import sink (newer (sr_seenEpoch r) (content w (sr_self r))),
      n + Z.of_nat (length (newer (sr_seenEpoch r) (content w (sr_self r))))) /\
    content w' (sr_self r) = [] /\ forall d, d <> sr_self r -> content w' d = content w d.
Proof.
  revert r w sink n. induction fuel as [|fuel IH]; intros r w sink n Hf; [lia |]. cbn [apply_loop RecvSignal chan_signal_transport].
  destruct (chan_pop_content w (sr_self r)) as (E1 & E2 & E3).
  destruct (chan_pop w (sr_self r)) as [w1 [s |]]; cbn in E1, E2, E3; rewrite E2 in Hf |- *; cbn in Hf.
  - cbn [newer newest foldl app]. destruct (Z.leb_spec (s_Epoch s) (sr_seenEpoch r)).
    + rewrite Z.max_l by lia. destruct (IH r w1 sink n ltac:(lia)) as (w' & -> & ? & Hd). exists w'.
      split_and!; try done. intros d Hne. by rewrite Hd, E1.
    + rewrite Z.max_r by lia.
      destruct (IH (with_seen r (s_Epoch s)) w1 (import sink s) (n + 1)) as (w' & E & ? & Hd); [cbn; lia |]. exists w'.
      rewrite E. cbn [with_seen sr_self sr_cur sr_seenEpoch foldl length]. unfold newest.
      split_and!; try done; [do 2 f_equal; lia |]. intros d Hne. by rewrite Hd, E1.
  - specialize (E3 eq_refl). rewrite E2 in E3. rewrite E3. cbn. exists w1. unfold with_seen. rewrite Z.add_0_r.
    split_and!; [by destruct r | done |]. intros d Hne. by rewrite E1.
Qed.

(** C21: an import is split by owner and the newest wins. Routing a bundle over the channels
    returns the entries of this partition's hosts and appends to every other owner's
    channel one bundle of exactly its entries, in order and under the same epoch, and
    nothing to a partition that owns none of them. Applying ends, empties the channel and
    imports, in order, the bundles whose epoch rises above every one applied before, the
    newest received among them; a second delivery of the same bundles imports nothing. *)
Theorem signals_split_and_newest_wins {S : Type} `{SignalSink S} (r : SignalRouter) (w w' : chanSignalTransport)
    (s local : Signal) (order : list PartitionID)
    (Ho : order ≡ₚ (map_to_list (split_signal (sr_cur r) (sr_self r) s).2).*1)
    (Hr : RouteSignal order r w s = Done (w', local, true)) :
  local = slice_for (sr_cur r) s (sr_self r) /\
  (forall d, content w' d = content w d ++
     (if decide (d = sr_self r) then []
      else if no_entries (slice_for (sr_cur r) s d) then [] else [slice_for (sr_cur r) s d])) /\
  forall (q : SignalRouter) (v : chanSignalTransport) (sink : S) fuel,
    let qs := content v (sr_self q) in
    let took := newer (sr_seenEpoch q) qs in
    (length qs < fuel)%nat ->
    exists v', signal_Apply fuel q v sink =
        Done (with_seen q (newest (sr_seenEpoch q) qs), v', foldl import sink took, Z.of_nat (length took)) /\
      content v' (sr_self q) = [] /\ took `sublist_of` qs /\
      StronglySorted (fun a b => s_Epoch a < s_Epoch b) took /\
      Forall (fun b => sr_seenEpoch q < s_Epoch b) took /\
      Forall (fun b => s_Epoch b <= newest (sr_seenEpoch q) qs) qs /\
      (newest (sr_seenEpoch q) qs = sr_seenEpoch q \/
       exists b, b ∈ took /\ s_Epoch b = newest (sr_seenEpoch q) qs) /\
      newer (newest (sr_seenEpoch q) qs) qs = [].
Proof.
  pose proof (split_signal_spec (sr_cur r) (sr_self r) s) as [Hl Hout].
  unfold RouteSignal in Hr. destruct (split_signal (sr_cur r) (sr_self r) s) as [loc out]. cbn [fst snd] in *.
  destruct (send_all out order w) as [[w1 ok] | |] eqn:Es; try done. cbn in Hr. injection Hr as -> -> ->.
  assert (Hin : forall d, d ∈ order <-> is_Some (out !! d)).
  { intros d. rewrite Ho, list_elem_of_fmap. split.
    - intros ([d' b] & -> & Hb%elem_of_map_to_list). by eexists.
    - intros [b Hb]. exists (d, b). split; [done | by apply elem_of_map_to_list]. }
  split_and!; [done | |].
  - intros d. rewrite (send_all_content out order w w'); [| by rewrite Ho; apply NoDup_fst_map_to_list | | done].
    + f_equal. change (slice_for (sr_cur r) s d) with (bundle_of (sr_cur r) (s_Epoch s) (s_Hosts s) (s_URLs s) d).
      destruct (decide (d ∈ order)) as [Hd | Hd]; rewrite Hin, Hout in Hd; [rewrite Hout |];
        repeat case_match; try done; exfalso; first [by apply Hd | by destruct Hd].
    + intros d' Hd. apply Hin in Hd as [b Hb]. exists b. split; [done |]. rewrite Hout in Hb.
      repeat case_match; try done. by injection Hb as <-.
  - intros q v sink fuel Hf. set (qs := content v (sr_self q)) in *. destruct (apply_loop_spec fuel q v sink 0 Hf) as (v' & E & Hc & _).
    destruct (newer_rising (sr_seenEpoch q) qs) as (? & ? & ?). destruct (newest_le (sr_seenEpoch q) qs).
    exists v'. split_and!; try done; [apply newer_newest | apply newer_again].
Qed.

(** ** A bundle for two partitions *)

#[local] Instance log_sink : SignalSink (list URLSignal * list HostSignal) := {|
  sink_url s u := (s.1 ++ [u], s.2); sink_host s h := (s.1, s.2 ++ [h])
|}.

Definition import_example (epoch : Z) : Signal :=
  mkSignal epoch [mkHostSignal 5 1; mkHostSignal 7 2] [mkURLSignal (mkKey 7 1) 3].

Lemma signals_split_and_newest_wins_witness :
  exists w', RouteSignal [1] (NewSignalRouter 0 pair_map) (newChans 4 : chanSignalTransport) (import_example 9) =
      Done (w', mkSignal 9 [mkHostSignal 5 1] [], true) /\
    content w' 1 = [mkSignal 9 [mkHostSignal 7 2] [mkURLSignal (mkKey 7 1) 3]] /\
    exists q v', signal_Apply 2 (NewSignalRouter 1 pair_map) w' ([], []) =
      Done (q, v', ([mkURLSignal (mkKey 7 1) 3], [mkHostSignal 7 2]), 1).
Proof.
  assert (E : exists w', RouteSignal [1] (NewSignalRouter 0 pair_map) (newChans 4 : chanSignalTransport)
      (import_example 9) = Done (w', mkSignal 9 [mkHostSignal 5 1] [], true))
    by (eexists; vm_compute; reflexivity).
  destruct E as [w' E]. exists w'. split; [exact E |].
  destruct (signals_split_and_newest_wins (S := list URLSignal * list HostSignal)
    (NewSignalRouter 0 pair_map) (newChans 4) w' (import_example 9) _ [1] ltac:(vm_compute; reflexivity) E)
    as (_ & Hc & Ha).
  assert (Hc1 : content w' 1 = [mkSignal 9 [mkHostSignal 7 2] [mkURLSignal (mkKey 7 1) 3]])
    by (rewrite (Hc 1); vm_compute; reflexivity).
  split; [exact Hc1 |].
  destruct (Ha (NewSignalRouter 1 pair_map) w' ([], []) 2%nat) as (v' & Ev & _).
  - cbn [NewSignalRouter sr_self]. rewrite Hc1. cbn. lia.
  - cbn [NewSignalRouter sr_self] in Ev. rewrite Hc1 in Ev. eexists _, v'. exact Ev.
Defined.
