(* ===== verification/StoreLog.v ===== *)
(** * The store's record codec, log and superblock

    store/codec.go, store/log.go and store/superblock.go: the fixed-width values of
    log frames, the frame layout with its CRC, the append, read-back and replay of
    the journal, and the two-slot checkpoint metadata. *)

From S2P Require Import Prelude Words Model Rbuf Page.
Open Scope Z_scope.

(** ** The value reader (vreader)

    It indexes its slice without checks of its own: a short value panics. *)
Definition vr (A : Type) : Type := list Z -> res (A * list Z).
#[export] Instance vr_ret : MRet vr := fun A a b => Ok (a, b).
#[export] Instance vr_bind : MBind vr := fun A B f m b =>
  match m b with Ok (a, b') => f a b' | Err e => Err e end.

Definition vr_int (n : nat) : vr Z := fun b =>
  if (length b <? n)%nat then Err GoPanic else Ok (le_val (take n b), drop n b).
Definition vr_u8 := vr_int 1.
Definition vr_u16 := vr_int 2.
Definition vr_u32 := vr_int 4.
Definition vr_u64 := vr_int 8.
(** A float32 is carried by its bits. *)
Definition vr_f32 := vr_u32.
(** rawInto a slice of [n] bytes. *)
Definition vr_raw (n : nat) : vr (list Z) := fun b =>
  if (length b <? n)%nat then Err GoPanic else Ok (take n b, drop n b).

(** ** Values *)

Definition urlValueSize : nat :=
  1 + 4 + 2 + 1 + 8 + 4 + 4 + 4 + 4 + 4 + 4 + 4 + 2 + 8 + 4 + 8 + 8 + 2 + 8 + 1 + 2.
Definition hostValueSize : nat :=
  8 + 1 + 8 + 16 + 4 + 4 + 4 + 8 + 2 + 4 + 4 + 4 + 4 + 2 + 4 + 4 + 4 + 2 + 2.

Definition encodeURL (r : URLRecord) : list Z :=
  le_bytes 1 (status_code (r_Status r)) ++ le_bytes 4 (r_Priority r) ++ le_bytes 2 (r_Depth r) ++
  le_bytes 1 (r_DiscoverySource r) ++ le_bytes 8 (r_URLRef r) ++ le_bytes 4 (r_FirstSeen r) ++
  le_bytes 4 (r_LastCrawled r) ++ le_bytes 4 (r_LastChanged r) ++ le_bytes 4 (r_NextDue r) ++
  le_bytes 4 (r_Lambda r) ++ le_bytes 4 (r_CrawlCount r) ++ le_bytes 4 (r_ChangeCount r) ++
  le_bytes 2 (r_NoChangeStreak r) ++ le_bytes 8 (r_ETagRef r) ++ le_bytes 4 (r_LastModified r) ++
  le_bytes 8 (r_ContentFP r) ++ le_bytes 8 (r_Simhash r) ++ le_bytes 2 (r_HTTPStatus r) ++
  le_bytes 8 (r_RedirectRef r) ++ le_bytes 1 (r_RetryCount r) ++ le_bytes 2 (r_ErrorCount r).

Definition read_url (key : URLKey) : vr URLRecord :=
  status ← vr_u8; prio ← vr_f32; depth ← vr_u16; src ← vr_u8; ref ← vr_u64;
  fs ← vr_u32; lc ← vr_u32; lch ← vr_u32; due ← vr_u32; lam ← vr_f32;
  cc ← vr_u32; chc ← vr_u32; ncs ← vr_u16; etag ← vr_u64; lm ← vr_u32;
  cfp ← vr_u64; sim ← vr_u64; http ← vr_u16; redir ← vr_u64; retry ← vr_u8; errc ← vr_u16;
  mret (mkURL key (HostKey key) (status_of status) prio depth src ref fs lc lch due lam cc chc ncs
          etag lm cfp sim http redir retry errc).
Definition decodeURL (key : URLKey) (b : list Z) : res URLRecord := fst <$> read_url key b.

Definition encodeHost (h : HostRecord) : list Z :=
  le_bytes 8 (h_HostRef h) ++ le_bytes 1 (h_Grouping h) ++ le_bytes 8 (h_RegistrableRef h) ++
  h_ResolvedIP h ++ le_bytes 4 (h_IPExpiry h) ++ le_bytes 4 (h_RobotsFetched h) ++
  le_bytes 4 (h_RobotsExpiry h) ++ le_bytes 8 (h_RobotsRef h) ++ le_bytes 2 (h_CrawlDelay h) ++
  le_bytes 4 (h_HostNextEligible h) ++ le_bytes 4 (h_IPNextEligible h) ++ le_bytes 4 (h_URLBudget h) ++
  le_bytes 4 (h_URLCount h) ++ le_bytes 2 (h_DepthCap h) ++ le_bytes 4 (h_HostScore h) ++
  le_bytes 4 (h_CrawlTotal h) ++ le_bytes 4 (h_ErrorTotal h) ++ le_bytes 2 (h_AvgLatency h) ++
  le_bytes 2 (h_Flags h).

Definition read_host (key : Z) : vr HostRecord :=
  ref ← vr_u64; grp ← vr_u8; reg ← vr_u64; ip ← vr_raw 16; ipx ← vr_u32; rf ← vr_u32;
  rx ← vr_u32; rr ← vr_u64; cd ← vr_u16; hne ← vr_u32; ine ← vr_u32; bud ← vr_u32;
  cnt ← vr_u32; dep ← vr_u16; score ← vr_f32; ct ← vr_u32; et ← vr_u32; lat ← vr_u16; fl ← vr_u16;
  mret (mkHost key ref grp reg ip ipx rf rx rr cd hne ine bud cnt dep score ct et lat fl).
Definition decodeHost (key : Z) (b : list Z) : res HostRecord := fst <$> read_host key b.

(** [vreads m bs a]: the reader takes exactly [bs] off the front and gives [a]. *)
Definition vreads {A} (m : vr A) (bs : list Z) (a : A) : Prop :=
  forall rest, m (bs ++ rest) = Ok (a, rest).

Lemma vreads_int n v : fits (8 * Z.of_nat n) v -> vreads (vr_int n) (le_bytes n v) v.
Proof.
  intros Hv rest. unfold vr_int. rewrite length_app, le_bytes_length.
  rewrite (proj2 (Nat.ltb_ge _ _)) by lia.
  rewrite take_app_exact, drop_app_exact by (by rewrite le_bytes_length).
  rewrite le_val_bytes; [done |]. unfold fits in Hv.
  by rewrite Z.pow_mul_r in Hv by lia.
Qed.

Lemma vreads_raw bs : vreads (vr_raw (length bs)) bs bs.
Proof.
  intros rest. unfold vr_raw. rewrite length_app, (proj2 (Nat.ltb_ge _ _)) by lia.
  by rewrite take_app_exact, drop_app_exact.
Qed.

Lemma vreads_ret {A} (a : A) : vreads (mret a) [] a.
Proof. done. Qed.

Lemma vreads_bind {A B} (m : vr A) (f : A -> vr B) bs1 bs2 a b :
  vreads m bs1 a -> vreads (f a) bs2 b -> vreads (m ≫= f) (bs1 ++ bs2) b.
Proof.
  intros H1 H2 rest. rewrite <- app_assoc. unfold mbind, vr_bind. rewrite H1. apply H2.
Qed.

Lemma vreads_bind_last {A B} (m : vr A) (f : A -> vr B) bs a b :
  vreads m bs a -> vreads (f a) [] b -> vreads (m ≫= f) bs b.
Proof. intros H1 H2. rewrite <- (app_nil_r bs). by eapply vreads_bind. Qed.

Create HintDb vreads discriminated.
#[export] Hint Resolve vreads_int vreads_ret : vreads.
Ltac vreads_tac :=
  repeat first [ eapply vreads_bind; [solve [apply vreads_int; done] |]
               | eapply vreads_bind_last; [solve [apply vreads_int; done] |] ].

Lemma read_url_spec r : url_wf r -> vreads (read_url (r_URLKey r)) (encodeURL r) r.
Proof.
  intros (Hk & Hh & Hs & ?). destruct_and?.
  pose proof (status_code_fits _ Hs) as Hsf. pose proof (status_of_code _ Hs) as Hso.
  unfold read_url, encodeURL, vr_f32, vr_u8, vr_u16, vr_u32, vr_u64. vreads_tac.
  rewrite Hso. destruct r; simpl in *; subst. apply vreads_ret.
Qed.

Lemma read_host_spec h : host_wf h -> vreads (read_host (h_HostKey h)) (encodeHost h) h.
Proof.
  intros (Hk & Hr & Hg & Hreg & [Hip _] & ?). destruct_and?.
  unfold read_host, encodeHost, vr_f32, vr_u8, vr_u16, vr_u32, vr_u64.
  do 3 (eapply vreads_bind; [solve [apply vreads_int; done] |]).
  eapply vreads_bind; [rewrite <- Hip; apply vreads_raw |]. vreads_tac.
  destruct h; simpl in *. apply vreads_ret.
Qed.

Lemma encodeURL_length r : length (encodeURL r) = urlValueSize.
Proof. unfold encodeURL. rewrite !length_app, !le_bytes_length. reflexivity. Qed.

Lemma encodeHost_length h : host_wf h -> length (encodeHost h) = hostValueSize.
Proof.
  intros (Hk & Hr & Hg & Hreg & [Hip _] & _). unfold encodeHost.
  rewrite !length_app, !le_bytes_length, Hip. reflexivity.
Qed.

Lemma decodeURL_encode r : url_wf r -> decodeURL (r_URLKey r) (encodeURL r) = Ok r.
Proof.
  intros Hr. unfold decodeURL. rewrite <- (app_nil_r (encodeURL r)). by rewrite (read_url_spec r Hr).
Qed.

Lemma decodeHost_encode h : host_wf h -> decodeHost (h_HostKey h) (encodeHost h) = Ok h.
Proof.
  intros Hr. unfold decodeHost. rewrite <- (app_nil_r (encodeHost h)). by rewrite (read_host_spec h Hr).
Qed.

(** ** The log *)

Definition kindURL : Z := 0.
Definition kindHost : Z := 1.
Definition kindIntern : Z := 2.
Definition kindMask : Z := 0x7f.
Definition tombBit : Z := 0x80.
Definition frameHeaderSize : nat := 14.

Definition DurabilityNone : Z := 0.
Definition DurabilityNormal : Z := 1.
Definition DurabilityFull : Z := 2.

(** The log file's bytes and the append bookkeeping; [written] always equals the
    offset, since every append stores it before it returns. *)
Record log := mkLog { l_f : list Z; l_off : nat; l_nextLSN : Z; l_synced : nat; l_dur : Z }.

Definition openLog (file : list Z) (dur : Z) : log :=
  mkLog file (length file) 1 (length file) dur.

(** os.File.WriteAt; a gap past the end reads as zeros. *)
Definition write_at (f : list Z) (off : nat) (buf : list Z) : list Z :=
  take off (f ++ replicate (off - length f) 0) ++ buf ++ drop (off + length buf) f.

(** The checksummed part of a frame; [key] is cut at [klen]. *)
Definition frame_body (lsn kind klen : Z) (key val : list Z) : list Z :=
  le_bytes 8 lsn ++ le_bytes 1 kind ++ le_bytes 1 klen ++ le_bytes 4 (Z.of_nat (length val)) ++
  take (Z.to_nat klen) key ++ val.
Definition frame_bytes (lsn kind klen : Z) (key val : list Z) : list Z :=
  let body := frame_body lsn kind klen key val in body ++ le_bytes 4 (crc32c body).

(** log.append: the log after it, the offset of the frame and its sequence number. *)
Definition log_append (l : log) (kind klen : Z) (key val : list Z) : log * nat * Z :=
  let lsn := l_nextLSN l in
  let buf := frame_bytes lsn kind klen key val in
  let off := l_off l in
  (mkLog (write_at (l_f l) off buf) (off + length buf) (u64 (lsn + 1)) (l_synced l) (l_dur l), off, lsn).

Definition peekLSN (l : log) : Z := l_nextLSN l.
Definition setLSN (l : log) (n : Z) : log := mkLog (l_f l) (l_off l) n (l_synced l) (l_dur l).

Definition fsync (l : log) (upTo : nat) : log :=
  if (upTo <=? l_synced l)%nat then l
  else mkLog (l_f l) (l_off l) (l_nextLSN l) (l_off l) (l_dur l).
Definition log_commit (l : log) (upTo : nat) : log :=
  if negb (l_dur l =? DurabilityFull) then l else fsync l upTo.
Definition syncAll (l : log) : log := fsync l (l_off l).

(** os.File.ReadAt of [n] bytes; a short read is io.EOF. *)
Definition read_at (f : list Z) (off n : nat) : res (list Z) :=
  if (off + n <=? length f)%nat then Ok (slice f off (off + n)) else Err ErrShortFile.

(** log.readAt: kind, key length, key and value of the frame at [off]. *)
Definition readAt (l : log) (off : nat) : res (Z * Z * list Z * list Z) :=
  hdr ← read_at (l_f l) off frameHeaderSize;
  let kind := le_at hdr 8 1 in
  let klen := le_at hdr 9 1 in
  let vlen := le_at hdr 10 4 in
  let k := Z.to_nat klen in
  let v := Z.to_nat vlen in
  rest ← read_at (l_f l) (off + frameHeaderSize) (k + v + 4);
  let whole := hdr ++ rest in
  let n := (length whole - 4)%nat in
  _ ← ensure (crc32c (take n whole) =? le_at whole n 4) ErrTornFrame;
  Ok (kind, klen, take k rest, slice rest k (k + v)).

Record frame := mkFrame {
  fr_lsn : Z; fr_kind : Z; fr_tomb : bool; fr_off : nat; fr_key : list Z; fr_val : list Z }.

(** log.replay from offset [off], [b] the bytes not read yet; every frame has at
    least 18 bytes, so [length b] turns are enough. *)
Fixpoint replay_loop {S} (fn : S -> frame -> res S) (fuel : nat) (b : list Z) (off : nat) (st : S) : res S :=
  match fuel with
  | O => Ok st
  | S fuel =>
      if (length b <? frameHeaderSize)%nat then Ok st
      else
        let k := Z.to_nat (le_at b 9 1) in
        let v := Z.to_nat (le_at b 10 4) in
        let frameLen := (frameHeaderSize + (k + v + 4))%nat in
        if (length b <? frameLen)%nat then Ok st
        else if negb (crc32c (take (frameLen - 4) b) =? le_at b (frameLen - 4) 4) then Ok st
        else
          let kind := le_at b 8 1 in
          let f := mkFrame (le_at b 0 8) (Z.land kind kindMask)
                     (negb (Z.land kind tombBit =? 0)) off
                     (slice b frameHeaderSize (frameHeaderSize + k))
                     (slice b (frameHeaderSize + k) (frameHeaderSize + k + v)) in
          match fn st f with
          | Err e => Err e
          | Ok st => replay_loop fn fuel (drop frameLen b) (off + frameLen) st
          end
  end.
Definition replay {S} (fn : S -> frame -> res S) (file : list Z) (st : S) : res S :=
  replay_loop fn (length file) file 0 st.

(** ** The superblock *)

Definition slotSize : nat := 256.
Definition sbSize : nat := 512.
Definition sbMagic : Z := 0x4d454755.

Record checkpointMeta := mkMeta {
  cm_gen : Z; cm_frontier : Z; cm_arenaLen : Z; cm_snapshot : list Z; cm_logName : list Z }.

Definition putStr (s : list Z) : list Z := le_bytes 2 (Z.of_nat (length s)) ++ s.

(** The slot is zero padded; names that leave no room for the second length make
    PutUint16 panic, and bytes past the slot are not copied. *)
Definition encodeSlot (m : checkpointMeta) : res (list Z) :=
  let head := le_bytes 4 sbMagic ++ le_bytes 8 (cm_gen m) ++ le_bytes 8 (cm_frontier m) ++
              le_bytes 8 (cm_arenaLen m) in
  _ ← ensure (length head + length (putStr (cm_snapshot m)) + 2 <=? slotSize)%nat GoPanic;
  let b := take (slotSize - 4)
             (head ++ putStr (cm_snapshot m) ++ putStr (cm_logName m) ++ replicate slotSize 0) in
  Ok (b ++ le_bytes 4 (crc32c b)).

(** A length running past the slot, which no slot that was written has, is modelled
    as a panic. *)
Definition getStr (b : list Z) : res (list Z * nat) :=
  _ ← ensure (2 <=? length b)%nat GoPanic;
  let n := Z.to_nat (le_at b 0 2) in
  _ ← ensure (2 + n <=? length b)%nat GoPanic;
  Ok (slice b 2 (2 + n), (2 + n)%nat).

(** [Ok None] is the not-ok result. *)
Definition decodeSlot (b : list Z) : res (option checkpointMeta) :=
  if (length b <? slotSize)%nat || negb (le_at b 0 4 =? sbMagic) then Ok None
  else if negb (crc32c (take (slotSize - 4) b) =? le_at b (slotSize - 4) 4) then Ok None
  else
    '(snapshot, n) ← getStr (drop 28 b);
    '(logName, _) ← getStr (drop (28 + n) b);
    Ok (Some (mkMeta (le_at b 4 8) (le_at b 12 8) (le_at b 20 8) snapshot logName)).

(** [None]: the file does not exist. *)
Definition readSuperblock (file : option (list Z)) : res checkpointMeta :=
  match file with
  | None => Err ErrNoCheckpoint
  | Some b =>
      _ ← ensure (sbSize <=? length b)%nat ErrNoCheckpoint;
      a ← decodeSlot (take slotSize b);
      c ← decodeSlot (drop slotSize b);
      match a, c with
      | Some a, Some c => if cm_gen c <=? cm_gen a then Ok a else Ok c
      | Some a, None => Ok a
      | None, Some c => Ok c
      | None, None => Err ErrNoCheckpoint
      end
  end.

(** writeSuperblock: the file after it. *)
Definition writeSuperblock (file : option (list Z)) (m : checkpointMeta) : res (list Z) :=
  let b := match file with
           | Some e => if (sbSize <=? length e)%nat then take sbSize e else replicate sbSize 0
           | None => replicate sbSize 0
           end in
  slot ← encodeSlot m;
  let b := if cm_gen m mod 2 =? 0 then slot ++ drop slotSize b else take slotSize b ++ slot in
  Ok (write_at (default [] file) 0 b).

(** ** Lemmas on frames *)

Lemma write_at_end f buf : write_at f (length f) buf = f ++ buf.
Proof.
  unfold write_at. rewrite Nat.sub_diag, app_nil_r, take_ge by lia.
  by rewrite drop_ge, app_nil_r by lia.
Qed.

(** Writing over the whole file. *)
Lemma write_at_all f buf : length f = length buf -> write_at f 0 buf = buf.
Proof. intros E. unfold write_at. cbn. rewrite drop_ge by lia. apply app_nil_r. Qed.

Record frame_wf (lsn kind : Z) (key val : list Z) : Prop := {
  fw_lsn : fits 64 lsn; fw_kind : fits 8 kind;
  fw_key : Z.of_nat (length key) < 256; fw_val : Z.of_nat (length val) < 2 ^ 32 }.

Abbreviation frame_of lsn kind key val := (frame_bytes lsn kind (Z.of_nat (length key)) key val).

Definition frame_len (key val : list Z) : nat := frameHeaderSize + (length key + length val + 4).

Lemma frame_of_eq lsn kind key val :
  frame_of lsn kind key val =
  le_bytes 8 lsn ++ le_bytes 1 kind ++ le_bytes 1 (Z.of_nat (length key)) ++
  le_bytes 4 (Z.of_nat (length val)) ++ key ++ val ++
  le_bytes 4 (crc32c (frame_body lsn kind (Z.of_nat (length key)) key val)).
Proof.
  unfold frame_bytes. cbv zeta. unfold frame_body at 1. rewrite <- !app_assoc.
  by rewrite Nat2Z.id, take_ge by lia.
Qed.

Lemma frame_body_length lsn kind key val :
  length (frame_body lsn kind (Z.of_nat (length key)) key val) = (frameHeaderSize + (length key + length val))%nat.
Proof.
  unfold frame_body. rewrite !length_app, !le_bytes_length, Nat2Z.id, take_ge by lia.
  unfold frameHeaderSize. lia.
Qed.

Lemma frame_of_length lsn kind key val : length (frame_of lsn kind key val) = frame_len key val.
Proof.
  unfold frame_bytes. cbv zeta. rewrite length_app, frame_body_length, le_bytes_length. unfold frame_len. lia.
Qed.

(** The fields a reader finds at the front of [frame ++ rest]. *)
Lemma frame_fields lsn kind key val rest :
  frame_wf lsn kind key val ->
  let b := frame_of lsn kind key val ++ rest in
  le_at b 0 8 = lsn /\ le_at b 8 1 = kind /\ le_at b 9 1 = Z.of_nat (length key) /\
  le_at b 10 4 = Z.of_nat (length val) /\
  slice b 14 (14 + length key) = key /\
  slice b (14 + length key) (14 + length key + length val) = val /\
  take (14 + (length key + length val)) b = frame_body lsn kind (Z.of_nat (length key)) key val /\
  le_at b (14 + (length key + length val)) 4 =
    crc32c (frame_body lsn kind (Z.of_nat (length key)) key val).
Proof.
  intros [Hl Hk Hkl Hvl]. cbv zeta.
  assert (fits 8 (Z.of_nat (length key))) by (unfold fits; lia).
  assert (fits 32 (Z.of_nat (length val))) by (unfold fits; lia).
  pose proof (crc32c_fits (frame_body lsn kind (Z.of_nat (length key)) key val)) as Hc.
  set (hd := le_bytes 8 lsn ++ le_bytes 1 kind ++ le_bytes 1 (Z.of_nat (length key)) ++
             le_bytes 4 (Z.of_nat (length val))).
  assert (Hhd : length hd = 14%nat) by (unfold hd; by rewrite !length_app, !le_bytes_length).
  assert (E : frame_of lsn kind key val ++ rest =
    hd ++ key ++ val ++ le_bytes 4 (crc32c (frame_body lsn kind (Z.of_nat (length key)) key val)) ++ rest)
    by (rewrite frame_of_eq; unfold hd; by rewrite <- !app_assoc).
  assert (Eb : frame_body lsn kind (Z.of_nat (length key)) key val = hd ++ key ++ val).
  { unfold frame_body, hd. rewrite <- !app_assoc. by rewrite Nat2Z.id, take_ge by lia. }
  repeat split.
  1-4: rewrite frame_of_eq, <- !app_assoc; fields; done.
  - rewrite E, <- Hhd. apply slice_app_exact.
  - rewrite E, (app_assoc hd), <- Hhd, <- length_app. apply slice_app_exact.
  - rewrite E, Eb. rewrite (app_assoc key), (app_assoc hd). apply take_app_exact.
    rewrite !length_app. lia.
  - rewrite E, (app_assoc key), (app_assoc hd). rewrite le_at_skip by (rewrite !length_app; lia).
    rewrite !length_app, Hhd, Nat.sub_diag. by rewrite le_at_here.
Qed.

Definition parsed (lsn kind : Z) (off : nat) (key val : list Z) : frame :=
  mkFrame lsn (Z.land kind kindMask) (negb (Z.land kind tombBit =? 0)) off key val.

(** An intact frame is handed to the callback and replay goes on behind it. *)
Lemma replay_frame {S} (fn : S -> frame -> res S) fuel lsn kind key val rest off st :
  frame_wf lsn kind key val ->
  replay_loop fn (Datatypes.S fuel) (frame_of lsn kind key val ++ rest) off st =
  match fn st (parsed lsn kind off key val) with
  | Err e => Err e
  | Ok st => replay_loop fn fuel rest (off + frame_len key val) st
  end.
Proof.
  intros Hw. destruct (frame_fields lsn kind key val rest Hw) as (E1 & E2 & E3 & E4 & E5 & E6 & E7 & E8).
  pose proof (frame_of_length lsn kind key val) as Hl.
  cbn [replay_loop]. cbv zeta. rewrite E1, E2, E3, E4, !Nat2Z.id.
  rewrite length_app, Hl. unfold frame_len, frameHeaderSize in *.
  rewrite !(proj2 (Nat.ltb_ge _ _)) by lia.
  replace (14 + (length key + length val + 4) - 4)%nat with (14 + (length key + length val))%nat by lia.
  rewrite E5, E6, E7, E8, Z.eqb_refl. cbn [negb].
  rewrite drop_app_exact by (by rewrite Hl). reflexivity.
Qed.

(** Where replay stops: too few bytes for the header, for the frame its header
    announces, or a checksum that does not match. *)
Definition torn (b : list Z) : Prop :=
  (length b < frameHeaderSize)%nat \/
  let n := (frameHeaderSize + (Z.to_nat (le_at b 9 1) + Z.to_nat (le_at b 10 4) + 4))%nat in
  (length b < n)%nat \/ crc32c (take (n - 4) b) <> le_at b (n - 4) 4.

Lemma replay_torn {S} (fn : S -> frame -> res S) fuel b off st :
  torn b -> replay_loop fn fuel b off st = Ok st.
Proof.
  destruct fuel as [|fuel]; [done |]. cbn [replay_loop]. cbv zeta.
  destruct (length b <? frameHeaderSize)%nat eqn:E0; [done |]. bool_prop.
  intros [H | [H | H]]; [lia | |].
  - by rewrite (proj2 (Nat.ltb_lt _ _)).
  - case_match; [done |]. by rewrite (proj2 (Z.eqb_neq _ _)).
Qed.

(** A frame cut short anywhere is torn. *)
Lemma torn_prefix lsn kind key val n :
  frame_wf lsn kind key val -> (n < frame_len key val)%nat -> torn (take n (frame_of lsn kind key val)).
Proof.
  intros Hw Hn. unfold torn. pose proof (frame_of_length lsn kind key val) as Hl.
  rewrite length_take, Hl. replace (n `min` frame_len key val)%nat with n by lia.
  destruct (decide (n < frameHeaderSize)%nat) as [| Hge]; [by left |]. right. cbv zeta.
  destruct (frame_fields lsn kind key val [] Hw) as (_ & _ & E3 & E4 & _). rewrite app_nil_r in E3, E4.
  rewrite <- (take_drop n (frame_of lsn kind key val)) in E3, E4.
  unfold frameHeaderSize in *.
  rewrite le_at_app_l in E3, E4 by (rewrite length_take, Hl; unfold frame_len, frameHeaderSize in *; lia).
  rewrite E3, E4, !Nat2Z.id. left. unfold frame_len, frameHeaderSize in Hn. lia.
Qed.

Lemma take_slice {A} (l : list A) i j : (i <= j)%nat -> take i l ++ slice l i j = take j l.
Proof.
  intros H. unfold slice. replace j with (i + (j - i))%nat at 2 by lia.
  apply take_take_drop.
Qed.

Lemma slice_app_add {A} (pre b : list A) i j :
  slice (pre ++ b) (length pre + i) (length pre + j) = slice b i j.
Proof.
  unfold slice. rewrite drop_app_add. f_equal. lia.
Qed.

(** The frame at an offset of the file reads back. *)
Lemma readAt_frame pre lsn kind key val rest l :
  frame_wf lsn kind key val -> l_f l = pre ++ frame_of lsn kind key val ++ rest ->
  readAt l (length pre) = Ok (kind, Z.of_nat (length key), key, val).
Proof.
  intros Hw Ef. destruct (frame_fields lsn kind key val rest Hw) as (E1 & E2 & E3 & E4 & E5 & E6 & E7 & E8).
  pose proof (frame_of_length lsn kind key val) as Hl. unfold readAt, read_at. rewrite Ef.
  set (b := frame_of lsn kind key val ++ rest) in *. rewrite length_app.
  assert (Hb : (frame_len key val <= length b)%nat) by (unfold b; rewrite length_app; lia).
  unfold frame_len, frameHeaderSize in *. set (n := (length key + length val)%nat) in *.
  rewrite (proj2 (Nat.leb_le _ _)) by lia. cbn [mbind res_bind]. cbv zeta.
  assert (E0 : slice (pre ++ b) (length pre) (length pre + 14) = take 14 b).
  { rewrite <- (Nat.add_0_r (length pre)) at 1. rewrite slice_app_add. unfold slice.
    by rewrite drop_0, Nat.sub_0_r. }
  rewrite E0. rewrite <- (take_drop 14 b) in E2, E3, E4.
  rewrite le_at_app_l in E2, E3, E4 by (rewrite length_take; lia).
  rewrite E2, E3, E4, !Nat2Z.id. fold n.
  rewrite (proj2 (Nat.leb_le _ _)) by lia. cbn [mbind res_bind].
  replace (length pre + 14 + (n + 4))%nat with (length pre + (14 + (n + 4)))%nat by lia.
  rewrite slice_app_add, take_slice by lia. rewrite length_take.
  replace ((14 + (n + 4)) `min` length b - 4)%nat with (14 + n)%nat by lia.
  rewrite take_take. replace ((14 + n) `min` (14 + (n + 4)))%nat with (14 + n)%nat by lia.
  rewrite E7. rewrite <- (take_drop (14 + (n + 4)) b) in E8.
  rewrite le_at_app_l in E8 by (rewrite length_take; lia). rewrite E8, Z.eqb_refl. cbn [ensure mbind res_bind].
  do 2 f_equal; [f_equal |].
  - etransitivity; [| exact E5]. unfold slice. rewrite take_take. f_equal. lia.
  - etransitivity; [| exact E6]. unfold slice. rewrite skipn_firstn_comm, drop_drop, take_take.
    f_equal. lia.
Qed.

(** ** Whole logs *)

(** What one append adds: kind byte, key and value. *)
Abbreviation entry := (Z * list Z * list Z)%type.

Definition entry_wf (e : entry) : Prop :=
  let '(kind, key, val) := e in
  fits 8 kind /\ Z.of_nat (length key) < 256 /\ Z.of_nat (length val) < 2 ^ 32.
#[export] Instance entry_wf_dec e : Decision (entry_wf e).
Proof. destruct e as [[kind key] val]. unfold entry_wf. apply _. Defined.

Definition entry_bytes (lsn : Z) (e : entry) : list Z :=
  let '(kind, key, val) := e in frame_of lsn kind key val.
Definition entry_len (e : entry) : nat := let '(_, key, val) := e in frame_len key val.
Definition entry_frame (lsn : Z) (off : nat) (e : entry) : frame :=
  let '(kind, key, val) := e in parsed lsn kind off key val.

Fixpoint log_bytes (lsn : Z) (es : list entry) : list Z :=
  match es with
  | [] => []
  | e :: es => entry_bytes lsn e ++ log_bytes (lsn + 1) es
  end.
Fixpoint log_frames (lsn : Z) (off : nat) (es : list entry) : list frame :=
  match es with
  | [] => []
  | e :: es => entry_frame lsn off e :: log_frames (lsn + 1) (off + entry_len e) es
  end.
Definition log_len (es : list entry) : nat := sum_list (entry_len <$> es).

Fixpoint fold_res {S A} (fn : S -> A -> res S) (st : S) (l : list A) : res S :=
  match l with
  | [] => Ok st
  | x :: l => match fn st x with Ok st => fold_res fn st l | Err e => Err e end
  end.

Lemma entry_bytes_length lsn e : length (entry_bytes lsn e) = entry_len e.
Proof. destruct e as [[kind key] val]. apply frame_of_length. Qed.

Lemma log_bytes_length lsn es : length (log_bytes lsn es) = log_len es.
Proof.
  revert lsn. induction es as [|e es IH]; intros lsn; [done |]. cbn [log_bytes].
  rewrite length_app, entry_bytes_length, IH. reflexivity.
Qed.

Lemma log_bytes_app lsn es1 es2 :
  log_bytes lsn (es1 ++ es2) = log_bytes lsn es1 ++ log_bytes (lsn + Z.of_nat (length es1)) es2.
Proof.
  revert lsn. induction es1 as [|e es1 IH]; intros lsn; cbn [log_bytes app length].
  - by rewrite Z.add_0_r.
  - rewrite IH, app_assoc. do 2 f_equal. lia.
Qed.

Lemma entry_len_pos e : (18 <= entry_len e)%nat.
Proof. destruct e as [[kind key] val]. unfold entry_len, frame_len, frameHeaderSize. lia. Qed.

Lemma log_len_cons e es : log_len (e :: es) = (entry_len e + log_len es)%nat.
Proof. reflexivity. Qed.

Lemma log_len_app es1 es2 : log_len (es1 ++ es2) = (log_len es1 + log_len es2)%nat.
Proof.
  induction es1 as [|e es1 IH]; [done |]. cbn [app]. rewrite !log_len_cons, IH. lia.
Qed.

Lemma log_len_ge es : (length es <= log_len es)%nat.
Proof.
  induction es as [|e es IH]; [done |]. unfold log_len in *. cbn. pose proof (entry_len_pos e). lia.
Qed.

Lemma replay_log {S} (fn : S -> frame -> res S) fuel lsn off es tail st :
  Forall entry_wf es -> 0 <= lsn -> lsn + Z.of_nat (length es) <= 2 ^ 64 -> torn tail ->
  (length es <= fuel)%nat ->
  replay_loop fn fuel (log_bytes lsn es ++ tail) off st = fold_res fn st (log_frames lsn off es).
Proof.
  intros Hw. revert fuel lsn off st. induction Hw as [|e es He _ IH]; intros fuel lsn off st H0 Hlsn Ht Hf.
  { by apply replay_torn. }
  destruct fuel as [|fuel]; [simpl in Hf; lia |]. cbn [length] in Hlsn, Hf.
  destruct e as [[kind key] val]. destruct He as (Hk & Hkl & Hvl).
  cbn [log_bytes entry_bytes log_frames entry_frame entry_len fold_res]. rewrite <- app_assoc.
  rewrite replay_frame by (split; unfold fits; done || lia).
  destruct (fn st _); [| done]. apply IH; [lia | lia | done | lia].
Qed.

Lemma torn_nil : torn [].
Proof. left. simpl. unfold frameHeaderSize. lia. Qed.

(** A log cut at any byte is some whole frames and a torn rest. *)
Lemma log_cut lsn es n :
  Forall entry_wf es -> 0 <= lsn -> lsn + Z.of_nat (length es) <= 2 ^ 64 ->
  exists k tail, take n (log_bytes lsn es) = log_bytes lsn (take k es) ++ tail /\ torn tail /\
    (log_len (take k es) <= n)%nat /\
    ((k < length es)%nat -> (n < log_len (take (S k) es))%nat) /\ (k <= length es)%nat.
Proof.
  intros Hw. revert lsn n. induction Hw as [|e es He Hw IH]; intros lsn n H0 Hlsn.
  { exists 0%nat, []. cbn. rewrite take_nil. split; [reflexivity |]. split; [apply torn_nil |].
    unfold log_len. cbn. lia. }
  cbn [length log_bytes] in *. destruct (decide (entry_len e <= n)%nat) as [Hn | Hn].
  - destruct (IH (lsn + 1) (n - entry_len e)%nat ltac:(lia) ltac:(lia)) as (k & tail & E & Ht & Hk & Hk' & Hl).
    exists (S k), tail. rewrite take_app_ge by (rewrite entry_bytes_length; lia).
    rewrite entry_bytes_length, E. rewrite !firstn_cons, !log_len_cons. cbn [log_bytes].
    rewrite app_assoc. split; [done |]. split; [done |]. split; [lia |]. split; [| lia].
    intros Hlt. specialize (Hk' ltac:(lia)). lia.
  - exists 0%nat, (take n (entry_bytes lsn e)). rewrite take_app_le by (rewrite entry_bytes_length; lia).
    split; [done |]. rewrite firstn_cons, log_len_cons. destruct e as [[kind key] val].
    destruct He as (Hk & Hkl & Hvl).
    split; [apply torn_prefix; [split; unfold fits; done || lia | unfold entry_len in Hn; lia] |].
    split; [unfold log_len; cbn; lia |]. split; [| lia]. intros _. unfold entry_len in *. lia.
Qed.

(** ** The log as the store uses it *)

Definition log_step (l : log) (e : entry) : log :=
  let '(kind, key, val) := e in (log_append l kind (Z.of_nat (length key)) key val).1.1.

(** The bytes, offset and next sequence number after appends to a log of
    well-formed entries. *)
Definition log_holds (l : log) (first : Z) (es : list entry) : Prop :=
  l_f l = log_bytes first es /\ l_off l = log_len es /\ l_nextLSN l = first + Z.of_nat (length es).

Lemma log_append_holds l first es kind key val :
  log_holds l first es -> 0 <= first -> first + Z.of_nat (length es) + 1 < 2 ^ 64 ->
  let '(l', off, lsn) := log_append l kind (Z.of_nat (length key)) key val in
  log_holds l' first (es ++ [(kind, key, val)]) /\ off = log_len es /\
  lsn = first + Z.of_nat (length es) /\ l_synced l' = l_synced l /\ l_dur l' = l_dur l.
Proof.
  intros (Ef & Eo & El) H0 Hb. unfold log_append. cbv zeta.
  assert (Hw : l_off l = length (l_f l)) by (by rewrite Ef, log_bytes_length).
  rewrite Hw at 1. rewrite write_at_end. split; [| by rewrite El]. unfold log_holds. cbn [l_f l_off l_nextLSN].
  rewrite log_bytes_app, Ef, El, Eo. cbn [log_bytes entry_bytes]. rewrite app_nil_r.
  split; [done |]. split.
  - rewrite frame_of_length, log_len_app, log_len_cons. cbn [entry_len]. change (log_len []) with 0%nat. lia.
  - rewrite length_app. simpl length. rewrite u64_small by (unfold fits; lia). lia.
Qed.

(** ** Slots *)

Record meta_wf (m : checkpointMeta) : Prop := {
  mw_gen : fits 64 (cm_gen m); mw_frontier : fits 64 (cm_frontier m); mw_arena : fits 64 (cm_arenaLen m);
  mw_names : (28 + (2 + length (cm_snapshot m)) + (2 + length (cm_logName m)) <= slotSize - 4)%nat }.

Definition slot_head (m : checkpointMeta) : list Z :=
  le_bytes 4 sbMagic ++ le_bytes 8 (cm_gen m) ++ le_bytes 8 (cm_frontier m) ++ le_bytes 8 (cm_arenaLen m).
Definition slot_body (m : checkpointMeta) : list Z :=
  slot_head m ++ putStr (cm_snapshot m) ++ putStr (cm_logName m) ++
  replicate (slotSize - 4 - (32 + length (cm_snapshot m) + length (cm_logName m))) 0.

Lemma slot_head_length m : length (slot_head m) = 28%nat.
Proof. unfold slot_head. by rewrite !length_app, !le_bytes_length. Qed.
Lemma putStr_length s : length (putStr s) = (2 + length s)%nat.
Proof. unfold putStr. by rewrite length_app, le_bytes_length. Qed.

Lemma slot_body_length m : meta_wf m -> length (slot_body m) = 252%nat.
Proof.
  intros [_ _ _ Hn]. unfold slot_body, slotSize in *.
  rewrite !length_app, slot_head_length, !putStr_length, length_replicate. lia.
Qed.

Lemma encodeSlot_ok m : meta_wf m ->
  encodeSlot m = Ok (slot_body m ++ le_bytes 4 (crc32c (slot_body m))).
Proof.
  intros Hm. pose proof (slot_body_length m Hm) as Hl. destruct Hm as [_ _ _ Hn].
  unfold encodeSlot. cbv zeta. fold (slot_head m). rewrite slot_head_length, putStr_length.
  unfold slotSize in *. rewrite (proj2 (Nat.leb_le _ _)) by lia. cbn [ensure mbind res_bind].
  assert (E : take (256 - 4) (slot_head m ++ putStr (cm_snapshot m) ++ putStr (cm_logName m) ++ replicate 256 0)
              = slot_body m).
  { unfold slot_body, slotSize. set (k := (256 - 4 - (32 + length (cm_snapshot m) + length (cm_logName m)))%nat).
    replace 256%nat with (k + (256 - k))%nat at 2 by lia. rewrite replicate_add.
    rewrite (app_assoc (putStr (cm_logName m))), (app_assoc (putStr (cm_snapshot m))), (app_assoc (slot_head m)).
    apply take_app_exact. rewrite !length_app, slot_head_length, !putStr_length, length_replicate. lia. }
  by rewrite E.
Qed.

Lemma getStr_putStr s rest : Z.of_nat (length s) < 2 ^ 16 -> getStr (putStr s ++ rest) = Ok (s, (2 + length s)%nat).
Proof.
  intros Hs. unfold getStr. assert (fits (8 * Z.of_nat 2) (Z.of_nat (length s))) by (unfold fits; simpl; lia).
  unfold putStr. rewrite !length_app, le_bytes_length, <- app_assoc.
  rewrite (proj2 (Nat.leb_le 2 _)) by lia. cbn [ensure mbind res_bind]. cbv zeta.
  rewrite le_at_here by done. rewrite Nat2Z.id, (proj2 (Nat.leb_le _ _)) by lia. cbn [ensure mbind res_bind].
  do 2 f_equal. pose proof (slice_app_exact (le_bytes 2 (Z.of_nat (length s))) s rest) as E.
  by rewrite le_bytes_length in E.
Qed.

Lemma decodeSlot_encode m rest :
  meta_wf m -> decodeSlot (slot_body m ++ le_bytes 4 (crc32c (slot_body m)) ++ rest) = Ok (Some m).
Proof.
  intros Hm. pose proof (slot_body_length m Hm) as Hl. pose proof (crc32c_fits (slot_body m)) as Hc.
  set (cs := le_bytes 4 (crc32c (slot_body m))). destruct Hm as [Hg Hf Ha Hn].
  assert (Hcs : length cs = 4%nat) by apply le_bytes_length.
  unfold decodeSlot, slotSize in *. rewrite !length_app, Hl, Hcs.
  rewrite (proj2 (Nat.ltb_ge _ _)) by lia. cbn [orb].
  assert (Hfld : le_at (slot_body m ++ cs ++ rest) 0 4 = sbMagic /\ le_at (slot_body m ++ cs ++ rest) 4 8 = cm_gen m /\
    le_at (slot_body m ++ cs ++ rest) 12 8 = cm_frontier m /\ le_at (slot_body m ++ cs ++ rest) 20 8 = cm_arenaLen m).
  { unfold slot_body, slot_head. rewrite <- !app_assoc. assert (fits 32 sbMagic) by done.
    repeat split; fields; done. }
  destruct Hfld as (-> & -> & -> & ->). rewrite Z.eqb_refl. cbn [negb].
  rewrite take_app_exact by lia. rewrite le_at_skip by lia. rewrite Hl. cbn [Nat.sub].
  unfold cs at 1. rewrite le_at_here by done. rewrite Z.eqb_refl. cbn [negb].
  assert (Ed : drop 28 (slot_body m ++ cs ++ rest) =
    putStr (cm_snapshot m) ++ putStr (cm_logName m) ++
    replicate (256 - 4 - (32 + length (cm_snapshot m) + length (cm_logName m))) 0 ++ cs ++ rest).
  { unfold slot_body, slotSize. rewrite <- !app_assoc. apply drop_app_exact. by rewrite slot_head_length. }
  rewrite Ed, getStr_putStr by lia. cbn [mbind res_bind].
  rewrite <- (drop_drop _ _ 28), Ed.
  rewrite drop_app_exact by (by rewrite putStr_length). rewrite getStr_putStr by lia. cbn [mbind res_bind].
  by destruct m.
Qed.

(** Which half of the file a generation's slot is. *)
Definition in_slot {A} (gen : Z) (mine other : list A) : list A :=
  if gen mod 2 =? 0 then mine ++ other else other ++ mine.

(** [committed b m o]: [b] holds [m] in the slot of its generation and [o] in the
    other, which is invalid or older. *)
Definition committed (b : list Z) (m : checkpointMeta) (o : list Z) : Prop :=
  meta_wf m /\ length o = slotSize /\
  b = in_slot (cm_gen m) (slot_body m ++ le_bytes 4 (crc32c (slot_body m))) o /\
  (decodeSlot o = Ok None \/ exists m', decodeSlot o = Ok (Some m') /\ cm_gen m' < cm_gen m).

Lemma slot_length m : meta_wf m -> length (slot_body m ++ le_bytes 4 (crc32c (slot_body m))) = 256%nat.
Proof. intros Hm. by rewrite length_app, slot_body_length, le_bytes_length. Qed.

Lemma decodeSlot_exact m : meta_wf m -> decodeSlot (slot_body m ++ le_bytes 4 (crc32c (slot_body m))) = Ok (Some m).
Proof.
  intros Hm. pose proof (decodeSlot_encode m [] Hm) as E. by rewrite app_nil_r in E.
Qed.

Lemma committed_read b m o : committed b m o -> readSuperblock (Some b) = Ok m.
Proof.
  intros (Hm & Ho & -> & Hd). pose proof (slot_length m Hm) as Hl. unfold readSuperblock, in_slot, sbSize, slotSize in *.
  pose proof (decodeSlot_exact m Hm) as Em.
  destruct (cm_gen m mod 2 =? 0); rewrite length_app, Hl, Ho; cbn [Nat.leb Nat.add ensure mbind res_bind].
  all: rewrite take_app_exact, drop_app_exact by lia; rewrite Em.
  all: destruct Hd as [-> | (m' & -> & Hlt)]; cbn [mbind res_bind]; try done.
  - by rewrite (proj2 (Z.leb_le _ _)) by lia.
  - by rewrite (proj2 (Z.leb_gt _ _)) by lia.
Qed.

(** C36: the checkpoint commit is atomic.  Over a file whose committed slot is [m1],
    writing the next generation [m2] touches only the other slot: once it is complete
    readSuperblock returns [m2], and the file again has the shape the next commit
    needs; if the write is torn, whatever bytes its slot then holds short of a valid
    checksum, readSuperblock still returns [m1]. *)
Theorem superblock_commit_atomic (b o : list Z) (m1 m2 : checkpointMeta)
    (Hc : committed b m1 o) (Hw : meta_wf m2) (Hgen : cm_gen m2 = cm_gen m1 + 1) :
  let slot1 := slot_body m1 ++ le_bytes 4 (crc32c (slot_body m1)) in
  exists b2, writeSuperblock (Some b) m2 = Ok b2 /\ committed b2 m2 slot1 /\
    readSuperblock (Some b2) = Ok m2 /\
    (forall torn_slot, length torn_slot = slotSize -> decodeSlot torn_slot = Ok None ->
       readSuperblock (Some (in_slot (cm_gen m2) torn_slot slot1)) = Ok m1).
Proof.
  destruct Hc as (Hm1 & Ho & -> & Hd). cbv zeta.
  pose proof (slot_length m1 Hm1) as L1. pose proof (slot_length m2 Hw) as L2.
  set (slot1 := slot_body m1 ++ _) in *. set (slot2 := slot_body m2 ++ _) in *.
  assert (Hpar : (cm_gen m2 mod 2 =? 0) = negb (cm_gen m1 mod 2 =? 0)).
  { rewrite Hgen. destruct (cm_gen m1 mod 2 =? 0) eqn:E; bool_prop; cbn [negb];
      [apply Z.eqb_neq | apply Z.eqb_eq]; divmod. }
  assert (Hc2 : committed (in_slot (cm_gen m2) slot2 slot1) m2 slot1).
  { split; [done |]. split; [done |]. split; [done |]. right. exists m1.
    split; [by apply decodeSlot_exact | lia]. }
  exists (in_slot (cm_gen m2) slot2 slot1). split; [| split; [done | split; [by eapply committed_read |]]].
  - unfold writeSuperblock. rewrite encodeSlot_ok by done. fold slot2. cbn [mbind res_bind default].
    unfold in_slot, sbSize, slotSize in *. rewrite Hpar.
    destruct (cm_gen m1 mod 2 =? 0); cbn [negb]; rewrite length_app, L1, Ho; cbn [Nat.leb Nat.add];
      rewrite (take_ge _ 512) by (rewrite length_app; lia).
    + rewrite take_app_exact by lia. do 2 f_equal. apply write_at_all.
      change (length (slot1 ++ o) = length (slot1 ++ slot2)). rewrite (length_app slot1 o), (length_app slot1 slot2). lia.
    + rewrite drop_app_exact by lia. do 2 f_equal. apply write_at_all.
      change (length (o ++ slot1) = length (slot2 ++ slot1)). rewrite (length_app o slot1), (length_app slot2 slot1). lia.
  - intros t Ht Hdt. apply (committed_read _ _ t). split; [done |]. split; [done |]. split; [| by left].
    fold slot1. unfold in_slot. rewrite Hpar. by destruct (cm_gen m1 mod 2 =? 0).
Qed.

Definition meta_example (gen : Z) : checkpointMeta := mkMeta gen 9 1 [115; 49] [108; 49].

Lemma meta_example_wf gen : fits 64 gen -> meta_wf (meta_example gen).
Proof. intros Hg. split; [done | fits_const | fits_const | vm_compute; lia]. Qed.

Definition superblock_example : list Z :=
  in_slot 4 (slot_body (meta_example 4) ++ le_bytes 4 (crc32c (slot_body (meta_example 4)))) (replicate 256 0).

Lemma superblock_commit_atomic_witness :
  exists b2, writeSuperblock (Some superblock_example) (meta_example 5) = Ok b2 /\
    readSuperblock (Some b2) = Ok (meta_example 5).
Proof.
  destruct (superblock_commit_atomic superblock_example (replicate 256 0) (meta_example 4) (meta_example 5))
    as (b2 & E & _ & Er & _).
  - split; [apply meta_example_wf; fits_const |]. split; [reflexivity |]. split; [reflexivity |].
    left. reflexivity.
  - apply meta_example_wf. fits_const.
  - reflexivity.
  - exists b2. split; [exact E | exact Er].
Defined.

(** The fixed-width record values round trip: a URL and a host record of in-range
    fields decode to themselves from exactly the advertised number of bytes, with
    the key taken from the frame. *)
Theorem record_values_roundtrip (r : URLRecord) (h : HostRecord) (Hr : url_wf r) (Hh : host_wf h) :
  decodeURL (r_URLKey r) (encodeURL r) = Ok r /\ length (encodeURL r) = urlValueSize /\
  decodeHost (h_HostKey h) (encodeHost h) = Ok h /\ length (encodeHost h) = hostValueSize.
Proof.
  split; [by apply decodeURL_encode |]. split; [apply encodeURL_length |].
  split; [by apply decodeHost_encode | by apply encodeHost_length].
Qed.

Definition url_example : URLRecord :=
  mkURL (mkKey 3 4) 3 StatusReady 5 6 1 7 8 9 10 11 12 13 14 15 16 17 18 19 200 20 1 2.
Definition host_rec_example : HostRecord :=
  mkHost 3 1 0 1 (replicate 16 127) 0 0 0 0 5 0 0 100 1 8 0 1 0 20 0.

Lemma record_values_roundtrip_witness :
  decodeURL (mkKey 3 4) (encodeURL url_example) = Ok url_example /\
  decodeHost 3 (encodeHost host_rec_example) = Ok host_rec_example.
Proof.
  destruct (record_values_roundtrip url_example host_rec_example) as (E1 & _ & E2 & _).
  - apply (bool_decide_unpack _). vm_compute. exact I.
  - apply (bool_decide_unpack _). vm_compute. exact I.
  - split; [exact E1 | exact E2].
Defined.

Lemma log_steps_hold l first es0 es :
  log_holds l first es0 -> 0 <= first -> first + Z.of_nat (length (es0 ++ es)) < 2 ^ 64 ->
  log_holds (foldl log_step l es) first (es0 ++ es).
Proof.
  revert l es0. induction es as [|[[kind key] val] es IH]; intros l es0 Hl H0 Hb; cbn [foldl].
  { by rewrite app_nil_r. }
  rewrite length_app in Hb. cbn [length] in Hb.
  pose proof (log_append_holds l first es0 kind key val Hl H0 ltac:(lia)) as Ha.
  rewrite (cons_middle _ es0 es), app_assoc. apply IH; [| done | rewrite !length_app; cbn [length]; lia].
  unfold log_step. destruct (log_append _ _ _ _ _) as [[l' off] lsn]. apply Ha.
Qed.

(** The altered byte of a frame, away from its two length fields, breaks it. *)
Lemma torn_altered lsn kind key val rest i x y :
  frame_wf lsn kind key val -> Forall byte_ok key -> Forall byte_ok val ->
  frame_of lsn kind key val !! i = Some x -> byte_ok y -> x <> y -> (i < 9 \/ 14 <= i)%nat ->
  torn (<[i := y]> (frame_of lsn kind key val) ++ rest).
Proof.
  intros Hw Hkey Hval Hi Hy Hne Hpos. pose proof (frame_of_length lsn kind key val) as Hl.
  pose proof (lookup_lt_Some _ _ _ Hi) as Hlt. rewrite Hl in Hlt.
  destruct (frame_fields lsn kind key val rest Hw) as (_ & _ & E3 & E4 & _ & _ & E7 & E8).
  assert (Eb : <[i := y]> (frame_of lsn kind key val) ++ rest = <[i := y]> (frame_of lsn kind key val ++ rest))
    by (by rewrite insert_app_l by (rewrite Hl; lia)).
  rewrite Eb. set (b := frame_of lsn kind key val ++ rest) in *.
  assert (Hib : b !! i = Some x) by (unfold b; by rewrite lookup_app_l by (rewrite Hl; lia)).
  assert (Hx : byte_ok x).
  { assert (Hall : Forall byte_ok (frame_of lsn kind key val)).
    { rewrite frame_of_eq. repeat (apply Forall_app; split); try apply le_bytes_ok; done. }
    rewrite Forall_lookup in Hall. by eapply Hall. }
  unfold torn. right. cbv zeta. right.
  assert (Hk : le_at (<[i := y]> b) 9 1 = le_at b 9 1) by (unfold le_at; rewrite slice_insert_out by lia; done).
  assert (Hv : le_at (<[i := y]> b) 10 4 = le_at b 10 4) by (unfold le_at; rewrite slice_insert_out by lia; done).
  rewrite Hk, Hv, E3, E4, !Nat2Z.id. unfold frame_len, frameHeaderSize in *.
  replace (14 + (length key + length val + 4) - 4)%nat with (14 + (length key + length val))%nat by lia.
  set (n := (14 + (length key + length val))%nat) in *.
  destruct (decide (i < n)%nat) as [Hin | Hout].
  - rewrite take_insert_lt by done. unfold le_at. rewrite slice_insert_out by lia.
    change (le_val (slice b n (n + 4))) with (le_at b n 4). rewrite E8, <- E7.
    apply crc32c_insert with x; [by rewrite lookup_take_lt by done | by apply byte_neq].
  - rewrite take_insert_ge by lia. rewrite E7. unfold le_at. rewrite slice_insert_in by lia.
    apply not_eq_sym.
    assert (Es : slice b n (n + 4) = le_bytes 4 (crc32c (frame_body lsn kind (Z.of_nat (length key)) key val))).
    { unfold b. unfold frame_bytes. cbv zeta. rewrite <- app_assoc.
      pose proof (slice_app_exact (frame_body lsn kind (Z.of_nat (length key)) key val)
        (le_bytes 4 (crc32c (frame_body lsn kind (Z.of_nat (length key)) key val))) rest) as E.
      rewrite frame_body_length, le_bytes_length in E. exact E. }
    apply (le_bytes_neq 4).
    + rewrite length_insert, Es. apply le_bytes_length.
    + apply Forall_insert_ok; [rewrite Es; apply le_bytes_ok | done].
    + rewrite <- Es. eapply list_insert_neq; [| done]. apply slice_lookup; [done | lia].
Qed.

(** The log as a recovery journal.  After any appends to a fresh log, replay of
    the file cut at an arbitrary byte hands the callback exactly the entries whose
    frames lie wholly before the cut, in order, with their sequence numbers and
    offsets, and nothing else; every entry reads back through readAt at its offset;
    and when one byte of a frame is altered outside its two length fields, replay
    stops just before that frame whatever follows it. *)
Theorem log_recovers_prefix {S} (fn : S -> frame -> res S) (st : S) (dur : Z) (es : list entry) (n : nat)
    (Hes : Forall entry_wf es) (Hn : Z.of_nat (length es) < 2 ^ 32) :
  let l := foldl log_step (openLog [] dur) es in
  (exists k, replay fn (take n (l_f l)) st = fold_res fn st (log_frames 1 0 (take k es)) /\
     (log_len (take k es) <= n)%nat /\ ((k < length es)%nat -> (n < log_len (take (Datatypes.S k) es))%nat)) /\
  (forall es1 kind key val es2, es = es1 ++ (kind, key, val) :: es2 ->
     readAt l (log_len es1) = Ok (kind, Z.of_nat (length key), key, val) /\
     forall i x y, Forall byte_ok key -> Forall byte_ok val ->
       l_f l !! (log_len es1 + i)%nat = Some x -> (i < entry_len (kind, key, val))%nat ->
       (i < 9 \/ 14 <= i)%nat -> byte_ok y -> x <> y ->
       replay fn (<[(log_len es1 + i)%nat := y]> (l_f l)) st = fold_res fn st (log_frames 1 0 es1)).
Proof.
  cbv zeta.
  destruct (log_steps_hold (openLog [] dur) 1 [] es) as (Ef & Eo & El); [done | lia | simpl; lia |].
  cbn [app] in Ef. set (l := foldl log_step (openLog [] dur) es) in *. rewrite Ef. split.
  - destruct (log_cut 1 es n Hes ltac:(lia) ltac:(lia)) as (k & tail & E & Ht & H1 & H2 & H3).
    exists k. split; [| done]. unfold replay. rewrite E. apply replay_log; [by apply Forall_take | lia | | done |].
    + rewrite length_take. lia.
    + rewrite length_app, log_bytes_length. pose proof (log_len_ge (take k es)). lia.
  - intros es1 kind key val es2 ->. apply Forall_app in Hes as [Hes1 Hes2].
    inversion Hes2 as [|? ? He Hes3]; subst. destruct He as (Hk & Hkl & Hvl).
    rewrite length_app in Hn. cbn [length] in Hn.
    assert (Hw : frame_wf (1 + Z.of_nat (length es1)) kind key val) by (split; unfold fits; done || lia).
    rewrite log_bytes_app in Ef |- *. cbn [log_bytes entry_bytes] in Ef |- *.
    rewrite <- (log_bytes_length 1 es1). split.
    { by eapply readAt_frame. }
    intros i x y Hkb Hvb Hi Hil Hpos Hy Hne.
    set (fb := frame_of _ _ _ _) in *. set (rest := log_bytes _ es2) in *.
    assert (Hfb : length fb = frame_len key val) by apply frame_of_length.
    unfold entry_len in Hil.
    rewrite lookup_app_r in Hi by lia.
    replace (length (log_bytes 1 es1) + i - length (log_bytes 1 es1))%nat with i in Hi by lia.
    rewrite lookup_app_l in Hi by lia.
    rewrite insert_app_r. rewrite insert_app_l by lia.
    unfold replay. apply replay_log; [done | lia | lia | by eapply torn_altered |].
    rewrite length_app, log_bytes_length. pose proof (log_len_ge es1). lia.
Qed.

(** Two entries, the second cut short. *)
Lemma log_recovers_prefix_witness :
  let es := [(kindURL, [1; 2], [3]); (kindHost, [4], [5; 6])] in
  let l := foldl log_step (openLog [] 0) es in
  replay (fun st f => Ok (st ++ [fr_val f])) (take 30 (l_f l)) [] = Ok [[3]] /\
  readAt l 21 = Ok (kindHost, 1, [4], [5; 6]).
Proof.
  split; [vm_compute; reflexivity |].
  assert (Hes : Forall entry_wf [(kindURL, [1; 2], [3]); (kindHost, [4], [5; 6])])
    by (apply (bool_decide_unpack _); vm_compute; exact I).
  exact (proj1 (proj2 (log_recovers_prefix (fun st f => Ok (st ++ [fr_val f])) [] 0
    [(kindURL, [1; 2], [3]); (kindHost, [4], [5; 6])] 30 Hes (eq_refl Lt))
    [(kindURL, [1; 2], [3])] kindHost [4] [5; 6] [] eq_refl)).
Defined.

(** A log reopened over a torn tail appends behind it: openLog positions the
    offset at the end of the file, torn bytes included, so a write acknowledged
    (and fsynced) after the restart is lost by the next replay. *)
Theorem reopened_log_loses_appends :
  let l := foldl log_step (openLog [] DurabilityFull) [(kindURL, [1], [2]); (kindURL, [3], [4])] in
  let crashed := take 30 (l_f l) in
  let l2 := log_step (openLog crashed DurabilityFull) (kindURL, [5], [6]) in
  let vals := replay (fun st f => Ok (st ++ [fr_val f])) in
  vals crashed [] = Ok [[2]] /\ vals (l_f l2) [] = Ok [[2]] /\
  readAt l2 30 = Ok (kindURL, 1, [5], [6]).
Proof.
  cbv zeta. split; [vm_compute; reflexivity |]. split; vm_compute; reflexivity.
Qed.
