(* ===== verification/Store.v ===== *)
(** * The durable store of a partition

    store/store.go: the resident index over the log, the string arena, eviction
    under a resident budget, the checkpoint that folds the live state into a
    snapshot and rotates the log, and the recovery that loads the snapshot and
    replays the log.  The store is proved to be a map of records behind a journal.

    The 256 shards hold disjoint keys and every access goes through [shard], so the
    index is one map; the locks, which serialize the operations modelled here, are
    not modelled, and file operations succeed unless the process crashes. *)

From S2P Require Import Prelude Words Model Rbuf Page File Arena Ops StoreLog.
Open Scope Z_scope.

(** ** The snapshot format, as the store relies on it *)

Class SnapshotCodec := {
  snap_enc : Partition -> res (list Z);
  snap_dec : list Z -> res Partition;
  snap_ok : Partition -> Prop }.

(** A partition the format accepts decodes to the same rows, arena and identity. *)
Class SnapshotLaws `{SnapshotCodec} := {
  snap_roundtrip p : snap_ok p ->
    exists b q, snap_enc p = Ok b /\ snap_dec b = Ok q /\
      p_URLs q = p_URLs p /\ p_Hosts q = p_Hosts p /\ p_Strings q = p_Strings p /\
      p_ID q = p_ID p /\ p_CreatedHours q = p_CreatedHours p /\ p_DefaultCodec q = p_DefaultCodec p;
  snap_strings p : snap_ok p -> Z.of_nat (length (p_Strings p)) < 2 ^ 64 }.

(** ** State *)

Record urlLoc := mkUrlLoc { ul_off : nat; ul_lsn : Z; ul_rec : option URLRecord; ul_tomb : bool }.
Record hostLoc := mkHostLoc { hl_off : nat; hl_lsn : Z; hl_rec : HostRecord; hl_tomb : bool }.

(** The directory: file contents by name.  The open log's bytes are in [s_log]. *)
Abbreviation directory := (gmap (list Z) (list Z)).

Record Store := mkStore {
  s_dir : directory; s_dur : Z; s_log : log; s_logName : list Z; s_gen : Z;
  s_arena : list Z; s_urls : gmap URLKey urlLoc; s_hosts : gmap Z hostLoc;
  s_budget : Z; s_residentN : Z; s_evictQ : list URLKey;
  s_id : Z; s_created : Z; s_codec : Z; s_lo : Z; s_hi : Z }.

Definition with_log (s : Store) (l : log) : Store :=
  mkStore (s_dir s) (s_dur s) l (s_logName s) (s_gen s) (s_arena s) (s_urls s) (s_hosts s)
    (s_budget s) (s_residentN s) (s_evictQ s) (s_id s) (s_created s) (s_codec s) (s_lo s) (s_hi s).
Definition with_arena (s : Store) (a : list Z) : Store :=
  mkStore (s_dir s) (s_dur s) (s_log s) (s_logName s) (s_gen s) a (s_urls s) (s_hosts s)
    (s_budget s) (s_residentN s) (s_evictQ s) (s_id s) (s_created s) (s_codec s) (s_lo s) (s_hi s).
Definition with_urls (s : Store) (u : gmap URLKey urlLoc) : Store :=
  mkStore (s_dir s) (s_dur s) (s_log s) (s_logName s) (s_gen s) (s_arena s) u (s_hosts s)
    (s_budget s) (s_residentN s) (s_evictQ s) (s_id s) (s_created s) (s_codec s) (s_lo s) (s_hi s).
Definition with_hosts (s : Store) (h : gmap Z hostLoc) : Store :=
  mkStore (s_dir s) (s_dur s) (s_log s) (s_logName s) (s_gen s) (s_arena s) (s_urls s) h
    (s_budget s) (s_residentN s) (s_evictQ s) (s_id s) (s_created s) (s_codec s) (s_lo s) (s_hi s).
Definition with_resident (s : Store) (n : Z) (q : list URLKey) : Store :=
  mkStore (s_dir s) (s_dur s) (s_log s) (s_logName s) (s_gen s) (s_arena s) (s_urls s) (s_hosts s)
    (s_budget s) n q (s_id s) (s_created s) (s_codec s) (s_lo s) (s_hi s).

(** ** Interning *)

(** Intern takes the arena lock for the append, releases it and then appends to the
    log under the log's own lock: two steps, so two callers can interleave. *)
Definition intern_arena (s : Store) (entry : list Z) : Store * Z :=
  (with_arena s (s_arena s ++ entry), Z.of_nat (length (s_arena s))).
Definition intern_log (s : Store) (entry : list Z) : Store :=
  with_log s (log_append (s_log s) kindIntern 0 [] entry).1.1.

Definition intern_entry (s : Store) (entry : list Z) : Store * Z :=
  let '(s, off) := intern_arena s entry in (intern_log s entry, off).

Definition Intern (s : Store) (str : list Z) : Store * Z :=
  if decide (str = []) then (s, 0) else intern_entry s (arena_entry str).

Definition Str (s : Store) (off : Z) : res (list Z) := readArena (s_arena s) off.

Definition InternRobots `{BlockCodec} (s : Store) (blob : list Z) : Store * Z :=
  if decide (blob = []) then (s, 0) else intern_entry s (arena_entry (PackRobots blob (s_codec s))).

(** [None] is the nil blob. *)
Definition Robots `{BlockCodec} (s : Store) (off : Z) : res (option (list Z)) :=
  packed ← arenaRead (s_arena s) off;
  match packed with
  | None | Some [] => Ok None
  | Some p => Ok (UnpackRobots p (s_codec s) RobotsSizeHint)
  end.

(** ** Residency *)

(** The loop of trackResident; each turn takes a key off the queue. *)
Fixpoint evict_loop (q : list URLKey) (s : Store) : Store :=
  match q with
  | [] => with_resident s (s_residentN s) []
  | victim :: q' =>
      if s_residentN s <=? s_budget s then with_resident s (s_residentN s) q
      else
        let s := match s_urls s !! victim with
          | Some loc =>
              match ul_rec loc, ul_tomb loc with
              | Some _, false =>
                  let u := <[victim := mkUrlLoc (ul_off loc) (ul_lsn loc) None false]> (s_urls s) in
                  with_resident (with_urls s u) (s_residentN s - 1) (s_evictQ s)
              | _, _ => s
              end
          | None => s
          end in
        evict_loop q' s
  end.

Definition trackResident (s : Store) (key : URLKey) : Store :=
  if s_budget s <=? 0 then s
  else evict_loop (s_evictQ s ++ [key]) (with_resident s (s_residentN s + 1) (s_evictQ s ++ [key])).

(** ** Reads and writes *)

Definition PutURL (s : Store) (rec : URLRecord) : Store * Z :=
  let key := r_URLKey rec in
  let '(l, off, lsn) := log_append (s_log s) kindURL 16 (Bytes key) (encodeURL rec) in
  let l := log_commit l (off + (frameHeaderSize + 16 + urlValueSize + 4)) in
  let s := with_log s l in
  let newResident := match s_urls s !! key with
                     | Some loc => match ul_rec loc with Some _ => false | None => true end
                     | None => true end in
  let s := with_urls s (<[key := mkUrlLoc off lsn (Some rec) false]> (s_urls s)) in
  (if newResident then trackResident s key else s, lsn).

(** The spilled read ignores every error of readAt. *)
Definition GetURL (s : Store) (key : URLKey) : res (Store * option URLRecord) :=
  match s_urls s !! key with
  | None => Ok (s, None)
  | Some loc =>
      if ul_tomb loc then Ok (s, None)
      else match ul_rec loc with
      | Some rec => Ok (s, Some rec)
      | None =>
          match readAt (s_log s) (ul_off loc) with
          | Err _ => Ok (s, None)
          | Ok (_, _, _, val) =>
              rec ← decodeURL key val;
              let u := <[key := mkUrlLoc (ul_off loc) (ul_lsn loc) (Some rec) false]> (s_urls s) in
              Ok (trackResident (with_urls s u) key, Some rec)
          end
      end
  end.

Definition DeleteURL (s : Store) (key : URLKey) : Store :=
  let '(l, off, lsn) := log_append (s_log s) (Z.lor kindURL tombBit) 16 (Bytes key) [] in
  let l := log_commit l (off + (frameHeaderSize + 16 + 4)) in
  let s := with_log s l in
  with_urls s (<[key := mkUrlLoc off lsn None true]> (s_urls s)).

Definition PutHost (s : Store) (rec : HostRecord) : Store * Z :=
  let key := h_HostKey rec in
  let '(l, off, lsn) := log_append (s_log s) kindHost 8 (le_bytes 8 key) (encodeHost rec) in
  let l := log_commit l (off + (frameHeaderSize + 8 + hostValueSize + 4)) in
  let s := with_log s l in
  (with_hosts s (<[key := mkHostLoc off lsn rec false]> (s_hosts s)), lsn).

Definition GetHost (s : Store) (key : Z) : option HostRecord :=
  match s_hosts s !! key with
  | Some loc => if hl_tomb loc then None else Some (hl_rec loc)
  | None => None
  end.

Definition URLCount (s : Store) : nat :=
  length (filter (fun e => ul_tomb e.2 = false) (map_to_list (s_urls s))).
Definition HostCount (s : Store) : nat :=
  length (filter (fun e => hl_tomb e.2 = false) (map_to_list (s_hosts s))).
Definition Resident (s : Store) : Z := s_residentN s.
Definition LSN (s : Store) : Z := peekLSN (s_log s).

(** ** Checkpoint *)

(** The record of one index entry, as the snapshot collects it: a spilled record that
    does not read back is left out. *)
Definition snapshot_url (s : Store) (key : URLKey) (loc : urlLoc) : res (list URLRecord) :=
  if ul_tomb loc then Ok []
  else match ul_rec loc with
  | Some rec => Ok [rec]
  | None =>
      match readAt (s_log s) (ul_off loc) with
      | Err _ => Ok []
      | Ok (_, _, _, val) => rec ← decodeURL key val; Ok [rec]
      end
  end.

Fixpoint collect {A B} (f : A -> res (list B)) (l : list A) : res (list B) :=
  match l with
  | [] => Ok []
  | x :: l => a ← f x; b ← collect f l; Ok (a ++ b)
  end.

Definition snapshotPartition (s : Store) : res Partition :=
  urls ← collect (fun e => snapshot_url s e.1 e.2) (map_to_list (s_urls s));
  let urls := merge_sort url_order urls in
  let hosts := (hl_rec ∘ snd) <$> filter (fun e => hl_tomb e.2 = false) (map_to_list (s_hosts s)) in
  let hosts := merge_sort host_order hosts in
  let lo := default 0 (h_HostKey <$> head hosts) in
  let hi := default (2 ^ 64 - 1) (h_HostKey <$> last hosts) in
  Ok (mkPartition (s_id s) lo hi (s_created s) (s_codec s) urls hosts (s_arena s) [] false 0 ∅).

(** [fmt.Sprintf] of a uint64: its decimal digits. *)
Fixpoint dec_loop (fuel : nat) (n : Z) (acc : list Z) : list Z :=
  match fuel with
  | O => acc
  | S fuel => if n <? 10 then (48 + n) :: acc else dec_loop fuel (n / 10) ((48 + n mod 10) :: acc)
  end.
Definition decimal (n : Z) : list Z := dec_loop 20 n [].

Definition log_name (n : Z) : list Z := [108; 111; 103; 45] ++ decimal n.              (* "log-%d" *)
Definition snap_name (n : Z) : list Z :=
  [115; 110; 97; 112; 45] ++ decimal n ++ [46; 109; 101; 103; 117; 114; 105].          (* "snap-%d.meguri" *)
Definition super_name : list Z := [115; 117; 112; 101; 114].                           (* "super" *)

Section Checkpoint.
Context `{SnapshotCodec}.

(** Store.commit.  Closing the old log leaves its bytes in the directory, where its
    name by generation is then removed with the superseded snapshot; the new log is
    opened on whatever its file holds. *)
Definition commit (s : Store) (part : Partition) : res Store :=
  let frontier := peekLSN (s_log s) in
  let nextGen := u64 (s_gen s + 1) in
  img ← snap_enc part;
  let dir := <[snap_name nextGen := img]> (s_dir s) in
  let newLogName := log_name (u64 (nextGen + 1)) in
  let newLog := setLSN (openLog (default [] (dir !! newLogName)) (s_dur s)) frontier in
  let meta := mkMeta nextGen frontier (Z.of_nat (length (p_Strings part))) (snap_name nextGen) newLogName in
  super ← writeSuperblock (dir !! super_name) meta;
  let dir := <[super_name := super]> dir in
  let dir := <[s_logName s := l_f (s_log s)]> dir in
  let dir := delete (log_name nextGen) dir in
  let dir := if 1 <? nextGen then delete (snap_name (nextGen - 1)) dir else dir in
  Ok (mkStore dir (s_dur s) newLog newLogName nextGen (s_arena s) (s_urls s) (s_hosts s)
        (s_budget s) (s_residentN s) (s_evictQ s) (s_id s) (s_created s) (s_codec s) (s_lo s) (s_hi s)).

Definition Checkpoint (s : Store) : res Store := part ← snapshotPartition s; commit s part.
Definition Snapshot (s : Store) : res Partition := snapshotPartition s.
Definition CheckpointFrom (s : Store) (part : Partition) : res Store := commit s part.

(** ** Recovery *)

(** [16]byte(fr.key) and readU64 panic on a short key. *)
Definition frame_key (fr : frame) : res URLKey :=
  _ ← ensure (16 <=? length (fr_key fr))%nat GoPanic;
  Ok (URLKeyFromBytes (fr_key fr)).
Definition readU64 (b : list Z) : res Z :=
  _ ← ensure (8 <=? length b)%nat GoPanic;
  Ok (le_val (take 8 b)).

(** The replay callback; it also carries the highest sequence number. *)
Definition recover_frame (st : Store * Z) (fr : frame) : res (Store * Z) :=
  let '(s, maxLSN) := st in
  let maxLSN := Z.max maxLSN (fr_lsn fr) in
  if fr_kind fr =? kindIntern then Ok (with_arena s (s_arena s ++ fr_val fr), maxLSN)
  else if fr_kind fr =? kindURL then
    key ← frame_key fr;
    loc ← (if fr_tomb fr then Ok (mkUrlLoc (fr_off fr) (fr_lsn fr) None true)
           else rec ← decodeURL key (fr_val fr); Ok (mkUrlLoc (fr_off fr) (fr_lsn fr) (Some rec) false));
    Ok (with_urls s (<[key := loc]> (s_urls s)), maxLSN)
  else if fr_kind fr =? kindHost then
    key ← readU64 (fr_key fr);
    loc ← (if fr_tomb fr then
             let old := match s_hosts s !! key with
                        | Some l => hl_rec l
                        | None => mkHost 0 0 0 0 (replicate 16 0) 0 0 0 0 0 0 0 0 0 0 0 0 0 0 0 end in
             Ok (mkHostLoc (fr_off fr) (fr_lsn fr) old true)
           else rec ← decodeHost key (fr_val fr); Ok (mkHostLoc (fr_off fr) (fr_lsn fr) rec false));
    Ok (with_hosts s (<[key := loc]> (s_hosts s)), maxLSN)
  else Ok (s, maxLSN).

(** The snapshot's rows load resident, with no log offset. *)
Definition install (s : Store) (part : Partition) : Store :=
  let urls := foldl (fun m r => <[r_URLKey r := mkUrlLoc 0 0 (Some r) false]> m) (s_urls s) (p_URLs part) in
  let hosts := foldl (fun m h => <[h_HostKey h := mkHostLoc 0 0 h false]> m) (s_hosts s) (p_Hosts part) in
  mkStore (s_dir s) (s_dur s) (s_log s) (s_logName s) (s_gen s)
    (if decide (p_Strings part = []) then s_arena s else p_Strings part) urls hosts
    (s_budget s) (s_residentN s) (s_evictQ s) (p_ID part) (p_CreatedHours part) (p_DefaultCodec part)
    (p_HostKeyLo part) (p_HostKeyHi part).

(** A missing snapshot file is an os error. *)
Definition recover (s : Store) (meta : checkpointMeta) : res Store :=
  let s := mkStore (s_dir s) (s_dur s) (s_log s) (cm_logName meta) (cm_gen meta) (s_arena s) (s_urls s)
             (s_hosts s) (s_budget s) (s_residentN s) (s_evictQ s) (s_id s) (s_created s) (s_codec s)
             (s_lo s) (s_hi s) in
  s ← (if decide (cm_snapshot meta = []) then Ok s
       else match s_dir s !! cm_snapshot meta with
            | None => Err ErrShortFile
            | Some img => part ← snap_dec img; Ok (install s part)
            end);
  let l := openLog (default [] (s_dir s !! cm_logName meta)) (s_dur s) in
  '(s, maxLSN) ← replay recover_frame (l_f l) (with_log s l, 0);
  Ok (with_log s (setLSN l (Z.max (cm_frontier meta) (u64 (maxLSN + 1))))).

Record Options := mkOptions { o_Durability : Z; o_ResidentBudget : Z; o_PartitionID : Z; o_CreatedHours : Z }.

Definition Open (dir : directory) (opts : Options) : res Store :=
  let dur := if o_Durability opts =? 0 then DurabilityNormal else o_Durability opts in
  let s := mkStore dir dur (openLog [] dur) [] 0 [0] ∅ ∅ (o_ResidentBudget opts) 0 []
             (o_PartitionID opts) (o_CreatedHours opts) CodecZstd 0 (2 ^ 64 - 1) in
  match readSuperblock (dir !! super_name) with
  | Ok meta => recover s meta
  | Err ErrNoCheckpoint => recover s (mkMeta 0 1 0 [] (log_name 1))
  | Err e => Err e
  end.

(** What is on disk when the process dies: the directory and the log file, of which
    power loss may keep any prefix past the synced bytes. *)
Definition crash (s : Store) (n : nat) : directory := <[s_logName s := take n (l_f (s_log s))]> (s_dir s).

Definition Close (s : Store) : directory :=
  <[s_logName s := l_f (syncAll (s_log s))]> (s_dir s).
End Checkpoint.

(** ** The abstract store: records and an arena behind a journal *)

Record astate := mkState { a_urls : gmap URLKey URLRecord; a_hosts : gmap Z HostRecord; a_arena : list Z }.

Inductive jentry := JIntern (bytes : list Z) | JURL (r : URLRecord) | JDel (key : URLKey) | JHost (h : HostRecord).

Definition j_entry (j : jentry) : entry :=
  match j with
  | JIntern bytes => (kindIntern, [], bytes)
  | JURL r => (kindURL, Bytes (r_URLKey r), encodeURL r)
  | JDel key => (Z.lor kindURL tombBit, Bytes key, [])
  | JHost h => (kindHost, le_bytes 8 (h_HostKey h), encodeHost h)
  end.

Definition j_apply (a : astate) (j : jentry) : astate :=
  match j with
  | JIntern bytes => mkState (a_urls a) (a_hosts a) (a_arena a ++ bytes)
  | JURL r => mkState (<[r_URLKey r := r]> (a_urls a)) (a_hosts a) (a_arena a)
  | JDel key => mkState (delete key (a_urls a)) (a_hosts a) (a_arena a)
  | JHost h => mkState (a_urls a) (<[h_HostKey h := h]> (a_hosts a)) (a_arena a)
  end.

Definition j_ok (j : jentry) : Prop :=
  match j with
  | JIntern bytes => Z.of_nat (length bytes) < 2 ^ 32
  | JURL r => url_wf r
  | JDel key => key_wf key
  | JHost h => host_wf h
  end.
#[export] Instance j_ok_dec j : Decision (j_ok j).
Proof. destruct j; unfold j_ok, key_wf; apply _. Defined.

Lemma Bytes_length k : length (Bytes k) = 16%nat.
Proof. unfold Bytes. by rewrite length_app, !le_bytes_length. Qed.

Lemma j_entry_wf j : j_ok j -> entry_wf (j_entry j).
Proof.
  destruct j as [bytes | r | key | h]; unfold j_ok, j_entry, entry_wf; intros Hj.
  - split; [fits_const |]. simpl length. lia.
  - rewrite Bytes_length, encodeURL_length. split; [fits_const |]. vm_compute. done.
  - rewrite Bytes_length. split; [fits_const |]. vm_compute. done.
  - rewrite le_bytes_length, (encodeHost_length h Hj). split; [fits_const |]. vm_compute. done.
Qed.

Lemma journal_wf js : Forall j_ok js -> Forall entry_wf (j_entry <$> js).
Proof. intros H. apply Forall_fmap. eapply Forall_impl; [exact H |]. apply j_entry_wf. Qed.

(** ** The relation *)

(** The current record of [key] is the frame at [off]. *)
Definition backed (js : list jentry) (key : URLKey) (off : nat) (r : URLRecord) : Prop :=
  exists js1 js2, js = js1 ++ JURL r :: js2 /\ off = log_len (j_entry <$> js1).

Definition loc_rel (js : list jentry) (q : list URLKey) (key : URLKey) (o : option URLRecord)
    (l : option urlLoc) : Prop :=
  match l with
  | None => o = None
  | Some loc =>
      if ul_tomb loc then o = None /\ ul_rec loc = None
      else exists r, o = Some r /\ r_URLKey r = key /\ url_wf r /\
        ((ul_rec loc = Some r \/ ul_rec loc = None) /\ backed js key (ul_off loc) r \/
         (ul_rec loc = Some r /\ key ∉ q))
  end.

Definition urls_rel (js : list jentry) (q : list URLKey) (m : gmap URLKey URLRecord)
    (u : gmap URLKey urlLoc) : Prop := forall key, loc_rel js q key (m !! key) (u !! key).

Definition hosts_rel (m : gmap Z HostRecord) (u : gmap Z hostLoc) : Prop :=
  forall key, match u !! key with
              | None => m !! key = None
              | Some loc => m !! key = (if hl_tomb loc then None else Some (hl_rec loc)) /\
                            (hl_tomb loc = false -> h_HostKey (hl_rec loc) = key)
              end.

(** [store_rel base first js tail s]: the store [s] is [base] after the journal [js],
    whose frames, numbered from [first], are its log; [tail] is what a crash left
    behind them. *)
Record store_rel (base : astate) (first : Z) (js : list jentry) (tail : list Z) (s : Store) : Prop := {
  sr_ok : Forall j_ok js;
  sr_first : 0 <= first;
  sr_file : l_f (s_log s) = log_bytes first (j_entry <$> js) ++ tail;
  sr_off : l_off (s_log s) = length (l_f (s_log s));
  sr_lsn : l_nextLSN (s_log s) = first + Z.of_nat (length js);
  sr_urls : urls_rel js (s_evictQ s) (a_urls (foldl j_apply base js)) (s_urls s);
  sr_hosts : hosts_rel (a_hosts (foldl j_apply base js)) (s_hosts s);
  sr_arena : s_arena s = a_arena (foldl j_apply base js);
  sr_queue : s_budget s <= 0 -> s_evictQ s = [] }.

Lemma backed_grow js ext key off r : backed js key off r -> backed (js ++ ext) key off r.
Proof. intros (js1 & js2 & -> & ->). exists js1, (js2 ++ ext). by rewrite <- app_assoc. Qed.

Lemma loc_rel_grow js ext q key o l : loc_rel js q key o l -> loc_rel (js ++ ext) q key o l.
Proof.
  unfold loc_rel. destruct l as [loc |]; [| done]. destruct (ul_tomb loc); [done |].
  intros (r & ? & ? & ? & [[? ?] | ?]); exists r; (do 3 (split; [done |])); [left | by right].
  split; [done |]. by apply backed_grow.
Qed.

(** A spilled record reads back from the log. *)
Lemma backed_read base first js tail s key off r :
  store_rel base first js tail s -> first + Z.of_nat (length js) < 2 ^ 64 -> backed js key off r ->
  readAt (s_log s) off = Ok (kindURL, 16, Bytes (r_URLKey r), encodeURL r).
Proof.
  intros [Hok H0 Ef _ _ _ _ _ _] Hb (js1 & js2 & -> & ->).
  rewrite fmap_app, fmap_cons, log_bytes_app in Ef. cbn [log_bytes j_entry entry_bytes] in Ef.
  rewrite <- !app_assoc, length_fmap in Ef. rewrite <- (log_bytes_length first).
  apply Forall_app in Hok as [_ Hok]. inversion Hok as [| ? ? Hr _]; subst.
  rewrite length_app in Hb. cbn [length] in Hb.
  pose proof (j_entry_wf (JURL r) Hr) as (_ & Hk & Hv).
  assert (Hw : frame_wf (first + Z.of_nat (length js1)) kindURL (Bytes (r_URLKey r)) (encodeURL r))
    by (split; [unfold fits; lia | fits_const | exact Hk | exact Hv]).
  rewrite (readAt_frame _ _ _ _ _ _ _ Hw Ef).
  by rewrite Bytes_length.
Qed.

(** ** Eviction *)

Lemma evict_spec q js m s :
  urls_rel js q m (s_urls s) ->
  let s' := evict_loop q s in
  urls_rel js (s_evictQ s') m (s_urls s') /\
  s' = with_resident (with_urls s (s_urls s')) (s_residentN s') (s_evictQ s').
Proof.
  revert s. induction q as [|victim q IH]; intros s Hu; cbn [evict_loop].
  { split; [exact Hu |]. by destruct s. }
  destruct (s_residentN s <=? s_budget s); [split; [exact Hu | by destruct s] |]. cbv zeta.
  assert (Hu' : urls_rel js q m (s_urls s)).
  { intros key. specialize (Hu key). unfold loc_rel in *. destruct (s_urls s !! key); [| done].
    destruct (ul_tomb _); [done |]. destruct Hu as (r & ? & ? & ? & [? | [? Hq]]); exists r;
      (do 3 (split; [done |])); [by left | right].
    split; [done |]. intros Hin. apply Hq. by right. }
  destruct (s_urls s !! victim) as [[off lsn [rec |] []] |] eqn:El; cbn [ul_rec ul_tomb ul_off ul_lsn];
    try by apply IH.
  set (s1 := with_resident _ _ _).
  destruct (IH s1) as [H1 H2].
  { intros key. unfold s1. cbn. destruct (decide (key = victim)) as [-> | Hne].
    - rewrite lookup_insert_eq. specialize (Hu victim). rewrite El in Hu. cbn in Hu |- *.
      destruct Hu as (r & E & Hk & Hw & [[_ Hb] | [_ Hq]]).
      + exists r. do 3 (split; [done |]). left. split; [by right | done].
      + exfalso. apply Hq. left.
    - rewrite lookup_insert_ne by done. apply Hu'. }
  split; [done |]. rewrite H2. by destruct s.
Qed.

Lemma track_spec js m s key :
  urls_rel js (s_evictQ s ++ [key]) m (s_urls s) -> (s_budget s <= 0 -> s_evictQ s = []) ->
  (s_budget s <= 0 -> urls_rel js [] m (s_urls s)) ->
  let s' := trackResident s key in
  urls_rel js (s_evictQ s') m (s_urls s') /\ (s_budget s <= 0 -> s_evictQ s' = []) /\
  s' = with_resident (with_urls s (s_urls s')) (s_residentN s') (s_evictQ s').
Proof.
  intros Hu Hq Hn. unfold trackResident. destruct (s_budget s <=? 0) eqn:E; bool_prop; cbv zeta.
  - split; [rewrite (Hq E); by apply Hn |]. split; [done |]. by destruct s.
  - destruct (evict_spec (s_evictQ s ++ [key]) js m
      (with_resident s (s_residentN s + 1) (s_evictQ s ++ [key])) Hu) as [H1 H2].
    split; [exact H1 |]. split; [lia |]. rewrite H2 at 1. by destruct s.
Qed.

(** ** Operations as one step function, and its specification *)

Inductive store_op :=
  | SIntern (str : list Z) | SStr (off : Z) | SInternRobots (blob : list Z) | SRobots (off : Z)
  | SPutURL (r : URLRecord) | SGetURL (key : URLKey) | SDeleteURL (key : URLKey)
  | SPutHost (h : HostRecord) | SGetHost (key : Z) | SCounts.

Inductive store_out :=
  | OutUnit | OutOff (off : Z) | OutLSN (lsn : Z) | OutStr (s : res (list Z))
  | OutBlob (b : res (option (list Z))) | OutURL (r : option URLRecord) | OutHost (h : option HostRecord)
  | OutCounts (urls hosts : nat) (lsn : Z).

Section Steps.
Context `{BlockCodec}.

Definition store_step (s : Store) (o : store_op) : res (Store * store_out) :=
  match o with
  | SIntern str => let '(s, off) := Intern s str in Ok (s, OutOff off)
  | SStr off => Ok (s, OutStr (Str s off))
  | SInternRobots blob => let '(s, off) := InternRobots s blob in Ok (s, OutOff off)
  | SRobots off => Ok (s, OutBlob (Robots s off))
  | SPutURL r => let '(s, lsn) := PutURL s r in Ok (s, OutLSN lsn)
  | SGetURL key => '(s, r) ← GetURL s key; Ok (s, OutURL r)
  | SDeleteURL key => Ok (DeleteURL s key, OutUnit)
  | SPutHost h => let '(s, lsn) := PutHost s h in Ok (s, OutLSN lsn)
  | SGetHost key => Ok (s, OutHost (GetHost s key))
  | SCounts => Ok (s, OutCounts (URLCount s) (HostCount s) (LSN s))
  end.

(** What the store promises: the journal entries an operation adds and its result,
    from the maps and the arena alone, whatever is resident. *)
Definition spec_step (codec lsn : Z) (a : astate) (o : store_op) : list jentry * store_out :=
  match o with
  | SIntern str =>
      if decide (str = []) then ([], OutOff 0)
      else ([JIntern (arena_entry str)], OutOff (Z.of_nat (length (a_arena a))))
  | SStr off => ([], OutStr (readArena (a_arena a) off))
  | SInternRobots blob =>
      if decide (blob = []) then ([], OutOff 0)
      else ([JIntern (arena_entry (PackRobots blob codec))], OutOff (Z.of_nat (length (a_arena a))))
  | SRobots off =>
      ([], OutBlob (packed ← arenaRead (a_arena a) off;
                    match packed with
                    | None | Some [] => Ok None
                    | Some p => Ok (UnpackRobots p codec RobotsSizeHint)
                    end))
  | SPutURL r => ([JURL r], OutLSN lsn)
  | SGetURL key => ([], OutURL (a_urls a !! key))
  | SDeleteURL key => ([JDel key], OutUnit)
  | SPutHost h => ([JHost h], OutLSN lsn)
  | SGetHost key => ([], OutHost (a_hosts a !! key))
  | SCounts => ([], OutCounts (size (a_urls a)) (size (a_hosts a)) lsn)
  end.

Definition op_ok (codec : Z) (o : store_op) : Prop :=
  match o with
  | SIntern str => Z.of_nat (length str) < 2 ^ 31
  | SInternRobots blob => Z.of_nat (length (PackRobots blob codec)) < 2 ^ 31
  | SPutURL r => url_wf r
  | SDeleteURL key => key_wf key
  | SPutHost h => host_wf h
  | _ => True
  end.

(** *** The log under an operation *)

Lemma log_commit_same l n :
  l_f (log_commit l n) = l_f l /\ l_off (log_commit l n) = l_off l /\
  l_nextLSN (log_commit l n) = l_nextLSN l.
Proof. unfold log_commit, fsync. repeat case_match; done. Qed.

(** Appending one journal entry, seen from the relation. *)
Lemma append_rel base first js s j :
  store_rel base first js [] s -> j_ok j -> first + Z.of_nat (length js) + 1 < 2 ^ 64 ->
  let '(kind, key, val) := j_entry j in
  let '(l, off, lsn) := log_append (s_log s) kind (Z.of_nat (length key)) key val in
  off = log_len (j_entry <$> js) /\ lsn = first + Z.of_nat (length js) /\
  l_f l = log_bytes first (j_entry <$> js ++ [j]) ++ [] /\ l_off l = length (l_f l) /\
  l_nextLSN l = first + Z.of_nat (length (js ++ [j])).
Proof.
  intros [Hok H0 Ef Eo El _ _ _ _] Hj Hb. rewrite app_nil_r in Ef.
  assert (Hh : log_holds (s_log s) first (j_entry <$> js)).
  { split; [done |]. rewrite length_fmap. split; [by rewrite Eo, Ef, log_bytes_length | done]. }
  destruct (j_entry j) as [[kind key] val] eqn:Ej.
  pose proof (log_append_holds _ _ _ kind key val Hh H0) as Ha. rewrite length_fmap in Ha.
  specialize (Ha ltac:(lia)). destruct (log_append _ _ _ _ _) as [[l off] lsn].
  destruct Ha as ((F1 & F2 & F3) & E1 & E2 & _).
  assert (Ejs : j_entry <$> js ++ [j] = (j_entry <$> js) ++ [(kind, key, val)])
    by (rewrite fmap_app; cbn; by rewrite Ej).
  rewrite Ejs, app_nil_r. split; [done |]. split; [done |]. split; [done |].
  split; [by rewrite F1, F2, log_bytes_length |].
  rewrite F3, !length_app, length_fmap. done.
Qed.

(** An entry that touches neither the index nor the hosts of the store. *)
Lemma foldl_snoc base js j : foldl j_apply base (js ++ [j]) = j_apply (foldl j_apply base js) j.
Proof. by rewrite foldl_app. Qed.

Lemma urls_rel_grow js ext q m u : urls_rel js q m u -> urls_rel (js ++ ext) q m u.
Proof. intros Hu key. by apply loc_rel_grow. Qed.

Lemma intern_rel base first js s bytes :
  store_rel base first js [] s -> Z.of_nat (length bytes) < 2 ^ 32 ->
  first + Z.of_nat (length js) + 1 < 2 ^ 64 ->
  let '(s', off) := intern_entry s bytes in
  store_rel base first (js ++ [JIntern bytes]) [] s' /\
  off = Z.of_nat (length (a_arena (foldl j_apply base js))) /\ s_codec s' = s_codec s.
Proof.
  intros HR Hj Hb. pose proof (append_rel base first js s (JIntern bytes) HR Hj Hb) as Ha.
  cbn [j_entry] in Ha. unfold intern_entry, intern_arena, intern_log.
  cbn [s_log with_arena] in *. change (Z.of_nat (length (@nil Z))) with 0 in Ha.
  destruct (log_append _ _ _ _ _) as [[l off] lsn]. cbn [fst snd].
  destruct Ha as (_ & _ & E1 & E2 & E3). destruct HR as [Hok H0 _ _ _ Hu Hh Har Hq].
  split; [| by rewrite Har]. split; cbn; try done.
  - apply Forall_app. split; [done |]. by apply Forall_singleton.
  - rewrite foldl_snoc. by apply urls_rel_grow.
  - by rewrite foldl_snoc.
  - by rewrite foldl_snoc, Har.
Qed.
End Steps.

(** The index entry of one key replaced; [key] is new in the queue only if its record
    is in the log. *)
Lemma urls_rel_insert js q m u key loc o :
  urls_rel js q m u -> loc_rel js q key o (Some loc) ->
  urls_rel js q (match o with Some r => <[key := r]> m | None => delete key m end) (<[key := loc]> u).
Proof.
  intros Hu Hl k. destruct (decide (k = key)) as [-> | Hne].
  - rewrite lookup_insert_eq. destruct o as [r |].
    + by rewrite lookup_insert_eq.
    + by rewrite lookup_delete_eq.
  - rewrite lookup_insert_ne by done. specialize (Hu k).
    destruct o; [by rewrite lookup_insert_ne | by rewrite lookup_delete_ne].
Qed.

Lemma urls_rel_backed_queue js q m u key off :
  urls_rel js q m u ->
  (forall r loc, m !! key = Some r -> u !! key = Some loc -> backed js key (ul_off loc) r) ->
  (forall loc, u !! key = Some loc -> ul_tomb loc = false -> ul_off loc = off) ->
  urls_rel js (q ++ [key]) m u.
Proof.
  intros Hu Hb Hoff k. specialize (Hu k). unfold loc_rel in *.
  destruct (u !! k) as [loc |] eqn:El; [| done].
  destruct (ul_tomb loc) eqn:Et; [done |]. destruct Hu as (r & E & Hk & Hw & Hl). exists r.
  do 3 (split; [done |]). destruct (decide (k = key)) as [-> | Hne].
  - left. split; [| by apply Hb]. destruct Hl as [[? _] | [? _]]; [done | by left].
  - destruct Hl as [? | [? Hq]]; [by left | right]. split; [done |].
    rewrite elem_of_app, list_elem_of_singleton. intros [? | ?]; done.
Qed.

Lemma put_rel base first js s r :
  store_rel base first js [] s -> url_wf r -> first + Z.of_nat (length js) + 1 < 2 ^ 64 ->
  let '(s', lsn) := PutURL s r in
  store_rel base first (js ++ [JURL r]) [] s' /\ lsn = first + Z.of_nat (length js) /\
  s_codec s' = s_codec s.
Proof.
  intros HR Hr Hb. pose proof (append_rel base first js s (JURL r) HR Hr Hb) as Ha.
  cbn [j_entry] in Ha. rewrite Bytes_length in Ha. change (Z.of_nat 16) with 16 in Ha.
  unfold PutURL. cbv zeta.
  destruct (log_append _ _ _ _ _) as [[l off] lsn]. destruct Ha as (Eoff & Elsn & E1 & E2 & E3).
  set (n := (off + _)%nat). destruct (log_commit_same l n) as (C1 & C2 & C3).
  destruct HR as [Hok H0 _ _ _ Hu Hh Har Hq].
  set (key := r_URLKey r) in *. set (loc := mkUrlLoc off lsn (Some r) false).
  set (s1 := with_urls (with_log s (log_commit l n)) (<[key := loc]> (s_urls (with_log s (log_commit l n))))).
  assert (Hback : backed (js ++ [JURL r]) key off r) by (exists js, []; done).
  assert (Hall : forall q, urls_rel (js ++ [JURL r]) q (a_urls (foldl j_apply base js)) (s_urls s) ->
            urls_rel (js ++ [JURL r]) q (a_urls (foldl j_apply base (js ++ [JURL r]))) (s_urls s1)).
  { intros q Hq'. rewrite foldl_snoc. cbn [j_apply a_urls].
    apply (urls_rel_insert _ _ _ _ _ loc (Some r)); [done |]. cbn. exists r.
    do 3 (split; [done |]). left. split; [by left | done]. }
  pose proof (urls_rel_grow _ [JURL r] _ _ _ Hu) as Hu1.
  assert (HR1 : forall s', s_log s' = s_log s1 -> s_hosts s' = s_hosts s1 -> s_arena s' = s_arena s1 ->
    (s_budget s' <= 0 -> s_evictQ s' = []) ->
    urls_rel (js ++ [JURL r]) (s_evictQ s') (a_urls (foldl j_apply base (js ++ [JURL r]))) (s_urls s') ->
    store_rel base first (js ++ [JURL r]) [] s').
  { intros s' L1 L2 L3 L4 L5. split; rewrite ?L1, ?L2, ?L3; unfold s1; cbn; rewrite ?C1, ?C2, ?C3; try done.
    - apply Forall_app. split; [done |]. by apply Forall_singleton.
    - by rewrite foldl_snoc.
    - by rewrite foldl_snoc. }
  destruct (match s_urls (with_log s (log_commit l n)) !! key with
            | Some loc => match ul_rec loc with Some _ => false | None => true end | None => true end) eqn:Enew.
  - destruct (track_spec (js ++ [JURL r]) (a_urls (foldl j_apply base (js ++ [JURL r]))) s1 key)
      as (T1 & T2 & T3).
    + apply (urls_rel_backed_queue _ _ _ _ _ off); [by apply Hall | |].
      * intros r' loc'. rewrite foldl_snoc. cbn [j_apply a_urls]. fold key.
        rewrite lookup_insert_eq. intros [= <-]. unfold s1. cbn. rewrite lookup_insert_eq. by intros [= <-].
      * intros loc'. unfold s1. cbn. rewrite lookup_insert_eq. by intros [= <-].
    + exact Hq.
    + intros Hbud. apply Hall. by rewrite (Hq Hbud) in Hu1.
    + split; [| split; [done | by rewrite T3]].
      apply HR1; [by rewrite T3 | by rewrite T3 | by rewrite T3 | | done].
      intros Hbud. apply T2. by rewrite T3 in Hbud.
  - split; [| done]. apply HR1; [done | done | done | exact Hq | by apply Hall].
Qed.

Lemma delete_rel base first js s key :
  store_rel base first js [] s -> key_wf key -> first + Z.of_nat (length js) + 1 < 2 ^ 64 ->
  store_rel base first (js ++ [JDel key]) [] (DeleteURL s key).
Proof.
  intros HR Hr Hb. pose proof (append_rel base first js s (JDel key) HR Hr Hb) as Ha.
  cbn [j_entry] in Ha. rewrite Bytes_length in Ha. change (Z.of_nat 16) with 16 in Ha.
  unfold DeleteURL. destruct (log_append _ _ _ _ _) as [[l off] lsn]. destruct Ha as (_ & _ & E1 & E2 & E3).
  cbv zeta. set (n := (off + _)%nat). destruct (log_commit_same l n) as (C1 & C2 & C3).
  destruct HR as [Hok H0 _ _ _ Hu Hh Har Hq].
  split; cbn; rewrite ?C1, ?C2, ?C3; try done.
  - apply Forall_app. split; [done |]. by apply Forall_singleton.
  - rewrite foldl_snoc. cbn [j_apply a_urls].
    apply (urls_rel_insert _ _ _ _ key _ None); [by apply urls_rel_grow |]. done.
  - by rewrite foldl_snoc.
  - by rewrite foldl_snoc.
Qed.

Lemma put_host_rel base first js s h :
  store_rel base first js [] s -> host_wf h -> first + Z.of_nat (length js) + 1 < 2 ^ 64 ->
  let '(s', lsn) := PutHost s h in
  store_rel base first (js ++ [JHost h]) [] s' /\ lsn = first + Z.of_nat (length js) /\
  s_codec s' = s_codec s.
Proof.
  intros HR Hr Hb. pose proof (append_rel base first js s (JHost h) HR Hr Hb) as Ha.
  cbn [j_entry] in Ha. rewrite le_bytes_length in Ha. change (Z.of_nat 8) with 8 in Ha.
  unfold PutHost. cbv zeta. destruct (log_append _ _ _ _ _) as [[l off] lsn].
  destruct Ha as (_ & Elsn & E1 & E2 & E3). set (n := (off + _)%nat).
  destruct (log_commit_same l n) as (C1 & C2 & C3).
  destruct HR as [Hok H0 _ _ _ Hu Hh Har Hq]. split; [| done].
  split; cbn; rewrite ?C1, ?C2, ?C3; try done.
  - apply Forall_app. split; [done |]. by apply Forall_singleton.
  - rewrite foldl_snoc. by apply urls_rel_grow.
  - rewrite foldl_snoc. cbn [j_apply a_hosts]. intros k. specialize (Hh k).
    destruct (decide (k = h_HostKey h)) as [-> | Hne]; [rewrite !lookup_insert_eq; done |].
    by rewrite !lookup_insert_ne by done.
  - by rewrite foldl_snoc.
Qed.

Lemma store_rel_index base first js tail s s' :
  store_rel base first js tail s -> s_log s' = s_log s -> s_hosts s' = s_hosts s -> s_arena s' = s_arena s ->
  urls_rel js (s_evictQ s') (a_urls (foldl j_apply base js)) (s_urls s') ->
  (s_budget s' <= 0 -> s_evictQ s' = []) -> store_rel base first js tail s'.
Proof. intros [] L1 L2 L3 L4 L5. split; rewrite ?L1, ?L2, ?L3; done. Qed.

(** Reading changes what is resident and nothing else. *)
Lemma get_rel base first js tail s key :
  store_rel base first js tail s -> first + Z.of_nat (length js) < 2 ^ 64 ->
  exists s', GetURL s key = Ok (s', a_urls (foldl j_apply base js) !! key) /\
    store_rel base first js tail s' /\ s_codec s' = s_codec s.
Proof.
  intros HR Hb. pose proof HR as [Hok H0 Ef Eo El Hu Hh Har Hq]. pose proof (Hu key) as Hk.
  unfold GetURL. unfold loc_rel in Hk. destruct (s_urls s !! key) as [loc |] eqn:Eloc.
  2: { exists s. by rewrite Hk. }
  destruct loc as [off lsn rec tomb]. cbn [ul_tomb ul_rec ul_off ul_lsn] in *.
  destruct tomb; [exists s; destruct Hk as [-> _]; done |].
  destruct Hk as (r & E & Hkey & Hw & Hl). rewrite E. destruct rec as [rec |].
  { exists s. destruct Hl as [[[[= ->] | [=]] _] | [[= ->] _]]; done. }
  assert (Hback : backed js key off r) by (destruct Hl as [[_ ?] | [[=] _]]; done).
  rewrite (backed_read _ _ _ _ _ _ _ _ HR Hb Hback). rewrite <- Hkey, decodeURL_encode by done.
  cbn [mbind res_bind]. rewrite Hkey. cbv zeta.
  set (loc := mkUrlLoc off lsn (Some r) false). set (s1 := with_urls s (<[key := loc]> (s_urls s))).
  assert (Hins : forall q, urls_rel js q (a_urls (foldl j_apply base js)) (s_urls s) ->
    urls_rel js q (a_urls (foldl j_apply base js)) (s_urls s1)).
  { intros q Hq'. pose proof (urls_rel_insert js q _ _ key loc (Some r) Hq') as Hi. cbn in Hi.
    rewrite insert_id in Hi by done. apply Hi. exists r. do 3 (split; [done |]). left.
    split; [by left | done]. }
  destruct (track_spec js (a_urls (foldl j_apply base js)) s1 key) as (T1 & T2 & T3).
  - apply (urls_rel_backed_queue _ _ _ _ _ off); [by apply Hins | |].
    + intros r' loc'. rewrite E. intros [= <-]. unfold s1. cbn. rewrite lookup_insert_eq. by intros [= <-].
    + intros loc'. unfold s1. cbn. rewrite lookup_insert_eq. by intros [= <-].
  - exact Hq.
  - intros Hbud. apply Hins. by rewrite (Hq Hbud) in Hu.
  - eexists. split; [reflexivity |]. split; [| by rewrite T3].
    apply (store_rel_index _ _ _ _ s _ HR); [by rewrite T3 | by rewrite T3 | by rewrite T3 | exact T1 |].
    intros Hbud. apply T2. by rewrite T3 in Hbud.
Qed.

Lemma count_live {K A B} `{Countable K} (P : K * A -> Prop) `{forall e, Decision (P e)}
    (u : gmap K A) (m : gmap K B) :
  (forall k, is_Some (m !! k) <-> exists v, u !! k = Some v /\ P (k, v)) ->
  length (filter P (map_to_list u)) = size m.
Proof.
  intros Hk. rewrite <- (length_fmap fst), <- length_map_to_list, <- (length_fmap fst (map_to_list m)).
  apply Permutation_length, NoDup_Permutation.
  - pose proof (NoDup_fst_map_to_list u) as Hnd. revert Hnd. generalize (map_to_list u). intros l.
    induction l as [|e l IH]; [done |]. rewrite fmap_cons, NoDup_cons. intros [Hn Hnd].
    rewrite filter_cons. case_decide; [| by apply IH]. rewrite fmap_cons, NoDup_cons.
    split; [| by apply IH]. intros (x & Ex & Hx)%list_elem_of_fmap. apply Hn.
    apply list_elem_of_filter in Hx as [_ Hx]. apply list_elem_of_fmap. eauto.
  - apply NoDup_fst_map_to_list.
  - intros k. rewrite !list_elem_of_fmap. split.
    + intros ([k' v] & -> & [HP Hin]%list_elem_of_filter). apply elem_of_map_to_list in Hin.
      destruct (proj2 (Hk k') (ex_intro _ v (conj Hin HP))) as [b Hb].
      exists (k', b). split; [done |]. by apply elem_of_map_to_list.
    + intros ([k' b] & -> & Hin%elem_of_map_to_list). cbn.
      destruct (proj1 (Hk k') (ex_intro _ b Hin)) as (v & Hv & HP).
      exists (k', v). split; [done |]. apply list_elem_of_filter. split; [done |].
      by apply elem_of_map_to_list.
Qed.

Lemma url_count_rel js q m u :
  urls_rel js q m u -> length (filter (fun e => ul_tomb e.2 = false) (map_to_list u)) = size m.
Proof.
  intros Hu. apply count_live. intros k. specialize (Hu k). unfold loc_rel in Hu.
  destruct (u !! k) as [loc |].
  - destruct (ul_tomb loc) eqn:Et.
    + destruct Hu as [-> _]. split; [by intros [? [=]] |]. intros (v & [= <-] & Hv). cbn in Hv. congruence.
    + destruct Hu as (r & -> & _). split; [| by eauto]. intros _. by exists loc.
  - rewrite Hu. split; [by intros [? [=]] | by intros (v & [=] & _)].
Qed.

Lemma host_count_rel m u :
  hosts_rel m u -> length (filter (fun e => hl_tomb e.2 = false) (map_to_list u)) = size m.
Proof.
  intros Hu. apply count_live. intros k. specialize (Hu k). destruct (u !! k) as [loc |].
  - destruct Hu as [Hu _]. rewrite Hu. destruct (hl_tomb loc) eqn:Et.
    + split; [by intros [? [=]] |]. intros (v & [= <-] & Hv). cbn in Hv. congruence.
    + split; [| by eauto]. intros _. by exists loc.
  - rewrite Hu. split; [by intros [? [=]] | by intros (v & [=] & _)].
Qed.

Section Run.
Context `{BlockCodec}.

Lemma store_step_rel base first js s o :
  store_rel base first js [] s -> op_ok (s_codec s) o -> first + Z.of_nat (length js) + 1 < 2 ^ 64 ->
  let '(add, out) := spec_step (s_codec s) (first + Z.of_nat (length js)) (foldl j_apply base js) o in
  exists s', store_step s o = Ok (s', out) /\ store_rel base first (js ++ add) [] s' /\
    s_codec s' = s_codec s /\ (length add <= 1)%nat.
Proof.
  intros HR Ho Hb. destruct o as [str | off | blob | off | r | key | key | h | key |]; cbn [spec_step store_step op_ok] in *.
  - unfold Intern. case_decide; [by exists s; rewrite app_nil_r; eauto |].
    pose proof (intern_rel base first js s (arena_entry str) HR) as Hi.
    destruct (intern_entry s (arena_entry str)) as [s' off]. exists s'.
    destruct Hi as (Hi & -> & Hc); [| done | done].
    pose proof (arena_entry_bound str). lia.
  - exists s. rewrite app_nil_r. unfold Str. rewrite (sr_arena _ _ _ _ _ HR). eauto.
  - unfold InternRobots. case_decide; [by exists s; rewrite app_nil_r; eauto |].
    pose proof (intern_rel base first js s (arena_entry (PackRobots blob (s_codec s))) HR) as Hi.
    destruct (intern_entry s _) as [s' off]. exists s'.
    destruct Hi as (Hi & -> & Hc); [| done | done].
    pose proof (arena_entry_bound (PackRobots blob (s_codec s))). lia.
  - exists s. rewrite app_nil_r. unfold Robots. rewrite (sr_arena _ _ _ _ _ HR). eauto.
  - pose proof (put_rel base first js s r HR Ho Hb) as Hp. destruct (PutURL s r) as [s' lsn].
    exists s'. by destruct Hp as (Hp & -> & Hc).
  - destruct (get_rel base first js [] s key HR) as (s' & -> & HR' & Hc); [lia |].
    exists s'. rewrite app_nil_r. eauto.
  - exists (DeleteURL s key). split; [done |]. split; [by apply delete_rel |]. split; [| done].
    unfold DeleteURL. by destruct (log_append _ _ _ _ _) as [[l off] lsn].
  - pose proof (put_host_rel base first js s h HR Ho Hb) as Hp. destruct (PutHost s h) as [s' lsn].
    exists s'. by destruct Hp as (Hp & -> & Hc).
  - exists s. rewrite app_nil_r. split; [| eauto]. do 3 f_equal. unfold GetHost.
    pose proof (sr_hosts _ _ _ _ _ HR key) as Hh. destruct (s_hosts s !! key); [destruct Hh as [Hh _] |]; by rewrite Hh.
  - exists s. rewrite app_nil_r. split; [| eauto]. unfold URLCount, HostCount, LSN, peekLSN.
    rewrite (url_count_rel _ _ _ _ (sr_urls _ _ _ _ _ HR)), (host_count_rel _ _ (sr_hosts _ _ _ _ _ HR)).
    by rewrite (sr_lsn _ _ _ _ _ HR).
Qed.

Fixpoint store_run (s : Store) (os : list store_op) : res (Store * list store_out) :=
  match os with
  | [] => Ok (s, [])
  | o :: os => '(s, out) ← store_step s o; '(s, outs) ← store_run s os; Ok (s, out :: outs)
  end.

(** The specification of a run from the state [a], [lsn] the next sequence number:
    the journal entries it adds and the results. *)
Fixpoint spec_run (codec lsn : Z) (a : astate) (os : list store_op) : list jentry * list store_out :=
  match os with
  | [] => ([], [])
  | o :: os =>
      let '(add, out) := spec_step codec lsn a o in
      let '(js, outs) := spec_run codec (lsn + Z.of_nat (length add)) (foldl j_apply a add) os in
      (add ++ js, out :: outs)
  end.

Lemma store_run_rel base first js s os :
  store_rel base first js [] s -> Forall (op_ok (s_codec s)) os ->
  first + Z.of_nat (length js + length os) < 2 ^ 64 ->
  let '(add, outs) := spec_run (s_codec s) (first + Z.of_nat (length js)) (foldl j_apply base js) os in
  exists s', store_run s os = Ok (s', outs) /\ store_rel base first (js ++ add) [] s' /\
    (length add <= length os)%nat.
Proof.
  revert js s. induction os as [|o os IH]; intros js s HR Ho Hb; cbn [spec_run store_run].
  { exists s. rewrite app_nil_r. done. }
  inversion Ho as [|? ? Ho1 Ho2]; subst. cbn [length] in Hb.
  pose proof (store_step_rel base first js s o HR Ho1 ltac:(lia)) as Hs.
  destruct (spec_step _ _ _ o) as [add out]. destruct Hs as (s1 & -> & HR1 & Hc1 & Hadd).
  cbn [mbind res_bind]. rewrite <- Hc1 in Ho2 |- *.
  specialize (IH (js ++ add) s1 HR1 Ho2). rewrite length_app, foldl_app in IH. specialize (IH ltac:(lia)).
  replace (first + Z.of_nat (length js) + Z.of_nat (length add)) with (first + Z.of_nat (length js + length add)) by lia.
  destruct (spec_run _ _ _ os) as [add' outs]. destruct IH as (s2 & -> & HR2 & Hlen).
  exists s2. cbn [mbind res_bind length]. rewrite app_assoc, length_app.
  split; [done |]. split; [done | lia].
Qed.
End Run.

(** ** Recovery *)

Definition base_of (part : Partition) : astate :=
  mkState (foldl (fun m r => <[r_URLKey r := r]> m) ∅ (p_URLs part))
    (foldl (fun m h => <[h_HostKey h := h]> m) ∅ (p_Hosts part))
    (if decide (p_Strings part = []) then [0] else p_Strings part).

Lemma key_from_Bytes k : key_wf k -> URLKeyFromBytes (Bytes k) = k.
Proof.
  intros [Hh Hp]. unfold URLKeyFromBytes, Bytes.
  pose proof (slice_app_exact [] (le_bytes 8 (HostKey k)) (le_bytes 8 (PathKey k))) as E1.
  pose proof (slice_app_exact (le_bytes 8 (HostKey k)) (le_bytes 8 (PathKey k)) []) as E2.
  rewrite app_nil_r in E2. rewrite (le_bytes_length 8 (HostKey k)) in E1, E2.
  rewrite (le_bytes_length 8 (PathKey k)) in E2. cbn [app length Nat.add] in E1, E2.
  rewrite E1, E2, !le_val_bytes by (unfold fits in *; simpl; lia). by destruct k.
Qed.

(** The part of the relation replay builds up. *)
Record index_rel (base : astate) (js : list jentry) (s : Store) : Prop := {
  ir_urls : urls_rel js [] (a_urls (foldl j_apply base js)) (s_urls s);
  ir_hosts : hosts_rel (a_hosts (foldl j_apply base js)) (s_hosts s);
  ir_arena : s_arena s = a_arena (foldl j_apply base js) }.

(** The fields replay does not touch. *)
Definition same_shell (s s' : Store) : Prop :=
  s_dir s' = s_dir s /\ s_dur s' = s_dur s /\ s_log s' = s_log s /\ s_logName s' = s_logName s /\
  s_gen s' = s_gen s /\ s_budget s' = s_budget s /\ s_residentN s' = s_residentN s /\
  s_evictQ s' = s_evictQ s /\ s_codec s' = s_codec s.

Lemma recover_frame_rel base js s maxLSN j lsn :
  index_rel base js s -> j_ok j ->
  exists s', recover_frame (s, maxLSN) (entry_frame lsn (log_len (j_entry <$> js)) (j_entry j))
             = Ok (s', Z.max maxLSN lsn) /\
    index_rel base (js ++ [j]) s' /\ same_shell s s'.
Proof.
  intros [Hu Hh Ha] Hj. destruct j as [bytes | r | key | h]; cbn [j_entry entry_frame].
  - exists (with_arena s (s_arena s ++ bytes)). split; [done |]. split; [| done].
    split; rewrite foldl_snoc; cbn; [by apply urls_rel_grow | done | by rewrite Ha].
  - unfold recover_frame, parsed. cbn [fr_kind fr_lsn fr_key fr_val fr_off fr_tomb].
    change (Z.land kindURL kindMask) with 0. change (negb (Z.land kindURL tombBit =? 0)) with false.
    change (0 =? kindIntern) with false. change (0 =? kindURL) with true. cbv iota.
    unfold frame_key. cbn [fr_key]. rewrite Bytes_length. cbn [Nat.leb ensure mbind res_bind].
    destruct Hj as [Hk Hrest]. rewrite key_from_Bytes by done. rewrite decodeURL_encode by done.
    cbn [mbind res_bind]. eexists. split; [reflexivity |]. split; [| done].
    split; rewrite foldl_snoc; cbn [with_urls s_urls s_hosts s_arena j_apply a_urls a_hosts a_arena]; [| done | done].
    apply (urls_rel_insert _ _ _ _ _ _ (Some r)); [by apply urls_rel_grow |]. cbn. exists r.
    do 3 (split; [done |]). left. split; [by left |]. by exists js, [].
  - unfold recover_frame, parsed. cbn [fr_kind fr_lsn fr_key fr_val fr_off fr_tomb].
    change (Z.land (Z.lor kindURL tombBit) kindMask) with 0.
    change (negb (Z.land (Z.lor kindURL tombBit) tombBit =? 0)) with true.
    change (0 =? kindIntern) with false. change (0 =? kindURL) with true. cbv iota.
    unfold frame_key. cbn [fr_key]. rewrite Bytes_length. cbn [Nat.leb ensure mbind res_bind].
    rewrite key_from_Bytes by done. eexists. split; [reflexivity |]. split; [| done].
    split; rewrite foldl_snoc; cbn [with_urls s_urls s_hosts s_arena j_apply a_urls a_hosts a_arena]; [| done | done].
    by apply (urls_rel_insert _ _ _ _ key _ None); [by apply urls_rel_grow |].
  - unfold recover_frame, parsed. cbn [fr_kind fr_lsn fr_key fr_val fr_off fr_tomb].
    change (Z.land kindHost kindMask) with 1. change (negb (Z.land kindHost tombBit =? 0)) with false.
    change (1 =? kindIntern) with false. change (1 =? kindURL) with false.
    change (1 =? kindHost) with true. cbv iota.
    unfold readU64. rewrite le_bytes_length. cbn [Nat.leb ensure mbind res_bind].
    rewrite take_ge by (by rewrite le_bytes_length). pose proof Hj as [Hk _].
    rewrite le_val_bytes by (unfold fits in Hk; simpl; lia). rewrite decodeHost_encode by done.
    cbn [mbind res_bind]. eexists. split; [reflexivity |]. split; [| done].
    split; rewrite foldl_snoc; cbn [with_hosts s_urls s_hosts s_arena j_apply a_urls a_hosts a_arena]; [| | done].
    + by apply urls_rel_grow.
    + intros k. specialize (Hh k). destruct (decide (k = h_HostKey h)) as [-> | Hne].
      * by rewrite !lookup_insert_eq.
      * by rewrite !lookup_insert_ne by done.
Qed.

Lemma same_shell_trans a b c : same_shell a b -> same_shell b c -> same_shell a c.
Proof. unfold same_shell. intuition congruence. Qed.

Lemma recover_frames_rel base js0 js s maxLSN lsn :
  index_rel base js0 s -> Forall j_ok js ->
  exists s', fold_res recover_frame (s, maxLSN) (log_frames lsn (log_len (j_entry <$> js0)) (j_entry <$> js))
             = Ok (s', if decide (js = []) then maxLSN else Z.max maxLSN (lsn + Z.of_nat (length js) - 1)) /\
    index_rel base (js0 ++ js) s' /\ same_shell s s'.
Proof.
  intros HR Hok. revert js0 s maxLSN lsn HR. induction Hok as [|j js Hj _ IH]; intros js0 s maxLSN lsn HR.
  { exists s. rewrite app_nil_r. split; [done |]. done. }
  rewrite fmap_cons. cbn [log_frames fold_res].
  destruct (recover_frame_rel base js0 s maxLSN j lsn HR Hj) as (s1 & -> & HR1 & Hs1).
  assert (El : (log_len (j_entry <$> js0) + entry_len (j_entry j))%nat = log_len (j_entry <$> js0 ++ [j])).
  { rewrite fmap_app, log_len_app. cbn [fmap list_fmap]. rewrite log_len_cons. change (log_len []) with 0%nat. lia. }
  rewrite El. destruct (IH (js0 ++ [j]) s1 (Z.max maxLSN lsn) (lsn + 1) HR1) as (s2 & -> & HR2 & Hs2).
  exists s2. split; [| split; [by rewrite <- app_assoc in HR2 | by eapply same_shell_trans]].
  do 2 f_equal. rewrite (decide_False (P := j :: js = [])) by done. cbn [length].
  case_decide; [subst; simpl; lia |]. lia.
Qed.

Lemma install_urls_rel rows m u :
  Forall url_wf rows -> urls_rel [] [] m u ->
  urls_rel [] [] (foldl (fun m r => <[r_URLKey r := r]> m) m rows)
    (foldl (fun m r => <[r_URLKey r := mkUrlLoc 0 0 (Some r) false]> m) u rows).
Proof.
  intros Hw. revert m u. induction Hw as [|r rows Hr _ IH]; intros m u Hu; [done |]. cbn [foldl].
  apply IH. apply (urls_rel_insert _ _ _ _ _ _ (Some r)); [done |]. cbn. exists r.
  do 3 (split; [done |]). right. split; [done |]. apply not_elem_of_nil.
Qed.

Lemma install_hosts_rel rows m u :
  hosts_rel m u ->
  hosts_rel (foldl (fun m h => <[h_HostKey h := h]> m) m rows)
    (foldl (fun m h => <[h_HostKey h := mkHostLoc 0 0 h false]> m) u rows).
Proof.
  revert m u. induction rows as [|h rows IH]; intros m u Hu; [done |]. cbn [foldl]. apply IH.
  intros k. specialize (Hu k). destruct (decide (k = h_HostKey h)) as [-> | Hne].
  - by rewrite !lookup_insert_eq.
  - by rewrite !lookup_insert_ne by done.
Qed.

(** ** File names *)

Definition dec_val (acc : Z) (l : list Z) : Z := foldl (fun a d => a * 10 + (d - 48)) acc l.

Lemma dec_loop_val fuel n acc :
  0 <= n < 10 ^ Z.of_nat fuel -> dec_val 0 (dec_loop fuel n acc) = dec_val n acc.
Proof.
  revert n acc. induction fuel as [|fuel IH]; intros n acc Hn.
  { simpl in Hn. assert (n = 0) as -> by lia. done. }
  cbn [dec_loop]. rewrite Nat2Z.inj_succ, Z.pow_succ_r in Hn by lia. destruct (n <? 10) eqn:E; bool_prop.
  - unfold dec_val. cbn [foldl]. f_equal. lia.
  - rewrite IH by divmod. unfold dec_val. cbn [foldl]. f_equal. divmod.
Qed.

Lemma decimal_inj a b : fits 64 a -> fits 64 b -> decimal a = decimal b -> a = b.
Proof.
  intros Ha Hb E. apply (f_equal (dec_val 0)) in E. unfold decimal in E.
  rewrite !dec_loop_val in E by (unfold fits in *; simpl; lia). done.
Qed.

Lemma decimal_length n : (length (decimal n) <= 20)%nat.
Proof.
  assert (G : forall fuel n acc, (length (dec_loop fuel n acc) <= fuel + length acc)%nat).
  { induction fuel as [|fuel IH]; intros m acc; cbn [dec_loop]; [lia |].
    case_match; cbn [length]; [lia |]. etransitivity; [apply IH |]. simpl. lia. }
  unfold decimal. pose proof (G 20%nat n []) as Hl. cbn [length] in Hl. lia.
Qed.

Lemma snap_name_inj a b : fits 64 a -> fits 64 b -> snap_name a = snap_name b -> a = b.
Proof.
  intros Ha Hb E. unfold snap_name in E. apply app_inv_head in E. apply app_inv_tail in E.
  by apply decimal_inj.
Qed.

(** ** What a directory holds durably *)

(** Lookups through the updates of a directory, the names being distinct. *)
Ltac names_tac :=
  repeat first [ rewrite lookup_insert_eq
               | rewrite lookup_insert_ne by (done || discriminate || congruence)
               | rewrite lookup_delete_ne by (done || discriminate || congruence) ];
  first [ reflexivity | done ].

Section Recovery.
Context `{SnapshotLaws}.

Definition empty_state : astate := mkState ∅ ∅ [0].

(** The superblock's account of the directory: nothing yet, or a committed slot whose
    snapshot decodes to the base; the next log file is empty if it is there. *)
Record durable (dir : directory) (logName : list Z) (base : astate) (first gen : Z) : Prop := {
  du_gen : 0 <= gen < 2 ^ 63;
  du_first : 1 <= first;
  du_log : logName = log_name (gen + 1);
  du_next : forall n, gen + 1 < n -> fits 64 n -> default [] (dir !! log_name n) = [];
  du_super :
    dir !! super_name = None /\ base = empty_state /\ first = 1 /\ gen = 0 \/
    exists b m o img q, dir !! super_name = Some b /\ committed b m o /\ length b = sbSize /\
      cm_gen m = gen /\ cm_frontier m = first /\ cm_logName m = logName /\
      cm_snapshot m = snap_name gen /\
      dir !! snap_name gen = Some img /\ snap_dec img = Ok q /\ base = base_of q /\ Forall url_wf (p_URLs q) }.

Lemma snap_name_not_nil n : snap_name n <> [].
Proof. done. Qed.

(** Opening a directory whose log is some whole frames and a torn tail. *)
Lemma open_rel dir logName base first gen js tail opts :
  durable dir logName base first gen -> Forall j_ok js -> torn tail ->
  first + Z.of_nat (length js) < 2 ^ 64 ->
  default [] (dir !! logName) = log_bytes first (j_entry <$> js) ++ tail ->
  exists r, Open dir opts = Ok r /\ store_rel base first js tail r /\
    (s_dir r = dir /\ s_logName r = logName /\ s_gen r = gen /\ s_budget r = o_ResidentBudget opts) /\
    l_synced (s_log r) = l_off (s_log r) /\
    l_dur (s_log r) = (if o_Durability opts =? 0 then DurabilityNormal else o_Durability opts).
Proof.
  intros [Hg Hf1 Hlog Hnext Hsup] Hok Ht Hb Hfile. unfold Open. cbv zeta.
  set (dur := if o_Durability opts =? 0 then DurabilityNormal else o_Durability opts).
  set (s0 := mkStore dir dur _ _ _ _ _ _ _ _ _ _ _ _ _ _).
  assert (HX : forall meta s1, cm_logName meta = logName -> cm_frontier meta = first -> cm_gen meta = gen ->
    (if decide (cm_snapshot meta = []) then Ok (mkStore dir dur (s_log s0) (cm_logName meta) (cm_gen meta)
        [0] ∅ ∅ (o_ResidentBudget opts) 0 [] (s_id s0) (s_created s0) (s_codec s0) (s_lo s0) (s_hi s0))
     else match dir !! cm_snapshot meta with
          | None => Err ErrShortFile
          | Some img => part ← snap_dec img;
              Ok (install (mkStore dir dur (s_log s0) (cm_logName meta) (cm_gen meta)
                 [0] ∅ ∅ (o_ResidentBudget opts) 0 [] (s_id s0) (s_created s0) (s_codec s0) (s_lo s0) (s_hi s0)) part)
          end) = Ok s1 ->
    index_rel base [] s1 -> s_dir s1 = dir -> s_dur s1 = dur -> s_logName s1 = logName -> s_gen s1 = gen ->
    s_budget s1 = o_ResidentBudget opts -> s_evictQ s1 = [] ->
    exists r, recover s0 meta = Ok r /\ store_rel base first js tail r /\
      (s_dir r = dir /\ s_logName r = logName /\ s_gen r = gen /\ s_budget r = o_ResidentBudget opts) /\
      l_synced (s_log r) = l_off (s_log r) /\ l_dur (s_log r) = dur).
  { intros meta s1 E1 E2 E3 Es HR D1 D2 D3 D4 D5 D6. unfold recover.
    cbn [s_dir s_dur s_log s_arena s_urls s_hosts s_budget s_residentN s_evictQ s_id s_created s_codec s_lo s_hi s0].
    cbn [s_log s_id s_created s_codec s_lo s_hi s0] in Es. rewrite Es. cbn [mbind res_bind]. cbv zeta.
    rewrite E1, D1, Hfile. unfold openLog, replay. cbn [l_f].
    rewrite replay_log; [| by apply journal_wf | lia | rewrite length_fmap; lia | done |].
    2: { rewrite length_app, log_bytes_length, length_fmap.
         pose proof (log_len_ge (j_entry <$> js)) as Hle. rewrite length_fmap in Hle. lia. }
    set (s1l := with_log s1 _).
    destruct (recover_frames_rel base [] js s1l 0 first) as (s2 & Er & [Iu Ih Ia] & Hsh); [| done |].
    { destruct HR as [Iu Ih Ia]. split; [exact Iu | exact Ih | exact Ia]. }
    cbn [fmap list_fmap] in Er. change (log_len []) with 0%nat in Er. rewrite Er. cbn [mbind res_bind app] in *.
    destruct Hsh as (S1 & S2 & S3 & S4 & S5 & S6 & S7 & S8 & S9). unfold s1l in *. cbn in S1, S2, S3, S4, S5, S6, S7, S8, S9.
    eexists. split; [reflexivity |]. split; [| split; [cbn; rewrite S1, S4, S5, S6; done | done]].
    assert (Elsn : Z.max (cm_frontier meta) (u64 ((if decide (js = []) then 0 else Z.max 0 (first + Z.of_nat (length js) - 1)) + 1))
       = first + Z.of_nat (length js)).
    { rewrite E2. case_decide as Ej.
      - subst js. simpl length. rewrite u64_small by done. lia.
      - assert (0 < length js)%nat by (destruct js; [done | simpl; lia]).
        rewrite u64_small by (unfold fits; lia). lia. }
    split; cbn [s_log with_log s_urls s_hosts s_arena s_evictQ s_budget setLSN l_f l_off l_nextLSN].
    - done.
    - lia.
    - done.
    - done.
    - exact Elsn.
    - rewrite S8, D6. exact Iu.
    - exact Ih.
    - exact Ia.
    - intros _. by rewrite S8. }
  destruct Hsup as [(Esup & -> & -> & ->) | (b & m & o & img & q & Esup & Hc & _ & Eg & Ef & El & Esn & Eimg & Edec & -> & Hwf)].
  - rewrite Esup. unfold readSuperblock. subst logName. eapply HX; try reflexivity.
    split; cbn; [intros key; by rewrite !lookup_empty | intros key; by rewrite !lookup_empty | done].
  - rewrite Esup, (committed_read b m o Hc).
    eapply (HX m); [done | done | done | | | | | | | |].
    + rewrite decide_False by (rewrite Esn; apply snap_name_not_nil). rewrite Esn, Eimg, Edec. reflexivity.
    + split; cbn.
      * apply install_urls_rel; [done |]. intros key. by rewrite !lookup_empty.
      * apply install_hosts_rel. intros key. by rewrite !lookup_empty.
      * done.
    + done.
    + done.
    + done.
    + done.
    + done.
    + done.
Qed.

(** *** The snapshot is the abstract state *)

Lemma collect_spec js q (m : gmap URLKey URLRecord) (s : Store) (l : list (URLKey * urlLoc)) base first tail :
  store_rel base first js tail s -> first + Z.of_nat (length js) < 2 ^ 64 ->
  (forall e, e ∈ l -> loc_rel js q e.1 (m !! e.1) (Some e.2)) ->
  collect (fun e => snapshot_url s e.1 e.2) l = Ok (omap (fun e => m !! e.1) l).
Proof.
  intros HR Hb Hl. induction l as [|[key loc] l IH]; [done |]. cbn [collect].
  pose proof (Hl (key, loc) ltac:(left)) as Hk. cbn in Hk.
  assert (E : snapshot_url s key loc = Ok (match m !! key with Some r => [r] | None => [] end)).
  { unfold snapshot_url. destruct (ul_tomb loc); [by destruct Hk as [-> _] |].
    destruct Hk as (r & -> & Hkey & Hw & Hl'). destruct (ul_rec loc) as [rec |].
    - destruct Hl' as [[[[= ->] | [=]] _] | [[= ->] _]]; done.
    - destruct Hl' as [[_ Hback] | [[=] _]]. rewrite (backed_read _ _ _ _ _ _ _ _ HR Hb Hback).
      rewrite <- Hkey, decodeURL_encode by done. done. }
  cbn [fst snd]. rewrite E. cbn [mbind res_bind]. rewrite IH by (intros e He; apply Hl; by right).
  cbn [mbind res_bind omap list_omap fst]. by destruct (m !! key).
Qed.

Lemma omap_keys (m : gmap URLKey URLRecord) (l : list (URLKey * urlLoc)) :
  NoDup l.*1 -> (forall k r, m !! k = Some r -> r_URLKey r = k) ->
  NoDup (r_URLKey <$> omap (fun e => m !! e.1) l).
Proof.
  intros Hnd Hm. induction l as [|[k loc] l IH]; [constructor |]. rewrite fmap_cons, NoDup_cons in Hnd.
  destruct Hnd as [Hn Hnd]. cbn [omap list_omap fst]. destruct (m !! k) as [r |] eqn:E; [| by apply IH].
  rewrite fmap_cons, NoDup_cons. split; [| by apply IH]. rewrite (Hm _ _ E).
  intros (r' & Ek & Hr')%list_elem_of_fmap. apply Hn.
  apply list_elem_of_omap in Hr' as ([k' loc'] & Hin & E'). cbn in E'. apply Hm in E'.
  apply list_elem_of_fmap. exists (k', loc'). split; [by rewrite Ek | done].
Qed.

Lemma snapshot_rel base first js tail s :
  store_rel base first js tail s -> first + Z.of_nat (length js) < 2 ^ 64 -> s_arena s <> [] ->
  exists part, snapshotPartition s = Ok part /\ base_of part = foldl j_apply base js /\
    Forall url_wf (p_URLs part) /\ p_Strings part = s_arena s /\
    StronglySorted url_order (p_URLs part) /\ StronglySorted host_order (p_Hosts part).
Proof.
  intros HR Hb Har. set (a := foldl j_apply base js). unfold snapshotPartition.
  pose proof (sr_urls _ _ _ _ _ HR) as Hu. fold a in Hu.
  pose proof (sr_hosts _ _ _ _ _ HR) as Hh. fold a in Hh.
  rewrite (collect_spec js (s_evictQ s) (a_urls a) s _ base first tail HR Hb).
  2: { intros [k loc] Hin%elem_of_map_to_list. specialize (Hu k). by rewrite Hin in Hu. }
  cbn [mbind res_bind]. cbv zeta. eexists. split; [reflexivity |].
  set (urls := omap _ _). set (hosts := (hl_rec ∘ snd) <$> _).
  assert (Hkey : forall k r, a_urls a !! k = Some r -> r_URLKey r = k /\ url_wf r).
  { intros k r E. specialize (Hu k). unfold loc_rel in Hu. rewrite E in Hu.
    destruct (s_urls s !! k) as [loc |]; [| done]. destruct (ul_tomb loc); [by destruct Hu |].
    destruct Hu as (r' & [= <-] & ? & ? & _). done. }
  assert (Hin : forall k r, a_urls a !! k = Some r <-> r ∈ urls /\ r_URLKey r = k).
  { intros k r. unfold urls. rewrite list_elem_of_omap. split.
    - intros E. split; [| by apply Hkey]. specialize (Hu k). unfold loc_rel in Hu. rewrite E in Hu.
      destruct (s_urls s !! k) as [loc |] eqn:El; [| done]. exists (k, loc).
      split; [by apply elem_of_map_to_list | done].
    - intros [([k' loc] & _ & E) <-]. cbn in E. destruct (Hkey _ _ E) as [-> _]. done. }
  assert (Hunod : NoDup (r_URLKey <$> urls)).
  { apply omap_keys; [apply NoDup_fst_map_to_list |]. intros k r E. by apply Hkey. }
  assert (Hhin : forall k h, a_hosts a !! k = Some h <-> h ∈ hosts /\ h_HostKey h = k).
  { intros k h. unfold hosts. rewrite list_elem_of_fmap. split.
    - intros E. specialize (Hh k). destruct (s_hosts s !! k) as [loc |] eqn:El; [| congruence].
      destruct Hh as [Hh Hk]. rewrite Hh in E. destruct (hl_tomb loc) eqn:Et; [done |]. injection E as <-.
      split; [| by apply Hk]. exists (k, loc). split; [done |]. apply list_elem_of_filter.
      split; [done |]. by apply elem_of_map_to_list.
    - intros [([k' loc] & -> & [Et Hin']%list_elem_of_filter) <-]. cbn in Et |- *.
      apply elem_of_map_to_list in Hin'. specialize (Hh k'). rewrite Hin', Et in Hh.
      destruct Hh as [Hh Hk]. by rewrite (Hk eq_refl). }
  assert (Hhnod : NoDup (h_HostKey <$> hosts)).
  { unfold hosts. pose proof (NoDup_fst_map_to_list (s_hosts s)) as Hnd.
    assert (Hall : forall e, e ∈ map_to_list (s_hosts s) -> s_hosts s !! e.1 = Some e.2).
    { intros [k loc] He. by apply elem_of_map_to_list in He. }
    clear - Hnd Hall Hh. induction (map_to_list (s_hosts s)) as [|[k loc] l IH]; [constructor |].
    rewrite fmap_cons, NoDup_cons in Hnd. destruct Hnd as [Hn Hnd]. rewrite filter_cons.
    case_decide as Et; [| apply IH; [done |]; intros e He; apply Hall; by right].
    rewrite !fmap_cons, NoDup_cons. split; [| apply IH; [done |]; intros e He; apply Hall; by right].
    assert (Hkk : forall k loc, s_hosts s !! k = Some loc -> hl_tomb loc = false -> h_HostKey (hl_rec loc) = k).
    { intros k1 loc1 E1 E2. specialize (Hh k1). rewrite E1 in Hh. by apply Hh. }
    cbn. rewrite (Hkk k loc (Hall (k, loc) ltac:(left)) Et).
    intros (h & Ek & Hin)%list_elem_of_fmap. apply list_elem_of_fmap in Hin as ([k' loc'] & -> & Hin).
    apply list_elem_of_filter in Hin as [Et' Hin]. cbn in *. apply Hn.
    rewrite (Hkk k' loc' (Hall (k', loc') ltac:(by right)) Et') in Ek. subst k'.
    apply list_elem_of_fmap. by exists (k, loc'). }
  pose proof (merge_sort_Permutation url_order urls) as Pu.
  pose proof (merge_sort_Permutation host_order hosts) as Ph.
  split; [| split; [| split; [done |]]].
  - unfold base_of. cbn [p_URLs p_Hosts p_Strings]. rewrite decide_False by done.
    rewrite (foldl_rows_map r_URLKey _ (a_urls a)); [| by rewrite Pu | intros k r; by rewrite Pu].
    rewrite (foldl_rows_map h_HostKey _ (a_hosts a)); [| by rewrite Ph | intros k h; by rewrite Ph].
    rewrite (sr_arena _ _ _ _ _ HR). fold a. by destruct a as [? ? ?].
  - cbn [p_URLs]. rewrite Pu. apply Forall_forall. intros r Hr.
    apply (Hkey (r_URLKey r) r). by apply Hin.
  - cbn [p_URLs p_Hosts]. split; apply Sorted_StronglySorted, Sorted_merge_sort; apply _.
Qed.

Lemma arena_nonempty base js : a_arena base <> [] -> a_arena (foldl j_apply base js) <> [].
Proof.
  revert base. induction js as [|j js IH]; intros base Hb; [done |]. cbn [foldl]. apply IH.
  destruct j; cbn [j_apply a_arena]; try done. by destruct (a_arena base).
Qed.

Lemma durable_arena dir logName base first gen : durable dir logName base first gen -> a_arena base <> [].
Proof.
  intros [_ _ _ _ [(_ & -> & _) | (b & m & o & img & q & _ & _ & _ & _ & _ & _ & _ & _ & _ & -> & _)]]; [done |].
  unfold base_of. cbn [a_arena]. by case_decide.
Qed.

(** ** The checkpoint *)

Lemma names_wf gen frontier arenaLen :
  fits 64 gen -> fits 64 frontier -> fits 64 arenaLen ->
  meta_wf (mkMeta gen frontier arenaLen (snap_name gen) (log_name (u64 (gen + 1)))).
Proof.
  intros Hg Hf Ha. split; [done | done | done |]. cbn [cm_snapshot cm_logName]. unfold snap_name, log_name.
  rewrite !length_app. pose proof (decimal_length gen). pose proof (decimal_length (u64 (gen + 1))).
  unfold slotSize. cbn [length]. lia.
Qed.

(** The superblock after a commit, over none or over a committed one. *)
Lemma write_super dir logName base first gen m :
  durable dir logName base first gen -> meta_wf m -> cm_gen m = gen + 1 ->
  exists b o, writeSuperblock (dir !! super_name) m = Ok b /\ committed b m o.
Proof.
  intros [Hg _ _ _ Hsup] Hm Eg. destruct Hsup as [(-> & _ & _ & Hg0) | (b & m0 & o & img & q & -> & Hc & _ & Eg0 & _)].
  - set (slot := slot_body m ++ le_bytes 4 (crc32c (slot_body m))).
    assert (Hlen : length slot = 256%nat) by (by apply slot_length).
    exists (in_slot (cm_gen m) slot (replicate 256 0)), (replicate 256 0). split.
    + unfold writeSuperblock. rewrite encodeSlot_ok by done. fold slot. cbn [mbind res_bind default].
      replace (cm_gen m mod 2 =? 0) with false by (rewrite Eg, Hg0; done).
      unfold in_slot. replace (cm_gen m mod 2 =? 0) with false by (rewrite Eg, Hg0; done).
      f_equal. unfold write_at. rewrite drop_nil, !app_nil_r. reflexivity.
    + split; [done |]. split; [done |]. split; [done |]. left. vm_compute. reflexivity.
  - destruct (superblock_commit_atomic b o m0 m Hc Hm) as (b2 & E & Hc2 & _); [congruence |]. eauto.
Qed.

Lemma snap_log_name a b : snap_name a <> log_name b.
Proof. discriminate. Qed.
Lemma super_snap_name a : super_name <> snap_name a.
Proof. discriminate. Qed.
Lemma super_log_name a : super_name <> log_name a.
Proof. discriminate. Qed.

Lemma log_name_inj a b : fits 64 a -> fits 64 b -> log_name a = log_name b -> a = b.
Proof. intros Ha Hb E. unfold log_name in E. apply app_inv_head in E. by apply decimal_inj. Qed.

Lemma base_of_rows p q :
  p_URLs p = p_URLs q -> p_Hosts p = p_Hosts q -> p_Strings p = p_Strings q -> base_of p = base_of q.
Proof. intros E1 E2 E3. unfold base_of. by rewrite E1, E2, E3. Qed.

(** What a directory holds depends on its superblock, that superblock's snapshot and
    the absence of later logs. *)
Lemma durable_same dir dir' logName base first gen :
  durable dir logName base first gen -> dir' !! super_name = dir !! super_name ->
  dir' !! snap_name gen = dir !! snap_name gen ->
  (forall n, gen + 1 < n -> fits 64 n -> default [] (dir' !! log_name n) = []) ->
  durable dir' logName base first gen.
Proof.
  intros [H1 H2 H3 _ H5] Es En Hl. split; [done | done | done | done |]. by rewrite Es, En.
Qed.

Lemma committed_length b m o : committed b m o -> length b = sbSize.
Proof.
  intros (Hm & Ho & -> & _). pose proof (slot_length m Hm). unfold in_slot, sbSize, slotSize in *.
  destruct (cm_gen m mod 2 =? 0); rewrite length_app; lia.
Qed.

Lemma durable_meta dir part img q b o m gen :
  dir !! super_name = Some b -> committed b m o -> cm_gen m = gen -> 0 <= gen < 2 ^ 63 ->
  1 <= cm_frontier m -> cm_logName m = log_name (gen + 1) -> cm_snapshot m = snap_name gen ->
  dir !! snap_name gen = Some img -> snap_dec img = Ok q -> base_of part = base_of q ->
  Forall url_wf (p_URLs q) ->
  (forall n, gen + 1 < n -> fits 64 n -> default [] (dir !! log_name n) = []) ->
  durable dir (log_name (gen + 1)) (base_of part) (cm_frontier m) gen.
Proof.
  intros Es Hc Eg Hg Hf El En Ei Ed Eb Hw Hl. split; [done | done | done | done |].
  right. exists b, m, o, img, q. split; [done |]. split; [done |]. split; [by eapply committed_length |].
  do 7 (split; [done |]). done.
Qed.

(** The directory after each file operation of commit: the snapshot written, the new
    log created, the superblock written, the old log and the old snapshot removed. *)
Definition commit_stages (s : Store) (img super : list Z) : list directory :=
  let gen := s_gen s + 1 in
  let d0 := <[s_logName s := l_f (s_log s)]> (s_dir s) in
  let d1 := <[snap_name gen := img]> d0 in
  let d2 := <[log_name (gen + 1) := []]> d1 in
  let d3 := <[super_name := super]> d2 in
  let d4 := delete (log_name gen) d3 in
  let d5 := if 1 <? gen then delete (snap_name (gen - 1)) d4 else d4 in
  [d0; d1; d2; d3; d4; d5].

(** What commit leaves: the superblock names the new snapshot and the new, empty
    log; nothing else of the store changes; and wherever it is cut, the directory
    holds the old account or the new one. *)
Record committed_to (part : Partition) (base : astate) (first frontier : Z) (s s' : Store) : Prop := {
  ct_durable : durable (s_dir s') (s_logName s') (base_of part) frontier (s_gen s');
  ct_gen : s_gen s' = s_gen s + 1;
  ct_log : s_log s' = setLSN (openLog [] (s_dur s)) frontier;
  ct_rest : s_arena s' = s_arena s /\ s_urls s' = s_urls s /\ s_hosts s' = s_hosts s /\
            s_budget s' = s_budget s /\ s_evictQ s' = s_evictQ s /\ s_codec s' = s_codec s;
  ct_stages : exists img super, snap_enc part = Ok img /\
    forall d, d ∈ commit_stages s img super ->
      durable d (s_logName s) base first (s_gen s) /\ d !! s_logName s = Some (l_f (s_log s)) \/
      durable d (s_logName s') (base_of part) frontier (s_gen s') /\ d !! s_logName s' = Some [] }.

Lemma commit_ok s part base first :
  durable (s_dir s) (s_logName s) base first (s_gen s) -> s_gen s + 1 < 2 ^ 63 ->
  1 <= l_nextLSN (s_log s) < 2 ^ 64 -> snap_ok part -> Forall url_wf (p_URLs part) ->
  exists s', commit s part = Ok s' /\ committed_to part base first (l_nextLSN (s_log s)) s s'.
Proof.
  intros Hd Hg Hl Hok Hw. pose proof Hd as [Hg0 _ Elog Hnext _].
  destruct (snap_roundtrip part Hok) as (img & q & Eenc & Edec & Eu & Eh & Es & _).
  pose proof (snap_strings part Hok) as Hstr.
  unfold commit, peekLSN. cbv zeta. rewrite Eenc. cbn [mbind res_bind].
  rewrite (u64_small (s_gen s + 1)) by (unfold fits; lia). set (gen := s_gen s + 1) in *.
  rewrite (u64_small (gen + 1)) by (unfold fits; lia).
  set (m := mkMeta _ _ _ _ _).
  assert (Hm : meta_wf m).
  { unfold m. rewrite <- (u64_small (gen + 1)) at 1 by (unfold fits; lia).
    apply names_wf; unfold fits in *; lia. }
  destruct (write_super (s_dir s) (s_logName s) base first (s_gen s) m Hd Hm eq_refl) as (b & o & Ew & Hc).
  rewrite !(lookup_insert_ne (s_dir s) (snap_name gen)) by discriminate. rewrite Ew. cbn [mbind res_bind].
  rewrite Hnext by (unfold fits; lia).
  assert (Elg : s_logName s = log_name gen) by exact Elog.
  assert (Nlog : forall n, gen < n -> fits 64 n -> log_name gen <> log_name n).
  { intros n Hn Hf E. apply log_name_inj in E; [lia | unfold fits; lia | done]. }
  assert (Nsnap : snap_name gen <> snap_name (gen - 1)).
  { intros E. apply snap_name_inj in E; [lia | unfold fits; lia | unfold fits; lia]. }
  assert (Hnew : forall d, d !! super_name = Some b -> d !! snap_name gen = Some img ->
    (forall n, gen + 1 < n -> fits 64 n -> default [] (d !! log_name n) = []) ->
    durable d (log_name (gen + 1)) (base_of part) (l_nextLSN (s_log s)) gen).
  { intros d E1 E2 E3. change (l_nextLSN (s_log s)) with (cm_frontier m).
    apply (durable_meta d part img q b o m gen); try done; [lia | cbn; lia | by apply base_of_rows | by rewrite Eu]. }
  eexists. split; [reflexivity |].
  split; cbn [s_dir s_logName s_gen s_log s_arena s_urls s_hosts s_budget s_evictQ s_codec];
    rewrite ?Elg; try done.
  - apply Hnew; [destruct (1 <? gen); names_tac | destruct (1 <? gen); names_tac |].
    intros n Hn Hf. pose proof (Nlog n ltac:(lia) Hf).
    etransitivity; [| apply (Hnext n); lia || done]. f_equal.
    destruct (1 <? gen); names_tac.
  - exists img, b. split; [done |]. intros d. unfold commit_stages. cbv zeta. fold gen.
    assert (Nlog1 : log_name gen <> log_name (gen + 1)) by (apply Nlog; [lia | unfold fits; lia]).
    rewrite Elg, !elem_of_cons, elem_of_nil.
    assert (Nold : snap_name gen <> snap_name (s_gen s)) by (replace (s_gen s) with (gen - 1) by lia; done).
    assert (Hbeyond : forall n, gen + 1 < n -> fits 64 n ->
      log_name gen <> log_name n /\ log_name (gen + 1) <> log_name n /\ default [] (s_dir s !! log_name n) = []).
    { intros n Hn Hf. split; [apply Nlog; lia || done |]. split; [| apply Hnext; lia || done].
      intros E. apply log_name_inj in E; [lia | unfold fits; lia | done]. }
    assert (Hat : forall n, gen < n -> fits 64 n -> log_name gen <> log_name n /\ default [] (s_dir s !! log_name n) = []).
    { intros n Hn Hf. split; [by apply Nlog | by apply Hnext]. }
    intros Hin. destruct Hin as [-> | [-> | [-> | Hin]]];
      [left; split; [apply (durable_same (s_dir s)); [by rewrite Elg in Hd | names_tac | names_tac |] | names_tac] .. |].
    + intros n Hn Hf. destruct (Hat n ltac:(lia) Hf) as [? Hn0]. etransitivity; [| exact Hn0]. f_equal. names_tac.
    + intros n Hn Hf. destruct (Hat n ltac:(lia) Hf) as [? Hn0]. etransitivity; [| exact Hn0]. f_equal. names_tac.
    + intros n Hn Hf. destruct (decide (n = gen + 1)) as [-> | Hne]; [names_tac |].
      destruct (Hbeyond n ltac:(lia) Hf) as (? & ? & Hn0).
      etransitivity; [| exact Hn0]. f_equal. names_tac.
    + right. assert (Hcase : forall d, d !! super_name = Some b -> d !! snap_name gen = Some img ->
        d !! log_name (gen + 1) = Some [] ->
        (forall n, gen + 1 < n -> fits 64 n -> default [] (d !! log_name n) = default [] (s_dir s !! log_name n)) ->
        durable d (log_name (gen + 1)) (base_of part) (l_nextLSN (s_log s)) gen /\ d !! log_name (gen + 1) = Some []).
      { intros d' E1 E2 E3 E4. split; [| done]. apply Hnew; [done | done |]. intros n Hn Hf. rewrite E4 by done.
        by apply Hbeyond. }
      destruct Hin as [-> | [-> | [-> | []]]]; try destruct (1 <? gen);
        (apply Hcase; [names_tac | names_tac | names_tac |]);
        intros n Hn Hf; destruct (Hbeyond n Hn Hf) as (? & ? & _); f_equal; names_tac.
Qed.
End Recovery.
