(* ===== verification/StoreSpec.v ===== *)
(** * What the store promises

    The durable store of store/store.go against its abstract specification: a map of
    records and an arena behind a journal.  A live store simulates the specification
    step by step, whatever is resident; a crash keeps a prefix of the journal; a
    checkpoint, cut anywhere between its file operations, keeps all of it.  Two
    behaviours of the code that break the promise are proved as such at the end. *)

From S2P Require Import Prelude Words Model Rbuf Page Column File Arena Ops StoreLog Store.
Open Scope Z_scope.

(** ** The relation between a store, its disk and the abstract state *)

(** What the read operations show. *)
Definition observes (s : Store) (a : astate) : Prop :=
  (forall key, exists s', GetURL s key = Ok (s', a_urls a !! key)) /\
  (forall key, GetHost s key = a_hosts a !! key) /\
  s_arena s = a_arena a /\ URLCount s = size (a_urls a) /\ HostCount s = size (a_hosts a).

Lemma GetHost_rel m s key : hosts_rel m (s_hosts s) -> GetHost s key = m !! key.
Proof.
  intros Hh. specialize (Hh key). unfold GetHost. destruct (s_hosts s !! key); [| done].
  by destruct Hh as [-> _].
Qed.

Lemma store_rel_observes base first js tail s :
  store_rel base first js tail s -> first + Z.of_nat (length js) < 2 ^ 64 ->
  observes s (foldl j_apply base js).
Proof.
  intros HR Hb. split; [| split; [| split; [| split]]].
  - intros key. destruct (get_rel base first js tail s key HR Hb) as (s' & E & _). eauto.
  - intros key. apply GetHost_rel, HR.
  - apply HR.
  - apply (url_count_rel js (s_evictQ s)), HR.
  - apply host_count_rel, HR.
Qed.

(** A write that waits for the log under full durability. *)
Definition is_write (j : jentry) : bool := match j with JIntern _ => false | _ => true end.

(** The first [m] entries are synced, and under full durability so is every
    acknowledged write. *)
Definition synced_rel (m : nat) (js : list jentry) (l : log) : Prop :=
  (m <= length js)%nat /\ (log_len (j_entry <$> take m js) <= l_synced l <= l_off l)%nat /\
  (l_dur l = DurabilityFull -> forall js1 j js2, js = js1 ++ j :: js2 -> is_write j = true ->
     (log_len (j_entry <$> js1 ++ [j]) <= l_synced l)%nat).

(** What operations other than a checkpoint leave alone, the log apart. *)
Definition same_files (s s' : Store) : Prop :=
  s_dir s' = s_dir s /\ s_logName s' = s_logName s /\ s_gen s' = s_gen s /\
  s_budget s' = s_budget s /\ l_dur (s_log s') = l_dur (s_log s).

Lemma same_files_trans a b c : same_files a b -> same_files b c -> same_files a c.
Proof. unfold same_files. intuition congruence. Qed.

Lemma evict_frame q s : same_files s (evict_loop q s) /\ s_log (evict_loop q s) = s_log s.
Proof.
  revert s. induction q as [|k q IH]; intros s; cbn [evict_loop]; [done |].
  case_match; [done |]. cbv zeta.
  destruct (s_urls s !! k) as [[? ? [|] []] |]; cbn [ul_rec ul_tomb];
    match goal with |- context [evict_loop q ?x] => exact (IH x) end.
Qed.

Lemma track_frame s key : same_files s (trackResident s key) /\ s_log (trackResident s key) = s_log s.
Proof. unfold trackResident. case_match; [done |]. exact (evict_frame _ (with_resident s _ _)). Qed.

(** The log after one entry: appended, and committed when the operation waits. *)
Definition logged (l : log) (j : jentry) (l' : log) : Prop :=
  if is_write j then exists n, (0 < n)%nat /\ l' = log_commit (log_step l (j_entry j)) (l_off l + n)
  else l' = log_step l (j_entry j).

Lemma log_commit_dur l n : l_dur (log_commit l n) = l_dur l.
Proof. unfold log_commit, fsync. repeat case_match; done. Qed.

Section Frames.
Context `{BlockCodec}.

Lemma intern_frame s bytes :
  same_files s (intern_entry s bytes).1 /\ logged (s_log s) (JIntern bytes) (s_log (intern_entry s bytes).1).
Proof. done. Qed.

Lemma put_frame s r :
  same_files s (PutURL s r).1 /\ logged (s_log s) (JURL r) (s_log (PutURL s r).1).
Proof.
  unfold PutURL, logged. cbn [is_write j_entry log_step]. rewrite Bytes_length. change (Z.of_nat 16) with 16. cbv zeta.
  destruct (log_append _ _ _ _ _) as [[l off] lsn] eqn:El.
  assert (off = l_off (s_log s)) as -> by (unfold log_append in El; congruence).
  assert (Hd : l_dur l = l_dur (s_log s)) by (unfold log_append in El; injection El as <- _; done).
  set (n := (frameHeaderSize + 16 + urlValueSize + 4)%nat). set (s1 := with_urls _ _).
  assert (Hs1 : same_files s s1).
  { unfold s1, same_files. cbn [s_dir s_logName s_gen s_budget s_log with_urls with_log].
    by rewrite log_commit_dur. }
  assert (Hl : s_log s1 = log_commit l (l_off (s_log s) + n)) by done.
  destruct (track_frame s1 (r_URLKey r)) as [H1 H2]. cbn [fst snd].
  repeat case_match; cbn [fst]; rewrite ?H2, Hl; (split; [by eapply same_files_trans | exists n; split; [unfold n; lia | done]]).
Qed.

Lemma delete_frame s key :
  same_files s (DeleteURL s key) /\ logged (s_log s) (JDel key) (s_log (DeleteURL s key)).
Proof.
  unfold DeleteURL, logged. cbn [is_write j_entry log_step]. rewrite Bytes_length. change (Z.of_nat 16) with 16. cbv zeta.
  unfold log_append. cbn [fst snd s_log with_urls with_log]. split.
  - unfold same_files. cbn [s_dir s_logName s_gen s_budget s_log with_urls with_hosts with_log].
    by rewrite log_commit_dur.
  - exists (frameHeaderSize + 16 + 4)%nat. split; [unfold frameHeaderSize; lia | done].
Qed.

Lemma put_host_frame s h :
  same_files s (PutHost s h).1 /\ logged (s_log s) (JHost h) (s_log (PutHost s h).1).
Proof.
  unfold PutHost, logged. cbn [is_write j_entry log_step]. rewrite le_bytes_length. change (Z.of_nat 8) with 8. cbv zeta.
  unfold log_append. cbn [fst snd s_log with_hosts with_log]. split.
  - unfold same_files. cbn [s_dir s_logName s_gen s_budget s_log with_urls with_hosts with_log].
    by rewrite log_commit_dur.
  - exists (frameHeaderSize + 8 + hostValueSize + 4)%nat. split; [unfold frameHeaderSize; lia | done].
Qed.

Lemma get_frame s key s' r :
  GetURL s key = Ok (s', r) -> same_files s s' /\ s_log s' = s_log s.
Proof.
  unfold GetURL. destruct (s_urls s !! key) as [loc |]; [| by intros [= <- <-]].
  destruct (ul_tomb loc); [by intros [= <- <-] |]. destruct (ul_rec loc); [by intros [= <- <-] |].
  destruct (readAt _ _) as [[[[? ?] ?] val] | e]; [| by intros [= <- <-]].
  destruct (decodeURL key val) as [rec |]; cbn [mbind res_bind]; [| done]. intros [= <- <-].
  exact (track_frame (with_urls s _) key).
Qed.

Lemma store_step_frame s o s' out lsn a :
  store_step s o = Ok (s', out) ->
  same_files s s' /\
  match (spec_step (s_codec s) lsn a o).1 with
  | [] => s_log s' = s_log s
  | [j] => logged (s_log s) j (s_log s')
  | _ => False
  end.
Proof.
  destruct o; cbn [store_step spec_step].
  - unfold Intern. case_decide; [by intros [= <- <-] |]. cbn [fst].
    destruct (intern_entry s _) as [s1 off] eqn:E. intros [= <- <-].
    pose proof (intern_frame s (arena_entry str)) as Hf. by rewrite E in Hf.
  - by intros [= <- <-].
  - unfold InternRobots. case_decide; [by intros [= <- <-] |]. cbn [fst].
    destruct (intern_entry s _) as [s1 off] eqn:E. intros [= <- <-].
    pose proof (intern_frame s (arena_entry (PackRobots blob (s_codec s)))) as Hf. by rewrite E in Hf.
  - by intros [= <- <-].
  - pose proof (put_frame s r) as Hf. destruct (PutURL s r) as [s1 l]. by intros [= <- <-].
  - destruct (GetURL s key) as [[s1 r] |] eqn:E; cbn [mbind res_bind]; [| done]. intros [= <- <-].
    by eapply get_frame.
  - intros [= <- <-]. apply delete_frame.
  - pose proof (put_host_frame s h) as Hf. destruct (PutHost s h) as [s1 l]. by intros [= <- <-].
  - by intros [= <- <-].
  - by intros [= <- <-].
Qed.
End Frames.

Lemma log_step_same l e :
  l_synced (log_step l e) = l_synced l /\ l_dur (log_step l e) = l_dur l /\
  l_off (log_step l e) = (l_off l + entry_len e)%nat.
Proof.
  destruct e as [[kind key] val]. cbn [log_step entry_len]. unfold log_append. cbn [fst l_synced l_dur l_off].
  by rewrite frame_of_length.
Qed.

(** One more entry keeps the synced prefix covering the acknowledged writes. *)
Lemma synced_step m js l j l' :
  synced_rel m js l -> l_off l = log_len (j_entry <$> js) -> logged l j l' -> synced_rel m (js ++ [j]) l'.
Proof.
  intros (Hm & Hs & Hw) Ho Hl. destruct (log_step_same l (j_entry j)) as (E1 & E2 & E3).
  pose proof (entry_len_pos (j_entry j)) as Hpos.
  assert (Hall : forall js1 j0 js2, js ++ [j] = js1 ++ j0 :: js2 ->
    (exists js2', js = js1 ++ j0 :: js2') \/ (js1 = js /\ j0 = j)).
  { intros js1 j0 js2 E. destruct js2 as [|j1 js2 _] using rev_ind.
    - apply app_inj_tail in E as [-> ->]. by right.
    - rewrite app_comm_cons, app_assoc in E. apply app_inj_tail in E as [-> _]. left. eauto. }
  assert (Hlen : log_len (j_entry <$> js ++ [j]) = l_off (log_step l (j_entry j))).
  { rewrite E3, Ho, fmap_app, log_len_app. cbn [fmap list_fmap]. rewrite log_len_cons.
    change (log_len []) with 0%nat. lia. }
  assert (Hpre : forall js1 j0 js2, js ++ [j] = js1 ++ j0 :: js2 ->
    (log_len (j_entry <$> js1 ++ [j0]) <= l_off (log_step l (j_entry j)))%nat).
  { intros js1 j0 js2 E. rewrite <- Hlen, E.
    replace (js1 ++ j0 :: js2) with ((js1 ++ [j0]) ++ js2) by (by rewrite <- app_assoc).
    rewrite (fmap_app _ (js1 ++ [j0])), log_len_app. lia. }
  split; [rewrite length_app; lia |]. rewrite take_app_le by done.
  unfold logged in Hl. destruct (is_write j) eqn:Ew.
  - destruct Hl as (n & Hn & ->). unfold log_commit, fsync. rewrite E2. destruct (l_dur l =? DurabilityFull) eqn:Ed; cbn [negb].
    + rewrite E1, (proj2 (Nat.leb_gt _ _)) by lia. split; cbn [l_synced l_off]; [lia |].
      intros _ js1 j0 js2 E _. by eapply Hpre.
    + bool_prop. split; [lia |]. intros Hf. congruence.
  - subst l'. split; [lia |]. rewrite E1, E2. intros Hf js1 j0 js2 E Hj.
    destruct (Hall js1 j0 js2 E) as [(js2' & ->) | [-> ->]]; [by eapply Hw | congruence].
Qed.

Section Run.
Context `{BlockCodec}.

Lemma store_run_synced m base first js s os s' outs :
  store_rel base first js [] s -> synced_rel m js (s_log s) -> Forall (op_ok (s_codec s)) os ->
  first + Z.of_nat (length js + length os) < 2 ^ 64 -> store_run s os = Ok (s', outs) ->
  same_files s s' /\
  synced_rel m (js ++ (spec_run (s_codec s) (first + Z.of_nat (length js)) (foldl j_apply base js) os).1) (s_log s').
Proof.
  revert js s s' outs. induction os as [|o os IH]; intros js s s' outs HR Hsy Ho Hb; cbn [spec_run store_run].
  { intros [= <- <-]. cbn [fst]. by rewrite app_nil_r. }
  inversion Ho as [|? ? Ho1 Ho2]; subst. cbn [length] in Hb.
  pose proof (store_step_rel base first js s o HR Ho1 ltac:(lia)) as Hs.
  destruct (spec_step _ _ _ o) as [add out] eqn:Espec. destruct Hs as (s1 & E1 & HR1 & Hc1 & Hadd).
  destruct (store_step_frame s o s1 out (first + Z.of_nat (length js)) (foldl j_apply base js) E1) as [Hf Hl].
  rewrite Espec in Hl. cbn [fst] in Hl. rewrite E1. cbn [mbind res_bind].
  destruct (store_run s1 os) as [[s2 outs2] |] eqn:E2; cbn [mbind res_bind]; [| done]. intros [= <- <-].
  assert (Hsy1 : synced_rel m (js ++ add) (s_log s1)).
  { destruct add as [|j [|? ?]]; [by rewrite app_nil_r, Hl | | done].
    apply (synced_step m js (s_log s)); [done | | done].
    by rewrite (sr_off _ _ _ _ _ HR), (sr_file _ _ _ _ _ HR), app_nil_r, log_bytes_length. }
  rewrite <- Hc1 in Ho2. destruct (IH (js ++ add) s1 s2 outs2 HR1 Hsy1 Ho2) as [Hf2 Hsy2];
    [rewrite length_app; lia | done |].
  split; [by eapply same_files_trans |]. rewrite Hc1, length_app, foldl_app in Hsy2.
  replace (first + Z.of_nat (length js) + Z.of_nat (length add)) with (first + Z.of_nat (length js + length add)) by lia.
  destruct (spec_run _ _ _ os) as [add' outs']. cbn [fst] in *. by rewrite app_assoc.
Qed.
End Run.

(** ** Without a resident budget every record stays in memory *)

Definition resident_loc (k : URLKey) (loc : urlLoc) : Prop := ul_tomb loc = true \/ is_Some (ul_rec loc).
Abbreviation all_resident s := (map_Forall resident_loc (s_urls s)).

Lemma replay_loop_inv {S} (P : S -> Prop) (fn : S -> frame -> res S) fuel b off st st' :
  (forall st f st', P st -> fn st f = Ok st' -> P st') ->
  P st -> replay_loop fn fuel b off st = Ok st' -> P st'.
Proof.
  intros Hfn. revert b off st. induction fuel as [|fuel IH]; intros b off st HP; cbn [replay_loop];
    [by intros [= <-] |].
  case_match; [by intros [= <-] |]. cbv zeta. case_match; [by intros [= <-] |].
  case_match; [by intros [= <-] |]. destruct (fn st _) as [st1 |] eqn:E; [| done].
  apply IH. by eapply Hfn.
Qed.

Section Resident.
Context `{BlockCodec} `{SnapshotCodec}.

Lemma track_unbounded s key : s_budget s <= 0 -> trackResident s key = s.
Proof. intros Hb. unfold trackResident. by rewrite (proj2 (Z.leb_le _ _) Hb). Qed.

Lemma resident_step s o s' out :
  s_budget s <= 0 -> all_resident s -> store_step s o = Ok (s', out) -> all_resident s'.
Proof.
  intros Hb Hr. destruct o; cbn [store_step].
  - unfold Intern. case_decide; by intros [= <- <-].
  - by intros [= <- <-].
  - unfold InternRobots. case_decide; by intros [= <- <-].
  - by intros [= <- <-].
  - unfold PutURL. destruct (log_append _ _ _ _ _) as [[l off] lsn]. cbv zeta.
    set (s1 := with_urls _ _). intros [= <- <-].
    assert (Hs1 : all_resident s1).
    { apply map_Forall_insert_2; [right; by eexists | done]. }
    repeat case_match; by rewrite ?track_unbounded.
  - unfold GetURL. destruct (s_urls s !! key) as [loc |] eqn:El; [| by intros [= <- <-]].
    destruct (Hr key loc El) as [-> | [r ->]]; [by intros [= <- <-] |]. case_match; by intros [= <- <-].
  - unfold DeleteURL. destruct (log_append _ _ _ _ _) as [[l off] lsn]. cbv zeta. intros [= <- <-].
    apply map_Forall_insert_2; [by left | done].
  - unfold PutHost. destruct (log_append _ _ _ _ _) as [[l off] lsn]. cbv zeta. by intros [= <- <-].
  - by intros [= <- <-].
  - by intros [= <- <-].
Qed.

Lemma resident_run s os s' outs :
  s_budget s <= 0 -> all_resident s -> store_run s os = Ok (s', outs) -> all_resident s'.
Proof.
  revert s outs. induction os as [|o os IH]; intros s outs Hb Hr; cbn [store_run]; [by intros [= <- <-] |].
  destruct (store_step s o) as [[s1 out] |] eqn:E; cbn [mbind res_bind]; [| done].
  destruct (store_run s1 os) as [[s2 outs2] |] eqn:E2; cbn [mbind res_bind]; [| done]. intros [= <- <-].
  eapply IH; [| by eapply resident_step | done].
  destruct (store_step_frame s o s1 out 0 empty_state E) as [(_ & _ & _ & -> & _) _]. done.
Qed.

Lemma recover_frame_resident st f st' :
  all_resident st.1 -> recover_frame st f = Ok st' -> all_resident st'.1.
Proof.
  destruct st as [s n]. unfold recover_frame. cbn [fst]. intros Hr. case_match; [by intros [= <-] |].
  case_match; [| case_match; [| by intros [= <-]]].
  - destruct (frame_key f) as [key |]; cbn [mbind res_bind]; [| done].
    destruct (fr_tomb f); cbn [mbind res_bind].
    + intros [= <-]. apply map_Forall_insert_2; [by left | done].
    + destruct (decodeURL key (fr_val f)); cbn [mbind res_bind]; [| done].
      intros [= <-]. apply map_Forall_insert_2; [right; by eexists | done].
  - destruct (readU64 (fr_key f)) as [key |]; cbn [mbind res_bind]; [| done].
    destruct (fr_tomb f); cbn [mbind res_bind].
    + by intros [= <-].
    + destruct (decodeHost key (fr_val f)); cbn [mbind res_bind]; [| done]. by intros [= <-].
Qed.

Lemma install_resident s part : all_resident s -> all_resident (install s part).
Proof.
  unfold install. cbn [s_urls]. generalize (s_urls s). induction (p_URLs part) as [|r rows IH]; intros u Hu; [done |].
  cbn [foldl]. apply IH. apply map_Forall_insert_2; [right; by eexists | done].
Qed.

Lemma open_resident dir opts s : Open dir opts = Ok s -> all_resident s.
Proof.
  unfold Open. cbv zeta. set (s0 := mkStore _ _ _ _ _ _ _ _ _ _ _ _ _ _ _ _).
  assert (HR : forall meta s1, recover s0 meta = Ok s1 -> all_resident s1).
  { intros meta s1. unfold recover. cbv zeta. set (s2 := mkStore _ _ _ _ _ _ _ _ _ _ _ _ _ _ _ _).
    assert (H2 : all_resident s2) by (unfold s2; cbn; apply map_Forall_empty).
    match goal with |- context [mbind _ ?e = Ok s1] => destruct e as [s3 |] eqn:E3; cbn [mbind res_bind]; [| done] end.
    assert (H3 : all_resident s3).
    { revert E3. case_decide; [by intros [= <-] |]. case_match; [| done].
      destruct (snap_dec _); cbn [mbind res_bind]; [| done]. intros [= <-]. by apply install_resident. }
    destruct (replay _ _ _) as [[s4 n] |] eqn:E4; cbn [mbind res_bind]; [| done]. intros [= <-]. cbn [with_log s_urls].
    unfold replay in E4.
    apply (replay_loop_inv (fun st => all_resident st.1)) in E4; [done | | done].
    intros st f st' Hst Hf. by eapply recover_frame_resident. }
  destruct (readSuperblock _) as [meta | []]; try done; apply HR.
Qed.
End Resident.

(** ** Simulation *)

Section Session.
Context `{BlockCodec} `{SnapshotLaws}.

(** The live store [s] stands for the state [a], numbered up to [lsn] and synced, with
    the entries [js] journalled since. *)
Definition live (s : Store) (a : astate) (lsn : Z) (js : list jentry) : Prop :=
  exists base first js0, durable (s_dir s) (s_logName s) base first (s_gen s) /\
    store_rel base first (js0 ++ js) [] s /\ synced_rel (length js0) (js0 ++ js) (s_log s) /\
    a = foldl j_apply base js0 /\ lsn = first + Z.of_nat (length js0).

(** The directory stands for [a]: its log is whole frames and a torn tail. *)
Definition disk (dir : directory) (a : astate) (lsn : Z) (tail : list Z) : Prop :=
  exists logName base first gen js, durable dir logName base first gen /\ Forall j_ok js /\ torn tail /\
    default [] (dir !! logName) = log_bytes first (j_entry <$> js) ++ tail /\
    a = foldl j_apply base js /\ lsn = first + Z.of_nat (length js).

Lemma disk_empty : disk ∅ empty_state 1 [].
Proof.
  exists (log_name 1), empty_state, 1, 0, []. split.
  - split; [done | done | done | |].
    + intros n _ _. by rewrite lookup_empty.
    + left. by rewrite lookup_empty.
  - split; [done |]. split; [apply torn_nil |]. by rewrite lookup_empty.
Qed.

Lemma open_disk dir a lsn tail opts :
  disk dir a lsn tail -> lsn < 2 ^ 64 ->
  exists s, Open dir opts = Ok s /\ observes s a /\ (tail = [] -> live s a lsn []) /\
    s_budget s = o_ResidentBudget opts /\
    l_dur (s_log s) = (if o_Durability opts =? 0 then DurabilityNormal else o_Durability opts).
Proof.
  intros (logName & base & first & gen & js & Hd & Hok & Ht & Hf & -> & ->) Hb.
  destruct (open_rel dir logName base first gen js tail opts Hd Hok Ht Hb Hf)
    as (s & E & HR & (E1 & E2 & E3 & E4) & Esy & Edur).
  exists s. split; [done |]. split; [by eapply store_rel_observes |]. split; [| done].
  intros ->. exists base, first, js. rewrite E1, E2, E3, app_nil_r. split; [done |]. split; [done |]. split; [| done].
  pose proof (sr_off _ _ _ _ _ HR) as Ho. rewrite (sr_file _ _ _ _ _ HR), app_nil_r, log_bytes_length in Ho.
  rewrite Ho in Esy. split; [done |]. rewrite take_ge by lia. split; [lia |]. intros _ js1 j js2 -> _.
  replace (js1 ++ j :: js2) with ((js1 ++ [j]) ++ js2) in Esy by (by rewrite <- app_assoc).
  rewrite (fmap_app _ (js1 ++ [j])), log_len_app in Esy. lia.
Qed.

Lemma live_observes s a lsn js :
  live s a lsn js -> lsn + Z.of_nat (length js) < 2 ^ 64 -> observes s (foldl j_apply a js).
Proof.
  intros (base & first & js0 & _ & HR & _ & -> & ->) Hb. rewrite <- foldl_app.
  apply (store_rel_observes base first _ [] s HR). rewrite length_app. lia.
Qed.

Lemma live_run s a lsn js os :
  live s a lsn js -> Forall (op_ok (s_codec s)) os -> lsn + Z.of_nat (length js + length os) < 2 ^ 64 ->
  let '(add, outs) := spec_run (s_codec s) (lsn + Z.of_nat (length js)) (foldl j_apply a js) os in
  exists s', store_run s os = Ok (s', outs) /\ live s' a lsn (js ++ add) /\
    same_files s s' /\ (length add <= length os)%nat.
Proof.
  intros (base & first & js0 & Hd & HR & Hsy & -> & ->) Ho Hb.
  assert (Hb' : first + Z.of_nat (length (js0 ++ js) + length os) < 2 ^ 64) by (rewrite length_app; lia).
  pose proof (store_run_rel base first _ s os HR Ho Hb') as Hrun.
  pose proof (fun s' outs => store_run_synced _ base first _ s os s' outs HR Hsy Ho Hb') as Hsync.
  rewrite length_app, foldl_app in Hrun, Hsync.
  replace (first + Z.of_nat (length js0) + Z.of_nat (length js)) with (first + Z.of_nat (length js0 + length js)) by lia.
  destruct (spec_run _ _ _ os) as [add outs]. destruct Hrun as (s' & E & HR' & Hlen).
  destruct (Hsync s' outs E) as [Hf Hsy']. pose proof Hf as (E1 & E2 & E3 & _ & _).
  rewrite <- app_assoc in HR', Hsy'. exists s'. split; [done |]. split; [| done].
  exists base, first, js0. rewrite E1, E2, E3. done.
Qed.

(** A crash keeps a prefix of the journal, and what was acknowledged as durable. *)
Lemma live_crash s a lsn js n :
  live s a lsn js -> lsn + Z.of_nat (length js) < 2 ^ 64 -> (l_synced (s_log s) <= n)%nat ->
  exists k tail, disk (crash s n) (foldl j_apply a (take k js)) (lsn + Z.of_nat k) tail /\
    (k <= length js)%nat /\
    (l_dur (s_log s) = DurabilityFull -> forall js1 j js2, js = js1 ++ j :: js2 -> is_write j = true ->
       (length js1 < k)%nat) /\
    ((length (l_f (s_log s)) <= n)%nat -> k = length js /\ tail = []).
Proof.
  intros (base & first & js0 & Hd & HR & (_ & Hsy & Hw) & -> & ->) Hb Hn.
  rewrite take_app_length in Hsy. pose proof (sr_ok _ _ _ _ _ HR) as Hok.
  pose proof (sr_file _ _ _ _ _ HR) as Hf. rewrite app_nil_r in Hf.
  pose proof (sr_first _ _ _ _ _ HR) as Hf0.
  destruct (log_cut first (j_entry <$> js0 ++ js) n) as (k & tail & E & Ht & Hk & Hk' & Hle);
    [by apply journal_wf | done | rewrite length_fmap, length_app; lia |].
  rewrite length_fmap in *. rewrite <- !fmap_take in *.
  assert (Hmono : forall i j, (i <= j)%nat ->
    (log_len (j_entry <$> take i (js0 ++ js)) <= log_len (j_entry <$> take j (js0 ++ js)))%nat).
  { intros i j Hij. replace i with (i `min` j)%nat by lia. rewrite <- take_take.
    rewrite <- (take_drop i (take j (js0 ++ js))) at 2. rewrite fmap_app, log_len_app. lia. }
  assert (Hpast : forall i, (i <= length (js0 ++ js))%nat ->
    (log_len (j_entry <$> take i (js0 ++ js)) <= n)%nat -> (i <= k)%nat).
  { intros i Hi Hin. destruct (decide (i <= k)%nat) as [? | Hlt]; [done |]. exfalso.
    specialize (Hk' ltac:(lia)). specialize (Hmono (S k) i ltac:(lia)). lia. }
  assert (Hk0 : (length js0 <= k)%nat).
  { apply Hpast; [rewrite length_app; lia |]. rewrite take_app_length. lia. }
  assert (Etake : take k (js0 ++ js) = js0 ++ take (k - length js0) js) by (by rewrite take_app_ge).
  exists (k - length js0)%nat, tail. rewrite length_app in Hle, Hpast. split; [| split; [lia | split]].
  - exists (s_logName s), base, first, (s_gen s), (js0 ++ take (k - length js0) js).
    rewrite foldl_app, <- Etake. split; [| split; [| split; [done | split; [| split; [done |]]]]].
    + apply (durable_same (s_dir s)); [done | | |]; unfold crash; destruct Hd as [? _ -> Hnext _]; [names_tac .. |].
      intros m Hm Hmf. rewrite lookup_insert_ne; [by apply Hnext |].
      intros Em. apply log_name_inj in Em; [lia | unfold fits; lia | done].
    + by apply Forall_take.
    + unfold crash. rewrite lookup_insert_eq. cbn [default]. by rewrite Hf.
    + rewrite length_take, length_app. lia.
  - intros Hfull js1 j js2 -> Hj. specialize (Hw Hfull (js0 ++ js1) j js2).
    rewrite <- !app_assoc in Hw. specialize (Hw eq_refl Hj).
    assert (Hlt : (S (length js0 + length js1) <= k)%nat); [| lia].
    apply Hpast; [rewrite length_app; cbn [length]; lia |].
    replace (js0 ++ js1 ++ j :: js2) with ((js0 ++ js1 ++ [j]) ++ js2) by (by rewrite <- !app_assoc).
    rewrite take_app_length'; [lia |]. rewrite !length_app. cbn [length]. lia.
  - intros Hall. rewrite Hf, log_bytes_length in Hall. 
    assert (Hkall : (length js0 + length js <= k)%nat).
    { apply Hpast; [lia |]. rewrite take_ge; [done | rewrite length_app; lia]. }
    split; [lia |]. rewrite take_ge in E by (by rewrite log_bytes_length).
    rewrite take_ge in E by (rewrite length_app; lia). 
    apply (f_equal length) in E. rewrite length_app in E. destruct tail; [done | simpl in E; lia].
Qed.


Lemma live_checkpoint s a lsn js :
  live s a lsn js -> lsn + Z.of_nat (length js) < 2 ^ 64 -> s_gen s + 1 < 2 ^ 63 ->
  (forall part, snapshotPartition s = Ok part -> snap_ok part) ->
  let a' := foldl j_apply a js in let lsn' := lsn + Z.of_nat (length js) in
  exists s', Checkpoint s = Ok s' /\ disk (Close s') a' lsn' [] /\
    (exists part img super, Snapshot s = Ok part /\ snap_enc part = Ok img /\
       forall d, d ∈ commit_stages s img super -> disk d a' lsn' []) /\
    (s_budget s <= 0 -> all_resident s -> live s' a' lsn' [] /\ all_resident s' /\
       s_budget s' = s_budget s /\ s_codec s' = s_codec s /\ s_gen s' = s_gen s + 1).
Proof.
  intros (base & first & js0 & Hd & HR & _ & -> & ->) Hb Hg Hok. cbv zeta. rewrite <- foldl_app.
  replace (first + Z.of_nat (length js0) + Z.of_nat (length js)) with (first + Z.of_nat (length (js0 ++ js)))
    by (rewrite length_app; lia).
  assert (Hb' : first + Z.of_nat (length (js0 ++ js)) < 2 ^ 64) by (rewrite length_app; lia).
  assert (Har : s_arena s <> []).
  { rewrite (sr_arena _ _ _ _ _ HR). apply arena_nonempty. by eapply durable_arena. }
  destruct (snapshot_rel base first (js0 ++ js) [] s HR Hb' Har) as (part & Es & Eb & Hw & _).
  pose proof (sr_lsn _ _ _ _ _ HR) as Elsn. pose proof (du_first _ _ _ _ _ Hd).
  destruct (commit_ok s part base first Hd Hg) as (s' & Ec & [Cd Cg Cl Cr Cs]); [lia | by apply Hok | done |].
  exists s'. unfold Checkpoint. rewrite Es. cbn [mbind res_bind]. split; [done |].
  rewrite Elsn, Eb in *. set (js1 := js0 ++ js) in *.
  assert (Hdisk : forall d, durable d (s_logName s') (foldl j_apply base js1) (first + Z.of_nat (length js1)) (s_gen s') ->
    default [] (d !! s_logName s') = [] -> disk d (foldl j_apply base js1) (first + Z.of_nat (length js1)) []).
  { intros d Hdd El. exists (s_logName s'), (foldl j_apply base js1), (first + Z.of_nat (length js1)), (s_gen s'), [].
    split; [done |]. split; [done |]. split; [apply torn_nil |]. rewrite El. cbn. split; [done |]. split; [done | lia]. }
  split; [| split].
  - apply Hdisk; [| unfold Close; rewrite Cl, lookup_insert_eq; done].
    destruct Cd as [Cg' Cf Cn Cx Csup] eqn:Ecd.
    apply (durable_same (s_dir s')); [exact Cd | | |]; unfold Close; rewrite Cn; [names_tac .. |].
    intros n Hn Hf. rewrite lookup_insert_ne; [by apply Cx |].
    intros En. apply log_name_inj in En; [lia | unfold fits; lia | done].
  - destruct Cs as (img & super & Ei & Cs). exists part, img, super. split; [done |]. split; [done |].
    intros d Hin. destruct (Cs d Hin) as [[Hdd El] | [Hdd El]].
    + exists (s_logName s), base, first, (s_gen s), js1. split; [done |]. split; [apply HR |].
      split; [apply torn_nil |]. rewrite El. split; [apply HR |]. done.
    + apply Hdisk; [done |]. by rewrite El.
  - intros Hbud Hres. destruct Cr as (R1 & R2 & R3 & R4 & R5 & R6). split; [| rewrite R2; done].
    exists (foldl j_apply base js1), (first + Z.of_nat (length js1)), []. split; [done |].
    split; [| split; [| split; [done | cbn; lia]]].
    + destruct HR as [_ Hf0 _ _ _ Hu Hh Ha Hq].
      split; rewrite ?Cl, ?R1, ?R2, ?R3, ?R4, ?R5; cbn [foldl app]; try done; [lia | cbn; lia |].
      intros key. specialize (Hu key). unfold loc_rel in *. destruct (s_urls s !! key) as [loc |] eqn:El; [| done].
      destruct (Hres key loc El) as [Ht | [r Hr]]; [by rewrite Ht in * |].
      destruct (ul_tomb loc); [done |]. destruct Hu as (r' & E & Hk & Hwf & Hl). exists r'.
      do 3 (split; [done |]). right. split; [destruct Hl as [[[?|?] _] | [? _]]; congruence |].
      rewrite (Hq Hbud). apply not_elem_of_nil.
    + rewrite Cl. split; [done |]. cbn. split; [done |]. intros _ js1' j js2 E. by destruct js1'.
Qed.

(** ** The theorems *)


(** C10: A crash loses a suffix of the writes and nothing else. Take a store opened on a
    directory that stands for a state and whose log ends at a frame, as a new directory, a
    closed store and a checkpoint leave it (behind a torn tail the writes are lost, see
    [StoreLog.reopened_log_loses_appends]). The directory, its log cut anywhere past the
    synced bytes, reopens to the state after some prefix of the journal; under full
    durability that prefix holds every put and delete that had returned. *)
Theorem store_recovers_prefix (dir : directory) (a : astate) (lsn : Z) (opts opts' : Options) (s s' : Store)
    (os : list store_op) (outs : list store_out) (n : nat)
    (Hd : disk dir a lsn []) (Ho : Open dir opts = Ok s)
    (Hos : Forall (op_ok (s_codec s)) os) (Hb : lsn + Z.of_nat (length os) < 2 ^ 64)
    (Hr : store_run s os = Ok (s', outs)) (Hn : (l_synced (s_log s') <= n)%nat) :
  let js := (spec_run (s_codec s) lsn a os).1 in
  exists k r, Open (crash s' n) opts' = Ok r /\ observes r (foldl j_apply a (take k js)) /\
    (o_Durability opts = DurabilityFull -> forall js1 j js2, js = js1 ++ j :: js2 -> is_write j = true ->
       (length js1 < k)%nat).
Proof.
  destruct (open_disk dir a lsn [] opts Hd ltac:(lia)) as (s0 & E & _ & Hl & _ & Hdur).
  rewrite Ho in E. injection E as <-. specialize (Hl eq_refl).
  pose proof (live_run s a lsn [] os Hl Hos) as Hrun. cbn [length foldl Nat.add] in Hrun.
  rewrite Z.add_0_r in Hrun. destruct (spec_run _ _ _ os) as [js outs0]. cbn [fst]. cbv zeta.
  destruct Hrun as (s1 & Er & Hl' & Hf & Hlen); [lia |]. rewrite Hr in Er. injection Er as <- <-.
  destruct (live_crash s' a lsn js n Hl') as (k & tail & Hdisk & Hk & Hack & _); [lia | done |].
  destruct (open_disk (crash s' n) _ _ tail opts' Hdisk ltac:(lia)) as (r & Eo & Hobs & _).
  exists k, r. split; [done |]. split; [done |]. intros Hfull. apply Hack.
  destruct Hf as (_ & _ & _ & _ & ->). rewrite Hdur, Hfull. reflexivity.
Qed.

(** C19: A checkpoint of a store opened, as in the theorem before, on a log without a torn
    tail succeeds and loses nothing, wherever it is cut: the closed store,
    and the directory after any of the file operations of commit, reopen to the state
    the store had.  A store with no resident budget goes on serving that state. *)
Theorem checkpoint_preserves (dir : directory) (a : astate) (lsn : Z) (opts opts' : Options) (s s1 : Store)
    (os : list store_op) (outs : list store_out)
    (Hd : disk dir a lsn []) (Ho : Open dir opts = Ok s)
    (Hos : Forall (op_ok (s_codec s)) os) (Hb : lsn + Z.of_nat (length os) < 2 ^ 64)
    (Hr : store_run s os = Ok (s1, outs)) (Hg : s_gen s1 + 1 < 2 ^ 63)
    (Hok : forall part, Snapshot s1 = Ok part -> snap_ok part) :
  let a1 := foldl j_apply a (spec_run (s_codec s) lsn a os).1 in
  exists s2 part img super, Checkpoint s1 = Ok s2 /\ Snapshot s1 = Ok part /\ snap_enc part = Ok img /\
    (forall d, d = Close s2 \/ d ∈ commit_stages s1 img super ->
       exists r, Open d opts' = Ok r /\ observes r a1) /\
    (o_ResidentBudget opts <= 0 -> observes s2 a1).
Proof.
  destruct (open_disk dir a lsn [] opts Hd ltac:(lia)) as (s0 & E & _ & Hl & Hbud & _).
  rewrite Ho in E. injection E as <-. specialize (Hl eq_refl).
  pose proof (live_run s a lsn [] os Hl Hos) as Hrun. cbn [length foldl Nat.add] in Hrun.
  rewrite Z.add_0_r in Hrun. destruct (spec_run _ _ _ os) as [js outs0]. cbn [fst]. cbv zeta.
  destruct Hrun as (s1' & Er & Hl' & Hf & Hlen); [lia |]. rewrite Hr in Er. injection Er as <- <-.
  cbn [app] in Hl'. destruct (live_checkpoint s1 a lsn js Hl') as (s2 & Ec & Hcl & (part & img & super & Es & Ei & Hst) & Hres);
    [lia | done | exact Hok |].
  exists s2, part, img, super. do 3 (split; [done |]). split.
  - intros d Hin. assert (Hdd : disk d (foldl j_apply a js) (lsn + Z.of_nat (length js)) [])
      by (destruct Hin as [-> | Hin]; [done | by apply Hst]).
    destruct (open_disk d _ _ [] opts' Hdd ltac:(lia)) as (r & Eo & Hobs & _). eauto.
  - intros Hb0. assert (Hb1 : s_budget s1 <= 0) by (destruct Hf as (_ & _ & _ & -> & _); lia).
    assert (Hr0 : all_resident s1) by (apply (resident_run s os _ _ ltac:(lia) (open_resident dir opts s Ho) Hr)).
    destruct (Hres Hb1 Hr0) as (Hl2 & _). apply (live_observes s2 _ _ [] Hl2). cbn. lia.
Qed.
End Session.

(** ** The file format as the snapshot codec *)

Section FileSnapshot.
Context `{BlockCodec}.

Definition snapshot_ok (p : Partition) : Prop :=
  partition_wf p /\ sortedURLs (p_URLs p) = true /\ sortedHosts (p_Hosts p) = true /\
  (forall b, Encode p = Ok b -> Z.of_nat (length b) < 2 ^ 32).

#[export] Instance file_codec : SnapshotCodec :=
  {| snap_enc := Encode; snap_dec := Decode; snap_ok := snapshot_ok |}.

#[export] Instance file_codec_laws `{!BlockCodecLaws} : SnapshotLaws.
Proof.
  split; cbn [snap_ok file_codec]; intros p (Hp & Hu & Hh & Hlen).
  - cbn [snap_enc snap_dec file_codec]. unfold Encode in *. rewrite Encode_in_eq, Hu, Hh in *. cbn [andb] in *.
    eexists _, (decoded p). split; [reflexivity |]. split; [| done].
    apply (Decode_ok p _ Hp (Hlen _ eq_refl) (reflexivity _) Hu).
  - pose proof (pw_strings p Hp). lia.
Qed.
End FileSnapshot.

(** ** Concrete stores *)

Existing Instance File.stored_codec.
Existing Instance File.stored_codec_laws.

Definition full_options (budget : Z) : Options := mkOptions DurabilityFull budget 7 480000.
Definition example_ops : list store_op :=
  [SIntern [97; 98]; SPutURL (example_url 1 5 100); SPutURL (example_url 1 9 0); SGetURL (mkKey 1 5);
   SPutHost (example_host 1); SDeleteURL (mkKey 1 9); SCounts].

(** The store after opening an empty directory and running the operations. *)
Definition opened (opts : Options) : Store :=
  match Open ∅ opts with Ok s => s | Err _ => mkStore ∅ 0 (openLog [] 0) [] 0 [] ∅ ∅ 0 0 [] 0 0 0 0 0 end.
Definition ran (opts : Options) (os : list store_op) : Store :=
  match store_run (opened opts) os with Ok (s, _) => s | Err _ => opened opts end.
Definition ran_outs (opts : Options) (os : list store_op) : list store_out :=
  match store_run (opened opts) os with Ok (_, outs) => outs | Err _ => [] end.

Lemma opened_ok budget : Open ∅ (full_options budget) = Ok (opened (full_options budget)).
Proof. reflexivity. Qed.

#[local] Instance op_ok_dec codec o : Decision (op_ok codec o).
Proof. destruct o; unfold op_ok, key_wf; apply _. Defined.

Lemma example_ops_ok codec : codec = CodecZstd -> Forall (op_ok codec) example_ops.
Proof. intros ->. apply (bool_decide_unpack _). vm_compute. exact I. Qed.


Lemma store_recovers_prefix_witness :
  exists k r, Open (crash (ran (full_options 1) example_ops) 480) (full_options 0) = Ok r /\
    URLCount r = size (a_urls (foldl j_apply empty_state (take k (spec_run CodecZstd 1 empty_state example_ops).1))) /\
    (4 < k)%nat.
Proof.
  destruct (store_recovers_prefix ∅ empty_state 1 (full_options 1) (full_options 0) (opened (full_options 1))
    (ran (full_options 1) example_ops) example_ops (ran_outs (full_options 1) example_ops) 480
    disk_empty (opened_ok 1) (example_ops_ok _ eq_refl) (eq_refl Lt)) as (k & r & Eo & (_ & _ & _ & Hc & _) & Hack).
  - vm_compute. reflexivity.
  - apply (bool_decide_unpack _). vm_compute. exact I.
  - exists k, r. split; [exact Eo |]. split; [exact Hc |].
    apply (Hack eq_refl (take 4 (spec_run CodecZstd 1 empty_state example_ops).1) (JDel (mkKey 1 9)) []);
      vm_compute; reflexivity.
Defined.

Definition example_snapshot : Partition :=
  mkPartition 7 1 1 480000 CodecZstd [example_url 1 5 100] [example_host 1] [0; 2; 97; 98] [] false 0 ∅.

Lemma example_snapshot_eq budget :
  budget = 0 \/ budget = 1 -> Snapshot (ran (full_options budget) example_ops) = Ok example_snapshot.
Proof. intros [-> | ->]; vm_compute; reflexivity. Qed.

Lemma example_snapshot_ok : snapshot_ok example_snapshot.
Proof.
  split; [| split; [reflexivity | split; [reflexivity |]]].
  - pose proof max_rows_val.
    split; [fits_const .. | cbn; lia | cbn; lia | fits_const | fits_const].
  - intros b E. assert (Hl : match Encode example_snapshot with Ok b => Z.of_nat (length b) <? 2 ^ 32 | _ => true end = true)
      by (vm_compute; reflexivity).
    rewrite E in Hl. by apply Z.ltb_lt.
Qed.

Lemma checkpoint_preserves_witness :
  exists s2, Checkpoint (ran (full_options 0) example_ops) = Ok s2 /\
    (exists r, Open (Close s2) (full_options 0) = Ok r /\ GetHost r 1 = Some (example_host 1)) /\
    GetHost s2 1 = Some (example_host 1).
Proof.
  destruct (checkpoint_preserves ∅ empty_state 1 (full_options 0) (full_options 0) (opened (full_options 0))
    (ran (full_options 0) example_ops) example_ops (ran_outs (full_options 0) example_ops)
    disk_empty (opened_ok 0) (example_ops_ok _ eq_refl) (eq_refl Lt)) as (s2 & part & img & super & Ec & _ & _ & Hd & Hl).
  - vm_compute. reflexivity.
  - vm_compute. reflexivity.
  - intros part. rewrite example_snapshot_eq by (by left). intros [= <-]. exact example_snapshot_ok.
  - exists s2. split; [exact Ec |]. split.
    + destruct (Hd (Close s2) (or_introl eq_refl)) as (r & Eo & _ & Hh & _). exists r. split; [exact Eo |].
      rewrite Hh. vm_compute. reflexivity.
    + destruct (Hl ltac:(vm_compute; discriminate)) as (_ & Hh & _). rewrite Hh. vm_compute. reflexivity.
Defined.

(** ** Where the code breaks the promise *)

(** With a resident budget a checkpoint loses records.  commit rotates to an empty
    log but leaves the offsets of spilled records in the index, so a record the budget
    evicted no longer reads back, and the next checkpoint drops it from the disk. *)
Theorem checkpoint_loses_spilled :
  (s ← Open ∅ (full_options 1);
   '(s, _) ← store_run s [SPutURL (example_url 1 5 100); SPutURL (example_url 1 9 0)];
   '(_, before) ← GetURL s (mkKey 1 5);
   s ← Checkpoint s;
   '(_, after) ← GetURL s (mkKey 1 5);
   s ← Checkpoint s;
   s ← Open (Close s) (full_options 1);
   '(_, reopened) ← GetURL s (mkKey 1 5);
   Ok (before, after, reopened)) = Ok (Some (example_url 1 5 100), None, None).
Proof. vm_compute. reflexivity. Qed.

(** Two interning callers can cross.  Intern reserves its arena offset and appends
    to the log in two critical sections; if the second caller logs first, each offset
    reads back the other's string after recovery. *)
Theorem intern_race_swaps_strings :
  (s ← Open ∅ (full_options 0);
   let '(s, offA) := intern_arena s (arena_entry [97; 97]) in
   let '(s, offB) := intern_arena s (arena_entry [98; 98]) in
   let s := intern_log (intern_log s (arena_entry [98; 98])) (arena_entry [97; 97]) in
   r ← Open (Close s) (full_options 0);
   live_a ← Str s offA; live_b ← Str s offB; a ← Str r offA; b ← Str r offB;
   Ok (live_a, live_b, a, b)) = Ok ([97; 97], [98; 98], [98; 98], [97; 97]).
Proof. vm_compute. reflexivity. Qed.

(** Deleting a resident record does not give its place in the budget back: the
    counter counts a record that is gone, and putting the key again counts it twice. *)
Theorem delete_leaks_residency :
  (s ← Open ∅ (full_options 8);
   '(s, _) ← store_run s [SPutURL (example_url 1 5 100); SDeleteURL (mkKey 1 5); SPutURL (example_url 1 5 100)];
   Ok (Resident s, URLCount s)) = Ok (2, 1%nat).
Proof. vm_compute. reflexivity. Qed.
