(* ===== verification/SeenSet.v ===== *)
(** * The seen-set (dedup/filter.go, dedup/drum.go, dedup/seenset.go)

    The blocked Bloom filter in front of the exact set of sorted buckets, the batched
    merge, and the check-and-insert on top of both, proved to be a set of keys.

    The filter's size and number of hashes come from float64 logarithms; [newFilter]
    takes their values as arguments and models the integer clamping around them. *)

From S2P Require Import Prelude Words Model.
Open Scope Z_scope.

(** ** The blocked Bloom filter *)

Definition blockWords : Z := 8.

Record bloom := mkBloom { bl_blocks : list Z; bl_nBlock : Z; bl_k : nat; bl_n : Z; bl_cap : Z }.

(** [m] is [ceil(capacity * bitsPerKey)] and [k] is [round(bitsPerKey * ln2)]. *)
Definition newFilter (capacity m k : Z) : bloom :=
  let capacity := if capacity =? 0 then 1 else capacity in
  let nBlock := m / (blockWords * 64) + 1 in
  let k := Z.min (Z.max k 1) 16 in
  mkBloom (replicate (Z.to_nat (nBlock * blockWords)) 0) nBlock (Z.to_nat k) 0 capacity.

Definition hashKey (key : URLKey) : Z :=
  let h := u64 (u64 (HostKey key * 0x9E3779B97F4A7C15) + PathKey key) in
  let h := Z.lxor h (Z.shiftr h 33) in
  let h := u64 (h * 0xFF51AFD7ED558CCD) in
  Z.lxor h (Z.shiftr h 33).

Definition locate (f : bloom) (key : URLKey) : Z * Z * Z :=
  let h := hashKey key in
  (h mod bl_nBlock f, h, Z.lor (PathKey key) 1).

(** The word and the bit in it of the [i]th probe; [&511] is taken of a uint64. *)
Definition probe (f : bloom) (key : URLKey) (i : nat) : nat * Z :=
  let '(block, h1, h2) := locate f key in
  let base := block * blockWords in
  let bit := Z.land (u64 (h1 + u64 (Z.of_nat i * h2))) 511 in
  (Z.to_nat (base + bit / 64), bit mod 64).

Definition set_bit (blocks : list Z) (p : nat * Z) : list Z :=
  <[p.1 := Z.lor (blocks !!! p.1) (Z.shiftl 1 p.2)]> blocks.
Definition bit_clear (blocks : list Z) (p : nat * Z) : bool :=
  Z.land (blocks !!! p.1) (Z.shiftl 1 p.2) =? 0.

Definition bloom_add (f : bloom) (key : URLKey) : bloom :=
  mkBloom (foldl (fun b i => set_bit b (probe f key i)) (bl_blocks f) (seq 0 (bl_k f)))
    (bl_nBlock f) (bl_k f) (bl_n f + 1) (bl_cap f).

Definition maybeSeen (f : bloom) (key : URLKey) : bool :=
  forallb (fun i => negb (bit_clear (bl_blocks f) (probe f key i))) (seq 0 (bl_k f)).

(** ** The exact set *)

Inductive pendingOp := opCheckInsert | opInsertOnly.
#[export] Instance pendingOp_eq_dec : EqDecision pendingOp.
Proof. solve_decision. Defined.
Definition op_code (o : pendingOp) : Z := match o with opCheckInsert => 0 | opInsertOnly => 1 end.

Record pendingKey := mkPending { pk_key : URLKey; pk_op : pendingOp }.
Record Classification := mkClass { cl_Key : URLKey; cl_Unique : bool }.

Record exactSet := mkExact { ex_buckets : list (list URLKey); ex_shift : Z; ex_size : Z }.

(** The doubling loop of newExactSet; 63 doublings pass any int. *)
Fixpoint double_until (fuel : nat) (n bits nBuckets : Z) : Z * Z :=
  match fuel with
  | O => (n, bits)
  | S fuel => if n <? nBuckets then double_until fuel (n * 2) (bits + 1) nBuckets else (n, bits)
  end.

Definition newExactSet (nBuckets : Z) : exactSet :=
  let '(n, bits) := double_until 63 1 0 nBuckets in
  mkExact (replicate (Z.to_nat n) []) (64 - bits) 0.

Definition bucketOf (s : exactSet) (key : URLKey) : nat :=
  if 64 <=? ex_shift s then 0 else Z.to_nat (Z.shiftr (HostKey key) (ex_shift s)).

Definition ex_keys (s : exactSet) : list URLKey := mjoin (ex_buckets s).

(** The binary search both [contains] and [add] start with. *)
Definition find_key (b : list URLKey) (key : URLKey) : nat :=
  sortSearch (length b) (fun i => negb (Less (b !!! i) key)).

Definition ex_contains (s : exactSet) (key : URLKey) : bool :=
  let b := ex_buckets s !!! bucketOf s key in
  bool_decide (b !! find_key b key = Some key).

Definition ex_add (s : exactSet) (key : URLKey) : exactSet * bool :=
  let idx := bucketOf s key in
  let b := ex_buckets s !!! idx in
  let i := find_key b key in
  if decide (b !! i = Some key) then (s, false)
  else (mkExact (<[idx := take i b ++ key :: drop i b]> (ex_buckets s)) (ex_shift s) (ex_size s + 1), true).

(** *** The batched merge *)

(** The order a run is sorted by: not [j] before [i]. *)
Definition pk_less (a b : pendingKey) : bool :=
  if decide (pk_key a = pk_key b) then op_code (pk_op a) <? op_code (pk_op b)
  else Less (pk_key a) (pk_key b).
Definition pk_order (a b : pendingKey) : Prop := pk_less b a = false.
#[export] Instance pk_order_dec a b : Decision (pk_order a b).
Proof. unfold pk_order. apply _. Defined.

(** Advancing the disk pointer past the keys before [key]. *)
Fixpoint skip_less (disk : list URLKey) (key : URLKey) : list URLKey :=
  match disk with
  | d :: disk' => if Less d key then skip_less disk' key else disk
  | [] => []
  end.

Definition verdict (o : pendingOp) (key : URLKey) (u : bool) : list Classification :=
  match o with opCheckInsert => [mkClass key u] | opInsertOnly => [] end.

(** The two-pointer pass over a sorted run: the classifications and the new keys. *)
Fixpoint merge_run (disk : list URLKey) (lastNew : option URLKey) (run : list pendingKey)
    : list Classification * list URLKey :=
  match run with
  | [] => ([], [])
  | pk :: run =>
      let key := pk_key pk in
      let disk := skip_less disk key in
      let onDisk := bool_decide (head disk = Some key) in
      let dupInBatch := bool_decide (lastNew = Some key) in
      if onDisk || dupInBatch then
        let '(out, nk) := merge_run disk lastNew run in (verdict (pk_op pk) key false ++ out, nk)
      else
        let '(out, nk) := merge_run disk (Some key) run in (verdict (pk_op pk) key true ++ out, key :: nk)
  end.

Fixpoint mergeSortedRuns (a : list URLKey) : list URLKey -> list URLKey :=
  fix go (b : list URLKey) : list URLKey :=
    match a, b with
    | [], _ => b
    | _, [] => a
    | x :: a', y :: b' => if Less x y then x :: mergeSortedRuns a' b else y :: go b'
    end.

Definition mergeBucket (idx : nat) (run : list pendingKey) (st : exactSet * list Classification)
    : exactSet * list Classification :=
  let '(s, out) := st in
  let run := merge_sort pk_order run in
  let disk := ex_buckets s !!! idx in
  let '(cs, newKeys) := merge_run disk None run in
  if decide (newKeys = []) then (s, out ++ cs)
  else (mkExact (<[idx := mergeSortedRuns disk newKeys]> (ex_buckets s)) (ex_shift s)
          (ex_size s + Z.of_nat (length newKeys)), out ++ cs).

(** [order] is the order in which Go visits the map of runs. *)
Definition ex_merge (order : list nat) (s : exactSet) (batch : list pendingKey)
    : exactSet * list Classification :=
  foldl (fun st idx => mergeBucket idx (filter (fun pk => bucketOf s (pk_key pk) = idx) batch) st)
    (s, []) order.

(** ** The seen-set *)

Record SeenSet := mkSeen { ss_filter : bloom; ss_exact : exactSet }.

Definition NewSeenSet (capacity m k nBuckets : Z) : SeenSet :=
  mkSeen (newFilter capacity m k) (newExactSet nBuckets).

Definition seen_insert (s : SeenSet) (key : URLKey) : SeenSet :=
  mkSeen (bloom_add (ss_filter s) key) (ex_add (ss_exact s) key).1.

Definition Seen (s : SeenSet) (key : URLKey) : SeenSet * bool :=
  if maybeSeen (ss_filter s) key && ex_contains (ss_exact s) key then (s, true)
  else (seen_insert s key, false).

Definition Contains (s : SeenSet) (key : URLKey) : bool :=
  if negb (maybeSeen (ss_filter s) key) then false else ex_contains (ss_exact s) key.

Definition MaybeContains (s : SeenSet) (key : URLKey) : bool := maybeSeen (ss_filter s) key.

Definition seen_merge (order : list nat) (s : SeenSet) (keys : list URLKey) : SeenSet * list Classification :=
  let batch := (fun k => mkPending k opCheckInsert) <$> keys in
  let '(ex, out) := ex_merge order (ss_exact s) batch in
  (mkSeen (foldl (fun f c => if cl_Unique c then bloom_add f (cl_Key c) else f) (ss_filter s) out) ex, out).

Definition Insert (s : SeenSet) (key : URLKey) : SeenSet :=
  if negb (maybeSeen (ss_filter s) key) || negb (ex_contains (ss_exact s) key) then seen_insert s key else s.

Definition Len (s : SeenSet) : Z := ex_size (ss_exact s).

(** ** The filter is one-sided *)

Lemma land_pow2 w b : 0 <= b -> (Z.land w (Z.shiftl 1 b) =? 0) = negb (Z.testbit w b).
Proof.
  intros Hb. rewrite Z.shiftl_1_l. destruct (Z.testbit w b) eqn:E; cbn [negb].
  - apply Z.eqb_neq. intros H0. apply (f_equal (fun z => Z.testbit z b)) in H0.
    rewrite Z.land_spec, E, Z.pow2_bits_true, Z.bits_0 in H0 by done. done.
  - apply Z.eqb_eq. apply Z.bits_inj'. intros i Hi. rewrite Z.land_spec, Z.bits_0.
    destruct (decide (i = b)) as [-> | Hne]; [by rewrite E |].
    rewrite Z.pow2_bits_false by done. apply andb_false_r.
Qed.

Definition in_blocks (blocks : list Z) (p : nat * Z) : Prop := (p.1 < length blocks)%nat /\ 0 <= p.2.

Lemma bit_clear_set blocks p q :
  in_blocks blocks p -> in_blocks blocks q ->
  bit_clear (set_bit blocks p) q = (if decide (p = q) then false else bit_clear blocks q).
Proof.
  intros [Hp1 Hp2] [Hq1 Hq2]. unfold bit_clear, set_bit. rewrite !land_pow2 by done.
  destruct (decide (p.1 = q.1)) as [E | Hne].
  - rewrite <- E at 1. rewrite list_lookup_total_insert_eq by done. rewrite Z.lor_spec, Z.shiftl_1_l.
    case_decide as Epq; [subst q; by rewrite Z.pow2_bits_true, orb_true_r |].
    rewrite Z.pow2_bits_false; [by rewrite orb_false_r, E |].
    intros E2. apply Epq. destruct p, q; simpl in *; congruence.
  - rewrite list_lookup_total_insert_ne by done. rewrite decide_False; [done |]. congruence.
Qed.

Lemma set_bit_length blocks p : length (set_bit blocks p) = length blocks.
Proof. apply length_insert. Qed.

Lemma set_bits_clear blocks (ps : list (nat * Z)) q :
  Forall (in_blocks blocks) ps -> in_blocks blocks q ->
  length (foldl set_bit blocks ps) = length blocks /\
  bit_clear (foldl set_bit blocks ps) q = (if decide (q ∈ ps) then false else bit_clear blocks q).
Proof.
  revert blocks. induction ps as [|p ps IH]; intros blocks Hps Hq; cbn [foldl].
  { split; [done |]. by rewrite decide_False by apply not_elem_of_nil. }
  inversion Hps as [|? ? Hp Hps']; subst.
  assert (Hl : length (set_bit blocks p) = length blocks) by apply set_bit_length.
  destruct (IH (set_bit blocks p)) as [L1 L2].
  - eapply Forall_impl; [exact Hps' |]. unfold in_blocks. by rewrite Hl.
  - unfold in_blocks. by rewrite Hl.
  - split; [by rewrite L1 |]. rewrite L2, (bit_clear_set _ _ _ Hp Hq).
    destruct (decide (q ∈ ps)) as [Hin | Hin].
    + by rewrite decide_True by (by right).
    + destruct (decide (p = q)) as [-> | Hne]; [by rewrite decide_True by left |].
      rewrite decide_False; [done |]. rewrite elem_of_cons. intros [-> | ?]; done.
Qed.

Record bloom_wf (f : bloom) : Prop := {
  bw_nBlock : 0 < bl_nBlock f;
  bw_blocks : Z.of_nat (length (bl_blocks f)) = bl_nBlock f * blockWords }.

Lemma newFilter_wf capacity m k : 0 <= m -> bloom_wf (newFilter capacity m k).
Proof.
  intros Hm. unfold newFilter, blockWords. assert (0 <= m / (8 * 64)) by (apply Z.div_pos; lia).
  split; cbn [bl_nBlock bl_blocks]; [lia |]. rewrite length_replicate. unfold blockWords. lia.
Qed.

Lemma probe_in f key i : bloom_wf f -> in_blocks (bl_blocks f) (probe f key i).
Proof.
  intros [Hn Hl]. unfold probe, locate, blockWords in *. cbv zeta.
  set (x := u64 _). assert (Hx : 0 <= Z.land x 511 < 512).
  { change 511 with (Z.ones 9). rewrite Z.land_ones by lia. apply Z.mod_pos_bound. lia. }
  set (b := Z.land x 511) in *. pose proof (Z.mod_pos_bound (hashKey key) (bl_nBlock f) Hn).
  split; cbn [fst snd].
  - assert (0 <= b / 64 < 8) by divmod. lia.
  - apply Z.mod_pos_bound. lia.
Qed.

Lemma probes_in f key : bloom_wf f -> Forall (in_blocks (bl_blocks f)) (probe f key <$> seq 0 (bl_k f)).
Proof. intros Hf. apply Forall_fmap, Forall_forall. intros j _. by apply probe_in. Qed.

Lemma bloom_add_wf f key : bloom_wf f -> bloom_wf (bloom_add f key).
Proof.
  intros Hf. pose proof Hf as [Hn Hl]. split; [done |]. cbn [bl_blocks bl_nBlock bloom_add].
  rewrite <- (foldl_fmap set_bit _ _ (probe f key)).
  by rewrite (proj1 (set_bits_clear _ _ (probe f key 0) (probes_in f key Hf) (probe_in f key 0 Hf))).
Qed.

(** A key added is found, and adding hides no key. *)
Lemma maybeSeen_add f key key' :
  bloom_wf f -> key = key' \/ maybeSeen f key' = true -> maybeSeen (bloom_add f key) key' = true.
Proof.
  intros Hf Hk. unfold maybeSeen. rewrite forallb_forall. cbn [bl_k bloom_add]. intros i Hi.
  change (probe (bloom_add f key) key' i) with (probe f key' i). cbn [bl_blocks bloom_add].
  rewrite <- (foldl_fmap set_bit _ _ (probe f key)).
  rewrite (proj2 (set_bits_clear _ _ (probe f key' i) (probes_in f key Hf) (probe_in f key' i Hf))).
  case_decide as Hin; [done |]. destruct Hk as [-> | Hk].
  - exfalso. apply Hin. apply list_elem_of_fmap. exists i. split; [done |]. by apply list_elem_of_In.
  - unfold maybeSeen in Hk. rewrite forallb_forall in Hk. by apply Hk.
Qed.

(** ** Sorted buckets *)

Definition key_lt (a b : URLKey) : Prop := Less a b = true.
#[export] Instance key_lt_dec a b : Decision (key_lt a b).
Proof. unfold key_lt. apply _. Defined.
#[export] Instance key_lt_trans : Transitive key_lt.
Proof. intros a b c. unfold key_lt. rewrite !Less_spec. lia. Qed.
#[export] Instance key_lt_irrefl : Irreflexive key_lt.
Proof. intros a H. unfold key_lt in H. by rewrite Less_irrefl in H. Qed.

Lemma key_lt_cases a b : {key_lt a b} + {a = b} + {key_lt b a}.
Proof.
  destruct (decide (key_lt a b)) as [? | H1]; [by left; left |].
  destruct (decide (key_lt b a)) as [? | H2]; [by right |]. left. right.
  unfold key_lt in *. apply not_true_iff_false in H1, H2. by apply (anti_symm key_le).
Qed.

Abbreviation sorted_keys := (StronglySorted key_lt).

Lemma sorted_keys_nodup b : sorted_keys b -> NoDup b.
Proof.
  induction 1 as [|k b Hs IH Hk]; constructor; [| done]. intros Hin.
  rewrite Forall_forall in Hk. by apply (irreflexivity key_lt k), Hk.
Qed.

(** Binary search cuts a sorted bucket at the key. *)
Lemma find_key_spec b key :
  sorted_keys b ->
  let i := find_key b key in
  (forall k, k ∈ take i b -> key_lt k key) /\ (forall k, k ∈ drop i b -> ~ key_lt k key) /\
  (b !! i = Some key <-> key ∈ b).
Proof.
  intros Hs i. assert (Hm : forall a c, (a <= c < length b)%nat ->
    negb (Less (b !!! a) key) = true -> negb (Less (b !!! c) key) = true).
  { intros a c Hac. rewrite !negb_true_iff. intros Ha. apply not_true_iff_false. intros Hc.
    destruct (decide (a = c)) as [-> | Hne]; [congruence |].
    apply not_true_iff_false in Ha. apply Ha. change (key_lt (b !!! a) key). etransitivity; [| exact Hc].
    apply (StronglySorted_app_1_elem_of key_lt (take c b) (drop c b)); [by rewrite take_drop | |].
    - apply list_elem_of_lookup. exists a. rewrite lookup_take_lt by lia. apply list_lookup_lookup_total_lt. lia.
    - apply list_elem_of_lookup. exists 0%nat. rewrite lookup_drop, Nat.add_0_r. apply list_lookup_lookup_total_lt. lia. }
  destruct (sortSearch_spec (length b) (fun i => negb (Less (b !!! i) key)) Hm) as (Hr & Hlo & Hhi).
  fold (find_key b key) in Hr, Hlo, Hhi. fold i in Hr, Hlo, Hhi.
  assert (H1 : forall k, k ∈ take i b -> key_lt k key).
  { intros k (j & Hj)%list_elem_of_lookup. apply lookup_take_Some in Hj as [Hj Hlt].
    specialize (Hlo j Hlt). apply negb_false_iff in Hlo. by rewrite (list_lookup_total_correct _ _ _ Hj) in Hlo. }
  assert (H2 : forall k, k ∈ drop i b -> ~ key_lt k key).
  { intros k (j & Hj)%list_elem_of_lookup. rewrite lookup_drop in Hj. pose proof (lookup_lt_Some _ _ _ Hj).
    specialize (Hhi (i + j)%nat ltac:(lia)). apply negb_true_iff in Hhi.
    rewrite (list_lookup_total_correct _ _ _ Hj) in Hhi. unfold key_lt. congruence. }
  split; [done |]. split; [done |]. split; [intros E; by eapply list_elem_of_lookup_2 |]. intros Hin.
  rewrite <- (take_drop i b) in Hin. apply elem_of_app in Hin as [Hin | Hin].
  { exfalso. by apply (irreflexivity key_lt key), H1. }
  assert (Hd : b !! i = drop i b !! 0%nat) by (by rewrite lookup_drop, Nat.add_0_r).
  rewrite Hd. rewrite <- (take_drop i b), StronglySorted_app in Hs. destruct Hs as (_ & _ & Hs).
  destruct (drop i b) as [|d rest]; [by apply not_elem_of_nil in Hin |]. cbn.
  apply elem_of_cons in Hin as [-> | Hin]; [done |]. exfalso.
  inversion Hs as [|? ? _ Hall]; subst. rewrite Forall_forall in Hall.
  apply (H2 d); [by left | by apply Hall].
Qed.

Lemma insert_sorted b key i :
  sorted_keys b -> i = find_key b key -> key ∉ b -> sorted_keys (take i b ++ key :: drop i b).
Proof.
  intros Hs -> Hn. destruct (find_key_spec b key Hs) as (H1 & H2 & _). set (i := find_key b key) in *.
  assert (Hgt : forall k, k ∈ drop i b -> key_lt key k).
  { intros k Hk. destruct (key_lt_cases key k) as [[? | <-] | Hlt]; [done | |].
    - exfalso. apply Hn. rewrite <- (take_drop i b). apply elem_of_app. by right.
    - exfalso. by apply (H2 k). }
  rewrite <- (take_drop i b), StronglySorted_app in Hs. destruct Hs as (Hx & Ht & Hd).
  apply StronglySorted_app. split; [| split; [done |]].
  - intros x y Hx1 [-> | Hy]%elem_of_cons; [by apply H1 | by apply Hx].
  - constructor; [done |]. by apply Forall_forall.
Qed.

Lemma mergeSortedRuns_perm a b : mergeSortedRuns a b ≡ₚ a ++ b.
Proof.
  revert b. induction a as [|x a IH]; intros b; [by destruct b |].
  induction b as [|y b IHb]; [by rewrite app_nil_r |]. cbn [mergeSortedRuns].
  destruct (Less x y).
  - by rewrite IH.
  - change (y :: mergeSortedRuns (x :: a) b ≡ₚ (x :: a) ++ y :: b). rewrite IHb. apply Permutation_middle.
Qed.

Lemma mergeSortedRuns_sorted a b :
  sorted_keys a -> sorted_keys b -> (forall k, k ∈ a -> k ∉ b) -> sorted_keys (mergeSortedRuns a b).
Proof.
  revert b. induction a as [|x a IH]; intros b Ha Hb Hd; [by destruct b |].
  induction b as [|y b IHb]; [done |]. cbn [mergeSortedRuns].
  inversion Ha as [|? ? Ha' Hxa]; subst. inversion Hb as [|? ? Hb' Hyb]; subst.
  rewrite Forall_forall in Hxa, Hyb.
  destruct (Less x y) eqn:E.
  - constructor.
    + apply IH; [done | done |]. intros k Hk. apply Hd. by right.
    + apply Forall_forall. intros k. rewrite mergeSortedRuns_perm, elem_of_app.
      intros [Hk | [-> | Hk]%elem_of_cons]; [by apply Hxa | done |]. etransitivity; [exact E | by apply Hyb].
  - change (sorted_keys (y :: mergeSortedRuns (x :: a) b)). constructor.
    + apply IHb; [done |]. intros k Hk Hk'. apply (Hd k Hk). by right.
    + apply Forall_forall. intros k. rewrite mergeSortedRuns_perm, elem_of_app.
      assert (Hyx : key_lt y x).
      { destruct (key_lt_cases x y) as [[Hl | ->] | ?]; [unfold key_lt in Hl; congruence | | done].
        exfalso. apply (Hd y); left. }
      intros [[-> | Hk]%elem_of_cons | Hk]; [done | | by apply Hyb].
      etransitivity; [exact Hyx | by apply Hxa].
Qed.

(** ** The exact set is a set *)

Definition bucket_ok (s : exactSet) (i : nat) (b : list URLKey) : Prop :=
  sorted_keys b /\ Forall (fun k => key_wf k /\ bucketOf s k = i) b.

Record ex_wf (s : exactSet) : Prop := {
  ew_shift : exists bits, 0 <= bits <= 63 /\ ex_shift s = 64 - bits /\
               length (ex_buckets s) = Z.to_nat (2 ^ bits);
  ew_size : ex_size s = Z.of_nat (length (ex_keys s));
  ew_bucket : forall i b, ex_buckets s !! i = Some b -> bucket_ok s i b }.

Lemma bucketOf_lt s k : ex_wf s -> key_wf k -> (bucketOf s k < length (ex_buckets s))%nat.
Proof.
  intros [(bits & Hb & Hs & ->) _ _] [Hk _]. unfold bucketOf. rewrite Hs.
  assert (H0 : 0 < 2 ^ bits) by (apply Z.pow_pos_nonneg; lia).
  case_match; bool_prop; [lia |]. apply Z2Nat.inj_lt; [apply Z.shiftr_nonneg; unfold fits in Hk; lia | lia |].
  rewrite Z.shiftr_div_pow2 by lia. apply Z.div_lt_upper_bound; [apply Z.pow_pos_nonneg; lia |].
  rewrite <- Z.pow_add_r by lia. replace (64 - bits + bits) with 64 by lia. unfold fits in Hk. lia.
Qed.

Lemma bucket_lookup s k : ex_wf s -> key_wf k ->
  ex_buckets s !! bucketOf s k = Some (ex_buckets s !!! bucketOf s k).
Proof. intros Hs Hk. by apply list_lookup_lookup_total_lt, bucketOf_lt. Qed.

(** A key is in the set exactly when it is in its bucket. *)
Lemma ex_keys_bucket s k : ex_wf s -> key_wf k -> k ∈ ex_keys s <-> k ∈ ex_buckets s !!! bucketOf s k.
Proof.
  intros Hs Hk. unfold ex_keys. rewrite list_elem_of_join. split.
  - intros (b & Hkb & [i Hi]%list_elem_of_lookup). destruct (ew_bucket s Hs i b Hi) as [_ Hall].
    rewrite Forall_forall in Hall. destruct (Hall k Hkb) as [_ <-]. by rewrite (list_lookup_total_correct _ _ _ Hi).
  - intros Hin. eexists. split; [exact Hin |]. eapply list_elem_of_lookup_2. by apply bucket_lookup.
Qed.

Lemma ex_keys_wf s k : ex_wf s -> k ∈ ex_keys s -> key_wf k.
Proof.
  intros Hs (b & Hkb & [i Hi]%list_elem_of_lookup)%list_elem_of_join.
  destruct (ew_bucket s Hs i b Hi) as [_ Hall]. rewrite Forall_forall in Hall. by apply Hall.
Qed.

Lemma contains_spec s k : ex_wf s -> key_wf k -> ex_contains s k = bool_decide (k ∈ ex_keys s).
Proof.
  intros Hs Hk. unfold ex_contains. destruct (ew_bucket s Hs _ _ (bucket_lookup s k Hs Hk)) as [Hsort _].
  apply bool_decide_ext. rewrite (ex_keys_bucket s k Hs Hk). by apply find_key_spec.
Qed.

(** Replacing one bucket by itself plus new keys of that bucket. *)
Lemma bucket_replace s idx new b' :
  ex_wf s -> (idx < length (ex_buckets s))%nat -> b' ≡ₚ new ++ ex_buckets s !!! idx ->
  sorted_keys b' -> Forall (fun k => key_wf k /\ bucketOf s k = idx) new ->
  let s' := mkExact (<[idx := b']> (ex_buckets s)) (ex_shift s) (ex_size s + Z.of_nat (length new)) in
  ex_wf s' /\ ex_keys s' ≡ₚ new ++ ex_keys s.
Proof.
  intros Hs Hidx Hb' Hsort Hnew s'.
  pose proof (list_lookup_lookup_total_lt _ _ Hidx) as Hl. set (b := ex_buckets s !!! idx) in *.
  assert (Hperm : ex_keys s' ≡ₚ new ++ ex_keys s).
  { unfold ex_keys, s'. cbn [ex_buckets]. apply list_elem_of_split_length in Hl as (l1 & l2 & E & El).
    rewrite E, insert_app_r_alt by lia. rewrite El, Nat.sub_diag. cbn [list_insert insert].
    rewrite !join_app. change (mjoin (b' :: l2)) with (b' ++ mjoin l2).
    change (mjoin (b :: l2)) with (b ++ mjoin l2). rewrite Hb'. solve_Permutation. }
  split; [| done]. split.
  - cbn [ex_shift ex_buckets s']. rewrite length_insert. apply Hs.
  - rewrite Hperm, length_app. cbn [ex_size s']. rewrite (ew_size s Hs). lia.
  - intros i c. cbn [ex_buckets s']. destruct (decide (i = idx)) as [-> | Hne].
    + rewrite list_lookup_insert_eq by done. intros [= <-]. split; [done |].
      destruct (ew_bucket s Hs idx b Hl) as [_ Hall]. rewrite Hb'. by apply Forall_app.
    + rewrite list_lookup_insert_ne by done. apply (ew_bucket s Hs).
Qed.

Lemma ex_add_spec s k : ex_wf s -> key_wf k ->
  let '(s', isnew) := ex_add s k in
  ex_wf s' /\ isnew = negb (bool_decide (k ∈ ex_keys s)) /\
  (forall x, x ∈ ex_keys s' <-> x = k \/ x ∈ ex_keys s).
Proof.
  intros Hs Hk. pose proof (contains_spec s k Hs Hk) as Hc. unfold ex_contains in Hc. unfold ex_add. cbv zeta in *.
  pose proof (bucket_lookup s k Hs Hk) as Hl. pose proof (bucketOf_lt s k Hs Hk) as Hlt.
  destruct (ew_bucket s Hs _ _ Hl) as [Hsort _]. set (b := ex_buckets s !!! bucketOf s k) in *.
  case_decide as Hd.
  - rewrite bool_decide_eq_true_2 in Hc by done. symmetry in Hc. apply bool_decide_eq_true_1 in Hc.
    split; [done |]. rewrite bool_decide_eq_true_2 by done. split; [done |]. intros x. split; [by right |].
    by intros [-> | ?].
  - rewrite bool_decide_eq_false_2 in Hc by done. symmetry in Hc. rewrite Hc. apply bool_decide_eq_false_1 in Hc.
    assert (Hnb : k ∉ b) by (intros Hin; apply Hc; by apply ex_keys_bucket).
    destruct (bucket_replace s (bucketOf s k) [k] (take (find_key b k) b ++ k :: drop (find_key b k) b) Hs Hlt)
      as [Hwf Hp].
    + change (ex_buckets s !!! bucketOf s k) with b. by rewrite <- Permutation_middle, take_drop.
    + by apply insert_sorted.
    + by apply Forall_singleton.
    + split; [done |]. split; [done |]. intros x. rewrite Hp. cbn. by rewrite elem_of_cons.
Qed.

(** ** The batched merge is check-and-insert, one key at a time *)

Definition run_keys (run : list pendingKey) : list URLKey := pk_key <$> run.

Lemma run_keys_cons pk run : run_keys (pk :: run) = pk_key pk :: run_keys run.
Proof. done. Qed.

Fixpoint classify (S : gset URLKey) (run : list pendingKey) : list Classification :=
  match run with
  | [] => []
  | pk :: run =>
      verdict (pk_op pk) (pk_key pk) (bool_decide (pk_key pk ∉ S)) ++ classify ({[pk_key pk]} ∪ S) run
  end.

Lemma classify_app S r1 r2 :
  classify S (r1 ++ r2) = classify S r1 ++ classify (list_to_set (run_keys r1) ∪ S) r2.
Proof.
  revert S. induction r1 as [|pk r1 IH]; intros S; cbn [app classify].
  - cbn [run_keys fmap list_fmap list_to_set]. by rewrite (left_id_L ∅ (∪)).
  - rewrite IH, <- app_assoc. do 3 f_equal. rewrite run_keys_cons. cbn [list_to_set].
    by rewrite (assoc_L (∪)), (comm_L (∪) _ {[pk_key pk]}).
Qed.

#[export] Instance pk_order_total : Total pk_order.
Proof.
  intros a b. unfold pk_order, pk_less.
  destruct (decide (pk_key a = pk_key b)) as [E | Hne].
  - rewrite E, !decide_True by done. destruct (pk_op a), (pk_op b); cbn; auto.
  - rewrite !decide_False by congruence. apply (total key_le).
Qed.

Lemma pk_order_key a b : pk_order a b -> key_le (pk_key a) (pk_key b).
Proof. unfold pk_order, pk_less. case_decide as E; [by rewrite E | done]. Qed.

#[export] Instance pk_order_trans : Transitive pk_order.
Proof.
  intros a b c Hab Hbc. pose proof (pk_order_key a b Hab) as K1. pose proof (pk_order_key b c Hbc) as K2.
  unfold pk_order, pk_less in *. destruct (decide (pk_key c = pk_key a)) as [E | Hne].
  - assert (E2 : pk_key a = pk_key b) by (apply (anti_symm key_le); [done | by rewrite <- E]).
    rewrite decide_True in Hab by congruence. rewrite decide_True in Hbc by congruence.
    apply Z.ltb_ge in Hab, Hbc. apply Z.ltb_ge. lia.
  - change (key_le (pk_key a) (pk_key c)). by etransitivity.
Qed.

Lemma skip_less_spec disk key :
  sorted_keys disk ->
  sorted_keys (skip_less disk key) /\
  (forall k, key_le key k -> k ∈ skip_less disk key <-> k ∈ disk) /\
  (head (skip_less disk key) = Some key <-> key ∈ disk).
Proof.
  induction 1 as [|d disk Hs IH Hd]; cbn [skip_less].
  { split; [constructor |]. split; [done |]. cbn. split; [done | by intros ?%not_elem_of_nil]. }
  destruct (Less d key) eqn:E.
  - destruct IH as (H1 & H2 & H3). split; [done |].
    assert (Hne : forall k, key_le key k -> k <> d).
    { intros k Hk ->. unfold key_le in Hk. congruence. }
    split.
    + intros k Hk. rewrite H2, elem_of_cons by done. split; [by right |]. intros [-> | ?]; [by destruct (Hne d Hk) | done].
    + rewrite H3, elem_of_cons. split; [by right |]. intros [-> | ?]; [by destruct (Hne d ltac:(reflexivity)) | done].
  - split; [by constructor |]. split; [done |]. cbn. rewrite elem_of_cons. split; [intros [= ->]; by left |].
    intros [-> | Hin]; [done |]. rewrite Forall_forall in Hd. specialize (Hd key Hin). unfold key_lt in Hd. congruence.
Qed.

Lemma merge_run_spec disk last run (S : gset URLKey) :
  sorted_keys disk -> StronglySorted pk_order run ->
  (forall l k, last = Some l -> k ∈ run_keys run -> key_le l k) ->
  (forall k, k ∈ run_keys run -> k ∈ S <-> k ∈ disk \/ last = Some k) ->
  let '(out, nk) := merge_run disk last run in
  out = classify S run /\ sorted_keys nk /\ (forall k, k ∈ nk <-> k ∈ run_keys run /\ k ∉ S) /\
  (forall l k, last = Some l -> k ∈ nk -> key_lt l k).
Proof.
  revert disk last S. induction run as [|pk run IH]; intros disk last S Hdisk Hrun Hlast HS; cbn [merge_run].
  { split; [done |]. split; [constructor |]. split; [| by intros l k _ ?%not_elem_of_nil].
    intros k. split; [by intros ?%not_elem_of_nil | by intros [?%not_elem_of_nil _]]. }
  inversion Hrun as [|? ? Hrun' Hpk]; subst. rewrite run_keys_cons in *. set (key := pk_key pk) in *.
  assert (Hge : forall k, k ∈ run_keys run -> key_le key k).
  { intros k (p & -> & Hp)%list_elem_of_fmap. rewrite Forall_forall in Hpk. by apply pk_order_key, Hpk. }
  destruct (skip_less_spec disk key Hdisk) as (D1 & D2 & D3).
  assert (Hkey : key ∈ S <-> key ∈ disk \/ last = Some key) by (apply HS; by left).
  cbn [classify]. fold key.
  destruct (bool_decide (head (skip_less disk key) = Some key) || bool_decide (last = Some key)) eqn:Ec.
  - assert (Hin : key ∈ S).
    { rewrite Hkey. apply orb_true_iff in Ec as [Ec | Ec]; apply bool_decide_eq_true_1 in Ec; [left; by apply D3 | by right]. }
    specialize (IH (skip_less disk key) last ({[key]} ∪ S) D1 Hrun').
    destruct (merge_run _ last run) as [out nk].
    rewrite (bool_decide_eq_false_2 (key ∉ S)) by (intros Hn; by apply Hn).
    assert (ES : {[key]} ∪ S = S) by (by apply subseteq_union_1_L, singleton_subseteq_l). rewrite ES in *.
    destruct IH as (E1 & E2 & E3 & E4).
    + intros l k Hl Hk. apply Hlast; [done | by right].
    + intros k Hk. rewrite D2 by (by apply Hge). apply HS. by right.
    + split; [by rewrite E1 |]. split; [done |]. split; [| done]. intros k. rewrite E3, elem_of_cons.
      split; [intros [? ?]; split; [by right | done] |]. intros [[-> | ?] ?]; done.
  - apply orb_false_iff in Ec as [Ec1 Ec2]. apply bool_decide_eq_false_1 in Ec1, Ec2. rewrite D3 in Ec1.
    assert (Hnin : key ∉ S) by (rewrite Hkey; tauto).
    specialize (IH (skip_less disk key) (Some key) ({[key]} ∪ S) D1 Hrun').
    destruct (merge_run _ (Some key) run) as [out nk]. rewrite (bool_decide_eq_true_2 (key ∉ S)) by done.
    assert (Hlk : forall l, last = Some l -> key_lt l key).
    { intros l El. pose proof (Hlast l key El ltac:(left)) as Hle.
      destruct (key_lt_cases l key) as [[? | ->] | Hgt]; [done | congruence |]. unfold key_le, key_lt in *. congruence. }
    destruct IH as (E1 & E2 & E3 & E4).
    + intros l k [= <-] Hk. by apply Hge.
    + intros k Hk. rewrite elem_of_union, elem_of_singleton, HS, D2 by (by right || by apply Hge).
      split; [| intros [? | [= <-]]; [right; by left | by left]].
      intros [-> | [? | El]]; [by right | by left |]. exfalso. pose proof (Hge k Hk) as Hle.
      specialize (Hlk k El). unfold key_le, key_lt in *. congruence.
    + split; [by rewrite E1 |]. split; [| split].
      * constructor; [done |]. apply Forall_forall. intros k Hk. by apply (E4 key k).
      * intros k. rewrite !elem_of_cons, E3, not_elem_of_union, not_elem_of_singleton.
        destruct (decide (k = key)) as [-> | Hne]; tauto.
      * intros l k El [-> | Hk]%elem_of_cons; [by apply Hlk |]. etransitivity; [by apply Hlk | by apply (E4 key k)].
Qed.

Abbreviation keys_of s := (list_to_set (C:=gset URLKey) (ex_keys s)).

Lemma bucketOf_shift s s' k : ex_shift s' = ex_shift s -> bucketOf s' k = bucketOf s k.
Proof. unfold bucketOf. by intros ->. Qed.

Lemma mergeBucket_spec s idx run out :
  ex_wf s -> Forall (fun pk => key_wf (pk_key pk) /\ bucketOf s (pk_key pk) = idx) run ->
  let '(s', out') := mergeBucket idx run (s, out) in
  ex_wf s' /\ ex_shift s' = ex_shift s /\ keys_of s' = list_to_set (run_keys run) ∪ keys_of s /\
  out' = out ++ classify (keys_of s) (merge_sort pk_order run).
Proof.
  intros Hs Hrun. unfold mergeBucket. set (srun := merge_sort pk_order run).
  assert (Ps : srun ≡ₚ run) by apply merge_sort_Permutation.
  assert (Ss : StronglySorted pk_order srun) by (apply Sorted_StronglySorted; [apply _ | apply Sorted_merge_sort; apply _]).
  rewrite <- Ps in Hrun. rewrite Forall_forall in Hrun.
  assert (Hrk : forall k, k ∈ run_keys srun -> key_wf k /\ bucketOf s k = idx).
  { intros k (p & -> & Hp)%list_elem_of_fmap. by apply Hrun. }
  assert (Ek : forall k, k ∈ run_keys srun <-> k ∈ run_keys run) by (intros k; unfold run_keys; by rewrite Ps).
  destruct (decide (srun = [])) as [E | Hne].
  { rewrite E. cbn [merge_run classify]. rewrite decide_True, app_nil_r by done.
    assert (run = []) as -> by (apply Permutation_nil; by rewrite <- Ps, E).
    split; [done |]. split; [done |]. split; [| done]. cbn. by rewrite (left_id_L ∅ (∪)). }
  assert (Hidx : (idx < length (ex_buckets s))%nat).
  { destruct srun as [|p srun']; [done |]. destruct (Hrk (pk_key p) ltac:(left)) as [Hw <-]. by apply bucketOf_lt. }
  pose proof (list_lookup_lookup_total_lt _ _ Hidx) as Hl. destruct (ew_bucket s Hs _ _ Hl) as [Hsort _].
  assert (HS : forall k, k ∈ run_keys srun -> k ∈ keys_of s <-> k ∈ ex_buckets s !!! idx \/ None = Some k).
  { intros k Hk. destruct (Hrk k Hk) as [Hw <-]. rewrite elem_of_list_to_set, ex_keys_bucket by done.
    split; [by left | by intros [? | [=]]]. }
  pose proof (merge_run_spec (ex_buckets s !!! idx) None srun (keys_of s) Hsort Ss ltac:(done) HS) as Hm.
  destruct (merge_run _ None srun) as [cs nk]. destruct Hm as (-> & Hnk & Hin & _).
  case_decide as En.
  - split; [done |]. split; [done |]. split; [| done]. apply set_eq. intros k.
    rewrite elem_of_union, !elem_of_list_to_set, <- Ek. split; [by right |]. intros [Hk | ?]; [| done].
    destruct (decide (k ∈ keys_of s)) as [Hks | Hks]; [by rewrite elem_of_list_to_set in Hks |].
    exfalso. assert (Hkn : k ∈ nk) by (by apply Hin). rewrite En in Hkn. by apply not_elem_of_nil in Hkn.
  - destruct (bucket_replace s idx nk (mergeSortedRuns (ex_buckets s !!! idx) nk) Hs Hidx) as [Hwf Hp].
    + by rewrite mergeSortedRuns_perm, (comm (++)).
    + apply mergeSortedRuns_sorted; [done | done |]. intros k Hk Hkn. apply Hin in Hkn as [Hkr Hkn].
      apply Hkn. apply HS; [done | by left].
    + apply Forall_forall. intros k Hk. apply Hin in Hk as [Hk _]. by apply Hrk.
    + split; [done |]. split; [done |]. split; [| done]. apply set_eq. intros k.
      rewrite elem_of_union, !elem_of_list_to_set. rewrite Hp, elem_of_app, Hin, Ek, elem_of_list_to_set.
      destruct (decide (k ∈ ex_keys s)); tauto.
Qed.

Lemma filter_cons_perm {A} (f : A -> nat) idx order (l : list A) :
  idx ∉ order ->
  filter (fun x => f x ∈ idx :: order) l ≡ₚ filter (fun x => f x = idx) l ++ filter (fun x => f x ∈ order) l.
Proof.
  intros Hn. induction l as [|x l IH]; [done |]. rewrite !filter_cons.
  destruct (decide (f x ∈ idx :: order)) as [Hin | Hin]; rewrite elem_of_cons in Hin.
  - destruct (decide (f x = idx)) as [E | Hne].
    + rewrite decide_False by (by rewrite E). cbn. by rewrite IH.
    + rewrite decide_True by tauto. rewrite IH. apply Permutation_middle.
  - rewrite !decide_False by tauto. exact IH.
Qed.

Lemma ex_merge_spec order s batch :
  ex_wf s -> Forall (fun pk => key_wf (pk_key pk)) batch -> NoDup order ->
  let '(s', out) := ex_merge order s batch in
  exists batch', batch' ≡ₚ filter (fun pk => bucketOf s (pk_key pk) ∈ order) batch /\
    ex_wf s' /\ ex_shift s' = ex_shift s /\ keys_of s' = list_to_set (run_keys batch') ∪ keys_of s /\
    out = classify (keys_of s) batch'.
Proof.
  intros Hs Hbatch Hnd. unfold ex_merge.
  induction order as [|idx order IH] using rev_ind.
  { cbn [foldl]. exists []. rewrite filter_none by (apply Forall_forall; intros ? _; apply not_elem_of_nil).
    split; [done |]. split; [done |]. split; [done |]. split; [| done]. cbn. by rewrite (left_id_L ∅ (∪)). }
  apply NoDup_app in Hnd as (Hnd & Hn & _). rewrite foldl_app. cbn [foldl].
  specialize (IH Hnd). set (st := foldl _ (s, []) order) in *. destruct st as [s1 out1].
  destruct IH as (b1 & P1 & W1 & S1 & K1 & E1). set (run := filter (fun pk => bucketOf s (pk_key pk) = idx) batch).
  pose proof (mergeBucket_spec s1 idx run out1 W1) as Hm. destruct (mergeBucket idx run (s1, out1)) as [s2 out2].
  destruct Hm as (W2 & S2 & K2 & E2).
  { apply Forall_forall. intros pk [Hi Hin]%list_elem_of_filter. rewrite Forall_forall in Hbatch.
    split; [by apply Hbatch |]. by rewrite (bucketOf_shift s). }
  exists (b1 ++ merge_sort pk_order run).
  assert (Ps : merge_sort pk_order run ≡ₚ run) by apply merge_sort_Permutation.
  split; [| split; [done | split; [congruence | split]]].
  - rewrite P1, Ps, (Permutation_app_comm _ run).
    etransitivity; [symmetry; apply (filter_cons_perm (fun pk => bucketOf s (pk_key pk)) idx order batch) |].
    + intros Hin. apply (Hn idx Hin). by left.
    + erewrite list_filter_iff; [reflexivity |]. intros pk. rewrite elem_of_app, elem_of_cons, list_elem_of_singleton. tauto.
  - rewrite K2, K1. unfold run_keys. rewrite fmap_app, list_to_set_app_L.
    rewrite (list_to_set_perm_L (pk_key <$> merge_sort pk_order run) (pk_key <$> run)) by (by rewrite Ps).
    rewrite (assoc_L (∪)). by rewrite (comm_L (∪) (list_to_set (pk_key <$> run))).
  - rewrite E2, E1, classify_app. by rewrite K1.
Qed.

Lemma double_until_spec fuel n bits nBuckets :
  0 <= bits -> n = 2 ^ bits ->
  let '(n', bits') := double_until fuel n bits nBuckets in n' = 2 ^ bits' /\ bits <= bits' <= bits + Z.of_nat fuel.
Proof.
  revert n bits. induction fuel as [|fuel IH]; intros n bits Hb ->; cbn [double_until]; [split; [done | lia] |].
  destruct (2 ^ bits <? nBuckets); [| split; [done | lia]].
  specialize (IH (2 ^ bits * 2) (bits + 1) ltac:(lia)).
  destruct (double_until fuel _ _ _) as [n' bits']. destruct IH as [-> ?]; [rewrite Z.pow_add_r by lia; lia |].
  split; [done | lia].
Qed.

Lemma newExactSet_wf nBuckets : ex_wf (newExactSet nBuckets) /\ ex_keys (newExactSet nBuckets) = [].
Proof.
  unfold newExactSet. pose proof (double_until_spec 63 1 0 nBuckets ltac:(lia) eq_refl) as Hd.
  destruct (double_until 63 1 0 nBuckets) as [n bits]. destruct Hd as [-> Hb].
  assert (Ek : ex_keys (mkExact (replicate (Z.to_nat (2 ^ bits)) []) (64 - bits) 0) = []).
  { unfold ex_keys. cbn [ex_buckets]. induction (Z.to_nat (2 ^ bits)) as [|m IH]; [done |]. exact IH. }
  split; [| done]. split.
  - exists bits. cbn [ex_shift ex_buckets]. rewrite length_replicate. split; [lia | done].
  - rewrite Ek. done.
  - intros i b Hi. apply lookup_replicate_1 in Hi as [-> _]. split; constructor.
Qed.

(** ** The seen-set is a set *)

(** The relation to the abstract set: the exact tier holds it and the filter hides
    none of it. *)
Record seen_rel (s : SeenSet) (S : gset URLKey) : Prop := {
  sn_exact : ex_wf (ss_exact s);
  sn_keys : keys_of (ss_exact s) = S;
  sn_bloom : bloom_wf (ss_filter s);
  sn_sided : forall k, k ∈ S -> maybeSeen (ss_filter s) k = true }.

Lemma new_seen_rel capacity m k nBuckets : 0 <= m -> seen_rel (NewSeenSet capacity m k nBuckets) ∅.
Proof.
  intros Hm. destruct (newExactSet_wf nBuckets) as [Hw Ek]. split; cbn [ss_exact ss_filter NewSeenSet].
  - done.
  - by rewrite Ek.
  - by apply newFilter_wf.
  - intros ? Hk. by apply not_elem_of_empty in Hk.
Qed.

Lemma seen_contains s S k : seen_rel s S -> key_wf k -> ex_contains (ss_exact s) k = bool_decide (k ∈ S).
Proof.
  intros [Hw <- _ _] Hk. rewrite contains_spec by done. apply bool_decide_ext. by rewrite elem_of_list_to_set.
Qed.

(** Both tiers answer together: a filter miss is authoritative. *)
Lemma seen_both s S k : seen_rel s S -> key_wf k ->
  maybeSeen (ss_filter s) k && ex_contains (ss_exact s) k = bool_decide (k ∈ S).
Proof.
  intros HR Hk. rewrite (seen_contains s S k HR Hk). case_bool_decide as Hin; [| by rewrite andb_false_r].
  by rewrite (sn_sided s S HR k Hin).
Qed.

Lemma seen_insert_rel s S k : seen_rel s S -> key_wf k -> seen_rel (seen_insert s k) ({[k]} ∪ S).
Proof.
  intros [Hw Hk0 Hb Hsd] Hk. pose proof (ex_add_spec (ss_exact s) k Hw Hk) as Ha. unfold seen_insert.
  destruct (ex_add (ss_exact s) k) as [ex isnew]. destruct Ha as (Hw' & _ & Hin).
  split; cbn [ss_exact ss_filter fst].
  - done.
  - apply set_eq. intros x. rewrite <- Hk0, elem_of_union, elem_of_singleton, !elem_of_list_to_set. apply Hin.
  - by apply bloom_add_wf.
  - intros x [-> %elem_of_singleton | Hx]%elem_of_union; apply maybeSeen_add; auto.
Qed.

Abbreviation check_batch keys := ((fun k => mkPending k opCheckInsert) <$> keys).

Lemma check_batch_keys keys : run_keys (check_batch keys) = keys.
Proof. unfold run_keys. rewrite <- list_fmap_compose. apply list_fmap_id. Qed.

(** Folding the unique keys of a merge into the filter. *)
Lemma merge_filter f (S : gset URLKey) keys :
  bloom_wf f -> (forall k, k ∈ S -> maybeSeen f k = true) ->
  let f' := foldl (fun f c => if cl_Unique c then bloom_add f (cl_Key c) else f) f (classify S (check_batch keys)) in
  bloom_wf f' /\ forall k, k ∈ keys \/ k ∈ S -> maybeSeen f' k = true.
Proof.
  revert f S. induction keys as [|k keys IH]; intros f S Hf HS; cbv zeta.
  { split; [done |]. intros k [Hk | ?]; [by apply not_elem_of_nil in Hk | by apply HS]. }
  rewrite fmap_cons. cbn [classify pk_key pk_op verdict].
  rewrite foldl_app. cbn [foldl cl_Unique cl_Key].
  assert (Hnext : forall g, bloom_wf g -> (forall x, x = k \/ x ∈ S -> maybeSeen g x = true) ->
    let f' := foldl (fun f c => if cl_Unique c then bloom_add f (cl_Key c) else f) g
                (classify ({[k]} ∪ S) (check_batch keys)) in
    bloom_wf f' /\ forall x, x ∈ k :: keys \/ x ∈ S -> maybeSeen f' x = true).
  { intros g Hg Hgs. destruct (IH g ({[k]} ∪ S) Hg) as [H1 H2].
    - intros x Hx. apply Hgs. by rewrite elem_of_union, elem_of_singleton in Hx.
    - split; [done |]. intros x. rewrite elem_of_cons. intros [[-> | Hx] | Hx]; apply H2;
        rewrite ?elem_of_union, ?elem_of_singleton; auto. }
  case_bool_decide as Hin; apply Hnext; [by apply bloom_add_wf | | done |].
  - intros x [-> | Hx]; apply maybeSeen_add; auto.
  - intros x [-> | Hx]; [| by apply HS]. apply HS. destruct (decide (k ∈ S)); [done | exfalso; tauto].
Qed.

Lemma seen_merge_rel order s S keys :
  seen_rel s S -> Forall key_wf keys -> NoDup order ->
  (forall k, k ∈ keys -> bucketOf (ss_exact s) k ∈ order) ->
  let '(s', out) := seen_merge order s keys in
  seen_rel s' (list_to_set keys ∪ S) /\
  exists keys', keys' ≡ₚ keys /\ out = classify S (check_batch keys').
Proof.
  intros [Hw Hk0 Hb Hsd] Hkeys Hnd Hcov. unfold seen_merge. cbv zeta.
  assert (Hbw : Forall (fun pk => key_wf (pk_key pk)) (check_batch keys)) by (by apply Forall_fmap).
  pose proof (ex_merge_spec order (ss_exact s) (check_batch keys) Hw Hbw Hnd) as Hm.
  destruct (ex_merge order (ss_exact s) (check_batch keys)) as [ex out].
  destruct Hm as (batch' & Pb & Hw' & _ & Ek & Eo). rewrite Hk0 in *.
  rewrite filter_all in Pb by (apply Forall_fmap, Forall_forall; intros k Hk; by apply Hcov).
  apply Permutation_map_inv in Pb as (keys' & -> & Pk).
  change (map _ keys') with (check_batch keys') in Ek, Eo. rewrite check_batch_keys in Ek.
  destruct (merge_filter (ss_filter s) S keys' Hb Hsd) as [F1 F2]. rewrite <- Eo in F1, F2.
  split; [| exists keys'; by symmetry in Pk]. split; cbn [ss_exact ss_filter]; [done | | done |].
  - rewrite Ek. by rewrite (list_to_set_perm_L _ _ Pk).
  - intros k [Hk | Hk]%elem_of_union; apply F2; [left | by right].
    rewrite <- Pk. by rewrite elem_of_list_to_set in Hk.
Qed.

Lemma join_nodup {A} (g : A -> nat) (bs : list (list A)) n :
  (forall i b, bs !! i = Some b -> NoDup b /\ forall k, k ∈ b -> g k = (n + i)%nat) -> NoDup (mjoin bs).
Proof.
  revert n. induction bs as [|b bs IH]; intros n Hb; [constructor |]. change (NoDup (b ++ mjoin bs)).
  destruct (Hb 0%nat b eq_refl) as [Hnd Hg].
  assert (Hb' : forall i c, bs !! i = Some c -> NoDup c /\ forall k, k ∈ c -> g k = (S n + i)%nat).
  { intros i c Hc. destruct (Hb (S i) c Hc) as [? Hg']. split; [done |]. intros k Hk. rewrite (Hg' k Hk). lia. }
  apply NoDup_app. split; [done |]. split; [| by apply (IH (S n))].
  intros k Hk (c & Hc & [i Hi]%list_elem_of_lookup)%list_elem_of_join.
  destruct (Hb' i c Hi) as [_ Hg']. specialize (Hg' k Hc). rewrite (Hg k Hk) in Hg'. lia.
Qed.

Lemma ex_keys_nodup s : ex_wf s -> NoDup (ex_keys s).
Proof.
  intros Hs. apply (join_nodup (bucketOf s) _ 0). intros i b Hi. destruct (ew_bucket s Hs i b Hi) as [Hsort Hall].
  split; [by apply sorted_keys_nodup |]. intros k Hk. rewrite Forall_forall in Hall. by apply Hall.
Qed.

(** ** Runs of operations *)

Inductive seen_op := OpSeen (k : URLKey) | OpContains (k : URLKey) | OpInsert (k : URLKey)
  | OpMerge (order : list nat) (keys : list URLKey) | OpLen.
Inductive seen_out := OutBool (b : bool) | OutUnit | OutClasses (l : list Classification) | OutLen (n : Z).

Definition seen_step (s : SeenSet) (o : seen_op) : SeenSet * seen_out :=
  match o with
  | OpSeen k => let '(s, b) := Seen s k in (s, OutBool b)
  | OpContains k => (s, OutBool (Contains s k))
  | OpInsert k => (Insert s k, OutUnit)
  | OpMerge order keys => let '(s, out) := seen_merge order s keys in (s, OutClasses out)
  | OpLen => (s, OutLen (Len s))
  end.

(** What the operations promise of a set of keys; a merge answers as check-and-insert
    would, one key at a time in some order. *)
Inductive set_step (S : gset URLKey) : seen_op -> gset URLKey -> seen_out -> Prop :=
  | set_seen k : set_step S (OpSeen k) ({[k]} ∪ S) (OutBool (bool_decide (k ∈ S)))
  | set_contains k : set_step S (OpContains k) S (OutBool (bool_decide (k ∈ S)))
  | set_insert k : set_step S (OpInsert k) ({[k]} ∪ S) OutUnit
  | set_merge order keys keys' : keys' ≡ₚ keys ->
      set_step S (OpMerge order keys) (list_to_set keys ∪ S) (OutClasses (classify S (check_batch keys')))
  | set_len : set_step S OpLen S (OutLen (Z.of_nat (size S))).

Inductive set_run : gset URLKey -> list seen_op -> gset URLKey -> list seen_out -> Prop :=
  | set_run_nil S : set_run S [] S []
  | set_run_cons S o os S1 S2 out outs :
      set_step S o S1 out -> set_run S1 os S2 outs -> set_run S (o :: os) S2 (out :: outs).

Fixpoint seen_run (s : SeenSet) (os : list seen_op) : SeenSet * list seen_out :=
  match os with
  | [] => (s, [])
  | o :: os => let '(s, out) := seen_step s o in let '(s, outs) := seen_run s os in (s, out :: outs)
  end.

Definition seen_op_ok (shift : Z) (o : seen_op) : Prop :=
  match o with
  | OpSeen k | OpContains k | OpInsert k => key_wf k
  | OpMerge order keys => Forall key_wf keys /\ NoDup order /\
      Forall (fun k => bucketOf (mkExact [] shift 0) k ∈ order) keys
  | OpLen => True
  end.

Lemma seen_step_rel s S o :
  seen_rel s S -> seen_op_ok (ex_shift (ss_exact s)) o ->
  let '(s', out) := seen_step s o in
  exists S', set_step S o S' out /\ seen_rel s' S' /\ ex_shift (ss_exact s') = ex_shift (ss_exact s).
Proof.
  intros HR Ho. assert (Hins : forall k, ex_shift (ss_exact (seen_insert s k)) = ex_shift (ss_exact s)).
  { intros k. unfold seen_insert, ex_add. cbv zeta. cbn [ss_exact]. by case_decide. }
  destruct o as [k | k | k | order keys |]; cbn [seen_step seen_op_ok] in *.
  - unfold Seen. rewrite (seen_both s S k HR Ho). destruct (bool_decide (k ∈ S)) eqn:E.
    + exists ({[k]} ∪ S). split; [rewrite <- E; constructor |]. apply bool_decide_eq_true_1 in E.
      by rewrite subseteq_union_1_L by (by apply singleton_subseteq_l).
    + exists ({[k]} ∪ S). split; [rewrite <- E; constructor |]. split; [by apply seen_insert_rel | apply Hins].
  - exists S. split; [| done]. unfold Contains.
    replace (if negb (maybeSeen (ss_filter s) k) then false else ex_contains (ss_exact s) k)
      with (maybeSeen (ss_filter s) k && ex_contains (ss_exact s) k) by (by destruct (maybeSeen _ k)).
    rewrite (seen_both s S k HR Ho). constructor.
  - exists ({[k]} ∪ S). split; [constructor |]. unfold Insert. rewrite <- negb_andb, (seen_both s S k HR Ho).
    case_bool_decide as Hin; cbn [negb].
    + by rewrite subseteq_union_1_L by (by apply singleton_subseteq_l).
    + split; [by apply seen_insert_rel | apply Hins].
  - destruct Ho as (Hk & Hnd & Hcov). rewrite Forall_forall in Hcov.
    pose proof (seen_merge_rel order s S keys HR Hk Hnd Hcov) as Hm.
    pose proof (ex_merge_spec order (ss_exact s) (check_batch keys) (sn_exact s S HR)) as Hx.
    unfold seen_merge in *. destruct (ex_merge _ _ _) as [ex out]. destruct Hm as (HR' & keys' & P & ->).
    eexists. split; [by constructor |]. split; [done |]. cbn [ss_exact].
    destruct Hx as (? & _ & _ & -> & _); [by apply Forall_fmap | done | done].
  - exists S. split; [| done]. destruct HR as [Hw <- _ _]. unfold Len. rewrite (ew_size _ Hw).
    rewrite <- (size_list_to_set (C:=gset URLKey)) by (by apply ex_keys_nodup). constructor.
Qed.

Lemma seen_op_ok_shift sh s s' o :
  ex_shift (ss_exact s') = ex_shift (ss_exact s) -> sh = ex_shift (ss_exact s) ->
  seen_op_ok sh o -> seen_op_ok (ex_shift (ss_exact s')) o.
Proof. by intros -> ->. Qed.

(** C37: The seen-set is a set: for any interleaving of check-and-inserts, lookups,
    inserts, batched merges and counts on a fresh one, every answer is the set's, so no
    Bloom false positive is ever reported and no key is ever dropped; a merge, in
    whatever order Go visits its buckets, answers as one check-and-insert after the
    other. *)
Theorem seenset_is_a_set (capacity m k nBuckets : Z) (os : list seen_op) (Hm : 0 <= m)
    (Hos : Forall (seen_op_ok (ex_shift (newExactSet nBuckets))) os) :
  let '(s, outs) := seen_run (NewSeenSet capacity m k nBuckets) os in
  exists S, set_run ∅ os S outs /\
    (forall x, x ∈ S -> MaybeContains s x = true) /\
    (forall x, key_wf x -> Contains s x = bool_decide (x ∈ S)).
Proof.
  assert (G : forall os s S, seen_rel s S -> Forall (seen_op_ok (ex_shift (ss_exact s))) os ->
    let '(s', outs) := seen_run s os in exists S', set_run S os S' outs /\ seen_rel s' S').
  { clear. induction os as [|o os IH]; intros s S HR Ho; cbn [seen_run].
    { exists S. split; [constructor | done]. }
    inversion Ho as [|? ? Ho1 Ho2]; subst. pose proof (seen_step_rel s S o HR Ho1) as Hs.
    destruct (seen_step s o) as [s1 out]. destruct Hs as (S1 & Hstep & HR1 & Esh). rewrite <- Esh in Ho2.
    specialize (IH s1 S1 HR1 Ho2). destruct (seen_run s1 os) as [s2 outs]. destruct IH as (S2 & Hrun & HR2).
    exists S2. split; [by econstructor | done]. }
  specialize (G os _ _ (new_seen_rel capacity m k nBuckets Hm) Hos).
  destruct (seen_run _ os) as [s outs]. destruct G as (S & Hrun & HR). exists S. split; [done |].
  split; [apply (sn_sided s S HR) |]. intros x Hx. unfold Contains. rewrite <- (seen_both s S x HR Hx).
  by destruct (maybeSeen _ x).
Qed.

#[local] Instance seen_op_ok_dec shift o : Decision (seen_op_ok shift o).
Proof. destruct o; unfold seen_op_ok, key_wf; apply _. Defined.

Definition seen_example : list seen_op :=
  [OpSeen (mkKey 1 2); OpSeen (mkKey 1 2); OpMerge [0; 3]%nat [mkKey (2 ^ 64 - 1) 9; mkKey 1 2]; OpLen].

Lemma seenset_is_a_set_witness :
  exists S, set_run ∅ seen_example
    S [OutBool false; OutBool true;
       OutClasses [mkClass (mkKey 1 2) false; mkClass (mkKey (2 ^ 64 - 1) 9) true]; OutLen 2].
Proof.
  assert (Hok : Forall (seen_op_ok (ex_shift (newExactSet 4))) seen_example)
    by (apply (bool_decide_unpack _); vm_compute; exact I).
  pose proof (seenset_is_a_set 16 200 8 4 seen_example ltac:(lia) Hok) as Hw.
  destruct (seen_run _ _) as [s outs] eqn:E. destruct Hw as (S & Hrun & _). exists S.
  vm_compute in E. injection E as _ <-. exact Hrun.
Defined.
