(* ===== verification/Ribbon.v ===== *)
(** * The ribbon filter and the filter blobs (dedup/ribbon.go, dedup/serialize.go)

    The static one-sided filter: hashing a key to a band of slots, the incremental
    elimination over GF(2), back-substitution and the probe; then the bit packing of
    the slots and the two self-describing blobs.  A built filter finds every key it was
    built over, and a blob reads back to the filter it was written from.

    The initial table size is a float64 expression; [buildRibbon] takes its value. *)

From S2P Require Import Prelude Words Model Page SeenSet.
Open Scope Z_scope.

(** ** Hashing a key to a band *)

Definition ribbonWidth : Z := 64.
Definition maxRibbonSeeds : nat := 64.
Definition maxRibbonGrows : nat := 4.
Definition maxRibbonRBits : Z := 16.
Definition ribbonHeaderSize : nat := 24.

Record ribbon := mkRibbon { rb_z : list Z; rb_m : Z; rb_rbits : Z; rb_seed : Z; rb_n : Z }.

Definition ribbonMix (x : Z) : Z :=
  let x := Z.lxor x (Z.shiftr x 33) in
  let x := u64 (x * 0xFF51AFD7ED558CCD) in
  let x := Z.lxor x (Z.shiftr x 33) in
  let x := u64 (x * 0xC4CEB9FE1A85EC53) in
  Z.lxor x (Z.shiftr x 33).

Definition ribbonHash (key : URLKey) (seed : Z) : Z * Z :=
  let s := u64 (u64 (seed * 0x9E3779B97F4A7C15) + 0x165667B19E3779F9) in
  (ribbonMix (Z.lxor (Z.lxor (HostKey key) s) (u64 (PathKey key * 0xD6E8FEB86659FD93))),
   ribbonMix (Z.lxor (Z.lxor (PathKey key) (u64 (s * 0xC2B2AE3D27D4EB4F)))
                     (u64 (HostKey key * 0x9E3779B97F4A7C15)))).

(** Start slot, coefficient row and fingerprint. *)
Definition ribbonDerive (key : URLKey) (seed m rbits : Z) : nat * Z * Z :=
  let '(a, b) := ribbonHash key seed in
  let startRange := u64 (m - ribbonWidth + 1) in
  (Z.to_nat (a mod startRange), Z.lor b 1,
   u16 (Z.shiftr (ribbonMix (Z.lxor a (u64 (Z.shiftl b 1)))) (64 - rbits))).

(** bits.TrailingZeros64 *)
Fixpoint tz_loop (fuel : nat) (x : Z) : nat :=
  match fuel with O => O | S fuel => if Z.odd x then O else S (tz_loop fuel (Z.shiftr x 1)) end.
Definition trailingZeros (x : Z) : nat := tz_loop 64 x.

(** ** Construction *)

(** One key's equation eliminated against the pivots; [None] is an unsolvable system.
    The position grows every turn, so [m + 1] turns are enough. *)
Fixpoint eliminate (fuel : nat) (rows rhs : list Z) (i : nat) (cr b : Z) : option (list Z * list Z) :=
  match fuel with
  | O => None
  | S fuel =>
      if cr =? 0 then (if negb (b =? 0) then None else Some (rows, rhs))
      else
        let j := trailingZeros cr in
        let i := (i + j)%nat in
        let cr := Z.shiftr cr (Z.of_nat j) in
        if (length rows <=? i)%nat then None
        else if rows !!! i =? 0 then Some (<[i := cr]> rows, <[i := b]> rhs)
        else
          let cr := Z.lxor cr (rows !!! i) in
          let b := Z.lxor b (rhs !!! i) in
          eliminate fuel rows rhs (S i) (Z.shiftr cr 1) b
  end.

Fixpoint eliminate_all (keys : list URLKey) (rbits seed m : Z) (rows rhs : list Z) : option (list Z * list Z) :=
  match keys with
  | [] => Some (rows, rhs)
  | key :: keys =>
      let '(start, coeff, fp) := ribbonDerive key seed m rbits in
      '(rows, rhs) ← eliminate (S (length rows)) rows rhs start coeff fp;
      eliminate_all keys rbits seed m rows rhs
  end.

(** Xor of the slots a mask picks from position [i]; a turn clears the lowest bit. *)
Fixpoint band_loop (fuel : nat) (z : list Z) (m : nat) (i : nat) (mask v : Z) : Z :=
  match fuel with
  | O => v
  | S fuel =>
      if mask =? 0 then v
      else
        let p := (i + trailingZeros mask)%nat in
        let v := if (p <? m)%nat then Z.lxor v (z !!! p) else v in
        band_loop fuel z m i (Z.land mask (mask - 1)) v
  end.
Definition band (z : list Z) (m i : nat) (mask v : Z) : Z := band_loop 64 z m i mask v.

(** The slots from [n - 1] down to 0; clearing bit 0 is [&^ 1]. *)
Fixpoint back_substitute (n : nat) (rows rhs z : list Z) : list Z :=
  match n with
  | O => z
  | S i =>
      let z :=
        if rows !!! i =? 0 then z
        else <[i := band z (length rows) i (Z.ldiff (rows !!! i) 1) (rhs !!! i)]> z in
      back_substitute i rows rhs z
  end.

Definition solveRibbon (keys : list URLKey) (rbits seed m : Z) : option (list Z) :=
  let zeros := replicate (Z.to_nat m) 0 in
  '(rows, rhs) ← eliminate_all keys rbits seed m zeros zeros;
  Some (back_substitute (Z.to_nat m) rows rhs zeros).

Fixpoint try_seeds (n : nat) (keys : list URLKey) (rbits seed m : Z) : option ribbon :=
  match n with
  | O => None
  | S n =>
      match solveRibbon keys rbits seed m with
      | Some z => Some (mkRibbon z m rbits seed (Z.of_nat (length keys)))
      | None => try_seeds n keys rbits (seed + 1) m
      end
  end.

Fixpoint try_sizes (n : nat) (keys : list URLKey) (rbits m : Z) : option ribbon :=
  match n with
  | O => None
  | S n =>
      match try_seeds maxRibbonSeeds keys rbits 0 m with
      | Some r => Some r
      | None => try_sizes n keys rbits (m + (m / 20 + ribbonWidth))
      end
  end.

(** [m0] is [ceil(len(keys) / ribbonLoad)]; [None] is errRibbonBuild. *)
Definition buildRibbon (m0 : Z) (keys : list URLKey) (rbits : Z) : option ribbon :=
  try_sizes maxRibbonGrows keys rbits (Z.max m0 (ribbonWidth * 2)).

Definition query (rb : ribbon) (key : URLKey) : bool :=
  let '(start, coeff, fp) := ribbonDerive key (rb_seed rb) (rb_m rb) (rb_rbits rb) in
  band (rb_z rb) (Z.to_nat (rb_m rb)) start coeff 0 =? fp.

(** ** Xor sums *)

Definition xsum (f : nat -> Z) (n : nat) : Z := foldr (fun t acc => Z.lxor (f t) acc) 0 (seq 0 n).

Lemma xsum_ext f g n : (forall t, (t < n)%nat -> f t = g t) -> xsum f n = xsum g n.
Proof.
  intros H. unfold xsum. assert (Hs : forall t, t ∈ seq 0 n -> f t = g t).
  { intros t Ht. apply H. apply elem_of_seq in Ht. lia. }
  induction (seq 0 n) as [|t l IH]; [done |]. cbn. rewrite Hs by left. f_equal. apply IH. intros u Hu. apply Hs. by right.
Qed.

Lemma xsum_zero n : xsum (fun _ => 0) n = 0.
Proof. unfold xsum. induction (seq 0 n) as [|t l IH]; [done |]. cbn. exact IH. Qed.

Lemma xsum_lxor f g n : xsum (fun t => Z.lxor (f t) (g t)) n = Z.lxor (xsum f n) (xsum g n).
Proof.
  unfold xsum. induction (seq 0 n) as [|t l IH]; [done |]. cbn [foldr]. rewrite IH.
  rewrite !Z.lxor_assoc. f_equal. rewrite <- !Z.lxor_assoc. by rewrite (Z.lxor_comm (g t)).
Qed.

Lemma xsum_head f n : xsum f (S n) = Z.lxor (f 0%nat) (xsum (fun t => f (S t)) n).
Proof.
  unfold xsum. cbn [seq foldr]. f_equal. rewrite <- (fmap_S_seq 0 n).
  induction (seq 0 n) as [|t l IH]; [done |]. cbn. by rewrite IH.
Qed.

Lemma xsum_last f n : xsum f (S n) = Z.lxor (xsum f n) (f n).
Proof.
  unfold xsum. rewrite seq_S, foldr_app. cbn [foldr Nat.add]. rewrite Z.lxor_0_r.
  induction (seq 0 n) as [|t l IH]; [by rewrite Z.lxor_0_l |]. cbn. by rewrite IH, Z.lxor_assoc.
Qed.

(** One term taken out of a sum. *)
Lemma xsum_pick f n j :
  (j < n)%nat -> xsum f n = Z.lxor (f j) (xsum (fun t => if decide (t = j) then 0 else f t) n).
Proof.
  intros Hj. rewrite (xsum_ext f (fun t => Z.lxor (if decide (t = j) then f j else 0) (if decide (t = j) then 0 else f t))).
  2: { intros t _. case_decide as E; [subst; by rewrite Z.lxor_0_r | by rewrite Z.lxor_0_l]. }
  rewrite xsum_lxor. f_equal. revert j Hj. induction n as [|n IH]; intros j Hj; [lia |]. rewrite xsum_last.
  destruct (decide (j = n)) as [-> | Hne].
  - rewrite decide_True by done. rewrite (xsum_ext _ (fun _ => 0)); [by rewrite xsum_zero, Z.lxor_0_l |].
    intros t Ht. by rewrite decide_False by lia.
  - rewrite IH by lia. rewrite decide_False by lia. apply Z.lxor_0_r.
Qed.

(** ** The band of a mask is a xor sum *)

Definition term (z : list Z) (m i : nat) (mask : Z) (t : nat) : Z :=
  if Z.testbit mask (Z.of_nat t) && (i + t <? m)%nat then z !!! (i + t)%nat else 0.
Definition dot (z : list Z) (m i : nat) (mask : Z) : Z := xsum (term z m i mask) 64.

Lemma tz_loop_spec fuel x :
  0 < x < 2 ^ Z.of_nat fuel ->
  let j := tz_loop fuel x in
  (j < fuel)%nat /\ Z.testbit x (Z.of_nat j) = true /\ (forall t, (t < j)%nat -> Z.testbit x (Z.of_nat t) = false).
Proof.
  revert x. induction fuel as [|fuel IH]; intros x Hx; [simpl in Hx; lia |]. cbn [tz_loop].
  rewrite Nat2Z.inj_succ, Z.pow_succ_r in Hx by lia. rewrite <- Z.bit0_odd.
  destruct (Z.testbit x 0) eqn:E; cbv zeta; [split; [lia |]; split; [done |]; intros; lia |].
  assert (Hodd : x mod 2 = 0).
  { rewrite Z.bit0_odd in E. rewrite Zmod_odd, E. done. }
  rewrite Z.shiftr_div_pow2 by lia. change (2 ^ 1) with 2.
  assert (Hr : 0 < x / 2 < 2 ^ Z.of_nat fuel) by divmod.
  destruct (IH (x / 2) Hr) as (H1 & H2 & H3). rewrite Z.div2_bits in H2 by lia.
  split; [lia |]. split; [by rewrite Nat2Z.inj_succ |]. intros [|t] Ht; [done |].
  specialize (H3 t ltac:(lia)). rewrite Z.div2_bits in H3 by lia. by rewrite Nat2Z.inj_succ.
Qed.

Lemma trailingZeros_spec x :
  0 < x < 2 ^ 64 ->
  (trailingZeros x < 64)%nat /\ Z.testbit x (Z.of_nat (trailingZeros x)) = true /\
  (forall t, (t < trailingZeros x)%nat -> Z.testbit x (Z.of_nat t) = false).
Proof. intros Hx. by apply (tz_loop_spec 64). Qed.

Lemma mod_pow2_zero x j :
  (forall t, (t < j)%nat -> Z.testbit x (Z.of_nat t) = false) -> x mod 2 ^ Z.of_nat j = 0.
Proof.
  intros H. apply Z.bits_inj'. intros n Hn. rewrite Z.bits_0.
  destruct (Z.lt_ge_cases n (Z.of_nat j)).
  - rewrite Z.mod_pow2_bits_low by done. rewrite <- (Z2Nat.id n) by lia. apply H. lia.
  - apply Z.mod_pow2_bits_high. lia.
Qed.

(** [x & (x - 1)] clears the lowest set bit. *)
Lemma clear_lowest x t :
  0 < x < 2 ^ 64 ->
  Z.testbit (Z.land x (x - 1)) (Z.of_nat t) = Z.testbit x (Z.of_nat t) && negb (t =? trailingZeros x)%nat.
Proof.
  intros Hx. destruct (trailingZeros_spec x Hx) as (_ & Hj & Hlow). set (j := trailingZeros x) in *. rewrite Z.land_spec.
  destruct (Nat.lt_ge_cases t j) as [Hlt | Hge]; [by rewrite (Hlow t Hlt) |].
  pose proof (mod_pow2_zero x j Hlow) as Hm. pose proof (Z.pow_pos_nonneg 2 (Z.of_nat j) ltac:(lia) ltac:(lia)) as Hp.
  pose proof (Z.div_mod x (2 ^ Z.of_nat j) ltac:(lia)) as Hdm.
  rewrite <- (Z.add_0_l (Z.of_nat j)), <- Z.div_pow2_bits, Z.bit0_odd in Hj by lia.
  set (y := x / 2 ^ Z.of_nat j) in *. apply Z.odd_spec in Hj as [q Hq].
  assert (Hd : (x - 1) / 2 ^ Z.of_nat j = 2 * q).
  { symmetry. apply Z.div_unique with (2 ^ Z.of_nat j - 1); [lia |]. rewrite Hdm, Hm, Hq. ring. }
  replace (Z.of_nat t) with (Z.of_nat (t - j) + Z.of_nat j) by lia. rewrite <- !Z.div_pow2_bits by lia.
  fold y. rewrite Hd, Hq. destruct (t - j)%nat as [|s] eqn:Es.
  - rewrite (proj2 (Nat.eqb_eq t j)) by lia. cbn [negb]. by rewrite andb_false_r, Z.testbit_even_0, andb_false_r.
  - rewrite (proj2 (Nat.eqb_neq t j)) by lia. rewrite Nat2Z.inj_succ, Z.testbit_odd_succ, Z.testbit_even_succ by lia.
    cbn [negb]. by rewrite andb_true_r, andb_diag.
Qed.

Lemma land_pred_bound x : 0 < x < 2 ^ 64 -> 0 <= Z.land x (x - 1) < 2 ^ 64.
Proof.
  intros Hx. split; [apply Z.land_nonneg; lia |].
  apply Z.log2_lt_cancel. destruct (decide (Z.land x (x - 1) = 0)) as [-> | Hne]; [done |].
  eapply Z.le_lt_trans; [apply Z.log2_land; lia |]. change (Z.log2 (2 ^ 64)) with 64.
  assert (Z.log2 x < 64) by (apply Z.log2_lt_pow2; lia). lia.
Qed.

Lemma zero_bits x n : 0 <= x < 2 ^ Z.of_nat n -> (forall t, (t < n)%nat -> Z.testbit x (Z.of_nat t) = false) -> x = 0.
Proof. intros Hx H. pose proof (mod_pow2_zero x n H) as Hm. rewrite Z.mod_small in Hm by lia. done. Qed.

Lemma dot_zero z m i : dot z m i 0 = 0.
Proof. unfold dot. rewrite (xsum_ext _ (fun _ => 0)); [apply xsum_zero |]. intros t _. unfold term. by rewrite Z.bits_0. Qed.

Lemma band_loop_spec fuel z m i mask v :
  0 <= mask < 2 ^ 64 -> (forall t, (t + fuel < 64)%nat -> Z.testbit mask (Z.of_nat t) = false) ->
  band_loop fuel z m i mask v = Z.lxor v (dot z m i mask).
Proof.
  revert mask v. induction fuel as [|fuel IH]; intros mask v Hm Hlow; cbn [band_loop].
  { assert (mask = 0) as -> by (apply (zero_bits mask 64); [exact Hm |]; intros t Ht; apply Hlow; lia).
    by rewrite dot_zero, Z.lxor_0_r. }
  destruct (Z.eqb_spec mask 0) as [-> | Hne]; [by rewrite dot_zero, Z.lxor_0_r |].
  assert (Hpos : 0 < mask < 2 ^ 64) by lia. destruct (trailingZeros_spec mask Hpos) as (Hj & Hb & Hz).
  set (j := trailingZeros mask) in *. cbv zeta.
  assert (Hjf : (64 <= j + S fuel)%nat).
  { destruct (decide (j + S fuel < 64)%nat) as [Hlt | ?]; [| lia]. rewrite Hlow in Hb; done. }
  rewrite IH; [| by apply land_pred_bound |].
  2: { intros t Ht. rewrite clear_lowest by done. destruct (decide (t < j)%nat) as [Hlt | Hge]; [by rewrite Hz |].
       assert (t = j) as -> by lia. unfold j. rewrite Nat.eqb_refl. apply andb_false_r. }
  unfold dot at 2. rewrite (xsum_pick _ 64 j Hj).
  assert (E : xsum (fun t => if decide (t = j) then 0 else term z m i mask t) 64 = dot z m i (Z.land mask (mask - 1))).
  { apply xsum_ext. intros t _. unfold term. rewrite clear_lowest by done. fold j. case_decide as Et.
    - subst t. rewrite Nat.eqb_refl. cbn [negb]. by rewrite andb_false_r.
    - rewrite (proj2 (Nat.eqb_neq t j)) by done. cbn [negb]. by rewrite andb_true_r. }
  rewrite E. unfold term. rewrite Hb. cbn [andb]. destruct (i + j <? m)%nat; [| by rewrite Z.lxor_0_l].
  by rewrite Z.lxor_assoc.
Qed.

Lemma band_spec z m i mask v : 0 <= mask < 2 ^ 64 -> band z m i mask v = Z.lxor v (dot z m i mask).
Proof. intros Hm. apply band_loop_spec; [done |]. intros; lia. Qed.

Lemma dot_lxor z m i a b : dot z m i (Z.lxor a b) = Z.lxor (dot z m i a) (dot z m i b).
Proof.
  unfold dot. rewrite <- xsum_lxor. apply xsum_ext. intros t _. unfold term. rewrite Z.lxor_spec.
  destruct (i + t <? m)%nat; [| by rewrite !andb_false_r]. rewrite !andb_true_r.
  destruct (Z.testbit a _), (Z.testbit b _); cbn [xorb]; by rewrite ?Z.lxor_0_r, ?Z.lxor_0_l, ?Z.lxor_nilpotent.
Qed.

(** Dropping a clear low bit moves the band up by one slot. *)
Lemma dot_shift z m i x :
  0 <= x < 2 ^ 64 -> Z.testbit x 0 = false -> dot z m i x = dot z m (S i) (Z.shiftr x 1).
Proof.
  intros Hx H0. unfold dot. rewrite xsum_head, (xsum_last (term z m (S i) (Z.shiftr x 1)) 63).
  unfold term at 1. change (Z.of_nat 0) with 0. rewrite H0. cbn [andb]. rewrite Z.lxor_0_l.
  unfold term at 3. rewrite Z.shiftr_spec by lia.
  assert (E63 : Z.testbit x (Z.of_nat 63 + 1) = false).
  { apply Z.bits_above_log2; [lia |]. destruct (decide (x = 0)) as [-> | ?]; [done |].
    change (Z.of_nat 63 + 1) with 64. apply Z.log2_lt_pow2; lia. }
  rewrite E63. cbn [andb]. rewrite Z.lxor_0_r. apply xsum_ext. intros t _. unfold term.
  rewrite Z.shiftr_spec by lia. replace (i + S t)%nat with (S i + t)%nat by lia.
  by replace (Z.of_nat (S t)) with (Z.of_nat t + 1) by lia.
Qed.

Lemma dot_shifts z m i x j :
  0 <= x < 2 ^ 64 -> (forall t, (t < j)%nat -> Z.testbit x (Z.of_nat t) = false) ->
  dot z m i x = dot z m (i + j) (Z.shiftr x (Z.of_nat j)).
Proof.
  revert i x. induction j as [|j IH]; intros i x Hx H0.
  { by rewrite Nat.add_0_r, Z.shiftr_0_r. }
  rewrite dot_shift by (done || apply (H0 0%nat); lia).
  assert (Hs : 0 <= Z.shiftr x 1 < 2 ^ 64).
  { rewrite Z.shiftr_div_pow2 by lia. change (2 ^ 1) with 2. divmod. }
  rewrite (IH (S i) (Z.shiftr x 1) Hs).
  - rewrite Z.shiftr_shiftr by lia. replace (S i + j)%nat with (i + S j)%nat by lia.
    by replace (1 + Z.of_nat j) with (Z.of_nat (S j)) by lia.
  - intros t Ht. rewrite Z.shiftr_spec by lia. replace (Z.of_nat t + 1) with (Z.of_nat (S t)) by lia. apply H0. lia.
Qed.

(** ** Elimination and back-substitution *)

(** [z] solves the pivot equation of slot [i]. *)
Definition sat_at (rows rhs z : list Z) (i : nat) : Prop :=
  rows !!! i = 0 \/ dot z (length rows) i (rows !!! i) = rhs !!! i.
Definition sat (rows rhs z : list Z) : Prop := forall i, (i < length rows)%nat -> sat_at rows rhs z i.

(** A pivot row is empty or has its low bit set. *)
Definition row_ok (r : Z) : Prop := r = 0 \/ (0 < r < 2 ^ 64 /\ Z.testbit r 0 = true).

Lemma shiftr_bound x j : 0 <= x < 2 ^ 64 -> 0 <= j -> 0 <= Z.shiftr x j < 2 ^ 64.
Proof.
  intros Hx Hj. rewrite Z.shiftr_div_pow2 by done. pose proof (Z.pow_pos_nonneg 2 j ltac:(lia) Hj).
  split; [apply Z.div_pos; lia |]. apply Z.div_lt_upper_bound; [done |]. nia.
Qed.

Lemma lxor_bound a b : 0 <= a < 2 ^ 64 -> 0 <= b < 2 ^ 64 -> 0 <= Z.lxor a b < 2 ^ 64.
Proof.
  intros Ha Hb. split; [apply Z.lxor_nonneg; lia |]. apply Z.log2_lt_cancel.
  eapply Z.le_lt_trans; [apply Z.log2_lxor; lia |]. change (Z.log2 (2 ^ 64)) with 64.
  assert (forall x, 0 <= x < 2 ^ 64 -> Z.log2 x < 64).
  { intros x Hx. destruct (decide (x = 0)) as [-> | ?]; [done |]. apply Z.log2_lt_pow2; lia. }
  apply Z.max_lub_lt; auto.
Qed.

Lemma row_ok_bound r : row_ok r -> 0 <= r < 2 ^ 64.
Proof. intros [-> | [? _]]; [done | lia]. Qed.

Lemma eliminate_spec fuel rows rhs i cr b rows' rhs' :
  eliminate fuel rows rhs i cr b = Some (rows', rhs') ->
  Forall row_ok rows -> length rhs = length rows -> 0 <= cr < 2 ^ 64 ->
  Forall row_ok rows' /\ length rows' = length rows /\ length rhs' = length rows /\
  (forall z, sat rows' rhs' z -> sat rows rhs z /\ dot z (length rows) i cr = b).
Proof.
  revert i cr b. induction fuel as [|fuel IH]; intros i cr b; cbn [eliminate]; [done |]. intros E Hr Hl Hcr.
  destruct (Z.eqb_spec cr 0) as [-> | Hne].
  { destruct (b =? 0) eqn:Eb; cbn [negb] in E; [| done]. apply Z.eqb_eq in Eb. injection E as <- <-. rewrite Eb.
    split; [done |]. split; [done |]. split; [done |]. intros z Hz. split; [done | apply dot_zero]. }
  cbv zeta in E. destruct (trailingZeros_spec cr ltac:(lia)) as (_ & Hb & Hlow). set (j := trailingZeros cr) in *.
  set (i' := (i + j)%nat) in *. set (cr' := Z.shiftr cr (Z.of_nat j)) in *.
  assert (Hcr' : 0 <= cr' < 2 ^ 64) by (apply shiftr_bound; lia).
  assert (Hb0 : Z.testbit cr' 0 = true) by (unfold cr'; by rewrite Z.shiftr_spec).
  assert (Hdot : forall z m, dot z m i cr = dot z m i' cr') by (intros z m; by apply dot_shifts).
  destruct (length rows <=? i')%nat eqn:Elen; bool_prop; [done |].
  assert (Hrow : row_ok (rows !!! i')).
  { rewrite Forall_lookup in Hr. apply (Hr i'). by apply list_lookup_lookup_total_lt. }
  destruct (Z.eqb_spec (rows !!! i') 0) as [E0 | Hn0].
  - injection E as <- <-. rewrite !length_insert. split; [| split; [done | split; [done |]]].
    + apply Forall_insert; [done |]. right. split; [| done].
      assert (cr' <> 0) by (intros E; by rewrite E in Hb0). lia.
    + intros z Hz. unfold sat, sat_at in Hz. rewrite length_insert in Hz. split.
      * intros k Hk. destruct (decide (k = i')) as [-> | Hne']; [by left |]. specialize (Hz k Hk).
        rewrite !list_lookup_total_insert_ne in Hz by done. exact Hz.
      * rewrite Hdot. specialize (Hz i' Elen). rewrite !list_lookup_total_insert_eq in Hz by lia.
        destruct Hz as [Hz | Hz]; [by rewrite Hz in Hb0 | done].
  - destruct Hrow as [? | [Hrb Hrow]]; [done |].
    assert (Hx : 0 <= Z.lxor cr' (rows !!! i') < 2 ^ 64) by (apply lxor_bound; lia).
    destruct (IH _ _ _ E Hr Hl) as (H1 & H2 & H3 & H4); [by apply shiftr_bound |].
    do 3 (split; [done |]). intros z Hz. destruct (H4 z Hz) as [Hs Hd]. split; [done |].
    rewrite <- dot_shift in Hd by (done || by rewrite Z.lxor_spec, Hb0, Hrow).
    rewrite dot_lxor in Hd. destruct (Hs i' Elen) as [? | He]; [done |]. rewrite He in Hd.
    apply (f_equal (fun x => Z.lxor x (rhs !!! i'))) in Hd.
    rewrite !Z.lxor_assoc, Z.lxor_nilpotent, !Z.lxor_0_r in Hd. by rewrite Hdot.
Qed.

(** Every equation the elimination took in holds of a solution of its pivots. *)
Lemma eliminate_all_spec keys rbits seed m rows rhs rows' rhs' :
  eliminate_all keys rbits seed m rows rhs = Some (rows', rhs') ->
  Forall row_ok rows -> length rhs = length rows ->
  (forall key, key ∈ keys -> 0 <= (ribbonDerive key seed m rbits).1.2 < 2 ^ 64) ->
  Forall row_ok rows' /\ length rows' = length rows /\ length rhs' = length rows /\
  (forall z, sat rows' rhs' z -> sat rows rhs z /\
     forall key, key ∈ keys -> let '(start, coeff, fp) := ribbonDerive key seed m rbits in
       dot z (length rows) start coeff = fp).
Proof.
  revert rows rhs. induction keys as [|key keys IH]; intros rows rhs; cbn [eliminate_all]; intros E Hr Hl Hk.
  { injection E as <- <-. do 3 (split; [done |]). intros z Hz. split; [done |]. by intros key ?%not_elem_of_nil. }
  pose proof (Hk key ltac:(left)) as Hc. destruct (ribbonDerive key seed m rbits) as [[start coeff] fp] eqn:Ed. cbn in Hc.
  destruct (eliminate _ rows rhs start coeff fp) as [[r1 h1] |] eqn:E1; cbn [mbind option_bind] in E; [| done].
  destruct (eliminate_spec _ _ _ _ _ _ _ _ E1 Hr Hl Hc) as (A1 & A2 & A3 & A4).
  destruct (IH r1 h1 E A1) as (B1 & B2 & B3 & B4); [congruence | intros k Hin; apply Hk; by right |].
  rewrite A2 in *. do 3 (split; [done |]). intros z Hz. destruct (B4 z Hz) as [Hs Hall].
  destruct (A4 z Hs) as [Hs0 Hd]. split; [done |]. intros k [-> | Hin]%elem_of_cons; [by rewrite Ed | by apply Hall].
Qed.

Lemma dot_insert_before z m i x k v : (k < i)%nat -> dot (<[k := v]> z) m i x = dot z m i x.
Proof.
  intros Hk. apply xsum_ext. intros t _. unfold term. by rewrite list_lookup_total_insert_ne by lia.
Qed.

Lemma dot_insert_here z m i x v : Z.testbit x 0 = false -> dot (<[i := v]> z) m i x = dot z m i x.
Proof.
  intros H0. apply xsum_ext. intros [|t] _; unfold term; [change (Z.of_nat 0) with 0; by rewrite H0 |].
  by rewrite list_lookup_total_insert_ne by lia.
Qed.

Lemma dot_one z m i : (i < m)%nat -> dot z m i 1 = z !!! i.
Proof.
  intros Hi. unfold dot. rewrite xsum_head, (xsum_ext _ (fun _ => 0)), xsum_zero, Z.lxor_0_r.
  - unfold term. change (Z.testbit 1 (Z.of_nat 0)) with true. rewrite Nat.add_0_r. by rewrite (proj2 (Nat.ltb_lt _ _)).
  - intros t _. unfold term. replace (Z.testbit 1 (Z.of_nat (S t))) with false; [done |].
    symmetry. apply Z.bits_above_log2; [lia |]. change (Z.log2 1) with 0. lia.
Qed.

Lemma back_substitute_spec n rows rhs z :
  Forall row_ok rows -> (n <= length rows)%nat -> length z = length rows ->
  (forall i, (n <= i < length rows)%nat -> sat_at rows rhs z i) ->
  sat rows rhs (back_substitute n rows rhs z).
Proof.
  intros Hr. revert z. induction n as [|i IH]; intros z Hn Hl Hs; cbn [back_substitute]; [intros k Hk; apply Hs; lia |].
  cbv zeta. destruct (Z.eqb_spec (rows !!! i) 0) as [E0 | Hne].
  { apply IH; [lia | done |]. intros k Hk. destruct (decide (k = i)) as [-> | ?]; [by left | apply Hs; lia]. }
  assert (Hrow : row_ok (rows !!! i)).
  { rewrite Forall_lookup in Hr. apply (Hr i). by apply list_lookup_lookup_total_lt. }
  destruct Hrow as [? | [Hrb Hrow]]; [done |]. set (r := rows !!! i) in *. set (x := Z.ldiff r 1).
  assert (Er : r = Z.lxor x 1).
  { apply Z.bits_inj'. intros n Hn0. unfold x. rewrite Z.lxor_spec, Z.ldiff_spec.
    change 1 with (2 ^ 0). rewrite Z.pow2_bits_eqb by lia. destruct (Z.eqb_spec 0 n) as [<- | ?].
    - by rewrite Hrow.
    - by rewrite andb_true_r, xorb_false_r. }
  assert (Hx0 : Z.testbit x 0 = false) by (unfold x; by rewrite Z.ldiff_spec, andb_false_r).
  assert (Hxb : 0 <= x < 2 ^ 64).
  { replace x with (Z.lxor r 1) by (rewrite Er, Z.lxor_assoc, Z.lxor_nilpotent, Z.lxor_0_r; done).
    apply lxor_bound; lia. }
  rewrite band_spec by done. set (v := Z.lxor _ _).
  apply IH; [lia | by rewrite length_insert |]. intros k Hk. destruct (decide (k = i)) as [-> | Hne'].
  - right. fold r. rewrite Er at 1. rewrite dot_lxor, dot_insert_here, dot_one by (done || lia).
    rewrite list_lookup_total_insert_eq by lia. unfold v.
    rewrite (Z.lxor_comm (rhs !!! i)), <- Z.lxor_assoc, Z.lxor_nilpotent, Z.lxor_0_l. done.
  - destruct (Hs k ltac:(lia)) as [? | He]; [by left | right]. by rewrite dot_insert_before by lia.
Qed.

(** ** A built filter holds its keys *)

Lemma u64_range x : 0 <= u64 x < 2 ^ 64.
Proof. apply u64_fits. Qed.

Lemma ribbonMix_range x : 0 <= x < 2 ^ 64 -> 0 <= ribbonMix x < 2 ^ 64.
Proof.
  intros Hx. unfold ribbonMix. cbv zeta.
  apply lxor_bound; [apply u64_range | apply shiftr_bound; [apply u64_range | lia]].
Qed.

Lemma derive_coeff key seed m rbits : key_wf key -> 0 <= (ribbonDerive key seed m rbits).1.2 < 2 ^ 64.
Proof.
  intros [Hh Hp]. unfold ribbonDerive, ribbonHash. cbv zeta. cbn [fst snd].
  set (b := ribbonMix _). assert (Hb : 0 <= b < 2 ^ 64).
  { apply ribbonMix_range. apply lxor_bound; [apply lxor_bound; [exact Hp | apply u64_range] | apply u64_range]. }
  assert (Hor : 0 <= Z.lor b 1) by (apply Z.lor_nonneg; lia). split; [done |].
  apply Z.log2_lt_cancel. rewrite Z.log2_lor by lia. change (Z.log2 (2 ^ 64)) with 64. apply Z.max_lub_lt; [| done].
  destruct (decide (b = 0)) as [-> | ?]; [done |]. apply Z.log2_lt_pow2; lia.
Qed.

Lemma solveRibbon_spec keys rbits seed m z n :
  solveRibbon keys rbits seed m = Some z -> Forall key_wf keys ->
  Forall (fun key => query (mkRibbon z m rbits seed n) key = true) keys.
Proof.
  unfold solveRibbon. cbv zeta. intros E Hk. rewrite Forall_forall in Hk.
  set (zeros := replicate (Z.to_nat m) 0) in *.
  assert (Hz : Forall row_ok zeros) by (apply Forall_replicate; by left).
  destruct (eliminate_all keys rbits seed m zeros zeros) as [[rows rhs] |] eqn:Ee; cbn [mbind option_bind] in E; [| done].
  injection E as <-.
  destruct (eliminate_all_spec _ _ _ _ _ _ _ _ Ee Hz eq_refl) as (H1 & H2 & H3 & H4).
  { intros key Hin. by apply derive_coeff, Hk. }
  assert (Hlen : length zeros = Z.to_nat m) by apply length_replicate. rewrite Hlen in *.
  destruct (H4 (back_substitute (Z.to_nat m) rows rhs zeros)) as [_ Hall].
  { apply back_substitute_spec; [done | lia | lia | intros; lia]. }
  apply Forall_forall. intros key Hin. specialize (Hall key Hin). unfold query. cbn [rb_z rb_m rb_rbits rb_seed].
  pose proof (derive_coeff key seed m rbits (Hk key Hin)) as Hc.
  destruct (ribbonDerive key seed m rbits) as [[start coeff] fp]. cbn in Hc.
  rewrite band_spec, Z.lxor_0_l, Hall by done. apply Z.eqb_refl.
Qed.

Lemma try_seeds_spec n keys rbits seed m rb :
  try_seeds n keys rbits seed m = Some rb -> Forall key_wf keys ->
  Forall (fun key => query rb key = true) keys /\ rb_n rb = Z.of_nat (length keys) /\ rb_rbits rb = rbits.
Proof.
  revert seed. induction n as [|n IH]; intros seed; cbn [try_seeds]; [done |].
  destruct (solveRibbon keys rbits seed m) as [z |] eqn:E; [| apply IH].
  intros [= <-] Hk. split; [by eapply solveRibbon_spec | done].
Qed.

(** ** Bit packing (packBits, unpackBits)

    The output buffer is filled byte after byte ([packBits_length]); a uint64 holds
    the at most 23 pending bits. *)

(** The inner loop: whole bytes out of the accumulator; two turns are enough. *)
Fixpoint emit_bytes (fuel : nat) (acc nbits : Z) : list Z * Z * Z :=
  match fuel with
  | O => ([], acc, nbits)
  | S fuel =>
      if 8 <=? nbits then
        let '(out, acc', nbits') := emit_bytes fuel (Z.shiftr acc 8) (nbits - 8) in (u8 acc :: out, acc', nbits')
      else ([], acc, nbits)
  end.

Fixpoint pack_loop (z : list Z) (rbits acc nbits : Z) : list Z :=
  match z with
  | [] => if 0 <? nbits then [u8 acc] else []
  | v :: z =>
      let acc := Z.lor acc (Z.shiftl (Z.land v (2 ^ rbits - 1)) nbits) in
      let '(out, acc, nbits) := emit_bytes 3 acc (nbits + rbits) in
      out ++ pack_loop z rbits acc nbits
  end.
Definition packBits (z : list Z) (rbits : Z) : list Z := pack_loop z rbits 0 0.

(** The inner loop of unpackBits; past the end of [b] only the count grows. *)
Fixpoint fill_bits (fuel : nat) (rbits : Z) (b : list Z) (acc nbits : Z) : list Z * Z * Z :=
  match fuel with
  | O => (b, acc, nbits)
  | S fuel =>
      if nbits <? rbits then
        match b with
        | x :: b => fill_bits fuel rbits b (Z.lor acc (Z.shiftl x nbits)) (nbits + 8)
        | [] => fill_bits fuel rbits [] acc (nbits + 8)
        end
      else (b, acc, nbits)
  end.

Fixpoint unpack_loop (count : nat) (rbits : Z) (b : list Z) (acc nbits : Z) : list Z :=
  match count with
  | O => []
  | S count =>
      let '(b, acc, nbits) := fill_bits 3 rbits b acc nbits in
      u16 (Z.land acc (2 ^ rbits - 1)) :: unpack_loop count rbits b (Z.shiftr acc rbits) (nbits - rbits)
  end.
Definition unpackBits (b : list Z) (count : nat) (rbits : Z) : list Z := unpack_loop count rbits b 0 0.

(** The slots as one number, [rbits] bits each. *)
Definition digits_val (r : Z) (z : list Z) : Z := foldr (fun v acc => v + 2 ^ r * acc) 0 z.

Lemma lor_shiftl_add a b n : 0 <= n -> 0 <= a < 2 ^ n -> 0 <= b -> Z.lor a (Z.shiftl b n) = a + 2 ^ n * b.
Proof.
  intros Hn Ha Hb. rewrite Z.shiftl_mul_pow2 by done.
  assert (Hl : Z.land a (b * 2 ^ n) = 0).
  { apply Z.bits_inj'. intros i Hi. rewrite Z.land_spec, Z.bits_0. destruct (Z.lt_ge_cases i n).
    - by rewrite Z.mul_pow2_bits_low, andb_false_r by lia.
    - destruct (decide (a = 0)) as [-> | ?]; [by rewrite Z.bits_0 |].
      rewrite (Z.bits_above_log2 a i); [done | lia |]. eapply Z.lt_le_trans; [|exact H]. apply Z.log2_lt_pow2; lia. }
  rewrite <- Z.lxor_lor, <- Z.add_nocarry_lxor by done. lia.
Qed.

Lemma emit_bytes_spec fuel acc nbits :
  0 <= nbits < 8 * Z.of_nat fuel -> 0 <= acc < 2 ^ nbits ->
  let '(out, acc', nbits') := emit_bytes fuel acc nbits in
  acc = le_val out + 2 ^ (8 * Z.of_nat (length out)) * acc' /\ nbits = 8 * Z.of_nat (length out) + nbits' /\
  0 <= nbits' < 8 /\ 0 <= acc' < 2 ^ nbits'.
Proof.
  revert acc nbits. induction fuel as [|fuel IH]; intros acc nbits Hn Ha; [lia |]. cbn [emit_bytes].
  destruct (8 <=? nbits) eqn:E; bool_prop.
  2: { cbn. split; [lia |]. split; [lia |]. split; [lia | done]. }
  assert (Hs : Z.shiftr acc 8 = acc / 256) by (rewrite Z.shiftr_div_pow2 by lia; done).
  assert (Hp : 2 ^ nbits = 256 * 2 ^ (nbits - 8)).
  { change 256 with (2 ^ 8). rewrite <- Z.pow_add_r by lia. f_equal. lia. }
  specialize (IH (Z.shiftr acc 8) (nbits - 8)). destruct (emit_bytes fuel _ _) as [[out acc'] nbits'].
  destruct IH as (H1 & H2 & H3 & H4); [lia | rewrite Hs; divmod |].
  cbn [le_val length]. rewrite Hs in H1. split; [| split; [lia | done]].
  replace (8 * Z.of_nat (S (length out))) with (8 + 8 * Z.of_nat (length out)) by lia.
  rewrite Z.pow_add_r by lia. change (2 ^ 8) with 256. unfold u8. change (2 ^ 8) with 256.
  rewrite (Z.div_mod acc 256) at 1 by lia. rewrite H1. ring.
Qed.

Lemma le_val_app a b : le_val (a ++ b) = le_val a + 2 ^ (8 * Z.of_nat (length a)) * le_val b.
Proof.
  induction a as [|x a IH]; cbn [app le_val length]; [change (2 ^ (8 * Z.of_nat 0)) with 1; lia |]. rewrite IH.
  replace (8 * Z.of_nat (S (length a))) with (8 + 8 * Z.of_nat (length a)) by lia.
  rewrite Z.pow_add_r by lia. change (2 ^ 8) with 256. ring.
Qed.

Lemma pack_loop_spec z r acc nbits :
  1 <= r <= 16 -> Forall (fits r) z -> 0 <= nbits < 8 -> 0 <= acc < 2 ^ nbits ->
  le_val (pack_loop z r acc nbits) = acc + 2 ^ nbits * digits_val r z /\
  Z.of_nat (length (pack_loop z r acc nbits)) = (nbits + Z.of_nat (length z) * r + 7) / 8.
Proof.
  intros Hr Hz. revert acc nbits. induction Hz as [|v z Hv _ IH]; intros acc nbits Hn Ha; cbn [pack_loop digits_val foldr].
  - destruct (0 <? nbits) eqn:E; bool_prop.
    + assert (2 ^ nbits <= 2 ^ 7) by (apply Z.pow_le_mono_r; lia). change (2 ^ 7) with 128 in *.
      cbn [le_val length]. unfold u8. rewrite Z.mod_small by (change (2 ^ 8) with 256; lia). split; [lia | divmod].
    + assert (nbits = 0) as -> by lia. change (2 ^ 0) with 1 in *. split; [simpl; lia | done].
  - assert (Ev : Z.land v (2 ^ r - 1) = v).
    { change (2 ^ r - 1) with (Z.pred (2 ^ r)). rewrite <- Z.ones_equiv, Z.land_ones by lia. by apply Z.mod_small. }
    unfold fits in Hv. rewrite Ev, lor_shiftl_add by lia. cbv zeta.
    assert (Hb : 0 <= acc + 2 ^ nbits * v < 2 ^ (nbits + r)) by (rewrite Z.pow_add_r by lia; nia).
    pose proof (emit_bytes_spec 3 (acc + 2 ^ nbits * v) (nbits + r) ltac:(lia) Hb) as He.
    destruct (emit_bytes 3 _ _) as [[out acc'] nbits']. destruct He as (H1 & H2 & H3 & H4).
    destruct (IH acc' nbits' H3 H4) as [I1 I2]. rewrite le_val_app, length_app, I1. split.
    + fold (digits_val r z). rewrite Z.mul_add_distr_l, Z.add_assoc, <- H1.
      rewrite Z.mul_assoc, <- Z.pow_add_r, <- H2, Z.pow_add_r by lia. ring.
    + rewrite Nat2Z.inj_add, I2. cbn [length]. rewrite Nat2Z.inj_succ. divmod.
Qed.

(** The low [r] bits of a number, then the next, [n] times. *)
Fixpoint digits (r : Z) (n : nat) (V : Z) : list Z :=
  match n with O => [] | S n => V mod 2 ^ r :: digits r n (V / 2 ^ r) end.

Lemma digits_of_val r z : 0 <= r -> Forall (fits r) z -> digits r (length z) (digits_val r z) = z.
Proof.
  intros Hr. induction 1 as [|v z Hv _ IH]; [done |]. cbn [length digits digits_val foldr]. fold (digits_val r z).
  pose proof (Z.pow_pos_nonneg 2 r ltac:(lia) Hr). unfold fits in Hv. f_equal.
  - rewrite Z.mul_comm, Z.mod_add, Z.mod_small by lia. done.
  - rewrite Z.mul_comm, Z.div_add, Z.div_small, Z.add_0_l by lia. done.
Qed.

Lemma fill_bits_spec fuel r b acc nbits :
  0 <= r -> Forall byte_ok b -> 0 <= nbits -> r <= nbits + 8 * Z.of_nat fuel -> 0 <= acc < 2 ^ nbits ->
  let '(b', acc', nbits') := fill_bits fuel r b acc nbits in
  acc' + 2 ^ nbits' * le_val b' = acc + 2 ^ nbits * le_val b /\ Forall byte_ok b' /\ r <= nbits' /\ 0 <= acc' < 2 ^ nbits'.
Proof.
  intros Hr. revert b acc nbits. induction fuel as [|fuel IH]; intros b acc nbits Hb Hn Hf Ha; cbn [fill_bits].
  { split; [done |]. split; [done |]. split; [lia | done]. }
  destruct (nbits <? r) eqn:E; bool_prop; [| by split].
  assert (Hp : 2 ^ (nbits + 8) = 2 ^ nbits * 256) by (rewrite Z.pow_add_r by lia; done).
  destruct Hb as [|x b Hx Hb].
  - specialize (IH [] acc (nbits + 8) ltac:(constructor)). destruct (fill_bits fuel _ _ _ _) as [[b' acc'] nbits'].
    destruct IH as (H1 & H2 & H3 & H4); [lia | lia | lia |]. split; [| done]. rewrite H1. cbn [le_val]. lia.
  - unfold byte_ok, fits in Hx. change (2 ^ 8) with 256 in Hx. rewrite lor_shiftl_add by lia.
    specialize (IH b (acc + 2 ^ nbits * x) (nbits + 8) Hb). destruct (fill_bits fuel _ _ _ _) as [[b' acc'] nbits'].
    destruct IH as (H1 & H2 & H3 & H4); [lia | lia | nia |]. split; [| done]. rewrite H1, Hp. cbn [le_val]. ring.
Qed.

Lemma unpack_loop_spec count r b acc nbits :
  1 <= r <= 16 -> Forall byte_ok b -> 0 <= nbits -> 0 <= acc < 2 ^ nbits ->
  unpack_loop count r b acc nbits = digits r count (acc + 2 ^ nbits * le_val b).
Proof.
  intros Hr. revert b acc nbits. induction count as [|count IH]; intros b acc nbits Hb Hn Ha; [done |].
  cbn [unpack_loop digits]. pose proof (fill_bits_spec 3 r b acc nbits ltac:(lia) Hb Hn ltac:(lia) Ha) as Hf.
  destruct (fill_bits 3 r b acc nbits) as [[b' acc'] nbits']. destruct Hf as (H1 & H2 & H3 & H4).
  pose proof (Z.pow_pos_nonneg 2 r ltac:(lia) ltac:(lia)) as Hp.
  assert (H16 : 2 ^ r <= 2 ^ 16) by (apply Z.pow_le_mono_r; lia).
  assert (Ep : 2 ^ nbits' = 2 ^ r * 2 ^ (nbits' - r)) by (rewrite <- Z.pow_add_r by lia; f_equal; lia).
  rewrite <- H1. f_equal.
  - change (2 ^ r - 1) with (Z.pred (2 ^ r)). rewrite <- Z.ones_equiv, Z.land_ones by lia.
    pose proof (Z.mod_pos_bound acc' (2 ^ r) Hp). rewrite u16_small by (unfold fits; lia).
    rewrite Ep, <- Z.mul_assoc, (Z.mul_comm (2 ^ r)), Z.mod_add by lia. done.
  - rewrite Z.shiftr_div_pow2 by lia. rewrite IH; [| done | lia |].
    + rewrite Ep, <- Z.mul_assoc, (Z.mul_comm (2 ^ r)), Z.div_add by lia. done.
    + split; [apply Z.div_pos; lia |]. apply Z.div_lt_upper_bound; lia.
Qed.

Lemma emit_bytes_ok fuel acc nbits : Forall byte_ok (emit_bytes fuel acc nbits).1.1.
Proof.
  revert acc nbits. induction fuel as [|fuel IH]; intros acc nbits; cbn [emit_bytes]; [constructor |].
  case_match; [| constructor]. specialize (IH (Z.shiftr acc 8) (nbits - 8)).
  destruct (emit_bytes fuel _ _) as [[out a] n]. constructor; [apply u8_fits | exact IH].
Qed.

Lemma pack_loop_ok z r acc nbits : Forall byte_ok (pack_loop z r acc nbits).
Proof.
  revert acc nbits. induction z as [|v z IH]; intros acc nbits; cbn [pack_loop].
  - case_match; [| constructor]. constructor; [apply u8_fits | constructor].
  - cbv zeta. pose proof (emit_bytes_ok 3 (Z.lor acc (Z.shiftl (Z.land v (2 ^ r - 1)) nbits)) (nbits + r)) as He.
    destruct (emit_bytes 3 _ _) as [[out a] n]. apply Forall_app. split; [exact He | apply IH].
Qed.

Lemma unpack_pack z r : 1 <= r <= 16 -> Forall (fits r) z -> unpackBits (packBits z r) (length z) r = z.
Proof.
  intros Hr Hz. unfold unpackBits, packBits. rewrite unpack_loop_spec by (done || apply pack_loop_ok).
  destruct (pack_loop_spec z r 0 0 Hr Hz ltac:(lia) ltac:(done)) as [-> _].
  change (2 ^ 0) with 1. rewrite !Z.mul_1_l, !Z.add_0_l. apply digits_of_val; [lia | done].
Qed.

Lemma packBits_length z r : 1 <= r <= 16 -> Forall (fits r) z ->
  Z.of_nat (length (packBits z r)) = (Z.of_nat (length z) * r + 7) / 8.
Proof.
  intros Hr Hz. unfold packBits. by destruct (pack_loop_spec z r 0 0 Hr Hz ltac:(lia) ltac:(done)) as [_ ->].
Qed.

(** ** The filter blobs *)

Definition filterBlobVersion : Z := 1.
Definition filterKindBlockedBloom : Z := 0.
Definition filterKindRibbon : Z := 1.
Definition filterBlobHeaderSize : nat := 8.

Definition bloom_marshal (f : bloom) : list Z :=
  [filterBlobVersion; filterKindBlockedBloom; u8 (Z.of_nat (bl_k f)); 0; 0; 0; 0; 0] ++
  le_bytes 8 (bl_nBlock f) ++ le_bytes 8 (bl_n f) ++ le_bytes 8 (bl_cap f) ++
  mjoin (le_bytes 8 <$> bl_blocks f).

Definition ribbon_marshal (rb : ribbon) : list Z :=
  [filterBlobVersion; filterKindRibbon; u8 (rb_rbits rb); 0] ++ le_bytes 4 (rb_seed rb) ++
  le_bytes 8 (rb_n rb) ++ le_bytes 8 (rb_m rb) ++ packBits (rb_z rb) (rb_rbits rb).

Definition unmarshalBloom (b : list Z) : res bloom :=
  _ ← ensure (filterBlobHeaderSize + 24 <=? length b)%nat ErrBadBlob;
  let k := le_at b 2 1 in
  let nBlock := le_at b 8 8 in
  let n := le_at b 16 8 in
  let cap := le_at b 24 8 in
  let body := drop (filterBlobHeaderSize + 24) b in
  let words := i64 (i64 nBlock * blockWords) in
  _ ← ensure (Z.of_nat (length body) =? i64 (words * 8)) ErrBadBlob;
  _ ← ensure (make_ok words 8) GoPanic;
  let blocks := (fun i => le_at body (i * 8) 8) <$> seq 0 (Z.to_nat words) in
  Ok (mkBloom blocks nBlock (Z.to_nat k) n cap).

(** The byte count of the body is computed in int, with Go's division. *)
Definition unmarshalRibbon (b : list Z) : res ribbon :=
  _ ← ensure (ribbonHeaderSize <=? length b)%nat ErrBadBlob;
  let rbits := le_at b 2 1 in
  _ ← ensure (negb ((rbits =? 0) || (maxRibbonRBits <? rbits))) ErrBadBlob;
  let seed := le_at b 4 4 in
  let n := le_at b 8 8 in
  let m := i64 (le_at b 16 8) in
  _ ← ensure (negb ((m <=? 0) || (m <? ribbonWidth))) ErrBadBlob;
  let body := drop ribbonHeaderSize b in
  _ ← ensure (Z.of_nat (length body) =? Z.quot (i64 (i64 (m * rbits) + 7)) 8) ErrBadBlob;
  _ ← ensure (make_ok m 2) GoPanic;
  Ok (mkRibbon (unpackBits body (Z.to_nat m) rbits) m rbits seed n).

Inductive ResidentFilter := RBloom (f : bloom) | RRibbon (rb : ribbon).

Definition UnmarshalFilter (b : list Z) : res ResidentFilter :=
  _ ← ensure (negb ((length b <? 2)%nat || negb (b !!! 0%nat =? filterBlobVersion))) ErrBadBlob;
  let kind := b !!! 1%nat in
  if kind =? filterKindBlockedBloom then f ← unmarshalBloom b; Ok (RBloom f)
  else if kind =? filterKindRibbon then rb ← unmarshalRibbon b; Ok (RRibbon rb)
  else Err ErrBadBlob.

(** The probe of a filter that came from bytes: dividing by no blocks and reading past
    the blocks panic. *)
Fixpoint probe_loop (blocks : list Z) (ps : list (nat * Z)) : res bool :=
  match ps with
  | [] => Ok true
  | p :: ps =>
      match blocks !! p.1 with
      | None => Err GoPanic
      | Some w => if Z.land w (Z.shiftl 1 p.2) =? 0 then Ok false else probe_loop blocks ps
      end
  end.

Definition resident_contains (r : ResidentFilter) (key : URLKey) : res bool :=
  match r with
  | RBloom f =>
      _ ← ensure (negb (bl_nBlock f =? 0)) GoPanic;
      probe_loop (bl_blocks f) (probe f key <$> seq 0 (bl_k f))
  | RRibbon rb => Ok (query rb key)
  end.

Definition resident_len (r : ResidentFilter) : Z :=
  match r with RBloom f => bl_n f | RRibbon rb => rb_n rb end.

Definition BuildRibbonFilter (m0 : Z) (keys : list URLKey) (rbits : Z) : option (list Z) :=
  rb ← buildRibbon m0 keys rbits; Some (ribbon_marshal rb).

(** *** Blobs read back *)

Record bloom_ok (f : bloom) : Prop := {
  bo_wf : bloom_wf f; bo_small : bl_nBlock f < 2 ^ 42; bo_k : (bl_k f <= 16)%nat;
  bo_n : fits 64 (bl_n f); bo_cap : fits 64 (bl_cap f); bo_words : Forall (fits 64) (bl_blocks f) }.

Record ribbon_ok (rb : ribbon) : Prop := {
  ro_m : 64 <= rb_m rb < 2 ^ 46; ro_len : length (rb_z rb) = Z.to_nat (rb_m rb);
  ro_rbits : 1 <= rb_rbits rb <= 16; ro_z : Forall (fits (rb_rbits rb)) (rb_z rb);
  ro_seed : fits 32 (rb_seed rb); ro_n : fits 64 (rb_n rb) }.

Lemma words_back (ws : list Z) :
  Forall (fits 64) ws ->
  (fun i => le_at (mjoin (le_bytes 8 <$> ws)) (i * 8) 8) <$> seq 0 (length ws) = ws.
Proof.
  induction 1 as [|w ws Hw _ IH]; [done |]. rewrite fmap_cons.
  change (mjoin (le_bytes 8 w :: (le_bytes 8 <$> ws))) with (le_bytes 8 w ++ mjoin (le_bytes 8 <$> ws)).
  cbn [length seq]. rewrite fmap_cons. f_equal.
  - apply le_at_here. exact Hw.
  - rewrite <- fmap_S_seq, <- list_fmap_compose. rewrite <- IH at 2. apply list_fmap_ext. intros i x _. cbn [compose].
    rewrite le_at_skip by (rewrite le_bytes_length; lia). f_equal. rewrite le_bytes_length. lia.
Qed.

Lemma words_length (ws : list Z) : length (mjoin (le_bytes 8 <$> ws)) = (length ws * 8)%nat.
Proof.
  induction ws as [|w ws IH]; [done |]. rewrite fmap_cons.
  change (length (le_bytes 8 w ++ mjoin (le_bytes 8 <$> ws)) = (length (w :: ws) * 8)%nat).
  rewrite length_app, IH, le_bytes_length. simpl. lia.
Qed.

Lemma le_at_byte a b x rest i : length a = i -> b = a ++ x :: rest -> le_at b i 1 = x.
Proof.
  intros <- ->. rewrite le_at_skip, Nat.sub_diag by lia. change (x + 256 * 0 = x). lia.
Qed.

Lemma bloom_fields f : bloom_ok f ->
  let b := bloom_marshal f in
  length b = (32 + length (bl_blocks f) * 8)%nat /\ le_at b 2 1 = Z.of_nat (bl_k f) /\
  le_at b 8 8 = bl_nBlock f /\ le_at b 16 8 = bl_n f /\ le_at b 24 8 = bl_cap f /\
  drop 32 b = mjoin (le_bytes 8 <$> bl_blocks f).
Proof.
  intros [[Hn Hl] Hs Hk Hnn Hc Hw] b. assert (Hnf : fits 64 (bl_nBlock f)) by (unfold fits; lia).
  unfold b, bloom_marshal. set (head := [_; _; _; _; _; _; _; _]).
  assert (Hh : length head = 8%nat) by done.
  split; [| split; [| split; [| split; [| split]]]].
  - rewrite !length_app, !le_bytes_length, words_length, Hh. lia.
  - unfold head. cbn [app]. erewrite (le_at_byte [filterBlobVersion; filterKindBlockedBloom] _ _ _ 2); [| reflexivity | reflexivity].
    unfold u8. apply Z.mod_small. change (2 ^ 8) with 256. lia.
  - rewrite le_at_skip by lia. rewrite Hh. fields. done.
  - rewrite (le_at_skip head) by lia. rewrite Hh. fields. done.
  - rewrite (le_at_skip head) by lia. rewrite Hh. fields. done.
  - rewrite !(assoc_L (++)). apply drop_app_exact. rewrite !length_app, !le_bytes_length, Hh. lia.
Qed.

Lemma bloom_blob_ok f : bloom_ok f -> UnmarshalFilter (bloom_marshal f) = Ok (RBloom f).
Proof.
  intros Hf. destruct (bloom_fields f Hf) as (L & F1 & F2 & F3 & F4 & F5). destruct Hf as [[Hn Hl] Hs Hk Hnn Hc Hw].
  unfold UnmarshalFilter. rewrite L. change ((32 + length (bl_blocks f) * 8 <? 2)%nat) with false.
  change (bloom_marshal f !!! 0%nat) with filterBlobVersion. change (bloom_marshal f !!! 1%nat) with filterKindBlockedBloom.
  rewrite Z.eqb_refl. cbn [negb orb ensure mbind res_bind]. cbv zeta. rewrite Z.eqb_refl.
  unfold unmarshalBloom, filterBlobHeaderSize. rewrite L. cbn [Nat.add Nat.leb ensure mbind res_bind]. cbv zeta.
  rewrite F1, F2, F3, F4, F5, words_length. unfold blockWords in *.
  rewrite (i64_small (bl_nBlock f)) by lia. rewrite (i64_small (bl_nBlock f * 8)) by lia.
  rewrite i64_small by lia. rewrite (proj2 (Z.eqb_eq _ _)) by lia. cbn [ensure mbind res_bind].
  unfold make_ok. rewrite (proj2 (Z.leb_le 0 _)), (proj2 (Z.leb_le _ (2 ^ 48))) by lia. cbn [andb ensure mbind res_bind].
  replace (Z.to_nat (bl_nBlock f * 8)) with (length (bl_blocks f)) by lia.
  rewrite words_back, Nat2Z.id by done. by destruct f.
Qed.

Lemma ribbon_fields rb : ribbon_ok rb ->
  let b := ribbon_marshal rb in
  length b = (24 + length (packBits (rb_z rb) (rb_rbits rb)))%nat /\ le_at b 2 1 = rb_rbits rb /\
  le_at b 4 4 = rb_seed rb /\ le_at b 8 8 = rb_n rb /\ le_at b 16 8 = rb_m rb /\
  drop 24 b = packBits (rb_z rb) (rb_rbits rb).
Proof.
  intros [Hm Hl Hr Hz Hs Hn] b. assert (Hmf : fits 64 (rb_m rb)) by (unfold fits; lia).
  unfold b, ribbon_marshal. set (head := [_; _; _; _]). assert (Hh : length head = 4%nat) by done.
  split; [| split; [| split; [| split; [| split]]]].
  - rewrite !length_app, !le_bytes_length, Hh. lia.
  - unfold head. cbn [app]. erewrite (le_at_byte [filterBlobVersion; filterKindRibbon] _ _ _ 2); [| reflexivity | reflexivity].
    unfold u8. apply Z.mod_small. change (2 ^ 8) with 256. lia.
  - rewrite (le_at_skip head) by lia. rewrite Hh. fields. done.
  - rewrite (le_at_skip head) by lia. rewrite Hh. fields. done.
  - rewrite (le_at_skip head) by lia. rewrite Hh. fields. done.
  - rewrite !(assoc_L (++)). apply drop_app_exact. rewrite !length_app, !le_bytes_length, Hh. lia.
Qed.

Lemma ribbon_blob_ok rb : ribbon_ok rb -> UnmarshalFilter (ribbon_marshal rb) = Ok (RRibbon rb).
Proof.
  intros Hf. destruct (ribbon_fields rb Hf) as (L & F1 & F2 & F3 & F4 & F5). destruct Hf as [Hm Hl Hr Hz Hs Hn].
  unfold UnmarshalFilter. rewrite L. cbn [Nat.add Nat.ltb Nat.leb orb].
  change (ribbon_marshal rb !!! 0%nat) with filterBlobVersion. change (ribbon_marshal rb !!! 1%nat) with filterKindRibbon.
  rewrite Z.eqb_refl. cbn [negb orb ensure mbind res_bind]. cbv zeta.
  change (filterKindRibbon =? filterKindBlockedBloom) with false. rewrite Z.eqb_refl.
  unfold unmarshalRibbon, ribbonHeaderSize, ribbonWidth, maxRibbonRBits. rewrite L. cbn [Nat.add Nat.leb ensure mbind res_bind]. cbv zeta.
  rewrite F1, F2, F3, F4, F5. rewrite (i64_small (rb_m rb)) by lia.
  rewrite (proj2 (Z.eqb_neq (rb_rbits rb) 0)), (proj2 (Z.ltb_ge 16 (rb_rbits rb))) by lia. cbn [orb negb ensure mbind res_bind].
  rewrite (proj2 (Z.leb_gt (rb_m rb) 0)), (proj2 (Z.ltb_ge (rb_m rb) 64)) by lia. cbn [orb negb ensure mbind res_bind].
  rewrite (i64_small (rb_m rb * _)), i64_small by nia. rewrite packBits_length by done.
  rewrite Hl, Z2Nat.id, Z.quot_div_nonneg by nia. rewrite Z.eqb_refl. cbn [ensure mbind res_bind].
  unfold make_ok. rewrite (proj2 (Z.leb_le 0 _)), (proj2 (Z.leb_le _ (2 ^ 48))) by lia. cbn [andb ensure mbind res_bind].
  rewrite <- Hl, unpack_pack by done. by destruct rb.
Qed.

(** *** The slots of a built filter fit *)

Lemma fits_lxor n a b : 0 <= n -> fits n a -> fits n b -> fits n (Z.lxor a b).
Proof.
  intros Hn Ha Hb. unfold fits in *. split; [apply Z.lxor_nonneg; lia |].
  destruct (decide (Z.lxor a b = 0)) as [-> | Hne]; [apply Z.pow_pos_nonneg; lia |].
  assert (Hx : 0 <= Z.lxor a b) by (apply Z.lxor_nonneg; lia). apply Z.log2_lt_pow2; [lia |].
  assert (Hlog : forall x, 0 < x < 2 ^ n -> Z.log2 x < n) by (intros x Hx0; apply Z.log2_lt_pow2; lia).
  destruct (decide (a = 0)) as [-> | Ha0]; [rewrite Z.lxor_0_l in *; apply Hlog; lia |].
  destruct (decide (b = 0)) as [-> | Hb0]; [rewrite Z.lxor_0_r in *; apply Hlog; lia |].
  eapply Z.le_lt_trans; [apply Z.log2_lxor; lia |]. apply Z.max_lub_lt; apply Hlog; lia.
Qed.

Lemma fits_zero n : 0 <= n -> fits n 0.
Proof. intros Hn. pose proof (Z.pow_pos_nonneg 2 n ltac:(lia) Hn). unfold fits. lia. Qed.

Lemma lookup_total_fits r (z : list Z) i : 1 <= r -> Forall (fits r) z -> fits r (z !!! i).
Proof.
  intros Hr Hz. destruct (z !! i) as [x |] eqn:Hx.
  - rewrite (list_lookup_total_correct _ _ _ Hx). by eapply Forall_lookup_1.
  - rewrite list_lookup_total_alt, Hx. change (fits r 1). assert (2 ^ 1 <= 2 ^ r) by (apply Z.pow_le_mono_r; lia). unfold fits. lia.
Qed.

Lemma band_loop_fits fuel z m i mask v r :
  1 <= r -> Forall (fits r) z -> fits r v -> fits r (band_loop fuel z m i mask v).
Proof.
  intros Hr Hz. revert mask v. induction fuel as [|fuel IH]; intros mask v Hv; cbn [band_loop]; [done |].
  case_match; [done |]. cbv zeta. apply IH. case_match; [| done]. apply fits_lxor; [lia | done |].
  by apply lookup_total_fits.
Qed.

Lemma back_substitute_fits n rows rhs z r :
  1 <= r -> Forall (fits r) rhs -> Forall (fits r) z ->
  Forall (fits r) (back_substitute n rows rhs z) /\ length (back_substitute n rows rhs z) = length z.
Proof.
  intros Hr Hh. revert z. induction n as [|i IH]; intros z Hz; cbn [back_substitute]; [done |]. cbv zeta.
  case_match; [by apply IH |]. match goal with |- context [back_substitute i rows rhs ?z1] => destruct (IH z1) as [H1 H2] end.
  - apply Forall_insert; [done |]. apply band_loop_fits; [done | done | by apply lookup_total_fits].
  - split; [done |]. by rewrite H2, length_insert.
Qed.

Lemma eliminate_fits fuel rows rhs i cr b rows' rhs' r :
  eliminate fuel rows rhs i cr b = Some (rows', rhs') -> 1 <= r -> Forall (fits r) rhs -> fits r b -> Forall (fits r) rhs'.
Proof.
  revert i cr b. induction fuel as [|fuel IH]; intros i cr b; cbn [eliminate]; [done |]. intros E Hr Hh Hb.
  destruct (cr =? 0); [destruct (b =? 0); cbn [negb] in E; congruence |]. cbv zeta in E.
  destruct (_ <=? _)%nat; [done |]. destruct (_ =? 0).
  - injection E as _ <-. by apply Forall_insert.
  - eapply IH; [exact E | done | done |]. apply fits_lxor; [lia | done | by apply lookup_total_fits].
Qed.

Lemma derive_fp_fits key seed m r : 1 <= r <= 16 -> key_wf key -> fits r (ribbonDerive key seed m r).2.
Proof.
  intros Hr [Hh Hp]. unfold ribbonDerive, ribbonHash. cbv zeta. cbn [fst snd].
  set (x := ribbonMix (Z.lxor _ (u64 (Z.shiftl _ 1)))). assert (Hx : 0 <= x < 2 ^ 64).
  { apply ribbonMix_range. apply lxor_bound; [| apply u64_range]. apply ribbonMix_range.
    apply lxor_bound; [apply lxor_bound; [exact Hh | apply u64_range] | apply u64_range]. }
  assert (Hs : 0 <= Z.shiftr x (64 - r) < 2 ^ r).
  { rewrite Z.shiftr_div_pow2 by lia. pose proof (Z.pow_pos_nonneg 2 (64 - r) ltac:(lia) ltac:(lia)).
    split; [apply Z.div_pos; lia |]. apply Z.div_lt_upper_bound; [done |].
    rewrite <- Z.pow_add_r by lia. replace (64 - r + r) with 64 by lia. lia. }
  assert (2 ^ r <= 2 ^ 16) by (apply Z.pow_le_mono_r; lia).
  rewrite u16_small by (unfold fits; lia). exact Hs.
Qed.

Lemma eliminate_all_fits keys r seed m rows rhs rows' rhs' :
  eliminate_all keys r seed m rows rhs = Some (rows', rhs') -> 1 <= r <= 16 -> Forall key_wf keys ->
  Forall (fits r) rhs -> Forall (fits r) rhs'.
Proof.
  intros E Hr Hk. revert rows rhs E. induction Hk as [|key keys Hkey _ IH]; intros rows rhs; cbn [eliminate_all]; [congruence |].
  intros E Hh. pose proof (derive_fp_fits key seed m r Hr Hkey) as Hf.
  destruct (ribbonDerive key seed m r) as [[start coeff] fp]. cbn in Hf.
  destruct (eliminate _ rows rhs start coeff fp) as [[r1 h1] |] eqn:E1; cbn [mbind option_bind] in E; [| done].
  apply (IH r1 h1 E). eapply eliminate_fits; [exact E1 | lia | done | done].
Qed.

Lemma try_seeds_ok n keys r seed m rb :
  try_seeds n keys r seed m = Some rb -> Forall key_wf keys -> 1 <= r <= 16 -> 64 <= m < 2 ^ 46 ->
  0 <= seed -> seed + Z.of_nat n <= 2 ^ 32 -> Z.of_nat (length keys) < 2 ^ 64 -> ribbon_ok rb.
Proof.
  revert seed. induction n as [|n IH]; intros seed; cbn [try_seeds]; [done |]. intros E Hk Hr Hm Hs Hsn Hn.
  destruct (solveRibbon keys r seed m) as [z |] eqn:Es; [| apply (IH (seed + 1)); done || lia].
  injection E as <-. unfold solveRibbon in Es. cbv zeta in Es. set (zeros := replicate (Z.to_nat m) 0) in *.
  destruct (eliminate_all keys r seed m zeros zeros) as [[rows rhs] |] eqn:Ee; cbn [mbind option_bind] in Es; [| done].
  injection Es as <-. assert (Hz : Forall (fits r) zeros) by (apply Forall_replicate, fits_zero; lia).
  pose proof (eliminate_all_fits _ _ _ _ _ _ _ _ Ee Hr Hk Hz) as Hh.
  destruct (back_substitute_fits (Z.to_nat m) rows rhs zeros r ltac:(lia) Hh Hz) as [H1 H2].
  split; cbn [rb_m rb_z rb_rbits rb_seed rb_n]; try done.
  - rewrite H2. apply length_replicate.
  - unfold fits. lia.
  - unfold fits. lia.
Qed.

Lemma try_sizes_ok n keys r m rb :
  try_sizes n keys r m = Some rb -> Forall key_wf keys -> 1 <= r <= 16 -> 128 <= m ->
  m * 2 ^ Z.of_nat n < 2 ^ 46 -> Z.of_nat (length keys) < 2 ^ 64 ->
  ribbon_ok rb /\ Forall (fun key => query rb key = true) keys /\ rb_n rb = Z.of_nat (length keys).
Proof.
  revert m. induction n as [|n IH]; intros m; cbn [try_sizes]; [done |]. intros E Hk Hr Hm Hb Hn.
  rewrite Nat2Z.inj_succ, Z.pow_succ_r in Hb by lia. pose proof (Z.pow_pos_nonneg 2 (Z.of_nat n) ltac:(lia) ltac:(lia)).
  destruct (try_seeds maxRibbonSeeds keys r 0 m) as [rb' |] eqn:Es.
  - injection E as <-. destruct (try_seeds_spec _ _ _ _ _ _ Es Hk) as (H1 & H2 & _). split; [| done].
    eapply try_seeds_ok; [exact Es | done | done | nia | lia | | done]. unfold maxRibbonSeeds. lia.
  - assert (0 <= m / 20 + ribbonWidth <= m) by (unfold ribbonWidth; split; divmod).
    apply (IH _ E); [done | done | lia | nia | done].
Qed.

(** *** The filter promise across the blob *)

Lemma probe_loop_spec blocks ps :
  Forall (in_blocks blocks) ps -> probe_loop blocks ps = Ok (forallb (fun p => negb (bit_clear blocks p)) ps).
Proof.
  induction 1 as [|p ps Hp _ IH]; [done |]. cbn [probe_loop forallb]. unfold bit_clear at 1.
  destruct Hp as [Hp _]. destruct (lookup_lt_is_Some_2 _ _ Hp) as [w Hw].
  rewrite Hw, (list_lookup_total_correct _ _ _ Hw). by destruct (_ =? 0).
Qed.

Lemma resident_bloom f key : bloom_wf f -> resident_contains (RBloom f) key = Ok (maybeSeen f key).
Proof.
  intros Hf. cbn [resident_contains]. pose proof Hf as [Hn _].
  rewrite (proj2 (Z.eqb_neq _ 0)) by lia. cbn [negb ensure mbind res_bind].
  rewrite probe_loop_spec by (by apply probes_in). f_equal. unfold maybeSeen.
  induction (seq 0 (bl_k f)) as [|i l IH]; [done |]. cbn. by rewrite IH.
Qed.

(** C38: The ribbon snapshot keeps the seen-set's one-sided promise: when
    BuildRibbonFilter succeeds, on at most 2^40 slots and fewer than 2^64 keys, the
    blob it returns is accepted by UnmarshalFilter, the filter read back reports the
    number of keys it was built over, and probing it answers true, without a panic,
    for every one of them. *)
Theorem ribbon_blob_holds_keys m0 keys rbits blob :
  BuildRibbonFilter m0 keys rbits = Some blob ->
  Forall key_wf keys -> 1 <= rbits <= 16 -> m0 <= 2 ^ 40 -> Z.of_nat (length keys) < 2 ^ 64 ->
  exists r, UnmarshalFilter blob = Ok r /\ resident_len r = Z.of_nat (length keys) /\
            forall key, key ∈ keys -> resident_contains r key = Ok true.
Proof.
  unfold BuildRibbonFilter, buildRibbon. intros E Hk Hr Hm Hn.
  destruct (try_sizes _ _ _ _) as [rb |] eqn:Et; cbn [mbind option_bind] in E; [| done]. injection E as <-.
  destruct (try_sizes_ok _ _ _ _ _ Et Hk Hr) as (H1 & H2 & H3); [unfold ribbonWidth; lia | | done |].
  { unfold ribbonWidth, maxRibbonGrows. change (2 ^ Z.of_nat 4) with 16. lia. }
  exists (RRibbon rb). split; [by apply ribbon_blob_ok |]. split; [exact H3 |].
  intros key Hin. cbn [resident_contains]. rewrite Forall_forall in H2. by rewrite (H2 key Hin).
Qed.

Example ribbon_blob_holds_keys_witness :
  let keys := [mkKey 1 2; mkKey 3 4; mkKey (2 ^ 64 - 1) 5] in
  exists blob r, BuildRibbonFilter 4 keys 8 = Some blob /\ UnmarshalFilter blob = Ok r /\
                 forall key, key ∈ keys -> resident_contains r key = Ok true.
Proof.
  intros keys. destruct (BuildRibbonFilter 4 keys 8) as [blob |] eqn:E; [| exfalso; vm_compute in E; discriminate].
  destruct (ribbon_blob_holds_keys 4 keys 8 blob E) as (r & H1 & _ & H2);
    [repeat (constructor; [split; (split; [vm_compute; discriminate | reflexivity]) |]); constructor
    | lia | lia | reflexivity |].
  exists blob, r. split; [reflexivity | split; assumption].
Defined.

(** A Bloom filter that has taken in any keys round-trips through its blob:
    UnmarshalFilter (marshal f) is the same filter, and the filter read back answers
    MaybeContains exactly as the original does, without a panic. *)
Theorem bloom_blob_roundtrip f :
  bloom_ok f ->
  UnmarshalFilter (bloom_marshal f) = Ok (RBloom f) /\
  forall key, resident_contains (RBloom f) key = Ok (maybeSeen f key).
Proof. intros Hf. split; [by apply bloom_blob_ok | intros key; apply resident_bloom, Hf]. Qed.

Definition witness_bloom : bloom := bloom_add (newFilter 3 30 7) (mkKey 11 13).

Lemma witness_bloom_ok : bloom_ok witness_bloom.
Proof.
  split.
  - apply bloom_add_wf, newFilter_wf. lia.
  - reflexivity.
  - cbn [bl_k witness_bloom bloom_add newFilter]. lia.
  - split; [discriminate | reflexivity].
  - split; [discriminate | reflexivity].
  - assert (E : forallb (fun x => (0 <=? x) && (x <? 2 ^ 64)) (bl_blocks witness_bloom) = true) by (vm_compute; reflexivity).
    rewrite forallb_forall in E. apply List.Forall_forall. intros x Hx. specialize (E x Hx).
    bool_prop. unfold fits. lia.
Qed.

Example bloom_blob_roundtrip_witness :
  UnmarshalFilter (bloom_marshal witness_bloom) = Ok (RBloom witness_bloom) /\
  resident_contains (RBloom witness_bloom) (mkKey 11 13) = Ok true.
Proof.
  destruct (bloom_blob_roundtrip witness_bloom witness_bloom_ok) as [H1 H2].
  split; [exact H1 | exact (H2 (mkKey 11 13))].
Defined.

(** *** Malformed blobs *)

(** A kind-0 blob whose header says it has no blocks, and a kind-1 blob whose slot
    count overflows the byte count. *)
Definition empty_bloom_blob (k : Z) : list Z :=
  [filterBlobVersion; filterKindBlockedBloom; k; 0; 0; 0; 0; 0] ++ le_bytes 8 0 ++ le_bytes 8 0 ++ le_bytes 8 0.
Definition wide_ribbon_blob : list Z :=
  [filterBlobVersion; filterKindRibbon; 4; 0] ++ le_bytes 4 0 ++ le_bytes 8 0 ++ le_bytes 8 (2 ^ 62).

(** The filter blobs' length checks do not reject every malformed blob. A kind-0
    blob of zero blocks is accepted by UnmarshalFilter and then every MaybeContains on
    the filter panics (a division by zero); and a 24-byte kind-1 blob that claims 2^62
    slots of four bits passes the length check, because the byte count wraps to zero,
    and UnmarshalFilter panics in make instead of returning errBadFilterBlob. *)
Theorem malformed_blobs_panic k :
  fits 8 k ->
  (exists r, UnmarshalFilter (empty_bloom_blob k) = Ok r /\ forall key, resident_contains r key = Err GoPanic) /\
  UnmarshalFilter wide_ribbon_blob = Err GoPanic.
Proof.
  intros Hk. split; [| reflexivity]. eexists. split; [reflexivity |]. intros key. reflexivity.
Qed.

Example malformed_blobs_panic_witness :
  (exists r, UnmarshalFilter (empty_bloom_blob 7) = Ok r /\ forall key, resident_contains r key = Err GoPanic) /\
  UnmarshalFilter wide_ribbon_blob = Err GoPanic.
Proof. apply (malformed_blobs_panic 7). split; [vm_compute; discriminate | reflexivity]. Defined.
