(* ===== verification/GoStrings.v ===== *)
(** * Go's strings and numbers

    The functions of the standard packages strings, bufio and strconv that the crawler
    uses, on strings as lists of bytes: prefixes and searches, Cut and Split, trimming
    and lower-casing, the line scanner and ParseFloat.  Text outside ASCII goes through
    Go's Unicode tables; the two functions that reach them are parameters there. *)

From Stdlib Require Import SpecFloat.
From S2P Require Import Prelude Words.
Open Scope Z_scope.

(** A literal, for constants: the bytes of an ASCII string. *)
From Stdlib Require Import Ascii.
From Stdlib Require String.
Import String.StringSyntax.
Definition bytes_of (s : String.string) : list Z :=
  map (fun a => Z.of_nat (nat_of_ascii a)) (String.list_ascii_of_string s).
Arguments bytes_of _%_string_scope.

(** ** Searches *)

Fixpoint HasPrefix (s p : list Z) : bool :=
  match p, s with
  | [], _ => true
  | c :: p, d :: s => (c =? d) && HasPrefix s p
  | _ :: _, [] => false
  end.

Definition HasSuffix (s p : list Z) : bool :=
  (length p <=? length s)%nat && bool_decide (drop (length s - length p) s = p).

(** strings.Index: the first position at which [p] occurs. *)
Fixpoint Index (s p : list Z) : option nat :=
  if HasPrefix s p then Some 0%nat
  else match s with [] => None | _ :: s => S <$> Index s p end.

Definition IndexByte (s : list Z) (c : Z) : option nat := Index s [c].

Fixpoint IndexAny (s : list Z) (cs : list Z) : option nat :=
  match s with
  | [] => None
  | c :: s => if bool_decide (c ∈ cs) then Some 0%nat else S <$> IndexAny s cs
  end.

Definition Cut (s sep : list Z) : list Z * list Z * bool :=
  match Index s sep with
  | Some i => (take i s, drop (i + length sep) s, true)
  | None => (s, [], false)
  end.

(** strings.Split on a one-byte separator. *)
Fixpoint SplitByte (s : list Z) (sep : Z) : list (list Z) :=
  match s with
  | [] => [[]]
  | c :: s =>
      if c =? sep then [] :: SplitByte s sep
      else match SplitByte s sep with
           | x :: xs => (c :: x) :: xs
           | [] => [[c]]
           end
  end.

(** ** Case and space *)

Definition is_ascii (s : list Z) : bool := forallb (fun c => c <? 128) s.
Definition lower_byte (c : Z) : Z := if (65 <=? c) && (c <=? 90) then c + 32 else c.
Definition space_byte (c : Z) : bool := (c =? 32) || ((9 <=? c) && (c <=? 13)).

(** strings.ToLower and strings.TrimSpace on text with runes outside ASCII. *)
Class Unicode := { unicode_lower : list Z -> list Z; unicode_trim : list Z -> list Z }.

Fixpoint drop_spaces (s : list Z) : list Z :=
  match s with
  | c :: s' => if space_byte c then drop_spaces s' else s
  | [] => []
  end.

Definition ToLower `{Unicode} (s : list Z) : list Z :=
  if is_ascii s then map lower_byte s else unicode_lower s.
Definition TrimSpace `{Unicode} (s : list Z) : list Z :=
  if is_ascii s then reverse (drop_spaces (reverse (drop_spaces s))) else unicode_trim s.

(** ** bufio.Scanner over lines *)

(** ScanLines: the bytes up to a newline, less one carriage return; the last line
    needs no newline. *)
Definition drop_cr (line : list Z) : list Z :=
  match reverse line with 13 :: l => reverse l | _ => line end.

(** A line that fills the whole buffer without a newline ends the scan. *)
Fixpoint scan_lines (s line : list Z) (max : nat) : list (list Z) :=
  match s with
  | [] => if (length line =? 0)%nat || (max <=? length line)%nat then [] else [drop_cr line]
  | c :: s =>
      if c =? 10 then (if (max <=? length line)%nat then [] else drop_cr line :: scan_lines s [] max)
      else scan_lines s (line ++ [c]) max
  end.

(** ** strconv.ParseFloat *)

Definition is_digit (c : Z) : bool := (48 <=? c) && (c <=? 57).
(** [c | 0x20] *)
Definition lower_bit (c : Z) : Z := Z.lor c 32.
Definition hex_val (c : Z) : option Z :=
  if is_digit c then Some (c - 48)
  else if (97 <=? lower_bit c) && (lower_bit c <=? 102) then Some (lower_bit c - 87) else None.
Definition digit_val (base c : Z) : option Z :=
  if base =? 16 then hex_val c else if is_digit c then Some (c - 48) else None.

Record mant := mkMant { mt_val : Z; mt_frac : Z; mt_dot : bool; mt_digits : bool; mt_under : bool }.

(** The mantissa: its digits as one number and how many of them follow the point. *)
Fixpoint read_mant (base : Z) (s : list Z) (m : mant) : mant * list Z :=
  match s with
  | [] => (m, [])
  | c :: s' =>
      if c =? 95 then read_mant base s' (mkMant (mt_val m) (mt_frac m) (mt_dot m) (mt_digits m) true)
      else if c =? 46 then
        if mt_dot m then (m, s)
        else read_mant base s' (mkMant (mt_val m) (mt_frac m) true (mt_digits m) (mt_under m))
      else match digit_val base c with
           | Some d => read_mant base s' (mkMant (mt_val m * base + d)
                         (if mt_dot m then mt_frac m + 1 else mt_frac m) (mt_dot m) true (mt_under m))
           | None => (m, s)
           end
  end.

(** The exponent's digits; past 10000 they no longer count. *)
Fixpoint read_exp (s : list Z) (e : Z) (under : bool) : Z * bool * list Z :=
  match s with
  | [] => (e, under, [])
  | c :: s' =>
      if c =? 95 then read_exp s' e true
      else if is_digit c then read_exp s' (if e <? 10000 then e * 10 + (c - 48) else e) under
      else (e, under, s)
  end.

(** underscoreOK: each underscore stands between digits (or after a base prefix). *)
Fixpoint under_loop (hex : bool) (prev : Z) (s : list Z) : bool :=
  match s with
  | [] => negb (prev =? 95)
  | c :: s =>
      if is_digit c || (hex && (97 <=? lower_bit c) && (lower_bit c <=? 102)) then under_loop hex 48 s
      else if c =? 95 then (prev =? 48) && under_loop hex 95 s
      else negb (prev =? 95) && under_loop hex 33 s
  end.
Definition underscoreOK (s : list Z) : bool :=
  let s := match s with c :: s' => if (c =? 45) || (c =? 43) then s' else s | [] => s end in
  match s with
  | 48 :: x :: s' =>
      if (lower_bit x =? 98) || (lower_bit x =? 111) || (lower_bit x =? 120)
      then under_loop (lower_bit x =? 120) 48 s' else under_loop false 94 s
  | _ => under_loop false 94 s
  end.

(** The float64 nearest to [n / d], to even on a tie: 64 quotient bits and a sticky one
    are enough for the rounding to see the exact value. *)
Definition f64_of_ratio (neg : bool) (n d : Z) : spec_float :=
  if n =? 0 then S754_zero neg
  else
    let k := Z.max 0 (Z.log2 d - Z.log2 n + 64) in
    let q := (n * 2 ^ k) / d in
    let sticky := if (n * 2 ^ k) mod d =? 0 then 0 else 1 in
    let v := 2 * q + sticky in
    binary_normalize 53 1024 (if neg then - v else v) (- k - 1) neg.

(** The value of a mantissa scaled by [10^e] or [2^e]; an exponent that puts it out of
    reach of every float64 is not expanded. *)
Definition f64_scaled (neg : bool) (m : Z) (base e : Z) : spec_float :=
  if m =? 0 then S754_zero neg
  else if 20000 <? e then S754_infinity neg
  else if 0 <=? e then f64_of_ratio neg (m * base ^ e) 1
  else f64_of_ratio neg m (base ^ (- e)).

(** [None] is a syntax or a range error. *)
Definition ParseFloat (s : list Z) : option spec_float :=
  let '(neg, t) := match s with 45 :: t => (true, t) | 43 :: t => (false, t) | _ => (false, s) end in
  let low := map lower_byte t in
  if bool_decide (low = bytes_of "inf") || bool_decide (low = bytes_of "infinity") then Some (S754_infinity neg)
  else if bool_decide (map lower_byte s = bytes_of "nan") then Some S754_nan
  else
    let '(base, u) := match t with
      | 48 :: x :: c :: u => if lower_bit x =? 120 then (16, c :: u) else (10, t)
      | _ => (10, t) end in
    let '(m, rest) := read_mant base u (mkMant 0 0 false false false) in
    if negb (mt_digits m) then None
    else
      let expChar := if base =? 16 then 112 else 101 in
      let finish (e : Z) (under : bool) (rest : list Z) : option spec_float :=
        if bool_decide (rest <> []) then None
        else if (mt_under m || under) && negb (underscoreOK s) then None
        else
          let v := if base =? 16 then f64_scaled neg (mt_val m) 2 (e - 4 * mt_frac m)
                   else f64_scaled neg (mt_val m) 10 (e - mt_frac m) in
          match v with S754_infinity _ => None | _ => Some v end in
      match rest with
      | c :: r =>
          if lower_bit c =? expChar then
            let '(esign, r) := match r with 43 :: r => (1, r) | 45 :: r => (-1, r) | _ => (1, r) end in
            match r with
            | d :: _ => if is_digit d then let '(e, un, r) := read_exp r 0 false in finish (e * esign) un r else None
            | [] => None
            end
          else None
      | [] => if base =? 16 then None else finish 0 false []
      end.

Example ParseFloat_examples :
  ParseFloat (bytes_of "1.5") = Some (S754_finite false (3 * 2 ^ 51) (-52)) /\
  ParseFloat (bytes_of "0.1") = Some (S754_finite false 7205759403792794 (-56)) /\
  ParseFloat (bytes_of "-2e3") = Some (S754_finite true (125 * 2 ^ 46) (-42)) /\
  ParseFloat (bytes_of "0x1p4") = Some (S754_finite false (2 ^ 52) (-48)) /\
  ParseFloat (bytes_of "1e400") = None /\ ParseFloat (bytes_of "1_0") = ParseFloat (bytes_of "10") /\
  ParseFloat (bytes_of "10s") = None /\ ParseFloat (bytes_of "") = None.
Proof. repeat split; vm_compute; reflexivity. Qed.
