(* ===== verification/Manifest.v ===== *)
(** * File summaries and the collection manifest (format/inspect.go, format/manifest.go)

    The summary of a file is what its header and footer carry. The manifest is the catalog
    of a fleet's partition files: one entry per file, sorted by host range, so that routing
    a host is a binary search; with a check that the ranges of an epoch tile the key space,
    and a checksummed serial form. *)

From Stdlib Require String.
Import String.StringSyntax.
From S2P Require Import Prelude Words Rbuf Model Encoding Page Column Table Schedule Footer File Reader GoSort GoStrings.
Open Scope Z_scope.

(** ** The summary of a file *)

Record RegionInfo := mkRegionInfo { ri_ID : Z; ri_Name : list Z; ri_Offset : Z; ri_Length : Z }.

Record Stats := mkInsStats {
  is_ScheduledCount : Z; is_DueMin : Z; is_DueMax : Z; is_TotalCompressed : Z;
  is_TotalUncompressed : Z; is_BytesPerURL : Z
}.

Record Inspect := mkInspect {
  in_PartitionID : Z; in_VersionMajor : Z; in_VersionMinor : Z; in_Flags : Z;
  in_ChecksumAlgo : Z; in_DefaultCodec : Z; in_CreatedHours : Z;
  in_HostKeyLo : Z; in_HostKeyHi : Z; in_URLCount : Z; in_HostCount : Z; in_FileSize : Z;
  in_Regions : list RegionInfo; in_URLColumns : nat; in_HostColumns : nat;
  in_Encodings : gmap (list Z) nat; in_Stats : Stats; in_Meta : gmap (list Z) (list Z)
}.

(** [%d] of a uint8 *)
Definition decimal_byte (n : Z) : list Z :=
  if n <? 10 then [48 + n]
  else if n <? 100 then [48 + n / 10; 48 + n `mod` 10]
  else [48 + n / 100; 48 + (n / 10) `mod` 10; 48 + n `mod` 10].

Definition encodingName (e : Z) : list Z :=
  if e =? EncRaw then bytes_of "raw"
  else if e =? EncDict then bytes_of "dict"
  else if e =? EncDelta then bytes_of "delta"
  else if e =? EncFOR then bytes_of "for"
  else if e =? EncRLE then bytes_of "rle"
  else if e =? EncFSST then bytes_of "fsst"
  else if e =? EncDeltaFOR then bytes_of "delta_for"
  else bytes_of "enc_" ++ decimal_byte e.

Definition regionName (i : Z) : list Z :=
  if i =? RegionURLTable then bytes_of "url_table"
  else if i =? RegionHostTable then bytes_of "host_table"
  else if i =? RegionSchedule then bytes_of "schedule"
  else if i =? RegionSeenset then bytes_of "seenset"
  else if i =? RegionStringBlob then bytes_of "string_blob"
  else bytes_of "region_" ++ decimal_byte i.

Definition count_encoding (m : gmap (list Z) nat) (d : columnDir) : gmap (list Z) nat :=
  let n := encodingName (cd_encoding d) in <[n := S (default 0%nat (m !! n))]> m.

Definition InspectBytes (b : list Z) : res Inspect :=
  '(h, f) ← open_file b;
  Ok (mkInspect (hd_PartitionID h) (hd_VersionMajor h) (hd_VersionMinor h) (hd_Flags h)
    (hd_ChecksumAlgo h) (hd_DefaultCodec h) (hd_CreatedHours h) (hd_HostKeyLo h) (hd_HostKeyHi h)
    (hd_URLCount h) (hd_HostCount h) (u64 (Z.of_nat (length b)))
    ((fun reg => mkRegionInfo (rg_id reg) (regionName (rg_id reg)) (rg_offset reg) (rg_length reg)) <$> f_regions f)
    (length (f_urlDir f)) (length (f_hostDir f))
    (foldl count_encoding (foldl count_encoding ∅ (f_urlDir f)) (f_hostDir f))
    (mkInsStats (st_scheduledCount (f_stats f)) (st_dueMin (f_stats f)) (st_dueMax (f_stats f))
       (st_totalCompressed (f_stats f)) (st_totalUncompressed (f_stats f)) (st_bytesPerURL (f_stats f)))
    (metaMap (f_meta f))).

(** ** The manifest *)

Definition ManifestMagic : list Z := [77; 71; 77; 49].   (* 'M' 'G' 'M' '1' *)

Record ManifestEntry := mkEntry {
  me_PartitionID : Z; me_FileRef : list Z; me_HostKeyLo : Z; me_HostKeyHi : Z;
  me_URLCount : Z; me_HostCount : Z; me_DueMin : Z;
  me_BytesPerURL : Z;   (** a float32 bit pattern *)
  me_FileCRC32C : Z; me_CreatedHours : Z; me_Epoch : Z
}.

Record Manifest := mkManifest { mf_Entries : list ManifestEntry }.

(** [nil] is the empty list. *)
Definition footerSpan (b : list Z) : list Z :=
  if (length b <? trailerSize)%nat then []
  else
    let footerLen := le_at (drop (length b - trailerSize) b) 0 4 in
    let start := Z.of_nat (length b) - Z.of_nat trailerSize - footerLen in
    if start <? 0 then [] else slice b (Z.to_nat start) (length b - trailerSize).

Definition ManifestEntryFor (fileBytes fileRef : list Z) (epoch : Z) : res ManifestEntry :=
  ins ← InspectBytes fileBytes;
  Ok (mkEntry (in_PartitionID ins) fileRef (in_HostKeyLo ins) (in_HostKeyHi ins) (in_URLCount ins)
    (in_HostCount ins) (is_DueMin (in_Stats ins)) (is_BytesPerURL (in_Stats ins))
    (crc32c (footerSpan fileBytes)) (in_CreatedHours ins) epoch).

Definition entry_before (a b : ManifestEntry) : bool :=
  if negb (me_HostKeyLo a =? me_HostKeyLo b) then me_HostKeyLo a <? me_HostKeyLo b
  else me_PartitionID a <? me_PartitionID b.

Definition BuildManifest `{GoSort} (entries : list ManifestEntry) : Manifest :=
  mkManifest (sort_slice entry_before entries).

Definition lo_above (m : Manifest) (hk : Z) (i : nat) : bool :=
  match mf_Entries m !! i with Some e => hk <? me_HostKeyLo e | None => true end.

Definition Route (m : Manifest) (hk : Z) : option ManifestEntry :=
  let i := sortSearch (length (mf_Entries m)) (lo_above m hk) in
  if (i =? 0)%nat then None
  else
    e ← mf_Entries m !! (i - 1)%nat;
    if (me_HostKeyLo e <=? hk) && (hk <=? me_HostKeyHi e) then Some e else None.

Definition due_part (now : Z) (e : ManifestEntry) : bool := negb (me_DueMin e =? 0) && (me_DueMin e <=? now).

Definition DueParts (m : Manifest) (now : Z) : list ManifestEntry :=
  filter (fun e => due_part now e = true) (mf_Entries m).

(** The loop of [CoverageGap] over the entries left. *)
Fixpoint coverage_loop (epoch next : Z) (first : bool) (entries : list ManifestEntry) : option (Z * Z) :=
  match entries with
  | [] =>
      if first then Some (0, MaxUint64)
      else if negb (next =? 0) then Some (next, MaxUint64) else None
  | e :: entries =>
      if negb (me_Epoch e =? epoch) then coverage_loop epoch next first entries
      else if first then
        if negb (me_HostKeyLo e =? 0) then Some (0, u64 (me_HostKeyLo e - 1))
        else coverage_loop epoch (u64 (me_HostKeyHi e + 1)) false entries
      else if negb (me_HostKeyLo e =? next) then
        if next <? me_HostKeyLo e then Some (next, u64 (me_HostKeyLo e - 1))
        else Some (me_HostKeyLo e, u64 (next - 1))
      else coverage_loop epoch (u64 (me_HostKeyHi e + 1)) false entries
  end.

Definition CoverageGap (m : Manifest) (epoch : Z) : option (Z * Z) :=
  coverage_loop epoch 0 true (mf_Entries m).

(** ** The serial form *)

Definition manifest_entry_bytes (e : ManifestEntry) : list Z :=
  le_bytes 4 (me_PartitionID e) ++ put_uvarint (Z.of_nat (length (me_FileRef e))) ++ me_FileRef e ++
  le_bytes 8 (me_HostKeyLo e) ++ le_bytes 8 (me_HostKeyHi e) ++ le_bytes 8 (me_URLCount e) ++
  le_bytes 8 (me_HostCount e) ++ le_bytes 4 (me_DueMin e) ++ le_bytes 4 (me_BytesPerURL e) ++
  le_bytes 4 (me_FileCRC32C e) ++ le_bytes 4 (me_CreatedHours e) ++ le_bytes 4 (me_Epoch e).

Definition EncodeManifest (m : Manifest) : list Z :=
  let body := ManifestMagic ++ put_uvarint (Z.of_nat (length (mf_Entries m))) ++ mjoin (manifest_entry_bytes <$> mf_Entries m) in
  body ++ le_bytes 4 (crc32c body) ++ ManifestMagic.

Definition entry_read : rd ManifestEntry :=
  pid ← r_u32; n ← r_uvarint; ref ← r_bytes (i64 n); lo ← r_u64; hi ← r_u64; uc ← r_u64; hc ← r_u64;
  due ← r_u32; bpu ← r_u32; crc ← r_u32; created ← r_u32; epoch ← r_u32;
  mret (mkEntry pid ref lo hi uc hc due bpu crc created epoch).

(** [make([]ManifestEntry, 0, n)] panics past 2^48 bytes; an entry is 80. *)
Definition alloc_ok (n : Z) : bool := (0 <=? n) && (n * 80 <=? 2 ^ 48).

Definition DecodeManifest (b : list Z) : res Manifest :=
  _ ← ensure (negb (length b <? 4 + 8)%nat && bool_decide (take 4 b = ManifestMagic)) ErrBadMagic;
  _ ← ensure (bool_decide (drop (length b - 4) b = ManifestMagic)) ErrBadMagic;
  let body := take (length b - 8) b in
  _ ← ensure (crc32c body =? le_at b (length b - 8) 4) ErrChecksum;
  let '(n, r) := r_uvarint (mkRbuf body 4 None) in
  match rb_err r with
  | Some GoPanic => Err GoPanic
  | Some _ => Err ErrCorrupt
  | None =>
      _ ← ensure (alloc_ok (i64 n)) GoPanic;
      let '(entries, r) := r_repeat (Z.to_nat (i64 n)) entry_read r in
      match rb_err r with
      | Some GoPanic => Err GoPanic
      | Some _ => Err ErrCorrupt
      | None => Ok (mkManifest entries)
      end
  end.

(** ** Reading what was written *)

Definition entry_wf (e : ManifestEntry) : Prop :=
  fits 32 (me_PartitionID e) /\ Z.of_nat (length (me_FileRef e)) < 2 ^ 62 /\ Forall byte_ok (me_FileRef e) /\
  fits 64 (me_HostKeyLo e) /\ fits 64 (me_HostKeyHi e) /\ fits 64 (me_URLCount e) /\ fits 64 (me_HostCount e) /\
  fits 32 (me_DueMin e) /\ fits 32 (me_BytesPerURL e) /\ fits 32 (me_FileCRC32C e) /\
  fits 32 (me_CreatedHours e) /\ fits 32 (me_Epoch e).

Lemma reads_entry e : entry_wf e -> reads entry_read (manifest_entry_bytes e) e.
Proof.
  intros (H1 & Hn & _ & H2 & H3 & H4 & H5 & H6 & H7 & H8 & H9 & H10). unfold entry_read, manifest_entry_bytes.
  read_field. eapply reads_bind; [apply reads_uvarint; unfold fits; lia |]. cbn beta.
  eapply reads_bind; [apply reads_bytes'; rewrite i64_small by lia; done |]. cbn beta.
  do 8 read_field. read_last. by destruct e; apply reads_ret.
Qed.

Lemma manifest_entry_bytes_length e : (56 <= length (manifest_entry_bytes e))%nat.
Proof.
  unfold manifest_entry_bytes. rewrite !length_app, !le_bytes_length. lia.
Qed.

Definition manifest_body (m : Manifest) : list Z :=
  ManifestMagic ++ put_uvarint (Z.of_nat (length (mf_Entries m))) ++ mjoin (manifest_entry_bytes <$> mf_Entries m).

Lemma entries_length es : (56 * length es <= length (mjoin (manifest_entry_bytes <$> es)))%nat.
Proof.
  induction es as [|e es IH]; [done |]. change (mjoin (manifest_entry_bytes <$> e :: es)) with (manifest_entry_bytes e ++ mjoin (manifest_entry_bytes <$> es)).
  rewrite length_app. pose proof (manifest_entry_bytes_length e). cbn [length]. lia.
Qed.

(** The three parts of the bytes. *)
Lemma manifest_parts (m : Manifest) (body crc tail : list Z) (b := body ++ crc ++ tail) :
  length crc = 4%nat -> length tail = 4%nat ->
  take (length b - 8) b = body /\ drop (length b - 4) b = tail /\ le_at b (length b - 8) 4 = le_val crc.
Proof.
  intros Hc Ht. unfold b. rewrite !length_app, Hc, Ht.
  replace (length body + (4 + 4) - 8)%nat with (length body) by lia.
  replace (length body + (4 + 4) - 4)%nat with (length (body ++ crc)) by (rewrite length_app; lia).
  split; [apply take_app_length |]. split; [by rewrite app_assoc, drop_app_length |].
  unfold le_at, slice. rewrite drop_app_length, take_app_exact; [done | lia].
Qed.

Lemma decode_manifest_ok m : Forall entry_wf (mf_Entries m) -> Z.of_nat (length (EncodeManifest m)) < 2 ^ 47 ->
  DecodeManifest (EncodeManifest m) = Ok m.
Proof.
  intros Hw Hlen. unfold EncodeManifest in *. fold (manifest_body m) in *. set (body := manifest_body m) in *.
  destruct (manifest_parts m body (le_bytes 4 (crc32c body)) ManifestMagic) as (Eb & Et & Ec);
    [apply le_bytes_length | done |]. cbv zeta in *. set (b := body ++ _) in *.
  assert (Hl : length b = (length body + 8)%nat) by (unfold b; rewrite !length_app, le_bytes_length; done).
  assert (Hb : body = ManifestMagic ++ (put_uvarint (Z.of_nat (length (mf_Entries m))) ++ mjoin (manifest_entry_bytes <$> mf_Entries m)))
    by reflexivity.
  assert (H4 : (4 <= length body)%nat) by (rewrite Hb, length_app; cbn; lia).
  assert (Hn : (56 * length (mf_Entries m) <= length body)%nat).
  { rewrite Hb, !length_app. pose proof (entries_length (mf_Entries m)). lia. }
  unfold DecodeManifest. rewrite (proj2 (Nat.ltb_ge _ _)) by lia.
  rewrite (bool_decide_eq_true_2 (take 4 b = ManifestMagic)) by (unfold b; rewrite Hb; reflexivity). cbn [negb andb ensure mbind res_bind].
  rewrite Et. rewrite bool_decide_eq_true_2 by done. cbn [ensure mbind res_bind].
  rewrite Eb, Ec, le_val_bytes_fits, Z.eqb_refl by apply crc32c_fits. cbn [ensure mbind res_bind].
  pose proof (reads_uvarint (Z.of_nat (length (mf_Entries m))) ltac:(unfold fits; lia) ManifestMagic
    (mjoin (manifest_entry_bytes <$> mf_Entries m))) as Hu.
  rewrite <- Hb in Hu. change (length ManifestMagic) with 4%nat in Hu. rewrite Hu.
  2: { apply (f_equal length) in Hb. rewrite !length_app in Hb. unfold buf_max. rewrite length_app. lia. }
  cbn [rb_err]. rewrite i64_small by lia. unfold alloc_ok.
  rewrite (proj2 (Z.leb_le 0 _)), (proj2 (Z.leb_le (_ * 80) _)) by lia. cbn [andb ensure mbind res_bind]. rewrite Nat2Z.id.
  pose proof (reads_repeat entry_read manifest_entry_bytes (mf_Entries m)) as Hr.
  specialize (Hr ltac:(eapply Forall_impl; [exact Hw | apply reads_entry])
    (ManifestMagic ++ put_uvarint (Z.of_nat (length (mf_Entries m)))) []).
  rewrite app_nil_r, <- app_assoc, <- Hb, length_app in Hr. change (length ManifestMagic) with 4%nat in Hr. rewrite Hr.
  2: { unfold buf_max. lia. }
  cbn [rb_err]. by destruct m.
Qed.

(** One altered byte is an error. *)
Lemma decode_manifest_tampered m i x y :
  EncodeManifest m !! i = Some x -> byte_ok x -> byte_ok y -> x <> y ->
  DecodeManifest (<[i := y]> (EncodeManifest m)) = Err ErrBadMagic \/
  DecodeManifest (<[i := y]> (EncodeManifest m)) = Err ErrChecksum.
Proof.
  unfold EncodeManifest. fold (manifest_body m). set (body := manifest_body m). set (crc := le_bytes 4 (crc32c body)).
  intros Hx Bx By Hne.
  assert (Hc : length crc = 4%nat) by apply le_bytes_length.
  assert (H4 : (4 <= length body)%nat) by (unfold body, manifest_body; rewrite length_app; change (length ManifestMagic) with 4%nat; lia).
  assert (Hlt : (i < length body + 8)%nat).
  { apply lookup_lt_Some in Hx. rewrite !length_app, Hc in Hx. change (length ManifestMagic) with 4%nat in Hx. lia. }
  unfold DecodeManifest. rewrite length_insert, (proj2 (Nat.ltb_ge _ _)) by (rewrite !length_app, Hc; change (length ManifestMagic) with 4%nat; lia).
  destruct (bool_decide (take 4 _ = _)) eqn:E1; [| by left]. cbn [negb andb ensure mbind res_bind].
  destruct (bool_decide (drop _ _ = _)) eqn:E2; [| by left]. cbn [ensure mbind res_bind]. right.
  apply bool_decide_eq_true in E1, E2.
  assert (Hmag : forall (l : list Z) j, l !! j = Some x -> l = ManifestMagic -> <[j := y]> l = ManifestMagic -> False).
  { intros l j Hj -> E. apply (f_equal (.!! j)) in E. rewrite list_lookup_insert_eq in E by (by eapply lookup_lt_Some).
    rewrite Hj in E. by injection E. }
  destruct (decide (i < length body)%nat) as [Hi | Hi].
  - rewrite lookup_app_l in Hx by done. rewrite insert_app_l in E1, E2 |- * by done.
    destruct (manifest_parts m (<[i := y]> body) crc ManifestMagic Hc eq_refl) as (Eb & _ & Ec).
    cbv zeta in Eb, Ec. rewrite length_app, length_insert, <- length_app in Eb, Ec. rewrite Eb, Ec.
    unfold crc. rewrite le_val_bytes_fits by apply crc32c_fits.
    rewrite (proj2 (Z.eqb_neq _ _)); [done |]. apply crc32c_insert with x; [done | by apply byte_neq].
  - rewrite lookup_app_r in Hx by lia. rewrite insert_app_r_alt in E1, E2 |- * by lia.
    set (j := (i - length body)%nat) in *. destruct (decide (j < 4)%nat) as [Hj | Hj].
    + rewrite lookup_app_l in Hx by lia. rewrite insert_app_l by lia.
      destruct (manifest_parts m body (<[j := y]> crc) ManifestMagic ltac:(by rewrite length_insert) eq_refl) as (Eb & _ & Ec).
      cbv zeta in Eb, Ec. rewrite !length_app, length_insert, <- !length_app in Eb, Ec. rewrite Eb, Ec.
      rewrite (proj2 (Z.eqb_neq _ _)); [done |]. apply not_eq_sym, (le_bytes_neq 4).
      * by rewrite length_insert.
      * apply Forall_insert_ok; [apply le_bytes_ok | done].
      * intros E. apply (f_equal (.!! j)) in E. rewrite list_lookup_insert_eq in E by lia.
        fold crc in E. rewrite Hx in E. by injection E.
    + exfalso. rewrite lookup_app_r in Hx by lia. rewrite insert_app_r_alt in E2 by lia. rewrite Hc in *.
      apply (Hmag ManifestMagic (j - 4)%nat Hx eq_refl). rewrite <- E2 at 2. symmetry.
      rewrite !length_app, Hc. change (length ManifestMagic) with 4%nat.
      replace (length body + (4 + 4) - 4)%nat with (length (body ++ crc)) by (rewrite length_app; lia).
      by rewrite app_assoc, drop_app_length.
Qed.

(** ** Ranges *)

Definition covers (e : ManifestEntry) (hk : Z) : Prop := me_HostKeyLo e <= hk <= me_HostKeyHi e.
#[export] Instance covers_dec e hk : Decision (covers e hk).
Proof. unfold covers. apply _. Defined.

(** The entries whose range has the key. *)
Definition owners (l : list ManifestEntry) (hk : Z) : list ManifestEntry := filter (fun e => covers e hk) l.

Definition range_ok (e : ManifestEntry) : Prop :=
  0 <= me_HostKeyLo e /\ me_HostKeyLo e <= me_HostKeyHi e /\ me_HostKeyHi e <= MaxUint64.
Definition lo_le (a b : ManifestEntry) : Prop := me_HostKeyLo a <= me_HostKeyLo b.
Definition in_epoch (ep : Z) (l : list ManifestEntry) : list ManifestEntry := filter (fun e => me_Epoch e = ep) l.
(** Only the last entry reaches the top of the key space. *)
Definition top_last (l : list ManifestEntry) : Prop :=
  forall i e, l !! i = Some e -> me_HostKeyHi e = MaxUint64 -> S i = length l.

Lemma owners_above l hk : Forall (fun e => hk < me_HostKeyLo e) l -> owners l hk = [].
Proof. intros Hl. apply filter_none. eapply Forall_impl; [exact Hl |]. unfold covers. intros e He Hc. lia. Qed.

Lemma owners_cons e l hk : owners (e :: l) hk = (if decide (covers e hk) then [e] else []) ++ owners l hk.
Proof. unfold owners. rewrite filter_cons. by destruct (decide _). Qed.

Lemma entry_before_order (P : ManifestEntry -> Prop) : weak_order P entry_before.
Proof.
  unfold entry_before. split.
  - intros a b _ _. destruct (Z.eqb_spec (me_HostKeyLo a) (me_HostKeyLo b)), (Z.eqb_spec (me_HostKeyLo b) (me_HostKeyLo a));
      cbn; rewrite ?Z.ltb_lt, ?Z.ltb_ge; lia.
  - intros a b c _ _ _. destruct (Z.eqb_spec (me_HostKeyLo b) (me_HostKeyLo a)), (Z.eqb_spec (me_HostKeyLo c) (me_HostKeyLo b)),
      (Z.eqb_spec (me_HostKeyLo c) (me_HostKeyLo a)); cbn; rewrite ?Z.ltb_lt, ?Z.ltb_ge; lia.
Qed.

Section Routing.
Context `{GoSortLaws}.

Lemma build_sorted entries : StronglySorted lo_le (mf_Entries (BuildManifest entries)).
Proof using H0.
  eapply (StronglySorted_impl (not_after entry_before)); [| apply sort_slice_sorted, entry_before_order].
  intros a b. unfold not_after, entry_before, lo_le.
  destruct (Z.eqb_spec (me_HostKeyLo b) (me_HostKeyLo a)); cbn; [lia |]. rewrite Z.ltb_ge. lia.
Qed.

Lemma build_perm entries : mf_Entries (BuildManifest entries) ≡ₚ entries.
Proof using H0. apply sort_slice_perm. Qed.
End Routing.

(** The binary search finds the last entry that starts at or below the key. *)
Lemma route_index m hk : StronglySorted lo_le (mf_Entries m) ->
  let i := sortSearch (length (mf_Entries m)) (lo_above m hk) in
  (i <= length (mf_Entries m))%nat /\
  forall k e, mf_Entries m !! k = Some e -> (k < i)%nat <-> me_HostKeyLo e <= hk.
Proof.
  intros Hs. destruct (sortSearch_spec (length (mf_Entries m)) (lo_above m hk)) as (Hi & Hlo & Hhi).
  { intros a b Hab. unfold lo_above. destruct (mf_Entries m !! a) as [x |] eqn:Ex.
    2: { apply lookup_ge_None in Ex. lia. }
    destruct (mf_Entries m !! b) as [y |] eqn:Ey; [| done]. rewrite !Z.ltb_lt. intros Hx.
    destruct (decide (a = b)) as [-> | Hne]; [by simplify_eq |].
    pose proof (StronglySorted_lookup_lt _ _ a b x y Hs Ex Ey ltac:(lia)) as Hxy. unfold lo_le in Hxy. lia. }
  cbv zeta. split; [done |]. intros k e Hk. split.
  - intros Hlt. specialize (Hlo k Hlt). unfold lo_above in Hlo. rewrite Hk in Hlo. by apply Z.ltb_ge in Hlo.
  - intros Hle. destruct (decide (k < sortSearch (length (mf_Entries m)) (lo_above m hk))%nat) as [| Hge]; [done |].
    pose proof (lookup_lt_Some _ _ _ Hk). specialize (Hhi k ltac:(lia)). unfold lo_above in Hhi. rewrite Hk in Hhi.
    apply Z.ltb_lt in Hhi. lia.
Qed.

(** Two entries that share a key are two owners of it. *)
Lemma two_owners l j k a b hk : l !! j = Some a -> l !! k = Some b -> (j < k)%nat ->
  covers a hk -> covers b hk -> (2 <= length (owners l hk))%nat.
Proof.
  intros Ha Hb Hjk Hca Hcb. rewrite <- (take_drop k l). unfold owners. rewrite filter_app, length_app.
  assert (H1 : a ∈ filter (fun e => covers e hk) (take k l)).
  { apply list_elem_of_filter. split; [done |]. apply (list_elem_of_lookup_2 _ j). by rewrite lookup_take_lt. }
  assert (H2 : b ∈ filter (fun e => covers e hk) (drop k l)).
  { apply list_elem_of_filter. split; [done |]. apply (list_elem_of_lookup_2 _ 0). by rewrite lookup_drop, Nat.add_0_r. }
  destruct (filter _ (take k l)); [by apply elem_of_nil in H1 |].
  destruct (filter _ (drop k l)); [by apply elem_of_nil in H2 |]. cbn. lia.
Qed.

Lemma route_ok m hk e : StronglySorted lo_le (mf_Entries m) -> Forall range_ok (mf_Entries m) ->
  (forall k, (length (owners (mf_Entries m) k) <= 1)%nat) ->
  Route m hk = Some e <-> e ∈ mf_Entries m /\ covers e hk.
Proof.
  intros Hs Hr Hone. destruct (route_index m hk Hs) as [Hi Hk]. unfold Route.
  set (i := sortSearch _ _) in *. destruct (Nat.eqb_spec i 0) as [E0 | E0].
  { split; [done |]. intros [He Hc]. apply list_elem_of_lookup in He as [k Ek].
    destruct (Hk k e Ek) as [_ Hlt]. unfold covers in Hc. specialize (Hlt ltac:(lia)). lia. }
  destruct (lookup_lt_is_Some_2 (mf_Entries m) (i - 1)) as [f Ef]; [lia |]. rewrite Ef. cbn [mbind option_bind].
  pose proof (proj1 (Hk _ _ Ef) ltac:(lia)) as Hf. split.
  - destruct (_ && _) eqn:Ec; [| done]. intros [= <-]. bool_prop. split; [by eapply list_elem_of_lookup_2 |].
    unfold covers. lia.
  - intros [He Hc]. apply list_elem_of_lookup in He as [k Ek]. pose proof (proj2 (Hk k e Ek)) as Hlt.
    unfold covers in Hc. specialize (Hlt ltac:(lia)). destruct (decide (k = i - 1)%nat) as [-> | Hne].
    + rewrite Ek in Ef. injection Ef as <-. by bool_lia.
    + exfalso. pose proof (StronglySorted_lookup_lt _ _ k (i - 1) e f Hs Ek Ef ltac:(lia)) as Hef. unfold lo_le in Hef.
      pose proof (Forall_lookup_1 _ _ _ _ Hr Ef) as (_ & Hfr & _).
      pose proof (two_owners _ k (i - 1) e f (me_HostKeyLo f) Ek Ef ltac:(lia)) as H2.
      unfold covers in H2. specialize (H2 ltac:(lia) ltac:(lia)). specialize (Hone (me_HostKeyLo f)). lia.
Qed.

(** ** The coverage check *)

Lemma coverage_in_epoch ep next first l : coverage_loop ep next first l = coverage_loop ep next first (in_epoch ep l).
Proof.
  revert next first. induction l as [|e l IH]; intros next first; [done |]. unfold in_epoch. rewrite filter_cons.
  cbn [coverage_loop]. destruct (Z.eqb_spec (me_Epoch e) ep) as [E | E]; cbn [negb].
  - rewrite decide_True by done. cbn [coverage_loop]. rewrite (proj2 (Z.eqb_eq _ _) E). cbn [negb].
    by rewrite !IH.
  - rewrite decide_False by done. apply IH.
Qed.

(** What the check answers of the entries [l]: they tile the keys, or [lo] is the first key
    that does not have one owner. *)
Definition coverage_of (l : list ManifestEntry) (gap : option (Z * Z)) : Prop :=
  match gap with
  | None => forall hk, 0 <= hk <= MaxUint64 -> length (owners l hk) = 1%nat
  | Some (lo, hi) =>
      0 <= lo <= hi /\ hi <= MaxUint64 /\ length (owners l lo) <> 1%nat /\
      forall hk, 0 <= hk < lo -> length (owners l hk) = 1%nat
  end.

(** The state of the loop: the entries before tile [0, next). *)
Definition tiled (pre : list ManifestEntry) (next : Z) : Prop :=
  forall hk, 0 <= hk -> length (owners pre hk) = if hk <? next then 1%nat else 0%nat.

Lemma coverage_step ep next e rest : me_Epoch e = ep -> 0 <= next < 2 ^ 64 -> 0 <= me_HostKeyLo e < 2 ^ 64 ->
  coverage_loop ep next (next =? 0) (e :: rest) =
  if next <? me_HostKeyLo e then Some (next, me_HostKeyLo e - 1)
  else if me_HostKeyLo e <? next then Some (me_HostKeyLo e, next - 1)
  else coverage_loop ep (u64 (me_HostKeyHi e + 1)) false rest.
Proof.
  intros <- Hn Hl. cbn [coverage_loop]. rewrite Z.eqb_refl. cbn [negb].
  destruct (Z.eqb_spec next 0) as [-> | H0].
  - destruct (Z.eqb_spec (me_HostKeyLo e) 0) as [E | E]; cbn [negb]; [by rewrite E |].
    rewrite u64_small by (unfold fits; lia). by bool_lia.
  - destruct (Z.eqb_spec (me_HostKeyLo e) next) as [E | E]; cbn [negb]; [by rewrite E, Z.ltb_irrefl |].
    destruct (Z.ltb_spec next (me_HostKeyLo e)); rewrite u64_small by (unfold fits; lia); [done |]. by bool_lia.
Qed.

Lemma coverage_ok ep rest pre next :
  Forall (fun e => me_Epoch e = ep) rest -> StronglySorted lo_le rest -> Forall range_ok rest -> top_last rest ->
  0 <= next <= MaxUint64 -> tiled pre next ->
  coverage_of (pre ++ rest) (coverage_loop ep next (next =? 0) rest).
Proof.
  intros He Hs. revert pre next. induction Hs as [|e rest Hs IH Hle]; intros pre next Hr Ht Hn Hp.
  - rewrite app_nil_r. assert (E : coverage_loop ep next (next =? 0) [] = Some (next, MaxUint64)).
    { cbn. by destruct (Z.eqb_spec next 0) as [-> |]. }
    rewrite E. split_and!; [lia | lia | lia | | intros hk Hk]; rewrite Hp by lia; bool_lia; done.
  - apply Forall_cons in He as [He1 He], Hr as [(Hr1 & Hr2 & Hr3) Hr].
    assert (Habove : forall hk, hk < me_HostKeyLo e -> owners (e :: rest) hk = []).
    { intros hk Hk. apply owners_above. constructor; [done |]. eapply Forall_impl; [exact Hle |].
      unfold lo_le. intros f Hf. lia. }
    rewrite (coverage_step ep next e rest He1) by (unfold MaxUint64 in *; lia).
    destruct (Z.ltb_spec next (me_HostKeyLo e)); [| destruct (Z.ltb_spec (me_HostKeyLo e) next)].
    + split_and!; [lia | lia | lia | | intros hk Hk]; unfold owners at 1; rewrite filter_app, length_app;
        fold (owners pre hk) (owners (e :: rest) hk) || fold (owners pre next) (owners (e :: rest) next);
        rewrite Habove, Hp by lia; bool_lia; done.
    + split_and!; [lia | lia | lia | | intros hk Hk]; unfold owners at 1; rewrite filter_app, length_app.
      * fold (owners pre (me_HostKeyLo e)) (owners (e :: rest) (me_HostKeyLo e)). rewrite Hp by lia. bool_lia.
        rewrite owners_cons, decide_True by (unfold covers; lia). cbn. lia.
      * fold (owners pre hk) (owners (e :: rest) hk). rewrite Habove, Hp by lia. bool_lia. done.
    + assert (next = me_HostKeyLo e) as -> by lia.
      assert (Hnew : forall hk, 0 <= hk -> length (owners (pre ++ [e]) hk) = if hk <=? me_HostKeyHi e then 1%nat else 0%nat).
      { intros hk Hk. unfold owners. rewrite filter_app, length_app. fold (owners pre hk) (owners [e] hk).
        rewrite Hp, owners_cons by done. unfold covers.
        destruct (Z.ltb_spec hk (me_HostKeyLo e)), (Z.leb_spec hk (me_HostKeyHi e)); case_decide; cbn; lia. }
      destruct (decide (me_HostKeyHi e = MaxUint64)) as [Emax | Emax].
      * specialize (Ht 0%nat e eq_refl Emax). destruct rest; [| done]. rewrite Emax.
        change (u64 (MaxUint64 + 1)) with 0. cbn. intros hk Hk. rewrite Hnew by lia. by bool_lia.
      * unfold MaxUint64 in *. rewrite u64_small by (unfold fits; lia).
        replace false with (me_HostKeyHi e + 1 =? 0) by (apply Z.eqb_neq; lia).
        change (e :: rest) with ([e] ++ rest). rewrite app_assoc. apply IH; [done | done | | unfold MaxUint64; lia |].
        { intros i f Hi Hf. specialize (Ht (S i) f Hi Hf). cbn in Ht. lia. }
        intros hk Hk. rewrite Hnew by done. destruct (Z.leb_spec hk (me_HostKeyHi e)), (Z.ltb_spec hk (me_HostKeyHi e + 1)); (done || lia).
Qed.

(** ** An entry made from a file *)

Lemma open_of_encoded `{BlockCodecLaws} p b : partition_wf p -> Encode p = Ok b -> Z.of_nat (length b) < 2 ^ 32 ->
  exists pairs, b = file_bytes p pairs /\
    open_file b = Ok (header_of p (lay_out p), footer_sorted (footer_of p (lay_out p) pairs)).
Proof.
  intros Hp He Hlen. unfold Encode in He. rewrite Encode_in_eq in He. destruct (_ && _); [| done].
  injection He as <-. eexists. split; [done |]. by apply (open_file_ok p _ Hp Hlen).
Qed.

(** ** Properties *)

(** An entry made from an encoded file carries the file's identity, range, sizes and
    creation hour, and selects it as due, at any hour, exactly when one of its rows is. *)
Theorem manifest_entry_describes_file `{BlockCodecLaws} (p : Partition) (b ref : list Z) (epoch : Z)
    (Hp : partition_wf p) (He : Encode p = Ok b) (Hlen : Z.of_nat (length b) < 2 ^ 32) :
  exists e, ManifestEntryFor b ref epoch = Ok e /\ me_FileRef e = ref /\ me_Epoch e = epoch /\
    me_PartitionID e = p_ID p /\ me_HostKeyLo e = p_HostKeyLo p /\ me_HostKeyHi e = p_HostKeyHi p /\
    me_URLCount e = Z.of_nat (length (p_URLs p)) /\ me_HostCount e = Z.of_nat (length (p_Hosts p)) /\
    me_CreatedHours e = p_CreatedHours p /\
    forall now, due_part now e = true <-> exists u, u ∈ p_URLs p /\ due_now now u.
Proof.
  destruct (open_of_encoded p b Hp He Hlen) as (pairs & -> & Eo).
  unfold ManifestEntryFor, InspectBytes. rewrite Eo. cbn [mbind res_bind]. eexists. split; [reflexivity |].
  split_and!; try done. intros now. pose proof (MaybeDueAt_ok p pairs Hp now) as Hm. cbv zeta in Hm.
  unfold MaybeDueAt in Hm. cbn [rd_footer] in Hm. unfold due_part. cbn [me_DueMin in_Stats is_DueMin]. exact Hm.
Qed.

#[local] Instance plain_codec : BlockCodec := {| zstd_enc s := s; zstd_dec s _ := Ok s |}.
#[local] Instance plain_codec_laws : BlockCodecLaws.
Proof. constructor; [reflexivity | cbn; lia]. Qed.

Lemma manifest_entry_describes_file_witness :
  exists e, ManifestEntryFor paged_file [97] 4 = Ok e /\ me_URLCount e = 3 /\ due_part 39 e = false /\ due_part 40 e = true.
Proof.
  destruct (manifest_entry_describes_file paged_partition paged_file [97] 4) as (e & He & _ & _ & _ & _ & _ & Hu & _ & _ & Hd).
  - pose proof max_rows_val. split; [fits_const .. | cbn; lia | cbn; lia | fits_const | fits_const].
  - vm_compute. reflexivity.
  - vm_compute. reflexivity.
  - exists e. split; [exact He |]. split; [exact Hu |]. split.
    + apply not_true_iff_false. rewrite (Hd 39). intros (u & Hin & Hn & Hle).
      assert (Hf : Forall (fun u => ~ due_now 39 u) (p_URLs paged_partition)).
      { cbn [paged_partition p_URLs]. rewrite !Forall_cons. unfold due_now. cbn.
        split_and!; (by apply Forall_nil || intros [? ?]; lia). }
      rewrite Forall_forall in Hf. apply (Hf u Hin). split; [exact Hn | exact Hle].
    + apply Hd. exists (example_url 2 3 40). split; [| split; [discriminate | cbn; lia]].
      apply list_elem_of_lookup. exists 2%nat. reflexivity.
Defined.

(** C27: A manifest built from entries holds them sorted by range; when no key has two owners,
    a route answers exactly the entry whose range has the key, and none when none has; and the
    coverage check of an epoch, when only its last entry reaches the top of the key space,
    answers nothing exactly when every key has one owner in the epoch, and otherwise a range
    whose start is the first key that does not. *)
Theorem manifest_routes_and_tiles `{GoSortLaws} (entries : list ManifestEntry) (Hr : Forall range_ok entries) :
  let m := BuildManifest entries in
  (mf_Entries m ≡ₚ entries /\ StronglySorted lo_le (mf_Entries m)) /\
  ((forall hk, (length (owners entries hk) <= 1)%nat) ->
   forall hk e, Route m hk = Some e <-> e ∈ entries /\ covers e hk) /\
  forall ep, top_last (in_epoch ep (mf_Entries m)) -> coverage_of (in_epoch ep entries) (CoverageGap m ep).
Proof.
  cbv zeta. pose proof (build_perm entries) as Hperm. pose proof (build_sorted entries) as Hs.
  set (m := BuildManifest entries) in *. split; [done |].
  assert (Hlen : forall l l' hk, l ≡ₚ l' -> length (owners l hk) = length (owners l' hk)).
  { intros l l' hk E. apply Permutation_length. unfold owners. by rewrite E. }
  assert (Hrm : Forall range_ok (mf_Entries m)) by (by rewrite Hperm). split.
  - intros Hone hk e. rewrite <- Hperm. apply route_ok; [done | done |]. intros k. by rewrite (Hlen _ _ k Hperm).
  - intros ep Ht. unfold CoverageGap. rewrite coverage_in_epoch.
    assert (He : in_epoch ep (mf_Entries m) ≡ₚ in_epoch ep entries) by (unfold in_epoch; by rewrite Hperm).
    pose proof (coverage_ok ep (in_epoch ep (mf_Entries m)) [] 0) as Hc. change (0 =? 0) with true in Hc.
    assert (Hc' : coverage_of ([] ++ in_epoch ep (mf_Entries m)) (coverage_loop ep 0 true (in_epoch ep (mf_Entries m)))).
    { apply Hc; [| by apply StronglySorted_filter | | done | unfold MaxUint64; lia |].
      - apply Forall_forall. by intros e [? _]%list_elem_of_filter.
      - rewrite Forall_forall in Hrm. apply Forall_forall. intros e [_ ?]%list_elem_of_filter. by apply Hrm.
      - intros hk Hk. by bool_lia. }
    cbn [app] in Hc'. destruct (coverage_loop _ _ _ _) as [[lo hi] |]; unfold coverage_of in Hc' |- *.
    + destruct Hc' as (? & ? & Hlo & Hall). rewrite (Hlen _ _ lo He) in Hlo. split_and!; try lia.
      intros hk Hk. rewrite <- (Hlen _ _ hk He). by apply Hall.
    + intros hk Hk. rewrite <- (Hlen _ _ hk He). by apply Hc'.
Qed.

#[local] Existing Instance stable_sort.
#[local] Existing Instance stable_sort_laws.

Definition entry_at (pid lo hi : Z) : ManifestEntry := mkEntry pid [97] lo hi 0 0 0 0 0 0 1.

Lemma manifest_routes_and_tiles_witness :
  coverage_of (in_epoch 1 [entry_at 2 100 MaxUint64; entry_at 1 0 99])
    (CoverageGap (BuildManifest [entry_at 2 100 MaxUint64; entry_at 1 0 99]) 1) /\
  CoverageGap (BuildManifest [entry_at 2 100 MaxUint64; entry_at 1 0 99]) 1 = None.
Proof.
  destruct (manifest_routes_and_tiles [entry_at 2 100 MaxUint64; entry_at 1 0 99]) as (_ & _ & Hc).
  - rewrite !Forall_cons. unfold range_ok, MaxUint64. cbn. split_and!; (lia || by apply Forall_nil).
  - split; [| vm_compute; reflexivity]. apply Hc.
    assert (E : in_epoch 1 (mf_Entries (BuildManifest [entry_at 2 100 MaxUint64; entry_at 1 0 99])) =
      [entry_at 1 0 99; entry_at 2 100 MaxUint64]) by (vm_compute; reflexivity).
    rewrite E. intros [|[|i]] e Hi Hm; cbn in Hi; [injection Hi as <-; discriminate | reflexivity | discriminate].
Defined.

(** A manifest round trips through its serial form, and a single altered byte anywhere in
    the bytes is an error: a bad magic or a checksum mismatch. *)
Theorem manifest_roundtrip_and_detection (m : Manifest) (Hw : Forall entry_wf (mf_Entries m))
    (Hlen : Z.of_nat (length (EncodeManifest m)) < 2 ^ 47) :
  DecodeManifest (EncodeManifest m) = Ok m /\
  forall i x y, EncodeManifest m !! i = Some x -> byte_ok x -> byte_ok y -> x <> y ->
    DecodeManifest (<[i := y]> (EncodeManifest m)) = Err ErrBadMagic \/
    DecodeManifest (<[i := y]> (EncodeManifest m)) = Err ErrChecksum.
Proof. split; [by apply decode_manifest_ok | intros i x y; apply decode_manifest_tampered]. Qed.

Lemma manifest_roundtrip_and_detection_witness :
  DecodeManifest (EncodeManifest (mkManifest [entry_at 1 0 99; entry_at 2 100 MaxUint64])) =
  Ok (mkManifest [entry_at 1 0 99; entry_at 2 100 MaxUint64]).
Proof.
  apply (manifest_roundtrip_and_detection (mkManifest [entry_at 1 0 99; entry_at 2 100 MaxUint64])).
  - cbn [mf_Entries]. rewrite !Forall_cons. unfold entry_wf, entry_at. cbn.
    split_and!; (fits_const || lia || by repeat constructor).
  - vm_compute. reflexivity.
Defined.

(** The check says nothing of two partitions that each cover the whole key space, and it
    reports a covered range as a gap when an entry follows one that reaches the top; and a
    manifest with a sound checksum can make the decoder panic on its count. *)
Theorem manifest_gaps :
  CoverageGap (BuildManifest [entry_at 1 0 MaxUint64; entry_at 2 0 MaxUint64]) 1 = None /\
  CoverageGap (BuildManifest [entry_at 1 0 99; entry_at 2 100 MaxUint64; entry_at 3 150 200]) 1 = Some (0, 149) /\
  (let body := ManifestMagic ++ put_uvarint (2 ^ 62) in
   DecodeManifest (body ++ le_bytes 4 (crc32c body) ++ ManifestMagic) = Err GoPanic).
Proof. split; [reflexivity |]. split; vm_compute; reflexivity. Qed.
