(* ===== verification/Politeness.v ===== *)
(** * The politeness policy (politeness/politeness.go, politeness/iptable.go)

    The interval band and the AIMD controller of one host, and the table of per-IP
    buckets.  A time.Duration is an int64 of nanoseconds; the two multiplicative
    reactions go through float64, computed with the IEEE operations of Floats.v. *)

From Stdlib Require Import SpecFloat.
From S2P Require Import Prelude Words Floats.
Open Scope Z_scope.

(** ** Durations *)

Definition Millisecond : Z := 1000000.
Definition Second : Z := 1000 * Millisecond.
Definition Minute : Z := 60 * Second.

(** ** The policy *)

Record Config := mkConfig {
  c_Default : Z; c_Floor : Z; c_Ceiling : Z; c_IPFloor : Z;
  c_Backoff : spec_float; c_SoftWiden : spec_float; c_Narrow : Z; c_LatencyRise : spec_float }.

Definition DefaultConfig : Config :=
  mkConfig (1 * Second) (250 * Millisecond) (5 * Minute) (500 * Millisecond)
    (f64_of_int 2) (f64_div (f64_of_int 13) (f64_of_int 10)) (100 * Millisecond)
    (f64_div (f64_of_int 3) (f64_of_int 2)).

Definition Clamp (d lo hi : Z) : Z :=
  let hi := if hi <? lo then lo else hi in
  if d <? lo then lo else if hi <? d then hi else d.

Definition HostInterval (c : Config) (adaptive crawlDelay : Z) : Z :=
  Clamp adaptive (Z.max (c_Floor c) crawlDelay) (c_Ceiling c).

(** politeness.Signal *)
Record RateSignal := mkRateSignal { rs_Status : Z; rs_RetryAfter : Z; rs_Latency : Z; rs_PrevLatency : Z }.

Definition backoff (status : Z) : bool := (status =? 429) || ((500 <=? status) && (status <=? 599)).

Definition Adapt (c : Config) (adaptive : Z) (s : RateSignal) : Z :=
  if backoff (rs_Status s) then
    Z.max (f64_to_int64 (f64_mul (f64_of_int adaptive) (c_Backoff c))) (rs_RetryAfter s)
  else if (0 <? rs_PrevLatency s) &&
          (f64_to_int64 (f64_mul (f64_of_int (rs_PrevLatency s)) (c_LatencyRise c)) <? rs_Latency s) then
    f64_to_int64 (f64_mul (f64_of_int adaptive) (c_SoftWiden c))
  else Z.max (i64 (adaptive - c_Narrow c)) 0.

Definition AtCeiling (c : Config) (clamped : Z) : bool := c_Ceiling c <=? clamped.

(** ** The per-IP buckets *)

(** A [16]byte address. *)
Definition IP : Type := list Z.
Definition zeroIP : IP := replicate 16 0.

Record ipBucket := mkIPBucket { ib_nextEligible : Z; ib_touched : Z }.
Record IPTable := mkIPTable { it_buckets : gmap IP ipBucket; it_floor : Z }.

Definition NewIPTable (floor : Z) : IPTable := mkIPTable ∅ floor.

Definition EligibleAt (t : IPTable) (ip : IP) : Z :=
  if decide (ip = zeroIP) then 0
  else match it_buckets t !! ip with Some b => ib_nextEligible b | None => 0 end.

Definition Spend (t : IPTable) (ip : IP) (now interval : Z) : IPTable :=
  if decide (ip = zeroIP) then t
  else
    let step := Z.max interval (it_floor t) in
    let secs := Z.max (Z.quot step Second) 1 in
    mkIPTable (<[ip := mkIPBucket (i64 (now + secs)) now]> (it_buckets t)) (it_floor t).

Definition Evict (t : IPTable) (cutoff : Z) : IPTable * Z :=
  let kept := filter (fun e : IP * ipBucket => ~ ib_touched e.2 <= cutoff) (it_buckets t) in
  (mkIPTable kept (it_floor t), Z.of_nat (size (it_buckets t)) - Z.of_nat (size kept)).

Definition IPTable_Len (t : IPTable) : Z := Z.of_nat (size (it_buckets t)).

(** ** The interval stays in its band *)

Lemma Clamp_bounds d lo hi : lo <= Clamp d lo hi <= Z.max lo hi.
Proof. unfold Clamp. repeat case_match; bool_prop; lia. Qed.

Lemma HostInterval_bounds c adaptive crawlDelay :
  Z.max (c_Floor c) crawlDelay <= HostInterval c adaptive crawlDelay <=
  Z.max (Z.max (c_Floor c) crawlDelay) (c_Ceiling c).
Proof. apply Clamp_bounds. Qed.

Lemma HostInterval_idem c a d : HostInterval c (HostInterval c a d) d = HostInterval c a d.
Proof. unfold HostInterval, Clamp. repeat case_match; bool_prop; lia. Qed.

(** One report's reaction, as the frontier applies it. *)
Definition rate_step (c : Config) (crawlFloor : Z) (d : Z) (s : RateSignal) : Z :=
  HostInterval c (Adapt c d s) crawlFloor.

(** A fetch that neither fails nor slows down. *)
Definition healthy (c : Config) (s : RateSignal) : Prop :=
  backoff (rs_Status s) = false /\
  (rs_PrevLatency s <= 0 \/ rs_Latency s <= f64_to_int64 (f64_mul (f64_of_int (rs_PrevLatency s)) (c_LatencyRise c))).

Lemma Adapt_healthy c d s :
  healthy c s -> 0 <= d < 2 ^ 62 -> 0 <= c_Narrow c < 2 ^ 62 -> Adapt c d s = Z.max (d - c_Narrow c) 0.
Proof.
  intros [Hb Hl] Hd Hn. unfold Adapt. rewrite Hb.
  rewrite (proj2 (andb_false_iff _ _)) by (destruct Hl; [left | right]; by apply Z.ltb_ge).
  by rewrite i64_small by lia.
Qed.

(** The table after a spend. *)
Lemma EligibleAt_Spend t ip now interval ip' :
  ip <> zeroIP -> 0 <= now < 2 ^ 32 -> Z.abs interval < 2 ^ 62 -> Z.abs (it_floor t) < 2 ^ 62 ->
  EligibleAt (Spend t ip now interval) ip' =
  if decide (ip' = ip) then now + Z.max (Z.quot (Z.max interval (it_floor t)) Second) 1 else EligibleAt t ip'.
Proof.
  intros Hip Hnow Hi Hf. unfold Spend, EligibleAt. rewrite (decide_False (P := ip = zeroIP)) by done. cbn [it_buckets].
  assert (Hq : - 2 ^ 62 <= Z.quot (Z.max interval (it_floor t)) Second <= 2 ^ 62).
  { unfold Second, Millisecond. Z.quot_rem_to_equations. lia. }
  destruct (decide (ip' = ip)) as [-> | Hne].
  - rewrite decide_False, lookup_insert_eq by done. cbn. apply i64_small. lia.
  - destruct (decide (ip' = zeroIP)); [done |]. by rewrite lookup_insert_ne.
Qed.

(** The AIMD controller stays in its band and recovers. Whatever the outcome of a
    fetch, the interval a report leaves a host with lies between the floor (the larger
    of the policy's and the site's crawl delay) and the ceiling (the floor, when the
    site asks for more than the ceiling); and [n] healthy fetches in a row narrow it
    by exactly [n] additive steps, stopping at the floor, so a host always comes back
    to its floor. *)
Theorem rate_controller_band (c : Config) (crawlFloor d : Z) (ss : list RateSignal)
    (Hlo : 0 <= Z.max (c_Floor c) crawlFloor) (Hhi : Z.max (Z.max (c_Floor c) crawlFloor) (c_Ceiling c) < 2 ^ 62)
    (Hn : 0 <= c_Narrow c < 2 ^ 62) :
  let lo := Z.max (c_Floor c) crawlFloor in
  let hi := Z.max lo (c_Ceiling c) in
  (forall s, lo <= rate_step c crawlFloor d s <= hi) /\
  (Forall (healthy c) ss -> lo <= d <= hi ->
     foldl (rate_step c crawlFloor) d ss = Z.max lo (d - c_Narrow c * Z.of_nat (length ss))).
Proof.
  intros lo hi. split; [intros s; apply HostInterval_bounds |]. intros Hs. revert d.
  induction Hs as [|s ss Hh _ IH]; intros d Hd; cbn [foldl length]; [lia |].
  assert (E : rate_step c crawlFloor d s = Z.max lo (d - c_Narrow c)).
  { unfold rate_step. rewrite Adapt_healthy by (done || lia). unfold HostInterval, Clamp. fold lo.
    repeat case_match; bool_prop; lia. }
  rewrite E, IH by lia. lia.
Qed.

Example rate_controller_band_witness :
  let s200 := mkRateSignal 200 0 (100 * Millisecond) (100 * Millisecond) in
  foldl (rate_step DefaultConfig 0) (5 * Second) (replicate 10 s200) = 4 * Second /\
  rate_step DefaultConfig 0 (5 * Second) (mkRateSignal 503 0 0 0) = 10 * Second.
Proof.
  split; [| reflexivity].
  destruct (rate_controller_band DefaultConfig 0 (5 * Second)
    (replicate 10 (mkRateSignal 200 0 (100 * Millisecond) (100 * Millisecond)))) as [_ H].
  - discriminate.
  - reflexivity.
  - split; [discriminate | reflexivity].
  - rewrite H; [reflexivity | | split; discriminate].
    apply Forall_replicate. split; [reflexivity | right; vm_compute; discriminate].
Defined.
