(* ===== verification/Robots.v ===== *)
(** * robots.txt (robots/robots.go)

    Parsing a robots.txt body down to the group that applies to the crawler's agent,
    and the longest-match decision over its patterns.  The matcher is proved against
    the meaning of a pattern as a sequence of literals with anything in between. *)

From Stdlib Require Import SpecFloat.
From Stdlib Require String.
Import String.StringSyntax.
From S2P Require Import Prelude Words Floats GoStrings Politeness.
Open Scope Z_scope.

Definition MaxBytes : nat := Z.to_nat (500 * 1024).

Record rule := mkRule { rl_pattern : list Z; rl_allow : bool; rl_length : Z }.
Record group := mkGroup { g_agents : list (list Z); g_rules : list rule; g_crawlDelay : Z }.
Record Rules := mkRules { rules : list rule; crawlDelay : Z; sitemaps : list (list Z) }.

(** ** Parsing *)

Section Parse.
Context `{Unicode}.

Definition splitLine (line : list Z) : option (list Z * list Z) :=
  let line := match IndexByte line 35 with Some i => take i line | None => line end in
  let line := TrimSpace line in
  if bool_decide (line = []) then None
  else match IndexByte line 58 with
  | None => None
  | Some colon =>
      let field := ToLower (TrimSpace (take colon line)) in
      let value := TrimSpace (drop (S colon) line) in
      if bool_decide (field = []) then None else Some (field, value)
  end.

Definition patternLength (p : list Z) : Z :=
  if HasSuffix p [36] then Z.of_nat (length p) - 1 else Z.of_nat (length p).

(** [secs * float64(time.Second)] *)
Definition parseDelay (value : list Z) : option Z :=
  match ParseFloat value with
  | None => None
  | Some secs =>
      if SFltb secs (S754_zero false) then None
      else Some (f64_to_int64 (f64_mul secs (f64_of_int Second)))
  end.

(** The state of the line loop: the groups in file order, whether the last line read
    opened a group, and the sitemaps.  [cur] is the last group. *)
Definition parse_state : Type := list group * bool * list (list Z).

Definition on_last (f : group -> group) (gs : list group) : list group :=
  match reverse gs with g :: r => reverse (f g :: r) | [] => [] end.

Definition parse_line (st : parse_state) (line : list Z) : parse_state :=
  let '(gs, starting, maps) := st in
  match splitLine line with
  | None => st
  | Some (field, value) =>
      if bool_decide (field = bytes_of "user-agent") || bool_decide (field = bytes_of "useragent") then
        let gs := if starting then gs else gs ++ [mkGroup [] [] 0] in
        (on_last (fun g => mkGroup (g_agents g ++ [ToLower value]) (g_rules g) (g_crawlDelay g)) gs, true, maps)
      else if bool_decide (field = bytes_of "allow") || bool_decide (field = bytes_of "disallow") then
        if bool_decide (gs = []) then st
        else
          let r := mkRule value (bool_decide (field = bytes_of "allow")) (patternLength value) in
          (on_last (fun g => mkGroup (g_agents g) (g_rules g ++ [r]) (g_crawlDelay g)) gs, false, maps)
      else if bool_decide (field = bytes_of "crawl-delay") then
        if bool_decide (gs = []) then st
        else match parseDelay value with
             | Some d => (on_last (fun g => mkGroup (g_agents g) (g_rules g) d) gs, false, maps)
             | None => (gs, false, maps)
             end
      else if bool_decide (field = bytes_of "sitemap") then
        (gs, starting, if bool_decide (value = []) then maps else maps ++ [value])
      else st
  end.

(** The two variables [best] and [wildcard] of selectGroup, and [bestLen]. *)
Definition select_state : Type := option group * Z * option group.

Definition select_agent (product : list Z) (g : group) (st : select_state) (agent : list Z) : select_state :=
  let '(best, bestLen, wild) := st in
  if bool_decide (agent = [42]) then (best, bestLen, match wild with Some _ => wild | None => Some g end)
  else if HasPrefix product agent && (bestLen <? Z.of_nat (length agent)) then (Some g, Z.of_nat (length agent), wild)
  else st.

Definition selectGroup (groups : list group) (product : list Z) : option group :=
  let '(best, _, wild) :=
    foldl (fun st g => foldl (select_agent product g) st (g_agents g)) (None, -1, None) groups in
  match best with Some _ => best | None => wild end.

(** [None] is the nil *Rules: everything is allowed. *)
Definition Parse (body : list Z) (userAgent : list Z) : option Rules :=
  let body := take MaxBytes body in
  let body := if HasPrefix body [0xEF; 0xBB; 0xBF] then drop 3 body else body in
  let product := ToLower userAgent in
  let '(groups, _, maps) := foldl parse_line ([], false, []) (scan_lines body [] MaxBytes) in
  let best := selectGroup groups product in
  match best with
  | None => if bool_decide (maps = []) then None else Some (mkRules [] 0 maps)
  | Some g => Some (mkRules (g_rules g) (g_crawlDelay g) maps)
  end.

End Parse.

(** ** The decision *)

Definition lastSegmentEmpty (segments : list (list Z)) : bool := bool_decide (last segments = Some []).

(** The loop over the segments from index [i]; [path] is what is left from [pos] on,
    [None] the early [return false]. *)
Fixpoint match_segments (segs : list (list Z)) (first anchored : bool) (path : list Z) : option (list Z) :=
  match segs with
  | [] => Some path
  | seg :: segs =>
      if bool_decide (seg = []) then match_segments segs false anchored path
      else if first then
        if HasPrefix path seg then match_segments segs false anchored (drop (length seg) path) else None
      else if bool_decide (segs = []) && anchored then
        if HasSuffix path seg then match_segments segs false anchored [] else None
      else match Index path seg with
           | None => None
           | Some idx => match_segments segs false anchored (drop (idx + length seg) path)
           end
  end.

(** [match] in the source, a keyword here. *)
Definition match_path (pattern path : list Z) : bool :=
  if bool_decide (pattern = []) then false
  else
    let anchored := HasSuffix pattern [36] in
    let pattern := if anchored then take (length pattern - 1) pattern else pattern in
    let segments := SplitByte pattern 42 in
    match match_segments segments true anchored path with
    | None => false
    | Some rest =>
        if anchored && lastSegmentEmpty segments then true
        else if anchored && bool_decide (rest <> []) then false
        else true
    end.

Definition allow_step (path : list Z) (st : Z * bool) (rl : rule) : Z * bool :=
  let '(bestLen, allow) := st in
  if negb (match_path (rl_pattern rl) path) then st
  else if bestLen <? rl_length rl then (rl_length rl, rl_allow rl)
  else if (rl_length rl =? bestLen) && rl_allow rl then (bestLen, true)
  else st.

Definition Allowed (r : option Rules) (path : list Z) : bool :=
  match r with
  | None => true
  | Some r => if bool_decide (rules r = []) then true else (foldl (allow_step path) (-1, true) (rules r)).2
  end.

Definition CrawlDelay (r : option Rules) : Z := match r with None => 0 | Some r => crawlDelay r end.
Definition Sitemaps (r : option Rules) : list (list Z) := match r with None => [] | Some r => sitemaps r end.

(** ** What a pattern means *)

(** The literals of a pattern between its stars, laid out in order with anything in
    between; [anchored] leaves nothing after the last. *)
Fixpoint laid_out (segs : list (list Z)) (anchored : bool) (path : list Z) : Prop :=
  match segs with
  | [] => if anchored then path = [] else True
  | seg :: segs =>
      exists gap rest, path = gap ++ seg ++ rest /\ laid_out segs anchored rest
  end.

Definition pattern_means (pattern path : list Z) : Prop :=
  let anchored := HasSuffix pattern [36] in
  let body := if anchored then take (length pattern - 1) pattern else pattern in
  match SplitByte body 42 with
  | [] => False
  | seg :: segs => exists rest, path = seg ++ rest /\ laid_out segs anchored rest
  end.

(** *** Searches *)

Lemma HasPrefix_spec s p : HasPrefix s p = true <-> exists t, s = p ++ t.
Proof.
  revert s. induction p as [|c p IH]; intros s; [split; [by exists s | by destruct s] |].
  destruct s as [|d s]; cbn [HasPrefix]; [split; [done | by intros [t [=]]] |].
  rewrite andb_true_iff, Z.eqb_eq, IH. split.
  - intros [-> [t ->]]. by exists t.
  - intros [t Ht]. injection Ht as -> ->. eauto.
Qed.

Lemma HasSuffix_spec s p : HasSuffix s p = true <-> exists t, s = t ++ p.
Proof.
  unfold HasSuffix. rewrite andb_true_iff, Nat.leb_le, bool_decide_eq_true. split.
  - intros [_ <-]. eexists. symmetry. apply take_drop.
  - intros [t ->]. rewrite length_app, Nat.add_sub. split; [lia | by apply drop_app_exact].
Qed.

(** The first occurrence leaves the longest rest. *)
Lemma Index_Some s p i : Index s p = Some i -> exists a b, s = a ++ p ++ b /\ length a = i /\
  forall a' b', s = a' ++ p ++ b' -> (i <= length a')%nat.
Proof.
  revert i. induction s as [|c s IH]; intros i; cbn [Index].
  - destruct (HasPrefix [] p) eqn:E; [| done]. intros [= <-]. apply HasPrefix_spec in E as [t Ht].
    exists [], t. split; [done |]. split; [done | intros; lia].
  - destruct (HasPrefix (c :: s) p) eqn:E.
    + intros [= <-]. apply HasPrefix_spec in E as [t Ht]. exists [], t. split; [done |]. split; [done | intros; lia].
    + destruct (Index s p) as [j |]; [| done]. intros [= <-]. destruct (IH j eq_refl) as (a & b & -> & <- & Hmin).
      exists (c :: a), b. split; [done |]. split; [done |]. intros [|c' a'] b' Hs.
      * exfalso. assert (HasPrefix (c :: a ++ p ++ b) p = true) by (apply HasPrefix_spec; eauto). congruence.
      * injection Hs as -> Hs. cbn [length]. apply le_n_S. by eapply Hmin.
Qed.

Lemma Index_None s p : Index s p = None -> forall a b, s <> a ++ p ++ b.
Proof.
  induction s as [|c s IH]; cbn [Index].
  - destruct (HasPrefix [] p) eqn:E; [done |]. intros _ [|? ?] b Hs; [| done]. exfalso.
    assert (HasPrefix [] p = true) by (apply HasPrefix_spec; eauto). congruence.
  - destruct (HasPrefix (c :: s) p) eqn:E; [done |]. destruct (Index s p); [done |]. intros _ [|c' a] b Hs.
    + assert (HasPrefix (c :: s) p = true) by (apply HasPrefix_spec; eauto). congruence.
    + injection Hs as -> Hs. by apply (IH eq_refl a b).
Qed.

(** *** The matcher *)

Lemma laid_out_absorb segs anchored x path :
  segs <> [] -> laid_out segs anchored path -> laid_out segs anchored (x ++ path).
Proof.
  destruct segs as [|seg segs]; [done |]. intros _ (gap & rest & -> & H). exists (x ++ gap), rest.
  by rewrite <- (assoc_L (++)).
Qed.

(** What the loop's result stands for once the last test has been made. *)
Definition settled (segs : list (list Z)) (anchored : bool) (r : option (list Z)) : bool :=
  match r with
  | None => false
  | Some rest => if anchored && lastSegmentEmpty segs then true else negb (anchored && bool_decide (rest <> []))
  end.

Lemma lastSegmentEmpty_cons seg s segs : lastSegmentEmpty (seg :: s :: segs) = lastSegmentEmpty (s :: segs).
Proof. done. Qed.

Lemma match_tail segs anchored path :
  segs <> [] -> settled segs anchored (match_segments segs false anchored path) = true <-> laid_out segs anchored path.
Proof.
  revert path. induction segs as [|seg segs IH]; intros path Hne; [done |]. cbn [match_segments].
  destruct segs as [|s segs].
  - clear IH Hne. cbn [match_segments laid_out]. unfold settled, lastSegmentEmpty. simpl last.
    destruct (decide (seg = [])) as [-> | Hs].
    { rewrite !bool_decide_eq_true_2, andb_true_r by done. split; [| by destruct anchored]. intros _.
      exists path, []. split; [by rewrite app_nil_r | by destruct anchored]. }
    rewrite !(bool_decide_eq_false_2 (seg = [])), (bool_decide_eq_false_2 (Some seg = Some [])) by congruence.
    rewrite bool_decide_eq_true_2, andb_false_r by done. cbn [andb]. destruct anchored; cbn [andb negb].
    + destruct (HasSuffix path seg) eqn:E.
      * rewrite bool_decide_eq_false_2 by (by intros []). apply HasSuffix_spec in E as [t ->]. split; [| done]. intros _.
        exists t, []. by rewrite app_nil_r.
      * split; [done |]. intros (gap & rest & -> & ->). rewrite app_nil_r in E.
        assert (HasSuffix (gap ++ seg) seg = true) by (apply HasSuffix_spec; eauto). congruence.
    + destruct (Index path seg) as [i |] eqn:E.
      * split; [| done]. intros _. apply Index_Some in E as (a & b & -> & _). eauto.
      * split; [done |]. intros (gap & rest & -> & _). exfalso. by apply (Index_None _ _ E gap rest).
  - specialize (fun p => IH p ltac:(done)). unfold settled in IH |- *. rewrite lastSegmentEmpty_cons.
    assert (Hl : forall q, laid_out (seg :: s :: segs) anchored q <->
      exists gap rest, q = gap ++ seg ++ rest /\ laid_out (s :: segs) anchored rest) by done.
    rewrite Hl. destruct (decide (seg = [])) as [-> | Hs].
    { rewrite bool_decide_eq_true_2, IH by done. split.
      - intros H. by exists [], path.
      - intros (gap & rest & -> & H). by apply laid_out_absorb. }
    rewrite (bool_decide_eq_false_2 (seg = [])), (bool_decide_eq_false_2 (s :: segs = [])) by done. cbn [andb].
    destruct (Index path seg) as [i |] eqn:E.
    + apply Index_Some in E as (a & b & -> & Hi & Hmin). rewrite app_assoc, drop_app_exact by (rewrite length_app; lia).
      rewrite IH. split.
      * intros H. exists a, b. by rewrite <- app_assoc.
      * intros (gap & rest & Hp & H). rewrite <- app_assoc in Hp. specialize (Hmin _ _ Hp).
        assert (Hb : exists x, b = x ++ rest).
        { exists (take (length gap - i) b). rewrite <- (take_drop (length gap - i) b) at 1. f_equal.
          assert (Hb : b = drop (length a + length seg) (gap ++ seg ++ rest)).
          { rewrite <- Hp, app_assoc. symmetry. apply drop_app_exact. by rewrite length_app. }
          rewrite Hb, drop_drop, app_assoc. apply drop_app_exact. rewrite length_app. lia. }
        destruct Hb as [x ->]. by apply laid_out_absorb.
    + split; [done |]. intros (gap & rest & -> & _). exfalso. by apply (Index_None _ _ E gap rest).
Qed.

Lemma SplitByte_empty s c : SplitByte s c = [[]] -> s = [].
Proof.
  destruct s as [|x s]; [done |]. cbn [SplitByte].
  assert (H : forall t, SplitByte t c <> []) by (intros [|y t]; cbn [SplitByte]; [done |]; repeat case_match; done).
  destruct (x =? c); [intros [= E]; by apply H in E |]. destruct (SplitByte s c); done.
Qed.

Lemma match_path_means pattern path :
  pattern <> [] -> pattern <> [36] -> match_path pattern path = true <-> pattern_means pattern path.
Proof.
  intros Hne Hd. unfold match_path, pattern_means. rewrite bool_decide_eq_false_2 by done. cbv zeta.
  set (anchored := HasSuffix pattern [36]). set (body := if anchored then _ else pattern).
  assert (Hb : body <> []).
  { unfold body. destruct anchored eqn:Ea; [| done]. apply HasSuffix_spec in Ea as [t ->].
    rewrite length_app. cbn [length]. rewrite Nat.add_sub, take_app_length. by destruct t. }
  destruct (SplitByte body 42) as [|seg segs] eqn:Es.
  { exfalso. destruct body as [|x b]; [done |]. cbn [SplitByte] in Es. repeat case_match; done. }
  change (settled (seg :: segs) anchored (match_segments (seg :: segs) true anchored path) = true <->
          exists rest, path = seg ++ rest /\ laid_out segs anchored rest).
  assert (Htail : forall rest, segs <> [] \/ seg <> [] ->
    settled (seg :: segs) anchored (match_segments segs false anchored rest) = true <-> laid_out segs anchored rest).
  { intros rest Hor. destruct segs as [|s segs]; [| rewrite <- match_tail by done; by unfold settled].
    destruct Hor as [? | Hs]; [done |]. cbn [match_segments laid_out]. unfold settled, lastSegmentEmpty. simpl last.
    rewrite bool_decide_eq_false_2, andb_false_r by congruence. destruct anchored; [| done]. cbn [andb].
    rewrite negb_true_iff, bool_decide_eq_false. destruct rest; naive_solver. }
  cbn [match_segments]. destruct (decide (seg = [])) as [-> | Hs].
  - rewrite bool_decide_eq_true_2 by done. rewrite Htail.
    + split; [intros H; by exists path | by intros (rest & -> & H)].
    + left. intros ->. by apply Hb, (SplitByte_empty _ 42).
  - rewrite (bool_decide_eq_false_2 (seg = [])) by done. destruct (HasPrefix path seg) eqn:E.
    + apply HasPrefix_spec in E as [t ->]. rewrite drop_app_exact, Htail by (done || by right). split.
      * intros H. by exists t.
      * intros (rest & Hp & H). by apply app_inv_head in Hp as ->.
    + split; [done |]. intros (rest & -> & H). assert (HasPrefix (seg ++ rest) seg = true) by (apply HasPrefix_spec; eauto).
      congruence.
Qed.

(** *** The longest match *)

Definition applies (path : list Z) (rl : rule) : Prop := match_path (rl_pattern rl) path = true.
#[local] Instance applies_dec path rl : Decision (applies path rl).
Proof. unfold applies. apply _. Defined.

(** The state of the loop after the rules [rs]. *)
Record allow_inv (path : list Z) (rs : list rule) (st : Z * bool) : Prop := {
  ai_none : Forall (fun rl => ~ applies path rl) rs -> st = (-1, true);
  ai_best rl : rl ∈ rs -> applies path rl -> rl_length rl <= st.1;
  ai_attained : (exists rl, rl ∈ rs /\ applies path rl) -> exists rl, rl ∈ rs /\ applies path rl /\ rl_length rl = st.1;
  ai_verdict : (exists rl, rl ∈ rs /\ applies path rl) ->
    st.2 = true <-> exists rl, rl ∈ rs /\ applies path rl /\ rl_length rl = st.1 /\ rl_allow rl = true }.

Lemma allow_step_inv path rs st rl :
  0 <= rl_length rl -> allow_inv path rs st -> allow_inv path (rs ++ [rl]) (allow_step path st rl).
Proof.
  intros Hlen [Hn Hb Ha Hv]. destruct st as [bestLen allow]. unfold allow_step. cbn [fst snd] in *.
  assert (Hin : forall x, x ∈ rs ++ [rl] <-> x ∈ rs \/ x = rl) by (intros x; rewrite elem_of_app, list_elem_of_singleton; done).
  destruct (match_path (rl_pattern rl) path) eqn:E; cbn [negb].
  2: { assert (Hno : ~ applies path rl) by (unfold applies; congruence).
    assert (Hex : (exists x, x ∈ rs ++ [rl] /\ applies path x) <-> exists x, x ∈ rs /\ applies path x) by (setoid_rewrite Hin; naive_solver).
    split; cbn [fst snd].
    - intros [H _]%Forall_app. by apply Hn.
    - intros x [Hx | ->]%Hin Hx2; [by apply Hb | done].
    - intros (x & Hx & Hx1 & Hx2)%Hex%Ha. exists x. rewrite Hin. auto.
    - intros Hx%Hex. rewrite (Hv Hx). split.
      + intros (x & Hx1 & Hx2). exists x. rewrite Hin. auto.
      + intros (x & [Hx1 | ->]%Hin & Hx2 & Hx3); [eauto | done]. }
  assert (Hyes : applies path rl) by done.
  assert (Hold : (exists x, x ∈ rs /\ applies path x) \/ bestLen = -1 /\ allow = true /\ forall x, x ∈ rs -> ~ applies path x).
  { destruct (decide (Exists (applies path) rs)) as [He | He].
    - left. apply Exists_exists in He. naive_solver.
    - right. assert (Hf : Forall (fun x => ~ applies path x) rs) by (by apply Forall_Exists_neg). pose proof (Hn Hf) as [= -> ->].
      by rewrite Forall_forall in Hf. }
  assert (Hnn : ~ Forall (fun x => ~ applies path x) (rs ++ [rl])).
  { rewrite Forall_app, Forall_singleton. tauto. }
  destruct (bestLen <? rl_length rl) eqn:El; bool_prop; [| destruct ((rl_length rl =? bestLen) && rl_allow rl) eqn:Et; bool_prop].
  - split; cbn [fst snd]; [done | | |].
    + intros x [Hx | ->]%Hin Hx2; [specialize (Hb x Hx Hx2); lia | lia].
    + intros _. exists rl. rewrite Hin. auto.
    + intros _. split; [intros Hal; exists rl; rewrite Hin; auto |].
      intros (x & [Hx | ->]%Hin & Hx1 & Hx2 & Hx3); [specialize (Hb x Hx Hx1); lia | done].
  - split; cbn [fst snd]; [done | | |].
    + intros x [Hx | ->]%Hin Hx2; [by apply Hb | lia].
    + intros _. exists rl. rewrite Hin. auto.
    + intros _. split; [intros _; exists rl; rewrite Hin; auto | done].
  - destruct Hold as [Hold | (-> & -> & Hno)]; [| lia]. split; cbn [fst snd]; [done | | |].
    + intros x [Hx | ->]%Hin Hx2; [by apply Hb | lia].
    + intros _. destruct (Ha Hold) as (x & Hx & Hx1 & Hx2). exists x. rewrite Hin. auto.
    + intros _. rewrite (Hv Hold). split.
      * intros (x & Hx & Hx1 & Hx2 & Hx3). exists x. rewrite Hin. auto.
      * intros (x & [Hx | ->]%Hin & Hx1 & Hx2 & Hx3); [eauto |]. apply andb_false_iff in Et as [Et | Et]; bool_prop; [lia | congruence].
Qed.

Lemma allow_loop_inv path rs : Forall (fun rl => 0 <= rl_length rl) rs -> allow_inv path rs (foldl (allow_step path) (-1, true) rs).
Proof.
  induction rs as [|rl rs IH] using rev_ind; intros Hf.
  - split; [done | by intros ? ?%not_elem_of_nil | |]; by intros (? & ?%not_elem_of_nil & _).
  - apply Forall_app in Hf as [Hf Hl]. rewrite foldl_app. cbn [foldl]. apply allow_step_inv; [by rewrite Forall_singleton in Hl | auto].
Qed.

(** *** The rules of a parsed file *)

Lemma patternLength_nonneg p : 0 <= patternLength p.
Proof.
  unfold patternLength. destruct (HasSuffix p [36]) eqn:E; [| lia]. apply HasSuffix_spec in E as [t ->].
  rewrite length_app. simpl. lia.
Qed.

Section ParseFacts.
Context `{Unicode}.

Definition group_ok (g : group) : Prop := Forall (fun rl => 0 <= rl_length rl) (g_rules g).

Lemma on_last_ok f gs : (forall g, group_ok g -> group_ok (f g)) -> Forall group_ok gs -> Forall group_ok (on_last f gs).
Proof.
  intros Hf Hg. unfold on_last. destruct (reverse gs) as [|g r] eqn:E; [constructor |].
  rewrite <- (reverse_involutive gs), E in Hg. rewrite reverse_cons, Forall_app, Forall_singleton in Hg. destruct Hg as [Hr Hg].
  rewrite reverse_cons, Forall_app, Forall_singleton. auto.
Qed.

Lemma parse_line_ok st line : Forall group_ok st.1.1 -> Forall group_ok (parse_line st line).1.1.
Proof.
  destruct st as [[gs starting] maps]. cbn [fst]. intros Hg. unfold parse_line.
  destruct (splitLine line) as [[field value] |]; [| done].
  repeat case_match; cbn [fst]; try done; apply on_last_ok; try (intros g Hg'; done).
  - done.
  - apply Forall_app. split; [done |]. apply Forall_singleton. constructor.
  - intros g Hg'. apply Forall_app. split; [done |]. apply Forall_singleton. apply patternLength_nonneg.
  - done.
  - done.
Qed.

Lemma selectGroup_in groups product g : selectGroup groups product = Some g -> g ∈ groups.
Proof.
  unfold selectGroup.
  enough (Hst : forall gs st, (forall x, st.1.1 = Some x \/ st.2 = Some x -> x ∈ groups) -> (forall x, x ∈ gs -> x ∈ groups) ->
    let st' := foldl (fun st g => foldl (select_agent product g) st (g_agents g)) st gs in
    forall x, st'.1.1 = Some x \/ st'.2 = Some x -> x ∈ groups).
  { specialize (Hst groups (None, -1, None) ltac:(by intros x [[=] | [=]]) ltac:(done)). cbv zeta in Hst.
    match type of Hst with context [(?f).2] => destruct f as [[best l] wild] end. cbn [fst snd] in Hst.
    intros E. apply Hst. destruct best; [by left | by right]. }
  induction gs as [|g0 gs IH]; intros st Hst Hin; [done |]. cbn [foldl]. apply IH; [| intros x Hx; apply Hin; by right].
  pose proof (Hin g0 ltac:(left)) as Hg0. clear IH Hin gs. revert st Hst. induction (g_agents g0) as [|a l IH]; intros st Hst; [done |].
  cbn [foldl]. apply IH. destruct st as [[best bl] wild]. cbn [fst snd] in *. unfold select_agent.
  repeat case_match; cbn [fst snd]; intros x [Hx | Hx]; simplify_eq; auto.
Qed.

Lemma parse_lines_ok lines st : Forall group_ok st.1.1 -> Forall group_ok (foldl parse_line st lines).1.1.
Proof. revert st. induction lines as [|line lines IH]; intros st Hs; [done |]. apply IH, parse_line_ok, Hs. Qed.

Lemma Parse_rules_ok body agent r : Parse body agent = Some r -> Forall (fun rl => 0 <= rl_length rl) (rules r).
Proof.
  unfold Parse. set (lines := scan_lines _ _ _).
  pose proof (parse_lines_ok lines ([], false, []) ltac:(constructor)) as Hst.
  destruct (foldl parse_line _ lines) as [[groups start] maps]. cbn [fst] in Hst.
  destruct (selectGroup groups (ToLower agent)) as [g |] eqn:Eg.
  - intros [= <-]. cbn [rules]. rewrite Forall_forall in Hst. apply Hst. by eapply selectGroup_in.
  - case_bool_decide; [done |]. intros [= <-]. constructor.
Qed.

End ParseFacts.
(** C39: The robots decision is the longest match. For the rules parsed from any
    robots.txt body, a path is allowed exactly when no rule's pattern matches it or an
    Allow rule that matches is at least as long as every rule that matches; and a
    pattern other than the empty one and a lone [$] matches a path exactly when the
    path is laid out as the pattern's literals in order with anything at its stars,
    starting at the beginning and, under a trailing [$], ending at the end. The empty
    pattern matches nothing, while a lone [$] matches every path and not just the
    empty one. *)
Theorem robots_longest_match `{Unicode} (body agent : list Z) (r : Rules) (path : list Z)
    (Hp : Parse body agent = Some r) :
  (Allowed (Some r) path = true <->
     (forall rl, rl ∈ rules r -> ~ applies path rl) \/
     exists rl, rl ∈ rules r /\ applies path rl /\ rl_allow rl = true /\
       forall rl', rl' ∈ rules r -> applies path rl' -> rl_length rl' <= rl_length rl) /\
  (forall pattern, pattern <> [] -> pattern <> [36] -> match_path pattern path = true <-> pattern_means pattern path) /\
  match_path [] path = false /\ match_path [36] path = true /\ (pattern_means [36] path <-> path = []).
Proof.
  apply Parse_rules_ok in Hp as Hr.
  split; [| split; [intros; by apply match_path_means | split; [done | split; [done |]]]].
  - cbn [Allowed]. destruct (allow_loop_inv path (rules r) Hr) as [Hn Hb Ha Hv].
    destruct (decide (rules r = [])) as [E | E].
    { rewrite bool_decide_eq_true_2 by done. split; [| done]. intros _. left. rewrite E. by intros ? ?%not_elem_of_nil. }
    rewrite bool_decide_eq_false_2 by done. destruct (foldl (allow_step path) (-1, true) (rules r)) as [best allow]. cbn [fst snd] in *.
    destruct (decide (Exists (applies path) (rules r))) as [He | He].
    + apply Exists_exists in He as (x0 & Hx0 & Hx1). rewrite Hv by eauto. split.
      * intros (x & Hx & Hap & Hl & Hal). right. exists x. split; [done |]. split; [done |]. split; [done |].
        rewrite Hl. exact Hb.
      * intros [Hno | (x & Hx & Hap & Hal & Hmax)]; [by apply Hno in Hx0 |]. destruct Ha as (y & Hy & Hyp & Hl); [eauto |].
        exists x. split; [done |]. split; [done |]. split; [| done]. specialize (Hb x Hx Hap). specialize (Hmax y Hy Hyp). lia.
    + assert (Hf : Forall (fun x => ~ applies path x) (rules r)) by (by apply Forall_Exists_neg).
      pose proof (Hn Hf) as [= -> ->]. split; [| done]. intros _. left. by rewrite Forall_forall in Hf.
  - unfold pattern_means. simpl. split; [by intros (rest & -> & ->) | intros ->; by exists []].
Qed.

(** ASCII text only. *)
#[local] Instance ascii_unicode : Unicode := {| unicode_lower s := s; unicode_trim s := s |}.

Definition robots_example : list Z :=
  bytes_of "User-agent: other" ++ [10] ++ bytes_of "Disallow: /" ++ [13; 10] ++
  bytes_of "User-Agent: Meg # prefix" ++ [10] ++ bytes_of "Disallow: /private*.html$" ++ [10] ++
  bytes_of "allow: /private/ok" ++ [10] ++ bytes_of "Crawl-delay: 2.5".

Example robots_longest_match_witness :
  exists r, Parse robots_example (bytes_of "meguri/1.0") = Some r /\ CrawlDelay (Some r) = 2500 * Millisecond /\
    Allowed (Some r) (bytes_of "/private/a.html") = false /\ Allowed (Some r) (bytes_of "/private/a.htm") = true /\
    pattern_means (bytes_of "/private*.html$") (bytes_of "/private/a.html").
Proof.
  destruct (Parse robots_example (bytes_of "meguri/1.0")) as [r |] eqn:E; [| vm_compute in E; discriminate].
  destruct (robots_longest_match _ _ r (bytes_of "/private/a.html") E) as (_ & Hm & _).
  exists r. split; [done |]. vm_compute in E. injection E as <-.
  split; [reflexivity |]. split; [reflexivity |]. split; [reflexivity |].
  apply Hm; [discriminate | discriminate | reflexivity].
Defined.
