(* ===== verification/Admission.v ===== *)
(** * Admission and change classification (dedup/trap.go, dedup/content.go)

    The blunt per-host admission test, the soft-404 detector that counts the distinct
    URLs of a host sharing one content fingerprint, the simhash and the verdict that
    compares a fetch with the signals of the last one. *)

From S2P Require Import Prelude Words Model Updates.
Open Scope Z_scope.

(** ** Admission *)

Definition FlagTrapSuspect (h : HostRecord) : HostRecord := hset_Flags h (Z.lor (h_Flags h) HostFlagTrapSuspect).

Definition IsTrapSuspect (h : HostRecord) : bool := negb (Z.land (h_Flags h) HostFlagTrapSuspect =? 0).

Definition Admit (depth : Z) (h : HostRecord) (passesHeuristics : bool) : URLStatus :=
  if (0 <? h_DepthCap h) && (h_DepthCap h <? depth) then StatusTrapped
  else if (0 <? h_URLBudget h) && (h_URLBudget h <=? h_URLCount h) then StatusTrapped
  else if IsTrapSuspect h && negb passesHeuristics then StatusTrapped
  else StatusScheduled.

(** ** Soft-404 detection *)

Definition softThreshold : Z := 8.

Record SoftDetector := mkSoft {
  sd_threshold : Z;
  sd_seen : gmap Z (gmap Z (gset URLKey));
  sd_template : gmap Z (gset Z) }.

Definition NewSoftDetector : SoftDetector := mkSoft softThreshold ∅ ∅.

Definition WithThreshold (d : SoftDetector) (n : Z) : SoftDetector :=
  if 0 <? n then mkSoft n (sd_seen d) (sd_template d) else d.

(** Reading a nil map is reading the empty one. *)
Definition isTemplate (d : SoftDetector) (hostKey fp : Z) : bool :=
  bool_decide (fp ∈ default ∅ (sd_template d !! hostKey)).

Definition markTemplate (d : SoftDetector) (hostKey fp : Z) : SoftDetector :=
  mkSoft (sd_threshold d) (sd_seen d)
    (<[hostKey := {[fp]} ∪ default ∅ (sd_template d !! hostKey)]> (sd_template d)).

Definition soft_Observe (d : SoftDetector) (hostKey fp : Z) (key : URLKey) : SoftDetector * bool :=
  if fp =? 0 then (d, false)
  else if isTemplate d hostKey fp then (d, true)
  else
    let byFP := default ∅ (sd_seen d !! hostKey) in
    let keys := {[key]} ∪ default ∅ (byFP !! fp) in
    let d := mkSoft (sd_threshold d) (<[hostKey := <[fp := keys]> byFP]> (sd_seen d)) (sd_template d) in
    if sd_threshold d <=? Z.of_nat (size keys) then
      let d := markTemplate d hostKey fp in
      (mkSoft (sd_threshold d) (<[hostKey := delete fp byFP]> (sd_seen d)) (sd_template d), true)
    else (d, false).

(** ** Content signals *)

(** bits.OnesCount64 *)
Definition OnesCount64 (x : Z) : Z :=
  foldr (fun i n => n + (if Z.testbit x (Z.of_nat i) then 1 else 0)) 0 (seq 0 64).

Definition nearThreshold : Z := 3.
Definition Near (a b : Z) : bool := OnesCount64 (Z.lxor a b) <=? nearThreshold.

Inductive ChangeKind := NoChange | CosmeticChange | RealChange.
#[export] Instance ChangeKind_eq_dec : EqDecision ChangeKind.
Proof. solve_decision. Defined.

Definition ClassifyChange (oldFP newFP oldSimhash newSimhash : Z) : ChangeKind :=
  if oldFP =? newFP then NoChange
  else if Near oldSimhash newSimhash then CosmeticChange
  else RealChange.

Record WeightedFeature := mkFeature { wf_Token : list Z; wf_Weight : Z }.

(** The accumulator is 64 int64 counters; the order of the features does not matter
    to a sum modulo 2^64. *)
Definition simhash_add `{XXHash} (acc : list Z) (f : WeightedFeature) : list Z :=
  let h := xxh64 (wf_Token f) in
  imap (fun i a => if Z.testbit h (Z.of_nat i) then i64 (a + wf_Weight f) else i64 (a - wf_Weight f)) acc.

Definition Simhash `{XXHash} (features : list WeightedFeature) : Z :=
  let acc := foldl simhash_add (replicate 64 0) features in
  foldl (fun sig (p : nat * Z) => if 0 <? p.2 then Z.lor sig (Z.shiftl 1 (Z.of_nat p.1)) else sig) 0
    (imap pair acc).

(** SimhashText: only letters and digits make tokens, so a rune outside ASCII ends one,
    and so do the bytes of its encoding. *)
Definition token_byte (r : Z) : option Z :=
  if ((97 <=? r) && (r <=? 122)) || ((48 <=? r) && (r <=? 57)) then Some r
  else if (65 <=? r) && (r <=? 90) then Some (r + 32)
  else None.

Definition flush_token (tf : gmap (list Z) Z) (b : list Z) : gmap (list Z) Z :=
  if (0 <? length b)%nat then <[b := i64 (default 0 (tf !! b) + 1)]> tf else tf.

Fixpoint term_freqs (text : list Z) (tf : gmap (list Z) Z) (b : list Z) : gmap (list Z) Z :=
  match text with
  | [] => flush_token tf b
  | r :: text =>
      match token_byte r with
      | Some c => term_freqs text tf (b ++ [c])
      | None => term_freqs text (flush_token tf b) []
      end
  end.

(** [order] is the order in which Go visits the map of terms. *)
Definition SimhashText `{XXHash} (order : gmap (list Z) Z -> list (list Z * Z)) (text : list Z) : Z :=
  let tf := term_freqs text ∅ [] in
  if bool_decide (tf = ∅) then 0
  else Simhash ((fun p => mkFeature p.1 p.2) <$> order tf).

Definition ContentFP `{XXHash} (body : list Z) : Z := xxh64 body.

Definition is_space (c : Z) : bool :=
  (c =? 32) || (c =? 9) || (c =? 10) || (c =? 13) || (c =? 12) || (c =? 11).

Fixpoint normalize_loop (body out : list Z) (inSpace : bool) : list Z :=
  match body with
  | [] => out
  | c :: body =>
      if is_space c then normalize_loop body out true
      else
        let out := if inSpace && (0 <? length out)%nat then out ++ [32] else out in
        normalize_loop body (out ++ [c]) false
  end.
Definition NormalizeBody (body : list Z) : list Z := normalize_loop body [] false.

(** ** The soft-404 detector counts distinct URLs *)

(** The URLs of [host] a run has reported with fingerprint [fp]. *)
Definition with_fp (host fp : Z) (log : list (Z * Z * URLKey)) : gset URLKey :=
  list_to_set (snd <$> filter (fun e => e.1 = (host, fp)) log).

Record soft_rel (d : SoftDetector) (log : list (Z * Z * URLKey)) : Prop := {
  sr_threshold : 0 < sd_threshold d;
  sr_template host fp : isTemplate d host fp = true <->
    fp <> 0 /\ sd_threshold d <= Z.of_nat (size (with_fp host fp log));
  sr_seen host fp : fp <> 0 -> isTemplate d host fp = false ->
    default ∅ (default ∅ (sd_seen d !! host) !! fp) = with_fp host fp log }.

Lemma with_fp_cons host fp h f k log :
  with_fp host fp ((h, f, k) :: log) = (if decide ((h, f) = (host, fp)) then {[k]} else ∅) ∪ with_fp host fp log.
Proof.
  unfold with_fp. rewrite filter_cons. cbn [fst snd].
  destruct (decide ((h, f) = (host, fp))) as [_ | _]; [done |]. by rewrite (left_id_L ∅ (∪)).
Qed.

Lemma isTemplate_mark d h f host fp :
  isTemplate (markTemplate d h f) host fp = bool_decide ((h, f) = (host, fp)) || isTemplate d host fp.
Proof.
  unfold isTemplate, markTemplate. cbn [sd_template]. destruct (decide (h = host)) as [-> | Hne].
  - rewrite lookup_insert_eq. simpl. apply eq_true_iff_eq.
    rewrite orb_true_iff, !bool_decide_eq_true, elem_of_union, elem_of_singleton. naive_solver.
  - rewrite lookup_insert_ne by done. rewrite (bool_decide_eq_false_2 ((h, f) = (host, fp))) by congruence. done.
Qed.

(** What the new entry changes: one set, by one key. *)
Lemma with_fp_step host fp key log h f :
  with_fp h f ((host, fp, key) :: log) = if decide ((host, fp) = (h, f)) then {[key]} ∪ with_fp h f log else with_fp h f log.
Proof. rewrite with_fp_cons. case_decide; [done |]. by rewrite (left_id_L ∅ (∪)). Qed.

Lemma with_fp_mono host fp key log h f :
  (size (with_fp h f log) <= size (with_fp h f ((host, fp, key) :: log)))%nat.
Proof. apply subseteq_size. rewrite with_fp_step. case_decide; set_solver. Qed.

(** The detector's entry of (host, fp) after a write. *)
Lemma seen_lookup d host fp (keys : gset URLKey) h f :
  default ∅ (default ∅ (<[host := <[fp := keys]> (default ∅ (sd_seen d !! host))]> (sd_seen d) !! h) !! f) =
  if decide ((host, fp) = (h, f)) then keys else default ∅ (default ∅ (sd_seen d !! h) !! f).
Proof.
  destruct (decide (host = h)) as [-> | Hh].
  - rewrite lookup_insert_eq. simpl. destruct (decide (fp = f)) as [-> | Hf].
    + rewrite lookup_insert_eq, decide_True; done.
    + rewrite lookup_insert_ne, decide_False; [done | congruence | done].
  - rewrite lookup_insert_ne, decide_False; [done | congruence | done].
Qed.

Lemma seen_lookup_delete d host fp h f :
  (host, fp) <> (h, f) ->
  default ∅ (default ∅ (<[host := delete fp (default ∅ (sd_seen d !! host))]> (sd_seen d) !! h) !! f) =
  default ∅ (default ∅ (sd_seen d !! h) !! f).
Proof.
  intros Hne. destruct (decide (host = h)) as [-> | Hh].
  - rewrite lookup_insert_eq. simpl. rewrite lookup_delete_ne; [done | congruence].
  - by rewrite lookup_insert_ne.
Qed.

Lemma soft_observe_rel d log host fp key :
  soft_rel d log ->
  soft_rel (soft_Observe d host fp key).1 ((host, fp, key) :: log) /\
  (soft_Observe d host fp key).2 =
    negb (fp =? 0) && (sd_threshold d <=? Z.of_nat (size (with_fp host fp ((host, fp, key) :: log)))).
Proof.
  intros [Ht Hm Hs]. unfold soft_Observe.
  assert (Hgrow : forall h f, isTemplate d h f = true ->
    f <> 0 /\ sd_threshold d <= Z.of_nat (size (with_fp h f ((host, fp, key) :: log)))).
  { intros h f HT. apply Hm in HT as [HT1 HT2]. split; [done |]. pose proof (with_fp_mono host fp key log h f). lia. }
  destruct (Z.eqb_spec fp 0) as [-> | Hfp].
  { split; [| done]. split; [done | |].
    - intros h f. rewrite Hm, with_fp_step. split; intros [H1 H2]; (split; [done |]);
        (rewrite decide_False in * by congruence); done.
    - intros h f Hf HT. rewrite with_fp_step, decide_False by congruence. by apply Hs. }
  destruct (isTemplate d host fp) eqn:ET.
  { cbn [fst snd negb andb]. destruct (Hgrow _ _ ET) as [_ Hsz]. split; [| symmetry; by apply Z.leb_le]. split; [done | |].
    - intros h f. split; [apply Hgrow |]. rewrite with_fp_step. case_decide as E; [by injection E as <- <- | apply Hm].
    - intros h f Hf HT. rewrite with_fp_step, decide_False by congruence. by apply Hs. }
  pose proof (Hs host fp Hfp ET) as Hset. cbv zeta. cbn [sd_threshold]. rewrite Hset.
  assert (Hnew : with_fp host fp ((host, fp, key) :: log) = {[key]} ∪ with_fp host fp log)
    by (rewrite with_fp_step, decide_True; done).
  rewrite Hnew. destruct (sd_threshold d <=? _) eqn:El; bool_prop; cbn [fst snd negb andb].
  - split; [| done]. split; [done | |].
    + intros h f. cbn [sd_threshold markTemplate].
      change (isTemplate _ h f) with (isTemplate (markTemplate d host fp) h f). rewrite isTemplate_mark, with_fp_step.
      rewrite orb_true_iff, bool_decide_eq_true, Hm. case_decide as E; [injection E as <- <- |]; naive_solver.
    + intros h f Hf. cbn [sd_seen markTemplate sd_threshold].
      change (isTemplate _ h f) with (isTemplate (markTemplate d host fp) h f).
      rewrite (isTemplate_mark d). intros [Hne HT]%orb_false_iff. apply bool_decide_eq_false in Hne.
      rewrite with_fp_step, decide_False by done. rewrite insert_insert_eq, seen_lookup_delete by done. by apply Hs.
  - split; [| done]. split; [done | |].
    + intros h f. cbn [sd_threshold]. change (isTemplate _ h f) with (isTemplate d h f).
      rewrite Hm, with_fp_step. case_decide as E; [| done]. injection E as <- <-.
      split; [| lia]. intros HT%Hm. congruence.
    + intros h f Hf HT. cbn [sd_seen]. change (isTemplate _ h f) with (isTemplate d h f) in HT.
      rewrite seen_lookup, with_fp_step. case_decide; [congruence | by apply Hs].
Qed.

Fixpoint soft_run (d : SoftDetector) (os : list (Z * Z * URLKey)) : list bool :=
  match os with
  | [] => []
  | o :: os => let '(d, b) := soft_Observe d o.1.1 o.1.2 o.2 in b :: soft_run d os
  end.

(** What the detector must answer: the fingerprint has now been seen on at least
    [threshold] distinct URLs of the host. *)
Fixpoint soft_spec (threshold : Z) (log os : list (Z * Z * URLKey)) : list bool :=
  match os with
  | [] => []
  | o :: os =>
      negb (o.1.2 =? 0) && (threshold <=? Z.of_nat (size (with_fp o.1.1 o.1.2 (o :: log))))
        :: soft_spec threshold (o :: log) os
  end.

(** The soft-404 detector counts distinct URLs. For any threshold set with
    WithThreshold and any sequence of observations, each answer is true exactly when
    the fingerprint is not zero and the host has by then returned it for at least
    threshold distinct URLs, repeats of one URL not counting; dropping the counting set
    of a confirmed template does not change any later answer. *)
Theorem soft_detector_counts (n : Z) (os : list (Z * Z * URLKey)) :
  soft_run (WithThreshold NewSoftDetector n) os = soft_spec (if 0 <? n then n else softThreshold) [] os.
Proof.
  set (d := WithThreshold NewSoftDetector n). set (t := if 0 <? n then n else softThreshold).
  assert (Et : sd_threshold d = t) by (unfold d, t, WithThreshold; by case_match).
  assert (R : soft_rel d []).
  { split.
    - rewrite Et. unfold t. case_match; bool_prop; [lia | done].
    - intros host fp. assert (Z.of_nat (size (with_fp host fp [])) = 0) as -> by done. rewrite Et.
      assert (isTemplate d host fp = false) as -> by (unfold d, WithThreshold; by case_match).
      split; [done |]. unfold t. case_match; bool_prop; unfold softThreshold; lia.
    - intros host fp _ _. unfold d, WithThreshold. by case_match. }
  clearbody d t. clear n. generalize (@nil (Z * Z * URLKey)) as log, R. clear R. intros log.
  revert d Et log. induction os as [|[[h f] k] os IH]; intros d Et log R; [done |]. cbn [soft_run soft_spec fst snd].
  destruct (soft_observe_rel d log h f k R) as [R' E].
  assert (Et' : sd_threshold (soft_Observe d h f k).1 = t).
  { rewrite <- Et. unfold soft_Observe, markTemplate. repeat (case_match; try done). }
  destruct (soft_Observe d h f k) as [d' b]. cbn [fst snd] in *. rewrite E, Et. f_equal. by apply IH.
Qed.
