(* ===== verification/TrapDetect.v ===== *)
(** * Trap patterns (dedup/trapdetect.go)

    A URL bears the signature of a trap when it points to a month past the crawl horizon,
    stacks facet parameters, or carries a session id. The detector counts the distinct
    signature URLs of a host, per kind (per base path for session ids), makes a host suspect
    when a count reaches the threshold, and parks on a suspect host the URLs that bear a
    signature it is flagged for. net/url is a parameter: it splits a URL into its path and
    its query values. *)

From S2P Require Import Prelude Words Model GoStrings.
From Stdlib Require String.
Import String.StringSyntax.
Open Scope Z_scope.

Inductive PatternKind := PatternNone | PatternCalendar | PatternFaceted | PatternSession.
#[export] Instance PatternKind_eq_dec : EqDecision PatternKind.
Proof. solve_decision. Defined.

Definition kind_String (k : PatternKind) : list Z :=
  match k with
  | PatternCalendar => bytes_of "calendar"
  | PatternFaceted => bytes_of "faceted"
  | PatternSession => bytes_of "session"
  | PatternNone => bytes_of "none"
  end.

Definition defaultHorizonMonths : Z := 12.
Definition defaultFacetLimit : Z := 3.
Definition defaultFlagThreshold : Z := 16.
Definition sessionMinLen : nat := 12.

Definition facetParams : list (list Z) :=
  [bytes_of "filter"; bytes_of "facet"; bytes_of "refine"; bytes_of "narrow";
   bytes_of "color"; bytes_of "colour"; bytes_of "size"; bytes_of "brand";
   bytes_of "price"; bytes_of "price_min"; bytes_of "price_max"; bytes_of "minprice"; bytes_of "maxprice";
   bytes_of "pricerange"; bytes_of "sort"; bytes_of "sortby"; bytes_of "order"; bytes_of "orderby";
   bytes_of "view"; bytes_of "mode"; bytes_of "layout"; bytes_of "category"; bytes_of "cat";
   bytes_of "tag"; bytes_of "tags"; bytes_of "style"; bytes_of "material"; bytes_of "rating";
   bytes_of "availability"; bytes_of "instock"; bytes_of "attr"; bytes_of "option"].

Definition sessionParams : list (list Z) :=
  [bytes_of "sid"; bytes_of "sessionid"; bytes_of "session_id"; bytes_of "sessid";
   bytes_of "sess"; bytes_of "jsessionid"; bytes_of "phpsessid"; bytes_of "aspsessionid";
   bytes_of "aspxauth"; bytes_of "cfid"; bytes_of "cftoken"; bytes_of "sessiontoken";
   bytes_of "session_token"; bytes_of "sessionkey"; bytes_of "bsessionid"; bytes_of "zenid";
   bytes_of "oscsid"; bytes_of "ssid"].

Definition dateQueryKeys : list (list Z) :=
  [bytes_of "date"; bytes_of "day"; bytes_of "month"; bytes_of "year";
   bytes_of "from"; bytes_of "to"; bytes_of "start"; bytes_of "end"; bytes_of "when"].

(** ** Dates *)

(** Howard Hinnant's algorithm; Go's division truncates. *)
Definition civilFromDays (z : Z) : Z * Z * Z :=
  let z := z + 719468 in
  let era := (if z <? 0 then z - 146096 else z) ÷ 146097 in
  let doe := z - era * 146097 in
  let yoe := (doe - doe ÷ 1460 + doe ÷ 36524 - doe ÷ 146096) ÷ 365 in
  let y := yoe + era * 400 in
  let doy := doe - (365 * yoe + yoe ÷ 4 - yoe ÷ 100) in
  let mp := (5 * doy + 2) ÷ 153 in
  let day := doy - (153 * mp + 2) ÷ 5 + 1 in
  let month := if 10 <=? mp then mp - 9 else mp + 3 in
  let y := if month <=? 2 then y + 1 else y in
  (y, month, day).

Definition nowMonths (epochHours : Z) : Z :=
  let days := epochHours * 3600 ÷ 86400 in
  let '(y, m, _) := civilFromDays days in
  y * 12 + (m - 1).

(** strconv.Atoi *)
Definition Atoi (s : list Z) : option Z :=
  let '(neg, ds) := match s with
                    | 45 :: ds => (true, ds)
                    | 43 :: ds => (false, ds)
                    | _ => (false, s)
                    end in
  if (length ds =? 0)%nat || negb (forallb is_digit ds) then None
  else
    let n := foldl (fun n c => n * 10 + (c - 48)) 0 ds in
    let v := if neg : bool then - n else n in
    if (- 2 ^ 63 <=? v) && (v <? 2 ^ 63) then Some v else None.

Definition plausibleYear (y : Z) : bool := (1990 <=? y) && (y <=? 2099).

(** A month number: what Atoi accepts between 1 and 12. *)
Definition month_of (s : list Z) : option Z :=
  m ← Atoi s; if (m <? 1) || (12 <? m) then None else Some m.

Definition year_of (s : list Z) : option Z :=
  y ← Atoi s; if plausibleYear y then Some y else None.

Fixpoint pathYearMonth_segs (segs : list (list Z)) : option (Z * Z) :=
  match segs with
  | [] => None
  | s :: segs =>
      match year_of s with
      | None => pathYearMonth_segs segs
      | Some y =>
          match segs with
          | [] => None
          | s' :: _ =>
              match month_of s' with
              | None => pathYearMonth_segs segs
              | Some m => Some (y, m)
              end
          end
      end
  end.

Definition pathYearMonth (path : list Z) : option (Z * Z) := pathYearMonth_segs (SplitByte path 47).

Section Values.
Context `{Unicode}.

Definition parseDateValue (v : list Z) : option (Z * Z) :=
  let v := TrimSpace v in
  let sep := if negb (bool_decide (is_Some (IndexByte v 45))) && bool_decide (is_Some (IndexByte v 47)) then 47 else 45 in
  match SplitByte v sep with
  | p0 :: p1 :: _ => y ← year_of p0; m ← month_of p1; Some (y, m)
  | _ => None
  end.
End Values.

(** ** Queries

    A query is a map from keys to their values in order. *)
Abbreviation Values := (gmap (list Z) (list (list Z))).

(** url.Values.Get *)
Definition q_Get (q : Values) (key : list Z) : list Z := default [] (q !! key ≫= head).

(** net/url: the path and the query of a URL, or no parse. *)
Class URLParse := { url_Parse : list Z -> option (list Z * Values) }.

(** The order in which a range statement walks a query. Go chooses one afresh at every
    statement, so what depends on it takes it as an argument, call by call; the ranges
    whose order is immaterial use one fixed order. *)
Abbreviation ranger := (Values -> list (list Z * list (list Z))).
Definition walks (r : ranger) : Prop := forall q, r q ≡ₚ map_to_list q.

Definition is_letter (c : Z) : bool := ((97 <=? c) && (c <=? 122)) || ((65 <=? c) && (c <=? 90)).
Definition is_other (c : Z) : bool := (c =? 45) || (c =? 95) || (c =? 46) || (c =? 37).
Definition count_bytes (f : Z -> bool) (v : list Z) : nat := length (filter (fun c => f c = true) v).

Definition highEntropyToken (v : list Z) : bool :=
  if (length v <? sessionMinLen)%nat then false
  else if negb (forallb (fun c => is_letter c || is_digit c || is_other c) v) then false
  else (2 <=? count_bytes is_letter v)%nat && (1 <=? count_bytes is_digit v)%nat &&
       (count_bytes is_other v <=? length v / 4)%nat.

Section Rules.
Context `{Unicode}.

Definition hasDateKey (q : Values) : bool :=
  existsb (fun kv => bool_decide (ToLower kv.1 ∈ dateQueryKeys)) (map_to_list q).

Fixpoint first_date (vs : list (list Z)) : option (Z * Z) :=
  match vs with
  | [] => None
  | v :: vs => match parseDateValue v with Some d => Some d | None => first_date vs end
  end.

(** The values of the date keys, in the order of the range. *)
Fixpoint first_key_date (kvs : list (list Z * list (list Z))) : option (Z * Z) :=
  match kvs with
  | [] => None
  | (key, vs) :: kvs =>
      let lk := ToLower key in
      if negb (bool_decide (lk ∈ dateQueryKeys)) || bool_decide (lk = bytes_of "year") || bool_decide (lk = bytes_of "month")
      then first_key_date kvs
      else match first_date vs with Some d => Some d | None => first_key_date kvs end
  end.

Definition queryYearMonth (r : ranger) (q : Values) : option Z :=
  if negb (hasDateKey q) then None
  else
    let ys := q_Get q (bytes_of "year") in
    match (if negb (bool_decide (ys = [])) then year_of ys else None) with
    | Some y => Some (y * 12 + (default 1 (month_of (q_Get q (bytes_of "month"))) - 1))
    | None => '(y, m) ← first_key_date (r q); Some (y * 12 + (m - 1))
    end.

Definition urlMonths (r : ranger) (path : list Z) (q : Values) : option Z :=
  match pathYearMonth path with
  | Some (y, m) => Some (y * 12 + (m - 1))
  | None => queryYearMonth r q
  end.

Definition sessionViolation (q : Values) : bool :=
  existsb (fun kv => bool_decide (ToLower kv.1 ∈ sessionParams) && existsb highEntropyToken kv.2) (map_to_list q).

Definition facet_count (q : Values) : nat :=
  length (filter (fun kv => ToLower kv.1 ∈ facetParams) (map_to_list q)).
End Rules.

(** ** The detector *)

Record hostTrap := mkHostTrap {
  ht_cal : Z; ht_fac : Z; ht_session : gmap (list Z) Z;
  ht_flagCal : bool; ht_flagFac : bool; ht_flagSes : bool;
  ht_seen : gset URLKey
}.

Record TrapDetector := mkTrapDetector {
  td_horizonMonths : Z; td_facetLimit : Z; td_flagThreshold : Z; td_hosts : gmap Z hostTrap
}.

Definition TrapOption : Type := TrapDetector -> TrapDetector.

Definition WithCalendarHorizon (months : Z) : TrapOption := fun d =>
  if 0 <? months then mkTrapDetector months (td_facetLimit d) (td_flagThreshold d) (td_hosts d) else d.
Definition WithFacetLimit (n : Z) : TrapOption := fun d =>
  if 0 <? n then mkTrapDetector (td_horizonMonths d) n (td_flagThreshold d) (td_hosts d) else d.
Definition WithFlagThreshold (n : Z) : TrapOption := fun d =>
  if 0 <? n then mkTrapDetector (td_horizonMonths d) (td_facetLimit d) n (td_hosts d) else d.

Definition NewTrapDetector (opts : list TrapOption) : TrapDetector :=
  foldl (fun d o => o d) (mkTrapDetector defaultHorizonMonths defaultFacetLimit defaultFlagThreshold ∅) opts.

Definition anyFlagged (ht : hostTrap) : bool := ht_flagCal ht || ht_flagSes ht || ht_flagFac ht.

(** The canonical URL without its query. *)
Definition basePath (canonURL : list Z) : list Z := (Cut canonURL [63]).1.1.

Definition new_hostTrap : hostTrap := mkHostTrap 0 0 ∅ false false false ∅.

(** The switch of [Observe] on the kind. *)
Definition count_kind (threshold : Z) (kind : PatternKind) (base : list Z) (ht : hostTrap) : hostTrap :=
  match kind with
  | PatternCalendar =>
      let n := ht_cal ht + 1 in
      mkHostTrap n (ht_fac ht) (ht_session ht) (ht_flagCal ht || (threshold <=? n)) (ht_flagFac ht) (ht_flagSes ht) (ht_seen ht)
  | PatternFaceted =>
      let n := ht_fac ht + 1 in
      mkHostTrap (ht_cal ht) n (ht_session ht) (ht_flagCal ht) (ht_flagFac ht || (threshold <=? n)) (ht_flagSes ht) (ht_seen ht)
  | PatternSession =>
      let n := default 0 (ht_session ht !! base) + 1 in
      mkHostTrap (ht_cal ht) (ht_fac ht) (<[base := n]> (ht_session ht)) (ht_flagCal ht) (ht_flagFac ht)
        (ht_flagSes ht || (threshold <=? n)) (ht_seen ht)
  | PatternNone => ht
  end.

Section Detector.
Context `{Unicode} `{URLParse}.

Definition calendarViolation (d : TrapDetector) (r : ranger) (path : list Z) (q : Values) (now : Z) : bool :=
  match urlMonths r path q with
  | None => false
  | Some months => i64 (nowMonths now + td_horizonMonths d) <? months
  end.

Definition facetViolation (d : TrapDetector) (q : Values) : bool := td_facetLimit d <=? Z.of_nat (facet_count q).

Definition Violation (d : TrapDetector) (r : ranger) (canonURL : list Z) (now : Z) : PatternKind :=
  match url_Parse canonURL with
  | None => PatternNone
  | Some (path, q) =>
      if calendarViolation d r path q now then PatternCalendar
      else if sessionViolation q then PatternSession
      else if facetViolation d q then PatternFaceted
      else PatternNone
  end.

Definition td_set_host (d : TrapDetector) (hostKey : Z) (ht : hostTrap) : TrapDetector :=
  mkTrapDetector (td_horizonMonths d) (td_facetLimit d) (td_flagThreshold d) (<[hostKey := ht]> (td_hosts d)).

Definition td_Observe (d : TrapDetector) (r : ranger) (hostKey : Z) (key : URLKey) (canonURL : list Z) (now : Z)
    : TrapDetector * (PatternKind * bool) :=
  let kind := Violation d r canonURL now in
  if decide (kind = PatternNone) then (d, (PatternNone, false))
  else
    let ht := default new_hostTrap (td_hosts d !! hostKey) in
    if decide (key ∈ ht_seen ht) then (td_set_host d hostKey ht, (kind, false))
    else
      let wasSuspect := anyFlagged ht in
      let ht := mkHostTrap (ht_cal ht) (ht_fac ht) (ht_session ht) (ht_flagCal ht) (ht_flagFac ht) (ht_flagSes ht)
                  ({[key]} ∪ ht_seen ht) in
      let ht := count_kind (td_flagThreshold d) kind (basePath canonURL) ht in
      (td_set_host d hostKey ht, (kind, anyFlagged ht && negb wasSuspect)).

Definition Suspect (d : TrapDetector) (hostKey : Z) : bool :=
  match td_hosts d !! hostKey with None => false | Some ht => anyFlagged ht end.

(** Calendar, faceted, session. *)
Definition Flags (d : TrapDetector) (hostKey : Z) : bool * bool * bool :=
  match td_hosts d !! hostKey with
  | None => (false, false, false)
  | Some ht => (ht_flagCal ht, ht_flagFac ht, ht_flagSes ht)
  end.

Definition Passes (d : TrapDetector) (r : ranger) (hostKey : Z) (canonURL : list Z) (now : Z) : bool :=
  match td_hosts d !! hostKey with
  | None => true
  | Some ht =>
      if negb (anyFlagged ht) then true
      else
        match url_Parse canonURL with
        | None => true
        | Some (path, q) =>
            if ht_flagCal ht && calendarViolation d r path q now then false
            else if ht_flagSes ht && sessionViolation q then false
            else if ht_flagFac ht && facetViolation d q then false
            else true
        end
  end.
End Detector.

(** ** The Gregorian calendar *)

Definition leap (y : Z) : bool := (y `mod` 4 =? 0) && (negb (y `mod` 100 =? 0) || (y `mod` 400 =? 0)).

Definition month_days (lp : bool) (m : Z) : Z :=
  if m =? 2 then (if lp then 29 else 28)
  else if (m =? 4) || (m =? 6) || (m =? 9) || (m =? 11) then 30 else 31.

Definition next_day (date : Z * Z * Z) : Z * Z * Z :=
  let '(y, m, d) := date in
  if d <? month_days (leap y) m then (y, m, d + 1)
  else if m <? 12 then (y, m + 1, 1) else (y + 1, 1, 1).

(** The algorithm in parts: the year of a day of an era of 400 years that start in March,
    the day a year starts on, and the date of a day of the year. *)
Definition year_of_era (doe : Z) : Z := (doe - doe / 1460 + doe / 36524 - doe / 146096) / 365.
Definition year_start (yoe : Z) : Z := 365 * yoe + yoe / 4 - yoe / 100.
Definition year_end (yoe : Z) : Z := if yoe =? 399 then 146097 else year_start (yoe + 1).
Definition day_date (doy : Z) : Z * Z * Z :=
  let mp := (5 * doy + 2) / 153 in
  let month := if 10 <=? mp then mp - 9 else mp + 3 in
  (if month <=? 2 then 1 else 0, month, doy - (153 * mp + 2) / 5 + 1).

Definition date_of (y doy : Z) : Z * Z * Z := let '(bump, m, d) := day_date doy in (y + bump, m, d).

Lemma quot_div a b : 0 <= a -> 0 < b -> a ÷ b = a / b.
Proof. intros. by apply Z.quot_div_nonneg. Qed.

Lemma year_of_era_mono a b : 0 <= a <= b -> b < 146097 -> year_of_era a <= year_of_era b.
Proof.
  assert (Hstep : forall x, 0 <= x -> x + 1 < 146097 -> year_of_era x <= year_of_era (x + 1)).
  { intros x H0 H1. unfold year_of_era. apply Z.div_le_mono; [lia |]. Z.to_euclidean_division_equations. lia. }
  intros Hab. replace b with (a + Z.of_nat (Z.to_nat (b - a))) by lia. generalize (Z.to_nat (b - a)). intros n.
  induction n as [|n IH]; intros Hb; [by rewrite Z.add_0_r |].
  rewrite Nat2Z.inj_succ, <- Z.add_1_r, Z.add_assoc in *. etrans; [apply IH; lia | apply Hstep; lia].
Qed.

(** The tables are checked at the first and last day of each year of an era. *)
Definition year_checks (yoe : Z) : bool :=
  (year_of_era (year_start yoe) =? yoe) && (year_of_era (year_end yoe - 1) =? yoe) &&
  (year_end yoe - year_start yoe =? (if leap (yoe + 1) then 366 else 365)) && (0 <=? year_start yoe) && (year_end yoe <=? 146097).

Lemma year_checks_hold yoe : 0 <= yoe < 400 -> year_checks yoe = true.
Proof.
  intros Hy. assert (Hall : forallb (fun i => year_checks (Z.of_nat i)) (seq 0 400) = true) by (vm_compute; reflexivity).
  rewrite forallb_forall in Hall. specialize (Hall (Z.to_nat yoe)). rewrite Z2Nat.id in Hall by lia.
  apply Hall, in_seq. lia.
Qed.

Lemma year_of_era_spec yoe doe : 0 <= yoe < 400 -> year_start yoe <= doe < year_end yoe -> year_of_era doe = yoe.
Proof.
  intros Hy Hd. pose proof (year_checks_hold yoe Hy) as Hc. unfold year_checks in Hc.
  repeat (apply andb_prop in Hc as [Hc ?]). rewrite ?Z.eqb_eq, ?Z.leb_le in *.
  pose proof (year_of_era_mono (year_start yoe) doe). pose proof (year_of_era_mono doe (year_end yoe - 1)). lia.
Qed.

(** Every day of an era is in a year. *)
Lemma year_of_day doe : 0 <= doe < 146097 -> exists yoe, 0 <= yoe < 400 /\ year_start yoe <= doe < year_end yoe.
Proof.
  intros Hd. set (p := fun n => doe <? year_end (Z.of_nat n)).
  assert (Hex : p 399%nat = true) by (unfold p; change (year_end (Z.of_nat 399)) with 146097; apply Z.ltb_lt; lia).
  assert (Hleast : exists n, (n < 400)%nat /\ p n = true /\ forall k, (k < n)%nat -> p k = false).
  { clear -Hex. assert (H : forall n, p n = true -> exists k, (k <= n)%nat /\ p k = true /\ forall j, (j < k)%nat -> p j = false).
    { induction n as [n IH] using lt_wf_ind. intros Hn.
      destruct (decide (Exists (fun k => p k = true) (seq 0 n))) as [He | He].
      - apply Exists_exists in He as (k & Hk & Ek). apply elem_of_seq in Hk. destruct (IH k ltac:(lia) Ek) as (j & Hj & Hr).
        exists j. split; [lia | done].
      - exists n. split; [lia |]. split; [done |]. intros j Hj. apply not_true_is_false. intros E. apply He, Exists_exists.
        exists j. split; [apply elem_of_seq; lia | done]. }
    destruct (H _ Hex) as (k & Hk & Hr). exists k. split; [lia | done]. }
  destruct Hleast as (n & Hn & Hp & Hlt). exists (Z.of_nat n). split; [lia |]. unfold p in Hp. apply Z.ltb_lt in Hp.
  split; [| done]. destruct n as [|n]; [change (year_start (Z.of_nat 0)) with 0; lia |]. specialize (Hlt n ltac:(lia)). unfold p in Hlt. apply Z.ltb_ge in Hlt.
  unfold year_end in Hlt. destruct (Z.eqb_spec (Z.of_nat n) 399); [lia |].
  by rewrite Nat2Z.inj_succ, <- Z.add_1_r.
Qed.

(** [civilFromDays] in those parts. *)
Lemma civil_parts z era yoe doy : 0 <= yoe < 400 -> 0 <= doy -> year_start yoe + doy < year_end yoe ->
  z + 719468 = era * 146097 + year_start yoe + doy -> civilFromDays z = date_of (yoe + era * 400) doy.
Proof.
  intros Hy Hdoy Hend Hz. pose proof (year_checks_hold yoe Hy) as Hc. unfold year_checks in Hc.
  repeat (apply andb_prop in Hc as [Hc ?]). rewrite ?Z.eqb_eq, ?Z.leb_le in *.
  set (doe := year_start yoe + doy). assert (Hdoe : 0 <= doe < 146097) by (unfold doe; lia).
  assert (Hera : (if z + 719468 <? 0 then z + 719468 - 146096 else z + 719468) ÷ 146097 = era).
  { rewrite Hz. destruct (Z.ltb_spec (era * 146097 + year_start yoe + doy) 0) as [Hn | Hn].
    - assert (era < 0) by (unfold doe in *; lia).
      rewrite <- (Z.opp_involutive (_ - 146096)), Z.quot_opp_l, quot_div by (unfold doe in *; lia).
      apply Z.opp_inj. rewrite Z.opp_involutive. symmetry. apply Z.div_unique with (146096 - doe); unfold doe in *; lia.
    - rewrite quot_div by lia. symmetry. apply Z.div_unique with doe; unfold doe in *; lia. }
  unfold civilFromDays. cbv zeta. rewrite Hera.
  replace (z + 719468 - era * 146097) with doe by (unfold doe; lia).
  assert (Hyoe : (doe - doe ÷ 1460 + doe ÷ 36524 - doe ÷ 146096) ÷ 365 = yoe).
  { rewrite !(quot_div doe) by lia. rewrite quot_div; [apply (year_of_era_spec yoe doe Hy); unfold doe; lia | | lia].
    Z.to_euclidean_division_equations. lia. }
  rewrite Hyoe. rewrite !(quot_div yoe) by lia. fold (year_start yoe).
  replace (doe - year_start yoe) with doy by (unfold doe; lia).
  assert (0 <= (5 * doy + 2) / 153) by (apply Z.div_pos; lia).
  rewrite (quot_div (5 * doy + 2)) by lia. rewrite (quot_div (153 * _ + 2)) by lia.
  unfold date_of, day_date. cbv zeta. destruct (_ <=? 2); f_equal; f_equal; lia.
Qed.

Lemma leap_era y era : leap (y + era * 400) = leap y.
Proof.
  unfold leap. replace (y + era * 400) with (y + (era * 100) * 4) at 1 by lia. rewrite Z.mod_add by lia.
  replace (y + era * 400) with (y + (era * 4) * 100) at 1 by lia. rewrite Z.mod_add by lia. by rewrite Z.mod_add by lia.
Qed.

(** The day after, counting years from [y]. *)
Definition step_date (lp : bool) (date : Z * Z * Z) : Z * Z * Z :=
  let '(bump, m, d) := date in
  if d <? month_days lp m then (bump, m, d + 1)
  else if m <? 12 then (bump, m + 1, 1) else (bump + 1, 1, 1).

Definition shift_year (y : Z) (date : Z * Z * Z) : Z * Z * Z := let '(bump, m, d) := date in (y + bump, m, d).

Lemma next_day_step y date : next_day (shift_year y date) = shift_year y (step_date (leap (y + date.1.1)) date).
Proof.
  destruct date as [[bump m] d]. cbn. destruct (d <? _); [done |]. destruct (m <? 12); [done |].
  cbn. by rewrite Z.add_assoc.
Qed.

Lemma date_of_shift y doy : date_of y doy = shift_year y (day_date doy).
Proof. unfold date_of, shift_year. by destruct (day_date doy) as [[??]?]. Qed.

Definition day_check (doy : Z) : bool :=
  bool_decide (step_date true (day_date doy) = day_date (doy + 1)) &&
  bool_decide (step_date false (day_date doy) = day_date (doy + 1)).

Lemma day_check_holds doy : 0 <= doy < 364 -> forall lp, step_date lp (day_date doy) = day_date (doy + 1).
Proof.
  intros Hd lp. assert (Hall : forallb (fun i => day_check (Z.of_nat i)) (seq 0 364) = true) by (vm_compute; reflexivity).
  rewrite forallb_forall in Hall. specialize (Hall (Z.to_nat doy)). rewrite Z2Nat.id in Hall by lia.
  specialize (Hall ltac:(apply in_seq; lia)). unfold day_check in Hall. apply andb_prop in Hall as [H1 H2].
  rewrite bool_decide_eq_true in H1, H2. by destruct lp.
Qed.

Lemma next_in_year y doy : 0 <= doy < 365 -> (doy = 364 -> leap (y + 1) = true) ->
  next_day (date_of y doy) = date_of y (doy + 1).
Proof.
  intros Hd Hl. rewrite !date_of_shift, next_day_step. f_equal. destruct (decide (doy = 364)) as [-> | Hne].
  - change (day_date 364).1.1 with 1. by rewrite Hl.
  - apply day_check_holds. lia.
Qed.

Lemma next_year y doy : doy = (if leap (y + 1) then 365 else 364) -> next_day (date_of y doy) = date_of (y + 1) 0.
Proof.
  intros ->. rewrite !date_of_shift, next_day_step.
  destruct (leap (y + 1)) eqn:El.
  - change (day_date 365).1.1 with 1. rewrite El. change (step_date true (day_date 365)) with (1, 3, 1).
    change (day_date 0) with (0, 3, 1). cbn [shift_year]. by rewrite Z.add_0_r.
  - change (day_date 364).1.1 with 1. rewrite El. change (step_date false (day_date 364)) with (1, 3, 1).
    change (day_date 0) with (0, 3, 1). cbn [shift_year]. by rewrite Z.add_0_r.
Qed.

Lemma civil_next z : civilFromDays (z + 1) = next_day (civilFromDays z).
Proof.
  set (era := (z + 719468) / 146097). set (doe := (z + 719468) mod 146097).
  pose proof (Z.div_mod (z + 719468) 146097 ltac:(lia)) as Hz. fold era doe in Hz.
  assert (Hdoe : 0 <= doe < 146097) by (apply Z.mod_pos_bound; lia).
  destruct (year_of_day doe Hdoe) as (yoe & Hy & Hlo & Hhi).
  set (doy := doe - year_start yoe).
  rewrite (civil_parts z era yoe doy Hy) by (unfold doy; lia).
  pose proof (year_checks_hold yoe Hy) as Hc. unfold year_checks in Hc.
  repeat (apply andb_prop in Hc as [Hc ?]). rewrite ?Z.eqb_eq, ?Z.leb_le in *.
  assert (Hlen : doy < if leap (yoe + era * 400 + 1) then 366 else 365).
  { replace (yoe + era * 400 + 1) with (yoe + 1 + era * 400) by lia. rewrite leap_era. unfold doy. lia. }
  assert (Hlast : year_start yoe + (if leap (yoe + era * 400 + 1) then 366 else 365) = year_end yoe).
  { replace (yoe + era * 400 + 1) with (yoe + 1 + era * 400) by lia. rewrite leap_era. lia. }
  destruct (decide (year_start yoe + doy + 1 < year_end yoe)) as [Hin | Hout].
  - rewrite (civil_parts (z + 1) era yoe (doy + 1) Hy) by (unfold doy in *; lia). symmetry. apply next_in_year.
    + destruct (leap (yoe + era * 400 + 1)); unfold doy in *; lia.
    + intros E. destruct (leap (yoe + era * 400 + 1)) eqn:El; [done | lia].
  - assert (Edoy : doy = if leap (yoe + era * 400 + 1) then 365 else 364)
      by (destruct (leap (yoe + era * 400 + 1)); lia).
    rewrite next_year by done. unfold year_end in Hlast. destruct (Z.eqb_spec yoe 399) as [-> | Hne].
    + rewrite (civil_parts (z + 1) (era + 1) 0 0); [f_equal; lia | lia | lia | by vm_compute |].
      change (year_start 0) with 0. destruct (leap (399 + era * 400 + 1)); lia.
    + rewrite (civil_parts (z + 1) era (yoe + 1) 0); [f_equal; lia | lia | lia | |].
      * pose proof (year_checks_hold (yoe + 1) ltac:(lia)) as Hc'. unfold year_checks in Hc'.
        repeat (apply andb_prop in Hc' as [Hc' ?]). rewrite ?Z.eqb_eq, ?Z.leb_le in *.
        destruct (leap (yoe + 1 + 1)); lia.
      * destruct (leap (yoe + era * 400 + 1)); lia.
Qed.

Lemma civil_iter n : civilFromDays (Z.of_nat n) = Nat.iter n next_day (1970, 1, 1).
Proof.
  induction n as [|n IH]; [by vm_compute |]. change (Nat.iter (S n) next_day (1970, 1, 1)) with (next_day (Nat.iter n next_day (1970, 1, 1))).
  rewrite <- IH, <- civil_next. f_equal. lia.
Qed.

Lemma now_months h : 0 <= h -> nowMonths h =
  let '(y, m, _) := Nat.iter (Z.to_nat (h / 24)) next_day (1970, 1, 1) in y * 12 + (m - 1).
Proof.
  intros Hh. unfold nowMonths. rewrite quot_div by lia.
  replace (h * 3600 / 86400) with (h / 24) by (Z.to_euclidean_division_equations; lia).
  rewrite <- civil_iter, Z2Nat.id by (apply Z.div_pos; lia). done.
Qed.

(** ** What the detector counts *)

Record observation := mkObs { ob_host : Z; ob_key : URLKey; ob_url : list Z; ob_now : Z; ob_range : ranger }.

(** A distinct signature URL of a host: its key, its kind and its base path. *)
Record sighting := mkSighting { sg_key : URLKey; sg_kind : PatternKind; sg_base : list Z }.

Definition count_of (k : PatternKind) (acc : list sighting) : Z := Z.of_nat (length (filter (fun s => sg_kind s = k) acc)).
Definition count_base (base : list Z) (acc : list sighting) : Z :=
  Z.of_nat (length (filter (fun s => sg_kind s = PatternSession /\ sg_base s = base) acc)).

(** The kinds a host is flagged for, and whether it is for any. *)
Definition flagged_for (thr : Z) (acc : list sighting) (k : PatternKind) : Prop :=
  match k with
  | PatternNone => False
  | PatternSession => exists base, thr <= count_base base acc
  | _ => thr <= count_of k acc
  end.
Definition suspect_for (thr : Z) (acc : list sighting) : Prop := exists k, flagged_for thr acc k.

Definition host_ok (thr : Z) (ht : hostTrap) (acc : list sighting) : Prop :=
  ht_cal ht = count_of PatternCalendar acc /\ ht_fac ht = count_of PatternFaceted acc /\
  (forall base, default 0 (ht_session ht !! base) = count_base base acc) /\
  (ht_flagCal ht = true <-> flagged_for thr acc PatternCalendar) /\
  (ht_flagFac ht = true <-> flagged_for thr acc PatternFaceted) /\
  (ht_flagSes ht = true <-> flagged_for thr acc PatternSession) /\
  (forall key, key ∈ ht_seen ht <-> key ∈ sg_key <$> acc).

Lemma count_snoc (P : sighting -> Prop) `{forall s, Decision (P s)} acc s :
  Z.of_nat (length (filter P (acc ++ [s]))) = Z.of_nat (length (filter P acc)) + (if decide (P s) then 1 else 0).
Proof. rewrite filter_app, length_app. cbn. destruct (decide (P s)); cbn; lia. Qed.

Lemma flagged_nil thr k : 0 < thr -> ~ flagged_for thr [] k.
Proof.
  intros Ht Hk. destruct k; unfold flagged_for, count_of, count_base in Hk; cbn in Hk; [done | lia | lia |].
  destruct Hk as [_ Hk]. lia.
Qed.

Lemma host_ok_new thr : 0 < thr -> host_ok thr new_hostTrap [].
Proof.
  intros Ht. unfold host_ok, flagged_for, count_of, count_base. cbn. split_and!; try done; try (split; [done |]; lia).
  - split; [done |]. intros [base Hb]. lia.
  - intros key. split; [set_solver | intros Hk; by apply elem_of_nil in Hk].
Qed.

Lemma host_ok_any thr ht acc : host_ok thr ht acc -> anyFlagged ht = true <-> suspect_for thr acc.
Proof.
  intros (_ & _ & _ & Hc & Hf & Hs & _). unfold anyFlagged, suspect_for. rewrite !orb_true_iff, Hc, Hf, Hs.
  split; [intros [[?|?]|?]; by eexists |]. intros [[] Hk]; naive_solver.
Qed.

Lemma host_ok_step thr ht acc key kind base : host_ok thr ht acc -> kind <> PatternNone ->
  host_ok thr (count_kind thr kind base (mkHostTrap (ht_cal ht) (ht_fac ht) (ht_session ht) (ht_flagCal ht) (ht_flagFac ht)
    (ht_flagSes ht) ({[key]} ∪ ht_seen ht))) (acc ++ [mkSighting key kind base]).
Proof.
  intros (Hcal & Hfac & Hses & Hc & Hf & Hs & Hseen) Hk.
  assert (Hkeys : forall k, k ∈ ({[key]} ∪ ht_seen ht : gset URLKey) <-> k ∈ sg_key <$> acc ++ [mkSighting key kind base]).
  { intros k. rewrite elem_of_union, elem_of_singleton, Hseen, fmap_app, elem_of_app. cbn.
    rewrite list_elem_of_singleton. tauto. }
  assert (Hses' : forall b, count_base b (acc ++ [mkSighting key kind base]) =
    count_base b acc + (if decide (kind = PatternSession /\ base = b) then 1 else 0)) by (intros b; apply count_snoc).
  assert (Heq : forall k, kind = k -> count_of k (acc ++ [mkSighting key kind base]) = count_of k acc + 1).
  { intros k E. unfold count_of. rewrite count_snoc. cbn. by rewrite decide_True. }
  assert (Hne : forall k, kind <> k -> count_of k (acc ++ [mkSighting key kind base]) = count_of k acc).
  { intros k E. unfold count_of. rewrite count_snoc. cbn. rewrite decide_False by done. lia. }
  unfold flagged_for in *. unfold host_ok, flagged_for.
  destruct kind; [done | | |]; cbn [count_kind ht_cal ht_fac ht_session ht_flagCal ht_flagFac ht_flagSes ht_seen];
    repeat match goal with |- context [count_of ?k (acc ++ _)] => first [rewrite (Heq k) by done | rewrite (Hne k) by done] end;
    rewrite ?orb_true_iff, ?Z.leb_le.
  1,2: assert (Hsame : forall b, count_base b (acc ++ [mkSighting key _ base]) = count_base b acc)
         by (intros b; rewrite Hses', decide_False by naive_solver; lia);
       split_and!; [lia | lia | intros b; by rewrite Hsame, Hses | rewrite ?Hc, ?Hf; lia | rewrite ?Hc, ?Hf; lia | | done];
       rewrite Hs; split; intros [b Hb]; exists b; rewrite Hsame in *; done.
  split_and!; [done | done | | done | done | | done].
  - intros b. rewrite Hses'. destruct (decide (base = b)) as [<- | Hb'].
    + rewrite decide_True by done. rewrite lookup_insert_eq. cbn. by rewrite Hses.
    + rewrite decide_False by naive_solver. rewrite lookup_insert_ne by done. rewrite Hses. lia.
  - rewrite Hs, Hses. split.
    + intros [[b Hb] | Hb]; [exists b | exists base]; rewrite Hses'; [destruct (decide _); lia |].
      by rewrite decide_True.
    + intros [b Hb]. rewrite Hses' in Hb. destruct (decide (base = b)) as [<- | Hb'].
      * rewrite decide_True in Hb by done. by right.
      * rewrite decide_False in Hb by naive_solver. left. exists b. lia.
Qed.

Section Accumulation.
Context `{Unicode} `{URLParse}.

Definition observe (d : TrapDetector) (o : observation) : TrapDetector * (PatternKind * bool) :=
  td_Observe d (ob_range o) (ob_host o) (ob_key o) (ob_url o) (ob_now o).

Definition observe_all (d : TrapDetector) (hist : list observation) : TrapDetector :=
  foldl (fun d o => (observe d o).1) d hist.

(** The specification: the distinct signature URLs of host [h], first sightings in order. *)
Definition sight (d : TrapDetector) (h : Z) (acc : list sighting) (o : observation) : list sighting :=
  let kind := Violation d (ob_range o) (ob_url o) (ob_now o) in
  if decide (ob_host o = h /\ kind <> PatternNone /\ ob_key o ∉ sg_key <$> acc)
  then acc ++ [mkSighting (ob_key o) kind (basePath (ob_url o))] else acc.

Definition sightings (d : TrapDetector) (h : Z) (hist : list observation) : list sighting := foldl (sight d h) [] hist.

(** The rule a kind names. *)
Definition bears (d : TrapDetector) (r : ranger) (canonURL : list Z) (now : Z) (k : PatternKind) : Prop :=
  match url_Parse canonURL with
  | None => False
  | Some (path, q) =>
      match k with
      | PatternNone => False
      | PatternCalendar => calendarViolation d r path q now = true
      | PatternSession => sessionViolation q = true
      | PatternFaceted => facetViolation d q = true
      end
  end.

Definition same_config (d d' : TrapDetector) : Prop :=
  td_horizonMonths d = td_horizonMonths d' /\ td_facetLimit d = td_facetLimit d' /\ td_flagThreshold d = td_flagThreshold d'.

Definition td_inv (d0 : TrapDetector) (hist : list observation) (d : TrapDetector) : Prop :=
  same_config d0 d /\ forall h,
    match td_hosts d !! h with
    | None => sightings d0 h hist = []
    | Some ht => host_ok (td_flagThreshold d0) ht (sightings d0 h hist)
    end.

Lemma violation_config d d' r u now : same_config d d' -> Violation d r u now = Violation d' r u now.
Proof using Type.
  intros (E1 & E2 & _). unfold Violation, calendarViolation, facetViolation. by rewrite E1, E2.
Qed.

Lemma violation_bears d r u now : Violation d r u now <> PatternNone -> bears d r u now (Violation d r u now).
Proof using Type.
  unfold Violation, bears. destruct (url_Parse u) as [[path q] |]; [| done].
  destruct (calendarViolation d r path q now) eqn:E1; [done |]. destruct (sessionViolation q) eqn:E2; [done |].
  by destruct (facetViolation d q) eqn:E3.
Qed.

Lemma sightings_snoc d h hist o : sightings d h (hist ++ [o]) = sight d h (sightings d h hist) o.
Proof using Type. unfold sightings. by rewrite foldl_app. Qed.

Lemma sight_other d h acc o : ob_host o <> h -> sight d h acc o = acc.
Proof using Type. intros Hh. unfold sight. by rewrite decide_False by naive_solver. Qed.

Lemma observe_ok d0 hist d o : td_inv d0 hist d -> 0 < td_flagThreshold d0 ->
  let h := ob_host o in
  let thr := td_flagThreshold d0 in
  td_inv d0 (hist ++ [o]) (observe d o).1 /\
  (observe d o).2.1 = Violation d0 (ob_range o) (ob_url o) (ob_now o) /\
  ((observe d o).2.2 = true <->
   ~ suspect_for thr (sightings d0 h hist) /\ suspect_for thr (sightings d0 h (hist ++ [o]))).
Proof using Type.
  intros [Hcfg Hh] Hthr. cbv zeta. unfold observe, td_Observe. rewrite <- (violation_config d0 d) by done.
  set (kind := Violation d0 (ob_range o) (ob_url o) (ob_now o)). destruct Hcfg as (C1 & C2 & C3).
  assert (Hquiet : sight d0 (ob_host o) (sightings d0 (ob_host o) hist) o = sightings d0 (ob_host o) hist ->
    forall h, sightings d0 h (hist ++ [o]) = sightings d0 h hist).
  { intros E h. rewrite sightings_snoc. destruct (decide (ob_host o = h)) as [<- |]; [done | by apply sight_other]. }
  destruct (decide (kind = PatternNone)) as [Ek | Ek].
  - assert (E : forall h, sightings d0 h (hist ++ [o]) = sightings d0 h hist).
    { apply Hquiet. unfold sight. fold kind. rewrite decide_False by naive_solver. done. }
    cbn [fst snd]. split; [split; [done |]; intros h; rewrite E; apply Hh |]. split; [done |].
    rewrite E. split; [done |]. tauto.
  - set (ht := default new_hostTrap (td_hosts d !! ob_host o)).
    assert (Hht : host_ok (td_flagThreshold d0) ht (sightings d0 (ob_host o) hist)).
    { specialize (Hh (ob_host o)). unfold ht. destruct (td_hosts d !! ob_host o); [done |]. cbn. rewrite Hh.
      by apply host_ok_new. }
    destruct Hht as (K1 & K2 & K3 & K4 & K5 & K6 & Kseen) eqn:EHht. clear EHht.
    destruct (decide (ob_key o ∈ ht_seen ht)) as [Hin | Hout].
    + assert (E : forall h, sightings d0 h (hist ++ [o]) = sightings d0 h hist).
      { apply Hquiet. unfold sight. rewrite decide_False; [done |]. rewrite <- Kseen. tauto. }
      cbn [fst snd]. split; [split; [done |] | split; [done |]; rewrite E; split; [done | tauto]].
      intros h. rewrite E. cbn [td_set_host td_hosts]. destruct (decide (ob_host o = h)) as [<- | Hne].
      * rewrite lookup_insert_eq. done.
      * rewrite lookup_insert_ne by done. apply Hh.
    + pose proof (host_ok_step (td_flagThreshold d0) ht _ (ob_key o) kind (basePath (ob_url o)) Hht Ek) as Hstep.
      assert (E : sightings d0 (ob_host o) (hist ++ [o]) =
        sightings d0 (ob_host o) hist ++ [mkSighting (ob_key o) kind (basePath (ob_url o))]).
      { rewrite sightings_snoc. unfold sight. fold kind. rewrite decide_True; [done |]. rewrite <- Kseen. done. }
      rewrite <- C3. set (ht' := count_kind _ _ _ _) in *. cbn [fst snd]. rewrite <- E in Hstep.
      split; [split; [done |] | split; [done |]].
      * intros h. cbn [td_set_host td_hosts]. destruct (decide (ob_host o = h)) as [<- | Hne].
        -- rewrite lookup_insert_eq. done.
        -- rewrite lookup_insert_ne, sightings_snoc, sight_other by done. apply Hh.
      * rewrite andb_true_iff, negb_true_iff, <- not_true_iff_false, (host_ok_any _ _ _ Hht), (host_ok_any _ _ _ Hstep). tauto.
Qed.

Lemma observe_all_ok d0 hist : td_hosts d0 = ∅ -> 0 < td_flagThreshold d0 -> td_inv d0 hist (observe_all d0 hist).
Proof using Type.
  intros Hh Ht. induction hist as [|o hist IH] using rev_ind.
  - split; [done |]. intros h. cbn. by rewrite Hh, lookup_empty.
  - unfold observe_all. rewrite foldl_app. cbn [foldl]. by apply (observe_ok d0 hist).
Qed.

Lemma passes_ok d0 hist d r h u now : td_inv d0 hist d -> 0 < td_flagThreshold d0 ->
  Passes d r h u now = false <-> exists k, flagged_for (td_flagThreshold d0) (sightings d0 h hist) k /\ bears d0 r u now k.
Proof using Type.
  intros [(C1 & C2 & C3) Hh] Hthr. specialize (Hh h). unfold Passes, bears.
  assert (Hcal : forall path q, calendarViolation d r path q now = calendarViolation d0 r path q now)
    by (intros; unfold calendarViolation; by rewrite C1).
  assert (Hfac : forall q, facetViolation d q = facetViolation d0 q) by (intros; unfold facetViolation; by rewrite C2).
  destruct (td_hosts d !! h) as [ht |].
  - pose proof (host_ok_any _ _ _ Hh) as Hany. destruct Hh as (_ & _ & _ & Hc & Hf & Hs & _).
    destruct (anyFlagged ht) eqn:Ea; cbn [negb].
    + destruct (url_Parse u) as [[path q] |]; [| split; [done | naive_solver]]. rewrite Hcal, Hfac.
      destruct (ht_flagCal ht && _) eqn:E1; [| destruct (ht_flagSes ht && _) eqn:E2; [| destruct (ht_flagFac ht && _) eqn:E3]].
      * apply andb_prop in E1 as [F E1]. split; [intros _ | done]. exists PatternCalendar. by rewrite <- Hc.
      * apply andb_prop in E2 as [F E2]. split; [intros _ | done]. exists PatternSession. by rewrite <- Hs.
      * apply andb_prop in E3 as [F E3]. split; [intros _ | done]. exists PatternFaceted. by rewrite <- Hf.
      * split; [done |]. intros (k & Hk & Hb). destruct k; [done | | |].
        -- apply Hc in Hk. by rewrite Hk, Hb in E1.
        -- apply Hf in Hk. by rewrite Hk, Hb in E3.
        -- apply Hs in Hk. by rewrite Hk, Hb in E2.
    + split; [done |]. intros (k & Hk & _). assert (false = true) by (apply Hany; by exists k). done.
  - split; [done |]. intros (k & Hk & _). rewrite Hh in Hk.
    by apply flagged_nil in Hk.
Qed.

(** A URL whose date reads the same in whatever order. *)
Definition steady (d : TrapDetector) (u : list Z) (now : Z) : Prop :=
  forall path q r r', url_Parse u = Some (path, q) -> walks r -> walks r' ->
    calendarViolation d r path q now = calendarViolation d r' path q now.

Lemma steady_bears d r r' u now k : walks r -> walks r' -> steady d u now -> bears d r u now k -> bears d r' u now k.
Proof using Type.
  intros Hr Hr' Hs. unfold bears. specialize (Hs). unfold steady in Hs. destruct (url_Parse u) as [[path q] |]; [| done].
  destruct k; try done. by rewrite (Hs path q r r').
Qed.

(** The keys the loop of [queryYearMonth] looks at. *)
Definition date_key (kv : list Z * list (list Z)) : Prop :=
  ToLower kv.1 ∈ dateQueryKeys /\ ToLower kv.1 <> bytes_of "year" /\ ToLower kv.1 <> bytes_of "month".
#[export] Instance date_key_dec kv : Decision (date_key kv).
Proof. unfold date_key. apply _. Defined.
Definition date_keys (q : Values) : list (list Z * list (list Z)) := filter date_key (map_to_list q).

Lemma first_key_date_filter kvs : first_key_date kvs = first_key_date (filter date_key kvs).
Proof using Type.
  induction kvs as [|[k vs] kvs IH]; [done |]. cbn [first_key_date]. rewrite filter_cons.
  destruct (decide (date_key (k, vs))) as [(H1 & H2 & H3) | Hn].
  - cbn [fst] in *. cbn [first_key_date]. by rewrite IH.
  - replace (_ || _ || _) with true; [done |]. symmetry. apply not_false_iff_true. intros E. apply Hn.
    apply orb_false_iff in E as [[E1 E2]%orb_false_iff E3]. apply negb_false_iff, bool_decide_eq_true in E1.
    apply bool_decide_eq_false in E2, E3. done.
Qed.

Lemma one_date_steady d u now path q : url_Parse u = Some (path, q) -> (length (date_keys q) <= 1)%nat -> steady d u now.
Proof using Type.
  intros Hu Hone path' q' r r' Hu' Hr Hr'. rewrite Hu in Hu'. injection Hu' as <- <-.
  assert (E : forall r, walks r -> first_key_date (r q) = first_key_date (date_keys q)).
  { intros r0 Hr0. rewrite first_key_date_filter. f_equal. assert (Hp : filter date_key (r0 q) ≡ₚ date_keys q) by (unfold date_keys; by rewrite (Hr0 q)).
    destruct (date_keys q) as [|kv [|? ?]]; [by apply Permutation_nil_r | by apply Permutation_singleton_r | cbn in Hone; lia]. }
  unfold calendarViolation, urlMonths, queryYearMonth. by rewrite (E r Hr), (E r' Hr').
Qed.

Lemma suspect_ok d0 hist d h : td_inv d0 hist d -> 0 < td_flagThreshold d0 ->
  Suspect d h = true <-> suspect_for (td_flagThreshold d0) (sightings d0 h hist).
Proof using Type.
  intros [_ Hh] Hthr. specialize (Hh h). unfold Suspect. destruct (td_hosts d !! h) as [ht |]; [by apply host_ok_any |].
  split; [done |]. intros [k Hk]. rewrite Hh in Hk.
  by apply flagged_nil in Hk.
Qed.
End Accumulation.

(** ** Properties *)

(** C26: The civil date of a day is the Gregorian one: the day [n] days after the Unix epoch is
    what counting [n] days from 1 January 1970 by the month lengths and the leap-year rule
    gives; and the month index the horizon is measured from is that date's. *)
Theorem civil_date_is_gregorian :
  (forall n : nat, civilFromDays (Z.of_nat n) = Nat.iter n next_day (1970, 1, 1)) /\
  (forall z, civilFromDays (z + 1) = next_day (civilFromDays z)) /\
  forall h, 0 <= h -> nowMonths h =
    let '(y, m, _) := Nat.iter (Z.to_nat (h / 24)) next_day (1970, 1, 1) in y * 12 + (m - 1).
Proof. split; [apply civil_iter |]. split; [apply civil_next | apply now_months]. Qed.

(** C25: The detector counts distinct signature URLs, each call reading a query in the order Go
    happens to walk it in. After any sequence of observations on a fresh detector, a host is
    suspect exactly when its distinct signature URLs of some kind, as they were read when
    observed, reach the threshold (for session ids, those of one base path); an observation
    answers the URL's own signature, and that the host is newly suspect exactly when it was
    not before and is after; and a URL is parked exactly when, read in the order of that
    call, it bears a signature its host is flagged for. Where the dates of a query do not
    contradict each other the order is immaterial, so a signature URL of a host flagged
    for its kind is always parked; a query with at most one date key is such a query. *)
Theorem trap_detector_counts `{Unicode} `{URLParse} (d0 : TrapDetector) (hist : list observation)
    (Hfresh : td_hosts d0 = ∅) (Hthr : 0 < td_flagThreshold d0) :
  let d := observe_all d0 hist in
  let thr := td_flagThreshold d0 in
  (forall h, Suspect d h = true <-> suspect_for thr (sightings d0 h hist)) /\
  (forall o, (observe d o).2.1 = Violation d0 (ob_range o) (ob_url o) (ob_now o) /\
     ((observe d o).2.2 = true <->
      ~ suspect_for thr (sightings d0 (ob_host o) hist) /\ suspect_for thr (sightings d0 (ob_host o) (hist ++ [o])))) /\
  forall h u now,
    (forall r, Passes d r h u now = false <-> exists k, flagged_for thr (sightings d0 h hist) k /\ bears d0 r u now k) /\
    (forall r r', walks r -> walks r' -> steady d0 u now ->
       flagged_for thr (sightings d0 h hist) (Violation d0 r u now) -> Passes d r' h u now = false) /\
    (forall path q, url_Parse u = Some (path, q) -> (length (date_keys q) <= 1)%nat -> steady d0 u now).
Proof.
  cbv zeta. pose proof (observe_all_ok d0 hist Hfresh Hthr) as Hinv. split; [| split].
  - intros h. by apply suspect_ok.
  - intros o. by apply (observe_ok d0 hist _ o Hinv Hthr).
  - intros h u now. pose proof (fun r => passes_ok d0 hist _ r h u now Hinv Hthr) as Hp. split; [done |]. split.
    + intros r r' Hr Hr' Hst Hf. apply Hp. exists (Violation d0 r u now). split; [done |].
      apply (steady_bears d0 r r'); [done .. |]. apply violation_bears. intros E. by rewrite E in Hf.
    + intros path q. apply one_date_steady.
Qed.

#[local] Instance plain_unicode : Unicode := {| unicode_lower s := s; unicode_trim s := s |}.
(** Every URL has the path of its bytes and no query. *)
#[local] Instance path_only : URLParse := {| url_Parse u := Some (u, ∅) |}.

Definition calendar_url (month : Z) : list Z := bytes_of "/2031/" ++ [48 + month] ++ bytes_of "/".
Definition walk : list observation :=
  [mkObs 7 (mkKey 7 1) (calendar_url 1) 400000 map_to_list; mkObs 7 (mkKey 7 1) (calendar_url 1) 400000 map_to_list;
   mkObs 7 (mkKey 7 2) (calendar_url 2) 400000 map_to_list].

Lemma trap_detector_counts_witness :
  let d0 := NewTrapDetector [WithFlagThreshold 2] in
  Suspect (observe_all d0 walk) 7 = true /\
  (forall r, walks r -> Passes (observe_all d0 walk) r 7 (calendar_url 3) 400000 = false) /\
  Passes (observe_all d0 walk) map_to_list 7 (bytes_of "/about") 400000 = true.
Proof.
  destruct (trap_detector_counts (NewTrapDetector [WithFlagThreshold 2]) walk) as (Hs & _ & Hp).
  - reflexivity.
  - reflexivity.
  - split; [| split].
    + apply Hs. exists PatternCalendar. vm_compute. discriminate.
    + intros r Hr. destruct (Hp 7 (calendar_url 3) 400000) as (_ & Hpark & Hone).
      apply (Hpark map_to_list r); [intros q; reflexivity | exact Hr | | vm_compute; discriminate].
      apply (Hone (calendar_url 3) ∅); [reflexivity | vm_compute; lia].
    + vm_compute. reflexivity.
Defined.

(** The verdict on a URL with two date keys depends on the order in which the runtime ranges
    over its query: [from=2020-01&to=2099-01] is a calendar trap or not, so one observation
    may count it and the next call let it pass. *)
Theorem calendar_verdict_depends_on_order : exists (q : Values) (r1 r2 : ranger),
  walks r1 /\ walks r2 /\
  calendarViolation (NewTrapDetector []) r1 (bytes_of "/events") q 490000 = true /\
  calendarViolation (NewTrapDetector []) r2 (bytes_of "/events") q 490000 = false.
Proof.
  set (q := <[bytes_of "from" := [bytes_of "2020-01"]]> (<[bytes_of "to" := [bytes_of "2099-01"]]> ∅) : Values).
  exists q, (fun m => map_to_list m), (fun m => reverse (map_to_list m)).
  split; [intros m; reflexivity |]. split; [intros m; apply reverse_Permutation |].
  (split; vm_compute; reflexivity).
Qed.
