(* ===== verification/NearDup.v ===== *)
(** * The near-duplicate index (dedup/neardup.go)

    Four tables hold every simhash, each rotated so that another 16-bit block leads and
    sorted lazily; a query binary-searches the block in each table and checks the Hamming
    distance of the run it finds. By the pigeonhole principle two simhashes at distance 3
    agree on one of four blocks, so no near page is missed. *)

From S2P Require Import Prelude Words Model GoSort Admission.
Open Scope Z_scope.

Definition nearBlocks : nat := 4.
Definition blockBits : Z := 64 / Z.of_nat nearBlocks.

Record nearEntry := mkNearEntry { ne_rotated : Z; ne_sim : Z; ne_key : URLKey }.

Record NearDup := mkNearDup { nd_tables : list (list nearEntry); nd_dirty : bool }.

Definition NewNearDup : NearDup := mkNearDup (replicate nearBlocks []) false.

(** bits.RotateLeft64 *)
Definition RotateLeft64 (x k : Z) : Z :=
  let s := Z.land (u64 k) 63 in
  Z.lor (u64 (Z.shiftl x s)) (Z.shiftr x (64 - s)).

Definition rotateBlock (x : Z) (b : nat) : Z := RotateLeft64 x (- (Z.of_nat b * blockBits)).

Definition near_entry (sim : Z) (key : URLKey) (b : nat) : nearEntry := mkNearEntry (rotateBlock sim b) sim key.

Definition nd_Add (n : NearDup) (sim : Z) (key : URLKey) : NearDup :=
  mkNearDup (imap (fun b t => t ++ [near_entry sim key b]) (nd_tables n)) true.

(** The block a rotated simhash leads with. *)
Definition lead (rotated : Z) : Z := Z.shiftr rotated (64 - blockBits).

(** The run of entries that lead with [hi]. *)
Fixpoint scan_run (hi sim : Z) (run : list nearEntry) : option URLKey :=
  match run with
  | [] => None
  | e :: run =>
      if lead (ne_rotated e) =? hi then
        if Near (ne_sim e) sim then Some (ne_key e) else scan_run hi sim run
      else None
  end.

Definition lead_at_least (table : list nearEntry) (hi : Z) (i : nat) : bool :=
  match table !! i with Some e => hi <=? lead (ne_rotated e) | None => true end.

Definition probe_table (sim : Z) (b : nat) (table : list nearEntry) : option URLKey :=
  let hi := lead (rotateBlock sim b) in
  let lo := sortSearch (length table) (lead_at_least table hi) in
  scan_run hi sim (drop lo table).

Fixpoint probe_tables (sim : Z) (b : nat) (tables : list (list nearEntry)) : option URLKey :=
  match tables with
  | [] => None
  | t :: tables =>
      match probe_table sim b t with Some k => Some k | None => probe_tables sim (S b) tables end
  end.

Definition rotated_before (a b : nearEntry) : bool := ne_rotated a <? ne_rotated b.

Section Sorting.
Context `{GoSort}.

Definition ensureSorted (n : NearDup) : NearDup :=
  if negb (nd_dirty n) then n
  else mkNearDup (sort_slice rotated_before <$> nd_tables n) false.

Definition nd_Find (n : NearDup) (sim : Z) : NearDup * option URLKey :=
  let n := ensureSorted n in
  (n, probe_tables sim 0 (nd_tables n)).
End Sorting.

Definition nd_Len (n : NearDup) : nat := length (default [] (nd_tables n !! 0%nat)).

(** ** Blocks *)

Definition block (o x : Z) : Z := Z.shiftr x o `mod` 2 ^ 16.

Lemma lead_rotated x b : fits 64 x -> (b < 4)%nat ->
  lead (rotateBlock x b) = block (nth b [48; 0; 16; 32] 0) x.
Proof.
  intros Hx Hb. unfold fits in Hx.
  assert (Hr : rotateBlock x b = Z.lor (u64 (Z.shiftl x (nth b [0; 48; 32; 16] 0))) (Z.shiftr x (64 - nth b [0; 48; 32; 16] 0)))
    by (destruct b as [|[|[|[|]]]]; [done .. | lia]).
  unfold lead. change (64 - blockBits) with 48. rewrite Hr. unfold block, u64.
  assert (Hhigh : forall i, 64 <= i -> Z.testbit x i = false).
  { intros i Hi. destruct (decide (x = 0)) as [-> | Hne]; [apply Z.bits_0 |].
    apply Z.bits_above_log2; [lia |]. assert (Z.log2 x < 64) by (apply Z.log2_lt_pow2; lia). lia. }
  apply Z.bits_inj'. intros i Hi. rewrite Z.shiftr_spec, Z.lor_spec by done.
  assert (Hs : 0 <= nth b [0; 48; 32; 16] 0 <= 48 /\ nth b [48; 0; 16; 32] 0 = 48 - nth b [0; 48; 32; 16] 0)
    by (destruct b as [|[|[|[|]]]]; cbn; lia).
  revert Hs. generalize (nth b [0; 48; 32; 16] 0) (nth b [48; 0; 16; 32] 0). intros s o [Hs ->].
  rewrite (Z.shiftr_spec x) by lia. rewrite (Hhigh (i + 48 + (64 - s))), orb_false_r by lia.
  destruct (decide (i < 16)).
  - rewrite !Z.mod_pow2_bits_low, Z.shiftl_spec, Z.shiftr_spec by lia. f_equal. lia.
  - by rewrite !Z.mod_pow2_bits_high by lia.
Qed.

(** Blocks that differ differ in a bit. *)
Lemma block_differs o a b : 0 <= o -> block o a <> block o b ->
  exists i, (0 <= i < 16)%nat /\ Z.testbit (Z.lxor a b) (o + Z.of_nat i) = true.
Proof.
  intros Ho Hd.
  destruct (decide (Exists (fun i => Z.testbit (Z.lxor a b) (o + Z.of_nat i) = true) (seq 0 16))) as [He | Hn].
  - apply Exists_exists in He as (i & Hi & E). apply elem_of_seq in Hi. exists i. split; [lia | done].
  - destruct Hd. apply not_Exists_Forall in Hn; [| intros i; apply _]. rewrite Forall_forall in Hn. unfold block. apply Z.bits_inj'. intros i Hi.
    destruct (decide (i < 16)); [| by rewrite !Z.mod_pow2_bits_high by lia].
    rewrite !Z.mod_pow2_bits_low, !Z.shiftr_spec by lia.
    specialize (Hn (Z.to_nat i) ltac:(apply elem_of_seq; lia)). unfold compose in Hn.
    rewrite Z2Nat.id, Z.lxor_spec in Hn by lia. rewrite Z.add_comm.
    destruct (Z.testbit a (o + i)), (Z.testbit b (o + i)); [done | by destruct Hn | by destruct Hn | done].
Qed.

Lemma ones_app (l k : list nat) x :
  foldr (fun i n => n + (if Z.testbit x (Z.of_nat i) then 1 else 0)) 0 (l ++ k) =
  foldr (fun i n => n + (if Z.testbit x (Z.of_nat i) then 1 else 0)) 0 l +
  foldr (fun i n => n + (if Z.testbit x (Z.of_nat i) then 1 else 0)) 0 k.
Proof. induction l as [|i l IH]; cbn; [done | rewrite IH; lia]. Qed.

Lemma ones_some (l : list nat) x i : i ∈ l -> Z.testbit x (Z.of_nat i) = true ->
  1 <= foldr (fun i n => n + (if Z.testbit x (Z.of_nat i) then 1 else 0)) 0 l.
Proof.
  assert (Hp : forall l, 0 <= foldr (fun i n => n + (if Z.testbit x (Z.of_nat i) then 1 else 0)) 0 l).
  { clear. induction l as [|j l IH]; cbn; [lia | destruct (Z.testbit _ _); lia]. }
  intros Hi Ht. induction l as [|j l IH]; [by apply elem_of_nil in Hi |]. cbn.
  apply elem_of_cons in Hi as [<- | Hi]; [rewrite Ht; specialize (Hp l); lia |].
  specialize (IH Hi). destruct (Z.testbit x (Z.of_nat j)); lia.
Qed.

(** The pigeonhole principle. *)
Lemma near_shares_block a b : Near a b = true ->
  exists t, (t < 4)%nat /\ block (nth t [48; 0; 16; 32] 0) a = block (nth t [48; 0; 16; 32] 0) b.
Proof.
  unfold Near, OnesCount64, nearThreshold. rewrite Z.leb_le. set (x := Z.lxor a b).
  change (seq 0 64) with (seq 0 16 ++ seq 16 16 ++ seq 32 16 ++ seq 48 16). rewrite !ones_app. intros Hle.
  assert (Hb : forall o, 0 <= o -> block o a <> block o b ->
    1 <= foldr (fun i n => n + (if Z.testbit x (Z.of_nat i) then 1 else 0)) 0 (seq (Z.to_nat o) 16)).
  { intros o Ho Hd. destruct (block_differs o a b Ho Hd) as (i & Hi & Ht).
    apply (ones_some _ _ (Z.to_nat o + i)); [apply elem_of_seq; lia |]. rewrite <- Ht. unfold x. f_equal. lia. }
  destruct (decide (block 48 a = block 48 b)); [by exists 0%nat; split; [lia |] |].
  destruct (decide (block 0 a = block 0 b)); [by exists 1%nat; split; [lia |] |].
  destruct (decide (block 16 a = block 16 b)); [by exists 2%nat; split; [lia |] |].
  destruct (decide (block 32 a = block 32 b)); [by exists 3%nat; split; [lia |] |].
  pose proof (Hb 48 ltac:(lia) ltac:(done)). pose proof (Hb 0 ltac:(lia) ltac:(done)).
  pose proof (Hb 16 ltac:(lia) ltac:(done)). pose proof (Hb 32 ltac:(lia) ltac:(done)).
  change (Z.to_nat 48) with 48%nat in *. change (Z.to_nat 0) with 0%nat in *.
  change (Z.to_nat 16) with 16%nat in *. change (Z.to_nat 32) with 32%nat in *. lia.
Qed.

(** ** The tables *)

Definition rows_of (added : list (Z * URLKey)) (b : nat) : list nearEntry := (fun p => near_entry p.1 p.2 b) <$> added.

(** Each table holds what was added, sorted unless the index is dirty. *)
Definition nd_inv (added : list (Z * URLKey)) (n : NearDup) : Prop :=
  length (nd_tables n) = nearBlocks /\
  forall b t, nd_tables n !! b = Some t ->
    t ≡ₚ rows_of added b /\ (nd_dirty n = false -> StronglySorted (not_after rotated_before) t).

Lemma rotated_before_order (P : nearEntry -> Prop) : weak_order P rotated_before.
Proof. unfold rotated_before. split; intros *; rewrite ?Z.ltb_lt, ?Z.ltb_ge; lia. Qed.

Lemma new_inv : nd_inv [] NewNearDup.
Proof.
  split; [done |]. intros b t Ht. unfold NewNearDup in Ht. cbn [nd_tables] in Ht. apply lookup_replicate in Ht as [-> _]. split; [done |]. constructor.
Qed.

Lemma add_inv added n sim key : nd_inv added n -> nd_inv (added ++ [(sim, key)]) (nd_Add n sim key).
Proof.
  intros [Hl Ht]. split; [cbn; by rewrite length_imap |]. intros b t Hb. cbn in Hb.
  rewrite list_lookup_imap in Hb. destruct (nd_tables n !! b) as [t0 |] eqn:E; [| done]. injection Hb as <-.
  split; [| done]. unfold rows_of. rewrite fmap_app. cbn. f_equiv. by apply Ht.
Qed.

Section Laws.
Context `{GoSortLaws}.

Lemma sorted_inv added n : nd_inv added n -> nd_inv added (ensureSorted n) /\ nd_dirty (ensureSorted n) = false.
Proof using H0.
  intros Hinv. unfold ensureSorted. destruct (nd_dirty n) eqn:Ed; cbn [negb]; [| done].
  destruct Hinv as [Hl Ht]. split; [| done]. split; [cbn; by rewrite length_fmap |]. intros b t Hb. cbn in Hb. rewrite list_lookup_fmap in Hb.
  destruct (nd_tables n !! b) as [t0 |] eqn:E; [| done]. injection Hb as <-. split.
  - rewrite sort_slice_perm. by apply Ht.
  - intros _. apply sort_slice_sorted, rotated_before_order.
Qed.
End Laws.

Lemma scan_run_found hi sim run k : scan_run hi sim run = Some k ->
  exists e, e ∈ run /\ Near (ne_sim e) sim = true /\ ne_key e = k.
Proof.
  induction run as [|e run IH]; [done |]. cbn. destruct (_ =? hi); [| done]. destruct (Near _ _) eqn:En.
  - intros [= <-]. exists e. split; [by left | done].
  - intros Hk. destruct (IH Hk) as (e' & He & Hr). exists e'. split; [by right | done].
Qed.

(** In a sorted table the run is every entry with the block. *)
Lemma scan_run_none hi sim run : StronglySorted (fun a b => lead (ne_rotated a) <= lead (ne_rotated b)) run ->
  Forall (fun e => hi <= lead (ne_rotated e)) run -> scan_run hi sim run = None ->
  forall e, e ∈ run -> lead (ne_rotated e) = hi -> Near (ne_sim e) sim = false.
Proof.
  induction 1 as [|x run Hs IH Hx]; intros Hf Hn e He El; [by apply elem_of_nil in He |].
  apply Forall_cons in Hf as [Hhi Hf]. cbn in Hn. rewrite Forall_forall in Hx. apply elem_of_cons in He as [-> | He].
  - rewrite (proj2 (Z.eqb_eq _ _) El) in Hn. by destruct (Near (ne_sim x) sim).
  - specialize (Hx e He). cbn in Hx. assert (lead (ne_rotated x) = hi) as Ex by lia.
    rewrite (proj2 (Z.eqb_eq _ _) Ex) in Hn. destruct (Near (ne_sim x) sim); [done |]. by apply IH.
Qed.

Lemma lead_mono a b : a <= b -> lead a <= lead b.
Proof. intros Hab. unfold lead. rewrite !Z.shiftr_div_pow2 by done. by apply Z.div_le_mono. Qed.

Lemma probe_table_none sim b table : StronglySorted (not_after rotated_before) table ->
  probe_table sim b table = None ->
  forall e, e ∈ table -> lead (ne_rotated e) = lead (rotateBlock sim b) -> Near (ne_sim e) sim = false.
Proof.
  intros Hs. unfold probe_table. set (hi := lead (rotateBlock sim b)). set (f := lead_at_least table hi).
  assert (Hl : StronglySorted (fun a b => lead (ne_rotated a) <= lead (ne_rotated b)) table).
  { eapply StronglySorted_impl; [| exact Hs]. intros x y Hxy. unfold not_after, rotated_before in Hxy.
    apply Z.ltb_ge in Hxy. by apply lead_mono. }
  destruct (sortSearch_spec (length table) f) as (Hlo & Hbelow & Habove).
  { intros i j Hij. unfold f, lead_at_least. destruct (table !! i) as [x |] eqn:Ex.
    2: { apply lookup_ge_None in Ex. lia. }
    destruct (table !! j) as [y |] eqn:Ey; [| done]. rewrite !Z.leb_le. intros Hx.
    destruct (decide (i = j)) as [-> | Hne]; [by simplify_eq |].
    pose proof (StronglySorted_lookup_lt _ _ i j x y Hl Ex Ey ltac:(lia)). cbn in *. lia. }
  cbv zeta in *. set (lo := sortSearch (length table) f) in *. intros Hn e He Ee.
  apply list_elem_of_lookup in He as [i Hi]. apply (scan_run_none hi sim (drop lo table)); [| | done | | done].
  - by apply StronglySorted_drop.
  - apply Forall_lookup. intros j y Hy. rewrite lookup_drop in Hy. pose proof (lookup_lt_Some _ _ _ Hy).
    specialize (Habove (lo + j)%nat ltac:(lia)). unfold f, lead_at_least in Habove. rewrite Hy in Habove. by apply Z.leb_le.
  - destruct (decide (lo <= i)%nat) as [Hge | Hlt].
    + apply (list_elem_of_lookup_2 _ (i - lo)). rewrite lookup_drop. by replace (lo + (i - lo))%nat with i by lia.
    + specialize (Hbelow i ltac:(lia)). unfold f, lead_at_least in Hbelow. rewrite Hi, Ee in Hbelow. apply Z.leb_gt in Hbelow.
      unfold hi in Hbelow. lia.
Qed.

(** *** Queries *)

Lemma probe_tables_found sim b tables k : probe_tables sim b tables = Some k ->
  exists i t e, tables !! i = Some t /\ e ∈ t /\ Near (ne_sim e) sim = true /\ ne_key e = k.
Proof.
  revert b. induction tables as [|t tables IH]; intros b; [done |]. cbn.
  destruct (probe_table sim b t) as [k' |] eqn:Ep.
  - intros [= <-]. apply scan_run_found in Ep as (e & He & Hr). exists 0%nat, t, e.
    split; [done |]. split; [| done]. exact (elem_of_sublist _ _ _ He (sublist_drop _ _)).
  - intros Hk. destruct (IH _ Hk) as (i & t' & e & Hi & Hr). by exists (S i), t', e.
Qed.

Lemma probe_tables_none sim b tables i t : probe_tables sim b tables = None -> tables !! i = Some t ->
  probe_table sim (b + i) t = None.
Proof.
  revert b i. induction tables as [|t' tables IH]; intros b i Hn Hi; [done |]. cbn in Hn.
  destruct (probe_table sim b t') eqn:Ep; [done |]. destruct i as [|i].
  - injection Hi as ->. by rewrite Nat.add_0_r.
  - rewrite <- Nat.add_succ_comm. by apply IH.
Qed.

Definition sim_near (sim : Z) (p : Z * URLKey) : Prop := Near p.1 sim = true.

Lemma find_ok `{GoSortLaws} added n sim :
  nd_inv added n -> Forall (fun p => fits 64 p.1) added -> fits 64 sim ->
  nd_inv added (nd_Find n sim).1 /\
  match (nd_Find n sim).2 with
  | Some k => exists s, (s, k) ∈ added /\ Near s sim = true
  | None => Forall (fun p => ~ sim_near sim p) added
  end.
Proof.
  intros Hinv Hf Hsim. destruct (sorted_inv added n Hinv) as [Hs Hd]. unfold nd_Find. cbn [fst snd].
  split; [done |]. destruct Hs as [Hl Ht]. set (n' := ensureSorted n) in *.
  destruct (probe_tables sim 0 (nd_tables n')) as [k |] eqn:Ep.
  - apply probe_tables_found in Ep as (i & t & e & Hi & He & Hn & Hk).
    destruct (Ht i t Hi) as [Hperm _]. rewrite Hperm in He. unfold rows_of in He.
    apply list_elem_of_fmap in He as ([s k'] & -> & Hin). cbn in Hn, Hk. subst k'. by exists s.
  - apply Forall_forall. intros [s k] Hin Hn. unfold sim_near in Hn. cbn in Hn.
    rewrite Forall_forall in Hf. specialize (Hf _ Hin). cbn in Hf.
    destruct (near_shares_block s sim Hn) as (b & Hb & Eb).
    destruct (lookup_lt_is_Some_2 (nd_tables n') b) as [t Hbt]; [rewrite Hl; unfold nearBlocks; lia |].
    destruct (Ht b t Hbt) as [Hperm Hsort]. pose proof (probe_tables_none _ _ _ _ _ Ep Hbt) as Hp. cbn in Hp.
    assert (Hin' : near_entry s k b ∈ t).
    { rewrite Hperm. unfold rows_of. apply list_elem_of_fmap. by exists (s, k). }
    pose proof (probe_table_none sim b t (Hsort Hd) Hp _ Hin') as Hno. cbn in Hno.
    rewrite Hno in Hn; [done |]. by rewrite !lead_rotated.
Qed.

(** ** Runs *)

Inductive nd_op := OpAdd (sim : Z) (key : URLKey) | OpFind (sim : Z).

Definition op_fits (o : nd_op) : Prop := match o with OpAdd s _ => fits 64 s | OpFind s => fits 64 s end.

Section Runs.
Context `{GoSort}.

(** A run, with the answers of its queries in order. *)
Fixpoint nd_run (n : NearDup) (ops : list nd_op) : NearDup * list (option URLKey) :=
  match ops with
  | [] => (n, [])
  | OpAdd s k :: ops => nd_run (nd_Add n s k) ops
  | OpFind s :: ops =>
      let '(n, a) := nd_Find n s in
      let '(n, out) := nd_run n ops in
      (n, a :: out)
  end.
End Runs.

(** The specification: a list of pages, of which a query answers some near one. *)
Inductive nd_spec : list (Z * URLKey) -> list nd_op -> list (option URLKey) -> list (Z * URLKey) -> Prop :=
  | spec_nil added : nd_spec added [] [] added
  | spec_add added s k ops out fin :
      nd_spec (added ++ [(s, k)]) ops out fin -> nd_spec added (OpAdd s k :: ops) out fin
  | spec_hit added s sim k ops out fin :
      (s, k) ∈ added -> Near s sim = true -> nd_spec added ops out fin ->
      nd_spec added (OpFind sim :: ops) (Some k :: out) fin
  | spec_miss added sim ops out fin :
      Forall (fun p => ~ sim_near sim p) added -> nd_spec added ops out fin ->
      nd_spec added (OpFind sim :: ops) (None :: out) fin.

Lemma nd_run_spec `{GoSortLaws} ops added n : nd_inv added n -> Forall (fun p => fits 64 p.1) added ->
  Forall op_fits ops ->
  exists fin, nd_spec added ops (nd_run n ops).2 fin /\ nd_inv fin (nd_run n ops).1.
Proof.
  revert added n. induction ops as [|o ops IH]; intros added n Hi Hf Ho.
  { exists added. split; [constructor | done]. }
  apply Forall_cons in Ho as [Ho Hops]. destruct o as [s k | s].
  - destruct (IH (added ++ [(s, k)]) (nd_Add n s k)) as (fin & Hs & Hn); [by apply add_inv | | done |].
    { apply Forall_app. split; [done |]. by constructor. }
    exists fin. split; [by constructor | done].
  - destruct (find_ok added n s Hi Hf Ho) as [Hi' Ha]. cbn [nd_run].
    destruct (nd_Find n s) as [n' a]. cbn [fst snd] in *.
    destruct (IH added n' Hi' Hf Hops) as (fin & Hs & Hn). destruct (nd_run n' ops) as [n2 out]. cbn [fst snd] in *.
    exists fin. split; [| done]. destruct a as [k |]; [destruct Ha as (s' & Hin & Hnear) |]; by econstructor.
Qed.

(** C28: The index has exact recall: in every run of insertions and queries from the empty
    index, whatever order sort.Slice leaves equal rotations in, a query answers a key stored
    with a simhash within Hamming distance 3, and answers none only when no stored simhash is
    that near; and the length is the number of insertions, duplicates included, where the
    comment on Len speaks of distinct simhashes. *)
Theorem near_duplicates_exact_recall `{GoSortLaws} (ops : list nd_op) (Hops : Forall op_fits ops) :
  exists added, nd_spec [] ops (nd_run NewNearDup ops).2 added /\
    nd_Len (nd_run NewNearDup ops).1 = length added.
Proof.
  destruct (nd_run_spec ops [] NewNearDup new_inv (Forall_nil_2 _) Hops) as (added & Hs & Hl & Ht).
  exists added. split; [done |]. unfold nd_Len.
  destruct (lookup_lt_is_Some_2 (nd_tables (nd_run NewNearDup ops).1) 0) as [t E]; [rewrite Hl; unfold nearBlocks; lia |].
  rewrite E. cbn. destruct (Ht _ _ E) as [Hp _]. rewrite Hp. unfold rows_of. apply length_fmap.
Qed.

#[local] Existing Instance stable_sort.
#[local] Existing Instance stable_sort_laws.

Lemma near_duplicates_exact_recall_witness :
  exists added, nd_spec [] [OpAdd 7 (mkKey 1 2); OpFind (2 ^ 63 + 5); OpFind 255]
    [Some (mkKey 1 2); None] added /\ length added = 1%nat.
Proof.
  destruct (near_duplicates_exact_recall [OpAdd 7 (mkKey 1 2); OpFind (2 ^ 63 + 5); OpFind 255]) as (added & Hs & Hl).
  { rewrite !Forall_cons. unfold op_fits, fits. split_and!; (done || lia || by apply Forall_nil). }
  exists added. split; [| rewrite <- Hl; vm_compute; reflexivity].
  assert (E : (nd_run NewNearDup [OpAdd 7 (mkKey 1 2); OpFind (2 ^ 63 + 5); OpFind 255]).2 = [Some (mkKey 1 2); None])
    by (vm_compute; reflexivity).
  rewrite E in Hs. exact Hs.
Defined.
