(* ===== verification/Frontier.v ===== *)
(** * The frontier: state and operations

    frontier/frontier.go with its state machine (state.go), its politeness and robots
    side (m3.go), the freshness and priority hooks (m4.go, m5.go), the sharded ready
    bank (shard.go) and the URL split (split.go).

    The state is threaded explicitly. A *URLRecord or *hostEntry of the source is the
    entry of its map at its key: a record or host, once in its map, is never replaced
    there, so writing through the pointer is writing the entry. A nil dereference and an
    out-of-range index are [GoPanic].

    The components the frontier calls but that are modelled elsewhere or read the world
    are type classes: trap patterns, the importance policy, the freshness model, the
    resolver cache and canonicalization. *)

From S2P Require Import TrapDetect.
From S2P Require Import Prelude Words Model Updates Arena Heap Ring Wheel SeenSet GoStrings Robots Politeness.
From S2P Require Import Admission Page File Ops.
From Stdlib Require String.
Import String.StringSyntax.
Open Scope Z_scope.

(** ** Collaborators *)

(** dedup.TrapDetector *)
Class Traps := {
  TrapState : Type;
  NewTrapDetector : TrapState;
  trap_Observe : TrapState -> Z -> URLKey -> list Z -> Z -> TrapState * bool;   (* newly suspect *)
  trap_Passes : TrapState -> Z -> list Z -> Z -> bool;
  trap_Suspect : TrapState -> Z -> bool;
  trap_Violation : TrapState -> list Z -> Z -> PatternKind }.

(** The detector of the file [TrapDetect] is one. [order n] is the order of the [n]th walk over
    a query; the state counts the calls, of which Discover makes at most three per
    discovery, an Observe and then a Passes and a Violation, each with a walk of its own. *)
Definition detector_traps `{Unicode} `{URLParse} (order : nat -> ranger) : Traps := {|
  TrapState := TrapDetector * nat;
  NewTrapDetector := (TrapDetect.NewTrapDetector [], 0%nat);
  trap_Observe '(d, n) hk key u now := let '(d, (_, newly)) := td_Observe d (order n) hk key u now in ((d, n + 3)%nat, newly);
  trap_Passes '(d, n) := Passes d (order (n - 2)%nat);
  trap_Suspect '(d, _) := Suspect d;
  trap_Violation '(d, n) := Violation d (order (n - 1)%nat) |}.

(** prioritize.Prioritizer; the budget fields are those of its Params. *)
Class Prio := {
  PrioState : Type;
  prio_SeedCash : PrioState -> URLKey -> Z -> PrioState;
  prio_Credit : PrioState -> Discovery -> PrioState * Z;
  prio_Distribute : PrioState -> URLKey -> list Discovery -> PrioState * list Discovery;
  prio_ImportPageRank : PrioState -> URLKey -> Z -> PrioState;
  prio_Priority : PrioState -> URLRecord -> option HostRecord -> Z;
  BaseBudget : PrioState -> Z; PerInLink : PrioState -> Z; MinBudget : PrioState -> Z; MaxBudget : PrioState -> Z }.

(** freshness: the estimate of lambda, the target interval rounded to whole hours, and
    the tick of the water level over the rows that carry a schedule. *)
Class Fresh := {
  FreshParams : Type;
  TauController : Type;
  fresh_Estimate : FreshParams -> URLRecord -> Z;
  fresh_TargetHours : FreshParams -> URLRecord -> option HostRecord -> TauController -> Z;
  fresh_Tick : FreshParams -> TauController -> list (URLRecord * option HostRecord) -> TauController;
  MinReprobeGap : FreshParams -> Z;
  HostSpreadWindow : FreshParams -> Z }.

(** dns.Cache *)
Class Resolver := {
  ResolverState : Type;
  dns_Prefetch : ResolverState -> list Z -> ResolverState;
  dns_Lookup : ResolverState -> list Z -> option IP * ResolverState }.

(** dedup.CanonicalKey (its third result is not read here) and RegistrableDomain. *)
Class Canon := {
  CanonicalKey : list Z -> list Z -> option (URLKey * list Z);
  RegistrableDomain : list Z -> list Z }.

(** The float64 sizes of the default seen-set's filter. *)
Class SeenSizes := { seen_m : Z; seen_k : Z }.
Definition NewDefaultSeenSet `{SeenSizes} : SeenSet := NewSeenSet (2 ^ 20) seen_m seen_k 256.

(** ** The URL split (split.go) *)

Definition stripScheme (u : list Z) : list Z :=
  let '(_, after, found) := Cut u (bytes_of "://") in if found then after else u.
Definition HostOf (u : list Z) : list Z :=
  let s := stripScheme u in
  match IndexAny s (bytes_of "/?#") with Some i => take i s | None => s end.
Definition PathOf (u : list Z) : list Z :=
  let s := stripScheme u in
  match IndexAny s (bytes_of "/?#") with Some i => drop i s | None => bytes_of "/" end.

(** ** Constants and small conversions *)

Definition defaultTarget : Z := 2 ^ 30.
Definition recrawlGapHours : Z := 168.
Definition backQueuesPerThread : Z := 3.
Definition frontRefillBatch : Z := 32.
Definition frontAgePromoteHours : Z := 168.
Definition tauTickEvery : Z := 4096.
Definition maxRetries : Z := 5.
Definition robotsTTLHours : Z := 24.
Definition ipTTLHours : Z := 1.
(** float32 1.0 *)
Definition f32_one : Z := 127 * 2 ^ 23.

Definition deciToDur (deci : Z) : Z := deci * (100 * Millisecond).
Definition durToDeci (d : Z) : Z :=
  let v := Z.quot d (100 * Millisecond) in
  if v <? 0 then 0 else if 65535 <? v then 65535 else u16 v.
Definition durSecs (d : Z) : Z :=
  let s := u32 (Z.quot d Second) in if s =? 0 then 1 else s.
Definition smoothLatency (prev sample : Z) : Z :=
  if prev =? 0 then sample else u16 (u32 (prev * 3 + sample) / 4).
Definition isErr (status : Z) : bool := (status =? 429) || ((500 <=? status) && (status <=? 599)).
Definition retryBackoffHours (retry : Z) : Z :=
  let retry := if retry =? 0 then 1 else retry in
  Z.min (u32 (Z.shiftl 1 (retry - 1))) recrawlGapHours.

(** ** The sharded ready bank (shard.go) *)

Definition readyBank : Type := list (prioRing Z).
Definition newReadyBank (w : Z) : readyBank := replicate (Z.to_nat (if w <? 1 then 1 else w)) empty_ring.
Definition home (b : readyBank) (hostKey : Z) : nat := Z.to_nat (hostKey mod Z.of_nat (length b)).
Definition bank_push (b : readyBank) (hostKey priority : Z) : readyBank :=
  alter (fun r => ring_push r hostKey priority) (home b hostKey) b.

(** The best shard so far and its level, over the shards from index [i]. *)
Fixpoint best_shard (b : readyBank) (i best bestLvl : Z) : Z :=
  match b with
  | [] => best
  | r :: b =>
      let lvl := highest r in
      if bestLvl <? lvl then best_shard b (i + 1) i lvl else best_shard b (i + 1) best bestLvl
  end.

Definition pop_at (b : readyBank) (s : Z) : option (Z * readyBank) :=
  if (0 <=? s) && (s <? Z.of_nat (length b)) then
    r ← b !! Z.to_nat s;
    '(hk, r') ← ring_pop r;
    Some (hk, <[Z.to_nat s := r']> b)
  else None.

Definition popShard (b : readyBank) (s : Z) : option (Z * readyBank) :=
  match pop_at b s with
  | Some x => Some x
  | None => let best := best_shard b 0 (-1) (-1) in if best <? 0 then None else pop_at b best
  end.

(** ** State *)

Inductive robotsFetch := robotsNone | robotsPending | robotsReady.
#[export] Instance robotsFetch_eq_dec : EqDecision robotsFetch.
Proof. solve_decision. Defined.

Record hostEntry := mkEntry {
  he_rec : HostRecord; he_back : list URLKey; he_inFlight : bool; he_active : bool;
  he_effective : Z; he_crawlFloor : Z; he_robots : option Rules; he_robotsState : robotsFetch; he_ceilStreak : Z }.

Definition he_set_rec (h : hostEntry) (x : HostRecord) : hostEntry :=
  mkEntry x (he_back h) (he_inFlight h) (he_active h) (he_effective h) (he_crawlFloor h) (he_robots h) (he_robotsState h) (he_ceilStreak h).
Definition he_set_back (h : hostEntry) (x : list URLKey) : hostEntry :=
  mkEntry (he_rec h) x (he_inFlight h) (he_active h) (he_effective h) (he_crawlFloor h) (he_robots h) (he_robotsState h) (he_ceilStreak h).
Definition he_set_inFlight (h : hostEntry) (x : bool) : hostEntry :=
  mkEntry (he_rec h) (he_back h) x (he_active h) (he_effective h) (he_crawlFloor h) (he_robots h) (he_robotsState h) (he_ceilStreak h).
Definition he_set_active (h : hostEntry) (x : bool) : hostEntry :=
  mkEntry (he_rec h) (he_back h) (he_inFlight h) x (he_effective h) (he_crawlFloor h) (he_robots h) (he_robotsState h) (he_ceilStreak h).
Definition he_set_robotsState (h : hostEntry) (x : robotsFetch) : hostEntry :=
  mkEntry (he_rec h) (he_back h) (he_inFlight h) (he_active h) (he_effective h) (he_crawlFloor h) (he_robots h) x (he_ceilStreak h).

Record frontWait := mkFrontWait { fw_key : URLKey; fw_enqueued : Z }.

(** fetch.Request *)
Record Request := mkRequest {
  q_URLKey : URLKey; q_HostKey : Z; q_CanonicalURL : list Z; q_ETag : list Z; q_LastModified : Z;
  q_ResolvedIP : IP; q_Depth : Z; q_Robots : bool }.

Section Frontier.
Context `{XXHash} `{Unicode} `{Traps} `{Prio} `{Fresh} `{Resolver} `{Canon} `{SeenSizes}.

(** The fields set by New and its options and not written afterwards. The link sink is
    the function from a crawl's links to those this partition owns. *)
Record FConf := mkFConf {
  fc_id : Z; fc_created : Z; fc_codec : Z; fc_target : Z; fc_shards : Z; fc_minActive : Z; fc_bounded : bool;
  fc_pol : Config; fc_robotsOn : bool; fc_agent : list Z; fc_linkSink : option (list Discovery -> list Discovery);
  fc_stateOn : bool; fc_wheelOn : bool }.

(** The fields fresh, tau and reschedN. *)
Record FreshState := mkFresh { fs_params : FreshParams; fs_tau : TauController; fs_reschedN : Z }.

Record Frontier := mkFrontier {
  f_conf : FConf;
  f_records : gmap URLKey URLRecord;
  f_hosts : gmap Z hostEntry;
  f_arena : list Z;
  f_seen : SeenSet;
  f_soft : SoftDetector;
  f_traps : TrapState;
  f_urlFront : prioRing URLKey;
  f_readyHosts : list (prioRing Z);
  f_wait : waitHeap;
  f_active : Z;
  f_frontAge : list frontWait;
  f_sinceSweep : Z;
  f_ips : IPTable;
  f_resolver : option ResolverState;
  f_fresh : option FreshState;
  f_prio : option PrioState;
  f_importedHostScore : gmap Z Z;
  f_wheel : dueWheel }.

Definition with_records (f : Frontier) (x : gmap URLKey URLRecord) : Frontier :=
  mkFrontier (f_conf f) x (f_hosts f) (f_arena f) (f_seen f) (f_soft f) (f_traps f) (f_urlFront f)
    (f_readyHosts f) (f_wait f) (f_active f) (f_frontAge f) (f_sinceSweep f) (f_ips f) (f_resolver f)
    (f_fresh f) (f_prio f) (f_importedHostScore f) (f_wheel f).
Definition with_hosts (f : Frontier) (x : gmap Z hostEntry) : Frontier :=
  mkFrontier (f_conf f) (f_records f) x (f_arena f) (f_seen f) (f_soft f) (f_traps f) (f_urlFront f)
    (f_readyHosts f) (f_wait f) (f_active f) (f_frontAge f) (f_sinceSweep f) (f_ips f) (f_resolver f)
    (f_fresh f) (f_prio f) (f_importedHostScore f) (f_wheel f).
Definition with_arena (f : Frontier) (x : list Z) : Frontier :=
  mkFrontier (f_conf f) (f_records f) (f_hosts f) x (f_seen f) (f_soft f) (f_traps f) (f_urlFront f)
    (f_readyHosts f) (f_wait f) (f_active f) (f_frontAge f) (f_sinceSweep f) (f_ips f) (f_resolver f)
    (f_fresh f) (f_prio f) (f_importedHostScore f) (f_wheel f).
Definition with_seen (f : Frontier) (x : SeenSet) : Frontier :=
  mkFrontier (f_conf f) (f_records f) (f_hosts f) (f_arena f) x (f_soft f) (f_traps f) (f_urlFront f)
    (f_readyHosts f) (f_wait f) (f_active f) (f_frontAge f) (f_sinceSweep f) (f_ips f) (f_resolver f)
    (f_fresh f) (f_prio f) (f_importedHostScore f) (f_wheel f).
Definition with_soft (f : Frontier) (x : SoftDetector) : Frontier :=
  mkFrontier (f_conf f) (f_records f) (f_hosts f) (f_arena f) (f_seen f) x (f_traps f) (f_urlFront f)
    (f_readyHosts f) (f_wait f) (f_active f) (f_frontAge f) (f_sinceSweep f) (f_ips f) (f_resolver f)
    (f_fresh f) (f_prio f) (f_importedHostScore f) (f_wheel f).
Definition with_traps (f : Frontier) (x : TrapState) : Frontier :=
  mkFrontier (f_conf f) (f_records f) (f_hosts f) (f_arena f) (f_seen f) (f_soft f) x (f_urlFront f)
    (f_readyHosts f) (f_wait f) (f_active f) (f_frontAge f) (f_sinceSweep f) (f_ips f) (f_resolver f)
    (f_fresh f) (f_prio f) (f_importedHostScore f) (f_wheel f).
Definition with_urlFront (f : Frontier) (x : prioRing URLKey) : Frontier :=
  mkFrontier (f_conf f) (f_records f) (f_hosts f) (f_arena f) (f_seen f) (f_soft f) (f_traps f) x
    (f_readyHosts f) (f_wait f) (f_active f) (f_frontAge f) (f_sinceSweep f) (f_ips f) (f_resolver f)
    (f_fresh f) (f_prio f) (f_importedHostScore f) (f_wheel f).
Definition with_readyHosts (f : Frontier) (x : list (prioRing Z)) : Frontier :=
  mkFrontier (f_conf f) (f_records f) (f_hosts f) (f_arena f) (f_seen f) (f_soft f) (f_traps f) (f_urlFront f) x
    (f_wait f) (f_active f) (f_frontAge f) (f_sinceSweep f) (f_ips f) (f_resolver f) (f_fresh f) (f_prio f)
    (f_importedHostScore f) (f_wheel f).
Definition with_wait (f : Frontier) (x : waitHeap) : Frontier :=
  mkFrontier (f_conf f) (f_records f) (f_hosts f) (f_arena f) (f_seen f) (f_soft f) (f_traps f) (f_urlFront f)
    (f_readyHosts f) x (f_active f) (f_frontAge f) (f_sinceSweep f) (f_ips f) (f_resolver f) (f_fresh f)
    (f_prio f) (f_importedHostScore f) (f_wheel f).
Definition with_active (f : Frontier) (x : Z) : Frontier :=
  mkFrontier (f_conf f) (f_records f) (f_hosts f) (f_arena f) (f_seen f) (f_soft f) (f_traps f) (f_urlFront f)
    (f_readyHosts f) (f_wait f) x (f_frontAge f) (f_sinceSweep f) (f_ips f) (f_resolver f) (f_fresh f)
    (f_prio f) (f_importedHostScore f) (f_wheel f).
Definition with_frontAge (f : Frontier) (x : list frontWait) : Frontier :=
  mkFrontier (f_conf f) (f_records f) (f_hosts f) (f_arena f) (f_seen f) (f_soft f) (f_traps f) (f_urlFront f)
    (f_readyHosts f) (f_wait f) (f_active f) x (f_sinceSweep f) (f_ips f) (f_resolver f) (f_fresh f) (f_prio f)
    (f_importedHostScore f) (f_wheel f).
Definition with_sinceSweep (f : Frontier) (x : Z) : Frontier :=
  mkFrontier (f_conf f) (f_records f) (f_hosts f) (f_arena f) (f_seen f) (f_soft f) (f_traps f) (f_urlFront f)
    (f_readyHosts f) (f_wait f) (f_active f) (f_frontAge f) x (f_ips f) (f_resolver f) (f_fresh f) (f_prio f)
    (f_importedHostScore f) (f_wheel f).
Definition with_ips (f : Frontier) (x : IPTable) : Frontier :=
  mkFrontier (f_conf f) (f_records f) (f_hosts f) (f_arena f) (f_seen f) (f_soft f) (f_traps f) (f_urlFront f)
    (f_readyHosts f) (f_wait f) (f_active f) (f_frontAge f) (f_sinceSweep f) x (f_resolver f) (f_fresh f)
    (f_prio f) (f_importedHostScore f) (f_wheel f).
Definition with_resolver (f : Frontier) (x : option ResolverState) : Frontier :=
  mkFrontier (f_conf f) (f_records f) (f_hosts f) (f_arena f) (f_seen f) (f_soft f) (f_traps f) (f_urlFront f)
    (f_readyHosts f) (f_wait f) (f_active f) (f_frontAge f) (f_sinceSweep f) (f_ips f) x (f_fresh f) (f_prio f)
    (f_importedHostScore f) (f_wheel f).
Definition with_fresh (f : Frontier) (x : option FreshState) : Frontier :=
  mkFrontier (f_conf f) (f_records f) (f_hosts f) (f_arena f) (f_seen f) (f_soft f) (f_traps f) (f_urlFront f)
    (f_readyHosts f) (f_wait f) (f_active f) (f_frontAge f) (f_sinceSweep f) (f_ips f) (f_resolver f) x
    (f_prio f) (f_importedHostScore f) (f_wheel f).
Definition with_prio (f : Frontier) (x : option PrioState) : Frontier :=
  mkFrontier (f_conf f) (f_records f) (f_hosts f) (f_arena f) (f_seen f) (f_soft f) (f_traps f) (f_urlFront f)
    (f_readyHosts f) (f_wait f) (f_active f) (f_frontAge f) (f_sinceSweep f) (f_ips f) (f_resolver f)
    (f_fresh f) x (f_importedHostScore f) (f_wheel f).
Definition with_importedHostScore (f : Frontier) (x : gmap Z Z) : Frontier :=
  mkFrontier (f_conf f) (f_records f) (f_hosts f) (f_arena f) (f_seen f) (f_soft f) (f_traps f) (f_urlFront f)
    (f_readyHosts f) (f_wait f) (f_active f) (f_frontAge f) (f_sinceSweep f) (f_ips f) (f_resolver f)
    (f_fresh f) (f_prio f) x (f_wheel f).
Definition with_wheel (f : Frontier) (x : dueWheel) : Frontier :=
  mkFrontier (f_conf f) (f_records f) (f_hosts f) (f_arena f) (f_seen f) (f_soft f) (f_traps f) (f_urlFront f)
    (f_readyHosts f) (f_wait f) (f_active f) (f_frontAge f) (f_sinceSweep f) (f_ips f) (f_resolver f)
    (f_fresh f) (f_prio f) (f_importedHostScore f) x.


Definition put_rec (f : Frontier) (key : URLKey) (r : URLRecord) : Frontier := with_records f (<[key := r]> (f_records f)).
Definition put_host (f : Frontier) (hk : Z) (h : hostEntry) : Frontier := with_hosts f (<[hk := h]> (f_hosts f)).

(** A field of a record that must be there: a nil pointer panics. *)
Definition get_rec (f : Frontier) (key : URLKey) : res URLRecord :=
  match f_records f !! key with Some r => Ok r | None => Err GoPanic end.
Definition get_host (f : Frontier) (hk : Z) : res hostEntry :=
  match f_hosts f !! hk with Some h => Ok h | None => Err GoPanic end.

(** arena.intern and arena.str; growing a slice past 2^48 bytes is beyond Go's heap. *)
Definition intern (f : Frontier) (s : list Z) : res (Frontier * Z) :=
  let '(a, off) := arenaIntern (f_arena f) s in
  _ ← ensure (Z.of_nat (length a) <=? 2 ^ 48) OutOfMemory;
  Ok (with_arena f a, off).
Definition str (f : Frontier) (off : Z) : res (list Z) := readArena (f_arena f) off.

Definition robotsKey (hk : Z) : URLKey := mkKey hk (PathKeyOf (bytes_of "/robots.txt")).

(** *** Construction *)

Definition newHost (f : Frontier) (hk ref : Z) (hostName : list Z) (crawlDelay : Z) : Frontier * hostEntry :=
  let rec := mkHost hk ref 0 ref zeroIP 0 0 0 0 crawlDelay 0 0 0 0 0 0 0 0 0 0 in
  let '(f, rec) :=
    match f_importedHostScore f !! hk with
    | Some score => (with_importedHostScore f (delete hk (f_importedHostScore f)), hset_HostScore rec score)
    | None => (f, rec)
    end in
  let h := mkEntry rec [] false false (c_Default (fc_pol (f_conf f))) (deciToDur crawlDelay) None robotsNone 0 in
  match f_resolver f with
  | Some r =>
      if bool_decide (hostName = []) then (f, h) else (with_resolver f (Some (dns_Prefetch r hostName)), h)
  | None => (f, h)
  end.

(** The three call sites that look a host up and create it when it is missing. *)
Definition ensureHost (f : Frontier) (hk : Z) (host : list Z) (crawlDelay : Z) : res Frontier :=
  match f_hosts f !! hk with
  | Some _ => Ok f
  | None =>
      '(f, ref) ← intern f host;
      let '(f, h) := newHost f hk ref host crawlDelay in
      Ok (put_host f hk h)
  end.

Definition hostFromCanonical (canon : list Z) : list Z :=
  let host := HostOf canon in
  let rd := RegistrableDomain host in
  if bool_decide (rd = []) then host else rd.

(** *** The front bank and the schedule *)

Definition effectiveTarget (f : Frontier) : Z := Z.max (fc_minActive (f_conf f)) (fc_target (f_conf f)).

Definition frontPush (f : Frontier) (key : URLKey) (priority enqueued : Z) : Frontier :=
  let f := with_urlFront f (ring_push (f_urlFront f) key priority) in
  if fc_bounded (f_conf f) then with_frontAge f (f_frontAge f ++ [mkFrontWait key enqueued]) else f.

Definition schedule (f : Frontier) (key : URLKey) (rec : URLRecord) (nowHours enqueued : Z) : Frontier :=
  if fc_wheelOn (f_conf f) && (nowHours <? r_NextDue rec) then with_wheel f (wheel_add (f_wheel f) key (r_NextDue rec))
  else frontPush f key (r_Priority rec) enqueued.

(** *** Politeness *)

Definition eligibleNow (f : Frontier) (h : hostEntry) : Z :=
  Z.max (h_HostNextEligible (he_rec h)) (u32 (EligibleAt (f_ips f) (h_ResolvedIP (he_rec h)))).

Definition resolveHost (f : Frontier) (h : hostEntry) (now : Z) : res (Frontier * hostEntry) :=
  match f_resolver f with
  | None => Ok (f, h)
  | Some r =>
      if bool_decide (h_ResolvedIP (he_rec h) <> zeroIP) && (now / 3600 <? h_IPExpiry (he_rec h)) then Ok (f, h)
      else
        host ← str f (h_HostRef (he_rec h));
        let '(ip, r) := dns_Lookup r host in
        let f := with_resolver f (Some r) in
        match ip with
        | Some ip => Ok (f, he_set_rec h (hset_IPExpiry (hset_ResolvedIP (he_rec h) ip) (u32 (now / 3600 + ipTTLHours))))
        | None => Ok (f, h)
        end
  end.

Definition spend (f : Frontier) (h : hostEntry) (now : Z) : Frontier * hostEntry :=
  let interval := HostInterval (fc_pol (f_conf f)) (he_effective h) (he_crawlFloor h) in
  let hostNext := u32 (now + durSecs interval) in
  let ips := Spend (f_ips f) (h_ResolvedIP (he_rec h)) now interval in
  let ipNext := u32 (EligibleAt ips (h_ResolvedIP (he_rec h))) in
  (with_ips f ips, he_set_rec h (hset_IPNextEligible (hset_HostNextEligible (he_rec h) hostNext) ipNext)).

Definition adapt (c : Config) (h : hostEntry) (o : Outcome) : hostEntry :=
  let sig := mkRateSignal (o_HTTPStatus o) (deciToDur (o_RetryAfter o)) (o_LatencyMS o * Millisecond)
               (h_AvgLatency (he_rec h) * Millisecond) in
  let effective := HostInterval c (Adapt c (he_effective h) sig) (he_crawlFloor h) in
  let rec := hset_AvgLatency (he_rec h) (smoothLatency (h_AvgLatency (he_rec h)) (o_LatencyMS o)) in
  let rec := if 0 <? o_HTTPStatus o then hset_CrawlTotal rec (u32 (h_CrawlTotal rec + 1)) else rec in
  let rec := if isErr (o_HTTPStatus o) then hset_ErrorTotal rec (u32 (h_ErrorTotal rec + 1)) else rec in
  let '(streak, rec) :=
    if AtCeiling c effective && isErr (o_HTTPStatus o) then
      let streak := if he_ceilStreak h <? 255 then he_ceilStreak h + 1 else he_ceilStreak h in
      (streak, if 3 <=? streak then hset_Flags rec (Z.lor (h_Flags rec) HostFlagDeadHost) else rec)
    else (0, rec) in
  mkEntry rec (he_back h) (he_inFlight h) (he_active h) effective (he_crawlFloor h) (he_robots h) (he_robotsState h) streak.

(** *** Robots *)

Definition needsRobots (h : hostEntry) (now : Z) : bool :=
  if bool_decide (he_robotsState h = robotsPending) || bool_decide (he_back h = []) then false
  else negb (bool_decide (he_robotsState h = robotsReady) && (now / 3600 <? h_RobotsExpiry (he_rec h))).

Definition robotsRequest (f : Frontier) (h : hostEntry) : res Request :=
  host ← str f (h_HostRef (he_rec h));
  Ok (mkRequest (robotsKey (h_HostKey (he_rec h))) (h_HostKey (he_rec h))
        (bytes_of "https://" ++ host ++ bytes_of "/robots.txt") [] 0 (h_ResolvedIP (he_rec h)) 0 true).

Definition allowed (f : Frontier) (h : hostEntry) (key : URLKey) : res bool :=
  match he_robots h with
  | None => Ok true
  | Some _ =>
      match f_records f !! key with
      | None => Ok true
      | Some rec => url ← str f (r_URLRef rec); Ok (Allowed (he_robots h) (PathOf url))
      end
  end.

Fixpoint filter_back (f : Frontier) (h : hostEntry) (back : list URLKey) : res (Frontier * list URLKey) :=
  match back with
  | [] => Ok (f, [])
  | k :: back =>
      ok ← allowed f h k;
      if ok : bool then '(f, kept) ← filter_back f h back; Ok (f, k :: kept)
      else
        rec ← get_rec f k;
        filter_back (put_rec f k (set_Status rec StatusExcludedRobots)) h back
  end.

Definition filterRobots (f : Frontier) (h : hostEntry) : res (Frontier * hostEntry) :=
  match he_robots h with
  | None => Ok (f, h)
  | Some _ => '(f, kept) ← filter_back f h (he_back h); Ok (f, he_set_back h kept)
  end.

(** *** Placement *)

(** place: [hk] is the host's key in the map, h.rec.HostKey in the source. *)
Definition place (f : Frontier) (h : hostEntry) (now : Z) : res Frontier :=
  match he_back h with
  | [] => Ok f
  | key :: _ =>
      if he_inFlight h then Ok f
      else
        let e := eligibleNow f h in
        if e <=? now then
          rec ← get_rec f key;
          Ok (with_readyHosts f (bank_push (f_readyHosts f) (h_HostKey (he_rec h)) (r_Priority rec)))
        else Ok (with_wait f (wait_push (f_wait f) (h_HostKey (he_rec h)) e))
  end.

(** The rules, the host record and the crawl floor a robots outcome leaves. *)
Definition robots_outcome (f : Frontier) (h : hostEntry) (o : Outcome) (now : Z) : option Rules * HostRecord * Z :=
  if (200 <=? o_HTTPStatus o) && (o_HTTPStatus o <? 300) then
    let robots := Parse (o_RobotsBody o) (fc_agent (f_conf f)) in
    let rec := hset_Flags (he_rec h) (Z.ldiff (h_Flags (he_rec h)) HostFlagRobotsMissing) in
    let cd := CrawlDelay robots in
    let d := durToDeci cd in
    let '(rec, floor) :=
      if (0 <? cd) && (h_CrawlDelay rec <? d) then (hset_CrawlDelay rec d, deciToDur d) else (rec, he_crawlFloor h) in
    (robots, hset_RobotsExpiry rec (u32 (now / 3600 + robotsTTLHours)), floor)
  else if (400 <=? o_HTTPStatus o) && (o_HTTPStatus o <? 500) then
    let rec := hset_Flags (he_rec h) (Z.lor (h_Flags (he_rec h)) HostFlagRobotsMissing) in
    (None, hset_RobotsExpiry rec (u32 (now / 3600 + robotsTTLHours)), he_crawlFloor h)
  else (None, hset_RobotsExpiry (he_rec h) (u32 (now / 3600 + 1)), he_crawlFloor h).

Definition applyRobots (f : Frontier) (hk : Z) (h : hostEntry) (o : Outcome) (now : Z) : res Frontier :=
  let '(robots, rec, floor) := robots_outcome f h o now in
  let rec := hset_RobotsFetched rec (now / 3600) in
  let h := mkEntry rec (he_back h) false (he_active h) (he_effective h) floor robots robotsReady (he_ceilStreak h) in
  '(f, h) ← filterRobots f h;
  place (put_host f hk h) h now.

(** *** Importance (m5.go) *)

Definition UpdateHostBudget (p : PrioState) (h : HostRecord) (crossHostInDegree : Z) : HostRecord :=
  hset_URLBudget h
    (Z.min (Z.max (u32 (BaseBudget p + u32 (PerInLink p * crossHostInDegree))) (MinBudget p)) (MaxBudget p)).

Definition host_rec (f : Frontier) (hk : Z) : option HostRecord := he_rec <$> (f_hosts f !! hk).

Definition reprice (f : Frontier) (p : PrioState) (key : URLKey) (h : option HostRecord) : res Frontier :=
  rec ← get_rec f key;
  let old := r_Priority rec in
  let rec := set_Priority rec (prio_Priority p rec h) in
  let f := put_rec f key rec in
  match r_Status rec with
  | StatusScheduled | StatusReady | StatusDueRecrawl =>
      Ok (with_urlFront f (rebucket (f_urlFront f) (r_URLKey rec) old (r_Priority rec)).2)
  | _ => Ok f
  end.

(** The link's credit, and the target host's budget from it. *)
Definition credit (f : Frontier) (p : PrioState) (d : Discovery) : Frontier * PrioState :=
  let '(p, indeg) := prio_Credit p d in
  let f := with_prio f (Some p) in
  let hk := HostKey (d_URLKey d) in
  match f_hosts f !! hk with
  | Some h => (put_host f hk (he_set_rec h (UpdateHostBudget p (he_rec h) indeg)), p)
  | None => (f, p)
  end.

Definition creditDiscovery (f : Frontier) (p : PrioState) (d : Discovery) (key : URLKey) : res Frontier :=
  let '(f, p) := credit f p d in reprice f p key (host_rec f (HostKey (d_URLKey d))).

(** *** Intake *)

Definition Discover (f : Frontier) (d : Discovery) (now : Z) : res (Frontier * bool) :=
  let '(seen, dup) := Seen (f_seen f) (d_URLKey d) in
  let f := with_seen f seen in
  if dup then
    match f_prio f, f_records f !! d_URLKey d with
    | Some p, Some _ => f ← creditDiscovery f p d (d_URLKey d); Ok (f, false)
    | _, _ => Ok (f, false)
    end
  else
    let hk := HostKey (d_URLKey d) in
    f ← ensureHost f hk (hostFromCanonical (d_CanonicalURL d)) 10;
    let f := match f_prio f with Some p => (credit f p d).1 | None => f end in
    let nowHours := now / 3600 in
    let '(traps, newlySuspect) := trap_Observe (f_traps f) hk (d_URLKey d) (d_CanonicalURL d) nowHours in
    let f := with_traps f traps in
    h ← get_host f hk;
    let h := if newlySuspect : bool then he_set_rec h (FlagTrapSuspect (he_rec h)) else h in
    let passes := trap_Passes (f_traps f) hk (d_CanonicalURL d) nowHours in
    let passes :=
      if IsTrapSuspect (he_rec h) && negb (trap_Suspect (f_traps f) hk)
      then bool_decide (trap_Violation (f_traps f) (d_CanonicalURL d) nowHours = PatternNone) else passes in
    let status := Admit (d_Depth d) (he_rec h) passes in
    '(f, ref) ← intern f (d_CanonicalURL d);
    let rec := mkURL (d_URLKey d) hk status (d_LinkWeight d) (d_Depth d) (d_DiscoverySource d) ref (d_ObservedAt d)
      0 0 0 0 0 0 0 0 0 0 0 0 0 0 0 in
    let rec := match f_prio f with Some p => set_Priority rec (prio_Priority p rec (Some (he_rec h))) | None => rec end in
    let f := put_rec f (d_URLKey d) rec in
    let f := put_host f hk (he_set_rec h (hset_URLCount (he_rec h) (u32 (h_URLCount (he_rec h) + 1)))) in
    if decide (status = StatusScheduled) then Ok (frontPush f (d_URLKey d) (r_Priority rec) nowHours, true)
    else Ok (f, false).

Definition Seed (f : Frontier) (url host : list Z) (priority firstSeen nextDue crawlDelay : Z) : res Frontier :=
  let hk := HostKeyOf host in
  let key := mkKey hk (PathKeyOf (PathOf url)) in
  let '(seen, dup) := Seen (f_seen f) key in
  let f := with_seen f seen in
  if dup then Ok f
  else
    '(f, ref) ← intern f url;
    let rec := mkURL key hk StatusScheduled priority 0 SourceSeed ref firstSeen
      0 0 nextDue 0 0 0 0 0 0 0 0 0 0 0 0 in
    let f := put_rec f key rec in
    f ← ensureHost f hk host crawlDelay;
    h ← get_host f hk;
    let h := he_set_rec h (hset_URLCount (he_rec h) (u32 (h_URLCount (he_rec h) + 1))) in
    let f := put_host f hk h in
    match f_prio f with
    | Some p =>
        let p := prio_SeedCash p key priority in
        let rec := set_Priority rec (prio_Priority p rec (Some (he_rec h))) in
        Ok (schedule (put_rec (with_prio f (Some p)) key rec) key rec firstSeen firstSeen)
    | None => Ok (schedule f key rec firstSeen firstSeen)
    end.

Definition Warm (f : Frontier) (key : URLKey) (etag : list Z) (lastModified prevDigest : Z) : res Frontier :=
  match f_records f !! key with
  | None => Ok f
  | Some rec =>
      if 0 <? r_CrawlCount rec then Ok f
      else
        '(f, rec) ← (if bool_decide (etag = []) then Ok (f, rec)
                     else '(f, ref) ← intern f etag; Ok (f, set_ETagRef rec ref));
        let rec := if lastModified =? 0 then rec else set_LastModified rec lastModified in
        let rec := if prevDigest =? 0 then rec else set_ContentFP rec prevDigest in
        Ok (put_rec f key rec)
  end.

Definition ImportURLSignal (f : Frontier) (u : URLSignal) : Frontier :=
  match f_prio f with
  | Some p => with_prio f (Some (prio_ImportPageRank p (us_URLKey u) (us_PageRank u)))
  | None => f
  end.

Definition ImportHostSignal (f : Frontier) (s : HostSignal) : Frontier :=
  match f_hosts f !! hs_HostKey s with
  | Some h => put_host f (hs_HostKey s) (he_set_rec h (hset_HostScore (he_rec h) (hs_HostScore s)))
  | None => with_importedHostScore f (<[hs_HostKey s := hs_HostScore s]> (f_importedHostScore f))
  end.

(** *** Moving work towards dispatch *)

(** Each turn takes one parked host out, and one put back is parked past [now]. *)
Fixpoint promote_loop (fuel : nat) (f : Frontier) (now : Z) : res Frontier :=
  match fuel with
  | O => Err OutOfFuel
  | S fuel =>
      match wait_popMin (f_wait f) with
      | None => Ok f
      | Some (it, rest) =>
          if now <? wi_eligible it then Ok f
          else
            let f := with_wait f rest in
            match f_hosts f !! wi_hostKey it with
            | None => promote_loop fuel f now
            | Some h =>
                match he_back h with
                | [] => promote_loop fuel f now
                | key :: _ =>
                    let e := eligibleNow f h in
                    if now <? e then promote_loop fuel (with_wait f (wait_push (f_wait f) (wi_hostKey it) e)) now
                    else
                      rec ← get_rec f key;
                      promote_loop fuel
                        (with_readyHosts f (bank_push (f_readyHosts f) (wi_hostKey it) (r_Priority rec))) now
                end
            end
      end
  end.
Definition promote (f : Frontier) (now : Z) : res Frontier := promote_loop (S (length (f_wait f))) f now.

(** A due key back in the front bank, its host created when it is missing. *)
Definition fire_key (f : Frontier) (now : Z) (key : URLKey) (rec : URLRecord) : res Frontier :=
  let f := put_rec f key rec in
  f ← match f_hosts f !! r_HostKey rec with
      | Some _ => Ok f
      | None => url ← str f (r_URLRef rec); ensureHost f (r_HostKey rec) (HostOf url) 10
      end;
  Ok (frontPush f key (r_Priority rec) (now / 3600)).

Definition promote_due_key (f : Frontier) (now : Z) (key : URLKey) : res Frontier :=
  match f_records f !! key with
  | None => Ok f
  | Some rec =>
      match r_Status rec with
      | StatusCrawled => fire_key f now key (set_Status rec StatusDueRecrawl)
      | StatusScheduled | StatusDueRecrawl => fire_key f now key rec
      | _ => Ok f
      end
  end.

Fixpoint promote_due_keys (f : Frontier) (now : Z) (keys : list URLKey) : res Frontier :=
  match keys with
  | [] => Ok f
  | key :: keys => f ← promote_due_key f now key; promote_due_keys f now keys
  end.

Definition promoteDue (f : Frontier) (now : Z) : res Frontier :=
  if negb (fc_wheelOn (f_conf f)) then Ok f
  else match wheel_due (f_wheel f) (now / 3600) with
       | None => Err OutOfFuel
       | Some (keys, w) => promote_due_keys (with_wheel f w) now keys
       end.

Fixpoint promote_aged (f : Frontier) (age : list frontWait) (nowHours : Z) : Frontier :=
  match age with
  | [] => with_frontAge f []
  | w :: age' =>
      if (nowHours <? fw_enqueued w) || (u32 (nowHours - fw_enqueued w) <? frontAgePromoteHours) then with_frontAge f age
      else
        match f_records f !! fw_key w with
        | Some rec =>
            if decide (r_Status rec = StatusScheduled) then
              let '(moved, ring) := rebucket (f_urlFront f) (fw_key w) (r_Priority rec) f32_one in
              let f := with_urlFront f ring in
              promote_aged (if moved : bool then put_rec f (fw_key w) (set_Priority rec f32_one) else f) age' nowHours
            else promote_aged f age' nowHours
        | None => promote_aged f age' nowHours
        end
  end.
Definition promoteAged (f : Frontier) (nowHours : Z) : Frontier := promote_aged f (f_frontAge f) nowHours.

(** Each turn takes one URL out of the front bank. *)
Fixpoint distribute_loop (fuel : nat) (f : Frontier) (target now : Z) : res Frontier :=
  match fuel with
  | O => Err OutOfFuel
  | S fuel =>
      match ring_pop (f_urlFront f) with
      | None => Ok f
      | Some (key, ring) =>
          let hk := HostKey key in
          h ← get_host f hk;
          if negb (he_active h) && (target <=? f_active f) then Ok f
          else
            let f := with_urlFront f ring in
            ok ← (if bool_decide (he_robotsState h = robotsReady) then allowed f h key else Ok true);
            if negb ok then
              rec ← get_rec f key;
              distribute_loop fuel (put_rec f key (set_Status rec StatusExcludedRobots)) target now
            else
              let wasActive := he_active h in
              let h := he_set_back h (he_back h ++ [key]) in
              if wasActive then distribute_loop fuel (put_host f hk h) target now
              else
                let h := he_set_active h true in
                f ← place (with_active (put_host f hk h) (f_active f + 1)) h now;
                distribute_loop fuel f target now
      end
  end.

Definition distribute (f : Frontier) (now : Z) : res Frontier :=
  let f :=
    if fc_bounded (f_conf f) then
      let f := with_sinceSweep f (f_sinceSweep f + 1) in
      if frontRefillBatch <=? f_sinceSweep f then promoteAged (with_sinceSweep f 0) (now / 3600) else f
    else f in
  distribute_loop (S (Z.to_nat (ring_len (f_urlFront f)))) f (effectiveTarget f) now.

(** *** Dispatch *)

(** Each turn takes one host out of the ready bank. *)
Fixpoint pick_ready (fuel : nat) (f : Frontier) (shard now : Z) : res (Frontier * option (Z * hostEntry)) :=
  match fuel with
  | O => Err OutOfFuel
  | S fuel =>
      match popShard (f_readyHosts f) shard with
      | None => Ok (f, None)
      | Some (hk, bank) =>
          h ← get_host f hk;
          '(f, h) ← resolveHost (with_readyHosts f bank) h now;
          let f := put_host f hk h in
          let e := eligibleNow f h in
          if now <? e then pick_ready fuel (with_wait f (wait_push (f_wait f) hk e)) shard now
          else Ok (f, Some (hk, h))
      end
  end.

Definition bank_len (b : readyBank) : Z := foldr (fun r n => ring_len r + n) 0 b.

Definition DispatchShard (f : Frontier) (now shard : Z) : res (Frontier * option Request) :=
  f ← promoteDue f now;
  f ← promote f now;
  f ← distribute f now;
  '(f, picked) ← pick_ready (S (Z.to_nat (bank_len (f_readyHosts f)))) f shard now;
  match picked with
  | None => Ok (f, None)
  | Some (hk, h) =>
      if fc_robotsOn (f_conf f) && needsRobots h now then
        let h := he_set_inFlight (he_set_robotsState h robotsPending) true in
        let '(f, h) := spend f h now in
        let f := put_host f hk h in
        q ← robotsRequest f h;
        Ok (f, Some q)
      else
        match he_back h with
        | [] => Err GoPanic
        | key :: _ =>
            rec ← get_rec f key;
            let rec := set_Status rec StatusInFlight in
            let f := put_rec f key rec in
            let '(f, h) := spend f (he_set_inFlight h true) now in
            let f := put_host f hk h in
            url ← str f (r_URLRef rec);
            etag ← str f (r_ETagRef rec);
            Ok (f, Some (mkRequest (r_URLKey rec) (r_HostKey rec) url etag (r_LastModified rec)
                           (h_ResolvedIP (he_rec h)) (r_Depth rec) false))
        end
  end.

Definition Dispatch (f : Frontier) (now : Z) : res (Frontier * option Request) := DispatchShard f now 0.

Definition NextEligible (f : Frontier) : option Z :=
  let best := wi_eligible <$> wait_peekMin (f_wait f) in
  if fc_wheelOn (f_conf f) then
    match wheel_nextDue (f_wheel f) with
    | Some dueH =>
        let t := u32 (dueH * 3600) in
        match best with Some b => if t <? b then Some t else best | None => Some t end
    | None => best
    end
  else best.

(** *** Outcomes *)

(** hostSpread and SetNextDue (freshness/allocate.go); the interval comes rounded. *)
Definition hostSpread (p : FreshParams) (rec : URLRecord) (interval : Z) : Z :=
  let window := Z.min (HostSpreadWindow p) interval in
  if window <=? 1 then 0 else u32 (PathKey (r_URLKey rec) mod window).

Definition SetNextDue (p : FreshParams) (rec : URLRecord) (hours now : Z) : URLRecord :=
  let interval := Z.max hours 1 in
  let due := u32 (u32 (r_LastCrawled rec + interval) + hostSpread p rec interval) in
  let due := if due <=? now then u32 (now + MinReprobeGap p) else due in
  set_Status (set_NextDue rec due) StatusDueRecrawl.

(** The rows scheduledRate sums over, in Go's map order. *)
Definition scheduled_rows (f : Frontier) : list (URLRecord * option HostRecord) :=
  (fun e => (e.2, host_rec f (r_HostKey e.2))) <$>
  filter (fun e : URLKey * URLRecord => r_Status e.2 = StatusCrawled \/ r_Status e.2 = StatusDueRecrawl)
    (map_to_list (f_records f)).

(** [h] is the key of the host the caller holds, [None] its nil pointer. *)
Definition reschedule (f : Frontier) (fs : FreshState) (key : URLKey) (h : option Z) (now : Z) : res Frontier :=
  rec ← get_rec f key;
  let rec := set_Lambda rec (fresh_Estimate (fs_params fs) rec) in
  let hours := fresh_TargetHours (fs_params fs) rec (h ≫= host_rec f) (fs_tau fs) in
  let f := put_rec f key (SetNextDue (fs_params fs) rec hours (now / 3600)) in
  let n := fs_reschedN fs + 1 in
  Ok (with_fresh f (Some
    (if tauTickEvery <=? n
     then mkFresh (fs_params fs) (fresh_Tick (fs_params fs) (fs_tau fs) (scheduled_rows f)) 0
     else mkFresh (fs_params fs) (fs_tau fs) n))).

Fixpoint discover_all (f : Frontier) (ds : list Discovery) (now : Z) : res Frontier :=
  match ds with
  | [] => Ok f
  | d :: ds => '(f, _) ← Discover f d now; discover_all f ds now
  end.

Definition set_src (hk : Z) (d : Discovery) : Discovery :=
  mkDisc (d_URLKey d) (d_CanonicalURL d) (d_Depth d) (d_DiscoverySource d) hk (d_LinkWeight d) (d_AnchorHint d) (d_ObservedAt d).

Definition spreadCash (f : Frontier) (p : PrioState) (key : URLKey) (h : option Z) (links : list Discovery) (now : Z)
    : res Frontier :=
  rec ← get_rec f key;
  let '(p, links) := prio_Distribute p (r_URLKey rec) (set_src (r_HostKey rec) <$> links) in
  let f := with_prio f (Some p) in
  let local := match fc_linkSink (f_conf f) with Some sink => sink links | None => links end in
  f ← discover_all f local now;
  match f_prio f with
  | Some p => reprice f p key (h ≫= host_rec f)
  | None => Ok f
  end.

(** What markCrawled writes to the record before the hooks run. *)
Definition crawl_stamp (rec : URLRecord) (o : Outcome) : URLRecord :=
  let rec := set_Status rec StatusCrawled in
  let rec := set_RetryCount rec 0 in
  let rec := if r_FirstSeen rec =? 0 then set_FirstSeen rec (o_FetchedAt o) else rec in
  let rec := set_LastCrawled rec (o_FetchedAt o) in
  let rec := set_CrawlCount rec (u32 (r_CrawlCount rec + 1)) in
  set_NextDue rec (u32 (o_FetchedAt o + recrawlGapHours)).

(** The change classification of a body; [gone] is the soft-404 verdict. *)
Definition crawl_change (rec : URLRecord) (o : Outcome) (gone : bool) : URLRecord :=
  let rec := if gone then set_Status rec StatusGone else rec in
  let rec :=
    if r_ContentFP rec =? 0 then rec
    else match ClassifyChange (r_ContentFP rec) (o_ContentFP o) (r_Simhash rec) (o_Simhash o) with
         | NoChange | CosmeticChange => set_NoChangeStreak rec (u16 (r_NoChangeStreak rec + 1))
         | RealChange =>
             set_LastChanged (set_NoChangeStreak (set_ChangeCount rec (u32 (r_ChangeCount rec + 1))) 0) (o_FetchedAt o)
         end in
  set_Simhash (set_ContentFP rec (o_ContentFP o)) (o_Simhash o).

Definition markCrawled (f : Frontier) (key : URLKey) (h : option Z) (o : Outcome) (now : Z) : res Frontier :=
  rec ← get_rec f key;
  let rec := crawl_stamp rec o in
  let '(f, rec) :=
    if negb (o_NotModified o) && negb (o_ContentFP o =? 0) then
      let '(soft, gone) := soft_Observe (f_soft f) (r_HostKey rec) (o_ContentFP o) (o_URLKey o) in
      (with_soft f soft, crawl_change rec o gone)
    else (f, rec) in
  let rec := if o_NotModified o then set_NoChangeStreak rec (u16 (r_NoChangeStreak rec + 1)) else rec in
  '(f, rec) ← (if bool_decide (o_ETag o = []) then Ok (f, rec)
               else '(f, ref) ← intern f (o_ETag o); Ok (f, set_ETagRef rec ref));
  let rec := if o_LastModified o =? 0 then rec else set_LastModified rec (o_LastModified o) in
  let f := put_rec f key rec in
  f ← match f_fresh f with Some fs => reschedule f fs key h now | None => Ok f end;
  f ← match f_prio f with
      | Some p => if bool_decide (o_Links o = []) then Ok f else spreadCash f p key h (o_Links o) now
      | None => Ok f
      end;
  rec ← get_rec f key;
  if fc_wheelOn (f_conf f) && bool_decide (r_Status rec = StatusCrawled)
  then Ok (with_wheel f (wheel_add (f_wheel f) (r_URLKey rec) (r_NextDue rec)))
  else Ok f.

Definition failURL (f : Frontier) (key : URLKey) (h : option Z) (o : Outcome) : res Frontier :=
  rec ← get_rec f key;
  let rec := if r_ErrorCount rec <? 2 ^ 16 - 1 then set_ErrorCount rec (r_ErrorCount rec + 1) else rec in
  let rec := if r_RetryCount rec <? maxRetries then set_RetryCount rec (r_RetryCount rec + 1) else rec in
  if (o_HTTPStatus o =? 410) || (maxRetries <=? r_RetryCount rec) then Ok (put_rec f key (set_Status rec StatusGone))
  else
    let rec := set_NextDue (set_Status rec StatusScheduled) (u32 (o_FetchedAt o + retryBackoffHours (r_RetryCount rec))) in
    let f := put_rec f key rec in
    match h with
    | Some hk => h ← get_host f hk; Ok (put_host f hk (he_set_back h (he_back h ++ [r_URLKey rec])))
    | None => Ok f
    end.

Definition recordRedirect (f : Frontier) (key : URLKey) (o : Outcome) (now : Z) : res Frontier :=
  if bool_decide (o_RedirectTarget o = []) then Ok f
  else
    rec ← get_rec f key;
    base ← str f (r_URLRef rec);
    match CanonicalKey (o_RedirectTarget o) base with
    | None => Ok f
    | Some (target, canon) =>
        '(f, _) ← Discover f (mkDisc target canon (r_Depth rec) SourceRedirect (r_HostKey rec) (r_Priority rec) 0 (o_FetchedAt o)) now;
        rec ← get_rec f key;
        '(f, ref) ← intern f canon;
        Ok (put_rec f key (set_RedirectRef rec ref))
    end.

(** The switch of Report on the outcome. *)
Definition apply_outcome (f : Frontier) (key : URLKey) (h : option Z) (o : Outcome) (now : Z) : res Frontier :=
  if fc_stateOn (f_conf f) then
    if o_NotModified o then markCrawled f key h o now
    else if bool_decide (o_RedirectTarget o <> []) || ((300 <=? o_HTTPStatus o) && (o_HTTPStatus o <? 400)) then
      f ← recordRedirect f key o now; markCrawled f key h o now
    else if o_Retryable o || ((400 <=? o_HTTPStatus o) && (o_HTTPStatus o <=? 599)) then failURL f key h o
    else markCrawled f key h o now
  else markCrawled f key h o now.

(** The host after its outcome: out of flight, and re-placed or retired. *)
Definition settle_host (f : Frontier) (hk : Z) (o : Outcome) (now : Z) : res Frontier :=
  h ← get_host f hk;
  let h := he_set_inFlight (adapt (fc_pol (f_conf f)) h o) false in
  if bool_decide (he_back h = []) then Ok (with_active (put_host f hk (he_set_active h false)) (f_active f - 1))
  else place (put_host f hk h) h now.

Definition report_content (f : Frontier) (rec : URLRecord) (o : Outcome) (now : Z) : res Frontier :=
  let hk := r_HostKey rec in
  let h := match f_hosts f !! hk with Some _ => Some hk | None => None end in
  let f :=
    match f_hosts f !! hk with
    | Some h => if bool_decide (head (he_back h) = Some (o_URLKey o)) then put_host f hk (he_set_back h (tail (he_back h))) else f
    | None => f
    end in
  let f := put_rec f (o_URLKey o) (set_HTTPStatus rec (o_HTTPStatus o)) in
  f ← apply_outcome f (o_URLKey o) h o now;
  match h with Some hk => settle_host f hk o now | None => Ok f end.

Definition Report (f : Frontier) (o : Outcome) (now : Z) : res Frontier :=
  let content := match f_records f !! o_URLKey o with Some rec => report_content f rec o now | None => Ok f end in
  if fc_robotsOn (f_conf f) then
    match f_hosts f !! HostKey (o_URLKey o) with
    | Some h =>
        if bool_decide (he_robotsState h = robotsPending) && bool_decide (o_URLKey o = robotsKey (h_HostKey (he_rec h)))
        then applyRobots f (HostKey (o_URLKey o)) h o now else content
    | None => content
    end
  else content.

(** *** Drain *)

Record Dispatched := mkDispatched { dp_Key : URLKey; dp_HostKey : Z; dp_At : Z }.

(** [fetch] is the fetcher with a state of its own; [None] is its error. *)
Section Drain.
Context {FS : Type} (fetch : FS -> Request -> FS * option Outcome).

Fixpoint drain_loop (fuel : nat) (f : Frontier) (st : FS) (now : Z) (out : list Dispatched)
    : res (Frontier * FS * list Dispatched) :=
  match fuel with
  | O => Err OutOfFuel
  | S fuel =>
      '(f, q) ← Dispatch f now;
      match q with
      | Some q =>
          let '(st, o) := fetch st q in
          match o with
          | None => Ok (f, st, out)
          | Some o =>
              let out := out ++ [mkDispatched (q_URLKey q) (q_HostKey q) now] in
              f ← Report f o now;
              drain_loop fuel f st now out
          end
      | None =>
          match NextEligible f with
          | None => Ok (f, st, out)
          | Some t => if t <=? now then Ok (f, st, out) else drain_loop fuel f st t out
          end
      end
  end.

End Drain.

(** *** Queries *)

Definition Len (f : Frontier) : Z := Z.of_nat (size (f_records f)).
Definition Pending (f : Frontier) : Z :=
  ring_len (f_urlFront f) + zsum ((fun e => Z.of_nat (length (he_back e.2))) <$> map_to_list (f_hosts f)).

Record DueURL := mkDueURL { du_Key : URLKey; du_URL : list Z; du_NextDue : Z }.
Definition due_order (a b : DueURL) : Prop :=
  du_NextDue a < du_NextDue b \/ (du_NextDue a = du_NextDue b /\ key_le (du_Key a) (du_Key b)).
#[local] Instance due_order_dec a b : Decision (due_order a b).
Proof. unfold due_order. apply _. Defined.

Definition due_status (s : URLStatus) : bool :=
  match s with StatusGone | StatusExcludedRobots | StatusTrapped | StatusInFlight => false | _ => true end.

Fixpoint due_rows (f : Frontier) (rows : list (URLKey * URLRecord)) : res (list DueURL) :=
  match rows with
  | [] => Ok []
  | (key, r) :: rows => url ← str f (r_URLRef r); out ← due_rows f rows; Ok (mkDueURL key url (r_NextDue r) :: out)
  end.

Definition DueURLs (f : Frontier) (before host limit : Z) : res (list DueURL) :=
  out ← due_rows f (filter (fun e : URLKey * URLRecord => (host = 0 \/ r_HostKey e.2 = host) /\
          due_status (r_Status e.2) = true /\ r_NextDue e.2 <= before) (map_to_list (f_records f)));
  let out := merge_sort due_order out in
  Ok (if (0 <? limit) && (limit <? Z.of_nat (length out)) then take (Z.to_nat limit) out else out).

(** *** Checkpoint and recovery *)

Definition Checkpoint (f : Frontier) : Partition :=
  let urls := merge_sort url_order (map_to_list (f_records f)).*2 in
  let hosts := merge_sort host_order (he_rec <$> (map_to_list (f_hosts f)).*2) in
  let lo := match head hosts with Some h => h_HostKey h | None => 0 end in
  let hi := match last hosts with Some h => h_HostKey h | None => 2 ^ 64 - 1 end in
  mkPartition (fc_id (f_conf f)) lo hi (fc_created (f_conf f)) (fc_codec (f_conf f)) urls hosts (f_arena f) []
    (fc_wheelOn (f_conf f)) 0 ∅.

(** What New has before it builds the queues: the configuration and the states the
    options install. *)
Record Options := mkOptions {
  op_conf : FConf; op_resolver : option ResolverState; op_fresh : option FreshState; op_prio : option PrioState }.

(** The options, in the source's order. A resolver cache, a tau controller and a prioritizer
    come built. *)
Definition default_options (id created : Z) : Options :=
  mkOptions (mkFConf id created CodecZstd defaultTarget 0 0 false DefaultConfig false (bytes_of "meguri") None false false)
    None None None.

Definition WithTarget (n : Z) (op : Options) : Options :=
  let c := op_conf op in
  if 0 <? n then
    mkOptions (mkFConf (fc_id c) (fc_created c) (fc_codec c) n (fc_shards c) (fc_minActive c) true (fc_pol c) (fc_robotsOn c)
      (fc_agent c) (fc_linkSink c) (fc_stateOn c) (fc_wheelOn c)) (op_resolver op) (op_fresh op) (op_prio op)
  else op.

Definition WithDispatchThreads (threads : Z) (op : Options) : Options :=
  let c := op_conf op in
  if 0 <? threads then
    mkOptions (mkFConf (fc_id c) (fc_created c) (fc_codec c) (fc_target c) (fc_shards c) (i64 (backQueuesPerThread * threads)) true
      (fc_pol c) (fc_robotsOn c) (fc_agent c) (fc_linkSink c) (fc_stateOn c) (fc_wheelOn c))
      (op_resolver op) (op_fresh op) (op_prio op)
  else op.

Definition WithDispatchShards (w : Z) (op : Options) : Options :=
  let c := op_conf op in
  if 1 <? w then
    mkOptions (mkFConf (fc_id c) (fc_created c) (fc_codec c) (fc_target c) w (fc_minActive c) (fc_bounded c) (fc_pol c)
      (fc_robotsOn c) (fc_agent c) (fc_linkSink c) (fc_stateOn c) (fc_wheelOn c)) (op_resolver op) (op_fresh op) (op_prio op)
  else op.

(** The address table, which this option rebuilds, is built by [New] from the last policy. *)
Definition WithPoliteness (pol : Config) (op : Options) : Options :=
  let c := op_conf op in
  mkOptions (mkFConf (fc_id c) (fc_created c) (fc_codec c) (fc_target c) (fc_shards c) (fc_minActive c) (fc_bounded c) pol
    (fc_robotsOn c) (fc_agent c) (fc_linkSink c) (fc_stateOn c) (fc_wheelOn c)) (op_resolver op) (op_fresh op) (op_prio op).

Definition WithResolver (cache : ResolverState) (op : Options) : Options :=
  mkOptions (op_conf op) (Some cache) (op_fresh op) (op_prio op).

Definition WithResolverCache (cache : option ResolverState) (op : Options) : Options :=
  match cache with Some c => WithResolver c op | None => op end.

Definition WithRobots (agent : list Z) (op : Options) : Options :=
  let c := op_conf op in
  mkOptions (mkFConf (fc_id c) (fc_created c) (fc_codec c) (fc_target c) (fc_shards c) (fc_minActive c) (fc_bounded c) (fc_pol c)
    true (if bool_decide (agent = []) then fc_agent c else agent) (fc_linkSink c) (fc_stateOn c) (fc_wheelOn c))
    (op_resolver op) (op_fresh op) (op_prio op).

Definition WithFreshness (p : FreshParams) (tau : TauController) (op : Options) : Options :=
  mkOptions (op_conf op) (op_resolver op) (Some (mkFresh p tau 0)) (op_prio op).

Definition WithPrioritizer (p : PrioState) (op : Options) : Options :=
  mkOptions (op_conf op) (op_resolver op) (op_fresh op) (Some p).

Definition WithLinkRouter (sink : list Discovery -> list Discovery) (op : Options) : Options :=
  let c := op_conf op in
  mkOptions (mkFConf (fc_id c) (fc_created c) (fc_codec c) (fc_target c) (fc_shards c) (fc_minActive c) (fc_bounded c) (fc_pol c)
    (fc_robotsOn c) (fc_agent c) (Some sink) (fc_stateOn c) (fc_wheelOn c)) (op_resolver op) (op_fresh op) (op_prio op).

Definition WithStateMachine (op : Options) : Options :=
  let c := op_conf op in
  mkOptions (mkFConf (fc_id c) (fc_created c) (fc_codec c) (fc_target c) (fc_shards c) (fc_minActive c) (fc_bounded c) (fc_pol c)
    (fc_robotsOn c) (fc_agent c) (fc_linkSink c) true (fc_wheelOn c)) (op_resolver op) (op_fresh op) (op_prio op).

Definition WithScheduleIndex (op : Options) : Options :=
  let c := op_conf op in
  mkOptions (mkFConf (fc_id c) (fc_created c) (fc_codec c) (fc_target c) (fc_shards c) (fc_minActive c) (fc_bounded c) (fc_pol c)
    (fc_robotsOn c) (fc_agent c) (fc_linkSink c) (fc_stateOn c) true) (op_resolver op) (op_fresh op) (op_prio op).

Definition apply_options (id created : Z) (opts : list (Options -> Options)) : Options :=
  foldl (fun op o => o op) (default_options id created) opts.

Definition New (op : Options) : Frontier :=
  let c := op_conf op in
  mkFrontier c ∅ ∅ newArena NewDefaultSeenSet NewSoftDetector NewTrapDetector empty_ring (newReadyBank (fc_shards c)) []
    0 [] 0 (NewIPTable (c_IPFloor (fc_pol c))) (op_resolver op) (op_fresh op) (op_prio op) ∅ (newDueWheel (fc_created c)).

Definition recover_host (f : Frontier) (h : HostRecord) : Frontier :=
  put_host f (h_HostKey h)
    (mkEntry h [] false false (c_Default (fc_pol (f_conf f))) (deciToDur (h_CrawlDelay h)) None robotsNone 0).

Definition recover_url (f : Frontier) (rec : URLRecord) : res Frontier :=
  let rec := if decide (r_Status rec = StatusInFlight) then set_Status rec StatusScheduled else rec in
  let key := r_URLKey rec in
  let f := put_rec f key rec in
  let f := with_seen f (Insert (f_seen f) key) in
  match r_Status rec with
  | StatusScheduled | StatusReady | StatusDueRecrawl =>
      f ← match f_hosts f !! r_HostKey rec with
          | Some _ => Ok f
          | None => url ← str f (r_URLRef rec); ensureHost f (r_HostKey rec) (HostOf url) 10
          end;
      Ok (frontPush f key (r_Priority rec) (r_FirstSeen rec))
  | StatusCrawled =>
      if fc_wheelOn (f_conf f) && (0 <? r_NextDue rec) then Ok (with_wheel f (wheel_add (f_wheel f) key (r_NextDue rec)))
      else Ok f
  | _ => Ok f
  end.

Fixpoint recover_urls (f : Frontier) (urls : list URLRecord) : res Frontier :=
  match urls with
  | [] => Ok f
  | rec :: urls => f ← recover_url f rec; recover_urls f urls
  end.

(** [op] carries p.ID, p.CreatedHours and p.DefaultCodec in its configuration. *)
Definition Recover (p : Partition) (op : Options) : res Frontier :=
  let f := with_arena (New op) (p_Strings p) in
  let f := foldl recover_host f (p_Hosts p) in
  recover_urls f (p_URLs p).

End Frontier.
