(* ===== verification/Sitemap.v ===== *)
(** * Sitemaps (sitemap/sitemap.go, sitemap/intake.go)

    The parser reads a stream of XML tokens and keeps the locations and modification dates of
    a urlset, or the children of a sitemapindex; the intake turns entries into discoveries.
    The XML decoder, gzip and time.Parse are arguments: a stream is the tokens before the end
    of the body or the first syntax error, which the parser treats alike. *)

From S2P Require Import Prelude Words Model GoStrings Frontier.
From Stdlib Require String.
Import String.StringSyntax.
Open Scope Z_scope.

(** ** Results *)

Record Entry := mkSitemapEntry { se_Loc : list Z; se_LastMod : Z; se_HasLastMod : bool }.
Record Result := mkResult { rs_Entries : list Entry; rs_Children : list (list Z) }.

Definition MaxDecompressed : Z := Z.shiftl 50 20.
Definition MaxEntries : Z := 50000.

(** The token kinds the parser looks at; names are the local parts. *)
Inductive token := TStart (name : list Z) | TChars (text : list Z) | TEnd (name : list Z) | TOther.

Definition lastModLayouts : list (list Z) :=
  [bytes_of "2006-01-02"; bytes_of "2006-01-02T15:04:05Z07:00"; bytes_of "2006-01-02T15:04:05-07:00";
   bytes_of "2006-01-02T15:04:05Z07:00"].

(** ** The token loop *)

Record parser := mkParser {
  ps_index : bool; ps_sawRoot : bool; ps_inEntry : bool; ps_inLoc : bool; ps_inLastMod : bool;
  ps_loc : list Z; ps_lastMod : list Z; ps_res : Result
}.

Definition new_parser : parser := mkParser false false false false false [] [] (mkResult [] []).

Definition count (res : Result) (index : bool) : Z :=
  if index then Z.of_nat (length (rs_Children res)) else Z.of_nat (length (rs_Entries res)).

Section Parse.
Context `{Unicode} (time_Parse : list Z -> list Z -> option Z).

Definition local (name : list Z) : list Z := ToLower name.

(** The unix second of a date in one of the layouts, in hours. *)
Fixpoint parse_layouts (layouts : list (list Z)) (s : list Z) : option Z :=
  match layouts with
  | [] => None
  | l :: layouts =>
      match time_Parse l s with
      | None => parse_layouts layouts s
      | Some secs => if secs <? 0 then None else Some (u32 (secs ÷ 3600))
      end
  end.

Definition parseLastMod (s : list Z) : option Z :=
  if bool_decide (s = []) then None else parse_layouts lastModLayouts s.

Definition make_entry (text lastMod : list Z) : Entry :=
  match parseLastMod (TrimSpace lastMod) with
  | Some h => mkSitemapEntry text h true
  | None => mkSitemapEntry text 0 false
  end.

Definition flush (p : parser) : parser :=
  let text := TrimSpace (ps_loc p) in
  let res :=
    if bool_decide (text = []) then ps_res p
    else if ps_index p then mkResult (rs_Entries (ps_res p)) (rs_Children (ps_res p) ++ [text])
    else mkResult (rs_Entries (ps_res p) ++ [make_entry text (ps_lastMod p)]) (rs_Children (ps_res p)) in
  mkParser (ps_index p) (ps_sawRoot p) (ps_inEntry p) (ps_inLoc p) (ps_inLastMod p) [] [] res.

Definition on_token (p : parser) (t : token) : parser :=
  match t with
  | TStart n =>
      let n := local n in
      if bool_decide (n = bytes_of "urlset") then
        if negb (ps_sawRoot p)
        then mkParser false true (ps_inEntry p) (ps_inLoc p) (ps_inLastMod p) (ps_loc p) (ps_lastMod p) (ps_res p) else p
      else if bool_decide (n = bytes_of "sitemapindex") then
        if negb (ps_sawRoot p)
        then mkParser true true (ps_inEntry p) (ps_inLoc p) (ps_inLastMod p) (ps_loc p) (ps_lastMod p) (ps_res p) else p
      else if bool_decide (n = bytes_of "url") || bool_decide (n = bytes_of "sitemap") then
        mkParser (ps_index p) (ps_sawRoot p) true (ps_inLoc p) (ps_inLastMod p) [] [] (ps_res p)
      else if bool_decide (n = bytes_of "loc") then
        if ps_inEntry p
        then mkParser (ps_index p) (ps_sawRoot p) (ps_inEntry p) true (ps_inLastMod p) (ps_loc p) (ps_lastMod p) (ps_res p) else p
      else if bool_decide (n = bytes_of "lastmod") then
        if ps_inEntry p
        then mkParser (ps_index p) (ps_sawRoot p) (ps_inEntry p) (ps_inLoc p) true (ps_loc p) (ps_lastMod p) (ps_res p) else p
      else p
  | TChars s =>
      if ps_inLoc p
      then mkParser (ps_index p) (ps_sawRoot p) (ps_inEntry p) (ps_inLoc p) (ps_inLastMod p) (ps_loc p ++ s) (ps_lastMod p) (ps_res p)
      else if ps_inLastMod p
      then mkParser (ps_index p) (ps_sawRoot p) (ps_inEntry p) (ps_inLoc p) (ps_inLastMod p) (ps_loc p) (ps_lastMod p ++ s) (ps_res p)
      else p
  | TEnd n =>
      let n := local n in
      if bool_decide (n = bytes_of "loc")
      then mkParser (ps_index p) (ps_sawRoot p) (ps_inEntry p) false (ps_inLastMod p) (ps_loc p) (ps_lastMod p) (ps_res p)
      else if bool_decide (n = bytes_of "lastmod")
      then mkParser (ps_index p) (ps_sawRoot p) (ps_inEntry p) (ps_inLoc p) false (ps_loc p) (ps_lastMod p) (ps_res p)
      else if bool_decide (n = bytes_of "url") || bool_decide (n = bytes_of "sitemap") then
        if ps_inEntry p then
          let p := flush p in
          mkParser (ps_index p) (ps_sawRoot p) false (ps_inLoc p) (ps_inLastMod p) (ps_loc p) (ps_lastMod p) (ps_res p)
        else p
      else p
  | TOther => p
  end.

Fixpoint decode_loop (p : parser) (ts : list token) : Result :=
  if count (ps_res p) (ps_index p) <? MaxEntries then
    match ts with
    | [] => ps_res p
    | t :: ts => decode_loop (on_token p t) ts
    end
  else ps_res p.

Definition decode (ts : list token) : Result := decode_loop new_parser ts.

(** [Parse] over a body: [gunzip] is gzip.NewReader with what it decompresses, [tokens] the
    XML decoder. *)
Definition sm_decompress (gunzip : list Z -> option (list Z)) (body : list Z) : option (list Z) :=
  match body with
  | 31 :: 139 :: _ => gunzip body
  | _ => Some body
  end.

Definition parse_sitemap (gunzip : list Z -> option (list Z)) (tokens : list Z -> list token) (body : list Z) : option Result :=
  body ← sm_decompress gunzip body;
  Some (decode (tokens (take (Z.to_nat MaxDecompressed) body))).
End Parse.

(** ** Intake *)

Section Intake.
Context `{Canon}.

Definition hostKeyOf (base : list Z) : Z :=
  match CanonicalKey base [] with Some (key, _) => HostKey key | None => 0 end.

Definition entry_discovery (base : list Z) (srcHost now : Z) (e : Entry) : option Discovery :=
  '(key, canon) ← CanonicalKey (se_Loc e) base;
  Some (mkDisc key canon 0 SourceSitemap srcHost 0 0 (if se_HasLastMod e then se_LastMod e else now)).

Definition Discoveries (res : Result) (base : list Z) (now : Z) : list Discovery :=
  match rs_Entries res with
  | [] => []
  | es => omap (entry_discovery base (hostKeyOf base) now) es
  end.

Definition ChildURLs (Canonicalize : list Z -> list Z -> option (list Z)) (res : Result) (base : list Z) : list (list Z) :=
  match rs_Children res with
  | [] => []
  | cs => omap (fun loc => Canonicalize loc base) cs
  end.
End Intake.

(** ** Documents

    A document as the protocol lays it out: a root with entries, an entry with locations and
    dates. Anything else may stand before, between, inside and after them: a declaration,
    comments, text, and elements of other names, nested as they like. *)

Definition special : list (list Z) :=
  [bytes_of "urlset"; bytes_of "sitemapindex"; bytes_of "url"; bytes_of "sitemap"; bytes_of "loc"; bytes_of "lastmod"].

(** A token that is no tag of the protocol. *)
Definition loose `{Unicode} (t : token) : Prop :=
  match t with TStart n | TEnd n => ToLower n ∉ special | TChars _ | TOther => True end.

Inductive item := ILoc (body : list token) | ILastMod (body : list token) | ILoose (t : token).

Definition item_ok `{Unicode} (i : item) : Prop :=
  match i with ILoc body | ILastMod body => Forall loose body | ILoose t => loose t end.

Definition item_tokens (i : item) : list token :=
  match i with
  | ILoc body => TStart (bytes_of "loc") :: body ++ [TEnd (bytes_of "loc")]
  | ILastMod body => TStart (bytes_of "lastmod") :: body ++ [TEnd (bytes_of "lastmod")]
  | ILoose t => [t]
  end.

Definition entry_tokens (tag : list Z) (items : list item) : list token :=
  TStart tag :: mjoin (item_tokens <$> items) ++ [TEnd tag].

(** An entry comes with the tokens before it. *)
Record document := mkDocument {
  dc_index : bool; dc_prologue : list token; dc_entries : list (list token * list item); dc_tail : list token;
  dc_epilogue : list token
}.

Definition document_ok `{Unicode} (d : document) : Prop :=
  Forall loose (dc_prologue d) /\ Forall (fun e => Forall loose e.1 /\ Forall item_ok e.2) (dc_entries d) /\
  Forall loose (dc_tail d) /\ Forall loose (dc_epilogue d).

Definition document_tokens (d : document) : list token :=
  let root := if dc_index d then bytes_of "sitemapindex" else bytes_of "urlset" in
  let tag := if dc_index d then bytes_of "sitemap" else bytes_of "url" in
  dc_prologue d ++ TStart root :: mjoin ((fun e => e.1 ++ entry_tokens tag e.2) <$> dc_entries d) ++
  dc_tail d ++ TEnd root :: dc_epilogue d.

Definition token_text (t : token) : list Z := match t with TChars s => s | _ => [] end.
Definition body_text (body : list token) : list Z := mjoin (token_text <$> body).
Definition loc_text (i : item) : list Z := match i with ILoc body => body_text body | _ => [] end.
Definition lastmod_text (i : item) : list Z := match i with ILastMod body => body_text body | _ => [] end.

(** The location and date of an entry; an entry without a location is dropped. *)
Definition entry_fields `{Unicode} (items : list item) : option (list Z * list Z) :=
  let text := TrimSpace (mjoin (loc_text <$> items)) in
  if bool_decide (text = []) then None else Some (text, mjoin (lastmod_text <$> items)).

Definition document_result `{Unicode} (time_Parse : list Z -> list Z -> option Z) (d : document) : Result :=
  let kept := take (Z.to_nat MaxEntries) (omap entry_fields (snd <$> dc_entries d)) in
  if dc_index d then mkResult [] (fst <$> kept)
  else mkResult ((fun f => make_entry time_Parse f.1 f.2) <$> kept) [].

(** ** Tokens of a document *)

Ltac tag_cases :=
  repeat first
    [ rewrite bool_decide_eq_true_2 by (vm_compute; reflexivity)
    | rewrite bool_decide_eq_false_2 by (vm_compute; discriminate) ];
  cbn [orb negb].

Section Proofs.
Context `{Unicode} (time_Parse : list Z -> list Z -> option Z).

Notation on_token := (on_token time_Parse).
Notation decode_loop := (decode_loop time_Parse).

(** Between entries, and inside one. *)
Definition between (idx : bool) (res : Result) : parser := mkParser idx true false false false [] [] res.
Definition inside (idx : bool) (loc lm : list Z) (res : Result) : parser := mkParser idx true true false false loc lm res.

(** A token that changes neither the result nor the kind of document. *)
Definition harmless (t : token) : Prop :=
  match t with TEnd n => ToLower n <> bytes_of "url" /\ ToLower n <> bytes_of "sitemap" | _ => True end.

Lemma harmless_keeps p t : harmless t -> ps_sawRoot p = true ->
  ps_res (on_token p t) = ps_res p /\ ps_index (on_token p t) = ps_index p /\ ps_sawRoot (on_token p t) = true.
Proof using Type.
  intros Ht Hs. destruct t as [n | s | n |]; [| | | done]; unfold Sitemap.on_token, local; rewrite ?Hs; cbn [negb].
  - repeat (destruct (bool_decide _); cbn [orb]; [by try destruct (ps_inEntry p) |]); by try destruct (ps_inEntry p).
  - by destruct (ps_inLoc p), (ps_inLastMod p).
  - destruct Ht as [H1 H2]. rewrite (bool_decide_eq_false_2 (ToLower n = bytes_of "url") H1),
      (bool_decide_eq_false_2 (ToLower n = bytes_of "sitemap") H2). cbn [orb]. by repeat destruct (bool_decide _).
Qed.

Lemma decode_harmless ts : Forall harmless ts -> forall p rest, ps_sawRoot p = true ->
  count (ps_res p) (ps_index p) < MaxEntries ->
  decode_loop p (ts ++ rest) = decode_loop (foldl on_token p ts) rest.
Proof using Type.
  induction 1 as [|t ts Ht _ IH]; intros p rest Hs Hc; [done |]. cbn [app foldl].
  destruct (harmless_keeps p t Ht Hs) as (Er & Ei & Es).
  change (decode_loop p (t :: ts ++ rest)) with
    (if count (ps_res p) (ps_index p) <? MaxEntries then decode_loop (on_token p t) (ts ++ rest) else ps_res p).
  rewrite (proj2 (Z.ltb_lt _ _) Hc). apply IH; [done |]. by rewrite Er, Ei.
Qed.

Lemma decode_full p ts : MaxEntries <= count (ps_res p) (ps_index p) -> decode_loop p ts = ps_res p.
Proof using Type. intros Hc. destruct ts; cbn [Sitemap.decode_loop]; by rewrite (proj2 (Z.ltb_ge _ _) Hc). Qed.

Lemma other_tag p n : ToLower n ∉ special -> on_token p (TStart n) = p /\ on_token p (TEnd n) = p.
Proof using Type.
  intros Hn. assert (Hne : forall s, s ∈ special -> bool_decide (ToLower n = s) = false).
  { intros s Hs. apply bool_decide_eq_false_2. intros E. apply Hn. by rewrite E. }
  unfold Sitemap.on_token, local. rewrite !Hne by (unfold special; set_solver). done.
Qed.

Lemma loose_harmless t : loose t -> harmless t.
Proof using time_Parse. destruct t as [n | s | n |]; try done. cbn. unfold special. intros Hn. split; intros E; apply Hn; rewrite E; set_solver. Qed.

Lemma loose_outside p t : loose t -> ps_inLoc p = false -> ps_inLastMod p = false -> on_token p t = p.
Proof using Type.
  intros Ht Hl Hm. destruct t as [n | s | n |]; [by apply other_tag | | by apply other_tag | done].
  cbn [Sitemap.on_token]. by rewrite Hl, Hm.
Qed.

Lemma decode_loose ts p rest : Forall loose ts -> ps_inLoc p = false -> ps_inLastMod p = false ->
  decode_loop p (ts ++ rest) = decode_loop p rest.
Proof using Type.
  intros Hts Hl Hm. induction Hts as [|t ts Ht _ IH]; [done |].
  change (decode_loop p ((t :: ts) ++ rest)) with
    (if count (ps_res p) (ps_index p) <? MaxEntries then decode_loop (on_token p t) (ts ++ rest) else ps_res p).
  rewrite loose_outside, IH by done. destruct (Z.ltb_spec (count (ps_res p) (ps_index p)) MaxEntries); [done | by rewrite decode_full].
Qed.

Lemma body_loc idx loc lm res body : Forall loose body ->
  foldl on_token (mkParser idx true true true false loc lm res) body = mkParser idx true true true false (loc ++ body_text body) lm res.
Proof using Type.
  intros Hb. revert loc. induction Hb as [|t body Ht _ IH]; intros loc; cbn [foldl]; [by rewrite app_nil_r |].
  change (body_text (t :: body)) with (token_text t ++ body_text body). rewrite app_assoc, <- IH. f_equal.
  destruct t as [n | s | n |]; cbn [token_text]; rewrite ?app_nil_r; [by apply other_tag | done | by apply other_tag | done].
Qed.

Lemma body_lastmod idx loc lm res body : Forall loose body ->
  foldl on_token (mkParser idx true true false true loc lm res) body = mkParser idx true true false true loc (lm ++ body_text body) res.
Proof using Type.
  intros Hb. revert lm. induction Hb as [|t body Ht _ IH]; intros lm; cbn [foldl]; [by rewrite app_nil_r |].
  change (body_text (t :: body)) with (token_text t ++ body_text body). rewrite app_assoc, <- IH. f_equal.
  destruct t as [n | s | n |]; cbn [token_text]; rewrite ?app_nil_r; [by apply other_tag | done | by apply other_tag | done].
Qed.

Lemma item_step idx loc lm res i : item_ok i ->
  foldl on_token (inside idx loc lm res) (item_tokens i) = inside idx (loc ++ loc_text i) (lm ++ lastmod_text i) res.
Proof using Type.
  intros Hi. destruct i as [body | body | t]; cbn [item_tokens foldl loc_text lastmod_text]; rewrite ?app_nil_r.
  - assert (E : on_token (inside idx loc lm res) (TStart (bytes_of "loc")) = mkParser idx true true true false loc lm res)
      by (unfold Sitemap.on_token, local; tag_cases; done).
    rewrite E, foldl_app, body_loc by done. cbn [foldl]. unfold Sitemap.on_token, local. tag_cases. done.
  - assert (E : on_token (inside idx loc lm res) (TStart (bytes_of "lastmod")) = mkParser idx true true false true loc lm res)
      by (unfold Sitemap.on_token, local; tag_cases; done).
    rewrite E, foldl_app, body_lastmod by done. cbn [foldl]. unfold Sitemap.on_token, local. tag_cases. done.
  - by apply loose_outside.
Qed.

Lemma items_step idx loc lm res items : Forall item_ok items ->
  foldl on_token (inside idx loc lm res) (mjoin (item_tokens <$> items)) =
  inside idx (loc ++ mjoin (loc_text <$> items)) (lm ++ mjoin (lastmod_text <$> items)) res.
Proof using Type.
  intros Hi. revert loc lm. induction Hi as [|i items Hi _ IH]; intros loc lm; [cbn; by rewrite !app_nil_r |].
  change (mjoin (item_tokens <$> i :: items)) with (item_tokens i ++ mjoin (item_tokens <$> items)).
  rewrite foldl_app, item_step, IH by done.
  change (mjoin (loc_text <$> i :: items)) with (loc_text i ++ mjoin (loc_text <$> items)).
  change (mjoin (lastmod_text <$> i :: items)) with (lastmod_text i ++ mjoin (lastmod_text <$> items)).
  by rewrite !app_assoc.
Qed.

Lemma items_harmless items : Forall item_ok items -> Forall harmless (mjoin (item_tokens <$> items)).
Proof using time_Parse.
  induction 1 as [|i items Hi _ IH]; [constructor |].
  change (mjoin (item_tokens <$> i :: items)) with (item_tokens i ++ mjoin (item_tokens <$> items)).
  apply Forall_app. split; [| done]. pose proof loose_harmless as Hl.
  destruct i as [body | body | t]; cbn [item_tokens item_ok] in *; [| | constructor; auto];
    (constructor; [done |]); (apply Forall_app; split; [by eapply Forall_impl |]); (constructor; [| constructor]);
    split; vm_compute; discriminate.
Qed.

(** What the kept entries add to a result. *)
Definition extend (idx : bool) (res : Result) (kept : list (list Z * list Z)) : Result :=
  if idx then mkResult (rs_Entries res) (rs_Children res ++ (fst <$> kept))
  else mkResult (rs_Entries res ++ ((fun f => make_entry time_Parse f.1 f.2) <$> kept)) (rs_Children res).

Lemma extend_nil idx res : extend idx res [] = res.
Proof using Type. destruct res as [es cs]. unfold extend. destruct idx; cbn; by rewrite app_nil_r. Qed.

Lemma extend_extend idx res k1 k2 : extend idx (extend idx res k1) k2 = extend idx res (k1 ++ k2).
Proof using Type. unfold extend. destruct idx; cbn; by rewrite fmap_app, app_assoc. Qed.

Lemma count_extend idx res kept : count (extend idx res kept) idx = count res idx + Z.of_nat (length kept).
Proof using Type. unfold extend, count. destruct idx; cbn; rewrite length_app, length_fmap; lia. Qed.

Lemma entry_step idx res tag items rest : (tag = bytes_of "url" \/ tag = bytes_of "sitemap") -> Forall item_ok items ->
  count res idx < MaxEntries ->
  decode_loop (between idx res) (entry_tokens tag items ++ rest) =
  decode_loop (between idx (extend idx res (option_list (entry_fields items)))) rest.
Proof using Type.
  intros Htag Hi Hc. unfold entry_tokens. cbn [app]. rewrite <- app_assoc.
  assert (Estart : on_token (between idx res) (TStart tag) = inside idx [] [] res)
    by (destruct Htag as [-> | ->]; unfold Sitemap.on_token, local; tag_cases; done).
  change (decode_loop (between idx res) (TStart tag :: ?ts)) with
    (if count res idx <? MaxEntries then decode_loop (on_token (between idx res) (TStart tag)) ts else res).
  rewrite (proj2 (Z.ltb_lt _ _) Hc), Estart, decode_harmless by (done || by apply items_harmless).
  rewrite items_step by done. cbn [app].
  set (loc := mjoin (loc_text <$> items)). set (lm := mjoin (lastmod_text <$> items)).
  assert (Eend : on_token (inside idx loc lm res) (TEnd tag) = between idx (extend idx res (option_list (entry_fields items)))).
  { assert (Ef : on_token (inside idx loc lm res) (TEnd tag) =
      let p := flush time_Parse (inside idx loc lm res) in
      mkParser (ps_index p) (ps_sawRoot p) false (ps_inLoc p) (ps_inLastMod p) (ps_loc p) (ps_lastMod p) (ps_res p))
      by (destruct Htag as [-> | ->]; unfold Sitemap.on_token, local; tag_cases; done).
    rewrite Ef. unfold flush, entry_fields, between. fold loc lm.
    cbn [ps_index ps_sawRoot ps_inLoc ps_inLastMod ps_loc ps_lastMod ps_res inside]. f_equal.
    destruct (bool_decide (TrimSpace loc = [])); [cbn; by rewrite extend_nil | by destruct idx]. }
  change (decode_loop (inside idx loc lm res) (TEnd tag :: rest)) with
    (if count res idx <? MaxEntries then decode_loop (on_token (inside idx loc lm res) (TEnd tag)) rest else res).
  by rewrite (proj2 (Z.ltb_lt _ _) Hc), Eend.
Qed.

(** What stands after the entries. *)
Lemma decode_end idx res root tail epilogue : (root = bytes_of "urlset" \/ root = bytes_of "sitemapindex") ->
  Forall loose tail -> Forall loose epilogue -> decode_loop (between idx res) (tail ++ TEnd root :: epilogue) = res.
Proof using Type.
  intros Hroot Ht He. rewrite decode_loose by done. cbn [Sitemap.decode_loop]. cbn [between ps_res ps_index].
  destruct (count res idx <? MaxEntries); [| done].
  assert (E : on_token (between idx res) (TEnd root) = between idx res)
    by (destruct Hroot as [-> | ->]; unfold Sitemap.on_token, local; tag_cases; done).
  fold (between idx res). rewrite E. rewrite <- (app_nil_r epilogue), decode_loose by done.
  cbn. by destruct (count res idx <? MaxEntries).
Qed.

Lemma entries_steps idx tag es rest res : (tag = bytes_of "url" \/ tag = bytes_of "sitemap") ->
  (forall res, decode_loop (between idx res) rest = res) -> Forall (fun e => Forall loose e.1 /\ Forall item_ok e.2) es ->
  0 <= count res idx <= MaxEntries ->
  decode_loop (between idx res) (mjoin ((fun e => e.1 ++ entry_tokens tag e.2) <$> es) ++ rest) =
  extend idx res (take (Z.to_nat (MaxEntries - count res idx)) (omap entry_fields (snd <$> es))).
Proof using Type.
  intros Htag Hrest He. revert res. induction He as [|[gap items] es [Hg Hi] _ IH]; intros res Hc.
  - cbn [mjoin list_join fmap list_fmap app omap list_omap]. by rewrite take_nil, extend_nil.
  - change (mjoin ((fun e => e.1 ++ entry_tokens tag e.2) <$> (gap, items) :: es)) with
      ((gap ++ entry_tokens tag items) ++ mjoin ((fun e => e.1 ++ entry_tokens tag e.2) <$> es)).
    rewrite <- !app_assoc, decode_loose by done. destruct (decide (count res idx = MaxEntries)) as [E | Hne].
    + rewrite decode_full by (cbn; lia). rewrite E, Z.sub_diag. cbn. by rewrite extend_nil.
    + rewrite entry_step by (done || lia). change (snd <$> (gap, items) :: es) with (items :: (snd <$> es)). cbn [omap list_omap].
      destruct (entry_fields items) as [f |]; cbn [option_list].
      * rewrite IH by (rewrite count_extend; cbn; lia). rewrite count_extend, extend_extend. cbn [length app].
        f_equal. replace (Z.to_nat (MaxEntries - count res idx)) with (S (Z.to_nat (MaxEntries - (count res idx + 1)))) by lia.
        done.
      * rewrite extend_nil. by apply IH.
Qed.

Lemma decode_document d : document_ok d -> decode time_Parse (document_tokens d) = document_result time_Parse d.
Proof using Type.
  intros (Hp & Hi & Ht & He). unfold decode, document_tokens. set (root := if dc_index d then _ else _). set (tag := if dc_index d then _ else _).
  assert (Hroot : root = bytes_of "urlset" \/ root = bytes_of "sitemapindex") by (unfold root; destruct (dc_index d); auto).
  assert (Eroot : on_token new_parser (TStart root) = between (dc_index d) (mkResult [] []))
    by (unfold root; destruct (dc_index d); unfold Sitemap.on_token, local; tag_cases; done).
  rewrite decode_loose by done.
  change (decode_loop new_parser (TStart root :: ?ts)) with (decode_loop (on_token new_parser (TStart root)) ts).
  rewrite Eroot, entries_steps; [| | | done |].
  - unfold document_result, extend. by destruct (dc_index d).
  - unfold tag. destruct (dc_index d); auto.
  - intros res. by apply decode_end.
  - unfold count, MaxEntries. destruct (dc_index d); cbn; lia.
Qed.

(** Whatever the tokens, neither list outgrows the cap. *)
Definition within (p : parser) : Prop :=
  Z.of_nat (length (rs_Entries (ps_res p))) <= MaxEntries /\ Z.of_nat (length (rs_Children (ps_res p))) <= MaxEntries.

Lemma on_token_within p t : within p -> count (ps_res p) (ps_index p) < MaxEntries -> within (on_token p t).
Proof using Type.
  intros [H1 H2] Hc. destruct t as [n | s | n |]; [| | | done]; unfold Sitemap.on_token.
  - repeat (destruct (bool_decide _); cbn [orb]; [by try destruct (ps_sawRoot p); try destruct (ps_inEntry p) |]).
    by try destruct (ps_inEntry p).
  - by destruct (ps_inLoc p), (ps_inLastMod p).
  - destruct (bool_decide _); [done |]. destruct (bool_decide _); [done |].
    destruct (_ || _); [| done]. destruct (ps_inEntry p); [| done]. unfold within, flush.
    cbn [ps_res ps_index ps_sawRoot ps_inLoc ps_inLastMod ps_loc ps_lastMod].
    destruct (bool_decide (TrimSpace (ps_loc p) = [])); [done |]. unfold count in Hc.
    destruct (ps_index p); cbn [rs_Entries rs_Children]; rewrite length_app; cbn [length]; lia.
Qed.

Lemma decode_within ts p : within p -> within (mkParser false false false false false [] [] (decode_loop p ts)).
Proof using Type.
  revert p. induction ts as [|t ts IH]; intros p Hp; cbn [Sitemap.decode_loop]; [by destruct (_ <? _) |].
  destruct (Z.ltb_spec (count (ps_res p) (ps_index p)) MaxEntries); [| done]. by apply IH, on_token_within.
Qed.
End Proofs.

(** ** Properties *)

(** C24: A sitemap parses to what it lists, in order, up to the cap: from a urlset the entries
    with a location, each with its trimmed text and its date in epoch hours when it has a
    readable one, and from a sitemapindex the child locations. A declaration, comments, white
    space and elements of other names, at any depth, may stand anywhere, also inside a
    location or a date, and are ignored but for their text there; the six names of the
    protocol stand only in their places (an image:loc does not, see
    [image_location_joined]). And no token stream at all, well-formed or cut short, yields
    more than the cap of either. *)
Theorem sitemap_parses_document `{Unicode} (time_Parse : list Z -> list Z -> option Z) :
  (forall d, document_ok d -> decode time_Parse (document_tokens d) = document_result time_Parse d) /\
  (forall ts, let res := decode time_Parse ts in
     Z.of_nat (length (rs_Entries res)) <= MaxEntries /\ Z.of_nat (length (rs_Children res)) <= MaxEntries).
Proof.
  split; [apply decode_document |]. intros ts. cbv zeta. apply (decode_within time_Parse ts new_parser).
  unfold within, MaxEntries. cbn. lia.
Qed.

#[local] Instance plain_unicode : Unicode := {| unicode_lower s := s; unicode_trim s := s |}.
(** A clock that reads every non-empty date as the hour 10. *)
Definition ten (layout s : list Z) : option Z := Some 36000.

#[local] Instance loose_dec t : Decision (loose t).
Proof. destruct t; cbn; apply _. Defined.
#[local] Instance item_ok_dec i : Decision (item_ok i).
Proof. destruct i; cbn; apply _. Defined.
#[local] Instance document_ok_dec d : Decision (document_ok d).
Proof. unfold document_ok. apply _. Defined.

(** The first document of sitemap_test.go, token by token: the declaration, white space, three
    entries, the last with a changefreq and a priority. *)
Definition blank : token := TChars [10; 32; 32].
Definition element (name : list Z) (text : list Z) : list item := ILoose <$> [TStart name; TChars text; TEnd name; blank].
Definition test_urlset : document := mkDocument false [TOther; blank]
  [([blank], [ILoose blank; ILoc [TChars (bytes_of "https://example.com/a")]; ILoose blank;
              ILastMod [TChars (bytes_of "2020-01-02T03:04:05Z")]; ILoose blank]);
   ([blank], [ILoose blank; ILoc [TChars (bytes_of "https://example.com/b")]; ILoose blank]);
   ([blank], [ILoose blank; ILoc [TChars (bytes_of "https://example.com/c")]; ILoose blank]
             ++ element (bytes_of "changefreq") (bytes_of "daily") ++ element (bytes_of "priority") (bytes_of "0.8"))]
  [blank] [].
(** The second: an index of two sitemaps. *)
Definition test_index : document := mkDocument true [TOther; blank]
  [([blank], [ILoose blank; ILoc [TChars (bytes_of "https://example.com/sitemap-1.xml")]; ILoose blank;
              ILastMod [TChars (bytes_of "2021-06-01")]; ILoose blank]);
   ([blank], [ILoose blank; ILoc [TChars (bytes_of "https://example.com/sitemap-2.xml.gz")]; ILoose blank])]
  [blank] [].

Lemma sitemap_parses_document_witness :
  decode ten (document_tokens test_urlset) =
    mkResult [mkSitemapEntry (bytes_of "https://example.com/a") 10 true; mkSitemapEntry (bytes_of "https://example.com/b") 0 false;
              mkSitemapEntry (bytes_of "https://example.com/c") 0 false] [] /\
  decode ten (document_tokens test_index) =
    mkResult [] [bytes_of "https://example.com/sitemap-1.xml"; bytes_of "https://example.com/sitemap-2.xml.gz"].
Proof.
  split.
  - rewrite (proj1 (sitemap_parses_document ten) test_urlset); [vm_compute; reflexivity |].
    apply (bool_decide_unpack (document_ok test_urlset)). vm_compute. exact I.
  - rewrite (proj1 (sitemap_parses_document ten) test_index); [vm_compute; reflexivity |].
    apply (bool_decide_unpack (document_ok test_index)). vm_compute. exact I.
Defined.

(** The image extension puts a loc of its own inside an entry: matching names without their
    namespace, the parser joins the image's location to the page's. *)
Theorem image_location_joined :
  decode ten (TStart (bytes_of "urlset") ::
    entry_tokens (bytes_of "url") [ILoc [TChars (bytes_of "https://a/page")]]) = mkResult [mkSitemapEntry (bytes_of "https://a/page") 0 false] [] /\
  decode ten ([TStart (bytes_of "urlset"); TStart (bytes_of "url");
    TStart (bytes_of "loc"); TChars (bytes_of "https://a/page"); TEnd (bytes_of "loc");
    TStart (bytes_of "image"); TStart (bytes_of "loc"); TChars (bytes_of "https://a/i.jpg"); TEnd (bytes_of "loc"); TEnd (bytes_of "image");
    TEnd (bytes_of "url"); TEnd (bytes_of "urlset")]) =
  mkResult [mkSitemapEntry (bytes_of "https://a/pagehttps://a/i.jpg") 0 false] [].
Proof. split; vm_compute; reflexivity. Qed.
