(* ===== verification/FrontierSched.v ===== *)
(** * The scheduler the frontier implements

    The abstract state of the frontier: the status of every URL, the mode and back queue
    of every host, the URLs of the front bank and those pending in the due wheel. Its
    step relation is what the source's comments promise of the Mercator model; its
    invariant is proved by induction over the steps. *)

From S2P Require Import Prelude Words Model.
Open Scope Z_scope.

(** Where a host is: outside the active set, parked, ready, with a URL or its robots.txt
    in flight, with an outcome being applied (to the URL named, until it is filed), or
    active and nowhere. *)
Inductive mode := Idle | Waiting | Ready | Busy | Robots | Stuck | Settling (o : option URLKey).
#[export] Instance mode_eq_dec : EqDecision mode.
Proof. solve_decision. Defined.

Definition pool (m : mode) : Prop := m = Waiting \/ m = Ready.
Definition queued (x : URLStatus) : Prop := x = StatusScheduled \/ x = StatusReady \/ x = StatusDueRecrawl.
#[export] Instance queued_dec x : Decision (queued x).
Proof. unfold queued. apply _. Defined.

Record sched := mkSched {
  s_status : gmap URLKey URLStatus;
  s_hosts : gmap Z (mode * list URLKey);
  s_front : list URLKey;
  s_pend : list URLKey }.

(** The statuses after a robots filter: the dropped URLs are excluded. *)
Definition excluded_from (st : gmap URLKey URLStatus) (ks : list URLKey) : gmap URLKey URLStatus :=
  foldr (fun k m => <[k := StatusExcludedRobots]> m) st ks.

(** A place a URL can be, read off the state; the URL a settling host names is in limbo. *)
Inductive location := Nowhere | Fronted | Pending | Queued | Flying | Limbo.

Definition place_in (m : mode) (b : list URLKey) (k : URLKey) : location :=
  if decide (m = Settling (Some k)) then Limbo
  else if decide (m = Busy /\ head b = Some k) then Flying
  else if decide (k ∈ b) then Queued else Nowhere.
Definition place_of (fr pe : list URLKey) (hv : option (mode * list URLKey)) (k : URLKey) : location :=
  if decide (k ∈ fr) then Fronted
  else if decide (k ∈ pe) then Pending
  else match hv with Some (m, b) => place_in m b k | None => Nowhere end.
Definition place_at (s : sched) (k : URLKey) : location :=
  place_of (s_front s) (s_pend s) (s_hosts s !! HostKey k) k.

(** Every URL the state holds, wherever it is. *)
Definition limbo (m : mode) : list URLKey := match m with Settling (Some k) => [k] | _ => [] end.
Definition host_holds (e : Z * (mode * list URLKey)) : list URLKey := limbo e.2.1 ++ e.2.2.
Definition hosts_hold (hs : gmap Z (mode * list URLKey)) : list URLKey := map_to_list hs ≫= host_holds.
Definition held (s : sched) : list URLKey := (s_front s ++ s_pend s) ++ hosts_hold (s_hosts s).

Lemma hosts_hold_insert_new hs hk v : hs !! hk = None -> hosts_hold (<[hk := v]> hs) ≡ₚ host_holds (hk, v) ++ hosts_hold hs.
Proof. intros Hn. unfold hosts_hold. by rewrite map_to_list_insert. Qed.

Lemma hosts_hold_insert hs hk v :
  hosts_hold (<[hk := v]> hs) ≡ₚ host_holds (hk, v) ++ hosts_hold (delete hk hs).
Proof. rewrite <- insert_delete_eq. apply hosts_hold_insert_new, lookup_delete_eq. Qed.

Lemma hosts_hold_lookup hs hk v : hs !! hk = Some v -> hosts_hold hs ≡ₚ host_holds (hk, v) ++ hosts_hold (delete hk hs).
Proof. intros Hl. rewrite <- (insert_id hs hk v Hl) at 1. apply hosts_hold_insert. Qed.

Lemma elem_of_hosts_hold hs k : k ∈ hosts_hold hs <-> exists hk m b, hs !! hk = Some (m, b) /\ k ∈ limbo m ++ b.
Proof.
  unfold hosts_hold. rewrite list_elem_of_bind. split.
  - intros [[hk [m b]] [Hk Hl]]. apply elem_of_map_to_list in Hl. eauto.
  - intros (hk & m & b & Hl & Hk). exists (hk, (m, b)). split; [done | by apply elem_of_map_to_list].
Qed.

Lemma NoDup_sub {A} (l l' : list A) : NoDup l' -> l ⊆+ l' -> NoDup l.
Proof. intros Hn [k Hk]%submseteq_Permutation. rewrite Hk in Hn. by apply NoDup_app in Hn as [? _]. Qed.

Section Steps.
Context (wheelOn freshOn robotsOn : bool).

Inductive sched_step : sched -> sched -> Prop :=
  | st_host st hs fr pe hk :
      hs !! hk = None -> sched_step (mkSched st hs fr pe) (mkSched st (<[hk := (Idle, [])]> hs) fr pe)
  | st_add st hs fr pe k x :
      st !! k = None -> is_Some (hs !! HostKey k) -> queued x ->
      sched_step (mkSched st hs fr pe) (mkSched (<[k := x]> st) hs (k :: fr) pe)
  | st_known st hs fr pe k x :
      st !! k = None -> ~ queued x -> x <> StatusInFlight -> (x = StatusCrawled -> wheelOn = false) ->
      sched_step (mkSched st hs fr pe) (mkSched (<[k := x]> st) hs fr pe)
  | st_defer st hs fr pe k x :
      wheelOn = true -> st !! k = None -> x = StatusScheduled \/ x = StatusCrawled ->
      sched_step (mkSched st hs fr pe) (mkSched (<[k := x]> st) hs fr (k :: pe))
  | st_fire st hs fr pe k pe' x :
      pe ≡ₚ k :: pe' -> st !! k = Some x -> is_Some (hs !! HostKey k) ->
      sched_step (mkSched st hs fr pe)
        (mkSched (<[k := if decide (x = StatusCrawled) then StatusDueRecrawl else x]> st) hs (k :: fr) pe')
  | st_exclude st hs fr pe k fr' :
      fr ≡ₚ k :: fr' -> sched_step (mkSched st hs fr pe) (mkSched (<[k := StatusExcludedRobots]> st) hs fr' pe)
  | st_bind st hs fr pe k fr' m m' b :
      fr ≡ₚ k :: fr' -> hs !! HostKey k = Some (m, b) -> (if decide (m = Idle) then pool m' else m' = m) ->
      sched_step (mkSched st hs fr pe) (mkSched st (<[HostKey k := (m', b ++ [k])]> hs) fr' pe)
  | st_move st hs fr pe hk m m' b :
      hs !! hk = Some (m, b) -> pool m -> pool m' ->
      sched_step (mkSched st hs fr pe) (mkSched st (<[hk := (m', b)]> hs) fr pe)
  | st_dispatch st hs fr pe hk k b :
      hs !! hk = Some (Ready, k :: b) ->
      sched_step (mkSched st hs fr pe) (mkSched (<[k := StatusInFlight]> st) (<[hk := (Busy, k :: b)]> hs) fr pe)
  | st_robots st hs fr pe hk b :
      robotsOn = true -> hs !! hk = Some (Ready, b) ->
      sched_step (mkSched st hs fr pe) (mkSched st (<[hk := (Robots, b)]> hs) fr pe)
  | st_rules st hs fr pe hk b kept dropped m :
      hs !! hk = Some (Robots, b) -> b ≡ₚ kept ++ dropped ->
      (if decide (kept = []) then m = Stuck else pool m) ->
      sched_step (mkSched st hs fr pe) (mkSched (excluded_from st dropped) (<[hk := (m, kept)]> hs) fr pe)
  | st_pop st hs fr pe hk k b :
      hs !! hk = Some (Busy, k :: b) ->
      sched_step (mkSched st hs fr pe) (mkSched st (<[hk := (Settling (Some k), b)]> hs) fr pe)
  | st_mark st hs fr pe hk k b x :
      hs !! hk = Some (Settling (Some k), b) ->
      sched_step (mkSched st hs fr pe) (mkSched (<[k := x]> st) hs fr pe)
  | st_file st hs fr pe hk k b x :
      hs !! hk = Some (Settling (Some k), b) -> st !! k = Some x ->
      x = StatusCrawled \/ x = StatusGone \/ (freshOn = true /\ x = StatusDueRecrawl) ->
      sched_step (mkSched st hs fr pe)
        (mkSched st (<[hk := (Settling None, b)]> hs) fr
           (if wheelOn && bool_decide (x = StatusCrawled) then k :: pe else pe))
  | st_retry st hs fr pe hk k b :
      hs !! hk = Some (Settling (Some k), b) -> st !! k = Some StatusScheduled ->
      sched_step (mkSched st hs fr pe) (mkSched st (<[hk := (Settling None, b ++ [k])]> hs) fr pe)
  | st_settle st hs fr pe hk b m :
      hs !! hk = Some (Settling None, b) -> (if decide (b = []) then m = Idle else pool m) ->
      sched_step (mkSched st hs fr pe) (mkSched st (<[hk := (m, b)]> hs) fr pe).

(** ** The invariant *)

(** The status a URL at a place can have. A queued or, with the wheel on, crawled URL that
    is nowhere would never be fetched: only the freshness hook makes one. *)
Definition status_ok (p : location) (o : option URLStatus) : Prop :=
  match p with
  | Fronted | Queued => exists x, o = Some x /\ queued x
  | Pending => wheelOn = true /\ (o = Some StatusScheduled \/ o = Some StatusCrawled)
  | Flying => o = Some StatusInFlight
  | Limbo => is_Some o
  | Nowhere => forall x, o = Some x -> x <> StatusInFlight /\
      (freshOn = false -> ~ queued x /\ (wheelOn = true -> x <> StatusCrawled))
  end.

Definition mode_ok (m : mode) (b : list URLKey) : Prop :=
  match m with
  | Idle => b = []
  | Waiting | Ready | Busy => b <> []
  | Robots => b <> [] /\ robotsOn = true
  | Stuck => robotsOn = true
  | Settling _ => True
  end.

Record sinv (s : sched) : Prop := {
  si_once : NoDup (held s);
  si_mode hk m b : s_hosts s !! hk = Some (m, b) -> mode_ok m b;
  si_own hk m b k : s_hosts s !! hk = Some (m, b) -> k ∈ limbo m ++ b -> HostKey k = hk;
  si_host k : k ∈ s_front s -> is_Some (s_hosts s !! HostKey k);
  si_status k : status_ok (place_at s k) (s_status s !! k) }.

Lemma sinv_init : sinv (mkSched ∅ ∅ [] []).
Proof.
  split; cbn [s_status s_hosts s_front s_pend].
  - constructor.
  - intros hk m b Hl. by rewrite lookup_empty in Hl.
  - intros hk m b k Hl. by rewrite lookup_empty in Hl.
  - intros k Hk. by apply not_elem_of_nil in Hk.
  - intros k. unfold place_at, place_of. cbn [s_status s_hosts s_front s_pend]. rewrite !lookup_empty.
    by do 2 (rewrite decide_False by apply not_elem_of_nil).
Qed.

(** What the single occurrence of a URL gives about one host. *)
Lemma once_host fr pe st hs hk m b :
  hs !! hk = Some (m, b) -> NoDup (held (mkSched st hs fr pe)) ->
  NoDup (limbo m ++ b) /\ (forall k, k ∈ limbo m ++ b -> k ∉ fr /\ k ∉ pe).
Proof.
  intros Hl Hn. unfold held in Hn. cbn [s_front s_pend s_hosts] in Hn. rewrite (hosts_hold_lookup _ _ _ Hl) in Hn.
  unfold host_holds in Hn. cbn [fst snd] in Hn. apply NoDup_app in Hn as (_ & Hd & Hn).
  apply NoDup_app in Hn as (Hn & _ & _). split; [done |].
  intros k Hk. split; intros Hf; apply (Hd k); rewrite elem_of_app; auto.
Qed.

Lemma once_lists fr pe st hs : NoDup (held (mkSched st hs fr pe)) -> NoDup (fr ++ pe).
Proof. intros Hn. by apply NoDup_app in Hn as [? _]. Qed.

(** A URL without a status is nowhere. *)
Lemma new_nowhere s k : sinv s -> s_status s !! k = None -> place_at s k = Nowhere.
Proof. intros H Hn. pose proof (si_status _ H k) as Hs. rewrite Hn in Hs. destruct (place_at s k); naive_solver. Qed.

Lemma place_of_nowhere fr pe hv k :
  place_of fr pe hv k = Nowhere -> k ∉ fr /\ k ∉ pe /\ forall m b, hv = Some (m, b) -> k ∉ limbo m ++ b.
Proof.
  unfold place_of, place_in. repeat case_decide; intros Hp; try done; split_and!; try done; intros m b ->.
  destruct (decide (m = Settling (Some k))) as [-> | Hm]; [done |]. case_decide; [done |]. case_decide; [done |].
  rewrite elem_of_app. intros [Hk | Hk]; [| done]. destruct m as [| | | | | | [?|]]; cbn in Hk; try by apply not_elem_of_nil in Hk.
  apply list_elem_of_singleton in Hk as ->. done.
Qed.

Lemma place_of_front fr pe hv k : k ∈ fr -> place_of fr pe hv k = Fronted.
Proof. intros. unfold place_of. by rewrite decide_True. Qed.
Lemma place_of_pend fr pe hv k : k ∉ fr -> k ∈ pe -> place_of fr pe hv k = Pending.
Proof. intros. unfold place_of. by rewrite decide_False, decide_True. Qed.
Lemma place_of_host fr pe m b k : k ∉ fr -> k ∉ pe -> place_of fr pe (Some (m, b)) k = place_in m b k.
Proof. intros. unfold place_of. by rewrite !decide_False. Qed.
(** Another URL's place when one enters or leaves the lists. *)
Lemma place_of_ext fr pe fr' pe' hv k :
  (k ∈ fr' <-> k ∈ fr) -> (k ∈ pe' <-> k ∈ pe) -> place_of fr' pe' hv k = place_of fr pe hv k.
Proof. intros Hf Hp. unfold place_of. by rewrite (decide_ext _ _ _ _ Hf), (decide_ext _ _ _ _ Hp). Qed.

(** A step that changes one host, its URLs' statuses, and moves URLs of that host only. *)
Lemma inv_at_host st hs fr pe hk m b st' fr' pe' m' b' :
  sinv (mkSched st hs fr pe) -> hs !! hk = Some (m, b) ->
  (fr' ++ pe') ++ limbo m' ++ b' ⊆+ (fr ++ pe) ++ limbo m ++ b -> mode_ok m' b' ->
  (forall k, k ∈ limbo m' ++ b' -> HostKey k = hk) ->
  (forall k, HostKey k <> hk -> st' !! k = st !! k /\ (k ∈ fr' <-> k ∈ fr) /\ (k ∈ pe' <-> k ∈ pe)) ->
  (forall k, HostKey k = hk -> status_ok (place_of fr' pe' (Some (m', b')) k) (st' !! k)) ->
  sinv (mkSched st' (<[hk := (m', b')]> hs) fr' pe').
Proof.
  intros H Hl Hsub Hm Hown Hother Hst. split; cbn [s_status s_hosts s_front s_pend].
  - pose proof (si_once _ H) as Hn. unfold held in *. cbn [s_status s_hosts s_front s_pend] in *.
    rewrite (hosts_hold_lookup _ _ _ Hl) in Hn. rewrite hosts_hold_insert. unfold host_holds in *. cbn [fst snd] in *.
    rewrite (app_assoc (fr' ++ pe')). rewrite (app_assoc (fr ++ pe)) in Hn.
    eapply NoDup_sub; [exact Hn |]. apply submseteq_app; [exact Hsub | reflexivity].
  - intros hk2 m2 b2 [[<- [= <- <-]] | [_ Hl2]]%lookup_insert_Some; [done | by apply (si_mode _ H hk2)].
  - intros hk2 m2 b2 k [[<- [= <- <-]] | [_ Hl2]]%lookup_insert_Some; [apply Hown | by apply (si_own _ H hk2 m2 b2)].
  - intros k Hk. rewrite lookup_insert_is_Some'. destruct (decide (HostKey k = hk)) as [E | E]; [by left | right].
    apply (si_host _ H). by apply Hother.
  - intros k. unfold place_at. cbn [s_status s_hosts s_front s_pend]. destruct (decide (HostKey k = hk)) as [E | E].
    + rewrite E, lookup_insert_eq. by apply Hst.
    + rewrite lookup_insert_ne by done. destruct (Hother k E) as (-> & Hf & Hp).
      rewrite (place_of_ext fr pe) by done. apply (si_status _ H k).
Qed.

(** A step that moves or adds URLs of the front bank and the wheel. *)
Lemma inv_at_lists st hs fr pe st' fr' pe' :
  sinv (mkSched st hs fr pe) -> NoDup (held (mkSched st' hs fr' pe')) ->
  (forall k, k ∈ fr' -> is_Some (hs !! HostKey k)) ->
  (forall k, status_ok (place_of fr' pe' (hs !! HostKey k) k) (st' !! k)) -> sinv (mkSched st' hs fr' pe').
Proof. intros H Hn Hh Hs. split; [done | apply (si_mode _ H) | apply (si_own _ H) | done | done]. Qed.

(** The status of a URL of a known host before the step. *)
Lemma status_before st hs fr pe hk m b k :
  sinv (mkSched st hs fr pe) -> hs !! hk = Some (m, b) -> HostKey k = hk ->
  status_ok (place_of fr pe (Some (m, b)) k) (st !! k).
Proof. intros H Hl <-. pose proof (si_status _ H k) as Hs. unfold place_at in Hs. cbn in Hs. by rewrite Hl in Hs. Qed.


(** *** The steps *)

Lemma inv_host st hs fr pe hk :
  hs !! hk = None -> sinv (mkSched st hs fr pe) -> sinv (mkSched st (<[hk := (Idle, [])]> hs) fr pe).
Proof.
  intros Hn H. split; cbn [s_status s_hosts s_front s_pend].
  - pose proof (si_once _ H) as Ho. unfold held in *. cbn [s_front s_pend s_hosts] in *.
    by rewrite hosts_hold_insert_new.
  - intros hk2 m b [[<- [= <- <-]] | [_ Hl]]%lookup_insert_Some; [done | by apply (si_mode _ H hk2)].
  - intros hk2 m b k [[<- [= <- <-]] | [_ Hl]]%lookup_insert_Some; [by intros ?%not_elem_of_nil | by apply (si_own _ H hk2 m b)].
  - intros k Hk. rewrite lookup_insert_is_Some'. right. by apply (si_host _ H).
  - intros k. pose proof (si_status _ H k) as Hs. unfold place_at in *. cbn [s_status s_hosts s_front s_pend] in *.
    destruct (decide (HostKey k = hk)) as [E | E]; [| by rewrite lookup_insert_ne].
    rewrite E, lookup_insert_eq. rewrite E, Hn in Hs. unfold place_of in *. do 2 (case_decide; [exact Hs |]).
    unfold place_in. rewrite !decide_False; [exact Hs | by apply not_elem_of_nil | by intros [? _] | done].
Qed.

(** The one occurrence of a URL in the lists alone. *)
Lemma once_perm st hs fr pe st' fr' pe' :
  fr' ++ pe' ⊆+ fr ++ pe -> NoDup (held (mkSched st hs fr pe)) -> NoDup (held (mkSched st' hs fr' pe')).
Proof.
  unfold held. cbn [s_front s_pend s_hosts]. intros Hs Hn. eapply NoDup_sub; [exact Hn |].
  apply submseteq_app; [done | reflexivity].
Qed.

Lemma once_new st hs fr pe st' fr' pe' k :
  sinv (mkSched st hs fr pe) -> st !! k = None -> fr' ++ pe' ≡ₚ k :: fr ++ pe -> NoDup (held (mkSched st' hs fr' pe')).
Proof.
  intros H Hn Hp. pose proof (new_nowhere _ k H Hn) as (Hf & Hq & Hh)%place_of_nowhere. pose proof (si_once _ H) as Ho.
  unfold held in *. cbn [s_front s_pend s_hosts] in *. rewrite Hp. cbn [app]. constructor; [| done].
  rewrite !elem_of_app. intros [[? | ?] | (hk & m & b & Hl & Hk)%elem_of_hosts_hold]; [done | done |].
  pose proof (si_own _ H hk m b k Hl Hk) as <-. by apply (Hh m b).
Qed.

Lemma inv_new st hs fr pe k x (f p : bool) :
  st !! k = None -> (f = true -> is_Some (hs !! HostKey k)) -> (f && p) = false ->
  status_ok (if f then Fronted else if p then Pending else Nowhere) (Some x) ->
  sinv (mkSched st hs fr pe) ->
  sinv (mkSched (<[k := x]> st) hs (if f then k :: fr else fr) (if p then k :: pe else pe)).
Proof.
  intros Hn Hh Hfp Hx H. pose proof (new_nowhere _ k H Hn) as Hw. apply (inv_at_lists st hs fr pe); [done | | |].
  - destruct f, p; try done.
    + by apply (once_new st hs fr pe st _ _ k).
    + apply (once_new st hs fr pe st _ _ k); [done | done |]. by rewrite Permutation_middle.
    + by apply (once_perm st hs fr pe); [| apply (si_once _ H)].
  - intros j Hj. destruct f; [| by apply (si_host _ H)]. apply elem_of_cons in Hj as [-> | Hj]; [auto | by apply (si_host _ H)].
  - intros j. destruct (decide (j = k)) as [-> | Hne].
    + rewrite lookup_insert_eq. unfold place_at in Hw. cbn [s_front s_pend s_hosts] in Hw.
      destruct (place_of_nowhere _ _ _ _ Hw) as (? & ? & _). destruct f, p; try done.
      * by rewrite place_of_front by left.
      * by rewrite place_of_pend by (done || left).
      * by rewrite Hw.
    + rewrite lookup_insert_ne by done. rewrite (place_of_ext fr pe); [apply (si_status _ H j) | |].
      * destruct f; rewrite ?elem_of_cons; naive_solver.
      * destruct p; rewrite ?elem_of_cons; naive_solver.
Qed.

Lemma inv_fire st hs fr pe k pe' x :
  pe ≡ₚ k :: pe' -> st !! k = Some x -> is_Some (hs !! HostKey k) -> sinv (mkSched st hs fr pe) ->
  sinv (mkSched (<[k := if decide (x = StatusCrawled) then StatusDueRecrawl else x]> st) hs (k :: fr) pe').
Proof.
  intros Hp Hx Hh H. pose proof (once_lists _ _ _ _ (si_once _ H)) as Hn. rewrite Hp, <- Permutation_middle in Hn.
  apply NoDup_cons in Hn as [Hk _]. rewrite elem_of_app in Hk. apply (inv_at_lists st hs fr pe); [done | | |].
  - apply (once_perm st hs fr pe); [| apply (si_once _ H)]. by rewrite Hp, <- Permutation_middle.
  - intros j [-> | Hj]%elem_of_cons; [done | by apply (si_host _ H)].
  - intros j. pose proof (si_status _ H j) as Hs. unfold place_at in Hs. cbn [s_front s_pend s_hosts s_status] in Hs.
    destruct (decide (j = k)) as [-> | Hne].
    + rewrite lookup_insert_eq, place_of_front by left. rewrite place_of_pend in Hs by (rewrite ?Hp, ?elem_of_cons; tauto).
      exists (if decide (x = StatusCrawled) then StatusDueRecrawl else x). split; [done |]. unfold queued.
      destruct Hs as [_ [Hs | Hs]]; rewrite Hx in Hs; injection Hs as ->; cbn; auto.
    + rewrite lookup_insert_ne by done. rewrite (place_of_ext fr pe); [done | |]; rewrite ?Hp, ?elem_of_cons; naive_solver.
Qed.

Lemma excluded_nowhere : status_ok Nowhere (Some StatusExcludedRobots).
Proof. intros x [= <-]. by split; [| split; [intros [? | [? | ?]] |]]. Qed.

Lemma place_in_out m b k : k ∉ limbo m ++ b -> place_in m b k = Nowhere.
Proof.
  rewrite elem_of_app. intros Hk. unfold place_in. rewrite !decide_False; [done | tauto | |].
  - intros [_ Hc]. apply Hk. right. by apply head_Some_elem_of.
  - intros ->. apply Hk. left. by left.
Qed.

Lemma inv_exclude st hs fr pe k fr' :
  fr ≡ₚ k :: fr' -> sinv (mkSched st hs fr pe) -> sinv (mkSched (<[k := StatusExcludedRobots]> st) hs fr' pe).
Proof.
  intros Hp H. pose proof (once_lists _ _ _ _ (si_once _ H)) as Hn. rewrite Hp in Hn.
  apply NoDup_cons in Hn as [Hk _]. rewrite elem_of_app in Hk.
  assert (Hin : k ∈ fr) by (rewrite Hp; left). apply (inv_at_lists st hs fr pe); [done | | |].
  - apply (once_perm st hs fr pe); [| apply (si_once _ H)]. rewrite Hp. by apply submseteq_cons.
  - intros j Hj. apply (si_host _ H). cbn. rewrite Hp. by right.
  - intros j. destruct (decide (j = k)) as [-> | Hne].
    + rewrite lookup_insert_eq. replace (place_of _ _ _ _) with Nowhere; [apply excluded_nowhere |].
      destruct (hs !! HostKey k) as [[m b] |] eqn:Hl; [| unfold place_of; rewrite !decide_False by tauto; done].
      rewrite place_of_host, place_in_out; [done | | tauto | tauto].
      intros Hb. by apply (once_host _ _ _ _ _ _ _ Hl (si_once _ H)) in Hb as [? _].
    + rewrite lookup_insert_ne by done. rewrite (place_of_ext fr pe); [apply (si_status _ H j) | | done].
      rewrite Hp, elem_of_cons. naive_solver.
Qed.

(** *** Places inside a host *)

Definition quiet (m : mode) : Prop := m <> Busy /\ limbo m = [].

Lemma place_in_quiet m b k : quiet m -> place_in m b k = if decide (k ∈ b) then Queued else Nowhere.
Proof. intros [Hb Hl]. unfold place_in. rewrite decide_False by (by intros ->). by rewrite decide_False by (by intros [? _]). Qed.

Lemma place_in_settling b o k :
  place_in (Settling o) b k = if decide (o = Some k) then Limbo else if decide (k ∈ b) then Queued else Nowhere.
Proof.
  unfold place_in. destruct (decide (o = Some k)) as [-> | Hk]; [by rewrite decide_True |].
  rewrite decide_False by congruence. by rewrite decide_False by (by intros [? _]).
Qed.

Lemma place_in_busy b c k :
  place_in Busy (c :: b) k = if decide (k = c) then Flying else if decide (k ∈ b) then Queued else Nowhere.
Proof.
  unfold place_in. rewrite decide_False by done. destruct (decide (k = c)) as [-> | Hk]; [by rewrite decide_True |].
  rewrite decide_False by (cbn; intros [_ ?]; congruence). apply decide_ext. rewrite elem_of_cons. naive_solver.
Qed.

Lemma place_in_snoc m b c k :
  (m = Busy -> b <> []) -> k <> c -> place_in m (b ++ [c]) k = place_in m b k.
Proof.
  intros Hb Hk. unfold place_in. case_decide; [done |].
  assert (Hh : m = Busy /\ head (b ++ [c]) = Some k <-> m = Busy /\ head b = Some k) by (destruct b; naive_solver).
  rewrite (decide_ext _ _ _ _ Hh). case_decide; [done |]. apply decide_ext.
  rewrite elem_of_app, list_elem_of_singleton. naive_solver.
Qed.

Lemma place_in_last m b c : (m = Busy -> b <> []) -> c ∉ limbo m ++ b -> place_in m (b ++ [c]) c = Queued.
Proof.
  rewrite elem_of_app. intros Hb Hc. unfold place_in. rewrite decide_False by (intros ->; apply Hc; left; by left).
  rewrite decide_False; [by rewrite decide_True by (rewrite elem_of_app; right; by left) |].
  intros [-> Hh]. apply Hc. right. apply head_Some_elem_of. destruct b; [by destruct Hb | done].
Qed.

(** *** The steps that change a host *)

Lemma inv_bind st hs fr pe k fr' m m' b :
  fr ≡ₚ k :: fr' -> hs !! HostKey k = Some (m, b) -> (if decide (m = Idle) then pool m' else m' = m) ->
  sinv (mkSched st hs fr pe) -> sinv (mkSched st (<[HostKey k := (m', b ++ [k])]> hs) fr' pe).
Proof.
  intros Hp Hl Hm H. pose proof (once_lists _ _ _ _ (si_once _ H)) as Hn. rewrite Hp in Hn.
  apply NoDup_cons in Hn as [Hk _]. rewrite elem_of_app in Hk. assert (Hin : k ∈ fr) by (rewrite Hp; left).
  destruct (once_host _ _ _ _ _ _ _ Hl (si_once _ H)) as [Hn Hd].
  assert (Hkb : k ∉ limbo m ++ b) by (intros Hb; by apply Hd in Hb as [? _]).
  pose proof (si_mode _ H _ _ _ Hl) as Hmb.
  assert (Hlm : limbo m' = limbo m /\ (m = Busy -> b <> []) /\ (m' = Busy -> b <> []) /\ mode_ok m' (b ++ [k]) /\
                forall j, place_in m' b j = place_in m b j).
  { destruct (decide (m = Idle)) as [-> | Hi]; [| subst m'; destruct m; cbn in Hmb; destruct b; naive_solver].
    cbn in Hmb. subst b. destruct Hm as [-> | ->]; split_and!; try done; intros j; by rewrite !place_in_quiet. }
  destruct Hlm as (Hlm & Hb1 & Hb2 & Hmo & Hpl).
  eapply (inv_at_host st hs fr pe (HostKey k) m b); [done | done | | done | | |].
  - rewrite Hlm, Hp. cbn [app]. rewrite (app_assoc (limbo m)), app_assoc, <- Permutation_cons_append. reflexivity.
  - rewrite Hlm. intros j. rewrite app_assoc, elem_of_app, list_elem_of_singleton.
    intros [Hj | ->]; [by apply (si_own _ H _ m b) | done].
  - intros j Hj. split; [done |]. split; [| done]. rewrite Hp, elem_of_cons. naive_solver.
  - intros j Hj. pose proof (status_before _ _ _ _ _ _ _ j H Hl Hj) as Hs. destruct (decide (j = k)) as [-> | Hne].
    + rewrite place_of_front in Hs by done. rewrite place_of_host, place_in_last; [done | done | by rewrite Hlm | tauto | tauto].
    + rewrite (place_of_ext fr pe) by (rewrite ?Hp, ?elem_of_cons; naive_solver). unfold place_of in *.
      do 2 (case_decide; [done |]). by rewrite place_in_snoc, Hpl.
Qed.

(** The mode alone changes, between modes that hold no URL apart from the queue. *)
Lemma inv_mode st hs fr pe hk m m' b :
  hs !! hk = Some (m, b) -> quiet m -> quiet m' -> mode_ok m' b ->
  sinv (mkSched st hs fr pe) -> sinv (mkSched st (<[hk := (m', b)]> hs) fr pe).
Proof.
  intros Hl Hm Hm' Hmo H. eapply (inv_at_host st hs fr pe hk m b); [done | done | | done | | done |].
  - by rewrite (proj2 Hm), (proj2 Hm').
  - rewrite (proj2 Hm'). intros j Hj. apply (si_own _ H _ m b); [done |]. rewrite elem_of_app. auto.
  - intros j Hj. pose proof (status_before _ _ _ _ _ _ _ j H Hl Hj) as Hs. unfold place_of in *.
    do 2 (case_decide; [done |]). by rewrite place_in_quiet in *.
Qed.

Lemma inv_dispatch st hs fr pe hk k b :
  hs !! hk = Some (Ready, k :: b) -> sinv (mkSched st hs fr pe) ->
  sinv (mkSched (<[k := StatusInFlight]> st) (<[hk := (Busy, k :: b)]> hs) fr pe).
Proof.
  intros Hl H. destruct (once_host _ _ _ _ _ _ _ Hl (si_once _ H)) as [Hn Hd].
  destruct (Hd k) as [Hf Hq]; [by left |]. pose proof (si_own _ H _ _ _ k Hl ltac:(by left)) as Hk.
  eapply (inv_at_host st hs fr pe hk Ready (k :: b)); [done | done | reflexivity | done | | |].
  - intros j Hj. by apply (si_own _ H _ _ _ j Hl).
  - intros j Hj. by rewrite lookup_insert_ne by congruence.
  - intros j Hj. pose proof (status_before _ _ _ _ _ _ _ j H Hl Hj) as Hs. destruct (decide (j = k)) as [-> | Hne].
    + rewrite lookup_insert_eq, place_of_host, place_in_busy by done. by rewrite decide_True.
    + rewrite lookup_insert_ne by done. unfold place_of in *. do 2 (case_decide; [done |]).
      rewrite place_in_busy, decide_False by done. rewrite place_in_quiet in Hs by done.
      rewrite (decide_ext (j ∈ b) (j ∈ k :: b)); [done |]. rewrite elem_of_cons. naive_solver.
Qed.

Lemma lookup_excluded st ks k :
  excluded_from st ks !! k = if decide (k ∈ ks) then Some StatusExcludedRobots else st !! k.
Proof.
  induction ks as [| c ks IH]; cbn [excluded_from foldr]; [done |]. fold (excluded_from st ks).
  destruct (decide (k = c)) as [-> | Hne]; [by rewrite lookup_insert_eq, decide_True by left |].
  rewrite lookup_insert_ne, IH by done. apply decide_ext. rewrite elem_of_cons. naive_solver.
Qed.

Lemma inv_rules st hs fr pe hk b kept dropped m :
  hs !! hk = Some (Robots, b) -> b ≡ₚ kept ++ dropped -> (if decide (kept = []) then m = Stuck else pool m) ->
  sinv (mkSched st hs fr pe) -> sinv (mkSched (excluded_from st dropped) (<[hk := (m, kept)]> hs) fr pe).
Proof.
  intros Hl Hp Hm H. destruct (once_host _ _ _ _ _ _ _ Hl (si_once _ H)) as [Hn Hd]. cbn [limbo app] in Hn, Hd.
  assert (Hq : quiet m /\ mode_ok m kept).
  { destruct (si_mode _ H _ _ _ Hl) as [_ Hr]. destruct (decide (kept = [])) as [-> | Hk]; [by subst m |].
    by destruct Hm as [-> | ->]. }
  destruct Hq as [Hq Hmo].
  assert (Hsub : forall k, k ∈ kept \/ k ∈ dropped -> k ∈ b) by (intros k; rewrite Hp, elem_of_app; done).
  assert (Hx : forall k, k ∈ kept -> k ∉ dropped) by (rewrite Hp in Hn; by apply NoDup_app in Hn as (_ & ? & _)).
  eapply (inv_at_host st hs fr pe hk Robots b); [done | done | | done | | |].
  - rewrite (proj2 Hq). cbn [limbo app]. apply submseteq_app; [reflexivity |]. rewrite Hp. by apply submseteq_inserts_r.
  - rewrite (proj2 Hq). intros j Hj. apply (si_own _ H _ _ _ j Hl). cbn. auto.
  - intros j Hj. rewrite lookup_excluded, decide_False; [done |]. intros Hdr. apply Hj. apply (si_own _ H _ _ _ j Hl). cbn. auto.
  - intros j Hj. pose proof (status_before _ _ _ _ _ _ _ j H Hl Hj) as Hs. rewrite lookup_excluded.
    destruct (decide (j ∈ dropped)) as [Hdr | Hdr].
    + destruct (Hd j (Hsub j (or_intror Hdr))) as [? ?]. rewrite place_of_host, place_in_quiet by done.
      rewrite decide_False by (intros Hk; by apply (Hx j)). apply excluded_nowhere.
    + unfold place_of in *. do 2 (case_decide; [done |]). rewrite place_in_quiet in * by done.
      rewrite (decide_ext (j ∈ kept) (j ∈ b)); [done |]. rewrite Hp, elem_of_app. tauto.
Qed.

Lemma inv_pop st hs fr pe hk k b :
  hs !! hk = Some (Busy, k :: b) -> sinv (mkSched st hs fr pe) ->
  sinv (mkSched st (<[hk := (Settling (Some k), b)]> hs) fr pe).
Proof.
  intros Hl H. destruct (once_host _ _ _ _ _ _ _ Hl (si_once _ H)) as [Hn Hd].
  eapply (inv_at_host st hs fr pe hk Busy (k :: b)); [done | done | reflexivity | done | | done |].
  - intros j Hj. by apply (si_own _ H _ _ _ j Hl).
  - intros j Hj. pose proof (status_before _ _ _ _ _ _ _ j H Hl Hj) as Hs. unfold place_of in *.
    do 2 (case_decide; [done |]). rewrite place_in_busy in Hs. rewrite place_in_settling.
    destruct (decide (j = k)) as [-> | Hne]; [| by rewrite decide_False by congruence].
    rewrite decide_True by done. by eexists.
Qed.

Lemma inv_mark st hs fr pe hk k b x :
  hs !! hk = Some (Settling (Some k), b) -> sinv (mkSched st hs fr pe) -> sinv (mkSched (<[k := x]> st) hs fr pe).
Proof.
  intros Hl H. pose proof (si_own _ H _ _ _ k Hl ltac:(by left)) as Hk.
  destruct (once_host _ _ _ _ _ _ _ Hl (si_once _ H)) as [_ Hd]. destruct (Hd k) as [Hf Hq]; [by left |].
  apply (inv_at_lists st hs fr pe); [done | apply (si_once _ H) | apply (si_host _ H) |].
  intros j. destruct (decide (j = k)) as [-> | Hne]; [| rewrite lookup_insert_ne by done; apply (si_status _ H j)].
  rewrite lookup_insert_eq, Hk, Hl, place_of_host by done. rewrite place_in_settling, decide_True by done. by eexists.
Qed.

Lemma inv_file st hs fr pe hk k b x :
  hs !! hk = Some (Settling (Some k), b) -> st !! k = Some x ->
  x = StatusCrawled \/ x = StatusGone \/ (freshOn = true /\ x = StatusDueRecrawl) ->
  sinv (mkSched st hs fr pe) ->
  sinv (mkSched st (<[hk := (Settling None, b)]> hs) fr
          (if wheelOn && bool_decide (x = StatusCrawled) then k :: pe else pe)).
Proof.
  intros Hl Hx Hs H. pose proof (si_own _ H _ _ _ k Hl ltac:(by left)) as Hk.
  destruct (once_host _ _ _ _ _ _ _ Hl (si_once _ H)) as [Hn Hd]. destruct (Hd k) as [Hf Hq]; [by left |].
  cbn [limbo app] in Hn. apply NoDup_cons in Hn as [Hkb _].
  eapply (inv_at_host st hs fr pe hk (Settling (Some k)) b); [done | done | | done | | |].
  - cbn [limbo app]. destruct (wheelOn && _); rewrite <- ?app_assoc; cbn [app];
      [by rewrite <- !Permutation_middle | apply submseteq_app; [done |]; apply submseteq_app; [done |]; by apply submseteq_cons].
  - intros j Hj. apply (si_own _ H _ _ _ j Hl). by right.
  - intros j Hj. split; [done |]. split; [done |]. destruct (wheelOn && _); [| done]. rewrite elem_of_cons. naive_solver.
  - intros j Hj. pose proof (status_before _ _ _ _ _ _ _ j H Hl Hj) as Hb. destruct (decide (j = k)) as [-> | Hne].
    + rewrite Hx. destruct (wheelOn && bool_decide (x = StatusCrawled)) eqn:E.
      * rewrite place_of_pend by (done || left). apply andb_true_iff in E as [-> ->%bool_decide_eq_true]. cbn. auto.
      * rewrite place_of_host, place_in_settling, decide_False, decide_False by done. intros y [= <-].
        split; [naive_solver |]. intros Hfr. destruct Hs as [-> | [-> | [? _]]]; [| | congruence].
        all: split; [intros [? | [? | ?]]; done |]; intros ->; done.
    + rewrite (place_of_ext fr pe) by (try done; destruct (wheelOn && _); rewrite ?elem_of_cons; naive_solver).
      unfold place_of in *. do 2 (case_decide; [done |]). rewrite place_in_settling in *.
      rewrite decide_False in Hb by congruence. by rewrite decide_False.
Qed.

Lemma inv_retry st hs fr pe hk k b :
  hs !! hk = Some (Settling (Some k), b) -> st !! k = Some StatusScheduled -> sinv (mkSched st hs fr pe) ->
  sinv (mkSched st (<[hk := (Settling None, b ++ [k])]> hs) fr pe).
Proof.
  intros Hl Hx H. destruct (once_host _ _ _ _ _ _ _ Hl (si_once _ H)) as [Hn Hd]. destruct (Hd k) as [Hf Hq]; [by left |].
  eapply (inv_at_host st hs fr pe hk (Settling (Some k)) b); [done | done | | done | | done |].
  - cbn [limbo app]. by rewrite <- Permutation_cons_append.
  - intros j Hj. apply (si_own _ H _ _ _ j Hl). cbn [limbo app] in *. by rewrite Permutation_cons_append.
  - intros j Hj. pose proof (status_before _ _ _ _ _ _ _ j H Hl Hj) as Hb. unfold place_of in *.
    do 2 (case_decide; [done |]). rewrite place_in_settling in *. rewrite decide_False by done.
    destruct (decide (j = k)) as [-> | Hne].
    + rewrite decide_True by (rewrite elem_of_app; right; by left). rewrite Hx. exists StatusScheduled. split; [done | by left].
    + rewrite decide_False in Hb by congruence. rewrite (decide_ext (j ∈ b ++ [k]) (j ∈ b)); [done |].
      rewrite elem_of_app, list_elem_of_singleton. naive_solver.
Qed.

(** Every step keeps the invariant. *)
Lemma sched_step_inv s s' : sched_step s s' -> sinv s -> sinv s'.
Proof.
  intros Hs H. destruct Hs.
  - by apply inv_host.
  - by apply (inv_new st hs fr pe k x true false); [| | | eexists |].
  - apply (inv_new st hs fr pe k x false false); try done. intros y [= <-].
    split; [done |]. intros _. split; [done |]. intros Hw Hc. by rewrite (H3 Hc) in Hw.
  - apply (inv_new st hs fr pe k x false true); try done. cbn. by destruct H2 as [-> | ->]; auto.
  - by apply (inv_fire st hs fr pe).
  - by apply (inv_exclude st hs fr pe).
  - by apply (inv_bind st hs fr pe k fr' m).
  - assert (Hq : quiet m /\ quiet m' /\ (mode_ok m b -> mode_ok m' b))
      by (destruct H1 as [-> | ->], H2 as [-> | ->]; done).
    destruct Hq as (? & ? & Hmo). apply (inv_mode st hs fr pe hk m); [done | done | done | | done].
    by apply Hmo, (si_mode _ H hk).
  - by apply (inv_dispatch st hs fr pe).
  - apply (inv_mode st hs fr pe hk Ready); try done. split; [by apply (si_mode _ H hk Ready) | done].
  - by apply (inv_rules st hs fr pe hk b).
  - by apply inv_pop.
  - by apply (inv_mark st hs fr pe hk k b).
  - by apply inv_file.
  - by apply inv_retry.
  - destruct (decide (b = [])) as [-> | Hb].
    + subst m. by apply (inv_mode st hs fr pe hk (Settling None)).
    + apply (inv_mode st hs fr pe hk (Settling None)); try done; by destruct H1 as [-> | ->].
Qed.

Lemma sched_steps_inv s s' : rtc sched_step s s' -> sinv s -> sinv s'.
Proof. induction 1; eauto using sched_step_inv. Qed.

End Steps.
