(* ===== verification/FrontierSim.v ===== *)
(** * The frontier implements the scheduler

    The relation between the frontier's state and the abstract scheduler's, and, for
    each operation of Frontier.v, that it runs scheduler steps: it never panics, never
    runs out of fuel, and fails only for want of memory. *)

From S2P Require Import Prelude Words Model Updates Arena Heap Ring Wheel SeenSet GoStrings Robots Politeness.
From S2P Require Import Admission File Ops Frontier FrontierSched.
Open Scope Z_scope.

(** ** Results *)

(** The computation succeeds with a value in [Q], or runs out of memory. *)
Definition good {A} (m : res A) (Q : A -> Prop) : Prop :=
  match m with Ok a => Q a | Err e => e = OutOfMemory end.

Lemma good_bind {A B} (m : res A) (g : A -> res B) P Q :
  good m P -> (forall a, P a -> good (g a) Q) -> good (m ≫= g) Q.
Proof. destruct m; cbn; auto. Qed.
Lemma good_mono {A} (m : res A) (P Q : A -> Prop) : good m P -> (forall a, P a -> Q a) -> good m Q.
Proof. destruct m; cbn; auto. Qed.

(** ** The pools *)

Definition pool_is (m0 : mode) (hs : gmap Z (mode * list URLKey)) (l : list Z) : Prop :=
  NoDup l /\ forall hk, hk ∈ l <-> exists b, hs !! hk = Some (m0, b).

#[export] Instance pool_is_perm m0 hs : Proper ((≡ₚ) ==> iff) (pool_is m0 hs).
Proof. intros l l' E. unfold pool_is. by setoid_rewrite E. Qed.

Lemma pool_keep m0 hs l hk m b m' b' :
  pool_is m0 hs l -> hs !! hk = Some (m, b) -> (m = m0 <-> m' = m0) -> pool_is m0 (<[hk := (m', b')]> hs) l.
Proof.
  intros [Hn Hl] Hh Hm. split; [done |]. intros hk2. rewrite Hl. destruct (decide (hk2 = hk)) as [-> | Hne].
  - rewrite lookup_insert_eq, Hh. split; intros [? [= -> _]]; eexists; f_equal; f_equal; tauto.
  - by rewrite lookup_insert_ne.
Qed.

Lemma pool_enter m0 hs l hk m b b' :
  pool_is m0 hs l -> hs !! hk = Some (m, b) -> m <> m0 -> pool_is m0 (<[hk := (m0, b')]> hs) (hk :: l).
Proof.
  intros [Hn Hl] Hh Hm. split.
  - constructor; [| done]. rewrite Hl, Hh. intros [? [= -> _]]. done.
  - intros hk2. rewrite elem_of_cons, Hl. destruct (decide (hk2 = hk)) as [-> | Hne].
    + rewrite lookup_insert_eq. naive_solver.
    + rewrite lookup_insert_ne by done. naive_solver.
Qed.

Lemma pool_leave m0 hs l hk m' b' :
  pool_is m0 hs (hk :: l) -> m' <> m0 -> pool_is m0 (<[hk := (m', b')]> hs) l.
Proof.
  intros [Hn Hl] Hm. apply NoDup_cons in Hn as [Hk Hn]. split; [done |]. intros hk2.
  destruct (decide (hk2 = hk)) as [-> | Hne].
  - rewrite lookup_insert_eq. naive_solver.
  - rewrite lookup_insert_ne by done. rewrite <- Hl, elem_of_cons. naive_solver.
Qed.

Lemma pool_new m0 hs l hk : pool_is m0 hs l -> hs !! hk = None -> m0 <> Idle -> pool_is m0 (<[hk := (Idle, [])]> hs) l.
Proof.
  intros [Hn Hl] Hh Hm. split; [done |]. intros hk2. rewrite Hl. destruct (decide (hk2 = hk)) as [-> | Hne].
  - rewrite lookup_insert_eq, Hh. naive_solver.
  - by rewrite lookup_insert_ne.
Qed.

(** ** The front bank and the ready bank *)

Definition ring_holds {T} `{EqDecision T} (r : prioRing T) (l : list T) : Prop := exists s, ring_rel r s /\ s.*2 ≡ₚ l.

#[export] Instance ring_holds_perm {T} `{EqDecision T} (r : prioRing T) : Proper ((≡ₚ) ==> iff) (ring_holds r).
Proof. intros l l' E. unfold ring_holds. by setoid_rewrite E. Qed.

Section RingHolds.
Context {T : Type} `{EqDecision T}.
Implicit Types (r : prioRing T) (l : list T).

Lemma empty_holds : ring_holds (T:=T) empty_ring [].
Proof. exists []. split; [apply empty_ring_rel | done]. Qed.

Lemma push_holds r l x p : ring_holds r l -> ring_holds (ring_push r x p) (x :: l).
Proof.
  intros (s & Hr & Hs). exists (spec_push s x p). split; [by apply ring_push_rel |].
  unfold spec_push. rewrite fmap_app, Hs. cbn. by rewrite <- Permutation_cons_append.
Qed.

Lemma pop_holds r l : ring_holds r l ->
  match ring_pop r with Some (x, r') => exists l', l ≡ₚ x :: l' /\ ring_holds r' l' | None => l = [] end.
Proof.
  intros (s & Hr & Hs). pose proof (ring_pop_rel r s Hr) as Hp. destruct (spec_pop s) as [[x s'] |] eqn:E.
  - destruct Hp as (r' & -> & Hr'). exists s'.*2. split; [| by exists s']. rewrite <- Hs. unfold spec_pop in E.
    destruct (list_find _ s) as [[i e] |] eqn:E2; [| done]. injection E as <- <-.
    apply list_find_split in E2 as (s1 & s2 & -> & _ & -> & _). rewrite !fmap_app, fmap_cons. symmetry.
    apply Permutation_middle.
  - rewrite Hp. apply spec_pop_nil in E; [| apply Hr]. subst s. by apply Permutation_nil in Hs.
Qed.

Lemma rebucket_holds r l x p q : ring_holds r l -> ring_holds (rebucket r x p q).2 l.
Proof.
  intros (s & Hr & Hs). destruct (rebucket_rel r s x p q Hr) as [_ Hr']. eexists. split; [exact Hr' |].
  rewrite <- Hs. unfold spec_rebucket. destruct (_ =? _); [done |].
  destruct (list_find _ s) as [[i e] |] eqn:E2; [| done].
  apply list_find_split in E2 as (s1 & s2 & -> & _ & -> & <- & _). cbn [snd].
  rewrite !fmap_app, fmap_cons. cbn. by rewrite <- app_assoc, <- Permutation_cons_append.
Qed.

Lemma len_holds r l : ring_holds r l -> ring_len r = Z.of_nat (length l).
Proof. intros (s & Hr & Hs). unfold ring_len. by rewrite (rr_n _ _ Hr), <- Hs, length_fmap. Qed.

Lemma highest_holds r l : ring_holds r l -> (-1 < highest r <-> l <> []).
Proof.
  intros (s & Hr & Hs). rewrite (highest_top _ _ Hr). destruct s as [|e s].
  - apply Permutation_nil in Hs. subst l. split; [cbn; lia | done].
  - pose proof (spec_top_ge e (e :: s) ltac:(by left)). pose proof (rr_range _ _ Hr) as Hf.
    apply Forall_cons in Hf as [? _]. split; [intros _ -> | lia]. by apply Permutation_nil_r in Hs.
Qed.

End RingHolds.

Definition bank_holds (b : readyBank) (l : list Z) : Prop :=
  b <> [] /\ exists ls, Forall2 ring_holds b ls /\ mjoin ls ≡ₚ l.

#[export] Instance bank_holds_perm b : Proper ((≡ₚ) ==> iff) (bank_holds b).
Proof. intros l l' E. unfold bank_holds. by setoid_rewrite E. Qed.

Lemma newReadyBank_holds w : bank_holds (newReadyBank w) [].
Proof.
  unfold newReadyBank. set (n := Z.to_nat _). split.
  - assert (n <> 0%nat) by (unfold n; case_match; bool_prop; lia). by destruct n.
  - exists (replicate n []). split.
    + apply Forall2_replicate. apply empty_holds.
    + clear. induction n; cbn; auto.
Qed.

(** Replacing one shard. *)
Lemma join_update {A} (ls : list (list A)) i l l' x :
  ls !! i = Some l -> l' ≡ₚ x ++ l -> mjoin (<[i := l']> ls) ≡ₚ x ++ mjoin ls.
Proof.
  revert i. induction ls as [|c ls IH]; intros [|i] Hl Hp; try done; cbn in *.
  - injection Hl as ->. by rewrite Hp, app_assoc.
  - rewrite (IH i Hl Hp). rewrite !app_assoc. apply Permutation_app_tail, Permutation_app_comm.
Qed.

Lemma alter_at {A} (g : A -> A) i (l : list A) x : l !! i = Some x -> alter g i l = <[i := g x]> l.
Proof.
  revert i. induction l as [|y l IH]; intros [|i] Hl; try done; cbn in *; [by injection Hl as -> |].
  f_equal. by apply IH.
Qed.

Lemma bank_push_holds b l hk p : bank_holds b l -> bank_holds (bank_push b hk p) (hk :: l).
Proof.
  intros (Hne & ls & Hb & Hl). unfold bank_push. split.
  - destruct b; [done |]. by destruct (home _ _).
  - assert (Hi : (home b hk < length b)%nat).
    { unfold home. pose proof (Z.mod_pos_bound hk (Z.of_nat (length b))) as Hm. destruct b; [done |]. cbn in *. lia. }
    destruct (lookup_lt_is_Some_2 _ _ Hi) as [r Hr]. destruct (Forall2_lookup_l _ _ _ _ _ Hb Hr) as (s & Hs & Hrs).
    exists (<[home b hk := hk :: s]> ls). split.
    + rewrite (alter_at _ _ _ _ Hr). apply Forall2_insert; [done |]. by apply push_holds.
    + rewrite (join_update ls _ s _ [hk]) by done. cbn. by rewrite Hl.
Qed.

Lemma pop_at_holds b l s : bank_holds b l ->
  match pop_at b s with Some (hk, b') => exists l', l ≡ₚ hk :: l' /\ bank_holds b' l' | None => True end.
Proof.
  intros (Hne & ls & Hb & Hl). unfold pop_at. destruct (_ && _); [| done]. cbn.
  destruct (b !! Z.to_nat s) as [r |] eqn:Hr; cbn; [| done].
  destruct (Forall2_lookup_l _ _ _ _ _ Hb Hr) as (k & Hk & Hrk). pose proof (pop_holds r k Hrk) as Hp.
  destruct (ring_pop r) as [[hk r'] |]; cbn; [| done]. destruct Hp as (k' & Hk' & Hr').
  exists (mjoin (<[Z.to_nat s := k']> ls)). split.
  - rewrite <- Hl. rewrite <- (list_insert_id ls (Z.to_nat s) k) at 1 by done.
    rewrite <- (list_insert_insert_eq ls (Z.to_nat s) k k').
    apply (join_update _ _ k' _ [hk]); [| done]. apply list_lookup_insert_eq. by eapply lookup_lt_Some.
  - split; [destruct b; [done |]; by destruct (Z.to_nat s) |].
    eexists. split; [by apply Forall2_insert | done].
Qed.

Lemma best_shard_spec b i best lvl :
  -1 <= lvl -> (lvl = -1 -> best = -1) -> (-1 < lvl -> 0 <= best < i) -> 0 <= i ->
  let r := best_shard b i best lvl in
  (r = best /\ Forall (fun q => highest q <= lvl) b) \/
  exists q, b !! Z.to_nat (r - i) = Some q /\ i <= r /\ -1 < highest q.
Proof.
  revert i best lvl. induction b as [|q b IH]; intros i best lvl H1 H2 H3 Hi; cbn [best_shard]; [left; auto |].
  cbv zeta. destruct (lvl <? highest q) eqn:E; bool_prop.
  - right. destruct (IH (i + 1) i (highest q)) as [[-> Hf] | (q' & Hq & Hr & Hh)]; try lia.
    + exists q. rewrite Z.sub_diag. cbn. split; [done |]. lia.
    + exists q'. replace (Z.to_nat _) with (S (Z.to_nat (best_shard b (i + 1) i (highest q) - (i + 1)))) by lia.
      cbn. split; [done |]. lia.
  - destruct (IH (i + 1) best lvl) as [[-> Hf] | (q' & Hq & Hr & Hh)]; try lia.
    + left. split; [done |]. by constructor.
    + right. exists q'. replace (Z.to_nat _) with (S (Z.to_nat (best_shard b (i + 1) best lvl - (i + 1)))) by lia.
      cbn. split; [done |]. lia.
Qed.

Lemma popShard_holds b l s : bank_holds b l ->
  match popShard b s with Some (hk, b') => exists l', l ≡ₚ hk :: l' /\ bank_holds b' l' | None => l = [] end.
Proof.
  intros Hb. unfold popShard. pose proof (pop_at_holds b l s Hb) as Hp. destruct (pop_at b s) as [[hk b'] |]; [done |].
  cbv zeta. pose proof (best_shard_spec b 0 (-1) (-1) ltac:(lia) ltac:(done) ltac:(lia) ltac:(lia)) as Hs.
  cbv zeta in Hs. set (best := best_shard b 0 (-1) (-1)) in *. pose proof Hb as (Hne & ls & Hbl & Hl).
  destruct Hs as [[-> Hf] | (q & Hq & Hr & Hh)].
  - cbn. assert (E : mjoin ls = []); [| rewrite E in Hl; by apply Permutation_nil].
    clear Hl Hb Hne Hp. revert ls Hbl. induction Hf as [|q b Hq _ IH]; intros ls Hbl; inversion Hbl; subst; [done |].
    cbn. rewrite IH by done. rewrite app_nil_r. destruct y; [done |]. exfalso.
    assert (-1 < highest q); [| lia]. by eapply highest_holds.
  - rewrite (proj2 (Z.ltb_ge best 0)) by lia. pose proof (pop_at_holds b l best Hb) as Hp2.
    destruct (pop_at b best) as [[hk b'] |] eqn:E; [done |]. exfalso. unfold pop_at in E.
    rewrite Z.sub_0_r in Hq. pose proof (lookup_lt_Some _ _ _ Hq).
    rewrite (proj2 (Z.leb_le 0 best)), (proj2 (Z.ltb_lt best _)) in E by lia. cbn in E. rewrite Hq in E. cbn in E.
    destruct (Forall2_lookup_l _ _ _ _ _ Hbl Hq) as (k & Hk & Hrk). pose proof (pop_holds q k Hrk) as Hpk.
    destruct (ring_pop q) as [[? ?] |]; [done |]. subst k. by apply (proj1 (highest_holds _ _ Hrk)).
Qed.

Lemma bank_len_holds b l : bank_holds b l -> bank_len b = Z.of_nat (length l).
Proof.
  intros (_ & ls & Hb & Hl). rewrite <- Hl. clear Hl l. induction Hb as [|r k b ls Hr _ IH]; [done |].
  cbn [bank_len foldr]. fold (bank_len b). rewrite IH, (len_holds _ _ Hr).
  change (mjoin (k :: ls)) with (k ++ mjoin ls). rewrite length_app. lia.
Qed.

(** ** Strings *)

Definition ref_ok (a : list Z) (off : Z) : Prop := off = 0 \/ exists x, arenaRead a off = Ok (Some x).
Definition arena_ok (a : list Z) : Prop := a <> [] /\ Z.of_nat (length a) <= 2 ^ 48.

Lemma ref_ok_app a ext off : arena_ok (a ++ ext) -> ref_ok a off -> ref_ok (a ++ ext) off.
Proof.
  intros [_ Hl] [-> | [x Hx]]; [by left |]. right. exists x. apply arenaRead_app; [lia | done].
Qed.

Lemma str_ok a off : ref_ok a off -> exists x, readArena a off = Ok x.
Proof. intros [-> | [x Hx]]; unfold readArena; [by rewrite arenaRead_zero; eexists | rewrite Hx; by eexists]. Qed.

(** ** The relation *)

(** Whether the host has something in flight while in a mode. *)
Definition flying (m : mode) : bool := match m with Busy | Robots | Settling _ => true | _ => false end.

Record host_sees (a : list Z) (hk : Z) (h : hostEntry) (v : mode * list URLKey) : Prop := {
  hs_key : h_HostKey (he_rec h) = hk;
  hs_ref : ref_ok a (h_HostRef (he_rec h));
  hs_back : he_back h = v.2;
  hs_active : he_active h = bool_decide (v.1 <> Idle);
  hs_inFlight : he_inFlight h = flying v.1;
  hs_pending : he_robotsState h = robotsPending <-> v.1 = Robots }.

Record rec_sees (a : list Z) (k : URLKey) (r : URLRecord) (x : URLStatus) : Prop := {
  rs_status : r_Status r = x;
  rs_key : r_URLKey r = k;
  rs_host : r_HostKey r = HostKey k;
  rs_url : ref_ok a (r_URLRef r);
  rs_etag : ref_ok a (r_ETagRef r);
  rs_due : x = StatusCrawled -> hour_ok (r_NextDue r) }.

Lemma rec_sees_mono a ext k r x : arena_ok (a ++ ext) -> rec_sees a k r x -> rec_sees (a ++ ext) k r x.
Proof. intros Ha [? ? ? Hu He ?]. by split; try apply ref_ok_app. Qed.
Lemma host_sees_mono a ext hk h v : arena_ok (a ++ ext) -> host_sees a hk h v -> host_sees (a ++ ext) hk h v.
Proof. intros Ha [? Hr ? ? ? ?]. by split; try apply ref_ok_app. Qed.

(** The number of hosts in the active set. *)
Definition active_count (hs : gmap Z (mode * list URLKey)) : Z :=
  Z.of_nat (size (filter (fun e : Z * (mode * list URLKey) => e.2.1 <> Idle) hs)).

Lemma active_insert hs hk v :
  active_count (<[hk := v]> hs) = (if decide (v.1 = Idle) then 0 else 1) + active_count (delete hk hs).
Proof.
  unfold active_count. rewrite <- insert_delete_eq. case_decide as Hv.
  - rewrite map_filter_insert_False; [| by intros ?].
    rewrite delete_id; [done | apply lookup_delete_eq].
  - rewrite map_filter_insert_True by done. rewrite map_size_insert_None; [lia |].
    apply map_lookup_filter_None. left. apply lookup_delete_eq.
Qed.

Lemma active_lookup hs hk v :
  hs !! hk = Some v -> active_count hs = (if decide (v.1 = Idle) then 0 else 1) + active_count (delete hk hs).
Proof. intros Hl. rewrite <- (insert_id hs hk v Hl) at 1. apply active_insert. Qed.

Lemma active_replace hs hk v v' :
  hs !! hk = Some v -> (v.1 = Idle <-> v'.1 = Idle) -> active_count (<[hk := v']> hs) = active_count hs.
Proof. intros Hl Hi. rewrite active_insert, (active_lookup _ _ _ Hl). by rewrite (decide_ext _ _ _ _ Hi). Qed.

Lemma active_new hs hk : hs !! hk = None -> active_count (<[hk := (Idle, [])]> hs) = active_count hs.
Proof. intros Hn. rewrite active_insert. cbn. by rewrite delete_id. Qed.

(** The scheduler's state with one component replaced. *)
Definition set_status (s : sched) (k : URLKey) (x : URLStatus) : sched :=
  mkSched (<[k := x]> (s_status s)) (s_hosts s) (s_front s) (s_pend s).
Definition set_host (s : sched) (hk : Z) (v : mode * list URLKey) : sched :=
  mkSched (s_status s) (<[hk := v]> (s_hosts s)) (s_front s) (s_pend s).
Definition set_front (s : sched) (l : list URLKey) : sched := mkSched (s_status s) (s_hosts s) l (s_pend s).
Definition set_pend (s : sched) (l : list URLKey) : sched := mkSched (s_status s) (s_hosts s) (s_front s) l.

Lemma map_rel_insert {K A B} `{Countable K} (R : K -> A -> B -> Prop) (m1 : gmap K A) (m2 : gmap K B) k x y :
  (forall i, option_Forall2 (R i) (m1 !! i) (m2 !! i)) -> R k x y ->
  forall i, option_Forall2 (R i) (<[k := x]> m1 !! i) (<[k := y]> m2 !! i).
Proof.
  intros Hm Hk i. destruct (decide (i = k)) as [-> | Hne].
  - rewrite !lookup_insert_eq. by constructor.
  - by rewrite !lookup_insert_ne.
Qed.

Lemma map_rel_mono {K A B} `{Countable K} (R R' : K -> A -> B -> Prop) (m1 : gmap K A) (m2 : gmap K B) :
  (forall i, option_Forall2 (R i) (m1 !! i) (m2 !! i)) -> (forall i x y, R i x y -> R' i x y) ->
  forall i, option_Forall2 (R' i) (m1 !! i) (m2 !! i).
Proof. intros Hm HR i. destruct (Hm i); constructor; auto. Qed.

Section Sim.
Context `{XXHash} `{Unicode} `{Traps} `{Prio} `{Fresh} `{Resolver} `{Canon} `{SeenSizes}.
Context (c : FConf) (freshOn : bool).
Implicit Types (f : Frontier) (s : sched) (E : gset URLKey).

(** Over the components of the frontier the scheduler knows of; the others are free.
    [E] holds the keys already in the seen-set whose record is still to be made. *)
Record Sees E (conf : FConf) (fresh : option FreshState) (recs : gmap URLKey URLRecord) (hosts : gmap Z hostEntry)
    (a : list Z) (seen : SeenSet) (front : prioRing URLKey) (bank : readyBank) (wait : waitHeap) (active : Z)
    (wheel : dueWheel) (s : sched) : Prop := mkSees {
  se_conf : conf = c;
  se_fresh : bool_decide (is_Some fresh) = freshOn;
  se_recs : forall k, option_Forall2 (rec_sees a k) (recs !! k) (s_status s !! k);
  se_hosts : forall hk, option_Forall2 (host_sees a hk) (hosts !! hk) (s_hosts s !! hk);
  se_arena : arena_ok a;
  se_seen : seen_rel seen (E ∪ dom recs);
  se_front : ring_holds front (s_front s);
  se_ready : exists l, bank_holds bank l /\ pool_is Ready (s_hosts s) l;
  se_wait : heap_ordered wait_less wait /\ pool_is Waiting (s_hosts s) (wi_hostKey <$> wait);
  se_active : active = active_count (s_hosts s);
  se_target : active <= Z.max 0 (Z.max (fc_minActive c) (fc_target c));
  se_wheel : exists p, wheel_rel wheel p /\ p.*2 ≡ₚ s_pend s }.

Arguments se_conf {_ _ _ _ _ _ _ _ _ _ _ _ _} _.
Arguments se_fresh {_ _ _ _ _ _ _ _ _ _ _ _ _} _.
Arguments se_recs {_ _ _ _ _ _ _ _ _ _ _ _ _} _.
Arguments se_hosts {_ _ _ _ _ _ _ _ _ _ _ _ _} _.
Arguments se_arena {_ _ _ _ _ _ _ _ _ _ _ _ _} _.
Arguments se_seen {_ _ _ _ _ _ _ _ _ _ _ _ _} _.
Arguments se_front {_ _ _ _ _ _ _ _ _ _ _ _ _} _.
Arguments se_ready {_ _ _ _ _ _ _ _ _ _ _ _ _} _.
Arguments se_wait {_ _ _ _ _ _ _ _ _ _ _ _ _} _.
Arguments se_active {_ _ _ _ _ _ _ _ _ _ _ _ _} _.
Arguments se_target {_ _ _ _ _ _ _ _ _ _ _ _ _} _.
Arguments se_wheel {_ _ _ _ _ _ _ _ _ _ _ _ _} _.

Definition sees E (f : Frontier) (s : sched) : Prop :=
  Sees E (f_conf f) (f_fresh f) (f_records f) (f_hosts f) (f_arena f) (f_seen f) (f_urlFront f) (f_readyHosts f)
    (f_wait f) (f_active f) (f_wheel f) s.

(** *** Reading through the relation *)

Lemma sees_rec E f s k x : sees E f s -> s_status s !! k = Some x ->
  exists r, f_records f !! k = Some r /\ rec_sees (f_arena f) k r x.
Proof. intros Hs Hk. pose proof (se_recs Hs k) as Hr. rewrite Hk in Hr. inversion Hr; subst. eauto. Qed.

Lemma sees_rec_of E f s k r : sees E f s -> f_records f !! k = Some r ->
  s_status s !! k = Some (r_Status r) /\ rec_sees (f_arena f) k r (r_Status r).
Proof.
  intros Hs Hk. pose proof (se_recs Hs k) as Hr. rewrite Hk in Hr. inversion Hr as [? x Hx |]; subst.
  by rewrite (rs_status _ _ _ _ Hx).
Qed.

Lemma sees_no_rec E f s k : sees E f s -> f_records f !! k = None -> s_status s !! k = None.
Proof. intros Hs Hk. pose proof (se_recs Hs k) as Hr. rewrite Hk in Hr. by inversion Hr. Qed.

Lemma sees_host E f s hk v : sees E f s -> s_hosts s !! hk = Some v ->
  exists h, f_hosts f !! hk = Some h /\ host_sees (f_arena f) hk h v.
Proof. intros Hs Hk. pose proof (se_hosts Hs hk) as Hr. rewrite Hk in Hr. inversion Hr; subst. eauto. Qed.

Lemma sees_host_of E f s hk h : sees E f s -> f_hosts f !! hk = Some h ->
  exists v, s_hosts s !! hk = Some v /\ host_sees (f_arena f) hk h v.
Proof. intros Hs Hk. pose proof (se_hosts Hs hk) as Hr. rewrite Hk in Hr. inversion Hr; subst. eauto. Qed.

Lemma sees_no_host E f s hk : sees E f s -> f_hosts f !! hk = None -> s_hosts s !! hk = None.
Proof. intros Hs Hk. pose proof (se_hosts Hs hk) as Hr. rewrite Hk in Hr. by inversion Hr. Qed.

(** *** Writing through the relation *)

Lemma sees_intern E f s x : sees E f s ->
  good (intern f x) (fun '(f', off) => exists ext, f' = with_arena f (f_arena f ++ ext) /\
    arena_ok (f_arena f ++ ext) /\ ref_ok (f_arena f ++ ext) off /\ sees E f' s).
Proof.
  intros Hs. unfold intern. rewrite arenaIntern_eq. destruct (se_arena Hs) as [Hne Hl].
  destruct (_ <=? _) eqn:Ele; cbn; [| done]. bool_prop. exists (arena_entry x). split; [done |].
  assert (Ha : arena_ok (f_arena f ++ arena_entry x)) by (split; [by destruct (f_arena f) | done]).
  split; [done |]. split.
  - right. exists x. rewrite <- (app_nil_r (arena_entry x)). apply arenaRead_entry; [done |].
    rewrite app_nil_r. lia.
  - destruct Hs. apply mkSees; try done.
    + eapply map_rel_mono; [exact se_recs0 |]. intros k r y. by apply rec_sees_mono.
    + eapply map_rel_mono; [exact se_hosts0 |]. intros hk h y. by apply host_sees_mono.
Qed.

Lemma sees_put_rec E f s k r x : sees E f s -> is_Some (f_records f !! k) -> rec_sees (f_arena f) k r x ->
  sees E (put_rec f k r) (set_status s k x).
Proof.
  intros Hs Hk Hr. destruct Hs. apply mkSees; try done.
  - by apply map_rel_insert.
  - cbn [f_records put_rec with_records]. rewrite dom_insert_lookup_L; done.
Qed.

Lemma set_status_id s k x : s_status s !! k = Some x -> set_status s k x = s.
Proof. destruct s; cbn. unfold set_status. cbn. intros Hk. by rewrite insert_id. Qed.
Lemma set_host_id s hk v : s_hosts s !! hk = Some v -> set_host s hk v = s.
Proof. destruct s; cbn. unfold set_host. cbn. intros Hk. by rewrite insert_id. Qed.
Lemma set_host_twice s hk v v' : set_host (set_host s hk v) hk v' = set_host s hk v'.
Proof. unfold set_host. cbn. by rewrite insert_insert_eq. Qed.

(** A record rewritten with its status kept. *)
Lemma sees_touch_rec E f s k r r' : sees E f s -> f_records f !! k = Some r ->
  rec_sees (f_arena f) k r' (r_Status r) -> sees E (put_rec f k r') s.
Proof.
  intros Hs Hk Hr. destruct (sees_rec_of E f s k r Hs Hk) as [Hst _].
  rewrite <- (set_status_id s k _ Hst). apply sees_put_rec; eauto.
Qed.

(** A new record, for a key the seen-set already holds. *)
Lemma sees_new_rec f s k r x : sees {[k]} f s -> rec_sees (f_arena f) k r x -> sees ∅ (put_rec f k r) (set_status s k x).
Proof.
  intros Hs Hr. destruct Hs. apply mkSees; try done.
  - by apply map_rel_insert.
  - cbn [f_records put_rec with_records]. by rewrite dom_insert_L, (left_id_L ∅ (∪)).
Qed.

Lemma sees_new_seen f s k : sees ∅ f s -> key_wf k -> k ∉ dom (f_records f) ->
  sees {[k]} (with_seen f (seen_insert (f_seen f) k)) s.
Proof.
  intros Hs Hk Hn. destruct Hs. apply mkSees; try done. cbn [f_seen f_records with_seen].
  rewrite (left_id_L ∅ (∪)) in se_seen0. by apply seen_insert_rel.
Qed.

(** A host rewritten, in no pool before or after unless its mode stays. *)
Lemma sees_put_host E f s hk m b m' b' h' : sees E f s -> s_hosts s !! hk = Some (m, b) ->
  m' = m \/ (~ pool m /\ ~ pool m') -> (m = Idle <-> m' = Idle) -> host_sees (f_arena f) hk h' (m', b') ->
  sees E (put_host f hk h') (set_host s hk (m', b')).
Proof.
  intros Hs Hk Hp Hi Hh. destruct Hs. destruct se_wait0 as [Hw1 Hw2], se_ready0 as (l & Hl1 & Hl2).
  assert (Hr : m = Ready <-> m' = Ready) by (unfold pool in Hp; naive_solver).
  assert (Hw : m = Waiting <-> m' = Waiting) by (unfold pool in Hp; naive_solver).
  apply mkSees; try done; cbn [s_hosts set_host f_hosts put_host with_hosts f_active].
  - by apply map_rel_insert.
  - exists l. split; [done |]. by apply (pool_keep _ _ _ _ m b).
  - split; [done |]. by apply (pool_keep _ _ _ _ m b).
  - by rewrite (active_replace _ _ (m, b)).
Qed.

Lemma sees_touch_host E f s hk v h' : sees E f s -> s_hosts s !! hk = Some v -> host_sees (f_arena f) hk h' v ->
  sees E (put_host f hk h') s.
Proof.
  intros Hs Hk Hh. rewrite <- (set_host_id s hk v Hk). destruct v as [m b].
  by apply (sees_put_host E f s hk m b); [| | left | |].
Qed.

(** Entering and leaving the active set. *)
Lemma sees_activate E f s hk b b' h' : sees E f s -> s_hosts s !! hk = Some (Idle, b) ->
  host_sees (f_arena f) hk h' (Stuck, b') -> f_active f < Z.max (fc_minActive c) (fc_target c) ->
  sees E (with_active (put_host f hk h') (f_active f + 1)) (set_host s hk (Stuck, b')).
Proof.
  intros Hs Hk Hh Ht. destruct Hs. destruct se_wait0 as [Hw1 Hw2], se_ready0 as (l & Hl1 & Hl2).
  apply mkSees; try done; cbn [s_hosts set_host f_hosts put_host with_hosts f_active with_active].
  - by apply map_rel_insert.
  - exists l. split; [done |]. by apply (pool_keep _ _ _ _ Idle b).
  - split; [done |]. by apply (pool_keep _ _ _ _ Idle b).
  - rewrite active_insert, se_active0, (active_lookup _ _ _ Hk). cbn [fst].
    rewrite decide_True, decide_False by done. lia.
  - lia.
Qed.

Lemma sees_retire E f s hk m b b' h' : sees E f s -> s_hosts s !! hk = Some (m, b) -> ~ pool m -> m <> Idle ->
  host_sees (f_arena f) hk h' (Idle, b') ->
  sees E (with_active (put_host f hk h') (f_active f - 1)) (set_host s hk (Idle, b')).
Proof.
  intros Hs Hk Hp Hi Hh. destruct Hs. destruct se_wait0 as [Hw1 Hw2], se_ready0 as (l & Hl1 & Hl2).
  apply mkSees; try done; cbn [s_hosts set_host f_hosts put_host with_hosts f_active with_active].
  - by apply map_rel_insert.
  - exists l. split; [done |]. apply (pool_keep _ _ _ _ m b); [done | done | unfold pool in Hp; naive_solver].
  - split; [done |]. apply (pool_keep _ _ _ _ m b); [done | done | unfold pool in Hp; naive_solver].
  - rewrite active_insert, se_active0, (active_lookup _ _ _ Hk). cbn [fst].
    rewrite decide_False, decide_True by done. lia.
  - lia.
Qed.

Lemma sees_new_host E f s hk h : sees E f s -> f_hosts f !! hk = None -> host_sees (f_arena f) hk h (Idle, []) ->
  s_hosts s !! hk = None /\ sees E (put_host f hk h) (set_host s hk (Idle, [])).
Proof.
  intros Hs Hk Hh. pose proof (sees_no_host _ _ _ _ Hs Hk) as Hn. split; [done |].
  destruct Hs. destruct se_wait0 as [Hw1 Hw2], se_ready0 as (l & Hl1 & Hl2).
  apply mkSees; try done; cbn [s_hosts set_host f_hosts put_host with_hosts f_active].
  - by apply map_rel_insert.
  - exists l. split; [done |]. by apply pool_new.
  - split; [done |]. by apply pool_new.
  - by rewrite active_new.
Qed.

(** Entering and leaving the pools: a host in neither is [Stuck]. *)
Lemma stuck_pool a hk h m b : pool m -> host_sees a hk h (Stuck, b) <-> host_sees a hk h (m, b).
Proof. intros [-> | ->]; split; intros [? ? ? ? ? ?]; split; cbn in *; (done || naive_solver). Qed.

Lemma sees_pool_mode E f s hk m b m' bank wait : sees E f s -> s_hosts s !! hk = Some (m, b) ->
  (m = Stuck /\ pool m') \/ (pool m /\ m' = Stuck) ->
  (exists l, bank_holds bank l /\ pool_is Ready (<[hk := (m', b)]> (s_hosts s)) l) ->
  heap_ordered wait_less wait -> pool_is Waiting (<[hk := (m', b)]> (s_hosts s)) (wi_hostKey <$> wait) ->
  sees E (with_wait (with_readyHosts f bank) wait) (set_host s hk (m', b)).
Proof.
  intros Hs Hk Hm Hb Hw1 Hw2. destruct (sees_host _ _ _ _ _ Hs Hk) as (h & Hh & Hhs).
  assert (Hhs' : host_sees (f_arena f) hk h (m', b)).
  { destruct Hm as [[-> Hp] | [Hp ->]]; by apply (stuck_pool _ _ _ _ _ Hp). }
  assert (Hi : m <> Idle /\ m' <> Idle) by (destruct Hm as [[-> [-> | ->]] | [[-> | ->] ->]]; done).
  destruct Hs. apply mkSees; try done; cbn [s_hosts set_host f_hosts with_readyHosts with_wait f_active].
  - rewrite <- (insert_id (f_hosts f) hk h Hh). by apply map_rel_insert.
  - rewrite (active_replace _ _ (m, b)); [done | done |]. cbn. tauto.
Qed.

Lemma sees_push_ready E f s hk b p : sees E f s -> s_hosts s !! hk = Some (Stuck, b) ->
  sees E (with_readyHosts f (bank_push (f_readyHosts f) hk p)) (set_host s hk (Ready, b)).
Proof.
  intros Hs Hk. destruct (se_ready Hs) as (l & Hl1 & Hl2), (se_wait Hs) as [Hw1 Hw2].
  apply (sees_pool_mode E f s hk Stuck b Ready _ (f_wait f)); [done | done | left; split; [done | by right] | | done |].
  - exists (hk :: l). split; [by apply bank_push_holds | by apply (pool_enter _ _ _ _ Stuck b)].
  - by apply (pool_keep _ _ _ _ Stuck b).
Qed.

Lemma sees_push_wait E f s hk b e : sees E f s -> s_hosts s !! hk = Some (Stuck, b) ->
  sees E (with_wait f (wait_push (f_wait f) hk e)) (set_host s hk (Waiting, b)).
Proof.
  intros Hs Hk. destruct (se_ready Hs) as (l & Hl1 & Hl2), (se_wait Hs) as [Hw1 Hw2].
  destruct (wait_push_heap (f_wait f) hk e Hw1) as [Ho Hp].
  apply (sees_pool_mode E f s hk Stuck b Waiting (f_readyHosts f)); [done | done | left; split; [done | by left] | | done |].
  - exists l. split; [done | by apply (pool_keep _ _ _ _ Stuck b)].
  - rewrite Hp. by apply (pool_enter _ _ _ _ Stuck b).
Qed.

Lemma sees_pop_ready E f s shard hk bank : sees E f s -> popShard (f_readyHosts f) shard = Some (hk, bank) ->
  exists b, s_hosts s !! hk = Some (Ready, b) /\ sees E (with_readyHosts f bank) (set_host s hk (Stuck, b)).
Proof.
  intros Hs Hp. destruct (se_ready Hs) as (l & Hl1 & Hl2), (se_wait Hs) as [Hw1 Hw2].
  pose proof (popShard_holds _ _ shard Hl1) as Hl'. rewrite Hp in Hl'. destruct Hl' as (l' & Hll & Hb').
  rewrite Hll in Hl2. destruct (proj1 (proj2 Hl2 hk)) as [b Hk]; [by left |]. exists b. split; [done |].
  apply (sees_pool_mode E f s hk Ready b Stuck bank (f_wait f)); [done | done | right; split; [by right | done] | | done |].
  - exists l'. split; [done | by apply pool_leave].
  - by apply (pool_keep _ _ _ _ Ready b).
Qed.

Lemma sees_pop_wait E f s it rest : sees E f s -> wait_popMin (f_wait f) = Some (it, rest) ->
  exists b, s_hosts s !! wi_hostKey it = Some (Waiting, b) /\
    sees E (with_wait f rest) (set_host s (wi_hostKey it) (Stuck, b)) /\ length (f_wait f) = S (length rest).
Proof.
  intros Hs Hp. destruct (se_ready Hs) as (l & Hl1 & Hl2), (se_wait Hs) as [Hw1 Hw2].
  destruct (f_wait f) as [| x w] eqn:Ew; [done |]. destruct (wait_popMin_heap x w Hw1) as (w' & Hp' & Ho & Hpm).
  rewrite Hp' in Hp. injection Hp as -> ->. cbn in Hw2. rewrite <- Hpm in Hw2.
  destruct (proj1 (proj2 Hw2 (wi_hostKey it))) as [b Hk]; [by left |]. exists b. split; [done |].
  split; [| by rewrite Hpm].
  apply (sees_pool_mode E f s _ Waiting b Stuck (f_readyHosts f)); [done | done | right; split; [by left | done] | | done |].
  - exists l. split; [done | by apply (pool_keep _ _ _ _ Waiting b)].
  - by apply pool_leave.
Qed.

(** The front bank and the wheel. *)
Lemma sees_front E f s r l : sees E f s -> ring_holds r l -> sees E (with_urlFront f r) (set_front s l).
Proof. intros Hs Hl. destruct Hs. by apply mkSees. Qed.
Lemma sees_wheel E f s w p l : sees E f s -> wheel_rel w p -> p.*2 ≡ₚ l -> sees E (with_wheel f w) (set_pend s l).
Proof. intros Hs Hw Hl. destruct Hs. apply mkSees; try done. by exists p. Qed.

Lemma sees_rebucket E f s k p q : sees E f s -> sees E (with_urlFront f (rebucket (f_urlFront f) k p q).2) s.
Proof. intros Hs. pose proof (rebucket_holds _ _ k p q (se_front Hs)). destruct Hs. by apply mkSees. Qed.

Lemma sees_frontPush E f s k p q : sees E f s -> sees E (frontPush f k p q) (set_front s (k :: s_front s)).
Proof.
  intros Hs. assert (Hp : sees E (with_urlFront f (ring_push (f_urlFront f) k p)) (set_front s (k :: s_front s)))
    by (apply sees_front; [done | apply push_holds, (se_front Hs)]).
  unfold frontPush. by destruct (fc_bounded _).
Qed.

Lemma sees_wheel_add E f s k d : sees E f s -> hour_ok d ->
  sees E (with_wheel f (wheel_add (f_wheel f) k d)) (set_pend s (k :: s_pend s)).
Proof.
  intros Hs Hd. destruct (se_wheel Hs) as (p & Hw & Hp).
  eapply sees_wheel; [done | by apply wheel_add_rel |]. cbn. by rewrite Hp.
Qed.

(** ** Runs of the scheduler *)

Abbreviation steps := (rtc (sched_step (fc_wheelOn c) freshOn (fc_robotsOn c))).
Abbreviation step := (sched_step (fc_wheelOn c) freshOn (fc_robotsOn c)).

(** No outcome is being applied: the state between two calls of the interface. *)
Definition rest s : Prop := forall hk o b, s_hosts s !! hk <> Some (Settling o, b).

(** No host starts having an outcome applied. *)
Definition calm s s' : Prop := forall hk o b, s_hosts s' !! hk = Some (Settling o, b) ->
  exists o0 b0, s_hosts s !! hk = Some (Settling o0, b0).

Definition reach s s' : Prop := steps s s' /\ calm s s'.

Lemma calm_rest s s' : calm s s' -> rest s -> rest s'.
Proof. intros Hc Hr hk o b Hl. destruct (Hc hk o b Hl) as (o0 & b0 & Hl0). by apply (Hr hk o0 b0). Qed.

(** What intake leaves as it was: the hosts and the statuses that were there. *)
Definition grows s s' : Prop :=
  (forall hk v, s_hosts s !! hk = Some v -> s_hosts s' !! hk = Some v) /\
  (forall k x, s_status s !! k = Some x -> s_status s' !! k = Some x).

#[local] Instance reach_refl : Reflexive reach.
Proof. intros s. split; [done | by intros ? ? ?; eauto]. Qed.
#[local] Instance reach_trans : Transitive reach.
Proof.
  intros s1 s2 s3 [? Hc1] [? Hc2]. split; [by etrans |]. intros hk o b Hl. destruct (Hc2 hk o b Hl) as (? & ? & Hl2).
  by eapply Hc1.
Qed.
#[local] Instance grows_refl : Reflexive grows.
Proof. intros s. split; auto. Qed.
#[local] Instance grows_trans : Transitive grows.
Proof. intros s1 s2 s3 [? ?] [? ?]. split; eauto. Qed.

Lemma idle_sim E f s : sees E f s -> exists s', reach s s' /\ grows s s' /\ sees E f s'.
Proof. intros Hs. exists s. split; [reflexivity |]. by split; [reflexivity |]. Qed.

Lemma calm_set_host s hk m b : (forall o, m <> Settling o) -> calm s (set_host s hk (m, b)).
Proof.
  intros Hm hk2 o b2 Hl. cbn [set_host s_hosts] in Hl.
  apply lookup_insert_Some in Hl as [[_ [= ? ?]] | [_ Hl]]; [by exfalso; eapply Hm | eauto].
Qed.

Lemma calm_same s s' : s_hosts s' = s_hosts s -> calm s s'.
Proof. intros Hh hk o b. rewrite Hh. eauto. Qed.

Lemma reach_step s s' : step s s' -> calm s s' -> reach s s'.
Proof. intros Hs Hr. split; [by apply rtc_once | done]. Qed.

Lemma reach_host s hk : s_hosts s !! hk = None -> reach s (set_host s hk (Idle, [])) /\ grows s (set_host s hk (Idle, [])).
Proof.
  intros Hn. split; [apply reach_step; [by destruct s; apply st_host | by apply calm_set_host] |].
  split; [| done]. intros hk2 v Hv. cbn. rewrite lookup_insert_ne; [done | congruence].
Qed.

Lemma reach_new s s' k x : s_status s !! k = None -> step s s' -> s_hosts s' = s_hosts s ->
  s_status s' = <[k := x]> (s_status s) -> reach s s' /\ grows s s'.
Proof.
  intros Hn Hs Hh Hx. split; [apply reach_step; [done | by apply calm_same] |].
  split; rewrite ?Hh, ?Hx; [done |]. intros k2 y Hy. rewrite lookup_insert_ne; [done | congruence].
Qed.

(** ** Intake *)

Lemma newHost_spec E f s hk ref name delay : sees E f s -> ref_ok (f_arena f) ref ->
  let '(f', h) := newHost f hk ref name delay in
  sees E f' s /\ f_hosts f' = f_hosts f /\ f_records f' = f_records f /\ host_sees (f_arena f') hk h (Idle, []).
Proof.
  intros Hs Hr. unfold newHost.
  destruct (f_importedHostScore f !! hk); destruct (f_resolver _) eqn:?; try case_bool_decide;
    (split; [exact Hs |]; split; [done |]; split; [done |]; by split).
Qed.

(** The scheduler's state once the host is known. *)
Definition ensured (hk : Z) s s' : Prop :=
  (is_Some (s_hosts s !! hk) /\ s' = s) \/ (s_hosts s !! hk = None /\ s' = set_host s hk (Idle, [])).

Lemma ensured_grows hk s s' : ensured hk s s' ->
  reach s s' /\ grows s s' /\ is_Some (s_hosts s' !! hk) /\ s_status s' = s_status s.
Proof.
  intros [[Hh ->] | [Hh ->]]; [by split; [| split] |]. destruct (reach_host s hk Hh) as [? ?].
  split; [done |]. split; [done |]. split; [| done]. cbn. rewrite lookup_insert_eq. by eexists.
Qed.

Lemma ensureHost_sim E f s hk host delay : sees E f s ->
  good (ensureHost f hk host delay) (fun f' => exists s', ensured hk s s' /\ sees E f' s' /\
    f_records f' = f_records f).
Proof.
  intros Hs. unfold ensureHost. destruct (f_hosts f !! hk) as [h |] eqn:Hh.
  - destruct (sees_host_of _ _ _ _ _ Hs Hh) as (v & Hv & _). exists s. split; [left; by rewrite Hv | done].
  - eapply good_bind; [apply sees_intern, Hs |]. intros [f1 ref] (ext & -> & Ha & Hr & Hs1).
    pose proof (newHost_spec _ _ _ hk ref host delay Hs1 Hr) as Hn.
    destruct (newHost _ hk ref host delay) as [f2 h]. destruct Hn as (Hs2 & Hf & Hr2 & Hhs). cbn.
    destruct (sees_new_host _ _ _ hk h Hs2 ltac:(by rewrite Hf) Hhs) as [Hnh Hs3].
    eexists. split; [by right |]. split; [done |]. cbn. by rewrite Hr2.
Qed.

Lemma credit_sees E f s p d : sees E f s -> sees E (credit f p d).1 s.
Proof.
  intros Hs. unfold credit. destruct (prio_Credit p d) as [p' indeg]. cbn [f_hosts with_prio].
  destruct (f_hosts f !! HostKey (d_URLKey d)) as [h |] eqn:Hh; [| exact Hs].
  destruct (sees_host_of _ _ _ _ _ Hs Hh) as (v & Hv & Hhs). cbn [fst].
  apply (sees_touch_host E (with_prio f (Some p')) s _ v); [exact Hs | done |]. by destruct Hhs; split.
Qed.

Lemma credit_records f p d : f_records (credit f p d).1 = f_records f.
Proof. unfold credit. destruct (prio_Credit p d). cbn. by destruct (f_hosts f !! _). Qed.

Lemma reprice_sees f s p key h : sees ∅ f s -> is_Some (f_records f !! key) ->
  good (reprice f p key h) (fun f' => sees ∅ f' s).
Proof.
  intros Hs [r Hr]. unfold reprice, get_rec. rewrite Hr. cbn.
  destruct (sees_rec_of _ _ _ _ _ Hs Hr) as [_ Hrs].
  assert (Hs' : sees ∅ (put_rec f key (set_Priority r (prio_Priority p r h))) s)
    by (apply (sees_touch_rec _ f s key r); [done | done | by destruct Hrs; split]).
  destruct (r_Status r); try exact Hs'; exact (sees_rebucket _ _ _ _ _ _ Hs').
Qed.

Lemma Admit_status depth h passes : Admit depth h passes = StatusScheduled \/ Admit depth h passes = StatusTrapped.
Proof. unfold Admit. repeat case_match; auto. Qed.

(** The records of links and redirects carry keys of the key space. *)
Definition link_ok (d : Discovery) : Prop := key_wf (d_URLKey d).

Lemma Discover_sim f s d now : sees ∅ f s -> link_ok d ->
  good (Discover f d now) (fun '(f', _) => exists s', reach s s' /\ grows s s' /\ sees ∅ f' s').
Proof.
  intros Hs Hd. unfold Discover, Seen. rewrite (seen_both _ _ _ (se_seen Hs) Hd).
  rewrite (left_id_L ∅ (∪)). case_bool_decide as Hin.
  - (* already known: at most a credit *)
    cbn. assert (Hs' : sees ∅ (with_seen f (f_seen f)) s) by exact Hs.
    destruct (f_prio f) as [p |]; [| by apply idle_sim].
    destruct (f_records f !! d_URLKey d) as [r |] eqn:Hr; [| by apply idle_sim].
    apply (good_bind _ _ (fun f' => sees ∅ f' s)); [| intros f' Hf'; by apply idle_sim]. unfold creditDiscovery.
    pose proof (credit_sees ∅ (with_seen f (f_seen f)) s p d Hs') as Hc.
    pose proof (credit_records (with_seen f (f_seen f)) p d) as Hcr.
    destruct (credit _ p d) as [f1 p1]. apply reprice_sees; [done |]. cbn [fst] in Hcr. rewrite Hcr. by exists r.
  - apply (sees_new_seen f s (d_URLKey d) Hs Hd) in Hin as Hs1. set (f1 := with_seen f _) in *.
    assert (Hn : s_status s !! d_URLKey d = None).
    { apply (sees_no_rec ∅ f s); [done |]. by apply not_elem_of_dom. }
    eapply good_bind; [apply ensureHost_sim, Hs1 |]. intros f2 (s2 & Hens & Hs2 & _).
    destruct (ensured_grows _ _ _ Hens) as (Hr2 & Hg2 & [v Hv] & Hst). rewrite <- Hst in Hn.
    set (f3 := match f_prio f2 with Some p => _ | None => _ end).
    assert (Hs3 : sees {[d_URLKey d]} f3 s2) by (unfold f3; destruct (f_prio f2); [by apply credit_sees | done]).
    destruct (trap_Observe _ _ _ _ _) as [traps suspect]. set (f4 := with_traps f3 traps).
    assert (Hs4 : sees {[d_URLKey d]} f4 s2) by exact Hs3.
    destruct (sees_host _ _ _ _ _ Hs4 Hv) as (h & Hh & Hhs). unfold get_host. rewrite Hh. cbn [mbind res_bind].
    set (h' := if suspect : bool then _ else h). set (passes := if _ && _ then _ else _).
    eapply good_bind; [apply sees_intern, Hs4 |]. intros [f5 ref] (ext & -> & Ha & Href & Hs5).
    set (rec := match f_prio _ with Some p => _ | None => _ end).
    assert (Hrec : rec_sees (f_arena f4 ++ ext) (d_URLKey d) rec (Admit (d_Depth d) (he_rec h') passes)).
    { assert (HA : Admit (d_Depth d) (he_rec h') passes <> StatusCrawled)
        by (by destruct (Admit_status (d_Depth d) (he_rec h') passes) as [-> | ->]).
      unfold rec. destruct (f_prio (with_arena f4 _)); (split; [done | done | done | exact Href | by left | done]). }
    pose proof (sees_new_rec _ s2 _ rec _ Hs5 Hrec) as Hs6.
    set (s6 := set_status s2 _ _) in Hs6.
    assert (Hs7 : sees ∅ (put_host (put_rec (with_arena f4 (f_arena f4 ++ ext)) (d_URLKey d) rec) (HostKey (d_URLKey d))
      (he_set_rec h' (hset_URLCount (he_rec h') (u32 (h_URLCount (he_rec h') + 1))))) s6).
    { apply (sees_touch_host _ _ _ _ v); [done | done |]. apply (host_sees_mono _ ext) in Hhs; [| done].
      unfold h'. by destruct suspect; destruct Hhs; split. }
    destruct (decide (Admit _ _ _ = StatusScheduled)) as [E | E]; cbn [good].
    + exists (set_front s6 (d_URLKey d :: s_front s6)).
      destruct (reach_new s2 (set_front s6 (d_URLKey d :: s_front s6)) (d_URLKey d) StatusScheduled) as [Hr7 Hg7]; try done.
      * destruct s2. unfold s6. rewrite E. apply st_add; [done | by eexists | by left].
      * unfold s6. by rewrite E.
      * split; [by etrans |]. split; [by etrans |]. by apply sees_frontPush.
    + exists s6. assert (E2 : Admit (d_Depth d) (he_rec h') passes = StatusTrapped)
        by (by destruct (Admit_status (d_Depth d) (he_rec h') passes)).
      destruct (reach_new s2 s6 (d_URLKey d) StatusTrapped) as [Hr7 Hg7]; try done.
      * destruct s2. unfold s6. rewrite E2. apply st_known; try done. by intros [? | [? | ?]].
      * unfold s6. by rewrite E2.
      * split; [by etrans |]. by split; [etrans |].
Qed.

Lemma discover_all_sim f s ds now : sees ∅ f s -> Forall link_ok ds ->
  good (discover_all f ds now) (fun f' => exists s', reach s s' /\ grows s s' /\ sees ∅ f' s').
Proof.
  intros Hs Hd. revert f s Hs. induction Hd as [| d ds Hd _ IH]; intros f s Hs; [by apply idle_sim |].
  cbn [discover_all]. eapply good_bind; [by apply Discover_sim |]. intros [f1 b] (s1 & Hr1 & Hg1 & Hs1). cbn.
  eapply good_mono; [apply IH, Hs1 |]. intros f2 (s2 & Hr2 & Hg2 & Hs2). exists s2.
  split; [by etrans |]. by split; [etrans |].
Qed.

(** Filing a known record: into the wheel or the front bank. *)
Lemma schedule_sim f s k r now enq : sees ∅ f s -> hour_ok (r_NextDue r) ->
  exists s', sees ∅ (schedule f k r now enq) s' /\
    (s' = set_front s (k :: s_front s) \/ (fc_wheelOn c = true /\ s' = set_pend s (k :: s_pend s))).
Proof.
  intros Hs Hd. unfold schedule. rewrite (se_conf Hs). destruct (fc_wheelOn c && _) eqn:E.
  - apply andb_true_iff in E as [-> _]. eexists. split; [by apply sees_wheel_add | by right].
  - eexists. split; [by apply sees_frontPush | by left].
Qed.

Lemma Seed_sim `{!XXHashLaws} f s url host p seen due delay : sees ∅ f s -> hour_ok due ->
  good (Seed f url host p seen due delay) (fun f' => exists s', reach s s' /\ grows s s' /\ sees ∅ f' s').
Proof.
  intros Hs Hd. unfold Seed, Seen. set (hk := HostKeyOf host). set (key := mkKey hk _).
  assert (Hk : key_wf key) by (split; apply xxh64_fits).
  rewrite (seen_both _ _ _ (se_seen Hs) Hk), (left_id_L ∅ (∪)). case_bool_decide as Hin; [by apply idle_sim |].
  apply (sees_new_seen f s key Hs Hk) in Hin as Hs1.
  assert (Hn : s_status s !! key = None) by (apply (sees_no_rec ∅ f s); [done | by apply not_elem_of_dom]).
  eapply good_bind; [apply sees_intern, Hs1 |]. intros [f2 ref] (ext & -> & Ha & Href & Hs2).
  set (rec := mkURL key hk _ _ _ _ _ _ _ _ _ _ _ _ _ _ _ _ _ _ _ _ _).
  assert (Hrec : forall a, ref_ok a ref -> rec_sees a key rec StatusScheduled) by (intros a Hr; by split; [| | | | left |]).
  pose proof (sees_new_rec _ s _ rec _ Hs2 (Hrec _ Href)) as Hs3.
  eapply good_bind; [apply ensureHost_sim, Hs3 |]. intros f4 (s4 & Hens & Hs4 & Hf4).
  (* the same state, the host first *)
  assert (exists s5, ensured hk s s5 /\ s4 = set_status s5 key StatusScheduled) as (s5 & Hens5 & ->).
  { destruct Hens as [[? ->] | [? ->]]; [exists s; split; [by left | done] |].
    exists (set_host s hk (Idle, [])). split; [by right | done]. }
  destruct (ensured_grows _ _ _ Hens5) as (Hr5 & Hg5 & [v Hv] & Hst). rewrite <- Hst in Hn.
  destruct (sees_host _ _ _ _ _ Hs4 Hv) as (h & Hh & Hhs). unfold get_host. rewrite Hh. cbn [mbind res_bind].
  set (h' := he_set_rec h _).
  assert (Hs6 : sees ∅ (put_host f4 hk h') (set_status s5 key StatusScheduled))
    by (apply (sees_touch_host _ _ _ _ v); [done | done | by destruct Hhs; split]).
  assert (Hfin : forall g r, sees ∅ g (set_status s5 key StatusScheduled) -> r_NextDue r = due ->
    exists s', reach s s' /\ grows s s' /\ sees ∅ (schedule g key r seen seen) s').
  { intros g r Hg <-. destruct (schedule_sim g _ key r seen seen Hg Hd) as (s7 & Hs7 & Hcase). exists s7.
    destruct (reach_new s5 s7 key StatusScheduled) as [Hr7 Hg7]; [done | | by destruct Hcase as [-> | [_ ->]] | by destruct Hcase as [-> | [_ ->]] |].
    - destruct s5. destruct Hcase as [-> | [Hw ->]]; [apply st_add; [done | by eexists | by left] | by apply st_defer; [| | left]].
    - split; [by etrans |]. by split; [etrans |]. }
  destruct (f_prio _) as [q |]; [| by apply Hfin]. apply Hfin; [| done].
  destruct (sees_rec ∅ (put_host f4 hk h') (set_status s5 key StatusScheduled) key StatusScheduled Hs6)
    as (r & Hr & Hrs); [by cbn; rewrite lookup_insert_eq |].
  refine (sees_touch_rec ∅ (with_prio (put_host f4 hk h') _) _ key r _ Hs6 Hr _).
  assert (r = rec) as -> by (cbn in Hr; rewrite Hf4 in Hr; cbn in Hr; rewrite lookup_insert_eq in Hr; by injection Hr).
  by destruct Hrs; split.
Qed.

(** ** Reading strings and importing signals *)

Lemma str_good f off (Q : list Z -> Prop) : ref_ok (f_arena f) off -> (forall x, Q x) -> good (str f off) Q.
Proof. intros Hr HQ. unfold str. destruct (str_ok _ _ Hr) as [x ->]. cbn. apply HQ. Qed.

Lemma Warm_sim f s key etag lm dg : sees ∅ f s -> good (Warm f key etag lm dg) (fun f' => sees ∅ f' s).
Proof.
  intros Hs. unfold Warm. destruct (f_records f !! key) as [r |] eqn:Hr; [| done].
  destruct (0 <? r_CrawlCount r); [done |]. destruct (sees_rec_of _ _ _ _ _ Hs Hr) as [_ Hrs].
  apply (good_bind _ _ (fun '(f1, r1) => sees ∅ f1 s /\ f_records f1 = f_records f /\ rec_sees (f_arena f1) key r1 (r_Status r))).
  - case_bool_decide; [done |]. eapply good_bind; [apply sees_intern, Hs |]. intros [f1 ref] (ext & -> & Ha & Href & Hs1).
    split; [done |]. split; [done |]. apply (rec_sees_mono _ ext) in Hrs; [| done]. by destruct Hrs; split.
  - intros [f1 r1] (Hs1 & Hf1 & Hrs1). cbn. apply (sees_touch_rec _ _ _ _ r); [done | by rewrite Hf1 |].
    destruct (lm =? 0), (dg =? 0); by destruct Hrs1; split.
Qed.

Lemma ImportURLSignal_sim f s u : sees ∅ f s -> sees ∅ (ImportURLSignal f u) s.
Proof. intros Hs. unfold ImportURLSignal. by destruct (f_prio f). Qed.

Lemma ImportHostSignal_sim f s u : sees ∅ f s -> sees ∅ (ImportHostSignal f u) s.
Proof.
  intros Hs. unfold ImportHostSignal. destruct (f_hosts f !! hs_HostKey u) as [h |] eqn:Hh; [| done].
  destruct (sees_host_of _ _ _ _ _ Hs Hh) as (v & Hv & Hhs). apply (sees_touch_host _ _ _ _ v); [done | done |].
  by destruct Hhs; split.
Qed.

(** ** Promotion *)

Abbreviation inv := (sinv (fc_wheelOn c) freshOn (fc_robotsOn c)).

Lemma reach_inv s s' : reach s s' -> inv s -> inv s'.
Proof. intros [Hs _]. by apply sched_steps_inv. Qed.

(** A URL a host holds has a record. *)
Lemma held_known s hk m b k : inv s -> s_hosts s !! hk = Some (m, b) -> k ∈ b ->
  exists x, s_status s !! k = Some x /\ HostKey k = hk.
Proof.
  intros Hi Hl Hk. destruct s as [st hs fr pe]. cbn in Hl. destruct (once_host _ _ _ _ _ _ _ Hl (si_once _ _ _ _ Hi)) as [_ Hd].
  assert (Hin : k ∈ limbo m ++ b) by (rewrite elem_of_app; auto). destruct (Hd k Hin) as [Hf Hp].
  pose proof (si_own _ _ _ _ Hi _ _ _ k Hl Hin) as Ho. pose proof (status_before _ _ _ _ _ _ _ _ _ _ k Hi Hl Ho) as Hs.
  rewrite place_of_host in Hs by done. cbn [s_status]. unfold place_in in *.
  repeat case_decide; try done; cbn [status_ok] in Hs; [by destruct Hs as [x Hs]; exists x | by eexists |].
  destruct Hs as (x & Hx & _). by exists x.
Qed.

Lemma place_sim f s hk h b now : sees ∅ f (set_host s hk (Stuck, b)) -> f_hosts f !! hk = Some h -> b <> [] ->
  (forall k, head b = Some k -> is_Some (s_status s !! k)) ->
  good (place f h now) (fun f' => exists m, pool m /\ sees ∅ f' (set_host s hk (m, b))).
Proof.
  intros Hs Hh Hb Hk. destruct (sees_host_of _ _ _ _ _ Hs Hh) as (v & Hv & Hhs). cbn in Hv.
  rewrite lookup_insert_eq in Hv. injection Hv as <-. destruct Hhs. cbn [fst snd] in *. unfold place.
  rewrite hs_back0, hs_inFlight0, hs_key0. destruct b as [| k b]; [done |]. cbn [flying].
  destruct (eligibleNow f h <=? now).
  - destruct (Hk k eq_refl) as [x Hx]. destruct (sees_rec ∅ f (set_host s hk (Stuck, k :: b)) k x Hs Hx) as (r & Hr & _).
    unfold get_rec. rewrite Hr. cbn. exists Ready. split; [by right |]. rewrite <- (set_host_twice s hk (Stuck, k :: b)).
    apply sees_push_ready; [done |]. by apply lookup_insert_eq.
  - exists Waiting. split; [by left |]. rewrite <- (set_host_twice s hk (Stuck, k :: b)).
    apply sees_push_wait; [done |]. by apply lookup_insert_eq.
Qed.

Lemma reach_move s hk m m' b : s_hosts s !! hk = Some (m, b) -> pool m -> pool m' -> reach s (set_host s hk (m', b)).
Proof.
  intros Hl Hm Hm'. apply reach_step; [destruct s; by apply (st_move _ _ _ _ _ _ _ _ m) |].
  apply calm_set_host. by destruct Hm' as [-> | ->].
Qed.

Definition ripe (now : Z) (w : list waitItem) : nat := length (filter (fun it => wi_eligible it <= now) w).
#[local] Instance ripe_perm now : Proper ((≡ₚ) ==> eq) (ripe now).
Proof. intros w w' Hw. unfold ripe. by rewrite Hw. Qed.
Lemma ripe_cons now it w : ripe now (it :: w) = if decide (wi_eligible it <= now) then S (ripe now w) else ripe now w.
Proof. unfold ripe. rewrite filter_cons. by case_decide. Qed.

Lemma promote_loop_sim fuel f s now : sees ∅ f s -> inv s -> (ripe now (f_wait f) < fuel)%nat ->
  good (promote_loop fuel f now) (fun f' => exists s', reach s s' /\ sees ∅ f' s').
Proof.
  revert f s. induction fuel as [| fuel IH]; intros f s Hs Hi Hf; [lia |]. cbn [promote_loop].
  destruct (wait_popMin (f_wait f)) as [[it rest'] |] eqn:Hp; [| exists s; by split].
  destruct (now <? wi_eligible it) eqn:En; bool_prop; [exists s; by split |].
  destruct (sees_pop_wait _ _ _ _ _ Hs Hp) as (b & Hl & Hs1 & _).
  assert (Hw : f_wait f ≡ₚ it :: rest').
  { destruct (se_wait Hs) as [Ho _]. destruct (f_wait f) as [| y w]; [done |].
    destruct (wait_popMin_heap y w Ho) as (w' & Hp' & _ & Hpm). rewrite Hp' in Hp. injection Hp as -> ->. by rewrite Hpm. }
  assert (Hripe : ripe now (f_wait f) = S (ripe now rest')) by (by rewrite Hw, ripe_cons, decide_True).
  destruct (sees_host _ _ _ _ _ Hs Hl) as (h & Hh & Hhs). cbn [f_hosts with_wait]. rewrite Hh.
  rewrite (hs_back _ _ _ _ Hhs). cbn [snd]. pose proof (si_mode _ _ _ _ Hi _ _ _ Hl) as Hb.
  destruct b as [| k b]; [done |]. cbv zeta. destruct (now <? eligibleNow _ h) eqn:Ee; bool_prop.
  - eapply IH; [| done |].
    + rewrite <- (set_host_id s _ _ Hl), <- (set_host_twice s _ (Stuck, k :: b)).
      apply (sees_push_wait ∅ (with_wait f rest')); [done | by apply lookup_insert_eq].
    + cbn [f_wait with_wait]. destruct (wait_push_heap rest' (wi_hostKey it) (eligibleNow (with_wait f rest') h)) as [_ Hpm].
      { apply (se_wait Hs1). }
      rewrite Hpm, ripe_cons, decide_False by (cbn; lia). lia.
  - destruct (held_known s _ _ _ k Hi Hl ltac:(by left)) as (x & Hx & _). destruct (sees_rec _ _ _ _ _ Hs Hx) as (r & Hr & _).
    unfold get_rec. cbn [f_records with_wait]. rewrite Hr. cbn [mbind res_bind].
    pose proof (reach_move s (wi_hostKey it) Waiting Ready (k :: b) Hl ltac:(by left) ltac:(by right)) as Hr1.
    eapply good_mono; [eapply IH |].
    + rewrite <- (set_host_twice s _ (Stuck, k :: b)) in Hr1.
      apply (sees_push_ready ∅ (with_wait f rest')); [done | by apply lookup_insert_eq].
    + rewrite set_host_twice. by apply (reach_inv s).
    + change (ripe now rest' < fuel)%nat. lia.
    + intros f' (s' & Hr2 & Hs2). exists s'. split; [| done]. etrans; [exact Hr1 |]. by rewrite set_host_twice in Hr2.
Qed.

Lemma promote_sim f s now : sees ∅ f s -> inv s ->
  good (promote f now) (fun f' => exists s', reach s s' /\ sees ∅ f' s').
Proof. intros Hs Hi. apply promote_loop_sim; [done | done |]. unfold ripe. pose proof (length_filter (fun it => wi_eligible it <= now) (f_wait f)). lia. Qed.

(** *** The due wheel *)

(** A pending URL's record, and what firing it does to the scheduler. *)
Lemma pending_known s k : inv s -> k ∈ s_pend s ->
  s_status s !! k = Some StatusScheduled \/ s_status s !! k = Some StatusCrawled.
Proof.
  intros Hi Hk. destruct s as [st hs fr pe]. cbn in *. pose proof (si_status _ _ _ _ Hi k) as Hs. unfold place_at in Hs.
  cbn [s_status s_hosts s_front s_pend] in Hs. pose proof (once_lists _ _ _ _ (si_once _ _ _ _ Hi)) as Hn.
  apply NoDup_app in Hn as (_ & Hn & _). rewrite place_of_pend in Hs; [by destruct Hs | | done]. intros Hf. by apply (Hn k).
Qed.

Definition fired (x : URLStatus) : URLStatus := if decide (x = StatusCrawled) then StatusDueRecrawl else x.

(** While the keys of one advance are being promoted they have left the wheel, which
    holds [w], and the scheduler still counts them pending. *)
Lemma fire_key_sim f s k pe w now r r' x : sees ∅ f (set_pend s w) -> s_pend s ≡ₚ k :: pe ->
  s_status s !! k = Some x -> f_records f !! k = Some r -> rec_sees (f_arena f) k r' (fired x) ->
  good (fire_key f now k r') (fun f' => exists s', reach s s' /\ s_pend s' = pe /\ sees ∅ f' (set_pend s' w)).
Proof.
  intros Hs Hp Hx Hr Hr'. unfold fire_key.
  assert (Hs1 : sees ∅ (put_rec f k r') (set_status (set_pend s w) k (fired x)))
    by (apply sees_put_rec; [done | by exists r | done]).
  apply (good_bind _ _ (fun f2 => exists s2, ensured (HostKey k) s s2 /\ sees ∅ f2 (set_status (set_pend s2 w) k (fired x)))).
  - rewrite (rs_host _ _ _ _ Hr'). destruct (f_hosts (put_rec f k r') !! HostKey k) as [h |] eqn:Hh.
    + destruct (sees_host_of _ _ _ _ _ Hs1 Hh) as (v & Hv & _). exists s. split; [left; split; [by exists v | done] | done].
    + apply (good_bind _ _ (fun _ => True)); [by apply str_good; [apply (rs_url _ _ _ _ Hr') |] |]. intros url _.
      eapply good_mono; [apply ensureHost_sim, Hs1 |]. intros f2 (s2 & [[Hv ->] | [Hv ->]] & Hs2 & _).
      * exists s. split; [by left | done].
      * exists (set_host s (HostKey k) (Idle, [])). split; [by right | done].
  - intros f2 (s2 & Hens & Hs2). destruct (ensured_grows _ _ _ Hens) as (Hr2 & Hg2 & Hv & Hst).
    assert (Hp2 : s_pend s2 = s_pend s) by (by destruct Hens as [[_ ->] | [_ ->]]).
    exists (mkSched (<[k := fired x]> (s_status s2)) (s_hosts s2) (k :: s_front s2) pe).
    split; [| split; [done | by apply (sees_frontPush ∅ f2 _ k (r_Priority r') (now / 3600)) in Hs2]].
    etrans; [exact Hr2 |]. apply reach_step; [| by apply calm_same].
    destruct s2 as [st hs fr pe2]. cbn in *. subst. apply (st_fire _ _ _ _ hs fr _ k pe x); [done | done | done].
Qed.

Lemma promote_due_key_sim f s k pe w now : sees ∅ f (set_pend s w) -> inv s -> s_pend s ≡ₚ k :: pe ->
  good (promote_due_key f now k) (fun f' => exists s', reach s s' /\ s_pend s' = pe /\ sees ∅ f' (set_pend s' w)).
Proof.
  intros Hs Hi Hp. unfold promote_due_key.
  destruct (pending_known s k Hi) as [Hx | Hx]; [by rewrite Hp; left | |];
    destruct (sees_rec _ _ _ k _ Hs Hx) as (r & Hr & Hrs); rewrite Hr; pose proof (rs_status _ _ _ _ Hrs) as ->.
  - by eapply fire_key_sim.
  - eapply fire_key_sim; [done | done | exact Hx | done |]. by destruct Hrs; split.
Qed.

Lemma sees_pend E f s w : sees E f (set_pend s w) -> s_pend s ≡ₚ w -> sees E f s.
Proof.
  intros Hs Hp. destruct (se_wheel Hs) as (p & Hw & Hpp). destruct Hs. apply mkSees; try done.
  exists p. split; [done |]. by rewrite Hp.
Qed.

Lemma promote_due_keys_sim ks f s w now : sees ∅ f (set_pend s w) -> inv s -> s_pend s ≡ₚ ks ++ w ->
  good (promote_due_keys f now ks) (fun f' => exists s', reach s s' /\ sees ∅ f' s').
Proof.
  revert f s. induction ks as [| k ks IH]; intros f s Hs Hi Hp; cbn [promote_due_keys].
  - exists s. split; [reflexivity | by eapply sees_pend].
  - eapply good_bind; [by apply (promote_due_key_sim f s k (ks ++ w) w) |]. intros f1 (s1 & Hr1 & Hp1 & Hs1).
    eapply good_mono; [apply (IH f1 s1); [done | by apply (reach_inv s) | by rewrite Hp1] |].
    intros f2 (s2 & Hr2 & Hs2). exists s2. split; [by etrans | done].
Qed.

(** Times the crawler can reach: hours within the wheel's range. *)
Lemma promoteDue_sim f s now : sees ∅ f s -> inv s -> hour_ok (now / 3600) ->
  good (promoteDue f now) (fun f' => exists s', reach s s' /\ sees ∅ f' s').
Proof.
  intros Hs Hi Hn. unfold promoteDue. destruct (negb _); [by exists s |].
  destruct (se_wheel Hs) as (p & Hw & Hp). destruct (wheel_due_spec _ p _ Hw Hn) as (fd & w' & -> & Hfd & _ & Hw' & _).
  set (p' := filter _ p) in Hw'. apply (promote_due_keys_sim _ _ s p'.*2); [| done |].
  - by apply (sees_wheel _ _ _ _ p').
  - rewrite <- Hp, Hfd, <- fmap_app. apply fmap_Permutation. apply filter_split_perm.
Qed.

(** *** The front bank *)

Lemma promote_aged_sim f s age now : sees ∅ f s -> sees ∅ (promote_aged f age now) s.
Proof.
  revert f. induction age as [| w age IH]; intros f Hs; cbn [promote_aged]; [done |].
  destruct (_ || _); [done |]. destruct (f_records f !! fw_key w) as [r |] eqn:Hr; [| by apply IH].
  destruct (decide (r_Status r = StatusScheduled)); [| by apply IH].
  pose proof (sees_rebucket _ f s (fw_key w) (r_Priority r) f32_one Hs) as Hs1.
  destruct (rebucket _ _ _ _) as [[] ring]; apply IH; [| done].
  destruct (sees_rec_of _ _ _ _ _ Hs Hr) as [_ Hrs]. apply (sees_touch_rec _ _ _ _ r); [done | done |].
  by destruct Hrs; split.
Qed.

Lemma allowed_good f s h k : sees ∅ f s -> good (allowed f h k) (fun _ => True).
Proof.
  intros Hs. unfold allowed. destruct (he_robots h); [| done]. destruct (f_records f !! k) as [r0 |] eqn:Hr; [| done].
  destruct (sees_rec_of _ _ _ _ _ Hs Hr) as [_ Hrs].
  apply (good_bind _ _ (fun _ => True)); [by apply str_good; [apply (rs_url _ _ _ _ Hrs) |] | done].
Qed.

(** A URL taken out of the front bank: its host and its record are there. *)
Lemma front_known s k : inv s -> k ∈ s_front s ->
  is_Some (s_hosts s !! HostKey k) /\ exists x, s_status s !! k = Some x /\ queued x.
Proof.
  intros Hi Hk. split; [by apply (si_host _ _ _ _ Hi) |]. pose proof (si_status _ _ _ _ Hi k) as Hs.
  unfold place_at in Hs. by rewrite place_of_front in Hs.
Qed.

Lemma reach_exclude s k l : s_front s ≡ₚ k :: l -> reach s (set_front (set_status s k StatusExcludedRobots) l).
Proof. intros Hp. apply reach_step; [destruct s; by apply st_exclude | by apply calm_same]. Qed.

Lemma reach_bind s k l m b m' : s_front s ≡ₚ k :: l -> s_hosts s !! HostKey k = Some (m, b) ->
  (if decide (m = Idle) then pool m' else m' = m) ->
  reach s (set_front (set_host s (HostKey k) (m', b ++ [k])) l).
Proof.
  intros Hp Hl Hm. apply reach_step; [destruct s; by apply (st_bind _ _ _ _ _ _ _ k l m) |]. 
  intros hk o b2 Hl2. cbn [set_host set_front s_hosts] in Hl2. apply lookup_insert_Some in Hl2 as [[<- [= -> _]] | [_ Hl2]]; [| eauto].
  case_decide; [by destruct Hm | subst m; eauto].
Qed.

Lemma distribute_loop_sim fuel f s target now : target = Z.max (fc_minActive c) (fc_target c) -> sees ∅ f s -> inv s -> (length (s_front s) < fuel)%nat ->
  good (distribute_loop fuel f target now) (fun f' => exists s', reach s s' /\ sees ∅ f' s').
Proof.
  intros Ht. revert f s. induction fuel as [| fuel IH]; intros f s Hs Hi Hf; [lia |]. cbn [distribute_loop].
  pose proof (pop_holds _ _ (se_front Hs)) as Hpop. destruct (ring_pop (f_urlFront f)) as [[k ring] |]; [| by exists s].
  destruct Hpop as (l & Hl & Hring). destruct (front_known s k Hi) as [[[m b] Hv] (x & Hx & _)]; [by rewrite Hl; left |].
  destruct (sees_host _ _ _ _ _ Hs Hv) as (h & Hh & Hhs). unfold get_host. cbv zeta. rewrite Hh. cbn [mbind res_bind].
  destruct (negb (he_active h) && _) eqn:Etarget; [by exists s |].
  assert (Hs1 : sees ∅ (with_urlFront f ring) (set_front s l)) by by apply sees_front.
  assert (Hlen : (length l < fuel)%nat) by (rewrite Hl in Hf; cbn in Hf; lia).
  apply (good_bind _ _ (fun _ => True)); [by case_bool_decide; [apply (allowed_good _ (set_front s l)) |] |].
  intros ok _. destruct ok; cbn [negb].
  - assert (Hrec : forall f1 s1, reach s s1 -> sees ∅ f1 s1 -> s_front s1 = l ->
      good (distribute_loop fuel f1 target now) (fun f' => exists s', reach s s' /\ sees ∅ f' s')).
    { intros f1 s1 Hr1 Hs2 Hl1. eapply good_mono; [apply (IH f1 s1); [done | by apply (reach_inv s) | by rewrite Hl1] |].
      intros f2 (s2 & Hr2 & Hs3). exists s2. split; [by etrans | done]. }
    pose proof (si_mode _ _ _ _ Hi _ _ _ Hv) as Hmb. rewrite (hs_active _ _ _ _ Hhs). cbn [fst]. case_bool_decide as Hm.
    + eapply Hrec; [apply (reach_bind s k l m b m Hl Hv); by rewrite decide_False | | done].
      apply (sees_put_host ∅ (with_urlFront f ring) (set_front s l) _ m b); [done | done | by left | done |].
      destruct Hhs. cbn [fst snd] in *. split; cbn; [done | done | by rewrite hs_back0 | done | done | done].
    + assert (m = Idle) as -> by (destruct (decide (m = Idle)); tauto). cbn in Hmb. subst b.
      set (h1 := he_set_active _ true).
      assert (Hh1 : host_sees (f_arena f) (HostKey k) h1 (Stuck, [k])).
      { destruct Hhs. cbn [fst snd] in *. split; cbn; [done | done | by rewrite hs_back0 | done | done | naive_solver]. }
      pose proof (sees_activate ∅ (with_urlFront f ring) (set_front s l) (HostKey k) [] [k] h1 Hs1 Hv Hh1) as Hs2.
      rewrite (hs_active _ _ _ _ Hhs) in Etarget. cbn [fst] in Etarget. rewrite bool_decide_eq_false_2 in Etarget by tauto.
      cbn [negb andb] in Etarget. bool_prop. specialize (Hs2 ltac:(cbn; lia)).
      apply (good_bind _ _ (fun f2 => exists m', pool m' /\ sees ∅ f2 (set_host (set_front s l) (HostKey k) (m', [k])))).
      * apply place_sim; [exact Hs2 | by apply lookup_insert_eq | done |]. intros j [= <-]. by exists x.
      * intros f2 (m' & Hm' & Hs3).
        eapply Hrec; [apply (reach_bind s k l Idle [] m' Hl Hv); by rewrite decide_True | exact Hs3 | done].
  - destruct (sees_rec _ _ _ _ _ Hs Hx) as (r & Hr & Hrs). unfold get_rec. cbn [f_records with_urlFront]. rewrite Hr.
    cbn [mbind res_bind]. pose proof (reach_exclude s k l Hl) as Hr1.
    eapply good_mono; [apply (IH _ (set_front (set_status s k StatusExcludedRobots) l)) |].
    + apply (sees_put_rec ∅ (with_urlFront f ring) (set_front s l)); [done | by exists r | by destruct Hrs; split].
    + by apply (reach_inv s).
    + done.
    + intros f2 (s2 & Hr2 & Hs3). exists s2. split; [by etrans | done].
Qed.

Lemma distribute_sim f s now : sees ∅ f s -> inv s ->
  good (distribute f now) (fun f' => exists s', reach s s' /\ sees ∅ f' s').
Proof.
  intros Hs Hi. unfold distribute. set (f1 := if fc_bounded _ then _ else f).
  assert (Hs1 : sees ∅ f1 s).
  { unfold f1. destruct (fc_bounded _); [| done]. cbv zeta. destruct (_ <=? _); [| exact Hs].
    unfold promoteAged. by apply promote_aged_sim. }
  apply distribute_loop_sim; [by rewrite <- (se_conf Hs1) | done | done |]. rewrite (len_holds _ _ (se_front Hs1)). lia.
Qed.

(** ** Dispatch *)

Lemma resolveHost_sim E f s h now : sees E f s -> ref_ok (f_arena f) (h_HostRef (he_rec h)) ->
  good (resolveHost f h now) (fun '(f', h') => sees E f' s /\ f_hosts f' = f_hosts f /\ f_arena f' = f_arena f /\
    f_readyHosts f' = f_readyHosts f /\
    forall a hk v, host_sees a hk h v -> host_sees a hk h' v).
Proof.
  intros Hs Hr. unfold resolveHost. destruct (f_resolver f) as [r |]; [| done]. destruct (_ && _); [done |].
  apply (good_bind _ _ (fun _ => True)); [by apply str_good |]. intros host _.
  destruct (dns_Lookup r host) as [[ip |] r']; cbn; do 4 (split; [done |]); [| done].
  intros a hk v Hv. by destruct Hv; split.
Qed.

Lemma pick_ready_sim fuel f s shard now : sees ∅ f s -> inv s -> bank_len (f_readyHosts f) < Z.of_nat fuel ->
  good (pick_ready fuel f shard now) (fun '(f', picked) => exists s', reach s s' /\
    match picked with
    | None => sees ∅ f' s'
    | Some (hk, h) => exists b, s_hosts s' !! hk = Some (Ready, b) /\ f_hosts f' !! hk = Some h /\
        eligibleNow f' h <= now /\ sees ∅ f' (set_host s' hk (Stuck, b))
    end).
Proof.
  revert f s. induction fuel as [| fuel IH]; intros f s Hs Hi Hf.
  { destruct (se_ready Hs) as (l & Hl & _). rewrite (bank_len_holds _ _ Hl) in Hf. lia. }
  cbn [pick_ready]. destruct (popShard (f_readyHosts f) shard) as [[hk bank] |] eqn:Hp; [| by exists s].
  destruct (sees_pop_ready _ _ _ _ _ _ Hs Hp) as (b & Hl & Hs1).
  assert (Hlen : bank_len bank < Z.of_nat fuel).
  { destruct (se_ready Hs) as (l & Hb & _). pose proof (popShard_holds _ _ shard Hb) as Hb'. rewrite Hp in Hb'.
    destruct Hb' as (l' & Hll & Hb'). rewrite (bank_len_holds _ _ Hb), Hll in Hf. rewrite (bank_len_holds _ _ Hb'). cbn in Hf. lia. }
  destruct (sees_host _ _ _ _ _ Hs Hl) as (h & Hh & Hhs). unfold get_host. rewrite Hh. cbn [mbind res_bind].
  eapply good_bind; [apply (resolveHost_sim _ _ _ h now Hs1), (hs_ref _ _ _ _ Hhs) |].
  intros [f2 h2] (Hs2 & Hf2 & Ha2 & Hb2 & Hmono). cbv zeta.
  assert (Hs3 : sees ∅ (put_host f2 hk h2) (set_host s hk (Stuck, b))).
  { apply (sees_touch_host _ _ _ _ (Stuck, b)); [done | by apply lookup_insert_eq |]. rewrite Ha2.
    apply Hmono. by apply (stuck_pool _ _ _ Ready b); [right |]. }
  destruct (now <? _) eqn:Ee; bool_prop.
  - pose proof (reach_move s hk Ready Waiting b Hl ltac:(by right) ltac:(by left)) as Hr1.
    eapply good_mono; [apply (IH _ (set_host s hk (Waiting, b))) |].
    + rewrite <- (set_host_twice s hk (Stuck, b)). apply sees_push_wait; [done | by apply lookup_insert_eq].
    + by apply (reach_inv s).
    + cbn [f_readyHosts with_wait put_host with_hosts]. by rewrite Hb2.
    + intros [f' picked] (s' & Hr2 & Hq). exists s'. split; [by etrans | done].
  - exists s. split; [reflexivity |]. exists b. split; [done |]. split; [by apply lookup_insert_eq | done].
Qed.

Lemma spend_spec E f s h now : sees E f s ->
  let '(f', h') := spend f h now in
  sees E f' s /\ f_records f' = f_records f /\ f_hosts f' = f_hosts f /\ f_arena f' = f_arena f /\
  (forall a hk v, host_sees a hk h v -> host_sees a hk h' v).
Proof. intros Hs. do 4 (split; [done |]). intros a hk v Hv. by destruct Hv; split. Qed.

(** What the scheduler says of a request just handed out. *)
Definition requested s (q : Request) : Prop :=
  if q_Robots q then q_URLKey q = robotsKey (q_HostKey q) /\ exists b, s_hosts s !! q_HostKey q = Some (Robots, b)
  else s_status s !! q_URLKey q = Some StatusInFlight /\ q_HostKey q = HostKey (q_URLKey q) /\
       exists b, s_hosts s !! q_HostKey q = Some (Busy, q_URLKey q :: b).

Lemma DispatchShard_sim f s now shard : sees ∅ f s -> inv s -> hour_ok (now / 3600) ->
  good (DispatchShard f now shard) (fun '(f', q) => exists s', reach s s' /\ sees ∅ f' s' /\
    match q with Some q => requested s' q | None => True end).
Proof.
  intros Hs Hi Hn. unfold DispatchShard.
  eapply good_bind; [by apply promoteDue_sim |]. intros f1 (s1 & Hr1 & Hs1). pose proof (reach_inv _ _ Hr1 Hi) as Hi1.
  eapply good_bind; [by apply promote_sim |]. intros f2 (s2 & Hr2 & Hs2). pose proof (reach_inv _ _ Hr2 Hi1) as Hi2.
  eapply good_bind; [by apply distribute_sim |]. intros f3 (s3 & Hr3 & Hs3). pose proof (reach_inv _ _ Hr3 Hi2) as Hi3.
  assert (Hr : reach s s3) by (etrans; [exact Hr1 | by etrans]).
  eapply good_bind; [apply (pick_ready_sim _ f3 s3); [done | done |] |].
  { rewrite Nat2Z.inj_succ. destruct (se_ready Hs3) as (l & Hb & _). rewrite (bank_len_holds _ _ Hb). lia. }
  intros [f4 [[hk h] |]] (s4 & Hr4 & Hp); [| exists s4; split; [by etrans | done]].
  destruct Hp as (b & Hl & Hh & _ & Hs4). assert (Hi4 : inv s4) by (by apply (reach_inv s3)).
  assert (Hrs : reach s s4) by (by etrans). clear Hr1 Hr2 Hr3 Hr4 Hr Hi1 Hi2 Hi3 Hs1 Hs2 Hs3.
  pose proof (si_mode _ _ _ _ Hi4 _ _ _ Hl) as Hb.
  assert (Hv : s_hosts (set_host s4 hk (Stuck, b)) !! hk = Some (Stuck, b)) by by apply lookup_insert_eq.
  destruct (sees_host_of _ _ _ _ _ Hs4 Hh) as (v & Hv' & Hhs). rewrite Hv in Hv'. injection Hv' as <-.
  destruct (fc_robotsOn (f_conf f4) && needsRobots h now) eqn:Erob.
  - (* the host's robots.txt first *)
    apply andb_true_iff in Erob as [Erob _]. rewrite (se_conf Hs4) in Erob.
    set (h1 := he_set_inFlight _ true). pose proof (spend_spec ∅ f4 _ h1 now Hs4) as Hsp.
    destruct (spend f4 h1 now) as [f5 h5]. destruct Hsp as (Hs5 & _ & Hf5 & Ha5 & Hmono).
    assert (Hh5 : host_sees (f_arena f5) hk h5 (Robots, b)).
    { rewrite Ha5. apply Hmono. destruct Hhs. cbn [fst snd] in *. by split. }
    assert (Hs6 : sees ∅ (put_host f5 hk h5) (set_host s4 hk (Robots, b))).
    { rewrite <- (set_host_twice s4 hk (Stuck, b)). apply (sees_put_host _ _ _ _ Stuck b); try done. right.
      split; by intros [? | ?]. }
    apply (good_bind _ _ (fun q => q_Robots q = true /\ q_URLKey q = robotsKey hk /\ q_HostKey q = hk)).
    + unfold robotsRequest. rewrite (hs_key _ _ _ _ Hh5).
      apply (good_bind _ _ (fun _ => True)); [by apply str_good; [apply (hs_ref _ _ _ _ Hh5) |] |]. by intros.
    + intros q (Hq1 & Hq2 & Hq3). exists (set_host s4 hk (Robots, b)). split.
      * etrans; [exact Hrs |]. apply reach_step; [destruct s4; by apply st_robots | by apply calm_set_host].
      * split; [done |]. unfold requested. rewrite Hq1, Hq3. split; [done |]. exists b. by apply lookup_insert_eq.
  - (* the URL at the head of the host's queue *)
    rewrite (hs_back _ _ _ _ Hhs). cbn [snd]. destruct b as [| k b]; [done |].
    destruct (held_known s4 hk _ _ k Hi4 Hl) as (x & Hx & Hk); [by left |].
    destruct (sees_rec ∅ f4 (set_host s4 hk (Stuck, k :: b)) k x Hs4 Hx) as (r & Hr & Hrr).
    unfold get_rec. rewrite Hr. cbn [mbind res_bind].
    assert (Hs5 : sees ∅ (put_rec f4 k (set_Status r StatusInFlight))
                    (set_status (set_host s4 hk (Stuck, k :: b)) k StatusInFlight))
      by (apply sees_put_rec; [done | by exists r | by destruct Hrr; split]).
    set (h1 := he_set_inFlight h true). pose proof (spend_spec ∅ _ _ h1 now Hs5) as Hsp.
    destruct (spend _ h1 now) as [f6 h6]. destruct Hsp as (Hs6 & _ & Hf6 & Ha6 & Hmono).
    assert (Hh6 : host_sees (f_arena f6) hk h6 (Busy, k :: b)).
    { rewrite Ha6. apply Hmono. destruct Hhs. cbn [fst snd] in *. split; try done. cbn. naive_solver. }
    set (s7 := set_status (set_host s4 hk (Busy, k :: b)) k StatusInFlight).
    assert (Hs7 : sees ∅ (put_host f6 hk h6) s7).
    { unfold s7. rewrite <- (set_host_twice s4 hk (Stuck, k :: b)).
      apply (sees_put_host ∅ f6 (set_status (set_host s4 hk (Stuck, k :: b)) k StatusInFlight) hk Stuck (k :: b)); try done.
      right. split; by intros [? | ?]. }
    assert (Ha7 : f_arena (put_host f6 hk h6) = f_arena f4) by exact Ha6.
    apply (good_bind _ _ (fun _ => True)).
    { apply str_good; [| done]. rewrite Ha7. apply (rs_url _ _ _ _ Hrr). }
    intros url _. apply (good_bind _ _ (fun _ => True)).
    { apply str_good; [| done]. rewrite Ha7. apply (rs_etag _ _ _ _ Hrr). }
    intros etag _. exists s7. split.
    + etrans; [exact Hrs |]. apply reach_step; [destruct s4; by apply st_dispatch |].
      by apply (calm_set_host s4 hk Busy).
    + split; [exact Hs7 |]. unfold requested. cbn [q_Robots q_URLKey q_HostKey r_URLKey r_HostKey set_Status].
      rewrite (rs_key _ _ _ _ Hrr), (rs_host _ _ _ _ Hrr), Hk. split; [by apply lookup_insert_eq |]. split; [done |].
      exists b. by apply lookup_insert_eq.
Qed.

(** ** Outcomes *)

(** Spreading cash, routing links and canonicalizing a redirect give keys of the key
    space: hashes, or the keys they were given. *)
Class LinkLaws : Prop := {
  distribute_ok p k ds : Forall link_ok ds -> Forall link_ok (prio_Distribute p k ds).2;
  sink_ok sink ds : fc_linkSink c = Some sink -> Forall link_ok ds -> Forall link_ok (sink ds);
  canonical_ok raw base k u : CanonicalKey raw base = Some (k, u) -> key_wf k }.
Context `{!LinkLaws}.

(** The scheduler while the outcome of [k] is being applied on its host. *)
Definition settling s hk k b x : Prop := s_hosts s !! hk = Some (Settling (Some k), b) /\ s_status s !! k = Some x.

Lemma grows_settling s s' hk k b x : grows s s' -> settling s hk k b x -> settling s' hk k b x.
Proof. intros [Hg1 Hg2] [? ?]. split; auto. Qed.

Lemma reach_mark s hk k b x y : settling s hk k b x -> reach s (set_status s k y) /\ settling (set_status s k y) hk k b y.
Proof.
  intros [Hl Hx]. split.
  - apply reach_step; [destruct s; by apply (st_mark _ _ _ _ _ _ _ hk k b) | by apply calm_same].
  - split; [done | by apply lookup_insert_eq].
Qed.

(** Writing a record whose URL is being settled. *)
Lemma mark_rec f s hk k b x r y : sees ∅ f s -> settling s hk k b x -> rec_sees (f_arena f) k r y ->
  exists s', reach s s' /\ settling s' hk k b y /\ sees ∅ (put_rec f k r) s' /\ s' = set_status s k y.
Proof.
  intros Hs Hset Hr. destruct (reach_mark s hk k b x y Hset) as [Hr1 Hset1]. exists (set_status s k y).
  do 2 (split; [done |]). split; [| done]. destruct Hset as [_ Hx]. destruct (sees_rec _ _ _ _ _ Hs Hx) as (r0 & Hr0 & _).
  apply sees_put_rec; [done | by exists r0 | done].
Qed.

Lemma get_rec_good f s k x : sees ∅ f s -> s_status s !! k = Some x ->
  exists r, get_rec f k = Ok r /\ f_records f !! k = Some r /\ rec_sees (f_arena f) k r x.
Proof. intros Hs Hx. destruct (sees_rec _ _ _ _ _ Hs Hx) as (r & Hr & Hrs). exists r. unfold get_rec. by rewrite Hr. Qed.

(** What an outcome can make of a crawled URL. *)
Definition crawled_as (x : URLStatus) : Prop :=
  x = StatusCrawled \/ x = StatusGone \/ (freshOn = true /\ x = StatusDueRecrawl).

Lemma reschedule_sim f fs s hk k b x h now : sees ∅ f s -> settling s hk k b x -> f_fresh f = Some fs ->
  good (reschedule f fs k h now) (fun f' => exists s', reach s s' /\ settling s' hk k b StatusDueRecrawl /\
    freshOn = true /\ sees ∅ f' s').
Proof.
  intros Hs Hset Hfs. destruct (get_rec_good f s k x Hs (proj2 Hset)) as (r & Hr & _ & Hrs).
  assert (Hfr : freshOn = true) by (rewrite <- (se_fresh Hs), Hfs; by apply bool_decide_eq_true).
  unfold reschedule. rewrite Hr. cbn [mbind res_bind]. set (r' := SetNextDue _ _ _ _).
  assert (Hr' : rec_sees (f_arena f) k r' StatusDueRecrawl) by (by destruct Hrs; split).
  destruct (mark_rec f s hk k b x r' _ Hs Hset Hr') as (s' & Hr1 & Hset1 & Hs1 & _). exists s'.
  do 3 (split; [done |]). cbv zeta. cbn [good]. destruct Hs1. by apply mkSees.
Qed.

Lemma spreadCash_sim f s p hk k b x h links now : sees ∅ f s -> settling s hk k b x -> Forall link_ok links ->
  good (spreadCash f p k h links now) (fun f' => exists s', reach s s' /\ settling s' hk k b x /\ sees ∅ f' s').
Proof.
  intros Hs Hset Hl. destruct (get_rec_good f s k x Hs (proj2 Hset)) as (r & Hr & _ & Hrs).
  unfold spreadCash. rewrite Hr. cbn [mbind res_bind].
  assert (Hl1 : Forall link_ok (set_src (r_HostKey r) <$> links)).
  { apply Forall_fmap. eapply Forall_impl; [exact Hl |]. by intros []. }
  pose proof (distribute_ok p (r_URLKey r) _ Hl1) as Hl2. destruct (prio_Distribute _ _ _) as [p1 ds]. cbn [snd] in Hl2.
  set (local := match fc_linkSink _ with Some sink => _ | None => _ end).
  assert (Hl3 : Forall link_ok local).
  { unfold local. cbn [f_conf with_prio]. destruct (fc_linkSink (f_conf f)) as [sink |] eqn:Es; [| done].
    rewrite (se_conf Hs) in Es. by apply (sink_ok sink). }
  eapply good_bind; [by apply (discover_all_sim (with_prio f (Some p1)) s) |].
  intros f2 (s2 & Hr2 & Hg2 & Hs2). pose proof (grows_settling _ _ _ _ _ _ Hg2 Hset) as Hset2.
  destruct (f_prio f2) as [p2 |]; [| by exists s2].
  destruct (sees_rec _ _ _ _ _ Hs2 (proj2 Hset2)) as (r2 & Hrec2 & _).
  eapply good_mono; [apply (reprice_sees f2 s2 p2 k); [done | by exists r2] |]. intros f3 Hs3. by exists s2.
Qed.

Lemma reach_file s hk k b x : settling s hk k b x -> crawled_as x ->
  let s1 := set_host s hk (Settling None, b) in
  reach s (if fc_wheelOn c && bool_decide (x = StatusCrawled) then set_pend s1 (k :: s_pend s) else s1).
Proof.
  intros [Hl Hx] Hc. cbv zeta. apply reach_step.
  - pose proof (st_file (fc_wheelOn c) freshOn (fc_robotsOn c) (s_status s) (s_hosts s) (s_front s) (s_pend s) hk k b x Hl Hx Hc) as Hst.
    destruct s. destruct (_ && _); exact Hst.
  - intros hk2 o b2 Hl2. assert (Hl3 : <[hk := (Settling None, b)]> (s_hosts s) !! hk2 = Some (Settling o, b2))
      by (by destruct (fc_wheelOn c && bool_decide _)).
    apply lookup_insert_Some in Hl3 as [[<- _] | [_ Hl3]]; eauto.
Qed.

(** The record markCrawled has built before the hooks run. *)
Lemma stamp_sees a k r x o : rec_sees a k r x -> hour_ok (u32 (o_FetchedAt o + recrawlGapHours)) ->
  rec_sees a k (crawl_stamp r o) StatusCrawled.
Proof. intros [? ? ? ? ? ?] Hh. unfold crawl_stamp. cbv zeta. destruct (r_FirstSeen _ =? 0); by split. Qed.

Lemma change_sees a k r o gone : rec_sees a k r StatusCrawled ->
  rec_sees a k (crawl_change r o gone) (if gone then StatusGone else StatusCrawled).
Proof.
  intros [? ? ? ? ? ?]. unfold crawl_change. cbv zeta. set (r1 := if gone then _ else r).
  assert (Hr1 : rec_sees a k r1 (if gone then StatusGone else StatusCrawled)) by (unfold r1; destruct gone; by split).
  clearbody r1. destruct Hr1. destruct (r_ContentFP r1 =? 0); [by split |].
  destruct (ClassifyChange _ _ _ _); by split.
Qed.

Lemma file_sim f s hk k b x r : sees ∅ f s -> settling s hk k b x -> crawled_as x -> f_records f !! k = Some r ->
  sees ∅ (if fc_wheelOn (f_conf f) && bool_decide (r_Status r = StatusCrawled)
          then with_wheel f (wheel_add (f_wheel f) (r_URLKey r) (r_NextDue r)) else f)
    (if fc_wheelOn c && bool_decide (x = StatusCrawled) then set_pend s (k :: s_pend s) else s).
Proof.
  intros Hs [_ Hx] Hc Hr. destruct (sees_rec_of _ _ _ _ _ Hs Hr) as [Hst Hrs]. rewrite Hx in Hst. injection Hst as Hst.
  rewrite (se_conf Hs), <- Hst, (rs_key _ _ _ _ Hrs). destruct (fc_wheelOn c); cbn [andb]; [| done].
  case_bool_decide as Ec; [| done]. apply sees_wheel_add; [done |]. apply (rs_due _ _ _ _ Hrs). congruence.
Qed.

(** The host once its URL is filed: the mode alone changes. *)
Lemma settled_host f s hk k b b' h : sees ∅ f s -> s_hosts s !! hk = Some (Settling (Some k), b) ->
  f_hosts f !! hk = Some h -> he_back h = b' -> sees ∅ (put_host f hk h) (set_host s hk (Settling None, b')) ->
  sees ∅ f (set_host s hk (Settling None, b')).
Proof.
  intros Hs Hl Hh Hb Hp. destruct Hp. apply mkSees; try done. cbn [f_hosts put_host with_hosts] in *.
  by rewrite insert_id in se_hosts0.
Qed.

Lemma filed_host f s hk k b : sees ∅ f s -> s_hosts s !! hk = Some (Settling (Some k), b) ->
  sees ∅ f (set_host s hk (Settling None, b)).
Proof.
  intros Hs Hl. destruct (sees_host _ _ _ _ _ Hs Hl) as (h & Hh & Hhs).
  apply (settled_host f s hk k b b h); [done | done | done | apply (hs_back _ _ _ _ Hhs) |].
  apply (sees_put_host _ _ _ _ (Settling (Some k)) b); [done | done | | done |].
  - right. split; by intros [? | ?].
  - destruct Hhs. cbn [fst snd] in *. split; try done. cbn. naive_solver.
Qed.

Lemma markCrawled_sim f s hk k b x h o now : sees ∅ f s -> settling s hk k b x ->
  hour_ok (u32 (o_FetchedAt o + recrawlGapHours)) -> Forall link_ok (o_Links o) ->
  good (markCrawled f k h o now) (fun f' => exists s', reach s s' /\ s_hosts s' !! hk = Some (Settling None, b) /\
    sees ∅ f' s').
Proof.
  intros Hs Hset Hh Hlinks. destruct (get_rec_good f s k x Hs (proj2 Hset)) as (r & Hr & _ & Hrs).
  unfold markCrawled. rewrite Hr. cbn [mbind res_bind].
  (* the record up to the etag *)
  match goal with |- context [if negb (o_NotModified o) && ?q then ?a else ?d] =>
    set (pr := if negb (o_NotModified o) && q then a else d) end.
  assert (Hpr : exists y, sees ∅ pr.1 s /\ f_arena pr.1 = f_arena f /\ crawled_as y /\ rec_sees (f_arena f) k pr.2 y).
  { unfold pr. destruct (negb (o_NotModified o) && _).
    - destruct (soft_Observe _ _ _ _) as [soft gone]. exists (if gone then StatusGone else StatusCrawled).
      split; [exact Hs |]. split; [done |]. split; [destruct gone; [right; by left | by left] |].
      by eapply change_sees, stamp_sees.
    - exists StatusCrawled. do 2 (split; [done |]). split; [by left |]. by eapply stamp_sees. }
  destruct pr as [f1 r1]. cbn [fst snd] in Hpr. destruct Hpr as (y & Hs1 & Ha1 & Hy & Hr1). rewrite <- Ha1 in Hr1.
  set (r2 := if o_NotModified o then _ else r1).
  assert (Hr2 : rec_sees (f_arena f1) k r2 y) by (unfold r2; by destruct (o_NotModified o); destruct Hr1; split).
  apply (good_bind _ _ (fun '(f3, r3) => sees ∅ f3 s /\ rec_sees (f_arena f3) k r3 y)).
  { case_bool_decide; [done |]. eapply good_bind; [apply sees_intern, Hs1 |]. intros [f3 ref] (ext & -> & Ha & Href & Hs3).
    split; [done |]. apply (rec_sees_mono _ ext) in Hr2; [| done]. by destruct Hr2; split. }
  intros [f3 r3] [Hs3 Hr3]. cbv zeta. set (r4 := if o_LastModified o =? 0 then r3 else _).
  assert (Hr4 : rec_sees (f_arena f3) k r4 y) by (unfold r4; by destruct (o_LastModified o =? 0); destruct Hr3; split).
  destruct (mark_rec f3 s hk k b x r4 y Hs3 Hset Hr4) as (s4 & Hre4 & Hset4 & Hs4 & _).
  (* the freshness hook *)
  apply (good_bind _ _ (fun f5 => exists s5 z, reach s s5 /\ settling s5 hk k b z /\ crawled_as z /\ sees ∅ f5 s5)).
  { destruct (f_fresh _) as [fs |] eqn:Efs; [| by exists s4, y].
    eapply good_mono; [by apply (reschedule_sim _ fs s4 hk k b y) |]. intros f5 (s5 & Hre5 & Hset5 & Hfr & Hs5).
    exists s5, StatusDueRecrawl. split; [by etrans |]. split; [done |]. split; [by right; right | done]. }
  intros f5 (s5 & z & Hre5 & Hset5 & Hz & Hs5).
  (* the cash *)
  apply (good_bind _ _ (fun f6 => exists s6, reach s s6 /\ settling s6 hk k b z /\ sees ∅ f6 s6)).
  { destruct (f_prio f5) as [p |]; [| by exists s5]. case_bool_decide; [by exists s5 |].
    eapply good_mono; [by apply (spreadCash_sim f5 s5 p hk k b z) |]. intros f6 (s6 & Hre6 & ? & ?).
    exists s6. split; [by etrans | done]. }
  intros f6 (s6 & Hre6 & Hset6 & Hs6). destruct (get_rec_good f6 s6 k z Hs6 (proj2 Hset6)) as (r6 & Hr6 & Hrec6 & _).
  rewrite Hr6. cbn [mbind res_bind].
  pose proof (file_sim f6 s6 hk k b z r6 Hs6 Hset6 Hz Hrec6) as Hs7. pose proof (reach_file s6 hk k b z Hset6 Hz) as Hre7.
  cbv zeta in Hre7. set (f7 := if fc_wheelOn (f_conf f6) && _ then _ else f6) in Hs7.
  assert (Hf7 : (if fc_wheelOn (f_conf f6) && bool_decide (r_Status r6 = StatusCrawled)
    then Ok (with_wheel f6 (wheel_add (f_wheel f6) (r_URLKey r6) (r_NextDue r6))) else Ok f6) = Ok f7)
    by (unfold f7; by destruct (_ && _)).
  rewrite Hf7. cbn [good].
  exists (set_host (if fc_wheelOn c && bool_decide (z = StatusCrawled) then set_pend s6 (k :: s_pend s6) else s6)
    hk (Settling None, b)). split; [| split; [by apply lookup_insert_eq |]].
  - etrans; [exact Hre6 |]. by destruct (fc_wheelOn c && _).
  - apply (filed_host _ _ _ k); [done |]. destruct (fc_wheelOn c && _); apply Hset6.
Qed.

Lemma reach_retry s hk k b : settling s hk k b StatusScheduled -> reach s (set_host s hk (Settling None, b ++ [k])).
Proof.
  intros [Hl Hx]. apply reach_step; [destruct s; by apply st_retry |]. intros hk2 o b2 Hl2. cbn [set_host s_hosts] in Hl2.
  apply lookup_insert_Some in Hl2 as [[<- _] | [_ Hl2]]; eauto.
Qed.

Lemma failURL_sim f s hk k b x o : sees ∅ f s -> settling s hk k b x ->
  good (failURL f k (Some hk) o) (fun f' => exists s' b', reach s s' /\ s_hosts s' !! hk = Some (Settling None, b') /\
    sees ∅ f' s').
Proof.
  intros Hs Hset. destruct (get_rec_good f s k x Hs (proj2 Hset)) as (r & Hr & _ & Hrs).
  unfold failURL. rewrite Hr. cbn [mbind res_bind]. set (r1 := if r_ErrorCount r <? _ then _ else r).
  set (r2 := if r_RetryCount r1 <? _ then _ else r1).
  assert (Hr2 : rec_sees (f_arena f) k r2 x)
    by (unfold r2, r1; destruct (r_ErrorCount r <? _), (r_RetryCount _ <? _); by destruct Hrs; split).
  destruct ((o_HTTPStatus o =? 410) || _).
  - assert (Hr3 : rec_sees (f_arena f) k (set_Status r2 StatusGone) StatusGone) by (by destruct Hr2; split).
    destruct (mark_rec f s hk k b x _ _ Hs Hset Hr3) as (s1 & Hre1 & Hset1 & Hs1 & _).
    assert (Hg : crawled_as StatusGone) by (right; by left).
    pose proof (reach_file s1 hk k b _ Hset1 Hg) as Hre2. cbv zeta in Hre2. rewrite andb_false_r in Hre2.
    cbn [good]. exists (set_host s1 hk (Settling None, b)), b. split; [by etrans |]. split; [by apply lookup_insert_eq |].
    apply (filed_host _ _ _ k); [done | apply Hset1].
  - set (r3 := set_NextDue _ _). assert (Hr3 : rec_sees (f_arena f) k r3 StatusScheduled) by (by destruct Hr2; split).
    destruct (mark_rec f s hk k b x r3 _ Hs Hset Hr3) as (s1 & Hre1 & Hset1 & Hs1 & _).
    destruct (sees_host _ _ _ _ _ Hs1 (proj1 Hset1)) as (h & Hh & Hhs). unfold get_host. rewrite Hh. cbn [mbind res_bind good].
    exists (set_host s1 hk (Settling None, b ++ [k])), (b ++ [k]).
    split; [etrans; [exact Hre1 | by apply reach_retry] |]. split; [by apply lookup_insert_eq |].
    apply (sees_put_host _ _ _ _ (Settling (Some k)) b); [done | apply Hset1 | right; split; by intros [? | ?] | done |].
    destruct Hhs. cbn [fst snd] in *. split; try done; cbn; [| naive_solver].
    rewrite hs_back0. do 2 f_equal. apply (rs_key _ _ _ _ Hr2).
Qed.

Lemma recordRedirect_sim f s hk k b x o now : sees ∅ f s -> settling s hk k b x ->
  good (recordRedirect f k o now) (fun f' => exists s', reach s s' /\ settling s' hk k b x /\ sees ∅ f' s').
Proof.
  intros Hs Hset. unfold recordRedirect. case_bool_decide; [by exists s |].
  destruct (get_rec_good f s k x Hs (proj2 Hset)) as (r & Hr & _ & Hrs). rewrite Hr. cbn [mbind res_bind].
  apply (good_bind _ _ (fun _ => True)); [by apply str_good; [apply (rs_url _ _ _ _ Hrs) |] |]. intros base _.
  destruct (CanonicalKey _ base) as [[target canon] |] eqn:Ec; [| by exists s].
  eapply good_bind; [apply Discover_sim; [done | exact (canonical_ok _ _ _ _ Ec)] |].
  intros [f2 b2] (s2 & Hre2 & Hg2 & Hs2). pose proof (grows_settling _ _ _ _ _ _ Hg2 Hset) as Hset2.
  destruct (get_rec_good f2 s2 k x Hs2 (proj2 Hset2)) as (r2 & Hr2 & Hrec2 & Hrs2). rewrite Hr2. cbn [mbind res_bind].
  eapply good_bind; [apply sees_intern, Hs2 |]. intros [f3 ref] (ext & -> & Ha & Href & Hs3). cbn [good].
  exists s2. do 2 (split; [done |]). destruct (sees_rec_of _ _ _ _ _ Hs2 Hrec2) as [Hst _].
  apply (sees_touch_rec _ _ _ _ r2); [done | done |]. apply (rec_sees_mono _ ext) in Hrs2; [| done].
  rewrite (rs_status _ _ _ _ Hrs2). by destruct Hrs2; split.
Qed.

Lemma apply_outcome_sim f s hk k b x o now : sees ∅ f s -> settling s hk k b x ->
  hour_ok (u32 (o_FetchedAt o + recrawlGapHours)) -> Forall link_ok (o_Links o) ->
  good (apply_outcome f k (Some hk) o now) (fun f' => exists s' b', reach s s' /\
    s_hosts s' !! hk = Some (Settling None, b') /\ sees ∅ f' s').
Proof.
  intros Hs Hset Hh Hl.
  assert (Hmark : forall f1 s1, reach s s1 -> settling s1 hk k b x -> sees ∅ f1 s1 ->
    good (markCrawled f1 k (Some hk) o now) (fun f' => exists s' b', reach s s' /\
      s_hosts s' !! hk = Some (Settling None, b') /\ sees ∅ f' s')).
  { intros f1 s1 Hre1 Hset1 Hs1. eapply good_mono; [by apply (markCrawled_sim f1 s1 hk k b x) |].
    intros f' (s' & ? & ? & ?). exists s', b. split; [by etrans | done]. }
  unfold apply_outcome. destruct (fc_stateOn _); [| by apply (Hmark f s)].
  destruct (o_NotModified o); [by apply (Hmark f s) |]. destruct (_ || _).
  - eapply good_bind; [by apply (recordRedirect_sim f s hk k b x) |]. intros f1 (s1 & Hre1 & Hset1 & Hs1). by apply (Hmark f1 s1).
  - destruct (_ || _); [by apply (failURL_sim f s hk k b x) | by apply (Hmark f s)].
Qed.

Lemma adapt_sees a cfg hk h o v : host_sees a hk h v -> host_sees a hk (adapt cfg h o) v.
Proof.
  intros Hh. unfold adapt. cbv zeta. destruct Hh. destruct (0 <? o_HTTPStatus o), (isErr _); cbn [andb];
    repeat match goal with |- context [if ?t then _ else _] => destruct t end; by split.
Qed.

Lemma settle_host_sim f s hk b o now : sees ∅ f s -> inv s -> s_hosts s !! hk = Some (Settling None, b) ->
  good (settle_host f hk o now) (fun f' => exists s' m, steps s s' /\ s' = set_host s hk (m, b) /\
    (m = Idle \/ pool m) /\ sees ∅ f' s').
Proof.
  intros Hs Hi Hl. destruct (sees_host _ _ _ _ _ Hs Hl) as (h & Hh & Hhs). unfold settle_host, get_host. rewrite Hh.
  cbn [mbind res_bind]. set (h1 := he_set_inFlight _ false).
  pose proof (adapt_sees _ (fc_pol (f_conf f)) _ _ o _ Hhs) as Ha. cbv zeta.
  assert (Hb : he_back h1 = b) by apply (hs_back _ _ _ _ Ha). rewrite Hb. case_bool_decide as Eb.
  - cbn [good]. exists (set_host s hk (Idle, b)), Idle. split; [| split; [done | split; [by left |]]].
    + apply rtc_once. destruct s. apply (st_settle _ _ _ _ _ _ _ hk b Idle); [done |]. by rewrite decide_True.
    + apply (sees_retire _ f s hk (Settling None) b); [done | done | by intros [? | ?] | done |].
      destruct Ha. cbn [fst snd] in *. split; try done. cbn. naive_solver.
  - assert (Hs1 : sees ∅ (put_host f hk h1) (set_host s hk (Stuck, b))).
    { apply (sees_put_host _ f s hk (Settling None) b); [done | done | right; split; by intros [? | ?] | done |].
      destruct Ha. cbn [fst snd] in *. split; try done. cbn. naive_solver. }
    eapply good_mono; [apply (place_sim _ s hk h1 b now Hs1); [by apply lookup_insert_eq | done |] |].
    + intros k Hk. destruct (held_known s hk _ b k Hi Hl) as (x & Hx & _); [by apply head_Some_elem_of | by exists x].
    + intros f2 (m & Hm & Hs2). exists (set_host s hk (m, b)), m. split; [| split; [done | split; [by right | done]]].
      apply rtc_once. destruct s. apply (st_settle _ _ _ _ _ _ _ hk b m); [done |]. by rewrite decide_False.
Qed.

(** An in-flight URL is the one at the head of its busy host, between calls. *)
Lemma flight_busy s k : inv s -> rest s -> s_status s !! k = Some StatusInFlight ->
  exists b, s_hosts s !! HostKey k = Some (Busy, k :: b).
Proof.
  intros Hi Hr Hx. pose proof (si_status _ _ _ _ Hi k) as Hs. rewrite Hx in Hs. unfold place_at, place_of in Hs.
  case_decide; [by destruct Hs as (? & [= <-] & [? | [? | ?]]) |].
  case_decide; [by destruct Hs as (_ & [? | ?]) |].
  destruct (s_hosts s !! HostKey k) as [[m b] |] eqn:Hl; [| by destruct (Hs _ eq_refl)].
  unfold place_in in Hs. case_decide as Hm; [subst m; by destruct (Hr _ _ _ Hl) |].
  case_decide as Hb; [| case_decide; [by destruct Hs as (? & [= <-] & [? | [? | ?]]) | by destruct (Hs _ eq_refl)]].
  destruct Hb as [-> Hb]. destruct b as [| j b]; [done |]. injection Hb as ->. by exists b.
Qed.

(** Runs that start and end between calls. *)
Definition runs s s' : Prop := steps s s' /\ rest s'.

Lemma report_content_sim f s r o now : sees ∅ f s -> inv s -> rest s ->
  s_status s !! o_URLKey o = Some StatusInFlight -> f_records f !! o_URLKey o = Some r ->
  hour_ok (u32 (o_FetchedAt o + recrawlGapHours)) -> Forall link_ok (o_Links o) ->
  good (report_content f r o now) (fun f' => exists s', runs s s' /\ sees ∅ f' s').
Proof.
  intros Hs Hi Hrest Hx Hr Hh Hl. set (k := o_URLKey o) in *. destruct (flight_busy s k Hi Hrest Hx) as [b Hb].
  destruct (sees_rec_of _ _ _ _ _ Hs Hr) as [Hst Hrs]. rewrite Hx in Hst. injection Hst as Hst. rewrite <- Hst in Hrs.
  destruct (sees_host _ _ _ _ _ Hs Hb) as (h & Hh1 & Hhs).
  unfold report_content. fold k. rewrite (rs_host _ _ _ _ Hrs), Hh1, (hs_back _ _ _ _ Hhs). cbv zeta. cbn [snd head tail].
  rewrite bool_decide_eq_true_2 by done. set (s1 := set_host s (HostKey k) (Settling (Some k), b)).
  set (f1 := put_rec _ k _).
  assert (Hst1 : step s s1) by (destruct s; by apply st_pop).
  assert (Hs1 : sees ∅ f1 s1).
  { apply (sees_touch_rec _ (put_host f (HostKey k) (he_set_back h b)) s1 k r); [| done | by rewrite <- Hst; destruct Hrs; split].
    apply (sees_put_host _ _ _ _ Busy (k :: b)); [done | done | right; split; by intros [? | ?] | done |].
    destruct Hhs. cbn [fst snd] in *. split; try done. cbn. naive_solver. }
  assert (Hset : settling s1 (HostKey k) k b StatusInFlight) by (split; [by apply lookup_insert_eq | done]).
  eapply good_bind; [by apply (apply_outcome_sim f1 s1 (HostKey k) k b StatusInFlight) |].
  intros f2 (s2 & b2 & [Hre2 Hc2] & Hl2 & Hs2).
  assert (Hsteps : steps s s2) by (by eapply rtc_l). assert (Hi2 : inv s2) by (by apply (sched_steps_inv _ _ _ s)).
  eapply good_mono; [by apply (settle_host_sim f2 s2 (HostKey k) b2) |]. intros f3 (s3 & m & Hre3 & -> & Hm & Hs3).
  eexists. split; [split; [by etrans | ] | exact Hs3].
  intros hk2 o2 b3 Hl3. cbn [set_host s_hosts] in Hl3. apply lookup_insert_Some in Hl3 as [[_ [= -> _]] | [Hne Hl3]].
  - destruct Hm as [? | [? | ?]]; done.
  - destruct (Hc2 _ _ _ Hl3) as (o4 & b4 & Hl4). unfold s1 in Hl4. cbn [set_host s_hosts] in Hl4.
    rewrite lookup_insert_ne in Hl4 by done. by apply (Hrest hk2 o4 b4).
Qed.

(** ** Robots *)

Lemma excluded_insert st ks k :
  excluded_from (<[k := StatusExcludedRobots]> st) ks = <[k := StatusExcludedRobots]> (excluded_from st ks).
Proof.
  apply map_eq. intros j. rewrite lookup_excluded. destruct (decide (j = k)) as [-> | Hne].
  - rewrite !lookup_insert_eq. by case_decide.
  - rewrite !lookup_insert_ne, lookup_excluded by done. done.
Qed.

Definition set_excluded s ks : sched := mkSched (excluded_from (s_status s) ks) (s_hosts s) (s_front s) (s_pend s).

Lemma filter_back_sim f h s back : sees ∅ f s -> (forall k, k ∈ back -> is_Some (s_status s !! k)) ->
  good (filter_back f h back) (fun '(f', kept) => exists dropped, back ≡ₚ kept ++ dropped /\
    sees ∅ f' (set_excluded s dropped) /\ f_arena f' = f_arena f).
Proof.
  revert f s. induction back as [| k back IH]; intros f s Hs Hk; cbn [filter_back].
  - exists []. split; [done |]. by destruct s.
  - eapply good_bind; [by apply (allowed_good f s) |]. intros ok _. destruct ok.
    + eapply good_bind; [apply (IH f s); [done | intros j Hj; apply Hk; by right] |].
      intros [f1 kept] (dropped & Hp & Hs1 & Hf1). cbn [good]. exists dropped. split; [cbn; by rewrite Hp | done].
    + destruct (Hk k ltac:(by left)) as [x Hx]. destruct (get_rec_good f s k x Hs Hx) as (r & Hr & Hrec & Hrs).
      rewrite Hr. cbn [mbind res_bind].
      assert (Hs1 : sees ∅ (put_rec f k (set_Status r StatusExcludedRobots)) (set_status s k StatusExcludedRobots))
        by (apply sees_put_rec; [done | by exists r | by destruct Hrs; split]).
      eapply good_mono; [apply (IH _ _ Hs1) |].
      * intros j Hj. cbn. destruct (decide (j = k)) as [-> | Hne]; [rewrite lookup_insert_eq; by eexists |].
        rewrite lookup_insert_ne by done. apply Hk. by right.
      * intros [f1 kept] (dropped & Hp & Hs2 & Hf1). exists (k :: dropped).
        split; [by rewrite Hp, <- Permutation_middle |]. split; [| done].
        unfold set_excluded in *. cbn [set_status s_status s_hosts s_front s_pend] in Hs2.
        by rewrite excluded_insert in Hs2.
Qed.

Lemma robots_outcome_host a f h o now hk v : host_sees a hk h v ->
  let '(_, rec, _) := robots_outcome f h o now in
  h_HostKey rec = hk /\ ref_ok a (h_HostRef rec).
Proof.
  intros [? ? ? ? ? ?]. unfold robots_outcome. destruct (_ && _); cbv zeta; [destruct (_ && _); by split |].
  destruct (_ && _); by split.
Qed.

Lemma applyRobots_sim f s hk h b o now : sees ∅ f s -> inv s -> s_hosts s !! hk = Some (Robots, b) ->
  f_hosts f !! hk = Some h ->
  good (applyRobots f hk h o now) (fun f' => exists s', reach s s' /\ sees ∅ f' s').
Proof.
  intros Hs Hi Hl Hh. destruct (sees_host_of _ _ _ _ _ Hs Hh) as (v & Hv & Hhs). rewrite Hl in Hv. injection Hv as <-.
  unfold applyRobots. pose proof (robots_outcome_host (f_arena f) f h o now hk _ Hhs) as Hpr.
  destruct (robots_outcome f h o now) as [[robots rec] floor]. destruct Hpr as [Hkey Href]. cbv zeta.
  set (h1 := mkEntry _ _ false _ _ _ robots robotsReady _).
  assert (Hback : he_back h1 = b) by apply (hs_back _ _ _ _ Hhs).
  assert (Hknown : forall k, k ∈ b -> is_Some (s_status s !! k)).
  { intros k Hk. destruct (held_known s hk _ b k Hi Hl Hk) as (x & Hx & _). by exists x. }
  apply (good_bind _ _ (fun '(f2, h2) => exists kept dropped, b ≡ₚ kept ++ dropped /\
    sees ∅ f2 (set_excluded s dropped) /\ f_arena f2 = f_arena f /\ h2 = he_set_back h1 kept)).
  { unfold filterRobots. destruct (he_robots h1) as [rules |].
    - rewrite Hback. eapply good_bind; [by apply (filter_back_sim f h1 s b Hs) |].
      intros [f2 kept] (dropped & Hp & Hs2 & Ha2). by exists kept, dropped.
    - exists b, []. split; [by rewrite app_nil_r |]. split; [by destruct s |]. split; [done |]. by rewrite <- Hback. }
  intros [f2 h2] (kept & dropped & Hp & Hs2 & Ha2 & ->).
  set (s3 := set_host (set_excluded s dropped) hk (Stuck, kept)).
  assert (Hs3 : sees ∅ (put_host f2 hk (he_set_back h1 kept)) s3).
  { apply (sees_put_host _ _ _ _ Robots b); [done | done | right; split; by intros [? | ?] | done |].
    rewrite Ha2. destruct Hhs. cbn [fst snd] in *. by split. }
  destruct (decide (kept = [])) as [-> | Hk].
  - exists s3. split; [| done]. apply reach_step.
    + destruct s. apply (st_rules _ _ _ _ _ _ _ hk b [] dropped Stuck); [done | done | by rewrite decide_True].
    + by apply (calm_set_host (set_excluded s dropped)).
  - eapply good_mono; [apply (place_sim _ (set_excluded s dropped) hk _ kept now Hs3); [by apply lookup_insert_eq | done |] |].
    + intros k Hh0. cbn [s_status set_excluded]. rewrite lookup_excluded. case_decide; [by eexists |]. apply Hknown.
      rewrite Hp, elem_of_app. left. by apply head_Some_elem_of.
    + intros f4 (m & Hm & Hs4). eexists. split; [| exact Hs4]. apply reach_step.
      * destruct s. apply (st_rules _ _ _ _ _ _ _ hk b kept dropped m); [done | done | by rewrite decide_False].
      * apply (calm_set_host (set_excluded s dropped)). by destruct Hm as [-> | ->].
Qed.

(** ** Reports *)

(** The outcome answers a request: its URL is in flight, or it is the robots.txt its host
    waits for. *)
Definition answers f (o : Outcome) : Prop :=
  (exists r, f_records f !! o_URLKey o = Some r /\ r_Status r = StatusInFlight) \/
  (o_URLKey o = robotsKey (HostKey (o_URLKey o)) /\
   exists h, f_hosts f !! HostKey (o_URLKey o) = Some h /\ he_robotsState h = robotsPending).

Definition outcome_ok (o : Outcome) : Prop :=
  hour_ok (u32 (o_FetchedAt o + recrawlGapHours)) /\ Forall link_ok (o_Links o).

Lemma Report_sim f s o now : sees ∅ f s -> inv s -> rest s -> answers f o -> outcome_ok o ->
  good (Report f o now) (fun f' => exists s', runs s s' /\ sees ∅ f' s').
Proof.
  intros Hs Hi Hrest Ha [Hh Hl]. unfold Report. set (k := o_URLKey o) in *.
  assert (Hrob : forall h, f_hosts f !! HostKey k = Some h -> he_robotsState h = robotsPending ->
    exists b, s_hosts s !! HostKey k = Some (Robots, b) /\ fc_robotsOn c = true).
  { intros h Hk Hp. destruct (sees_host_of _ _ _ _ _ Hs Hk) as ([m b] & Hv & Hhs).
    assert (m = Robots) as -> by by apply (hs_pending _ _ _ _ Hhs). exists b. split; [done |].
    by destruct (si_mode _ _ _ _ Hi _ _ _ Hv). }
  assert (Happ : forall h, f_hosts f !! HostKey k = Some h -> he_robotsState h = robotsPending ->
    good (applyRobots f (HostKey k) h o now) (fun f' => exists s', runs s s' /\ sees ∅ f' s')).
  { intros h Hk Hp. destruct (Hrob h Hk Hp) as (b & Hb & _).
    eapply good_mono; [by apply (applyRobots_sim f s (HostKey k) h b) |]. intros f' (s' & [Hr Hc] & Hs').
    exists s'. split; [split; [done | by eapply calm_rest] | done]. }
  destruct Ha as [(r & Hr & Hst) | (Hk & h & Hh1 & Hp)]; [fold k in Hr | fold k in Hk, Hh1].
  - destruct (sees_rec_of _ _ _ _ _ Hs Hr) as [Hx _]. rewrite Hst in Hx. rewrite Hr.
    assert (Hc : good (report_content f r o now) (fun f' => exists s', runs s s' /\ sees ∅ f' s'))
      by by apply report_content_sim.
    destruct (fc_robotsOn (f_conf f)); [| exact Hc]. destruct (f_hosts f !! HostKey k) as [h |] eqn:Hh1; [| exact Hc].
    destruct (bool_decide _ && _) eqn:E; [| exact Hc]. apply andb_true_iff in E as [E%bool_decide_eq_true _].
    by apply Happ.
  - destruct (Hrob h Hh1 Hp) as (b & Hb & Hon). rewrite (se_conf Hs), Hon, Hh1. 
    destruct (sees_host_of _ _ _ _ _ Hs Hh1) as (v & Hv & Hhs).
    rewrite (hs_key _ _ _ _ Hhs), bool_decide_eq_true_2, bool_decide_eq_true_2 by done. by apply Happ.
Qed.

(** ** The interface as operations *)

Inductive frontier_op :=
  | OpSeed (url host : list Z) (priority firstSeen nextDue crawlDelay : Z)
  | OpDiscover (d : Discovery) (now : Z)
  | OpWarm (key : URLKey) (etag : list Z) (lastModified prevDigest : Z)
  | OpImportURL (u : URLSignal)
  | OpImportHost (u : HostSignal)
  | OpDispatch (now shard : Z)
  | OpReport (o : Outcome) (now : Z).

Definition frontier_do (f : Frontier) (o : frontier_op) : res (Frontier * option Request) :=
  match o with
  | OpSeed url host p seen due delay => (fun f => (f, None)) <$> Seed f url host p seen due delay
  | OpDiscover d now => (fun r => (r.1, None)) <$> Discover f d now
  | OpWarm key etag lm dg => (fun f => (f, None)) <$> Warm f key etag lm dg
  | OpImportURL u => Ok (ImportURLSignal f u, None)
  | OpImportHost u => Ok (ImportHostSignal f u, None)
  | OpDispatch now shard => DispatchShard f now shard
  | OpReport o now => (fun f => (f, None)) <$> Report f o now
  end.

(** What the caller of an operation promises. *)
Definition op_ok (f : Frontier) (o : frontier_op) : Prop :=
  match o with
  | OpSeed _ _ _ _ due _ => hour_ok due
  | OpDiscover d _ => link_ok d
  | OpDispatch now _ => hour_ok (now / 3600)
  | OpReport o _ => answers f o /\ outcome_ok o
  | _ => True
  end.

Lemma good_fmap {A B} (g : A -> B) (m : res A) Q : good m (fun a => Q (g a)) -> good (g <$> m) Q.
Proof. by destruct m. Qed.

Lemma reach_runs s s' : reach s s' -> rest s -> runs s s'.
Proof. intros [Hs Hc] Hr. split; [done | by eapply calm_rest]. Qed.

Lemma frontier_do_sim `{!XXHashLaws} f s o : sees ∅ f s -> inv s -> rest s -> op_ok f o ->
  good (frontier_do f o) (fun '(f', q) => exists s', runs s s' /\ sees ∅ f' s' /\
    match q with Some q => requested s' q | None => True end).
Proof.
  intros Hs Hi Hr Ho.
  assert (Hsame : runs s s) by by split.
  assert (Hgrow : forall f', (exists s', reach s s' /\ grows s s' /\ sees ∅ f' s') ->
    exists s', runs s s' /\ sees ∅ f' s' /\ True).
  { intros f' (s' & Hre & _ & Hs'). exists s'. split; [by apply reach_runs | done]. }
  destruct o as [url host p seen due delay | d now | key etag lm dg | u | u | now shard | o now]; cbn [frontier_do op_ok] in *.
  - apply good_fmap. eapply good_mono; [by apply Seed_sim |]. apply Hgrow.
  - apply good_fmap. eapply good_mono; [by apply Discover_sim |]. intros [f' b]. apply Hgrow.
  - apply good_fmap. eapply good_mono; [by apply Warm_sim |]. intros f' Hf'. by exists s.
  - exists s. split; [done |]. split; [by apply ImportURLSignal_sim | done].
  - exists s. split; [done |]. split; [by apply ImportHostSignal_sim | done].
  - eapply good_mono; [by apply DispatchShard_sim |]. intros [f' q] (s' & Hre & Hs' & Hq). exists s'.
    split; [by apply reach_runs | done].
  - apply good_fmap. destruct Ho. eapply good_mono; [by apply Report_sim |]. intros f' (s' & ? & ?). by exists s'.
Qed.

End Sim.
