(* ===== verification/World.v ===== *)
(** * A concrete world for the frontier

    Small collaborators to run the frontier on: a polynomial hash for xxhash, no traps, a
    flat priority, a weekly freshness model, a resolver that knows one address, and
    canonicalization of absolute URLs. The witnesses of the frontier's theorems evaluate
    in it. *)

From S2P Require Import Prelude Words Model GoStrings Politeness Robots Admission TrapDetect Frontier FrontierSim.
From Stdlib Require String.
Import String.StringSyntax.
Open Scope Z_scope.

Module Demo.

#[export] Instance demo_hash : XXHash := {| xxh64 s := foldl (fun a b => u64 (a * 31 + b + 7)) 0 s |}.
#[export] Instance demo_unicode : Unicode := {| unicode_lower s := s; unicode_trim s := s |}.
#[export] Instance demo_traps : Traps := {|
  TrapState := unit; NewTrapDetector := tt; trap_Observe _ _ _ _ _ := (tt, false);
  trap_Passes _ _ _ _ := true; trap_Suspect _ _ := false; trap_Violation _ _ _ := PatternNone |}.
#[export] Instance demo_prio : Prio := {|
  PrioState := unit; prio_SeedCash _ _ _ := tt; prio_Credit _ _ := (tt, 0); prio_Distribute _ _ ds := (tt, ds);
  prio_ImportPageRank _ _ _ := tt; prio_Priority _ _ _ := f32_one;
  BaseBudget _ := 100; PerInLink _ := 10; MinBudget _ := 10; MaxBudget _ := 1000 |}.
#[export] Instance demo_fresh : Fresh := {|
  FreshParams := unit; TauController := unit; fresh_Estimate _ r := r_Lambda r; fresh_TargetHours _ _ _ _ := 24;
  fresh_Tick _ _ _ := tt; MinReprobeGap _ := 1; HostSpreadWindow _ := 1 |}.
#[export] Instance demo_resolver : Resolver := {|
  ResolverState := unit; dns_Prefetch _ _ := tt; dns_Lookup _ _ := (Some (replicate 16 1), tt) |}.
#[export] Instance demo_canon : Canon := {|
  CanonicalKey raw _ := Some (MakeURLKey (HostOf raw) (PathOf raw), raw); RegistrableDomain h := h |}.
#[export] Instance demo_sizes : SeenSizes := {| seen_m := 4096; seen_k := 7 |}.

Lemma demo_hash_laws : XXHashLaws.
Proof.
  split. intros s. cbn. destruct s as [| b s _] using rev_ind; [done |].
  rewrite foldl_app. apply u64_fits.
Qed.

Lemma demo_link_laws c : fc_linkSink c = None -> LinkLaws c.
Proof.
  intros Hn. split.
  - intros p k ds Hd. exact Hd.
  - intros sink ds Hs. by rewrite Hn in Hs.
  - intros raw base k u [= <- <-]. split; apply demo_hash_laws.
Qed.

(** A frontier without hooks, with the default policy and one shard, as its options make it. *)
Definition demo_options (target : Z) (robotsOn stateOn wheelOn : bool) : Options :=
  apply_options 1 0 ([WithTarget target] ++ (if robotsOn then [WithRobots (bytes_of "bot")] else [])
    ++ (if stateOn then [WithStateMachine] else []) ++ (if wheelOn then [WithScheduleIndex] else [])).

Definition demo_url (host path : list Z) : list Z := bytes_of "https://" ++ host ++ path.
Definition demo_seed (host path : list Z) : frontier_op := OpSeed (demo_url host path) host f32_one 0 0 10.
Definition demo_key (host path : list Z) : URLKey := mkKey (HostKeyOf host) (PathKeyOf path).

(** The outcome of a fetch: a status, at an hour. *)
Definition demo_outcome (k : URLKey) (status hour : Z) : Outcome :=
  mkOutcome k status hour 100 false 0 0 0 [] 0 [] false 0 0 [] [].

(** The result of a computation that has one. *)
Definition out {A} (d : A) (m : res A) : A := match m with Ok a => a | Err _ => d end.
Definition has {A} (m : res A) : bool := match m with Ok _ => true | Err _ => false end.
Lemma out_ok {A B} (d : A * B) (m : res (A * B)) : has m = true -> m = Ok ((out d m).1, (out d m).2).
Proof. by destruct m as [[? ?] |]. Qed.

End Demo.
