(* ===== verification/FrontierSpec.v ===== *)
(** * What the frontier promises

    Runs of its interface from a new frontier: they refine the scheduler of
    FrontierSched.v, and what that means for the queues, the pools and the statuses of
    the frontier itself. *)

From S2P Require Import Prelude Words Model Updates Arena Heap Ring Wheel SeenSet GoStrings Robots Politeness.
From S2P Require Import Admission File Ops Frontier FrontierSched FrontierSim World.
From Stdlib Require String.
Import String.StringSyntax.
Open Scope Z_scope.

(** ** What a ring and a bank hold *)

Definition ring_items {T} (r : prioRing T) : list T := mjoin (buckets r).

Lemma join_tagged {T} (s : list (Z * T)) n :
  Forall (fun e => 0 <= e.1 < Z.of_nat n) s -> mjoin ((fun i => at_bucket (Z.of_nat i) s) <$> seq 0 n) ≡ₚ s.*2.
Proof.
  revert n. induction s as [| [b x] s IH]; intros n Hs.
  - clear. induction (seq 0 n) as [| i l IH]; [done | exact IH].
  - apply Forall_cons in Hs as [Hb Hs]. cbn in Hb. specialize (IH n Hs). cbn [fmap list_fmap fst snd]. rewrite <- IH.
    assert (Hi : (Z.to_nat b < n)%nat) by lia.
    rewrite <- (take_drop (Z.to_nat b) (seq 0 n)).
    rewrite (drop_S (seq 0 n) (Z.to_nat b) (Z.to_nat b)) by (rewrite lookup_seq_lt; [done | lia]).
    set (l1 := take _ _). set (l2 := drop _ _).
    assert (Hl1 : forall i, i ∈ l1 -> Z.of_nat i <> b).
    { intros i (j & Hj)%list_elem_of_lookup. apply lookup_take_Some in Hj as [Hj Hlt]. apply lookup_seq in Hj. lia. }
    assert (Hl2 : forall i, i ∈ l2 -> Z.of_nat i <> b).
    { intros i (j & Hj)%list_elem_of_lookup. unfold l2 in Hj. rewrite lookup_drop in Hj.
      apply lookup_seq in Hj. lia. }
    assert (Hskip : forall l : list nat, (forall i, i ∈ l -> Z.of_nat i <> b) ->
      (fun i => at_bucket (Z.of_nat i) ((b, x) :: s)) <$> l = (fun i => at_bucket (Z.of_nat i) s) <$> l).
    { intros l Hl. apply list_fmap_ext. intros i j Hj. rewrite at_bucket_cons, decide_False; [done |].
      cbn. intros ->. by apply (Hl j); [eapply list_elem_of_lookup_2 |]. }
    rewrite !fmap_app, !fmap_cons, !Hskip by done. rewrite at_bucket_cons, decide_True by (cbn; lia).
    rewrite !join_app. cbn. symmetry. apply Permutation_middle.
Qed.

Lemma ring_items_perm {T} `{EqDecision T} (r : prioRing T) l : ring_holds r l -> ring_items r ≡ₚ l.
Proof.
  intros (s & Hr & <-). unfold ring_items.
  assert (E : buckets r = (fun i => at_bucket (Z.of_nat i) s) <$> seq 0 64).
  { apply list_eq. intros i. rewrite list_lookup_fmap. destruct (decide (i < 64)%nat) as [Hi | Hi].
    - rewrite lookup_seq_lt by done. cbn. pose proof (rr_buckets _ _ Hr (Z.of_nat i) ltac:(lia)) as Hb.
      unfold bucket in Hb. rewrite Nat2Z.id in Hb. rewrite <- Hb.
      destruct (lookup_lt_is_Some_2 (buckets r) i) as [b Hl]; [rewrite (rr_len _ _ Hr); lia | by rewrite Hl].
    - rewrite lookup_seq_ge by lia. apply lookup_ge_None. rewrite (rr_len _ _ Hr). lia. }
  rewrite E. apply join_tagged. eapply Forall_impl; [apply (rr_range _ _ Hr) |]. done.
Qed.

Definition bank_items (b : readyBank) : list Z := mjoin (ring_items <$> (b : list (prioRing Z))).

Lemma bank_items_perm b l : bank_holds b l -> bank_items b ≡ₚ l.
Proof.
  intros (_ & ls & Hb & <-). unfold bank_items. induction Hb as [| r k b ls Hr _ IH]; [done |].
  cbn. by rewrite IH, (ring_items_perm r k).
Qed.

(** ** Runs of the interface *)

Section Spec.
Context `{XXHash} `{Unicode} `{Traps} `{Prio} `{Fresh} `{Resolver} `{Canon} `{SeenSizes}.

(** The operations in turn, with the requests they hand out. *)
Fixpoint frontier_run (f : Frontier) (os : list frontier_op) : res (Frontier * list (option Request)) :=
  match os with
  | [] => Ok (f, [])
  | o :: os =>
      '(f, q) ← frontier_do f o;
      '(f, qs) ← frontier_run f os;
      Ok (f, q :: qs)
  end.

(** Each operation is one its caller may make in the state it meets. *)
Fixpoint run_ok (f : Frontier) (os : list frontier_op) : Prop :=
  match os with
  | [] => True
  | o :: os => op_ok f o /\ match frontier_do f o with Ok (f, _) => run_ok f os | Err _ => True end
  end.

Definition empty_sched : sched := mkSched ∅ ∅ [] [].
Definition fresh_on (op : Options) : bool := bool_decide (is_Some (op_fresh op)).

Lemma New_sees op : 0 <= seen_m -> hour_ok (fc_created (op_conf op)) ->
  sees (op_conf op) (fresh_on op) ∅ (New op) empty_sched.
Proof.
  intros Hm Hc. apply mkSees; try done; cbn [New f_records f_hosts f_arena f_seen f_urlFront f_readyHosts f_wait f_active f_wheel].
  - intros k. rewrite !lookup_empty. constructor.
  - intros hk. rewrite !lookup_empty. constructor.
  - rewrite dom_empty_L, (left_id_L ∅ (∪)). by apply new_seen_rel.
  - apply empty_holds.
  - exists []. split; [apply newReadyBank_holds |]. split; [constructor |]. intros hk. cbn. split; [by intros ?%not_elem_of_nil |].
    intros [b Hb]. by rewrite lookup_empty in Hb.
  - split; [intros i Hi; cbn in Hi; lia |]. split; [constructor |]. intros hk. cbn. split; [by intros ?%not_elem_of_nil |].
    intros [b Hb]. by rewrite lookup_empty in Hb.
  - lia.
  - exists []. split; [by apply newDueWheel_rel | done].
Qed.

(** What holds of a frontier between two operations. *)
Definition sound (c : FConf) (fr : bool) (f : Frontier) (s : sched) : Prop :=
  sees c fr ∅ f s /\ sinv (fc_wheelOn c) fr (fc_robotsOn c) s /\ rest s.

Lemma sound_new op : 0 <= seen_m -> hour_ok (fc_created (op_conf op)) ->
  sound (op_conf op) (fresh_on op) (New op) empty_sched.
Proof.
  intros. split; [by apply New_sees |]. split; [apply sinv_init |]. intros hk o b Hl. cbn in Hl. by rewrite lookup_empty in Hl.
Qed.

Section Run.
Context (c : FConf) (fr : bool) `{!XXHashLaws} `{!LinkLaws c}.

Lemma sound_step f s o : sound c fr f s -> op_ok f o ->
  good (frontier_do f o) (fun '(f', q) => exists s', runs c fr s s' /\ sound c fr f' s' /\
    match q with Some q => requested s' q | None => True end).
Proof.
  intros (Hs & Hi & Hr) Ho. eapply good_mono; [by apply (frontier_do_sim c fr f s o) |].
  intros [f' q] (s' & [Hst Hr'] & Hs' & Hq). exists s'. split; [done |]. split; [| done]. split; [done |].
  split; [| done]. by eapply sched_steps_inv.
Qed.

(** A run of the scheduler that hands out the requests given. *)
Inductive sched_run : sched -> list (option Request) -> sched -> Prop :=
  | sched_run_nil s : sched_run s [] s
  | sched_run_cons s s1 s2 q qs :
      runs c fr s s1 -> match q with Some q => requested s1 q | None => True end ->
      sched_run s1 qs s2 -> sched_run s (q :: qs) s2.

Lemma sound_run f s os : sound c fr f s -> run_ok f os ->
  good (frontier_run f os) (fun '(f', qs) => exists s', sched_run s qs s' /\ sound c fr f' s').
Proof.
  revert f s. induction os as [| o os IH]; intros f s Hs Ho; cbn [frontier_run].
  - exists s. split; [constructor | done].
  - destruct Ho as [Ho Hos]. pose proof (sound_step f s o Hs Ho) as Hstep.
    destruct (frontier_do f o) as [[f1 q] | e]; [| done]. cbn in Hstep. destruct Hstep as (s1 & Hr1 & Hs1 & Hq).
    cbn [mbind res_bind]. eapply good_bind; [by apply (IH f1 s1) |]. intros [f2 qs] (s2 & Hr2 & Hs2).
    exists s2. split; [by econstructor | done].
Qed.

End Run.

(** ** What it means for the frontier *)

Definition front_urls (f : Frontier) : list URLKey := ring_items (f_urlFront f).
Definition back_urls (f : Frontier) : list URLKey := map_to_list (f_hosts f) ≫= (fun e => he_back e.2).
Definition ready_hosts (f : Frontier) : list Z := bank_items (f_readyHosts f).
Definition wait_hosts (f : Frontier) : list Z := wi_hostKey <$> (f_wait f : list waitItem).
Definition active_hosts (f : Frontier) : Z :=
  Z.of_nat (size (filter (fun e : Z * hostEntry => he_active e.2 = true) (f_hosts f))).

(** [pend] are the URLs the due wheel holds. *)
Record frontier_sound (f : Frontier) (pend : list URLKey) : Prop := {
  fs_once : NoDup (front_urls f ++ pend ++ back_urls f);
  fs_pools : NoDup (wait_hosts f ++ ready_hosts f);
  fs_parked hk : hk ∈ wait_hosts f ++ ready_hosts f -> exists h, f_hosts f !! hk = Some h /\
    he_back h <> [] /\ he_inFlight h = false;
  fs_served hk h : fc_robotsOn (f_conf f) = false -> f_hosts f !! hk = Some h -> he_back h <> [] ->
    he_inFlight h = true \/ hk ∈ wait_hosts f ++ ready_hosts f;
  fs_idle hk h : f_hosts f !! hk = Some h -> he_active h = false -> he_back h = [];
  fs_flight k r : f_records f !! k = Some r -> r_Status r = StatusInFlight ->
    exists h, f_hosts f !! HostKey k = Some h /\ he_inFlight h = true /\ head (he_back h) = Some k;
  fs_queued k r : f_fresh f = None -> f_records f !! k = Some r -> queued (r_Status r) ->
    k ∈ front_urls f \/ k ∈ pend \/ exists h, f_hosts f !! HostKey k = Some h /\ k ∈ he_back h;
  fs_recrawl k r : f_fresh f = None -> fc_wheelOn (f_conf f) = true -> f_records f !! k = Some r ->
    r_Status r = StatusCrawled -> k ∈ pend;
  fs_live k : k ∈ front_urls f ++ pend ++ back_urls f -> exists r, f_records f !! k = Some r /\
    (queued (r_Status r) \/ r_Status r = StatusInFlight \/ (r_Status r = StatusCrawled /\ k ∈ pend));
  fs_active : f_active f = active_hosts f /\ f_active f <= Z.max 0 (effectiveTarget f) }.

(** *** From the scheduler back to the frontier *)

Section Sound.
Context (c : FConf) (fr : bool) (f : Frontier) (s : sched) (Hs : sound c fr f s).

Lemma snd_inv : sinv (fc_wheelOn c) fr (fc_robotsOn c) s.
Proof. apply Hs. Qed.
Lemma snd_conf : f_conf f = c.
Proof. destruct Hs as [[] _]. done. Qed.
Lemma snd_fresh : f_fresh f = None -> fr = false.
Proof. destruct Hs as [[? Hf] _]. intros E. by rewrite <- Hf, E. Qed.
Lemma snd_rec k : option_Forall2 (rec_sees (f_arena f) k) (f_records f !! k) (s_status s !! k).
Proof. destruct Hs as [[] _]. done. Qed.
Lemma snd_host hk : option_Forall2 (host_sees (f_arena f) hk) (f_hosts f !! hk) (s_hosts s !! hk).
Proof. destruct Hs as [[] _]. done. Qed.
Lemma snd_front : front_urls f ≡ₚ s_front s.
Proof. destruct Hs as [[] _]. by apply ring_items_perm. Qed.
Lemma snd_ready : pool_is Ready (s_hosts s) (ready_hosts f).
Proof.
  destruct Hs as [[? ? ? ? ? ? ? (l & Hb & Hp)] _]. unfold ready_hosts. by rewrite (bank_items_perm _ l).
Qed.
Lemma snd_wait : pool_is Waiting (s_hosts s) (wait_hosts f).
Proof. destruct Hs as [[? ? ? ? ? ? ? ? [? Hp]] _]. exact Hp. Qed.

Lemma snd_host_at hk h : f_hosts f !! hk = Some h ->
  exists m b, s_hosts s !! hk = Some (m, b) /\ host_sees (f_arena f) hk h (m, b).
Proof. intros E. pose proof (snd_host hk) as Hh. rewrite E in Hh. inversion Hh as [? [m b] |]; subst. by exists m, b. Qed.
Lemma snd_host_of hk m b : s_hosts s !! hk = Some (m, b) ->
  exists h, f_hosts f !! hk = Some h /\ host_sees (f_arena f) hk h (m, b).
Proof. intros E. pose proof (snd_host hk) as Hh. rewrite E in Hh. inversion Hh as [h |]; subst. by exists h. Qed.
Lemma snd_rec_at k r : f_records f !! k = Some r -> s_status s !! k = Some (r_Status r).
Proof. intros E. pose proof (snd_rec k) as Hr. rewrite E in Hr. inversion Hr as [? x Hx |]; subst. by rewrite (rs_status _ _ _ _ Hx). Qed.
Lemma snd_rec_of k x : s_status s !! k = Some x -> exists r, f_records f !! k = Some r /\ r_Status r = x.
Proof. intros E. pose proof (snd_rec k) as Hr. rewrite E in Hr. inversion Hr as [r ? Hx |]; subst. exists r. by rewrite (rs_status _ _ _ _ Hx). Qed.

Lemma at_rest hk m b : s_hosts s !! hk = Some (m, b) -> limbo m = [].
Proof. intros Hl. destruct m as [| | | | | | o]; try done. by destruct Hs as (_ & _ & Hr), (Hr hk o b). Qed.

Lemma back_urls_hold : back_urls f ≡ₚ hosts_hold (s_hosts s).
Proof.
  assert (E : he_back <$> f_hosts f = snd <$> s_hosts s).
  { apply map_eq. intros hk. rewrite !lookup_fmap. destruct (snd_host hk) as [h v Hv | ]; [| done].
    cbn. by rewrite (hs_back _ _ _ _ Hv). }
  assert (Hb : forall {A} (g : A -> list URLKey) (m : gmap Z A), map_to_list m ≫= (fun e => g e.2) ≡ₚ map_to_list (g <$> m) ≫= snd).
  { intros A g m. rewrite map_to_list_fmap. induction (map_to_list m) as [| [i x] l IH]; [done |]. cbn. by rewrite IH. }
  unfold back_urls. rewrite Hb, E, <- Hb. unfold hosts_hold. apply reflexive_eq.
  assert (Hl : forall e, e ∈ map_to_list (s_hosts s) -> limbo e.2.1 = []).
  { intros [hk [m b]] He%elem_of_map_to_list. by apply (at_rest hk m b). }
  induction (map_to_list (s_hosts s)) as [| e l IH]; [done |]. cbn. rewrite IH by (intros; apply Hl; by right).
  unfold host_holds at 2. by rewrite (Hl e) by by left.
Qed.

Lemma active_hosts_count : active_hosts f = active_count (s_hosts s).
Proof.
  unfold active_hosts, active_count. f_equal. rewrite <- !size_dom. f_equal. apply set_eq. intros hk.
  rewrite !elem_of_dom. split; intros [v Hv]; apply map_lookup_filter_Some in Hv as [Hl Hv].
  - destruct (snd_host_at _ _ Hl) as (m & b & Hm & Hh). exists (m, b). apply map_lookup_filter_Some. split; [done |].
    cbn in *. rewrite (hs_active _ _ _ _ Hh) in Hv. by apply bool_decide_eq_true in Hv.
  - destruct v as [m b]. destruct (snd_host_of _ _ _ Hl) as (h & Hf & Hh). exists h. apply map_lookup_filter_Some.
    split; [done |]. cbn. rewrite (hs_active _ _ _ _ Hh). by apply bool_decide_eq_true.
Qed.

(** Where a URL in a state at rest can be, given what its status rules out. *)
Lemma place_flying k : s_status s !! k = Some StatusInFlight ->
  exists b, s_hosts s !! HostKey k = Some (Busy, b) /\ head b = Some k.
Proof.
  intros Hk. pose proof (si_status _ _ _ _ snd_inv k) as Hst. rewrite Hk in Hst. unfold place_at, place_of in Hst.
  case_decide; [destruct Hst as (x & [= <-] & [? | [? | ?]]); done |].
  case_decide; [by destruct Hst as (_ & [? | ?]) |].
  destruct (s_hosts s !! HostKey k) as [[m b] |] eqn:Hl; [| by destruct (Hst _ eq_refl)].
  unfold place_in in Hst. case_decide as Hm; [subst m; by pose proof (at_rest _ _ _ Hl) |].
  case_decide as Hf; [destruct Hf as [-> Hf]; by exists b |].
  case_decide; [destruct Hst as (x & [= <-] & [? | [? | ?]]); done | by destruct (Hst _ eq_refl)].
Qed.

Lemma place_queued k x : fr = false -> s_status s !! k = Some x -> queued x ->
  k ∈ s_front s \/ k ∈ s_pend s \/ exists m b, s_hosts s !! HostKey k = Some (m, b) /\ k ∈ b.
Proof.
  intros Hfr Hk Hq. pose proof (si_status _ _ _ _ snd_inv k) as Hst. rewrite Hk in Hst. unfold place_at, place_of in Hst.
  case_decide; [by left |]. case_decide; [by right; left |]. right. right.
  destruct (s_hosts s !! HostKey k) as [[m b] |] eqn:Hl; [| by destruct (proj2 (Hst _ eq_refl) Hfr)].
  exists m, b. split; [done |].
  unfold place_in in Hst. case_decide as Hm; [subst m; by pose proof (at_rest _ _ _ Hl) |].
  case_decide as Hf; [by destruct Hf as [_ Hf%head_Some_elem_of] |].
  case_decide; [done | by destruct (proj2 (Hst _ eq_refl) Hfr)].
Qed.

Lemma place_crawled k : fr = false -> fc_wheelOn c = true -> s_status s !! k = Some StatusCrawled -> k ∈ s_pend s.
Proof.
  intros Hfr Hw Hk. pose proof (si_status _ _ _ _ snd_inv k) as Hst. rewrite Hk in Hst. unfold place_at, place_of in Hst.
  case_decide; [destruct Hst as (x & [= <-] & [? | [? | ?]]); done |]. case_decide; [done |].
  destruct (s_hosts s !! HostKey k) as [[m b] |] eqn:Hl; [| by destruct (proj2 (proj2 (Hst _ eq_refl) Hfr) Hw)].
  unfold place_in in Hst. case_decide as Hm; [subst m; by pose proof (at_rest _ _ _ Hl) |].
  case_decide; [done |].
  case_decide; [destruct Hst as (x & [= <-] & [? | [? | ?]]); done | by destruct (proj2 (proj2 (Hst _ eq_refl) Hfr) Hw)].
Qed.

(** The status of a URL the state holds. *)
Lemma held_status k : k ∈ held s -> exists x, s_status s !! k = Some x /\
  (queued x \/ x = StatusInFlight \/ (x = StatusCrawled /\ k ∈ s_pend s)).
Proof.
  intros Hk. pose proof (si_status _ _ _ _ snd_inv k) as Hst. unfold place_at, place_of in Hst.
  case_decide as Hf; [destruct Hst as (x & Hx & Hq); exists x; auto |].
  case_decide as Hp.
  { destruct Hst as (_ & [Hx | Hx]); eexists; split; try done; [left; by left | auto]. }
  assert (Hb : k ∈ hosts_hold (s_hosts s)) by (unfold held in Hk; rewrite !elem_of_app in Hk; by destruct Hk as [[? | ?] | ?]).
  apply elem_of_hosts_hold in Hb as (hk & m & b & Hl & Hb). pose proof (at_rest _ _ _ Hl) as Hm.
  pose proof (si_own _ _ _ _ snd_inv _ _ _ _ Hl Hb) as Ho. subst hk. rewrite Hl in Hst. rewrite Hm in Hb. cbn in Hb.
  unfold place_in in Hst. case_decide as He; [subst m; done |].
  case_decide; [exists StatusInFlight; auto |]. case_decide; [| done]. destruct Hst as (x & Hx & Hq). exists x. auto.
Qed.

Lemma sound_frontier pend : pend ≡ₚ s_pend s -> frontier_sound f pend.
Proof.
  intros Hp. pose proof snd_ready as Hrd. pose proof snd_wait as Hwt.
  assert (Hheld : front_urls f ++ pend ++ back_urls f ≡ₚ held s).
  { unfold held. by rewrite snd_front, Hp, back_urls_hold, <- app_assoc. }
  assert (Hpark : forall hk, hk ∈ wait_hosts f ++ ready_hosts f <-> exists m b, s_hosts s !! hk = Some (m, b) /\ pool m).
  { intros hk. rewrite elem_of_app, (proj2 Hwt), (proj2 Hrd). unfold pool. naive_solver. }
  split.
  - rewrite Hheld. apply (si_once _ _ _ _ snd_inv).
  - apply NoDup_app. split; [apply Hwt |]. split; [| apply Hrd].
    intros hk [b Hb]%(proj2 Hwt) [b' Hb']%(proj2 Hrd). by rewrite Hb in Hb'.
  - intros hk (m & b & Hl & Hm)%Hpark. destruct (snd_host_of _ _ _ Hl) as (h & Hf & Hh). exists h. split; [done |].
    rewrite (hs_back _ _ _ _ Hh), (hs_inFlight _ _ _ _ Hh). pose proof (si_mode _ _ _ _ snd_inv _ _ _ Hl) as Hmo.
    by destruct Hm as [-> | ->].
  - intros hk h Hoff Hf Hne. destruct (snd_host_at _ _ Hf) as (m & b & Hl & Hh).
    rewrite (hs_inFlight _ _ _ _ Hh). rewrite (hs_back _ _ _ _ Hh) in Hne. rewrite snd_conf in Hoff.
    pose proof (si_mode _ _ _ _ snd_inv _ _ _ Hl) as Hmo. rewrite Hoff in Hmo.
    destruct m as [| | | | | | o]; cbn in *; try (by left); try (by destruct Hmo); try done; right; apply Hpark;
      eexists _, _; (split; [done |]); [by left | by right].
  - intros hk h Hf Ha. destruct (snd_host_at _ _ Hf) as (m & b & Hl & Hh).
    rewrite (hs_active _ _ _ _ Hh) in Ha. apply bool_decide_eq_false in Ha. cbn in Ha. apply dec_stable in Ha as ->.
    rewrite (hs_back _ _ _ _ Hh). apply (si_mode _ _ _ _ snd_inv _ _ _ Hl).
  - intros k r Hr Hst. destruct (place_flying k) as (b & Hl & Hb); [by rewrite (snd_rec_at _ _ Hr), Hst |].
    destruct (snd_host_of _ _ _ Hl) as (h & Hf & Hh). exists h. rewrite (hs_back _ _ _ _ Hh), (hs_inFlight _ _ _ _ Hh). done.
  - intros k r Hfr Hr Hq. destruct (place_queued k (r_Status r)) as [Hk | [Hk | (m & b & Hl & Hb)]];
      [by apply snd_fresh | by apply snd_rec_at | done | left; by rewrite snd_front | right; left; by rewrite Hp |].
    right. right. destruct (snd_host_of _ _ _ Hl) as (h & Hf & Hh). exists h. by rewrite (hs_back _ _ _ _ Hh).
  - intros k r Hfr Hw Hr Hst. rewrite Hp. rewrite snd_conf in Hw. apply place_crawled; [by apply snd_fresh | done |].
    by rewrite (snd_rec_at _ _ Hr), Hst.
  - intros k Hk. rewrite Hheld in Hk. destruct (held_status k Hk) as (x & Hx & Hq).
    destruct (snd_rec_of _ _ Hx) as (r & Hr & <-). exists r. rewrite Hp. done.
  - rewrite active_hosts_count. destruct Hs as [[? ? ? ? ? ? ? ? ? Ha Ht ?] _]. split; [done |]. unfold effectiveTarget. by rewrite snd_conf.
Qed.

End Sound.

(** ** The frontier implements the scheduler *)

(** C1: The frontier refines the scheduler. From a new frontier, any sequence of calls to
    Seed, Discover, Warm, the signal imports, DispatchShard and Report whose callers keep
    their side (keys are 64-bit, a report answers a request that is out, times stay below
    the wheel's last day) runs without a panic and every inner loop ends: the only error
    is the arena outgrowing memory. Its calls and the requests they hand out are those of
    a run of the abstract scheduler, each request for the head of a host's queue, or for
    the robots.txt of a host; the state it ends in is the scheduler's, and the
    scheduler's invariant holds there. *)
Theorem frontier_refines_scheduler (op : Options) (os : list frontier_op)
    (HX : XXHashLaws) (HL : LinkLaws (op_conf op)) (Hm : 0 <= seen_m) (Hc : hour_ok (fc_created (op_conf op)))
    (Hos : run_ok (New op) os) :
  match frontier_run (New op) os with
  | Ok (f, qs) => exists s, sched_run (op_conf op) (fresh_on op) empty_sched qs s /\
      sees (op_conf op) (fresh_on op) ∅ f s /\
      sinv (fc_wheelOn (op_conf op)) (fresh_on op) (fc_robotsOn (op_conf op)) s
  | Err e => e = OutOfMemory
  end.
Proof.
  pose proof (sound_run (op_conf op) (fresh_on op) _ _ os (sound_new op Hm Hc) Hos) as Hr.
  destruct (frontier_run (New op) os) as [[f qs] | e]; cbn in Hr; [| by destruct e].
  destruct Hr as (s & Hr & Hs & Hi & _). by exists s.
Qed.

(** C2: Between two calls the frontier keeps its books. No URL is queued twice (in the
    front bank, the due wheel or a back queue); the ready and waiting pools hold distinct
    hosts, each with work and nothing in flight, and without robots.txt every host with
    work is in one of them or has its request out; a URL in flight is the head of its
    host's queue, so a host has at most one; every URL scheduled or due is queued, every
    crawled URL waits in the wheel when it is on (both without the freshness hook), and
    nothing else is queued; the active set is counted right and within its target. *)
Theorem frontier_keeps_its_books (op : Options) (os : list frontier_op) (f : Frontier) (qs : list (option Request))
    (HX : XXHashLaws) (HL : LinkLaws (op_conf op)) (Hm : 0 <= seen_m) (Hc : hour_ok (fc_created (op_conf op)))
    (Hos : run_ok (New op) os) (Hf : frontier_run (New op) os = Ok (f, qs)) :
  exists p, wheel_rel (f_wheel f) p /\ frontier_sound f p.*2.
Proof.
  pose proof (sound_run (op_conf op) (fresh_on op) _ _ os (sound_new op Hm Hc) Hos) as Hr. rewrite Hf in Hr.
  destruct Hr as (s & _ & Hs). destruct Hs as [[? ? ? ? ? ? ? ? ? ? ? (p & Hw & Hp)] Hi] eqn:E. clear E.
  exists p. split; [done |]. by eapply sound_frontier.
Qed.

End Spec.

(** ** Runs in the concrete world *)

Section Decide.
Context `{XXHash} `{Unicode} `{Traps} `{Prio} `{Fresh} `{Resolver} `{Canon} `{SeenSizes}.

#[export] Instance answers_dec f o : Decision (answers f o).
Proof.
  unfold answers. apply or_dec.
  - destruct (f_records f !! o_URLKey o) as [r |]; [| right; by intros (? & ? & _)].
    destruct (decide (r_Status r = StatusInFlight)); [left; eauto | right; by intros (? & [= <-] & ?)].
  - apply and_dec; [apply _ |]. destruct (f_hosts f !! HostKey (o_URLKey o)) as [h |]; [| right; by intros (? & ? & _)].
    destruct (decide (he_robotsState h = robotsPending)); [left; eauto | right; by intros (? & [= <-] & ?)].
Defined.

#[export] Instance op_ok_dec f o : Decision (op_ok f o).
Proof. destruct o; cbn; unfold link_ok, outcome_ok, link_ok, hour_ok, key_wf, fits; apply _. Defined.

#[export] Instance run_ok_dec f os : Decision (run_ok f os).
Proof.
  revert f. induction os as [| o os IH]; intros f; cbn; [left; done |].
  apply and_dec; [apply _ |]. destruct (frontier_do f o) as [[f' q] | e]; [apply IH | left; done].
Defined.

End Decide.

Import Demo.

(** Two pages of one host and one of another; a crawl, a failure and a crawl. *)
Definition demo_run : list frontier_op :=
  let a := bytes_of "a.org" in let b := bytes_of "b.org" in
  [demo_seed a (bytes_of "/1"); demo_seed a (bytes_of "/2"); demo_seed b (bytes_of "/");
   OpDispatch 1000 0; OpDispatch 1000 0; OpDispatch 1000 0;
   OpReport (demo_outcome (demo_key a (bytes_of "/1")) 200 0) 1001;
   OpReport (demo_outcome (demo_key b (bytes_of "/")) 503 0) 1001; OpDispatch 1003 0].

Definition run_requests (r : res (Frontier * list (option Request))) : option (list (option URLKey)) :=
  match r with Ok (_, qs) => Some (option_map q_URLKey <$> qs) | Err _ => None end.

Definition demo_op : Options := demo_options 10 false true true.

Lemma demo_run_ok : run_ok (New demo_op) demo_run.
Proof. apply (bool_decide_unpack (run_ok (New demo_op) demo_run)). vm_compute. exact I. Qed.

Example frontier_refines_scheduler_witness :
  run_requests (frontier_run (New demo_op) demo_run) =
    Some ([None; None; None; Some (demo_key (bytes_of "a.org") (bytes_of "/1"));
           Some (demo_key (bytes_of "b.org") (bytes_of "/")); None; None; None;
           Some (demo_key (bytes_of "a.org") (bytes_of "/2"))]) /\
  match frontier_run (New demo_op) demo_run with
  | Ok (f, qs) => exists s, sched_run (op_conf demo_op) (fresh_on demo_op) empty_sched qs s /\
      sees (op_conf demo_op) (fresh_on demo_op) ∅ f s /\ sinv true (fresh_on demo_op) false s
  | Err e => e = OutOfMemory
  end.
Proof.
  split; [vm_compute; reflexivity |].
  apply (frontier_refines_scheduler demo_op demo_run demo_hash_laws (demo_link_laws (op_conf demo_op) eq_refl)).
  - discriminate.
  - split; [discriminate | reflexivity].
  - exact demo_run_ok.
Defined.

Example frontier_keeps_its_books_witness :
  exists f qs p, frontier_run (New demo_op) demo_run = Ok (f, qs) /\ wheel_rel (f_wheel f) p /\ frontier_sound f p.*2.
Proof.
  destruct (frontier_run (New demo_op) demo_run) as [[f qs] | e] eqn:E; [| exfalso; revert E; vm_compute; discriminate].
  exists f, qs.
  destruct (frontier_keeps_its_books demo_op demo_run f qs demo_hash_laws (demo_link_laws (op_conf demo_op) eq_refl)) as (p & Hw & Hp); [discriminate | split; [discriminate | reflexivity] | exact demo_run_ok | exact E |].
  exists p. split; [reflexivity | by split].
Defined.
