(* ===== verification/FrontierPolite.v ===== *)
(** * The politeness of the frontier

    Only a dispatch moves the clock of a host or of an address, so the promise of
    politeness.go and m3.go holds over whole runs: two requests to one host, or to one
    address, are spaced by the interval in force when the first went out. *)

From S2P Require Import Prelude Words Model Updates Arena Heap Ring Wheel SeenSet GoStrings Robots Politeness.
From S2P Require Import Admission File Ops Frontier FrontierSched FrontierSim World FrontierSpec.
From Stdlib Require String.
Import String.StringSyntax.
Open Scope Z_scope.

(** A property of the result, if there is one. *)
Definition oks {A} (m : res A) (P : A -> Prop) : Prop := match m with Ok a => P a | Err _ => True end.

Lemma oks_bind {A B} (m : res A) (k : A -> res B) P Q : oks m P -> (forall a, P a -> oks (k a) Q) -> oks (m ≫= k) Q.
Proof. destruct m; cbn; auto. Qed.
Lemma oks_mono {A} (m : res A) (P Q : A -> Prop) : oks m P -> (forall a, P a -> Q a) -> oks m Q.
Proof. destruct m; cbn; auto. Qed.
Lemma oks_true {A} (m : res A) : oks m (fun _ => True).
Proof. by destruct m. Qed.

Section Polite.
Context `{XXHash} `{Unicode} `{Traps} `{Prio} `{Fresh} `{Resolver} `{Canon} `{SeenSizes}.
Implicit Types (f : Frontier).

(** ** What the operations keep *)

Definition host_next f (hk : Z) : option Z := (fun h => h_HostNextEligible (he_rec h)) <$> f_hosts f !! hk.

Definition keeps f f' : Prop :=
  f_conf f' = f_conf f /\ f_ips f' = f_ips f /\ forall hk e, host_next f hk = Some e -> host_next f' hk = Some e.

#[local] Instance keeps_preorder : PreOrder keeps.
Proof.
  split; [done |]. intros f1 f2 f3 (Hc & Hi & Hn) (Hc' & Hi' & Hn'). split_and!; [by rewrite Hc' | by rewrite Hi' | auto].
Qed.

Lemma keeps_same f f' : f_conf f' = f_conf f -> f_ips f' = f_ips f -> f_hosts f' = f_hosts f -> keeps f f'.
Proof. intros Hc Hi Hh. split_and!; [done | done |]. unfold host_next. by rewrite Hh. Qed.

Lemma keeps_put f hk h : (forall h0, f_hosts f !! hk = Some h0 ->
  h_HostNextEligible (he_rec h) = h_HostNextEligible (he_rec h0)) -> keeps f (put_host f hk h).
Proof.
  intros Hh. split_and!; [done | done |]. intros hk' e He. unfold host_next in *. cbn [put_host with_hosts f_hosts].
  destruct (decide (hk' = hk)) as [-> |]; [| by rewrite lookup_insert_ne]. rewrite lookup_insert_eq. cbn.
  destruct (f_hosts f !! hk) as [h0 |]; [| done]. by rewrite (Hh h0).
Qed.

Lemma keeps_put' f f1 hk h h0 : keeps f f1 -> f_hosts f1 !! hk = Some h0 ->
  h_HostNextEligible (he_rec h) = h_HostNextEligible (he_rec h0) -> keeps f (put_host f1 hk h).
Proof. intros Hk Hl Hh. rewrite Hk. apply keeps_put. intros h1. rewrite Hl. by intros [= <-]. Qed.

Lemma get_host_oks f hk : oks (get_host f hk) (fun h => f_hosts f !! hk = Some h).
Proof. unfold get_host. by destruct (_ !! _). Qed.

Lemma intern_arena f x : oks (intern f x) (fun '(f', _) => exists a, f' = with_arena f a).
Proof. unfold intern. destruct (arenaIntern _ _) as [a]. unfold ensure. destruct (_ <=? _); cbn; [by exists a | done]. Qed.

Lemma ensureHost_keeps f hk x d : oks (ensureHost f hk x d) (keeps f).
Proof.
  unfold ensureHost. destruct (f_hosts f !! hk) eqn:Hn; [done |].
  eapply oks_bind; [apply intern_arena |]. intros [f1 ref] [a ->].
  destruct (newHost _ _ _ _ _) as [f2 h] eqn:E. cbn.
  assert (Hs : keeps f f2 /\ f_hosts f2 = f_hosts f).
  { revert E. unfold newHost. cbn [with_arena f_importedHostScore f_resolver].
      destruct (f_importedHostScore f !! hk); cbn [with_importedHostScore with_arena f_resolver];
      (destruct (f_resolver f); [case_bool_decide |]); intros [= <- _]; (split; [by apply keeps_same | done]). }
  destruct Hs as [Hk Hh]. rewrite Hk. apply keeps_put. intros h0. by rewrite Hh, Hn.
Qed.

Lemma credit_keeps f p d : keeps f (credit f p d).1.
Proof.
  unfold credit. destruct (prio_Credit p d) as [p' n]. cbn [with_prio f_hosts].
  destruct (f_hosts f !! HostKey (d_URLKey d)) as [h |] eqn:Hl; [| by apply keeps_same].
  cbn [fst]. eapply keeps_put'; [by apply (keeps_same _ (with_prio f (Some p'))) | exact Hl | done].
Qed.

Lemma reprice_keeps f p key h : oks (reprice f p key h) (keeps f).
Proof.
  unfold reprice. eapply oks_bind; [apply oks_true |]. intros r _. by destruct (r_Status _); apply keeps_same.
Qed.

(** ** Intake *)

Lemma frontPush_keeps f key p e : keeps f (frontPush f key p e).
Proof. unfold frontPush. destruct (fc_bounded _); by apply keeps_same. Qed.

Lemma schedule_keeps f key r now e : keeps f (schedule f key r now e).
Proof. unfold schedule. destruct (_ && _); [by apply keeps_same | apply frontPush_keeps]. Qed.

Lemma Discover_keeps f d now : oks (Discover f d now) (fun '(f', _) => keeps f f').
Proof.
  unfold Discover. destruct (Seen (f_seen f) (d_URLKey d)) as [seen dup]. assert (Hk : keeps f (with_seen f seen)) by by apply keeps_same.
  destruct dup.
  - destruct (f_prio _) as [p |]; [| exact Hk]. destruct (f_records _ !! _); [| exact Hk].
    unfold creditDiscovery. pose proof (credit_keeps (with_seen f seen) p d) as Hc. destruct (credit _ _ _) as [f1 p1].
    eapply oks_bind; [apply reprice_keeps |]. intros f2 H2'. cbn. by rewrite Hk, Hc.
  - eapply oks_bind; [apply ensureHost_keeps |]. intros f1 H1'.
    assert (Hc : keeps f1 (match f_prio f1 with Some p => (credit f1 p d).1 | None => f1 end)).
    { destruct (f_prio f1); [apply credit_keeps | done]. }
    set (f2 := match f_prio f1 with Some p => _ | None => _ end) in *. clearbody f2.
    destruct (trap_Observe _ _ _ _ _) as [traps new]. eapply oks_bind; [apply get_host_oks |]. intros h Hh.
    eapply oks_bind; [apply intern_arena |]. intros [f4 ref] [a ->].
    match goal with |- oks (if _ then Ok (frontPush ?g _ _ _, _) else _) _ => assert (Hg : keeps f g) end.
    { eapply keeps_put'; [| exact Hh |].
      - rewrite Hk, H1', Hc. by apply keeps_same.
      - by destruct new. }
    destruct (decide _); cbn; [rewrite Hg; apply frontPush_keeps | exact Hg].
Qed.

Lemma Seed_keeps f url host p seen due delay : oks (Seed f url host p seen due delay) (keeps f).
Proof.
  unfold Seed. destruct (Seen _ _) as [ss dup]. destruct dup; [by apply keeps_same |].
  eapply oks_bind; [apply intern_arena |]. intros [f1 ref] [a ->].
  eapply oks_bind; [apply ensureHost_keeps |]. intros f2 Hk.
  eapply oks_bind; [apply get_host_oks |]. intros h Hh.
  assert (Hg : keeps f (put_host f2 (HostKeyOf host) (he_set_rec h (hset_URLCount (he_rec h) (u32 (h_URLCount (he_rec h) + 1)))))).
  { eapply keeps_put'; [rewrite <- Hk; by apply keeps_same | exact Hh | done]. }
  destruct (f_prio _); cbn [oks]; (etransitivity; [exact Hg |]); [| apply schedule_keeps].
  etransitivity; [| apply schedule_keeps]. by apply keeps_same.
Qed.

Lemma Warm_keeps f key etag lm dg : oks (Warm f key etag lm dg) (keeps f).
Proof.
  unfold Warm. destruct (f_records f !! key) as [r |]; [| done]. destruct (_ <? _); [done |].
  apply (oks_bind _ _ (fun '(f', _) => exists a, f' = with_arena f a)).
  - case_bool_decide; [exists (f_arena f); by destruct f |]. eapply oks_bind; [apply intern_arena |]. by intros [f1 ref].
  - intros [f1 r1] [a ->]. by apply keeps_same.
Qed.

Lemma ImportURLSignal_keeps f u : keeps f (ImportURLSignal f u).
Proof. unfold ImportURLSignal. destruct (f_prio f); [by apply keeps_same | done]. Qed.

Lemma ImportHostSignal_keeps f u : keeps f (ImportHostSignal f u).
Proof.
  unfold ImportHostSignal. destruct (f_hosts f !! hs_HostKey u) eqn:Hl; [| by apply keeps_same].
  by eapply keeps_put'; [| exact Hl |].
Qed.

(** ** Towards dispatch *)

Lemma promote_loop_keeps n f now : oks (promote_loop n f now) (keeps f).
Proof.
  revert f. induction n as [| n IH]; intros f; [done |]. cbn [promote_loop].
  destruct (wait_popMin (f_wait f)) as [[it w] |]; [| done]. destruct (_ <? _); [done |].
  assert (Hk : keeps f (with_wait f w)) by by apply keeps_same.
  assert (Hgo : forall g, keeps f g -> oks (promote_loop n g now) (keeps f)).
  { intros g Hg. eapply oks_mono; [apply IH |]. intros f'. by rewrite Hg. }
  destruct (f_hosts _ !! _) as [h |]; [| by apply Hgo]. destruct (he_back h); [by apply Hgo |].
  destruct (_ <? _); [apply Hgo; by apply keeps_same |]. eapply oks_bind; [apply oks_true |]. intros r _.
  apply Hgo. by apply keeps_same.
Qed.

Lemma promoteDue_keeps f now : oks (promoteDue f now) (keeps f).
Proof.
  assert (Hf : forall f key r, oks (fire_key f now key r) (keeps f)).
  { clear f. intros f key r. unfold fire_key. apply (oks_bind _ _ (keeps f)).
    - destruct (f_hosts _ !! _); [by apply keeps_same |]. eapply oks_bind; [apply oks_true |]. intros url _.
      eapply oks_mono; [apply ensureHost_keeps |]. intros f' Hk. rewrite <- Hk. by apply keeps_same.
    - intros f1 Hk. cbn. rewrite Hk. apply frontPush_keeps. }
  unfold promoteDue. destruct (negb _); [done |]. destruct (wheel_due _ _) as [[keys w] |]; [| done].
  assert (Hk : keeps f (with_wheel f w)) by by apply keeps_same.
  revert Hk. generalize (with_wheel f w) as g. induction keys as [| key keys IH]; intros g Hg; [exact Hg |].
  cbn [promote_due_keys]. apply (oks_bind _ _ (keeps f)); [| intros g1; apply IH].
  unfold promote_due_key. destruct (f_records g !! key) as [r |]; [| exact Hg].
  destruct (r_Status r); try exact Hg; (eapply oks_mono; [apply Hf | by intros g1 <-]).
Qed.

Lemma promote_aged_keeps age f n : keeps f (promote_aged f age n).
Proof.
  revert f. induction age as [| w age IH]; intros f; cbn [promote_aged]; [by apply keeps_same |].
  destruct (_ || _); [by apply keeps_same |]. destruct (f_records f !! _); [| apply IH].
  destruct (decide _); [| apply IH]. destruct (rebucket _ _ _ _) as [[] r]; (etransitivity; [| apply IH]); by apply keeps_same.
Qed.

Lemma place_keeps f h now : oks (place f h now) (keeps f).
Proof.
  unfold place. destruct (he_back h); [done |]. destruct (he_inFlight h); [done |]. destruct (_ <=? _); [| by apply keeps_same].
  eapply oks_bind; [apply oks_true |]. intros r _. by apply keeps_same.
Qed.

Lemma distribute_loop_keeps n f target now : oks (distribute_loop n f target now) (keeps f).
Proof.
  revert f. induction n as [| n IH]; intros f; [done |]. cbn [distribute_loop].
  destruct (ring_pop (f_urlFront f)) as [[key r] |]; [| done].
  eapply oks_bind; [apply get_host_oks |]. intros h Hh. destruct (_ && _); [done |].
  assert (Hgo : forall g, keeps f g -> oks (distribute_loop n g target now) (keeps f)).
  { intros g Hg. eapply oks_mono; [apply IH |]. intros f'. by rewrite Hg. }
  eapply oks_bind; [apply oks_true |]. intros ok _. destruct (negb ok).
  { eapply oks_bind; [apply oks_true |]. intros rec _. apply Hgo. by apply keeps_same. }
  assert (Hr : keeps f (with_urlFront f r)) by by apply keeps_same.
  destruct (he_active h).
  { apply Hgo. by apply (keeps_put' _ _ _ _ h Hr). }
  eapply oks_bind; [apply place_keeps |]. intros g Hg. apply Hgo. rewrite <- Hg.
  etransitivity; [by apply (keeps_put' _ _ (HostKey key) (he_set_active (he_set_back h (he_back h ++ [key])) true) h Hr) |].
  by apply keeps_same.
Qed.

Lemma distribute_keeps f now : oks (distribute f now) (keeps f).
Proof.
  unfold distribute. eapply oks_mono; [apply distribute_loop_keeps |]. intros f' Hk. rewrite <- Hk.
  destruct (fc_bounded _); [| done]. destruct (_ <=? _); [| by apply keeps_same].
  etransitivity; [| apply promote_aged_keeps]. by apply keeps_same.
Qed.

Lemma resolveHost_keeps f h now : oks (resolveHost f h now) (fun '(f', h') =>
  keeps f f' /\ f_hosts f' = f_hosts f /\ h_HostNextEligible (he_rec h') = h_HostNextEligible (he_rec h)).
Proof.
  unfold resolveHost. destruct (f_resolver f) as [r |]; [| done]. destruct (_ && _); [done |].
  eapply oks_bind; [apply oks_true |]. intros host _. destruct (dns_Lookup r host) as [[ip |] r']; (split; [by apply keeps_same | done]).
Qed.

(** The host handed out is one whose clock has come. *)
Lemma pick_ready_keeps n f shard now : oks (pick_ready n f shard now) (fun '(f', p) => keeps f f' /\
  match p with Some (hk, h) => f_hosts f' !! hk = Some h /\ eligibleNow f' h <= now | None => True end).
Proof.
  revert f. induction n as [| n IH]; intros f; [done |]. cbn [pick_ready].
  destruct (popShard _ _) as [[hk b] |]; [| done].
  eapply oks_bind; [apply get_host_oks |]. intros h Hh.
  eapply oks_bind; [apply resolveHost_keeps |]. intros [f1 h1] (Hk & Hhs & Hn).
  assert (Hg : keeps f (put_host f1 hk h1)).
  { eapply keeps_put'; [rewrite <- Hk; by apply keeps_same | rewrite Hhs; exact Hh | done]. }
  destruct (now <? _) eqn:E; bool_prop.
  - eapply oks_mono; [apply IH |]. intros [f2 p] [Hk2 Hp]. split; [| exact Hp]. rewrite <- Hk2, Hg. by apply keeps_same.
  - cbn [oks]. split; [exact Hg |]. split; [apply lookup_insert_eq | exact E].
Qed.

(** *** Outcomes *)

Lemma discover_all_keeps ds f now : oks (discover_all f ds now) (keeps f).
Proof.
  revert f. induction ds as [| d ds IH]; intros f; [done |]. cbn [discover_all].
  eapply oks_bind; [apply Discover_keeps |]. intros [f1 b] Hk. eapply oks_mono; [apply IH |]. intros f'. by rewrite Hk.
Qed.

Lemma spreadCash_keeps f p key h links now : oks (spreadCash f p key h links now) (keeps f).
Proof.
  unfold spreadCash. eapply oks_bind; [apply oks_true |]. intros r _. destruct (prio_Distribute _ _ _) as [p' ls].
  eapply oks_bind; [apply discover_all_keeps |]. intros f1 Hk.
  assert (Hk1 : keeps f f1) by (rewrite <- Hk; by apply keeps_same).
  destruct (f_prio f1); [| exact Hk1]. eapply oks_mono; [apply reprice_keeps |]. intros f2. by rewrite Hk1.
Qed.

Lemma reschedule_keeps f fs key h now : oks (reschedule f fs key h now) (keeps f).
Proof. unfold reschedule. eapply oks_bind; [apply oks_true |]. intros r _. by apply keeps_same. Qed.

Lemma markCrawled_keeps f key h o now : oks (markCrawled f key h o now) (keeps f).
Proof.
  unfold markCrawled. eapply oks_bind; [apply oks_true |]. intros r _.
  destruct (if negb _ && _ then _ else _) as [f1 r1] eqn:E1.
  assert (Hk1 : keeps f f1).
  { revert E1. destruct (negb _ && _); [destruct (soft_Observe _ _ _ _) |]; intros [= <- _]; by apply keeps_same. }
  apply (oks_bind _ _ (fun '(f2, _) => keeps f f2)).
  { case_bool_decide; [exact Hk1 |]. eapply oks_bind; [apply intern_arena |]. intros [f2 ref] [a ->]. cbn.
    rewrite Hk1. by apply keeps_same. }
  intros [f2 r2] Hk2. match goal with |- oks (match f_fresh ?g with _ => _ end ≫= _) _ => assert (Hk3 : keeps f g) end.
  { rewrite Hk2. by apply keeps_same. }
  apply (oks_bind _ _ (keeps f)).
  { destruct (f_fresh _); [| exact Hk3]. eapply oks_mono; [apply reschedule_keeps |]. intros f4. by rewrite Hk3. }
  intros f4 Hk4. apply (oks_bind _ _ (keeps f)).
  { destruct (f_prio f4); [| exact Hk4]. case_bool_decide; [exact Hk4 |].
    eapply oks_mono; [apply spreadCash_keeps |]. intros f5. by rewrite Hk4. }
  intros f5 Hk5. eapply oks_bind; [apply oks_true |]. intros r5 _. destruct (fc_wheelOn _ && _); cbn [oks]; rewrite Hk5; [by apply keeps_same | done].
Qed.

Lemma failURL_keeps f key h o : oks (failURL f key h o) (keeps f).
Proof.
  unfold failURL. eapply oks_bind; [apply oks_true |]. intros r _. destruct (_ || _); [by apply keeps_same |].
  destruct h as [hk |]; [| by apply keeps_same]. eapply oks_bind; [apply get_host_oks |]. intros h Hh.
  eapply keeps_put'; [| exact Hh | done]. by apply keeps_same.
Qed.

Lemma recordRedirect_keeps f key o now : oks (recordRedirect f key o now) (keeps f).
Proof.
  unfold recordRedirect. case_bool_decide; [done |].
  eapply oks_bind; [apply oks_true |]. intros r _. eapply oks_bind; [apply oks_true |]. intros base _.
  destruct (CanonicalKey _ _) as [[target canon] |]; [| done].
  eapply oks_bind; [apply Discover_keeps |]. intros [f1 b] Hk.
  eapply oks_bind; [apply oks_true |]. intros r1 _. eapply oks_bind; [apply intern_arena |]. intros [f2 ref] [a ->].
  cbn. rewrite Hk. by apply keeps_same.
Qed.

Lemma apply_outcome_keeps f key h o now : oks (apply_outcome f key h o now) (keeps f).
Proof.
  unfold apply_outcome. pose proof (fun f => markCrawled_keeps f key h o now) as Hm.
  destruct (fc_stateOn _); [| apply Hm]. destruct (o_NotModified o); [apply Hm |]. destruct (bool_decide _ || _).
  - eapply oks_bind; [apply recordRedirect_keeps |]. intros f1 Hk. eapply oks_mono; [apply Hm |]. intros f2. by rewrite Hk.
  - destruct (_ || _); [apply failURL_keeps | apply Hm].
Qed.

Lemma adapt_keeps c h o : h_HostNextEligible (he_rec (adapt c h o)) = h_HostNextEligible (he_rec h).
Proof.
  unfold adapt. destruct (if AtCeiling _ _ && _ then _ else _) as [streak rec] eqn:E. cbn [he_rec].
  revert E. repeat case_match; intros [= <- <-]; done.
Qed.

Lemma settle_host_keeps f hk o now : oks (settle_host f hk o now) (keeps f).
Proof.
  unfold settle_host. eapply oks_bind; [apply get_host_oks |]. intros h Hh. pose proof (adapt_keeps (fc_pol (f_conf f)) h o) as Ha.
  case_bool_decide; cbn [oks].
  - etransitivity; [| by apply keeps_same]. by apply (keeps_put' _ _ _ (he_set_active (he_set_inFlight (adapt (fc_pol (f_conf f)) h o) false) false) h (reflexivity f)).
  - eapply oks_mono; [apply place_keeps |]. intros f1 <-. by apply (keeps_put' f f hk _ h).
Qed.

Lemma report_content_keeps f r o now : oks (report_content f r o now) (keeps f).
Proof.
  unfold report_content. set (g := match f_hosts f !! r_HostKey r with Some h => _ | None => f end).
  assert (Hg : keeps f g).
  { unfold g. destruct (f_hosts f !! r_HostKey r) eqn:Hl; [| done]. case_bool_decide; [| done]. by eapply keeps_put'. }
  clearbody g. eapply oks_bind; [apply apply_outcome_keeps |]. intros f1 H1'.
  assert (Hk : keeps f f1) by (rewrite Hg, <- H1'; by apply keeps_same).
  destruct (match f_hosts f !! r_HostKey r with Some _ => Some _ | None => None end); [| exact Hk].
  eapply oks_mono; [apply settle_host_keeps |]. intros f2. by rewrite Hk.
Qed.

Lemma filter_back_keeps back f h : oks (filter_back f h back) (fun '(f', _) => keeps f f' /\ f_hosts f' = f_hosts f).
Proof.
  revert f. induction back as [| k back IH]; intros f; [done |]. cbn [filter_back].
  eapply oks_bind; [apply oks_true |]. intros [] _.
  - eapply oks_bind; [apply IH |]. by intros [f1 kept].
  - eapply oks_bind; [apply oks_true |]. intros r _. eapply oks_mono; [apply IH |]. intros [f1 kept] [Hk Hh].
    split; [| exact Hh]. rewrite <- Hk. by apply keeps_same.
Qed.

Lemma applyRobots_keeps f hk h o now : f_hosts f !! hk = Some h -> oks (applyRobots f hk h o now) (keeps f).
Proof.
  intros Hh. unfold applyRobots. destruct (robots_outcome f h o now) as [[robots rec] floor] eqn:E.
  assert (Hn : h_HostNextEligible rec = h_HostNextEligible (he_rec h)).
  { revert E. unfold robots_outcome. destruct (_ && _); [destruct (_ && _) | destruct (_ && _)]; by intros [= <- <- <-]. }
  apply (oks_bind _ _ (fun '(f1, h1) => keeps f f1 /\ f_hosts f1 = f_hosts f /\
    h_HostNextEligible (he_rec h1) = h_HostNextEligible (he_rec h))).
  - unfold filterRobots. cbn [he_robots]. destruct robots; [| done].
    eapply oks_bind; [apply filter_back_keeps |]. by intros [f1 kept] [Hk Hf].
  - intros [f1 h1] (Hk & Hf & Hn1). eapply oks_mono; [apply place_keeps |]. intros f2 <-.
    eapply keeps_put'; [exact Hk | by rewrite Hf | done].
Qed.

Lemma Report_keeps f o now : oks (Report f o now) (keeps f).
Proof.
  unfold Report. set (content := match f_records f !! o_URLKey o with Some _ => _ | None => _ end).
  assert (Hc : oks content (keeps f)) by (unfold content; destruct (f_records f !! _); [apply report_content_keeps | done]).
  destruct (fc_robotsOn _); [| exact Hc]. destruct (f_hosts f !! _) as [h |] eqn:Hh; [| exact Hc].
  destruct (_ && _); [by apply applyRobots_keeps | exact Hc].
Qed.

(** ** What a dispatch spends *)

Definition interval_of f (h : hostEntry) : Z := HostInterval (fc_pol (f_conf f)) (he_effective h) (he_crawlFloor h).

(** The state [f] from which a request is taken: of host [hk], whose entry it leaves as [h]. *)
Record spends f (hk : Z) f' (q : Request) (h : hostEntry) (now : Z) : Prop := {
  sp_due : exists h0, f_hosts f !! hk = Some h0 /\ eligibleNow f h0 <= now /\
    h_ResolvedIP (he_rec h0) = h_ResolvedIP (he_rec h);
  sp_conf : f_conf f' = f_conf f;
  sp_hosts : f_hosts f' = <[hk := h]> (f_hosts f);
  sp_ips : f_ips f' = Spend (f_ips f) (h_ResolvedIP (he_rec h)) now (interval_of f h);
  sp_next : h_HostNextEligible (he_rec h) = u32 (now + durSecs (interval_of f h));
  sp_ip : q_ResolvedIP q = h_ResolvedIP (he_rec h);
  sp_key : q_HostKey q = h_HostKey (he_rec h) \/
    exists k r, head (he_back h) = Some k /\ f_records f' !! k = Some r /\ q_HostKey q = r_HostKey r }.

Lemma DispatchShard_spends f now shard : oks (DispatchShard f now shard) (fun '(f', q) =>
  match q with Some q => exists f0 hk h, keeps f f0 /\ spends f0 hk f' q h now | None => keeps f f' end).
Proof.
  unfold DispatchShard. eapply oks_bind; [apply promoteDue_keeps |]. intros f1 H1'.
  eapply oks_bind; [apply promote_loop_keeps |]. intros f2 H2'. eapply oks_bind; [apply distribute_keeps |]. intros f3 H3'.
  eapply oks_bind; [apply pick_ready_keeps |]. intros [f4 p] [H4' Hp].
  assert (Hk : keeps f f4) by by rewrite H1', H2', H3'. destruct p as [[hk h] |]; [| exact Hk]. destruct Hp as [Hh He].
  destruct (_ && _).
  - cbn [spend]. apply (oks_bind _ _ (fun q => q_ResolvedIP q = h_ResolvedIP (he_rec h) /\ q_HostKey q = h_HostKey (he_rec h))).
    + unfold robotsRequest. eapply oks_bind; [apply oks_true |]. by intros host _.
    + intros q [Hq1 Hq2]. exists f4, hk, (spend f4 (he_set_inFlight (he_set_robotsState h robotsPending) true) now).2. split; [exact Hk |].
      split; [by exists h | done | done | done | done | exact Hq1 | left; exact Hq2].
  - destruct (he_back h) as [| key back] eqn:Hb; [done |].
    unfold get_rec. destruct (f_records f4 !! key) as [r |]; [| done]. cbn [mbind res_bind spend].
    eapply oks_bind; [apply oks_true |]. intros url _. eapply oks_bind; [apply oks_true |]. intros etag _.
    exists f4, hk, (spend f4 (he_set_inFlight h true) now).2. split; [exact Hk |]. split; try done; [by exists h |].
    right. exists key, (set_Status r StatusInFlight). split; [by cbn; rewrite Hb |]. split; [apply lookup_insert_eq | done].
Qed.

Lemma frontier_do_spends f o : oks (frontier_do f o) (fun '(f', q) =>
  match q with Some q => exists f0 hk h now, keeps f f0 /\ spends f0 hk f' q h now | None => keeps f f' end).
Proof.
  assert (Hf : forall (m : res Frontier), oks m (keeps f) -> oks ((fun f' => (f', @None Request)) <$> m) (fun '(f', q) =>
    match q with Some q => exists f0 hk h now, keeps f f0 /\ spends f0 hk f' q h now | None => keeps f f' end)) by by intros [].
  destruct o; cbn [frontier_do].
  - apply Hf, Seed_keeps.
  - pose proof (Discover_keeps f d now) as Hk. by destruct (Discover f d now) as [[f' b] |].
  - apply Hf, Warm_keeps.
  - apply ImportURLSignal_keeps.
  - apply ImportHostSignal_keeps.
  - eapply oks_mono; [apply DispatchShard_spends |]. intros [f' [q |]]; [| done]. intros (f0 & hk & h & Hs). by exists f0, hk, h, now.
  - apply Hf, Report_keeps.
Qed.

(** ** Between two requests *)

Lemma EligibleAt_Spend_ne t ip now interval ip' : ip' <> ip -> EligibleAt (Spend t ip now interval) ip' = EligibleAt t ip'.
Proof.
  intros Hne. unfold Spend. destruct (decide (ip = zeroIP)); [done |]. unfold EligibleAt. cbn [it_buckets].
  by rewrite lookup_insert_ne.
Qed.
Lemma Spend_floor t ip now interval : it_floor (Spend t ip now interval) = it_floor t.
Proof. unfold Spend. by destruct (decide _). Qed.

(** The request names the host it was taken from. *)
Lemma spends_host c fr f0 hk f' q h now s : sound c fr f' s -> spends f0 hk f' q h now ->
  f_hosts f' !! hk = Some h /\ q_HostKey q = hk.
Proof.
  intros Hs Hp. assert (Hl : f_hosts f' !! hk = Some h) by (rewrite (sp_hosts _ _ _ _ _ _ Hp); apply lookup_insert_eq).
  split; [exact Hl |]. destruct (snd_host_at _ _ _ _ Hs _ _ Hl) as (m & b & Hb & Hh).
  destruct (sp_key _ _ _ _ _ _ Hp) as [-> | (k & r & Hk & Hr & ->)]; [by apply (hs_key _ _ _ _ Hh) |].
  pose proof (snd_rec _ _ _ _ Hs k) as Hrec. rewrite Hr in Hrec. inversion Hrec as [? x Hx |]; subst.
  rewrite (rs_host _ _ _ _ Hx). apply (si_own _ _ _ _ (snd_inv _ _ _ _ Hs) _ _ _ _ Hb).
  apply elem_of_app. right. rewrite (hs_back _ _ _ _ Hh) in Hk. by apply head_Some_elem_of.
Qed.

(** The clocks of a host and of an address over a stretch without requests to them. *)
Definition quiet (P : Request -> Prop) (qs : list (option Request)) : Prop :=
  Forall (fun q => match q with Some q => ~ P q | None => True end) qs.

Record unspent f f' (qs : list (option Request)) : Prop := {
  un_conf : f_conf f' = f_conf f;
  un_floor : it_floor (f_ips f') = it_floor (f_ips f);
  un_host hk e : host_next f hk = Some e -> quiet (fun q => q_HostKey q = hk) qs -> host_next f' hk = Some e;
  un_ip ip : quiet (fun q => q_ResolvedIP q = ip) qs -> EligibleAt (f_ips f') ip = EligibleAt (f_ips f) ip }.

Lemma unspent_do c fr f f' q o s : sound c fr f' s -> frontier_do f o = Ok (f', q) -> unspent f f' [q].
Proof.
  intros Hs Ho. pose proof (frontier_do_spends f o) as Hd. rewrite Ho in Hd. cbn in Hd.
  destruct q as [q |]; [| destruct Hd as (Hc & Hi & Hn); split; [done | by rewrite Hi | auto | by rewrite Hi]].
  destruct Hd as (f0 & hk & h & now & (Hc & Hi & Hn) & Hp). destruct (spends_host _ _ _ _ _ _ _ _ _ Hs Hp) as [_ Hk].
  destruct Hp as [_ Hpc Hph Hpi _ Hip _]. split.
  - by rewrite Hpc.
  - by rewrite Hpi, Spend_floor, Hi.
  - intros hk' e He Hq. apply Forall_inv in Hq. unfold host_next. rewrite Hph, lookup_insert_ne by congruence. by apply Hn.
  - intros ip Hq. apply Forall_inv in Hq. rewrite Hpi, EligibleAt_Spend_ne by congruence. by rewrite Hi.
Qed.

Section Run.
Context (c : FConf) (fr : bool) `{!XXHashLaws} `{!LinkLaws c}.

Lemma unspent_run f s os f' qs : sound c fr f s -> run_ok f os -> frontier_run f os = Ok (f', qs) -> unspent f f' qs.
Proof.
  revert f s qs. induction os as [| o os IH]; intros f s qs Hs Ho; cbn [frontier_run]; [intros [= <- <-]; by split |].
  destruct Ho as [Ho Hos]. pose proof (sound_step c fr f s o Hs Ho) as Hstep.
  destruct (frontier_do f o) as [[f1 q] |] eqn:E1; [| done]. destruct Hstep as (s1 & _ & Hs1 & _). cbn [mbind res_bind].
  destruct (frontier_run f1 os) as [[f2 qs2] |] eqn:E2; [| done]. cbn. intros [= <- <-].
  destruct (unspent_do _ _ _ _ _ _ _ Hs1 E1) as [Hc Hf Hh Hi]. destruct (IH f1 s1 qs2 Hs1 Hos E2) as [Hc2 Hf2 Hh2 Hi2].
  split.
  - by rewrite Hc2.
  - by rewrite Hf2.
  - intros hk e He [Hq Hqs]%Forall_cons. apply Hh2; [| done]. apply Hh; [done | by constructor].
  - intros ip [Hq Hqs]%Forall_cons. rewrite Hi2 by done. apply Hi. by constructor.
Qed.

(** The clocks a request leaves. *)
Lemma dispatch_clocks f s now shard f' q : sound c fr f s -> hour_ok (now / 3600) ->
  DispatchShard f now shard = Ok (f', Some q) ->
  exists h, f_hosts f' !! q_HostKey q = Some h /\ h_ResolvedIP (he_rec h) = q_ResolvedIP q /\
    host_next f' (q_HostKey q) = Some (u32 (now + durSecs (interval_of f' h))) /\
    (0 <= now -> let secs := Z.max (Z.quot (Z.max (interval_of f' h) (it_floor (f_ips f))) Second) 1 in
      q_ResolvedIP q <> zeroIP -> now + secs < 2 ^ 32 -> EligibleAt (f_ips f') (q_ResolvedIP q) = now + secs).
Proof.
  intros Hs Hn Hd. pose proof (sound_step c fr f s (OpDispatch now shard) Hs Hn) as Hstep. cbn [frontier_do] in Hstep.
  rewrite Hd in Hstep. destruct Hstep as (s' & _ & Hs' & _).
  pose proof (DispatchShard_spends f now shard) as Hp. rewrite Hd in Hp. destruct Hp as (f0 & hk & h & (Hc & Hi & _) & Hp).
  destruct (spends_host _ _ _ _ _ _ _ _ _ Hs' Hp) as [Hl ->]. destruct Hp as [_ Hpc _ Hpi Hpn Hip _].
  exists h. split; [done |]. split; [done |]. unfold interval_of in *. rewrite Hpc. split.
  - unfold host_next. rewrite Hl. cbn. by rewrite Hpn.
  - intros H0' Hip0. set (secs := Z.max (Z.quot _ _) 1). intros Hlt. rewrite Hpi, Hi, <- Hip. unfold Spend, EligibleAt.
    rewrite !(decide_False (P := q_ResolvedIP q = zeroIP)) by done. cbn [it_buckets]. rewrite lookup_insert_eq. cbn [ib_nextEligible].
    fold secs. apply i64_small. unfold secs in *. lia.
Qed.

(** A request goes out only when both clocks have come. *)
Lemma dispatch_due f s now shard f' q : sound c fr f s -> hour_ok (now / 3600) ->
  DispatchShard f now shard = Ok (f', Some q) ->
  (forall e, host_next f (q_HostKey q) = Some e -> e <= now) /\ u32 (EligibleAt (f_ips f) (q_ResolvedIP q)) <= now.
Proof.
  intros Hs Hn Hd. pose proof (sound_step c fr f s (OpDispatch now shard) Hs Hn) as Hstep. cbn [frontier_do] in Hstep.
  rewrite Hd in Hstep. destruct Hstep as (s' & _ & Hs' & _).
  pose proof (DispatchShard_spends f now shard) as Hp. rewrite Hd in Hp. destruct Hp as (f0 & hk & h & (Hc & Hi & Hk) & Hp).
  destruct (spends_host _ _ _ _ _ _ _ _ _ Hs' Hp) as [Hl ->]. destruct Hp as [(h0 & Hl0 & He & Hip0) _ _ _ _ Hip _].
  unfold eligibleNow in He. rewrite Hip0, <- Hip, Hi in He. split; [| lia].
  intros e Hne%Hk. unfold host_next in Hne. rewrite Hl0 in Hne. injection Hne as <-. lia.
Qed.

End Run.

Lemma run_floor op os f qs : XXHashLaws -> LinkLaws (op_conf op) -> 0 <= seen_m -> hour_ok (fc_created (op_conf op)) ->
  run_ok (New op) os -> frontier_run (New op) os = Ok (f, qs) ->
  f_conf f = op_conf op /\ it_floor (f_ips f) = c_IPFloor (fc_pol (op_conf op)) /\
  exists s, sound (op_conf op) (fresh_on op) f s.
Proof.
  intros HX HL Hm Hc Ho Hf. pose proof (sound_new op Hm Hc) as Hs.
  destruct (unspent_run (op_conf op) (fresh_on op) _ _ _ _ _ Hs Ho Hf) as [Hcf Hfl _ _].
  pose proof (sound_run (op_conf op) (fresh_on op) _ _ os Hs Ho) as Hr. rewrite Hf in Hr. destruct Hr as (s & _ & Hs').
  split; [done |]. split; [done |]. by exists s.
Qed.

(** C3: Two requests to a host, and two to an address, keep their distance. In any run of
    the frontier take two requests, of any shards, at times [now1] and [now2]. If they
    are to one host with none to it between them, then [now2] is at least [now1] plus
    the host's interval when the first left, in seconds and at least one; if they are to
    one address with none to it between them, at least [now1] plus the larger of that
    interval and the floor of the address, also at least a second. Both hold up to the
    end of the 32-bit clock, and for robots.txt requests as for pages. *)
Theorem politeness_spacing (op : Options) (os1 os2 : list frontier_op) (f1 f2 f3 f4 : Frontier)
    (qs1 qs2 : list (option Request)) (q1 q2 : Request) (now1 now2 shard1 shard2 : Z)
    (HX : XXHashLaws) (HL : LinkLaws (op_conf op)) (Hm : 0 <= seen_m) (Hc : hour_ok (fc_created (op_conf op)))
    (Ho1 : run_ok (New op) os1) (Hr1 : frontier_run (New op) os1 = Ok (f1, qs1))
    (Hn1 : hour_ok (now1 / 3600)) (Hd1 : DispatchShard f1 now1 shard1 = Ok (f2, Some q1))
    (Ho2 : run_ok f2 os2) (Hr2 : frontier_run f2 os2 = Ok (f3, qs2))
    (Hn2 : hour_ok (now2 / 3600)) (Hd2 : DispatchShard f3 now2 shard2 = Ok (f4, Some q2)) :
  exists h, f_hosts f2 !! q_HostKey q1 = Some h /\
    let interval := HostInterval (fc_pol (op_conf op)) (he_effective h) (he_crawlFloor h) in
    let ip_secs := Z.max (Z.quot (Z.max interval (c_IPFloor (fc_pol (op_conf op)))) Second) 1 in
    (q_HostKey q2 = q_HostKey q1 -> quiet (fun q => q_HostKey q = q_HostKey q1) qs2 ->
       now1 + durSecs interval < 2 ^ 32 -> now1 + durSecs interval <= now2) /\
    (q_ResolvedIP q2 = q_ResolvedIP q1 -> q_ResolvedIP q1 <> zeroIP -> quiet (fun q => q_ResolvedIP q = q_ResolvedIP q1) qs2 ->
       now1 + ip_secs < 2 ^ 32 -> now1 + ip_secs <= now2).
Proof.
  destruct (run_floor op os1 f1 qs1 HX HL Hm Hc Ho1 Hr1) as (Hc1 & Hfl & s1 & Hs1).
  pose proof (sound_step _ _ f1 s1 (OpDispatch now1 shard1) Hs1 Hn1) as Hstep. cbn [frontier_do] in Hstep.
  rewrite Hd1 in Hstep. destruct Hstep as (s2 & _ & Hs2 & _).
  pose proof (sound_run _ _ f2 s2 os2 Hs2 Ho2) as Hrun. rewrite Hr2 in Hrun. destruct Hrun as (s3 & _ & Hs3).
  destruct (unspent_run _ _ _ _ _ _ _ Hs2 Ho2 Hr2) as [_ _ Hh Hi].
  destruct (dispatch_clocks _ _ _ _ _ _ _ _ Hs1 Hn1 Hd1) as (h & Hl & Hip & Hnext & Hel).
  destruct (dispatch_due _ _ _ _ _ _ _ _ Hs3 Hn2 Hd2) as [Hdue Hidue].
  assert (Hc2 : f_conf f2 = op_conf op) by apply (snd_conf _ _ _ _ Hs2).
  assert (Hpos : 0 <= now1) by (unfold hour_ok in Hn1; Z.div_mod_to_equations; lia).
  unfold interval_of in Hnext, Hel. rewrite Hc2 in Hnext, Hel. rewrite Hfl in Hel.
  exists h. split; [done |]. intros interval ip_secs. fold interval in Hnext, Hel. fold ip_secs in Hel. split.
  - intros Heq Hq Hlt. apply Hdue. rewrite Heq. rewrite (Hh _ _ Hnext Hq). f_equal. apply u32_small.
    assert (0 <= durSecs interval) by (unfold durSecs; pose proof (u32_fits (Z.quot interval Second)); unfold fits in *; case_match; lia).
    unfold fits. lia.
  - intros Heq Hz Hq Hlt. rewrite Heq, (Hi _ Hq), (Hel Hpos Hz Hlt) in Hidue. rewrite u32_small in Hidue; [done |].
    unfold fits, ip_secs in *. lia.
Qed.

End Polite.

(** ** A run in the concrete world *)

Import Demo.

(** Two pages of one host, and every host at one address. *)
Definition polite_options : Options := apply_options 1 0 [WithTarget 10; WithStateMachine; WithResolver tt].
Definition polite_seeds : list frontier_op :=
  [demo_seed (bytes_of "a.org") (bytes_of "/1"); demo_seed (bytes_of "a.org") (bytes_of "/2")].
Definition polite_report : list frontier_op :=
  [OpReport (demo_outcome (demo_key (bytes_of "a.org") (bytes_of "/1")) 200 0) 1000].
Definition polite_f1 := out (New polite_options, []) (frontier_run (New polite_options) polite_seeds).
Definition polite_f2 := out (New polite_options, None) (DispatchShard polite_f1.1 1000 0).
Definition polite_f3 := out (New polite_options, []) (frontier_run polite_f2.1 polite_report).
Definition polite_f4 := out (New polite_options, None) (DispatchShard polite_f3.1 1001 0).

Definition no_request : Request := mkRequest (mkKey 0 0) 0 [] [] 0 zeroIP 0 false.
Definition polite_q1 : Request := default no_request polite_f2.2.
Definition polite_q2 : Request := default no_request polite_f4.2.

Lemma polite_seeds_ok : run_ok (New polite_options) polite_seeds.
Proof. apply (bool_decide_unpack (run_ok (New polite_options) polite_seeds)). vm_compute. exact I. Qed.
Lemma polite_report_ok : run_ok polite_f2.1 polite_report.
Proof. apply (bool_decide_unpack (run_ok polite_f2.1 polite_report)). vm_compute. exact I. Qed.

(** The second page leaves at 1001, when its host and the address are due, not at 1000. *)
Example politeness_spacing_witness :
  (exists f', DispatchShard polite_f3.1 1000 0 = Ok (f', None)) /\
  q_HostKey polite_q2 = q_HostKey polite_q1 /\ q_ResolvedIP polite_q2 = q_ResolvedIP polite_q1 /\
  exists h, f_hosts polite_f2.1 !! q_HostKey polite_q1 = Some h /\
    let interval := HostInterval DefaultConfig (he_effective h) (he_crawlFloor h) in
    1000 + durSecs interval <= 1001 /\ 1000 + Z.max (Z.quot (Z.max interval (500 * Millisecond)) Second) 1 <= 1001.
Proof.
  split.
  { destruct (DispatchShard polite_f3.1 1000 0) as [[f' q] |] eqn:E; [| exfalso; revert E; vm_compute; discriminate].
    exists f'. do 2 f_equal. revert E. vm_compute. congruence. }
  split; [vm_compute; reflexivity |]. split; [vm_compute; reflexivity |].
  destruct (politeness_spacing polite_options polite_seeds polite_report polite_f1.1 polite_f2.1 polite_f3.1 polite_f4.1
    polite_f1.2 polite_f3.2 polite_q1 polite_q2 1000 1001 0 0 demo_hash_laws (demo_link_laws (op_conf polite_options) eq_refl))
    as (h & Hl & Hs & Hip).
  - discriminate.
  - split; [discriminate | reflexivity].
  - exact polite_seeds_ok.
  - unfold polite_f1. apply (out_ok (New polite_options, []) (frontier_run (New polite_options) polite_seeds)). vm_compute. reflexivity.
  - split; [discriminate | reflexivity].
  - vm_compute. reflexivity.
  - exact polite_report_ok.
  - unfold polite_f3. apply (out_ok (New polite_options, []) (frontier_run polite_f2.1 polite_report)). vm_compute. reflexivity.
  - split; [discriminate | reflexivity].
  - vm_compute. reflexivity.
  - assert (Hi : HostInterval DefaultConfig (he_effective h) (he_crawlFloor h) = Second)
      by (revert Hl; vm_compute; intros [= <-]; reflexivity).
    exists h. split; [exact Hl |]. cbv zeta in Hs, Hip |- *.
    change (fc_pol (op_conf polite_options)) with DefaultConfig in Hs, Hip. rewrite Hi in Hs, Hip |- *.
    assert (Hq : polite_f3.2 = [None]) by (vm_compute; reflexivity). rewrite Hq in Hs, Hip. split.
    + apply Hs; [vm_compute; reflexivity | by repeat constructor | reflexivity].
    + apply Hip; [vm_compute; reflexivity | vm_compute; discriminate | by repeat constructor | reflexivity].
Defined.
