(* ===== verification/FrontierGaps.v ===== *)
(** * Where the frontier loses work

    Two runs in the concrete world of World.v that end with a URL the frontier means to
    fetch and never will: a robots.txt that empties a host's queue keeps the host's slot
    in the active set, and a crawl rescheduled by the freshness hook is in no queue. *)

From S2P Require Import Prelude Words Model Updates Heap Ring Wheel SeenSet GoStrings Robots Politeness Admission Arena Ops.
From S2P Require Import Frontier FrontierSched FrontierSim World FrontierSpec FrontierPolite.
From Stdlib Require String.
Import String.StringSyntax.
Import Demo.
Open Scope Z_scope.

(** ** A full active set with nothing in it *)

Section Stuck.
Context `{XXHash} `{Unicode} `{Traps} `{Prio} `{Fresh} `{Resolver} `{Canon} `{SeenSizes}.
Implicit Types (f : Frontier).

(** Whether a host is active and has a request out. *)
Definition flags f (hk : Z) : option (bool * bool) := (fun h => (he_active h, he_inFlight h)) <$> f_hosts f !! hk.

(** The pools and the flags stay; a new host is dormant. *)
Record quiet f f' : Prop := mkQuiet {
  qt_conf : f_conf f' = f_conf f;
  qt_wait : f_wait f' = f_wait f;
  qt_ready : f_readyHosts f' = f_readyHosts f;
  qt_active : f_active f' = f_active f;
  qt_flags hk : flags f' hk = flags f hk \/ (flags f hk = None /\ flags f' hk = Some (false, false)) }.

#[local] Instance quiet_preorder : PreOrder quiet.
Proof.
  split; [intros f; split; auto |]. intros f1 f2 f3 [C1 W1 R1 A1 F1] [C2 W2 R2 A2 F2]. split; try congruence. intros hk.
  destruct (F1 hk) as [E1 | [E1 E1']], (F2 hk) as [E2 | [E2 E2']]; rewrite ?E2, ?E2', ?E1, ?E1' in *; auto.
Qed.

Lemma quiet_same f f' : f_conf f' = f_conf f -> f_wait f' = f_wait f -> f_readyHosts f' = f_readyHosts f ->
  f_active f' = f_active f -> f_hosts f' = f_hosts f -> quiet f f'.
Proof. intros Hc Hw Hr Ha Hh. split; try done. intros hk. left. unfold flags. by rewrite Hh. Qed.

Lemma quiet_put f hk h : (match f_hosts f !! hk with
    | Some h0 => he_active h = he_active h0 /\ he_inFlight h = he_inFlight h0
    | None => he_active h = false /\ he_inFlight h = false end) -> quiet f (put_host f hk h).
Proof.
  intros Hh. split; try done. intros hk'. unfold flags. cbn [put_host with_hosts f_hosts].
  destruct (decide (hk' = hk)) as [-> | Hne]; [| rewrite lookup_insert_ne by done; by left]. rewrite lookup_insert_eq.
  destruct (f_hosts f !! hk) as [h0 |]; destruct Hh as [E1 E2]; cbn; rewrite E1, E2; auto.
Qed.

Lemma quiet_put' f f1 hk h h0 : quiet f f1 -> f_hosts f1 !! hk = Some h0 -> he_active h = he_active h0 ->
  he_inFlight h = he_inFlight h0 -> quiet f (put_host f1 hk h).
Proof. intros Hq Hl Ha Hf. rewrite Hq. apply quiet_put. by rewrite Hl. Qed.

Lemma ensureHost_quiet f hk x d : oks (ensureHost f hk x d) (quiet f).
Proof.
  unfold ensureHost. destruct (f_hosts f !! hk) eqn:Hn; [by cbn |].
  eapply oks_bind; [apply intern_arena |]. intros [f1 ref] [a ->].
  destruct (newHost _ _ _ _ _) as [f2 h] eqn:E. cbn.
  assert (Hs : quiet f f2 /\ f_hosts f2 = f_hosts f /\ he_active h = false /\ he_inFlight h = false).
  { revert E. unfold newHost. cbn [with_arena f_importedHostScore f_resolver].
    destruct (f_importedHostScore f !! hk); cbn [with_importedHostScore with_arena f_resolver];
      (destruct (f_resolver f); [case_bool_decide |]); intros [= <- <-]; (split; [by apply quiet_same | done]). }
  destruct Hs as (Hk & Hh & Hf). rewrite Hk. apply quiet_put. by rewrite Hh, Hn.
Qed.

Lemma credit_quiet f p d : quiet f (credit f p d).1.
Proof.
  unfold credit. destruct (prio_Credit p d) as [p' n]. cbn [with_prio f_hosts].
  destruct (f_hosts f !! HostKey (d_URLKey d)) as [h |] eqn:Hl; [| by apply quiet_same].
  cbn [fst]. eapply quiet_put'; [by apply (quiet_same _ (with_prio f (Some p'))) | exact Hl | done | done].
Qed.

Lemma reprice_quiet f p key h : oks (reprice f p key h) (quiet f).
Proof.
  unfold reprice. eapply oks_bind; [apply oks_true |]. intros r _. by destruct (r_Status _); apply quiet_same.
Qed.

Lemma frontPush_quiet f key p e : quiet f (frontPush f key p e).
Proof. unfold frontPush. destruct (fc_bounded _); by apply quiet_same. Qed.

Lemma schedule_quiet f key r now e : quiet f (schedule f key r now e).
Proof. unfold schedule. destruct (_ && _); [by apply quiet_same | apply frontPush_quiet]. Qed.

Lemma Discover_quiet f d now : oks (Discover f d now) (fun '(f', _) => quiet f f').
Proof.
  unfold Discover. destruct (Seen (f_seen f) (d_URLKey d)) as [seen dup].
  assert (Hk : quiet f (with_seen f seen)) by by apply quiet_same. destruct dup.
  - destruct (f_prio _) as [p |]; [| exact Hk]. destruct (f_records _ !! _); [| exact Hk].
    unfold creditDiscovery. pose proof (credit_quiet (with_seen f seen) p d) as Hc. destruct (credit _ _ _) as [f1 p1].
    eapply oks_bind; [apply reprice_quiet |]. intros f2 H2'. cbn. by rewrite Hk, Hc.
  - eapply oks_bind; [apply ensureHost_quiet |]. intros f1 H1'.
    assert (Hc : quiet f1 (match f_prio f1 with Some p => (credit f1 p d).1 | None => f1 end)).
    { destruct (f_prio f1); [apply credit_quiet | done]. }
    set (f2 := match f_prio f1 with Some p => _ | None => _ end) in *. clearbody f2.
    destruct (trap_Observe _ _ _ _ _) as [traps new]. eapply oks_bind; [apply get_host_oks |]. intros h Hh.
    eapply oks_bind; [apply intern_arena |]. intros [f4 ref] [a ->].
    match goal with |- oks (if _ then Ok (frontPush ?g _ _ _, _) else _) _ => assert (Hg : quiet f g) end.
    { eapply quiet_put'; [| exact Hh | by destruct new | by destruct new]. rewrite Hk, H1', Hc. by apply quiet_same. }
    destruct (decide _); cbn; [rewrite Hg; apply frontPush_quiet | exact Hg].
Qed.

Lemma Seed_quiet f url host p seen due delay : oks (Seed f url host p seen due delay) (quiet f).
Proof.
  unfold Seed. destruct (Seen _ _) as [ss dup]. destruct dup; [by apply quiet_same |].
  eapply oks_bind; [apply intern_arena |]. intros [f1 ref] [a ->].
  eapply oks_bind; [apply ensureHost_quiet |]. intros f2 Hf2.
  eapply oks_bind; [apply get_host_oks |]. intros h Hh.
  match goal with |- context [put_host f2 _ ?h'] => assert (Hg : quiet f (put_host f2 (HostKeyOf host) h')) end.
  { eapply quiet_put'; [| exact Hh | done | done]. rewrite <- Hf2. by apply quiet_same. }
  destruct (f_prio _); cbn [oks]; rewrite Hg; [| apply schedule_quiet].
  etransitivity; [| apply schedule_quiet]. by apply quiet_same.
Qed.

(** Every call but a dispatch or a report. *)
Lemma intake_quiet f o : match o with OpDispatch _ _ | OpReport _ _ => False | _ => True end ->
  oks (frontier_do f o) (fun '(f', q) => q = None /\ quiet f f').
Proof.
  intros Ho. destruct o; try done; cbn [frontier_do].
  - pose proof (Seed_quiet f url host priority firstSeen nextDue crawlDelay) as Hs. by destruct (Seed _ _ _ _ _ _ _).
  - pose proof (Discover_quiet f d now) as Hs. by destruct (Discover _ _ _) as [[? ?] |].
  - assert (Hs : oks (Warm f key etag lastModified prevDigest) (quiet f)); [| by destruct (Warm _ _ _ _ _)].
    unfold Warm. destruct (_ !! _); [| by cbn]. destruct (_ <? _); [by cbn |].
    apply (oks_bind _ _ (fun '(f', _) => exists a, f' = with_arena f a)).
    + case_bool_decide; [exists (f_arena f); by destruct f |]. eapply oks_bind; [apply intern_arena |]. by intros [f1 ref].
    + intros [f1 r1] [a ->]. by apply quiet_same.
  - cbn. split; [done |]. unfold ImportURLSignal. destruct (f_prio f); [by apply quiet_same | done].
  - cbn. split; [done |]. unfold ImportHostSignal. destruct (f_hosts f !! hs_HostKey u) eqn:Hl; [| by apply quiet_same].
    by eapply quiet_put'.
Qed.

(** The wheel is off, the pools are empty, the active set is full and no request is out. *)
Record stuck f : Prop := mkStuck {
  sk_wheel : fc_wheelOn (f_conf f) = false;
  sk_wait : f_wait f = [];
  sk_ready : bank_holds (f_readyHosts f) [];
  sk_full : effectiveTarget f <= f_active f;
  sk_flight hk h : f_hosts f !! hk = Some h -> he_inFlight h = false }.

Lemma stuck_quiet f f' : stuck f -> quiet f f' -> stuck f'.
Proof.
  intros [Hw Hp Hb Hf Hi] [Ec Ew Er Ea Ef]. split; rewrite ?Ec, ?Ew, ?Er, ?Ea; try done; [unfold effectiveTarget in *; by rewrite Ec |].
  intros hk h Hl. pose proof (Ef hk) as E. unfold flags in E. rewrite Hl in E. cbn in E.
  destruct (f_hosts f !! hk) as [h0 |] eqn:Hl0; cbn in E; destruct E as [E | [E E']]; try done; [| by injection E'].
  injection E as _ E. rewrite E. by eapply Hi.
Qed.

Lemma promote_aged_quiet f age now : quiet f (promote_aged f age now).
Proof.
  revert f. induction age as [| w age IH]; intros f; cbn [promote_aged]; [by apply quiet_same |].
  destruct (_ || _); [by apply quiet_same |]. destruct (f_records f !! fw_key w) as [r |]; [| apply IH].
  destruct (decide _); [| apply IH]. destruct (rebucket _ _ _ _) as [moved ring]. etransitivity; [| apply IH].
  by destruct moved; apply quiet_same.
Qed.

(** With the active set full only hosts already active take URLs from the front bank. *)
Lemma distribute_loop_quiet n f target now : target <= f_active f -> oks (distribute_loop n f target now) (quiet f).
Proof.
  intros Ht. cut (forall g, quiet f g -> oks (distribute_loop n g target now) (quiet f)); [intros Hg; by apply Hg |].
  induction n as [| n IH]; intros g Hg; cbn [distribute_loop]; [done |].
  destruct (ring_pop _) as [[key ring] |]; [| exact Hg]. eapply oks_bind; [apply get_host_oks |]. intros h Hh.
  destruct (negb _ && _) eqn:Ea; [exact Hg |]. rewrite (qt_active _ _ Hg), (proj2 (Z.leb_le _ _) Ht), andb_true_r in Ea.
  apply negb_false_iff in Ea.
  eapply oks_bind; [apply oks_true |]. intros ok _. destruct (negb ok).
  - eapply oks_bind; [apply oks_true |]. intros r _. apply IH. rewrite Hg. by apply quiet_same.
  - cbn [he_set_back he_active]. rewrite Ea. apply IH. eapply quiet_put'; [| exact Hh | done | done]. rewrite Hg. by apply quiet_same.
Qed.

Lemma DispatchShard_stuck f now shard : stuck f -> oks (DispatchShard f now shard) (fun '(f', q) => q = None /\ quiet f f').
Proof.
  intros Hs. unfold DispatchShard, promoteDue. rewrite (sk_wheel _ Hs). cbn [negb mbind res_bind].
  unfold promote. rewrite (sk_wait _ Hs). cbn [length promote_loop]. rewrite (sk_wait _ Hs). cbn [wait_popMin mbind res_bind].
  eapply (oks_bind _ _ (quiet f)).
  - unfold distribute. match goal with |- oks (distribute_loop _ ?g _ _) _ => assert (Hg : quiet f g) end.
    { destruct (fc_bounded _); [| done]. destruct (_ <=? _); [| by apply quiet_same].
      etransitivity; [| apply promote_aged_quiet]. by apply quiet_same. }
    eapply oks_mono; [apply distribute_loop_quiet |].
    + apply (sk_full _ (stuck_quiet _ _ Hs Hg)).
    + intros f' Hf'. by rewrite Hg.
  - intros f1 Hf1. cbn [pick_ready]. pose proof (popShard_holds (f_readyHosts f1) [] shard) as Hp.
    destruct (popShard (f_readyHosts f1) shard) as [[hk b] |]; [| by cbn].
    destruct Hp as (l' & Hp & _); [rewrite (qt_ready _ _ Hf1); apply Hs |]. by apply Permutation_nil_cons in Hp.
Qed.

(** No report can come, so nothing ever changes that. *)
Lemma stuck_run (c : FConf) (fr : bool) `{!XXHashLaws} `{!LinkLaws c} f s os f' qs :
  sound c fr f s -> stuck f -> run_ok f os -> frontier_run f os = Ok (f', qs) ->
  quiet f f' /\ stuck f' /\ Forall (fun q => q = None) qs.
Proof.
  revert f s qs. induction os as [| o os IH]; intros f s qs Hs Hk Ho; cbn [frontier_run]; [by intros [= <- <-] |].
  destruct Ho as [Ho Hos]. pose proof (sound_step c fr f s o Hs Ho) as Hstep.
  assert (Hq : oks (frontier_do f o) (fun '(f1, q) => q = None /\ quiet f f1)).
  { destruct o; try (by apply intake_quiet); [by apply DispatchShard_stuck |]. exfalso.
    destruct Ho as [[(r & Hr & Hst) | (_ & h & Hh & Hp)] _].
    - destruct (fs_flight f _ (sound_frontier c fr f s Hs _ (Permutation_refl _)) _ _ Hr Hst) as (h & Hh & Hf & _).
      by rewrite (sk_flight _ Hk _ _ Hh) in Hf.
    - destruct (snd_host_at c fr f s Hs _ _ Hh) as (m & b & _ & Hv). pose proof (sk_flight _ Hk _ _ Hh) as Hf.
      rewrite (hs_inFlight _ _ _ _ Hv) in Hf. apply (hs_pending _ _ _ _ Hv) in Hp. cbn in Hf, Hp. by subst m. }
  destruct (frontier_do f o) as [[f1 q] |]; [| done]. destruct Hstep as (s1 & _ & Hs1 & _), Hq as [-> Hq]. cbn [mbind res_bind].
  destruct (frontier_run f1 os) as [[f2 qs2] |] eqn:E2; [| done]. cbn. intros [= <- <-].
  destruct (IH f1 s1 qs2 Hs1 (stuck_quiet _ _ Hk Hq) Hos E2) as (Hq2 & Hk2 & Hn). split; [by rewrite Hq |]. split; [done | by constructor].
Qed.

Lemma filter_back_same f h back : oks (filter_back f h back) (fun '(f', _) => f_conf f' = f_conf f /\ f_wait f' = f_wait f /\
  f_readyHosts f' = f_readyHosts f /\ f_active f' = f_active f /\ f_hosts f' = f_hosts f).
Proof.
  revert f. induction back as [| k back IH]; intros f; cbn [filter_back]; [done |].
  eapply oks_bind; [apply oks_true |]. intros ok _. destruct ok.
  - eapply oks_bind; [apply IH |]. by intros [f1 kept].
  - eapply oks_bind; [apply oks_true |]. intros r _. exact (IH (put_rec f k (set_Status r StatusExcludedRobots))).
Qed.

(** Robots rules that leave a host without work leave it where it was, out of the pools. *)
Lemma applyRobots_empties f hk h o now f' h' : applyRobots f hk h o now = Ok f' ->
  f_hosts f' !! hk = Some h' -> he_back h' = [] ->
  f_conf f' = f_conf f /\ f_wait f' = f_wait f /\ f_readyHosts f' = f_readyHosts f /\ f_active f' = f_active f /\
  he_active h' = he_active h /\ he_inFlight h' = false /\
  forall hk', hk' <> hk -> f_hosts f' !! hk' = f_hosts f !! hk'.
Proof.
  unfold applyRobots. destruct (robots_outcome f h o now) as [[robots rec] floor]. set (h1 := mkEntry _ _ _ _ _ _ _ _ _).
  assert (Hflt : oks (filterRobots f h1) (fun '(f1, h2) => (f_conf f1 = f_conf f /\ f_wait f1 = f_wait f /\
    f_readyHosts f1 = f_readyHosts f /\ f_active f1 = f_active f /\ f_hosts f1 = f_hosts f) /\
    he_active h2 = he_active h /\ he_inFlight h2 = false)).
  { unfold filterRobots. destruct (he_robots h1); [| done]. eapply oks_bind; [apply filter_back_same |]. by intros [f1 kept]. }
  destruct (filterRobots f h1) as [[f1 h2] |]; [| done]. destruct Hflt as ((Ec & Ew & Er & Ea & Eh) & E1 & E2).
  cbn [mbind res_bind]. intros Hp Hl Hb.
  assert (Hhosts : f_hosts f' = f_hosts (put_host f1 hk h2)).
  { revert Hp. unfold place. destruct (he_back h2); [by intros [= <-] |]. rewrite E2. destruct (_ <=? _); [| by intros [= <-]].
    unfold get_rec. destruct (f_records _ !! _); cbn [mbind res_bind]; [| done]. by intros [= <-]. }
  rewrite Hhosts in Hl. cbn in Hl. rewrite lookup_insert_eq in Hl. injection Hl as <-.
  revert Hp. unfold place. rewrite Hb. intros [= <-]. split_and!; try done.
  intros hk' Hne. cbn. by rewrite lookup_insert_ne, Eh.
Qed.

(** C40: A robots.txt that empties a host's queue leaks the host's slot of the active set.
    Take a frontier without the due wheel, reached by any calls, whose active set is full
    and whose pools are empty because the one request out is for a host's robots.txt. If
    the rules that come back leave nothing of the host's queue, the host stays active with
    no work and nothing in flight, the active count stays, and no dispatch of any later
    run hands out anything, whatever is seeded, discovered or imported: the crawl has
    stalled for good with its URLs scheduled. *)
Theorem robots_filter_leaks_slot (op : Options) (os os2 : list frontier_op) (f f1 f2 : Frontier)
    (qs qs2 : list (option Request)) (hk : Z) (h h1 : hostEntry) (o : Outcome) (now : Z)
    (HX : XXHashLaws) (HL : LinkLaws (op_conf op)) (Hm : 0 <= seen_m) (Hc : hour_ok (fc_created (op_conf op)))
    (Hos : run_ok (New op) os) (Hf : frontier_run (New op) os = Ok (f, qs))
    (Hwheel : fc_wheelOn (op_conf op) = false) (Hrobots : fc_robotsOn (op_conf op) = true)
    (Hpools : wait_hosts f ++ ready_hosts f = []) (Hfull : effectiveTarget f <= f_active f)
    (Hh : f_hosts f !! hk = Some h) (Hpend : he_robotsState h = robotsPending)
    (Halone : forall hk' h', f_hosts f !! hk' = Some h' -> he_inFlight h' = true -> hk' = hk)
    (Hkey : o_URLKey o = robotsKey hk) (Hout : outcome_ok o) (Hr : Report f o now = Ok f1)
    (Hh1 : f_hosts f1 !! hk = Some h1) (Hempty : he_back h1 = [])
    (Hos2 : run_ok f1 os2) (Hf2 : frontier_run f1 os2 = Ok (f2, qs2)) :
  (exists h2, f_hosts f2 !! hk = Some h2 /\ he_active h2 = true /\ he_inFlight h2 = false) /\
  f_active f2 = f_active f /\ wait_hosts f2 ++ ready_hosts f2 = [] /\ Forall (fun q => q = None) qs2.
Proof.
  pose proof (sound_run (op_conf op) (fresh_on op) _ _ os (sound_new op Hm Hc) Hos) as Hrun. rewrite Hf in Hrun.
  destruct Hrun as (s & _ & Hs). destruct (snd_host_at _ _ f s Hs _ _ Hh) as (m & b & _ & Hv).
  assert (Hact : he_active h = true).
  { rewrite (hs_active _ _ _ _ Hv). apply (hs_pending _ _ _ _ Hv) in Hpend. cbn in *. by subst m. }
  assert (Hk1 : HostKey (o_URLKey o) = hk) by by rewrite Hkey.
  pose proof (sound_step _ _ f s (OpReport o now) Hs) as Hstep. cbn [frontier_do] in Hstep. rewrite Hr in Hstep.
  destruct Hstep as (s1 & _ & Hs1 & _); [split; [right; rewrite Hk1; split; [done | by exists h] | done] |].
  assert (Hap : applyRobots f hk h o now = Ok f1).
  { revert Hr. unfold Report. rewrite (snd_conf _ _ _ _ Hs), Hrobots, Hk1, Hh, (hs_key _ _ _ _ Hv), Hkey.
    by rewrite !bool_decide_eq_true_2. }
  destruct (applyRobots_empties f hk h o now f1 h1 Hap Hh1 Hempty) as (Ec & Ew & Er & Ea & E1 & E2 & E3).
  apply app_eq_nil in Hpools as [Hw Hrd]. pose proof (snd_conf _ _ _ _ Hs) as Hconf.
  assert (Hbank : bank_holds (f_readyHosts f) []).
  { destruct Hs as [[? ? ? ? ? ? ? (l & Hb & Hp)] _]. assert (l = []) as ->; [| done].
    apply Permutation_nil_r. unfold ready_hosts in Hrd. by rewrite <- (bank_items_perm _ l Hb), Hrd. }
  assert (Hk : stuck f1).
  { split; rewrite ?Ec, ?Ew, ?Er, ?Ea; [by rewrite Hconf | by apply fmap_nil_inv in Hw | done | unfold effectiveTarget in *; by rewrite Ec |].
    intros hk' h' Hl. destruct (decide (hk' = hk)) as [-> | Hne]; [by rewrite Hh1 in Hl; injection Hl as <- |].
    rewrite (E3 hk' Hne) in Hl. destruct (he_inFlight h') eqn:Ef; [| done]. by destruct Hne; eapply Halone. }
  destruct (stuck_run (op_conf op) (fresh_on op) f1 s1 os2 f2 qs2 Hs1 Hk Hos2 Hf2) as (Hq & Hk2 & Hn).
  split; [| split; [by rewrite (qt_active _ _ Hq), Ea | split; [| done]]].
  - pose proof (qt_flags _ _ Hq hk) as Hfl. unfold flags in Hfl. rewrite Hh1 in Hfl. cbn in Hfl. rewrite E1, E2, Hact in Hfl.
    destruct Hfl as [Hfl | [? _]]; [| done]. destruct (f_hosts f2 !! hk) as [h2 |]; [| done]. injection Hfl as ? ?. by exists h2.
  - unfold wait_hosts, ready_hosts. rewrite (sk_wait _ Hk2). apply Permutation_nil_r, bank_items_perm, Hk2.
Qed.

End Stuck.

(** One slot; the first host's robots.txt disallows the page it was waiting with. Later a
    third host is seeded. *)
Definition robots_body : list Z := bytes_of "User-agent: *" ++ [10] ++ bytes_of "Disallow: /" ++ [10].
Definition robots_answer (host : list Z) : Outcome :=
  mkOutcome (robotsKey (HostKeyOf host)) 200 0 100 false 0 0 0 [] 0 [] false 0 0 robots_body [].
Definition leak_options : Options := demo_options 1 true true false.
Definition leak_run : list frontier_op :=
  [demo_seed (bytes_of "a.org") (bytes_of "/1"); demo_seed (bytes_of "b.org") (bytes_of "/"); OpDispatch 1000 0].
Definition leak_tail : list frontier_op :=
  [OpDispatch 2000 0; demo_seed (bytes_of "c.org") (bytes_of "/"); OpDispatch 1000000 0; OpDispatch 100000000 3].

Definition run_frontier (r : res (Frontier * list (option Request))) (f0 : Frontier) : Frontier :=
  match r with Ok (f, _) => f | Err _ => f0 end.


Definition leak_state : Frontier := run_frontier (frontier_run (New leak_options) leak_run) (New leak_options).
Definition leaked_state : Frontier :=
  match Report leak_state (robots_answer (bytes_of "a.org")) 1001 with Ok f => f | Err _ => leak_state end.
Definition leak_end : Frontier := run_frontier (frontier_run leaked_state leak_tail) leaked_state.

(** Whether [P] holds of every host of the map. *)
Definition every_host (P : Z -> hostEntry -> bool) (f : Frontier) : bool := forallb (fun e => P e.1 e.2) (map_to_list (f_hosts f)).
(** Only host [hk0] may have a request out. *)
Definition only_out (hk0 hk : Z) (h : hostEntry) : bool := implb (he_inFlight h) (hk =? hk0).
Lemma every_host_spec P f hk h : every_host P f = true -> f_hosts f !! hk = Some h -> P hk h = true.
Proof.
  unfold every_host. rewrite forallb_forall. intros Hall Hl. apply (Hall (hk, h)), list_elem_of_In. by apply elem_of_map_to_list.
Qed.

(** The one slot is a.org's for good; b.org and c.org stay scheduled. *)
Example robots_filter_leaks_slot_witness :
  (exists h2, f_hosts leak_end !! HostKeyOf (bytes_of "a.org") = Some h2 /\ he_active h2 = true /\ he_inFlight h2 = false) /\
  (exists qs2, frontier_run leaked_state leak_tail = Ok (leak_end, qs2) /\ Forall (fun q => q = None) qs2) /\
  Forall (fun host => (fun r => r_Status r) <$> f_records leak_end !! demo_key host (bytes_of "/") = Some StatusScheduled)
    [bytes_of "b.org"; bytes_of "c.org"].
Proof.
  destruct (frontier_run (New leak_options) leak_run) as [[f qs] | e] eqn:Ef; [| by vm_compute in Ef].
  assert (Es : f = leak_state) by (unfold leak_state; by rewrite Ef). subst f.
  destruct (frontier_run leaked_state leak_tail) as [[f2 qs2] | e] eqn:Ef2; [| by vm_compute in Ef2].
  assert (Es2 : f2 = leak_end) by (unfold leak_end; by rewrite Ef2). subst f2.
  destruct (f_hosts leak_state !! HostKeyOf (bytes_of "a.org")) as [h |] eqn:Eh; [| by vm_compute in Eh].
  destruct (f_hosts leaked_state !! HostKeyOf (bytes_of "a.org")) as [h1 |] eqn:Eh1; [| by vm_compute in Eh1].
  assert (Hthm : (exists h2, f_hosts leak_end !! HostKeyOf (bytes_of "a.org") = Some h2 /\ he_active h2 = true /\ he_inFlight h2 = false) /\
      f_active leak_end = f_active leak_state /\ wait_hosts leak_end ++ ready_hosts leak_end = [] /\ Forall (fun q => q = None) qs2).
  { apply (robots_filter_leaks_slot leak_options leak_run leak_tail leak_state leaked_state leak_end qs qs2
      (HostKeyOf (bytes_of "a.org")) h h1 (robots_answer (bytes_of "a.org")) 1001 demo_hash_laws (demo_link_laws (op_conf leak_options) eq_refl));
      [discriminate | split; [discriminate | reflexivity] | | exact Ef | reflexivity | reflexivity | vm_compute; reflexivity
      | vm_compute; discriminate | exact Eh | | | reflexivity | | vm_compute; reflexivity | exact Eh1 | | | exact Ef2].
    - apply (bool_decide_unpack (run_ok (New leak_options) leak_run)). vm_compute. exact I.
    - vm_compute in Eh. by injection Eh as <-.
    - intros hk' h' Hl Hfl.
      assert (Hall : every_host (only_out (HostKeyOf (bytes_of "a.org"))) leak_state = true) by (vm_compute; reflexivity).
      pose proof (every_host_spec _ _ _ _ Hall Hl) as Hp. unfold only_out in Hp. rewrite Hfl in Hp. by apply Z.eqb_eq in Hp.
    - split; [split; [discriminate | reflexivity] | constructor].
    - vm_compute in Eh1. by injection Eh1 as <-.
    - apply (bool_decide_unpack (run_ok leaked_state leak_tail)). vm_compute. exact I. }
  destruct Hthm as (Hh & _ & _ & Hn). split; [exact Hh |]. split; [exists qs2; split; [reflexivity | exact Hn] |].
  repeat constructor; vm_compute; reflexivity.
Defined.

(** ** A recrawl in no queue *)

(** The due wheel and the freshness hook, on one page crawled once. *)
Definition recrawl_options : Options :=
  apply_options 1 0 [WithTarget 10; WithStateMachine; WithScheduleIndex; WithFreshness tt tt].
Definition recrawl_run : list frontier_op :=
  let a := bytes_of "a.org" in
  [demo_seed a (bytes_of "/1"); OpDispatch 1000 0; OpReport (demo_outcome (demo_key a (bytes_of "/1")) 200 1) 3600].
Definition recrawl_state (op : Options) : Frontier := run_frontier (frontier_run (New op) recrawl_run) (New op).

Section Hook.
Context `{XXHash} `{Unicode} `{Traps} `{Prio} `{Fresh} `{Resolver} `{Canon} `{SeenSizes}.

Lemma reschedule_due (f f' : Frontier) fs key h now : reschedule f fs key h now = Ok f' ->
  f_wheel f' = f_wheel f /\ f_urlFront f' = f_urlFront f /\ f_hosts f' = f_hosts f /\ f_prio f' = f_prio f /\
  f_conf f' = f_conf f /\ exists r, f_records f' !! key = Some r /\ r_Status r = StatusDueRecrawl.
Proof.
  unfold reschedule, get_rec. destruct (f_records f !! key) as [r |]; [| done]. cbn [mbind res_bind]. intros [= <-].
  cbn [with_fresh put_rec with_records f_wheel f_urlFront f_hosts f_prio f_conf f_records]. split_and!; try done.
  eexists. split; [apply lookup_insert_eq | done].
Qed.

(** With the freshness hook a crawled URL is in no queue. Whatever the outcome, and even
    when its body was just judged a soft 404 and the URL gone, [markCrawled] leaves the
    URL DueRecrawl, not Crawled or Gone: so it never files it in the due wheel, and it
    does not put it in the front bank or a back queue either. *)
Theorem freshness_hook_skips_wheel (f f' : Frontier) (fs : FreshState) (key : URLKey) (h : option Z) (o : Outcome) (now : Z)
    (Hfs : f_fresh f = Some fs) (Hp : f_prio f = None) (Hm : markCrawled f key h o now = Ok f') :
  (exists r, f_records f' !! key = Some r /\ r_Status r = StatusDueRecrawl) /\
  f_wheel f' = f_wheel f /\ f_urlFront f' = f_urlFront f /\ f_hosts f' = f_hosts f.
Proof.
  revert Hm. unfold markCrawled. destruct (get_rec f key) as [r | e]; [| done]. cbn [mbind res_bind].
  destruct (if negb _ && _ then _ else _) as [f1 r1] eqn:E1.
  assert (H1' : exists so, f1 = with_soft f so).
  { revert E1. destruct (negb _ && _); [destruct (soft_Observe _ _ _ _) as [so g] |]; intros [= <- _]; [by exists so |].
    exists (f_soft f). by destruct f. }
  clear E1. destruct H1' as [so ->].
  destruct (if bool_decide _ then Ok _ else _) as [[f2 r2] | e] eqn:E2; [| done].
  assert (H2' : exists a, f2 = with_arena (with_soft f so) a).
  { revert E2. case_bool_decide; [intros [= <- _]; exists (f_arena f); by destruct f |]. unfold intern.
    destruct (arenaIntern _ _) as [a off]. unfold ensure. destruct (_ <=? _); cbn; [| discriminate]. intros [= <- _]. by exists a. }
  clear E2. destruct H2' as [a ->]. cbn [mbind res_bind].
  cbn [put_rec with_records with_arena with_soft f_fresh]. rewrite Hfs.
  destruct (reschedule _ fs key h now) as [f3 | e] eqn:E3; [| done].
  apply reschedule_due in E3 as (Hw & Hfr & Hh & Hpr & Hc & r3 & Hr & Hst). cbn [mbind res_bind].
  cbn [put_rec with_records with_arena with_soft f_prio] in Hpr. rewrite Hpr, Hp. cbn [mbind res_bind]. unfold get_rec. rewrite Hr. cbn [mbind res_bind].
  rewrite Hst, bool_decide_eq_false_2 by done. rewrite andb_false_r. intros [= <-].
  split; [by exists r3 |]. by rewrite Hw, Hfr, Hh.
Qed.

End Hook.

(** A page crawled with the wheel and the hook on: due again, and nothing to wait for;
    without the hook the wheel has it. *)
Example freshness_hook_skips_wheel_witness :
  let f := recrawl_state recrawl_options in
  let key := demo_key (bytes_of "a.org") (bytes_of "/1") in
  (exists r, f_records f !! key = Some r /\ r_Status r = StatusDueRecrawl /\ r_NextDue r = 25) /\
  front_urls f = [] /\ back_urls f = [] /\ NextEligible f = None /\
  NextEligible (recrawl_state (demo_options 10 false true true)) = Some (169 * 3600) /\
  exists f', markCrawled f key None (demo_outcome key 200 1) 3600 = Ok f' /\
    exists r, f_records f' !! key = Some r /\ r_Status r = StatusDueRecrawl.
Proof.
  intros f key. split; [eexists; split; [vm_compute; reflexivity | split; vm_compute; reflexivity] |].
  do 4 (split; [vm_compute; reflexivity |]).
  destruct (markCrawled f key None (demo_outcome key 200 1) 3600) as [f' | e] eqn:E; [| exfalso; revert E; vm_compute; discriminate].
  exists f'. split; [reflexivity |].
  assert (Hf : exists fs, f_fresh f = Some fs) by (eexists; vm_compute; reflexivity). destruct Hf as [fs Hf].
  apply (freshness_hook_skips_wheel f f' fs key None (demo_outcome key 200 1) 3600); [exact Hf | vm_compute; reflexivity | exact E].
Defined.
