(* ===== verification/FrontierRecover.v ===== *)
(** * Checkpoint and recovery of the frontier

    A frontier rebuilt from its checkpoint owes what the old one owed: the records and
    host records are the old ones with nothing in flight, every URL that was scheduled,
    due or in flight is in the front bank, and every crawled URL waits in the wheel. *)

From S2P Require Import Prelude Words Model Updates Arena Heap Ring Wheel SeenSet GoStrings Robots Politeness.
From S2P Require Import Admission File Ops Frontier FrontierSched FrontierSim World FrontierSpec.
From Stdlib Require String.
Import String.StringSyntax.
Open Scope Z_scope.

Section Recovery.
Context `{XXHash} `{Unicode} `{Traps} `{Prio} `{Fresh} `{Resolver} `{Canon} `{SeenSizes}.
Implicit Types (f : Frontier) (s : sched).

(** A record as it comes back: what was in flight is scheduled again. *)
Definition unflight (r : URLRecord) : URLRecord :=
  if decide (r_Status r = StatusInFlight) then set_Status r StatusScheduled else r.

Lemma unflight_key r : r_URLKey (unflight r) = r_URLKey r.
Proof. unfold unflight. by case_decide. Qed.

(** Every host idle: the state recovery builds. *)
Definition all_idle s : Prop := forall hk v, s_hosts s !! hk = Some v -> v = (Idle, []).

(** What recovery does to the rest of the state while it files a record. *)
Record carries f f' : Prop := {
  ca_hosts hk h : f_hosts f !! hk = Some h -> f_hosts f' !! hk = Some h;
  ca_arena : exists ext, f_arena f' = f_arena f ++ ext;
  ca_active : f_active f' = f_active f }.

Lemma carries_same f f' : f_hosts f' = f_hosts f -> f_arena f' = f_arena f -> f_active f' = f_active f -> carries f f'.
Proof. intros Hh Ha Hc. split; [by rewrite Hh | exists []; by rewrite Ha, app_nil_r | done]. Qed.

Lemma ensureHost_carries f hk x d : match ensureHost f hk x d with Ok f' => carries f f' | Err _ => True end.
Proof.
  unfold ensureHost. destruct (f_hosts f !! hk) eqn:Hn; [by apply carries_same |].
  unfold intern. rewrite arenaIntern_eq. unfold ensure. destruct (_ <=? _); cbn [mbind res_bind]; [| done].
  destruct (newHost _ _ _ _ _) as [f2 h] eqn:E. 
  assert (Hf2 : f_hosts f2 = f_hosts f /\ f_arena f2 = f_arena f ++ arena_entry x /\ f_active f2 = f_active f).
  { revert E. unfold newHost. cbn [with_arena f_importedHostScore f_resolver].
    destruct (f_importedHostScore f !! hk); cbn [with_importedHostScore with_arena f_resolver];
      (destruct (f_resolver f); [case_bool_decide |]); by intros [= <- _]. }
  destruct Hf2 as (Hh & Ha & Hc). split; [| by exists (arena_entry x) | done].
  intros hk' h' Hl. cbn [put_host with_hosts f_hosts]. rewrite Hh, lookup_insert_ne; [done | congruence].
Qed.

(** ** One record *)

Section Sim.
Context (c : FConf) (fr : bool).
Abbreviation steps := (rtc (sched_step (fc_wheelOn c) fr (fc_robotsOn c))).

Definition filed_front s (k : URLKey) (x : URLStatus) : list URLKey := if decide (queued x) then k :: s_front s else s_front s.
Definition filed_pend s (k : URLKey) (x : URLStatus) : list URLKey :=
  if fc_wheelOn c && bool_decide (x = StatusCrawled) then k :: s_pend s else s_pend s.

Lemma ensured_idle hk s s' : all_idle s -> ensured hk s s' -> all_idle s' /\ steps s s' /\ s_front s' = s_front s /\
  s_pend s' = s_pend s /\ s_status s' = s_status s /\ is_Some (s_hosts s' !! hk).
Proof.
  intros Hi [[Hh ->] | [Hh ->]]; [by split |]. split; [| split; [destruct s; by apply rtc_once, st_host |]].
  - intros hk' v Hl. cbn [set_host s_hosts] in Hl. apply lookup_insert_Some in Hl as [[_ <-] | [_ Hl]]; [done | by apply (Hi hk')].
  - split_and!; try done. cbn. by rewrite lookup_insert_eq.
Qed.

(** A recoverable record: its own, with sound references, and due when the wheel needs it. *)
Record recoverable (a : list Z) (r : URLRecord) : Prop := {
  rc_wf : key_wf (r_URLKey r);
  rc_sees : rec_sees a (r_URLKey r) r (r_Status r);
  rc_due : fc_wheelOn c = true -> r_Status r = StatusCrawled -> 0 < r_NextDue r }.

Lemma unflight_sees a r : recoverable a r -> rec_sees a (r_URLKey r) (unflight r) (r_Status (unflight r)).
Proof. intros [_ [] _]. unfold unflight. case_decide; by split. Qed.

Lemma sees_recovered f s r : sees c fr ∅ f s -> recoverable (f_arena f) r -> f_records f !! r_URLKey r = None ->
  sees c fr ∅ (with_seen (put_rec f (r_URLKey r) (unflight r)) (Insert (f_seen f) (r_URLKey r)))
    (set_status s (r_URLKey r) (r_Status (unflight r))).
Proof.
  intros Hs Hr Hn. destruct Hs. apply mkSees; try done; cbn [with_seen put_rec with_records f_records f_seen].
  - apply map_rel_insert; [done | by apply unflight_sees].
  - rewrite (left_id_L ∅ (∪)) in *. rewrite dom_insert_L. unfold Insert.
    pose proof (seen_both _ _ (r_URLKey r) se_seen (rc_wf _ _ Hr)) as Hb.
    rewrite bool_decide_eq_false_2 in Hb by by apply not_elem_of_dom.
    rewrite <- negb_andb, Hb. apply seen_insert_rel; [done | apply Hr].
Qed.

Lemma se_conf_of E f s : sees c fr E f s -> f_conf f = c.
Proof. by intros []. Qed.

Lemma recover_url_sim f s r : sees c fr ∅ f s -> all_idle s -> recoverable (f_arena f) r -> f_records f !! r_URLKey r = None ->
  good (recover_url f r) (fun f' => exists s', steps s s' /\ all_idle s' /\ sees c fr ∅ f' s' /\
    f_records f' = <[r_URLKey r := unflight r]> (f_records f) /\ carries f f' /\
    s_front s' = filed_front s (r_URLKey r) (r_Status (unflight r)) /\
    s_pend s' = filed_pend s (r_URLKey r) (r_Status (unflight r))).
Proof.
  intros Hs Hi Hr Hn. pose proof (sees_recovered f s r Hs Hr Hn) as Hs1.
  pose proof (sees_no_rec _ _ _ _ _ _ Hs Hn) as Hnone.
  unfold recover_url. fold (unflight r). rewrite unflight_key. set (k := r_URLKey r) in *.
  set (g := with_seen _ _) in *. set (x := r_Status (unflight r)) in *.
  assert (Hcg : carries f g) by by apply carries_same.
  pose proof (unflight_sees _ _ Hr) as Hrs. fold x k in Hrs.
  assert (Hx : x <> StatusInFlight) by (unfold x, unflight; by case_decide).
  assert (Hknown : ~ queued x -> (x = StatusCrawled -> fc_wheelOn c = false) ->
    steps s (set_status s k x)) by (intros; destruct s; by apply rtc_once, st_known).
  assert (Hkeep : ~ queued x -> (x = StatusCrawled -> fc_wheelOn c = false) ->
    exists s', steps s s' /\ all_idle s' /\ sees c fr ∅ g s' /\ f_records g = <[k := unflight r]> (f_records f) /\
      carries f g /\ s_front s' = filed_front s k x /\ s_pend s' = filed_pend s k x).
  { intros Hq Hw. exists (set_status s k x). split_and!; try done; [by apply Hknown | |].
    - unfold filed_front. by rewrite decide_False.
    - unfold filed_pend. case_bool_decide as Ex; [by rewrite Hw | by rewrite andb_false_r]. }
  assert (Hfront : queued x -> good (f' ← match f_hosts g !! r_HostKey (unflight r) with
      | Some _ => Ok g
      | None => url ← str g (r_URLRef (unflight r)); ensureHost g (r_HostKey (unflight r)) (HostOf url) 10
      end; Ok (frontPush f' k (r_Priority (unflight r)) (r_FirstSeen (unflight r))))
    (fun f' => exists s', steps s s' /\ all_idle s' /\ sees c fr ∅ f' s' /\ f_records f' = <[k := unflight r]> (f_records f) /\
      carries f f' /\ s_front s' = filed_front s k x /\ s_pend s' = filed_pend s k x)).
  { intros Hq. rewrite (rs_host _ _ _ _ Hrs).
    apply (good_bind _ _ (fun f2 => exists s2, ensured (HostKey k) s s2 /\ sees c fr ∅ f2 (set_status s2 k x) /\
      f_records f2 = <[k := unflight r]> (f_records f) /\ carries f f2)).
    - destruct (f_hosts g !! HostKey k) as [h |] eqn:Hh.
      + destruct (sees_host_of _ _ _ _ _ _ _ Hs1 Hh) as (v & Hv & _). exists s. split; [by left; split; [exists v |] | done].
      + apply (good_bind _ _ (fun _ => True)); [by apply str_good; [apply (rs_url _ _ _ _ Hrs) |] |]. intros url _.
        pose proof (ensureHost_carries g (HostKey k) (HostOf url) 10) as Hc.
        pose proof (ensureHost_sim c fr _ _ _ (HostKey k) (HostOf url) 10 Hs1) as He.
        destruct (ensureHost g _ _ _) as [f2 |]; [| done]. destruct He as (s2 & He & Hs2 & Hr2).
        assert (Hc2 : carries f f2) by (destruct Hcg, Hc; by split).
        destruct He as [[Hv ->] | [Hv ->]]; [exists s; split; [by left | done] |].
        exists (set_host s (HostKey k) (Idle, [])). split; [by right | done].
    - intros f2 (s2 & He & Hs2 & Hr2 & Hc2). destruct (ensured_idle _ _ _ Hi He) as (Hi2 & Hst & Hf & Hp & Hx2 & Hh).
      exists (set_front (set_status s2 k x) (k :: s_front s2)). split_and!.
      + etrans; [exact Hst |]. destruct s2. cbn in *. apply rtc_once, st_add; [by subst | done | done].
      + done.
      + by apply (sees_frontPush c fr ∅ f2 (set_status s2 k x)).
      + rewrite <- Hr2. unfold frontPush. by destruct (fc_bounded _).
      + destruct Hc2. unfold frontPush. destruct (fc_bounded _); by split.
      + unfold filed_front. rewrite decide_True by done. cbn. by rewrite Hf.
      + unfold filed_pend. rewrite bool_decide_eq_false_2, andb_false_r by (intros E; rewrite E in Hq; by destruct Hq as [? | [? | ?]]).
        exact Hp. }
  fold x. destruct x eqn:Ex; try done; try (cbn [good]; apply Hkeep; [by intros [? | [? | ?]] | done]); try (apply Hfront; unfold queued; by auto).
  rewrite (se_conf_of _ _ _ Hs1). destruct (fc_wheelOn c) eqn:Ew; cbn [andb].
  - rewrite (proj2 (Z.ltb_lt 0 _)).
    2: { unfold unflight. case_decide as Hfl; [unfold x, unflight in Ex; by rewrite decide_True in Ex by done |].
         apply (rc_due _ _ Hr Ew). unfold x, unflight in Ex. by rewrite decide_False in Ex by done. }
    exists (set_pend (set_status s k StatusCrawled) (k :: s_pend s)). split_and!.
    + destruct s. apply rtc_once, st_defer; [done | done | by right].
    + done.
    + apply (sees_wheel_add c fr ∅ g (set_status s k StatusCrawled)); [done | by apply (rs_due _ _ _ _ Hrs)].
    + done.
    + destruct Hcg. by split.
    + unfold filed_front. by rewrite decide_False by (by intros [? | [? | ?]]).
    + unfold filed_pend. by rewrite Ew.
  - apply Hkeep; [by intros [? | [? | ?]] | done].
Qed.

(** ** The tables *)

Lemma recoverable_mono a ext r : arena_ok (a ++ ext) -> recoverable a r -> recoverable (a ++ ext) r.
Proof. intros Ha [Hw Hs Hd]. split; [done | by apply rec_sees_mono | done]. Qed.

Lemma elem_filed_front s k x k' : k' ∈ filed_front s k x <-> k' ∈ s_front s \/ (k = k' /\ queued x).
Proof. unfold filed_front. case_decide; [rewrite elem_of_cons |]; intuition congruence. Qed.

Lemma elem_filed_pend s k x k' : k' ∈ filed_pend s k x <->
  k' ∈ s_pend s \/ (k = k' /\ fc_wheelOn c = true /\ x = StatusCrawled).
Proof.
  unfold filed_pend. destruct (fc_wheelOn c); cbn [andb]; [case_bool_decide; [rewrite elem_of_cons |] |]; intuition congruence.
Qed.

Lemma exists_cons {A} (P : A -> Prop) x l : (exists y, y ∈ x :: l /\ P y) <-> P x \/ exists y, y ∈ l /\ P y.
Proof.
  setoid_rewrite elem_of_cons. split; [intros (y & [-> | Hy] & HP); eauto | intros [HP | (y & Hy & HP)]; eauto].
Qed.

Lemma recover_urls_sim rs f s : sees c fr ∅ f s -> all_idle s -> Forall (recoverable (f_arena f)) rs ->
  NoDup (r_URLKey <$> rs) -> (forall r, r ∈ rs -> f_records f !! r_URLKey r = None) ->
  good (recover_urls f rs) (fun f' => exists s', steps s s' /\ all_idle s' /\ sees c fr ∅ f' s' /\ carries f f' /\
    (forall r, r ∈ rs -> f_records f' !! r_URLKey r = Some (unflight r)) /\
    (forall k, k ∉ r_URLKey <$> rs -> f_records f' !! k = f_records f !! k) /\
    (forall k, k ∈ s_front s' <-> k ∈ s_front s \/ exists r, r ∈ rs /\ r_URLKey r = k /\ queued (r_Status (unflight r))) /\
    (forall k, k ∈ s_pend s' <-> k ∈ s_pend s \/
       exists r, r ∈ rs /\ r_URLKey r = k /\ fc_wheelOn c = true /\ r_Status (unflight r) = StatusCrawled)).
Proof.
  revert f s. induction rs as [| r rs IH]; intros f s Hs Hi Hr Hd Hn; cbn [recover_urls].
  { exists s. split_and!; try done; [by apply carries_same | ..]; try (by intros r ?%not_elem_of_nil);
      intros k; split; [by left | | by left |]; by intros [? | (r & ?%not_elem_of_nil & _)]. }
  apply Forall_cons in Hr as [Hr Hrs]. cbn in Hd. apply NoDup_cons in Hd as [Hnew Hd].
  eapply good_bind; [by apply (recover_url_sim f s r); [.. | apply Hn; left] |].
  intros f1 (s1 & Hst1 & Hi1 & Hs1 & Hrec1 & Hc1 & Hf1 & Hp1).
  eapply good_mono; [apply (IH f1 s1); try done |].
  - destruct (ca_arena _ _ Hc1) as [ext Ha]. eapply Forall_impl; [exact Hrs |]. intros r2. rewrite Ha. apply recoverable_mono.
    rewrite <- Ha. destruct Hs1. done.
  - intros r2 Hr2. rewrite Hrec1, lookup_insert_ne; [by apply Hn; right |]. intros E. apply Hnew. rewrite E. by apply list_elem_of_fmap_2.
  - intros f2 (s2 & Hst2 & Hi2 & Hs2 & Hc2 & Hin & Hout & Hf2 & Hp2). exists s2. split_and!; try done.
    + by etrans.
    + destruct Hc1 as [Hh1 [e1 Ha1] Hx1], Hc2 as [Hh2 [e2 Ha2] Hx2]. split; [auto | exists (e1 ++ e2) | by rewrite Hx2].
      by rewrite Ha2, Ha1, app_assoc.
    + intros r2 [-> | Hr2]%elem_of_cons; [| by apply Hin]. rewrite Hout by done. by rewrite Hrec1, lookup_insert_eq.
    + intros k Hk. cbn in Hk. apply not_elem_of_cons in Hk as [Hk1 Hk2]. by rewrite Hout, Hrec1, lookup_insert_ne by done.
    + intros k. rewrite Hf2, Hf1, elem_filed_front, exists_cons. intuition congruence.
    + intros k. rewrite Hp2, Hp1, elem_filed_pend, exists_cons. intuition congruence.
Qed.

Lemma recover_hosts_sim hs f s : sees c fr ∅ f s -> all_idle s -> NoDup (h_HostKey <$> hs) ->
  Forall (fun h => ref_ok (f_arena f) (h_HostRef h)) hs -> (forall h, h ∈ hs -> f_hosts f !! h_HostKey h = None) ->
  exists s', steps s s' /\ all_idle s' /\ sees c fr ∅ (foldl recover_host f hs) s' /\ s_front s' = s_front s /\
    s_pend s' = s_pend s /\ f_records (foldl recover_host f hs) = f_records f /\ f_arena (foldl recover_host f hs) = f_arena f /\
    f_active (foldl recover_host f hs) = f_active f /\
    (forall hk h, f_hosts f !! hk = Some h -> f_hosts (foldl recover_host f hs) !! hk = Some h) /\
    (forall h, h ∈ hs -> exists h', f_hosts (foldl recover_host f hs) !! h_HostKey h = Some h' /\ he_rec h' = h).
Proof.
  revert f s. induction hs as [| h hs IH]; intros f s Hs Hi Hd Hr Hn; cbn [foldl].
  { exists s. split_and!; try done. by intros h ?%not_elem_of_nil. }
  apply Forall_cons in Hr as [Hr Hrs]. cbn in Hd. apply NoDup_cons in Hd as [Hnew Hd].
  set (h' := mkEntry h [] false false (c_Default (fc_pol (f_conf f))) (deciToDur (h_CrawlDelay h)) None robotsNone 0).
  assert (Hh : host_sees (f_arena f) (h_HostKey h) h' (Idle, [])) by (by split).
  destruct (sees_new_host c fr ∅ f s (h_HostKey h) h' Hs ltac:(apply Hn; by left) Hh) as [Hnone Hs1].
  change (put_host f (h_HostKey h) h') with (recover_host f h) in Hs1.
  destruct (IH _ _ Hs1) as (s2 & Hst & Hi2 & Hs2 & Hf & Hp & Hrec & Ha & Hact & Hold & Hall); try done.
  - intros hk v Hl. cbn [set_host s_hosts] in Hl. apply lookup_insert_Some in Hl as [[_ <-] | [_ Hl]]; [done | by apply (Hi hk)].
  - intros h2 Hh2. cbn [recover_host put_host with_hosts f_hosts]. rewrite lookup_insert_ne; [by apply Hn; right |].
    intros E. apply Hnew. rewrite E. by apply list_elem_of_fmap_2.
  - exists s2. split_and!; try done.
    + etrans; [| exact Hst]. destruct s. by apply rtc_once, st_host.
    + intros hk h2 Hl. apply Hold. cbn [recover_host put_host with_hosts f_hosts]. rewrite lookup_insert_ne; [done |].
      intros <-. by rewrite Hn in Hl by by left.
    + intros h2 [-> | Hh2]%elem_of_cons; [| by apply Hall]. exists h'. split; [| done]. apply Hold. apply lookup_insert_eq.
Qed.

End Sim.

(** ** The checkpoint's tables *)

(** A table written from a map, sorted: the map's values, each under its own key. *)
Lemma sorted_values {K A} `{Countable K} (R : A -> A -> Prop) `{!forall x y, Decision (R x y)} (key : A -> K) (m : gmap K A) :
  (forall k a, m !! k = Some a -> key a = k) ->
  NoDup (key <$> merge_sort R (map_to_list m).*2) /\
  (forall a, a ∈ merge_sort R (map_to_list m).*2 <-> m !! key a = Some a).
Proof.
  intros Hk. pose proof (merge_sort_Permutation R (map_to_list m).*2) as Hp. split.
  - rewrite Hp. rewrite <- list_fmap_compose. rewrite (list_fmap_ext _ fst); [apply NoDup_fst_map_to_list |].
    intros i [k a] Hl. cbn. apply Hk. apply elem_of_map_to_list. by eapply list_elem_of_lookup_2.
  - intros a. rewrite Hp, list_elem_of_fmap. split.
    + intros ([k b] & -> & Hl%elem_of_map_to_list). cbn. by rewrite (Hk _ _ Hl).
    + intros Hl. exists (key a, a). split; [done | by apply elem_of_map_to_list].
Qed.

Lemma New_arena_sees op a : 0 <= seen_m -> hour_ok (fc_created (op_conf op)) -> arena_ok a ->
  sees (op_conf op) (fresh_on op) ∅ (with_arena (New op) a) empty_sched.
Proof.
  intros Hm Hc Ha. destruct (New_sees op Hm Hc). apply mkSees; try done; intros i;
    cbn [with_arena New f_records f_hosts empty_sched s_status s_hosts]; rewrite !lookup_empty; constructor.
Qed.

(** The rows of a checkpoint can all be recovered. *)
Lemma checkpoint_recoverable c fr f s (Hs : sound c fr f s) :
  (fc_wheelOn c = true -> forall k r, f_records f !! k = Some r -> r_Status r = StatusCrawled -> 0 < r_NextDue r) ->
  forall k r, f_records f !! k = Some r -> r_URLKey r = k /\ recoverable c (f_arena f) r.
Proof.
  intros Hdue k r Hr. pose proof (snd_rec c fr f s Hs k) as Hk. rewrite Hr in Hk. inversion Hk as [? x Hx |]; subst.
  pose proof (rs_key _ _ _ _ Hx) as Ek. split; [exact Ek |]. split.
  - rewrite Ek. destruct Hs as [[? ? ? ? ? Hse] _]. apply (ex_keys_wf (ss_exact (f_seen f))); [apply (sn_exact _ _ Hse) |].
    assert (Hd : k ∈ keys_of (ss_exact (f_seen f))).
    { rewrite (sn_keys _ _ Hse). apply elem_of_union_r, elem_of_dom. by exists r. }
    by rewrite elem_of_list_to_set in Hd.
  - rewrite Ek. by rewrite (rs_status _ _ _ _ Hx).
  - intros Hw. by apply (Hdue Hw k).
Qed.

(** What recovery rebuilds from the checkpoint of a frontier between two calls. *)
Lemma recover_sim op fr f s : sound (op_conf op) fr f s -> 0 <= seen_m -> hour_ok (fc_created (op_conf op)) ->
  (fc_wheelOn (op_conf op) = true -> forall k r, f_records f !! k = Some r -> r_Status r = StatusCrawled -> 0 < r_NextDue r) ->
  good (Recover (Checkpoint f) op) (fun f' => exists s', sound (op_conf op) (fresh_on op) f' s' /\ all_idle s' /\
    f_records f' = unflight <$> f_records f /\ f_active f' = 0 /\
    (forall hk h, f_hosts f !! hk = Some h -> exists h', f_hosts f' !! hk = Some h' /\ he_rec h' = he_rec h) /\
    (forall k, k ∈ s_front s' <-> exists r, f_records f !! k = Some r /\ queued (r_Status (unflight r))) /\
    (forall k, k ∈ s_pend s' <-> exists r, f_records f !! k = Some r /\ fc_wheelOn (op_conf op) = true /\
       r_Status (unflight r) = StatusCrawled)).
Proof.
  intros Hs Hm Hc Hdue. pose proof (checkpoint_recoverable _ _ _ _ Hs Hdue) as Hrec.
  set (c := op_conf op) in *. unfold Recover, Checkpoint. cbn [p_Strings p_Hosts p_URLs].
  set (urls := merge_sort url_order _). set (hosts := merge_sort host_order _).
  assert (Harena : arena_ok (f_arena f)) by (destruct Hs as [[] _]; done).
  destruct (sorted_values url_order r_URLKey (f_records f)) as [Hund Hurl]; [intros k r Hr; by apply Hrec |]. fold urls in Hund, Hurl.
  assert (Hhk : forall hk h, f_hosts f !! hk = Some h -> h_HostKey (he_rec h) = hk /\ ref_ok (f_arena f) (h_HostRef (he_rec h))).
  { intros hk h Hl. destruct (snd_host_at _ _ _ _ Hs _ _ Hl) as (m & b & _ & Hh). by destruct Hh. }
  assert (Hmap : he_rec <$> (map_to_list (f_hosts f)).*2 = (map_to_list (he_rec <$> f_hosts f)).*2).
  { rewrite map_to_list_fmap, <- !list_fmap_compose. apply list_fmap_ext. by intros i [? ?]. }
  unfold hosts in *. rewrite Hmap. clear hosts. set (hosts := merge_sort host_order _).
  destruct (sorted_values host_order h_HostKey (he_rec <$> f_hosts f)) as [Hhnd Hhost].
  { intros hk h [h0 [<- Hl]]%lookup_fmap_Some. by apply (Hhk hk h0). }
  fold hosts in Hhnd, Hhost.
  destruct (recover_hosts_sim c (fresh_on op) hosts (with_arena (New op) (f_arena f)) empty_sched)
    as (s1 & Hst1 & Hi1 & Hs1 & Hf1 & Hp1 & Hr1 & Ha1 & Hact1 & _ & Hh1); [by apply New_arena_sees | | done | | |].
  { intros hk v Hl. cbn in Hl. by rewrite lookup_empty in Hl. }
  { apply Forall_forall. intros h Hl%Hhost. apply lookup_fmap_Some in Hl as (h0 & <- & Hl). by apply (Hhk _ _ Hl). }
  { intros h _. cbn. apply lookup_empty. }
  eapply good_mono; [apply (recover_urls_sim c (fresh_on op) urls _ s1 Hs1 Hi1); [| exact Hund |] |].
  { apply Forall_forall. intros r Hr%Hurl. rewrite Ha1. by apply (Hrec _ _ Hr). }
  { intros r _. rewrite Hr1. apply lookup_empty. }
  intros f' (s2 & Hst2 & Hi2 & Hs2 & Hca & Hin & Hout & Hf2 & Hp2).
  assert (Hex : forall (P : URLRecord -> Prop) k, (exists r, r ∈ urls /\ r_URLKey r = k /\ P r) <-> exists r, f_records f !! k = Some r /\ P r).
  { intros P k. split.
    - intros (r & Hr%Hurl & <- & HP). eauto.
    - intros (r & Hr & HP). destruct (Hrec k r Hr) as [Ek _]. exists r. split; [apply Hurl; by rewrite Ek | done]. }
  exists s2. split_and!.
  - split; [done |]. split; [| by intros hk o b [=]%Hi2]. eapply sched_steps_inv; [| apply sinv_init]. by etrans.
  - done.
  - apply map_eq. intros k. rewrite lookup_fmap. destruct (f_records f !! k) as [r |] eqn:Hr; cbn.
    + destruct (Hrec k r Hr) as [Ek _]. rewrite <- Ek. apply Hin, Hurl. by rewrite Ek.
    + rewrite Hout; [rewrite Hr1; apply lookup_empty |]. intros (r & -> & Hl%Hurl)%list_elem_of_fmap. by rewrite Hr in Hl.
  - by rewrite (ca_active _ _ Hca), Hact1.
  - intros hk h Hl. destruct (Hhk _ _ Hl) as [Ek _]. destruct (Hh1 (he_rec h)) as (h' & Hl' & He).
    { apply Hhost. rewrite lookup_fmap, Ek, Hl. done. }
    exists h'. split; [| done]. apply (ca_hosts _ _ Hca). by rewrite <- Ek.
  - intros k. rewrite Hf2, Hf1, (Hex (fun r => queued (r_Status (unflight r)))). cbn.
    split; [by intros [?%not_elem_of_nil | ?] | by right].
  - intros k. rewrite Hp2, Hp1, (Hex (fun r => fc_wheelOn c = true /\ r_Status (unflight r) = StatusCrawled)). cbn.
    split; [by intros [?%not_elem_of_nil | ?] | by right].
Qed.

(** C5: A restart loses no URL. Take the frontier after any run of calls and rebuild it with
    Recover from its Checkpoint, under the same configuration (and, with the wheel on, no
    crawled URL due at hour 0). Recovery ends, short only of memory; the records are the
    old ones with those in flight scheduled again, every host keeps its host record, so
    its politeness clock, and none is active; the front bank holds exactly the URLs that
    were scheduled, due or in flight, the due wheel exactly the crawled ones when it is
    on; and the frontier's books are in order, so every call can be made on it again. *)
Theorem recover_checkpoint (op0 op : Options) (os : list frontier_op) (f : Frontier) (qs : list (option Request))
    (HX : XXHashLaws) (HL : LinkLaws (op_conf op0)) (Hm : 0 <= seen_m) (Hc : hour_ok (fc_created (op_conf op0)))
    (Hos : run_ok (New op0) os) (Hf : frontier_run (New op0) os = Ok (f, qs)) (Hop : op_conf op = op_conf op0)
    (Hdue : fc_wheelOn (op_conf op0) = true ->
      forall k r, f_records f !! k = Some r -> r_Status r = StatusCrawled -> 0 < r_NextDue r) :
  match Recover (Checkpoint f) op with
  | Ok f' =>
      f_records f' = unflight <$> f_records f /\
      (forall hk h, f_hosts f !! hk = Some h -> exists h', f_hosts f' !! hk = Some h' /\ he_rec h' = he_rec h) /\
      f_active f' = 0 /\
      (forall k, k ∈ front_urls f' <->
         exists r, f_records f !! k = Some r /\ (queued (r_Status r) \/ r_Status r = StatusInFlight)) /\
      (exists p, wheel_rel (f_wheel f') p /\ frontier_sound f' p.*2 /\ forall k, k ∈ p.*2 <->
         exists r, f_records f !! k = Some r /\ fc_wheelOn (op_conf op0) = true /\ r_Status r = StatusCrawled) /\
      exists s, sound (op_conf op) (fresh_on op) f' s
  | Err e => e = OutOfMemory
  end.
Proof.
  pose proof (sound_run (op_conf op0) (fresh_on op0) _ _ os (sound_new op0 Hm Hc) Hos) as Hr. rewrite Hf in Hr.
  destruct Hr as (s & _ & Hs). rewrite <- Hop in *. pose proof (recover_sim op _ f s Hs Hm Hc Hdue) as Hrec.
  destruct (Recover (Checkpoint f) op) as [f' | e]; [| exact Hrec].
  destruct Hrec as (s' & Hs' & _ & Hrc & Hact & Hh & Hfr & Hp). split; [done |]. split; [done |]. split; [done |].
  assert (Hq : forall r, queued (r_Status (unflight r)) <-> queued (r_Status r) \/ r_Status r = StatusInFlight).
  { intros r. unfold unflight, queued. case_decide as E; cbn; [rewrite E |]; intuition congruence. }
  assert (Hcr : forall r, r_Status (unflight r) = StatusCrawled <-> r_Status r = StatusCrawled).
  { intros r. unfold unflight. case_decide as E; cbn; [rewrite E |]; done. }
  split; [intros k; rewrite (snd_front _ _ _ _ Hs'), Hfr; by setoid_rewrite Hq |]. split; [| by exists s'].
  pose proof Hs' as [[? ? ? ? ? ? ? ? ? ? ? (p & Hw & Hpp)] _]. exists p. split; [done |]. split; [by eapply sound_frontier |].
  intros k. rewrite Hpp, Hp. by setoid_rewrite Hcr.
Qed.

End Recovery.

(** ** A restart in the concrete world *)

Import Demo.

(** One page crawled, one in flight, one on its way to a retry. *)
Definition restart_state : Frontier := (out (New demo_op, []) (frontier_run (New demo_op) demo_run)).1.
Definition restart_run := out (New demo_op, []) (frontier_run (New demo_op) demo_run).

Example recover_checkpoint_witness :
  let a := bytes_of "a.org" in let b := bytes_of "b.org" in
  match Recover (Checkpoint restart_state) demo_op with
  | Ok f' =>
      f_records f' = unflight <$> f_records restart_state /\
      demo_key a (bytes_of "/2") ∈ front_urls f' /\ demo_key b (bytes_of "/") ∈ front_urls f' /\
      demo_key a (bytes_of "/1") ∉ front_urls f' /\
      exists p, wheel_rel (f_wheel f') p /\ demo_key a (bytes_of "/1") ∈ p.*2
  | Err _ => False
  end.
Proof.
  intros a b.
  assert (Hd : forall k r, f_records restart_state !! k = Some r -> r_Status r = StatusCrawled -> 0 < r_NextDue r).
  { apply (bool_decide_unpack (map_Forall (fun _ r => r_Status r = StatusCrawled -> 0 < r_NextDue r) (f_records restart_state))).
    vm_compute. exact I. }
  assert (Hr : frontier_run (New demo_op) demo_run = Ok (restart_state, restart_run.2)).
  { unfold restart_state, restart_run. apply (out_ok (New demo_op, []) (frontier_run (New demo_op) demo_run)). vm_compute. reflexivity. }
  assert (Hok : has (Recover (Checkpoint restart_state) demo_op) = true) by (vm_compute; reflexivity).
  assert (Hm : 0 <= seen_m) by discriminate.
  assert (Hc : hour_ok (fc_created (op_conf demo_op))) by (split; [discriminate | reflexivity]).
  pose proof (recover_checkpoint demo_op demo_op demo_run restart_state restart_run.2 demo_hash_laws
    (demo_link_laws (op_conf demo_op) eq_refl) Hm Hc demo_run_ok Hr) as Hrec.
  specialize (Hrec eq_refl).
  specialize (Hrec (fun _ => Hd)).
  destruct (Recover (Checkpoint restart_state) demo_op) as [f' | e]; [| discriminate].
  destruct Hrec as (Hrc & _ & _ & Hf & (p & Hw & _ & Hp) & _). split; [exact Hrc |].
  split; [apply Hf; eexists; split; [vm_compute; reflexivity | by right] |].
  split; [apply Hf; eexists; split; [vm_compute; reflexivity | by left; left] |]. split.
  - intros (r & Hl & Hs)%Hf. revert Hs. vm_compute in Hl. injection Hl as <-. intros [[? | [? | ?]] | ?]; discriminate.
  - exists p. split; [exact Hw |]. apply Hp. eexists. split; [vm_compute; reflexivity | by split].
Defined.
