(* ===== verification/FrontierDrain.v ===== *)
(** * Draining the frontier

    The loop of Drain without robots.txt, resolver, wheel, freshness or importance hooks:
    it ends, and when it does every URL the frontier held is settled. *)

From S2P Require Import Prelude Words Model Updates Arena Heap Ring Wheel SeenSet GoStrings Robots Politeness.
From S2P Require Import Admission File Ops Frontier FrontierSched FrontierSim World FrontierSpec FrontierPolite.
From Stdlib Require String.
Import String.StringSyntax.
Open Scope Z_scope.

(** ** What is still to be fetched *)

(** A URL not settled counts its remaining attempts. *)
Definition live (r : URLRecord) : Prop := queued (r_Status r) \/ r_Status r = StatusInFlight.
#[export] Instance live_dec r : Decision (live r).
Proof. unfold live. apply _. Defined.
Definition attempts (r : URLRecord) : nat :=
  if decide (live r) then Z.to_nat (Z.max 1 (maxRetries + 1 - r_RetryCount r)) else 0.
Definition owed_in (m : gmap URLKey URLRecord) : nat := sum_list ((fun e => attempts e.2) <$> map_to_list m).

Lemma owed_insert m k r : m !! k = None -> owed_in (<[k := r]> m) = (attempts r + owed_in m)%nat.
Proof. intros Hk. unfold owed_in. by rewrite map_to_list_insert. Qed.

Lemma owed_lookup m k r : m !! k = Some r -> owed_in m = (attempts r + owed_in (delete k m))%nat.
Proof. intros Hk. rewrite <- (insert_delete_id m k r Hk) at 1. apply owed_insert, lookup_delete_eq. Qed.

Lemma owed_replace m k r r' : m !! k = Some r -> (owed_in (<[k := r']> m) + attempts r = owed_in m + attempts r')%nat.
Proof.
  intros Hk. rewrite (owed_lookup m k r Hk). rewrite <- insert_delete_eq, owed_insert by apply lookup_delete_eq. lia.
Qed.

(** Rewriting a record with the same status and retries. *)
Lemma attempts_same r r' : r_Status r' = r_Status r -> r_RetryCount r' = r_RetryCount r -> attempts r' = attempts r.
Proof.
  intros Hs Hr. unfold attempts. rewrite Hr. assert (Hl : live r' <-> live r) by (unfold live; by rewrite Hs).
  by rewrite (decide_ext _ _ _ _ Hl).
Qed.

(** The first parked host is the earliest. *)
Lemma wait_head_min x w y : heap_ordered wait_less (x :: w) -> y ∈ x :: w -> wi_eligible x <= wi_eligible y.
Proof.
  intros Ho Hy. pose proof (heap_min wait_less (x :: w) x y Ho eq_refl Hy) as Hm. unfold wait_less in Hm.
  case_match; bool_prop; lia.
Qed.

(** A bank holds one list of hosts. *)
Lemma bank_holds_fun b l l' : bank_holds b l -> bank_holds b l' -> l ≡ₚ l'.
Proof. intros Hb Hb'. by rewrite <- (bank_items_perm b l Hb), (bank_items_perm b l' Hb'). Qed.

Section Drain.
Context `{XXHash} `{Unicode} `{Traps} `{Prio} `{Fresh} `{Resolver} `{Canon} `{SeenSizes}.
Implicit Types (f : Frontier).

Definition owed f : nat := owed_in (f_records f).

(** ** The clocks without a resolver *)

Definition due_of (h : hostEntry) : Z := h_HostNextEligible (he_rec h).
Definition same_clock (h h' : hostEntry) : Prop :=
  due_of h' = due_of h /\ h_ResolvedIP (he_rec h') = h_ResolvedIP (he_rec h) /\ h_HostKey (he_rec h') = h_HostKey (he_rec h).

(** Every parked host is parked until its clock, every ready one is due. *)
Record tidy f (now : Z) : Prop := {
  td_hosts hk h : f_hosts f !! hk = Some h -> h_HostKey (he_rec h) = hk /\ h_ResolvedIP (he_rec h) = zeroIP /\ 0 <= due_of h < 2 ^ 32;
  td_heap : heap_ordered wait_less (f_wait f);
  td_wait it : it ∈ f_wait f -> exists h, f_hosts f !! wi_hostKey it = Some h /\ wi_eligible it = due_of h;
  td_ready : exists l, bank_holds (f_readyHosts f) l /\ forall hk, hk ∈ l -> exists h, f_hosts f !! hk = Some h /\ due_of h <= now;
  td_conf : fc_robotsOn (f_conf f) = false /\ fc_wheelOn (f_conf f) = false;
  td_off : f_resolver f = None /\ f_fresh f = None /\ f_prio f = None }.

Definition has_ready f : Prop := exists l, bank_holds (f_readyHosts f) l /\ l <> [].

Lemma tidy_later f now now' : tidy f now -> now <= now' -> tidy f now'.
Proof.
  intros [? ? ? (l & Hb & Hl) ? ?] Hn. split; try done. exists l. split; [done |]. intros hk (h & Hh & Hd)%Hl. exists h. split; [done | lia].
Qed.

Lemma tidy_same f f' now : tidy f now -> f_hosts f' = f_hosts f -> f_wait f' = f_wait f -> f_readyHosts f' = f_readyHosts f ->
  f_conf f' = f_conf f -> f_resolver f' = f_resolver f -> f_fresh f' = f_fresh f -> f_prio f' = f_prio f -> tidy f' now.
Proof. intros [] Eh Ew Er Ec E1 E2 E3. split; by rewrite ?Eh, ?Ew, ?Er, ?Ec, ?E1, ?E2, ?E3. Qed.

Lemma tidy_host f now hk h h' : tidy f now -> f_hosts f !! hk = Some h -> same_clock h h' -> tidy (put_host f hk h') now.
Proof.
  intros [Hh Hp Hw (l & Hb & Hl) Hc Ho] Hk (Hd & Hi & Hk'). split; try done; cbn [put_host with_hosts f_hosts].
  - intros hk2 h2 [[<- <-] | [_ Hl2]]%lookup_insert_Some; [| by apply Hh]. destruct (Hh _ _ Hk) as (? & ? & ?).
    by rewrite Hk', Hi, Hd.
  - intros it (h2 & Hl2 & He)%Hw. destruct (decide (wi_hostKey it = hk)) as [E | E].
    + exists h'. rewrite E, lookup_insert_eq. split; [done |]. rewrite E, Hk in Hl2. injection Hl2 as <-. by rewrite Hd.
    + exists h2. by rewrite lookup_insert_ne.
  - exists l. split; [done |]. intros hk2 (h2 & Hl2 & He)%Hl. destruct (decide (hk2 = hk)) as [-> | E].
    + exists h'. rewrite lookup_insert_eq. split; [done |]. rewrite Hk in Hl2. injection Hl2 as <-. by rewrite Hd.
    + exists h2. by rewrite lookup_insert_ne.
Qed.

Lemma eligible_due f now hk h : tidy f now -> f_hosts f !! hk = Some h -> eligibleNow f h = due_of h.
Proof.
  intros Ht Hk. destruct (td_hosts _ _ Ht _ _ Hk) as (_ & Hi & Hd). unfold eligibleNow, EligibleAt. rewrite Hi, decide_True by done.
  rewrite u32_small by (unfold fits; lia). unfold due_of in *. lia.
Qed.

Lemma tidy_park f now hk h : tidy f now -> f_hosts f !! hk = Some h ->
  tidy (with_wait f (wait_push (f_wait f) hk (due_of h))) now /\
  forall it, it ∈ wait_push (f_wait f) hk (due_of h) -> it ∈ f_wait f \/ wi_eligible it = due_of h.
Proof.
  intros [Hh Hp Hw Hr Hc Ho] Hk. destruct (wait_push_heap (f_wait f) hk (due_of h) Hp) as [Hp' Hpm].
  assert (Hin : forall it, it ∈ wait_push (f_wait f) hk (due_of h) -> it = mkWaitItem hk (due_of h) \/ it ∈ f_wait f)
    by (intros it; rewrite Hpm; apply elem_of_cons).
  split; [split; try done; cbn [with_wait f_wait f_hosts] |].
  - intros it [-> | Hit]%Hin; [by exists h | by apply Hw].
  - intros it [-> | Hit]%Hin; [by right | by left].
Qed.

Lemma tidy_ready f now hk h p : tidy f now -> f_hosts f !! hk = Some h -> due_of h <= now ->
  tidy (with_readyHosts f (bank_push (f_readyHosts f) hk p)) now /\ has_ready (with_readyHosts f (bank_push (f_readyHosts f) hk p)).
Proof.
  intros [Hh Hp Hw (l & Hb & Hl) Hc Ho] Hk Hd. pose proof (bank_push_holds _ _ hk p Hb) as Hb'.
  split; [split; try done | by exists (hk :: l)].
  exists (hk :: l). split; [done |]. intros hk2 [-> | Hin]%elem_of_cons; [by exists h | by apply Hl].
Qed.

Lemma has_ready_push f hk p : has_ready f -> has_ready (with_readyHosts f (bank_push (f_readyHosts f) hk p)).
Proof. intros (l & Hb & Hl). exists (hk :: l). split; [by apply bank_push_holds | done]. Qed.

(** *** What the steps towards a dispatch do *)

(** A host with a request out. *)
Definition flying f (hk : Z) : Prop := exists h, f_hosts f !! hk = Some h /\ he_inFlight h = true.

Lemma flying_put f hk h h' hk2 : f_hosts f !! hk = Some h -> he_inFlight h' = he_inFlight h ->
  flying (put_host f hk h') hk2 -> flying f hk2.
Proof.
  intros Hh Hf (h2 & Hl & Hi). cbn [put_host with_hosts f_hosts] in Hl.
  apply lookup_insert_Some in Hl as [[<- <-] | [_ Hl]]; [exists h; by rewrite <- Hf | by exists h2].
Qed.

Record advances (now : Z) f f' : Prop := {
  av_tidy : tidy f' now;
  av_owed : (owed f' <= owed f)%nat;
  av_conf : f_conf f' = f_conf f;
  av_dom : dom (f_records f') = dom (f_records f);
  av_flying hk : flying f' hk -> flying f hk;
  av_ready : has_ready f -> has_ready f';
  av_wait it : it ∈ f_wait f' -> it ∈ f_wait f \/ now < wi_eligible it }.

Lemma advances_trans now f1 f2 f3 : advances now f1 f2 -> advances now f2 f3 -> advances now f1 f3.
Proof.
  intros [? ? Hc Hd ? ? Hw] [? ? Hc' Hd' ? ? Hw']. split; [done | lia | by rewrite Hc' | by rewrite Hd' | auto | auto |].
  intros it [Hi | Hi]%Hw'; [by apply Hw | by right].
Qed.

(** The schedule's own parts unchanged, the records relabelled at most. *)
Lemma advances_same now f f' : tidy f now -> f_hosts f' = f_hosts f -> f_wait f' = f_wait f -> f_readyHosts f' = f_readyHosts f ->
  f_conf f' = f_conf f -> f_resolver f' = f_resolver f -> f_fresh f' = f_fresh f -> f_prio f' = f_prio f ->
  (owed f' <= owed f)%nat -> dom (f_records f') = dom (f_records f) -> advances now f f'.
Proof.
  intros Ht Eh Ew Er Ec E1 E2 E3 Ho Hd. split; [by eapply tidy_same | done | done | done | | |].
  - unfold flying. by rewrite Eh.
  - unfold has_ready. by rewrite Er.
  - rewrite Ew. by left.
Qed.

Lemma dom_put f k r r' : f_records f !! k = Some r -> dom (f_records (put_rec f k r')) = dom (f_records f).
Proof. intros Hk. cbn [put_rec with_records f_records]. apply dom_insert_lookup_L. by exists r. Qed.

Lemma owed_put f k r r' : f_records f !! k = Some r -> (owed (put_rec f k r') + attempts r = owed f + attempts r')%nat.
Proof. apply owed_replace. Qed.

Lemma advances_put now f k r r' : tidy f now -> f_records f !! k = Some r -> (attempts r' <= attempts r)%nat ->
  advances now f (put_rec f k r').
Proof.
  intros Ht Hk Ha. apply advances_same; try done; [pose proof (owed_put f k r r' Hk); lia | by eapply dom_put].
Qed.

Lemma place_advances f hk h now : tidy f now -> f_hosts f !! hk = Some h -> oks (place f h now) (advances now f).
Proof.
  intros Ht Hk. unfold place. destruct (he_back h) as [| key b]; [by apply advances_same |].
  destruct (he_inFlight h); [by apply advances_same |]. rewrite (eligible_due f now hk h Ht Hk).
  destruct (td_hosts _ _ Ht _ _ Hk) as (-> & _ & _). destruct (due_of h <=? now) eqn:E; bool_prop.
  - eapply oks_bind; [apply oks_true |]. intros r _. destruct (tidy_ready f now hk h (r_Priority r) Ht Hk E) as [Ht' Hr'].
    split; try done. by left.
  - destruct (tidy_park f now hk h Ht Hk) as [Ht' Hw]. split; try done. intros it [Hi | Hi]%Hw; [by left | right; lia].
Qed.

Lemma promote_loop_advances n f now : tidy f now ->
  oks (promote_loop n f now) (fun f' => advances now f f' /\ Forall (fun it => now < wi_eligible it) (f_wait f')).
Proof.
  revert f. induction n as [| n IH]; intros f Ht; [done |]. cbn [promote_loop].
  destruct (f_wait f) as [| x w] eqn:Ew.
  { cbn [wait_popMin]. split; [by apply advances_same | by rewrite Ew]. }
  pose proof (td_heap _ _ Ht) as Ho. rewrite Ew in Ho. destruct (wait_popMin_heap x w Ho) as (w' & Hp & Ho' & Hpm). rewrite Hp.
  destruct (now <? wi_eligible x) eqn:E; bool_prop.
  { split; [by apply advances_same |]. rewrite Ew. apply Forall_forall. intros y Hy.
    pose proof (wait_head_min x w y Ho Hy). lia. }
  assert (Hw : advances now f (with_wait f w')).
  { destruct Ht as [? ? Hw ? ? ?]. split; try done.
    - split; try done. intros it Hi. cbn in Hi. apply Hw. rewrite Ew, <- Hpm. by right.
    - intros it Hi. left. rewrite Ew, <- Hpm. by right. }
  assert (Hgo : forall g, advances now f g -> oks (promote_loop n g now)
    (fun f' => advances now f f' /\ Forall (fun it => now < wi_eligible it) (f_wait f'))).
  { intros g Hg. eapply oks_mono; [apply IH, Hg |]. intros f' [Hf Hl]. split; [by eapply advances_trans | done]. }
  cbn [with_wait f_hosts]. destruct (td_wait _ _ Ht x) as (h & Hh & He); [rewrite Ew; by left |]. rewrite Hh.
  destruct (he_back h) as [| key b]; [by apply Hgo |].
  rewrite (eligible_due (with_wait f w') now (wi_hostKey x) h (av_tidy _ _ _ Hw) Hh). rewrite (proj2 (Z.ltb_ge now _)) by lia.
  eapply oks_bind; [apply oks_true |]. intros r _. apply Hgo. eapply advances_trans; [exact Hw |].
  destruct (tidy_ready (with_wait f w') now _ h (r_Priority r) (av_tidy _ _ _ Hw) Hh) as [Ht' Hr']; [lia |].
  split; try done. by left.
Qed.

(** A parked host whose time has come is ready after [promote]. *)
Lemma promote_ripe f now it : tidy f now -> it ∈ f_wait f -> wi_eligible it <= now ->
  (forall it h, it ∈ f_wait f -> f_hosts f !! wi_hostKey it = Some h -> he_back h <> []) ->
  oks (promote f now) has_ready.
Proof.
  intros Ht Hit He Hb. unfold promote. generalize (length (f_wait f)) as n. intros n. cbn [promote_loop].
  destruct (f_wait f) as [| x w] eqn:Ew; [by apply not_elem_of_nil in Hit |].
  pose proof (td_heap _ _ Ht) as Ho. rewrite Ew in Ho. destruct (wait_popMin_heap x w Ho) as (w' & Hp & Ho' & Hpm). rewrite Hp.
  pose proof (wait_head_min x w it Ho Hit). rewrite (proj2 (Z.ltb_ge now _)) by lia.
  cbn [with_wait f_hosts]. destruct (td_wait _ _ Ht x) as (h & Hh & Hd); [rewrite Ew; by left |]. rewrite Hh.
  pose proof (Hb x h ltac:(by left) Hh) as Hbk. destruct (he_back h) as [| key b]; [done |].
  assert (Hw : tidy (with_wait f w') now).
  { destruct Ht as [? ? Hw ? ? ?]. split; try done. intros it2 Hi. cbn in Hi. apply Hw. rewrite Ew, <- Hpm. by right. }
  rewrite (eligible_due (with_wait f w') now (wi_hostKey x) h Hw Hh). rewrite (proj2 (Z.ltb_ge now _)) by lia.
  eapply oks_bind; [apply oks_true |]. intros r _.
  destruct (tidy_ready (with_wait f w') now _ h (r_Priority r) Hw Hh) as [Ht' Hr']; [lia |].
  eapply oks_mono; [apply promote_loop_advances, Ht' |]. intros f' [Ha _]. by apply (av_ready _ _ _ Ha).
Qed.

Lemma promote_aged_advances age f now n : tidy f now -> advances now f (promote_aged f age n).
Proof.
  revert f. induction age as [| w age IH]; intros f Ht; cbn [promote_aged]; [by apply advances_same |].
  destruct (_ || _); [by apply advances_same |]. destruct (f_records f !! fw_key w) as [r |] eqn:Hr; [| by apply IH].
  destruct (decide _); [| by apply IH]. destruct (rebucket _ _ _ _) as [moved ring].
  assert (Ha : advances now f (with_urlFront f ring)) by by apply advances_same.
  destruct moved; (eapply advances_trans; [| apply IH]); [| apply (av_tidy now f) | exact Ha | apply Ha].
  - eapply advances_trans; [exact Ha |]. eapply advances_put; [apply Ha | exact Hr |]. by rewrite (attempts_same r).
  - eapply advances_trans; [exact Ha |]. eapply advances_put; [apply Ha | exact Hr |]. by rewrite (attempts_same r).
Qed.

(** [distribute] stops with the front bank empty or the active set full. *)
Definition bound_out f : Prop := ring_pop (f_urlFront f) = None \/ effectiveTarget f <= f_active f.

Lemma distribute_loop_advances n f now : tidy f now ->
  oks (distribute_loop n f (effectiveTarget f) now) (fun f' => advances now f f' /\ bound_out f').
Proof.
  intros Ht. cut (forall g, advances now f g -> oks (distribute_loop n g (effectiveTarget f) now) (fun f' => advances now f f' /\ bound_out f')).
  { intros Hg. apply Hg. by apply advances_same. }
  induction n as [| n IH]; intros g Hg; [done |]. cbn [distribute_loop].
  destruct (ring_pop (f_urlFront g)) as [[key r] |] eqn:Hp; [| split; [done | by left]].
  eapply oks_bind; [apply get_host_oks |]. intros h Hh.
  destruct (negb (he_active h) && _) eqn:Ea.
  { apply andb_true_iff in Ea as [_ Ea%Z.leb_le]. split; [done |]. right. unfold effectiveTarget in *. by rewrite (av_conf _ _ _ Hg). }
  pose proof (av_tidy _ _ _ Hg) as Htg.
  assert (Hg1 : advances now f (with_urlFront g r)) by (eapply advances_trans; [exact Hg | by apply advances_same]).
  eapply oks_bind; [apply oks_true |]. intros ok _. destruct (negb ok).
  { unfold get_rec. cbn [with_urlFront f_records]. destruct (f_records g !! key) as [rec |] eqn:Hr; [| done]. apply IH.
    eapply advances_trans; [exact Hg1 |]. eapply advances_put; [apply Hg1 | exact Hr |].
    unfold attempts at 1. rewrite decide_False; [lia |]. by intros [[? | [? | ?]] | ?]. }
  assert (Hput : forall h', same_clock h h' -> he_inFlight h' = he_inFlight h -> advances now f (put_host (with_urlFront g r) (HostKey key) h')).
  { intros h' Hs Hfe. destruct Hg1 as [Ht1 ? ? ? Hf1 ? ?]. split; try done; [by apply (tidy_host _ _ _ h) |].
    intros hk Hfl. apply Hf1. by eapply (flying_put (with_urlFront g r) (HostKey key) h h'). }
  destruct (he_active h).
  { apply IH. by apply Hput. }
  set (h' := he_set_active _ true). set (g2 := with_active _ _).
  assert (Hg2 : advances now f g2).
  { eapply advances_trans; [apply (Hput h'); by split |]. by apply advances_same; [apply (Hput h'); by split | ..]. }
  eapply oks_bind; [eapply (place_advances g2 (HostKey key) h'); [apply Hg2 | apply lookup_insert_eq] |].
  intros g3 Hg3. apply IH. by eapply advances_trans.
Qed.

Lemma distribute_advances f now : tidy f now -> oks (distribute f now) (fun f' => advances now f f' /\ bound_out f').
Proof.
  intros Ht. unfold distribute. match goal with |- oks (distribute_loop _ ?g _ _) _ => assert (Hg : advances now f g) end.
  { destruct (fc_bounded _); [| by apply advances_same]. destruct (_ <=? _); [| by apply advances_same].
    eapply advances_trans; [| apply promote_aged_advances]; by apply advances_same || by eapply tidy_same. }
  assert (Et : effectiveTarget f = effectiveTarget (if fc_bounded (f_conf f) then
      let f := with_sinceSweep f (f_sinceSweep f + 1) in
      if frontRefillBatch <=? f_sinceSweep f then promoteAged (with_sinceSweep f 0) (now / 3600) else f else f))
    by (unfold effectiveTarget; by rewrite (av_conf _ _ _ Hg)).
  eapply oks_mono; [apply distribute_loop_advances, Hg |]. intros f' [Ha Hb]. split; [by eapply advances_trans | done].
Qed.

(** The ready bank is looked into once: its first host is due. *)
Lemma pick_ready_due n f shard now : tidy f now -> oks (pick_ready n f shard now) (fun '(f', p) =>
  match p with
  | None => f' = f /\ ~ has_ready f
  | Some (hk, h) => exists bank, popShard (f_readyHosts f) shard = Some (hk, bank) /\ f_hosts f !! hk = Some h /\
      f' = put_host (with_readyHosts f bank) hk h
  end).
Proof.
  intros Ht. destruct n as [| n]; [done |]. cbn [pick_ready]. destruct (td_ready _ _ Ht) as (l & Hb & Hl).
  pose proof (popShard_holds _ _ shard Hb) as Hp. destruct (popShard (f_readyHosts f) shard) as [[hk bank] |].
  2: { split; [done |]. intros (l' & Hb' & Hne). subst l. by apply Hne, Permutation_nil, (bank_holds_fun _ _ _ Hb Hb'). }
  destruct Hp as (l' & Hll & Hb'). eapply oks_bind; [apply get_host_oks |]. intros h Hh.
  unfold resolveHost. cbn [with_readyHosts f_resolver]. destruct (td_off _ _ Ht) as (-> & _ & _). cbn [mbind res_bind].
  destruct (Hl hk) as (h0 & Hh0 & Hd); [rewrite Hll; by left |]. rewrite Hh in Hh0. injection Hh0 as <-.
  assert (Ee : eligibleNow (put_host (with_readyHosts f bank) hk h) h = due_of h) by (by rewrite <- (eligible_due f now hk h)).
  rewrite Ee, (proj2 (Z.ltb_ge now _)) by lia. by exists bank.
Qed.

(** *** A dispatch *)

Section Steps.
Context (c : FConf) (fr : bool) `{!XXHashLaws} `{!LinkLaws c}.

Lemma oks_good {A} (m : res A) P Q : good m P -> oks m Q -> oks m (fun a => P a /\ Q a).
Proof. by destruct m. Qed.

Lemma sound_books f s : sound c fr f s -> exists pend, frontier_sound f pend.
Proof. intros Hs. exists (s_pend s). by eapply sound_frontier. Qed.

Lemma ready_head_queued s hk k b : sinv (fc_wheelOn c) fr (fc_robotsOn c) s -> s_hosts s !! hk = Some (Ready, k :: b) ->
  exists x, s_status s !! k = Some x /\ queued x.
Proof.
  intros Hi Hl. destruct s as [st hs f p]. cbn in Hl.
  destruct (once_host _ _ _ _ _ _ _ Hl (si_once _ _ _ _ Hi)) as [_ Hd]. destruct (Hd k) as [Hf Hp]; [by left |].
  pose proof (si_own _ _ _ _ Hi _ _ _ k Hl ltac:(by left)) as Ho. pose proof (status_before _ _ _ _ _ _ _ _ _ _ k Hi Hl Ho) as Hs.
  rewrite place_of_host in Hs by done. unfold place_in in Hs.
  rewrite decide_False, decide_False, decide_True in Hs; [exact Hs | by left | by intros [? _] | done].
Qed.

(** A host handed out is in neither pool, so its new clock concerns nobody. *)
Lemma tidy_dispatched f bank hk h f' h' now : tidy f now -> (exists s', sound c fr f' s') ->
  f_hosts f !! hk = Some h -> (exists sh, popShard (f_readyHosts f) sh = Some (hk, bank)) ->
  f_hosts f' = <[hk := h']> (f_hosts f) -> f_wait f' = f_wait f -> f_readyHosts f' = bank -> f_conf f' = f_conf f ->
  f_resolver f' = f_resolver f -> f_fresh f' = f_fresh f -> f_prio f' = f_prio f ->
  h_HostKey (he_rec h') = h_HostKey (he_rec h) -> h_ResolvedIP (he_rec h') = h_ResolvedIP (he_rec h) ->
  0 <= due_of h' < 2 ^ 32 -> he_inFlight h' = true -> tidy f' now.
Proof.
  intros Ht [s' Hs'] Hh [sh Hp] Eh Ew Er Ec E1 E2 E3 Ek Ei Hd Hfl. destruct (sound_books _ _ Hs') as [pend Hb].
  assert (Hne : forall hk2, hk2 ∈ wait_hosts f' ++ ready_hosts f' -> hk2 <> hk).
  { intros hk2 Hin ->. destruct (fs_parked _ _ Hb _ Hin) as (h2 & Hl & _ & Hi). rewrite Eh, lookup_insert_eq in Hl.
    injection Hl as <-. congruence. }
  assert (Hold : forall hk2 h2, f_hosts f !! hk2 = Some h2 -> hk2 ∈ wait_hosts f' ++ ready_hosts f' -> f_hosts f' !! hk2 = Some h2).
  { intros hk2 h2 Hl Hin. rewrite Eh, lookup_insert_ne; [done |]. by apply not_eq_sym, Hne. }
  destruct Ht as [Hho Hhe Hwa (l & Hbl & Hl) Hc Ho]. split.
  - intros hk2 h2. rewrite Eh. intros [[<- <-] | [_ Hl2]]%lookup_insert_Some; [| by apply Hho].
    destruct (Hho _ _ Hh) as (? & ? & _). by rewrite Ek, Ei.
  - by rewrite Ew.
  - intros it Hi. rewrite Ew in Hi. destruct (Hwa it Hi) as (h2 & Hl2 & He). exists h2. split; [| done].
    apply Hold; [done |]. apply elem_of_app. left. unfold wait_hosts. rewrite Ew. by apply list_elem_of_fmap_2.
  - pose proof (popShard_holds _ _ sh Hbl) as Hpop. rewrite Hp in Hpop.
    destruct Hpop as (l' & Hll & Hb'). exists l'. rewrite Er. split; [done |]. intros hk2 Hin.
    destruct (Hl hk2) as (h2 & Hl2 & Hd2); [rewrite Hll; by right |]. exists h2. split; [| done]. apply Hold; [done |].
    apply elem_of_app. right. unfold ready_hosts. by rewrite Er, (bank_items_perm _ _ Hb').
  - by rewrite Ec.
  - by rewrite E1, E2, E3.
Qed.

(** What a dispatch leaves when it hands out nothing. *)
Definition stalled f now : Prop := ~ has_ready f /\ Forall (fun it => now < wi_eligible it) (f_wait f) /\ bound_out f.

(** Some parked host's time has come. *)
Definition ripe_at f now : Prop := Exists (fun it => wi_eligible it <= now) (f_wait f).

Lemma promote_oks f s now : sees c fr ∅ f s -> sinv (fc_wheelOn c) fr (fc_robotsOn c) s -> tidy f now ->
  (forall it h, it ∈ f_wait f -> f_hosts f !! wi_hostKey it = Some h -> he_back h <> []) ->
  oks (promote f now) (fun f' => (exists s', sees c fr ∅ f' s' /\ sinv (fc_wheelOn c) fr (fc_robotsOn c) s') /\
    advances now f f' /\ Forall (fun it => now < wi_eligible it) (f_wait f') /\ (ripe_at f now -> has_ready f')).
Proof.
  intros Hs Hi Ht Hb. pose proof (promote_sim c fr f s now Hs Hi) as Hg.
  pose proof (promote_loop_advances (S (length (f_wait f))) f now Ht) as Ha. fold (promote f now) in Ha.
  assert (Hr : oks (promote f now) (fun f' => ripe_at f now -> has_ready f')).
  { destruct (decide (ripe_at f now)) as [(it & Hit & He)%Exists_exists | Hn].
    - eapply oks_mono; [by apply (promote_ripe f now it) |]. by intros f' Hf' _.
    - eapply oks_mono; [apply oks_true |]. by intros f' _ ?. }
  destruct (promote f now) as [f' |]; [| done]. destruct Hg as (s' & [Hst _] & Hs'). destruct Ha as [Ha Hw].
  split; [| done]. exists s'. split; [done |]. by eapply sched_steps_inv.
Qed.

Lemma distribute_oks f s now : sees c fr ∅ f s -> sinv (fc_wheelOn c) fr (fc_robotsOn c) s -> tidy f now ->
  oks (distribute f now) (fun f' => (exists s', sees c fr ∅ f' s' /\ sinv (fc_wheelOn c) fr (fc_robotsOn c) s') /\
    advances now f f' /\ bound_out f').
Proof.
  intros Hs Hi Ht. pose proof (distribute_sim c fr f s now Hs Hi) as Hg. pose proof (distribute_advances f now Ht) as Ha.
  destruct (distribute f now) as [f' |]; [| done]. destruct Hg as (s' & [Hst _] & Hs').
  split; [| done]. exists s'. split; [done |]. by eapply sched_steps_inv.
Qed.

Lemma dispatch_oks f s now shard : sees c fr ∅ f s -> sinv (fc_wheelOn c) fr (fc_robotsOn c) s -> tidy f now ->
  (forall it h, it ∈ f_wait f -> f_hosts f !! wi_hostKey it = Some h -> he_back h <> []) ->
  oks (DispatchShard f now shard) (fun '(f', q) => (exists s', sound c fr f' s') ->
    tidy f' now /\ (owed f' <= owed f)%nat /\ dom (f_records f') = dom (f_records f) /\
    (exists hk, forall hk', flying f' hk' -> flying f hk' \/ (q <> None /\ hk' = hk)) /\
    (ripe_at f now -> q <> None) /\ (q = None -> stalled f' now)).
Proof.
  intros Hs Hi Ht Hwb. unfold DispatchShard, promoteDue. destruct (td_conf _ _ Ht) as [_ ->]. cbn [negb mbind res_bind].
  eapply oks_bind; [by apply (promote_oks f s) |]. intros f2 ((s2 & Hs2 & Hi2) & Ha2 & Hw2 & Hr2).
  eapply oks_bind; [by apply (distribute_oks f2 s2); [.. | apply Ha2] |]. intros f3 ((s3 & Hs3 & Hi3) & Ha3 & Hb3).
  pose proof (advances_trans _ _ _ _ Ha2 Ha3) as Ha. pose proof (av_tidy _ _ _ Ha) as Ht3.
  eapply oks_bind; [by apply pick_ready_due |]. intros [f4 [[hk h] |]].
  2: { intros [-> Hne] _. split; [done |]. split; [apply (av_owed _ _ _ Ha) |]. split; [apply (av_dom _ _ _ Ha) |].
       split; [exists 0; intros hk' Hf; left; by apply (av_flying _ _ _ Ha) |].
       split; [intros Hrp; exfalso; by apply Hne, (av_ready _ _ _ Ha3), Hr2 |]. intros _. split; [done |]. split; [| done].
       apply Forall_forall. intros it [Hit | Hit]%(av_wait _ _ _ Ha3); [| done]. by apply (proj1 (Forall_forall _ _) Hw2). }
  intros (bank & Hp & Hh & ->). rewrite (proj1 (td_conf _ _ Ht3) : fc_robotsOn (f_conf (put_host (with_readyHosts f3 bank) hk h)) = false).
  cbn [andb]. destruct (sees_pop_ready _ _ _ _ _ _ _ _ Hs3 Hp) as (b & Hl & _).
  destruct (sees_host _ _ _ _ _ _ _ Hs3 Hl) as (h0 & Hh0 & Hhs). rewrite Hh in Hh0. injection Hh0 as <-.
  pose proof (hs_back _ _ _ _ Hhs) as Hback. destruct (he_back h) as [| key b']; [done |]. cbn in Hback. subst b.
  destruct (ready_head_queued _ _ _ _ Hi3 Hl) as (x & Hx & Hq).
  destruct (sees_rec _ _ _ _ _ _ _ Hs3 Hx) as (r & Hr & Hrs). unfold get_rec. cbn [put_host with_hosts with_readyHosts f_records].
  rewrite Hr. cbn [mbind res_bind spend].
  eapply oks_bind; [apply oks_true |]. intros url _. eapply oks_bind; [apply oks_true |]. intros etag _. cbn [oks].
  intros Hs'. assert (Ho : owed_in (<[key := set_Status r StatusInFlight]> (f_records f3)) = owed f3).
  { pose proof (owed_replace (f_records f3) key r (set_Status r StatusInFlight) Hr) as Ho.
    assert (Hat : attempts (set_Status r StatusInFlight) = attempts r).
    { unfold attempts. rewrite !decide_True; [done | left; by rewrite (rs_status _ _ _ _ Hrs) | by right]. }
    unfold owed. lia. }
  split; [| split; [| split; [| split; [| done]]]].
  - eapply (tidy_dispatched f3 bank hk h); [exact Ht3 | exact Hs' | exact Hh | by exists shard
      | cbn; rewrite insert_insert_eq; reflexivity | reflexivity ..| | reflexivity].
    unfold due_of. cbn.
      pose proof (u32_fits (now + durSecs (HostInterval (fc_pol (f_conf f3)) (he_effective h) (he_crawlFloor h)))).
      unfold fits in *. lia.
  - unfold owed at 1. cbn [put_rec put_host with_hosts with_ips with_records with_readyHosts f_records]. rewrite Ho. apply (av_owed _ _ _ Ha).
  - cbn [put_rec put_host with_hosts with_ips with_records with_readyHosts f_records]. rewrite dom_insert_lookup_L by (by exists r).
    apply (av_dom _ _ _ Ha).
  - exists hk. intros hk' (h2 & Hl2 & Hfl). cbn in Hl2. rewrite insert_insert_eq in Hl2.
    apply lookup_insert_Some in Hl2 as [[<- _] | [_ Hl2]]; [by right | left]. apply (av_flying _ _ _ Ha). by exists h2.
Qed.

(** *** An outcome *)

Record settles (now : Z) f f' : Prop := {
  st_tidy : tidy f' now;
  st_owed : (owed f' < owed f)%nat;
  st_dom : dom (f_records f') = dom (f_records f) }.

Lemma settles_put f now k r r' : tidy f now -> f_records f !! k = Some r -> (attempts r' < attempts r)%nat ->
  settles now f (put_rec f k r').
Proof.
  intros Ht Hk Ha. pose proof (owed_put f k r r' Hk) as Ho. split; [by eapply tidy_same | lia | by eapply dom_put].
Qed.

Lemma live_attempts r : live r -> (0 < attempts r)%nat.
Proof. intros Hl. unfold attempts. rewrite decide_True by done. lia. Qed.

Lemma dead_attempts r : r_Status r = StatusCrawled \/ r_Status r = StatusGone -> attempts r = 0%nat.
Proof. intros Hd. unfold attempts. rewrite decide_False; [done |]. unfold live, queued. intuition congruence. Qed.

Lemma crawl_stamp_status r o : r_Status (crawl_stamp r o) = StatusCrawled.
Proof. unfold crawl_stamp. by destruct (r_FirstSeen _ =? 0). Qed.

Lemma crawl_change_status r o gone : r_Status r = StatusCrawled ->
  r_Status (crawl_change r o gone) = StatusCrawled \/ r_Status (crawl_change r o gone) = StatusGone.
Proof. intros Hr. unfold crawl_change. destruct gone; (case_match; [| case_match]); cbn; auto. Qed.

Lemma markCrawled_settles f key h o now r : tidy f now -> f_records f !! key = Some r -> live r ->
  oks (markCrawled f key h o now) (fun f' => settles now f f' /\ f_hosts f' = f_hosts f).
Proof.
  intros Ht Hr Hl. destruct (td_off _ _ Ht) as (_ & Hfr & Hpr). destruct (td_conf _ _ Ht) as [_ Hw].
  unfold markCrawled. destruct (get_rec f key) as [r0 |] eqn:E; [| done].
  unfold get_rec in E. rewrite Hr in E. injection E as <-. cbn [mbind res_bind].
  destruct (if negb _ && _ then _ else _) as [f1 r1] eqn:E1.
  assert (H1' : (exists so, f1 = with_soft f so) /\ (r_Status r1 = StatusCrawled \/ r_Status r1 = StatusGone)).
  { pose proof (crawl_stamp_status r o) as Hs. revert E1. destruct (negb _ && _).
    - destruct (soft_Observe _ _ _ _) as [so g]. intros [= <- <-]. split; [by exists so | by apply crawl_change_status].
    - intros [= <- <-]. split; [exists (f_soft f); by destruct f | by left]. }
  destruct H1' as [[so ->] Hd]. clear E1.
  apply (oks_bind _ _ (fun '(f2, r2) => (exists a, f2 = with_arena (with_soft f so) a) /\ (r_Status r2 = StatusCrawled \/ r_Status r2 = StatusGone))).
  { assert (Hd' : let r1' := if o_NotModified o then set_NoChangeStreak r1 (u16 (r_NoChangeStreak r1 + 1)) else r1 in
      r_Status r1' = StatusCrawled \/ r_Status r1' = StatusGone) by by destruct (o_NotModified o).
    cbv zeta in Hd'. case_bool_decide; [split; [exists (f_arena f); by destruct f | done] |].
    eapply oks_bind; [apply intern_arena |]. intros [f2 ref] [a ->]. split; [by exists a | done]. }
  intros [f2 r2] [[a ->] Hd2]. set (r3 := if o_LastModified o =? 0 then r2 else _).
  assert (Hd3 : r_Status r3 = StatusCrawled \/ r_Status r3 = StatusGone) by (unfold r3; by destruct (_ =? 0)).
  cbn [put_rec with_records with_arena with_soft f_fresh f_prio]. rewrite Hfr.
  cbn [mbind res_bind put_rec with_records with_arena with_soft f_prio]. rewrite Hpr.
  cbn [mbind res_bind]. unfold get_rec. cbn [put_rec with_records with_arena with_soft f_records]. rewrite lookup_insert_eq. cbn [mbind res_bind put_rec with_records with_arena with_soft f_conf]. rewrite Hw.
  cbn [andb oks]. split; [| done].
  assert (Ht' : tidy (with_arena (with_soft f so) a) now) by by eapply tidy_same.
  destruct (settles_put (with_arena (with_soft f so) a) now key r r3) as [? ? ?]; [done | done | | by split].
  rewrite (dead_attempts r3) by done. by apply live_attempts.
Qed.

Lemma failURL_settles f key hk o now r : tidy f now -> f_records f !! key = Some r -> live r ->
  oks (failURL f key (Some hk) o) (fun f' => settles now f f' /\ forall hk', flying f' hk' -> flying f hk').
Proof.
  intros Ht Hr Hl. unfold failURL, get_rec. rewrite Hr. cbn [mbind res_bind].
  set (r1 := if r_ErrorCount r <? _ then _ else r). set (r2 := if r_RetryCount r1 <? _ then _ else r1).
  assert (E1 : r_RetryCount r1 = r_RetryCount r) by (unfold r1; by destruct (_ <? _)).
  destruct (_ || _) eqn:Eg; cbn [oks].
  { split; [| done]. eapply settles_put; [done | done |]. rewrite dead_attempts by by right. by apply live_attempts. }
  apply orb_false_iff in Eg as [_ Eg]. bool_prop.
  set (r3 := set_NextDue _ _). assert (Hs : settles now f (put_rec f key r3)).
  { eapply settles_put; [done | done |]. unfold attempts. rewrite (decide_True (P := live r)) by done.
    rewrite decide_True by (left; by left). unfold r3. cbn [r_RetryCount set_NextDue set_Status].
    unfold r2 in Eg |- *. rewrite E1 in *. unfold maxRetries in *. destruct (r_RetryCount r <? 5) eqn:E5; cbn [r_RetryCount set_RetryCount] in *; bool_prop; lia. }
  eapply oks_bind; [apply get_host_oks |]. intros h Hh. cbn [oks]. split.
  - destruct Hs as [? ? ?]. split; [| done | done]. eapply tidy_host; [done | exact Hh | by split].
  - intros hk'. by apply (flying_put (put_rec f key r3) hk h).
Qed.

Lemma adapt_clock cfg h o : same_clock h (adapt cfg h o).
Proof.
  unfold adapt. destruct (if AtCeiling _ _ && _ then _ else _) as [streak rec] eqn:E.
  revert E. repeat case_match; intros [= <- <-]; by split.
Qed.

Lemma settle_host_tidy f hk o now : tidy f now -> oks (settle_host f hk o now) (fun f' =>
  tidy f' now /\ (owed f' <= owed f)%nat /\ dom (f_records f') = dom (f_records f) /\
  forall hk', flying f' hk' -> flying f hk' /\ hk' <> hk).
Proof.
  intros Ht. unfold settle_host. eapply oks_bind; [apply get_host_oks |]. intros h Hh.
  pose proof (adapt_clock (fc_pol (f_conf f)) h o) as Hc. set (h' := he_set_inFlight _ false).
  assert (Hfl : forall h2 hk', he_inFlight h2 = false -> flying (put_host f hk h2) hk' -> flying f hk' /\ hk' <> hk).
  { intros h2 hk' Hi (h3 & Hl & Hf). cbn [put_host with_hosts f_hosts] in Hl.
    apply lookup_insert_Some in Hl as [[<- <-] | [Hne Hl]]; [congruence |]. split; [by exists h3 | done]. }
  case_bool_decide; cbn [oks].
  - split; [| split; [done | split; [done | intros hk'; by apply (Hfl (he_set_active h' false))]]].
    eapply tidy_same; [eapply (tidy_host f now hk h (he_set_active h' false)); done | done ..].
  - assert (Ht' : tidy (put_host f hk h') now) by by apply (tidy_host f now hk h h').
    eapply oks_mono; [eapply place_advances; [exact Ht' | apply lookup_insert_eq] |]. intros f' [? ? ? ? Hf ? ?].
    split_and!; try done. intros hk' Hk'%Hf. by apply (Hfl h').
Qed.

(** An outcome for a URL in flight settles it or uses up one of its attempts. *)
Lemma Report_settles f s o now : sound c fr f s -> tidy f now -> s_status s !! o_URLKey o = Some StatusInFlight ->
  o_RedirectTarget o = [] -> oks (Report f o now) (fun f' => settles now f f' /\
    forall hk, flying f' hk -> flying f hk /\ hk <> HostKey (o_URLKey o)).
Proof.
  intros Hs Ht Hk Hred. destruct (snd_rec_of _ _ _ _ Hs _ _ Hk) as (r & Hr & Hst).
  destruct (place_flying _ _ _ _ Hs _ Hk) as (b & Hl & Hb). destruct (snd_host_of _ _ _ _ Hs _ _ _ Hl) as (h & Hh & Hhs).
  pose proof (snd_rec _ _ _ _ Hs (o_URLKey o)) as Hrr. rewrite Hr in Hrr. inversion Hrr as [? x Hx |]; subst.
  pose proof (rs_host _ _ _ _ Hx) as Ehk. set (key := o_URLKey o) in *.
  unfold Report. rewrite (proj1 (td_conf _ _ Ht)). fold key. rewrite Hr. unfold report_content. fold key. rewrite Ehk, Hh.
  set (g := if bool_decide _ then _ else f).
  assert (Hg : tidy g now /\ f_records g = f_records f /\ forall hk, flying g hk -> flying f hk).
  { unfold g. case_bool_decide; [| by split].
    split; [by eapply tidy_host |]. split; [done |]. intros hk. by apply (flying_put f _ h). }
  clearbody g. destruct Hg as (Htg & Hrg & Hhg). set (r1 := set_HTTPStatus r _). set (g1 := put_rec g key r1).
  assert (Hl1 : live r1) by (right; exact Hst). assert (Ht1 : tidy g1 now) by by eapply tidy_same.
  assert (Hr1 : f_records g1 !! key = Some r1) by apply lookup_insert_eq.
  assert (Ho1 : owed g1 = owed f /\ dom (f_records g1) = dom (f_records f)).
  { unfold owed. cbn [g1 put_rec with_records f_records]. rewrite Hrg. pose proof (owed_replace (f_records f) key r r1 Hr) as Ho.
    rewrite (attempts_same r r1) in Ho by done. split; [lia |]. apply dom_insert_lookup_L. by exists r. }
  apply (oks_bind _ _ (fun f2 => settles now f f2 /\ forall hk, flying f2 hk -> flying f hk)).
  { assert (Hm : oks (markCrawled g1 key (Some (HostKey key)) o now) (fun f2 => settles now f f2 /\ forall hk, flying f2 hk -> flying f hk)).
    { eapply oks_mono; [by apply (markCrawled_settles g1 key _ o now r1) |]. intros f2 [[? ? Hd] Hh2]. destruct Ho1 as [Ho1 Hd1].
      split; [split; [done | lia | by rewrite Hd] |]. intros hk. unfold flying at 1. rewrite Hh2. apply Hhg. }
    unfold apply_outcome. destruct (fc_stateOn _); [| exact Hm]. destruct (o_NotModified o); [exact Hm |].
    rewrite (bool_decide_eq_false_2 (o_RedirectTarget o <> [])) by (rewrite Hred; intros Hn; by apply Hn).
    cbn [orb]. destruct (_ && _).
    - unfold recordRedirect. rewrite (bool_decide_eq_true_2 (o_RedirectTarget o = [])) by done. exact Hm.
    - destruct (_ || _); [| exact Hm]. eapply oks_mono; [by apply (failURL_settles g1 key (HostKey key) o now r1) |].
      intros f2 [[? ? Hd] Hf2]. destruct Ho1 as [Ho1 Hd1]. split; [split; [done | lia | by rewrite Hd] |].
      intros hk Hk2%Hf2. by apply Hhg. }
  intros f2 [[Ht2 Ho2 Hd2] Hf2]. eapply oks_mono; [by apply settle_host_tidy |]. intros f3 (Ht3 & Ho3 & Hd3 & Hf3).
  split; [split; [done | lia | by rewrite Hd3] |]. intros hk [Hk3 Hne]%Hf3. split; [by apply Hf2 | done].
Qed.

(** ** The end of the loop *)

Definition settled f : Prop := forall k r, f_records f !! k = Some r -> ~ live r.

Lemma no_work_settled f s now : sound c fr f s -> tidy f now -> 1 <= effectiveTarget f -> stalled f now -> f_wait f = [] ->
  (forall hk, ~ flying f hk) -> settled f.
Proof.
  intros Hs Ht Htg (Hnr & _ & Hbo) Hw Hfl. destruct (td_off _ _ Ht) as (_ & Hfr & _).
  pose proof (snd_conf _ _ _ _ Hs) as Ec. destruct (td_conf _ _ Ht) as [Hrob Hwh]. rewrite Ec in Hrob, Hwh.
  pose proof (snd_fresh _ _ _ _ Hs Hfr) as Efr. pose proof (snd_inv _ _ _ _ Hs) as Hi.
  assert (Hidle : forall hk m b, s_hosts s !! hk = Some (m, b) -> m = Idle).
  { intros hk m b Hl. destruct (snd_host_of _ _ _ _ Hs _ _ _ Hl) as (h & Hh & Hhs).
    pose proof (si_mode _ _ _ _ Hi _ _ _ Hl) as Hmo. pose proof (hs_inFlight _ _ _ _ Hhs) as Hin.
    pose proof (at_rest _ _ _ _ Hs _ _ _ Hl) as Hrest. rewrite Hrob in Hmo.
    destruct m as [| | | | | | o]; cbn in *; try done; try (by destruct Hmo).
    - assert (Hin' : hk ∈ wait_hosts f) by (apply (proj2 (snd_wait _ _ _ _ Hs)); by exists b).
      unfold wait_hosts in Hin'. rewrite Hw in Hin'. by apply not_elem_of_nil in Hin'.
    - assert (Hin' : hk ∈ ready_hosts f) by (apply (proj2 (snd_ready _ _ _ _ Hs)); by exists b).
      destruct (td_ready _ _ Ht) as (l & Hb & _). exfalso. apply Hnr. exists l. split; [done |]. intros ->.
      unfold ready_hosts in Hin'. rewrite (bank_items_perm _ _ Hb) in Hin'. by apply not_elem_of_nil in Hin'.
    - exfalso. apply (Hfl hk). by exists h.
    - exfalso. by destruct (proj2 (proj2 Hs) hk o b). }
  assert (Hact : f_active f = 0).
  { pose proof Hs as [[? ? ? ? ? ? ? ? ? Ha] _]. rewrite Ha. unfold active_count.
    assert (E : filter (fun e : Z * (mode * list URLKey) => e.2.1 <> Idle) (s_hosts s) = ∅).
    { apply map_empty. intros hk. apply map_lookup_filter_None. right. intros [m b] Hl. cbn. intros Hn. by apply Hn, (Hidle hk m b). }
    by rewrite E. }
  assert (Hfront : s_front s = []).
  { destruct Hbo as [Hp | Hp]; [| lia]. pose proof Hs as [[? ? ? ? ? ? Hrh] _].
    pose proof (pop_holds _ _ Hrh) as Hpp. by rewrite Hp in Hpp. }
  intros k r Hr [Hq | Hq]; pose proof (snd_rec_at _ _ _ _ Hs _ _ Hr) as Hst.
  - destruct (place_queued _ _ _ _ Hs k _ Efr Hst Hq) as [Hk | [Hk | (m & b & Hl & Hk)]].
    + rewrite Hfront in Hk. by apply not_elem_of_nil in Hk.
    + pose proof (si_status _ _ _ _ Hi k) as Hsk. unfold place_at in Hsk.
      rewrite place_of_pend in Hsk; [| rewrite Hfront; apply not_elem_of_nil | done]. by rewrite Hwh in Hsk; destruct Hsk.
    + pose proof (Hidle _ _ _ Hl) as ->. pose proof (si_mode _ _ _ _ Hi _ _ _ Hl) as Hb. cbn in Hb. subst b.
      by apply not_elem_of_nil in Hk.
  - rewrite Hq in Hst. destruct (place_flying _ _ _ _ Hs k Hst) as (b & Hl & _). by pose proof (Hidle _ _ _ Hl).
Qed.

(** ** The loop *)

Context {FS : Type} (fetch : FS -> Request -> FS * option Outcome).

(** A fetcher that answers every request, without redirecting. *)
Definition fetches : Prop := forall st q, exists o, (fetch st q).2 = Some o /\
  o_URLKey o = q_URLKey q /\ o_RedirectTarget o = [] /\ outcome_ok o.

Lemma NextEligible_wait f : fc_wheelOn (f_conf f) = false -> NextEligible f = wi_eligible <$> head (f_wait f).
Proof. intros Hw. unfold NextEligible. by rewrite Hw. Qed.

Lemma drain_good fuel f s st now out : fetches -> sound c fr f s -> tidy f now -> hour_ok (now / 3600) ->
  1 <= effectiveTarget f -> (forall hk, ~ flying f hk) ->
  (ripe_at f now /\ 2 * owed f + 1 <= fuel)%nat \/ (2 * owed f + 2 <= fuel)%nat ->
  good (drain_loop fetch fuel f st now out) (fun '(f', _, _) => settled f' /\ dom (f_records f') = dom (f_records f)).
Proof.
  intros Hfetch. revert f s st now out. induction fuel as [| fuel IH]; intros f s st now out Hs Ht Hn Htg Hfl Hfu; [lia |].
  cbn [drain_loop]. unfold Dispatch.
  assert (Hwb : forall it h, it ∈ f_wait f -> f_hosts f !! wi_hostKey it = Some h -> he_back h <> []).
  { intros it h Hit Hh. destruct (sound_books _ _ Hs) as [pend Hb].
    destruct (fs_parked _ _ Hb (wi_hostKey it)) as (h2 & Hh2 & Hne & _).
    - apply elem_of_app. left. by apply list_elem_of_fmap_2.
    - congruence. }
  pose proof (sound_step c fr f s (OpDispatch now 0) Hs Hn) as Hg. cbn [frontier_do] in Hg.
  pose proof (dispatch_oks f s now 0 (proj1 Hs) (proj1 (proj2 Hs)) Ht Hwb) as Ho.
  destruct (DispatchShard f now 0) as [[f1 q] | e] eqn:Ed; [| exact Hg]. cbn [mbind res_bind].
  destruct Hg as (s1 & _ & Hs1 & Hreq).
  destruct Ho as (Ht1 & Ho1 & Hd1 & (hk & Hf1) & Hripe & Hst); [by exists s1 |].
  assert (Htg1 : effectiveTarget f1 = effectiveTarget f)
    by (unfold effectiveTarget; by rewrite (snd_conf _ _ _ _ Hs1), (snd_conf _ _ _ _ Hs)).
  destruct q as [q |].
  - destruct (Hfetch st q) as (o & Eo & Hok & Hor & Hoo). destruct (fetch st q) as [st' o']. cbn in Eo. subst o'.
    assert (Hnr : q_Robots q = false).
    { unfold requested in Hreq. destruct (q_Robots q); [| done]. destruct Hreq as (_ & b & Hl).
      pose proof (si_mode _ _ _ _ (snd_inv _ _ _ _ Hs1) _ _ _ Hl) as [_ Hr]. destruct (td_conf _ _ Ht) as [Hr' _].
      rewrite (snd_conf _ _ _ _ Hs) in Hr'. by rewrite Hr' in Hr. }
    unfold requested in Hreq. rewrite Hnr in Hreq. destruct Hreq as (Hqs & Hqh & b & Hql).
    rewrite <- Hok in Hqs.
    assert (Hans : op_ok f1 (OpReport o now)).
    { split; [left | done]. destruct (snd_rec_of _ _ _ _ Hs1 _ _ Hqs) as (r & Hr & Hrs). by exists r. }
    pose proof (sound_step c fr f1 s1 (OpReport o now) Hs1 Hans) as Hg2. cbn [frontier_do] in Hg2.
    pose proof (Report_settles f1 s1 o now Hs1 Ht1 Hqs Hor) as Hse.
    destruct (Report f1 o now) as [f2 | e]; [| exact Hg2]. cbn [mbind res_bind].
    destruct Hg2 as (s2 & _ & Hs2 & _). destruct Hse as [[Ht2 Ho2 Hd2] Hf2].
    eapply good_mono; [apply (IH f2 s2 st' now _ Hs2 Ht2 Hn) |].
    + unfold effectiveTarget in *. rewrite (snd_conf _ _ _ _ Hs2). by rewrite (snd_conf _ _ _ _ Hs) in Htg.
    + intros hk2 [Hx Hne]%Hf2. destruct (Hf1 _ Hx) as [Hy | [_ ->]]; [by apply (Hfl hk2) |].
      (* the only host in flight was the request's *)
      destruct (snd_host_of _ _ _ _ Hs1 _ _ _ Hql) as (h & Hh & Hhs).
      destruct (Hf1 (q_HostKey q)) as [Hy | [_ Hy]]; [exists h; split; [done | apply (hs_inFlight _ _ _ _ Hhs)] | by apply (Hfl (q_HostKey q)) |].
      apply Hne. by rewrite Hok, <- Hqh.
    + right. lia.
    + intros [[f' st2] out'] [? Hd']. split; [done |]. by rewrite Hd', Hd2.
  - specialize (Hst eq_refl). assert (Hfl1 : forall hk, ~ flying f1 hk).
    { intros hk2 Hx. destruct (Hf1 _ Hx) as [Hy | [? _]]; [by apply (Hfl hk2) | done]. }
    rewrite NextEligible_wait by apply (td_conf _ _ Ht1). destruct (f_wait f1) as [| it w] eqn:Ew; cbn [head fmap option_fmap option_map].
    { split; [| done]. apply (no_work_settled f1 s1 now); [done | done | by rewrite Htg1 | done ..]. }
    destruct Hst as (Hst1 & Hst2 & Hst3). rewrite Ew in Hst2. apply Forall_cons in Hst2 as [Hlt Hst2].
    rewrite (proj2 (Z.leb_gt _ _)) by lia.
    destruct (td_wait _ _ Ht1 it) as (h & Hh & He); [rewrite Ew; by left |]. destruct (td_hosts _ _ Ht1 _ _ Hh) as (_ & _ & Hdue).
    eapply good_mono; [apply (IH f1 s1 st (wi_eligible it) _ Hs1) |].
    + apply (tidy_later _ now); [done | lia].
    + unfold hour_ok in *. rewrite He. Z.div_mod_to_equations. lia.
    + by rewrite Htg1.
    + done.
    + left. split; [unfold ripe_at; rewrite Ew; by left |]. destruct Hfu as [[Hr _] | Hfu]; [by destruct (Hripe Hr) | lia].
    + intros [[f' st2] out'] [? Hd']. split; [done |]. by rewrite Hd'.
Qed.

End Steps.

(** ** A frontier that was only filled *)

Record untouched f : Prop := {
  ut_hosts hk h : f_hosts f !! hk = Some h -> h_HostKey (he_rec h) = hk /\ h_ResolvedIP (he_rec h) = zeroIP /\
    due_of h = 0 /\ he_inFlight h = false;
  ut_pools : f_wait f = [] /\ bank_holds (f_readyHosts f) [];
  ut_off : f_resolver f = None /\ f_fresh f = None /\ f_prio f = None }.

Lemma untouched_same f f' : untouched f -> f_hosts f' = f_hosts f -> f_wait f' = f_wait f -> f_readyHosts f' = f_readyHosts f ->
  f_resolver f' = f_resolver f -> f_fresh f' = f_fresh f -> f_prio f' = f_prio f -> untouched f'.
Proof. intros [] Eh Ew Er E1 E2 E3. split; by rewrite ?Eh, ?Ew, ?Er, ?E1, ?E2, ?E3. Qed.

Lemma untouched_put f hk h : untouched f -> h_HostKey (he_rec h) = hk -> h_ResolvedIP (he_rec h) = zeroIP ->
  due_of h = 0 -> he_inFlight h = false -> untouched (put_host f hk h).
Proof.
  intros [Hh ? ?] Hk Hi Hd Hf. split; try done.
  cbn [put_host with_hosts f_hosts]. intros hk2 h2 [[<- <-] | [_ Hl]]%lookup_insert_Some; [done | by apply Hh].
Qed.

(** A host written back with its clock, as the intake does. *)
Lemma untouched_host f hk h h' : untouched f -> f_hosts f !! hk = Some h -> same_clock h h' -> he_inFlight h' = he_inFlight h ->
  untouched (put_host f hk h').
Proof. intros Hu Hh (Hd & Hi & Hk) Hf. destruct (ut_hosts _ Hu _ _ Hh) as (? & ? & ? & ?). apply untouched_put; congruence. Qed.

Lemma untouched_tidy f now : untouched f -> 0 <= now -> fc_robotsOn (f_conf f) = false -> fc_wheelOn (f_conf f) = false ->
  tidy f now /\ forall hk, ~ flying f hk.
Proof.
  intros [Hh [Hw Hb] Ho] Hn Hr Hwh. split; [split; try done |].
  - intros hk h Hl. destruct (Hh _ _ Hl) as (? & ? & Hd & _). rewrite Hd. done.
  - rewrite Hw. intros i Hi. cbn in Hi. lia.
  - rewrite Hw. by intros it ?%not_elem_of_nil.
  - exists []. split; [done |]. by intros hk ?%not_elem_of_nil.
  - intros hk (h & Hl & Hf). destruct (Hh _ _ Hl) as (_ & _ & _ & Hf'). congruence.
Qed.

Lemma ensureHost_untouched f hk x d : untouched f -> oks (ensureHost f hk x d) untouched.
Proof.
  intros Hu. unfold ensureHost. destruct (f_hosts f !! hk); [done |].
  eapply oks_bind; [apply intern_arena |]. intros [f1 ref] [a ->].
  destruct (newHost _ _ _ _ _) as [f2 h] eqn:E. cbn [oks].
  assert (Hs : untouched f2 /\ h_HostKey (he_rec h) = hk /\ h_ResolvedIP (he_rec h) = zeroIP /\ due_of h = 0 /\ he_inFlight h = false).
  { revert E. unfold newHost. cbn [with_arena f_importedHostScore f_resolver].
    destruct (f_importedHostScore f !! hk); cbn [with_importedHostScore with_arena f_resolver];
      rewrite (proj1 (ut_off _ Hu)); intros [= <- <-]; (split; [by eapply untouched_same | done]). }
  destruct Hs as (? & ? & ? & ? & ?). by apply untouched_put.
Qed.

Lemma Discover_untouched f d now : untouched f -> oks (Discover f d now) (fun '(f', _) => untouched f').
Proof.
  intros Hu. destruct (ut_off _ Hu) as (_ & _ & Hpr). unfold Discover. destruct (Seen _ _) as [seen dup].
  assert (Hu1 : untouched (with_seen f seen)) by by eapply untouched_same. destruct dup.
  - cbn [with_seen f_prio]. rewrite Hpr. exact Hu1.
  - eapply oks_bind; [by apply ensureHost_untouched |]. intros f1 Hf1. destruct (ut_off _ Hf1) as (_ & _ & ->).
    destruct (trap_Observe _ _ _ _ _) as [traps new]. eapply oks_bind; [apply get_host_oks |]. intros h Hh.
    eapply oks_bind; [apply intern_arena |]. intros [f4 ref] [a ->].
    match goal with |- oks (if _ then Ok (frontPush ?g _ _ _, _) else _) _ => assert (Hg : untouched g) end.
    { apply (untouched_host _ _ h); [by eapply untouched_same | exact Hh | by destruct new | by destruct new]. }
    destruct (decide _); cbn [oks]; [unfold frontPush; destruct (fc_bounded _); by eapply untouched_same | exact Hg].
Qed.

Lemma schedule_untouched f k r now e : untouched f -> untouched (schedule f k r now e).
Proof. intros Hu. unfold schedule, frontPush. destruct (_ && _); [| destruct (fc_bounded _)]; by eapply untouched_same. Qed.

Lemma Seed_untouched f url host p seen due delay : untouched f -> oks (Seed f url host p seen due delay) untouched.
Proof.
  intros Hu. unfold Seed. destruct (Seen _ _) as [ss dup]. destruct dup; [by eapply untouched_same |].
  eapply oks_bind; [apply intern_arena |]. intros [f1 ref] [a ->].
  eapply oks_bind; [apply ensureHost_untouched; by eapply untouched_same |]. intros f2 Hf2.
  eapply oks_bind; [apply get_host_oks |]. intros h Hh. cbn [put_host with_hosts f_prio].
  destruct (ut_off _ Hf2) as (_ & _ & ->). cbn [oks]. apply schedule_untouched. by apply (untouched_host _ _ h).
Qed.

(** The calls that fill a frontier. *)
Definition intake (o : frontier_op) : Prop := match o with OpDispatch _ _ | OpReport _ _ => False | _ => True end.

Lemma intake_untouched f o : untouched f -> intake o -> oks (frontier_do f o) (fun '(f', _) => untouched f').
Proof.
  intros Hu Ho. destruct o; try done; cbn [frontier_do].
  - pose proof (Seed_untouched f url host priority firstSeen nextDue crawlDelay Hu) as Hs. by destruct (Seed _ _ _ _ _ _ _).
  - pose proof (Discover_untouched f d now Hu) as Hs. by destruct (Discover _ _ _) as [[? ?] |].
  - assert (Hs : oks (Warm f key etag lastModified prevDigest) untouched); [| by destruct (Warm _ _ _ _ _)].
    unfold Warm. destruct (_ !! _); [| done]. destruct (_ <? _); [done |].
    apply (oks_bind _ _ (fun '(f', _) => exists a, f' = with_arena f a)).
    + case_bool_decide; [exists (f_arena f); by destruct f |]. eapply oks_bind; [apply intern_arena |]. by intros [f1 ref].
    + intros [f1 r1] [a ->]. by eapply untouched_same.
  - cbn. unfold ImportURLSignal. by destruct (ut_off _ Hu) as (_ & _ & ->).
  - cbn. unfold ImportHostSignal. destruct (f_hosts f !! hs_HostKey u) eqn:Hl; [| by eapply untouched_same].
    by eapply untouched_host.
Qed.

Lemma intake_run f os : untouched f -> Forall intake os -> oks (frontier_run f os) (fun '(f', _) => untouched f').
Proof.
  intros Hu Ho. revert f Hu. induction Ho as [| o os Ho _ IH]; intros f Hu; cbn [frontier_run]; [done |].
  eapply oks_bind; [by apply intake_untouched |]. intros [f1 q] Hf1.
  eapply oks_bind; [by apply IH |]. by intros [f2 qs] Hf2.
Qed.

(** C4: Drain fetches everything, when nothing keeps it. Fill a new frontier without hooks (no
    robots.txt, due wheel, resolver, freshness or importance) by any calls of the intake, give the active
    set at least one slot, and drain it from any time with any fetcher that answers every
    request without a redirect. With two turns for every attempt still owed (six for a
    URL not tried yet) and two more, the loop ends, short only of memory, having neither
    panicked nor run out of turns: every URL is still known, and none is left queued or
    in flight; each was crawled, or given up as gone or a trap. *)
Theorem drain_settles_every_url {FS} (fetch : FS -> Request -> FS * option Outcome) (op : Options) (os : list frontier_op)
    (f : Frontier) (qs : list (option Request)) (st : FS) (now : Z) (fuel : nat)
    (HX : XXHashLaws) (HL : LinkLaws (op_conf op)) (Hm : 0 <= seen_m) (Hc : hour_ok (fc_created (op_conf op)))
    (Hoff : fc_robotsOn (op_conf op) = false /\ fc_wheelOn (op_conf op) = false /\ op_resolver op = None /\
      op_fresh op = None /\ op_prio op = None)
    (Htarget : 1 <= Z.max (fc_minActive (op_conf op)) (fc_target (op_conf op)))
    (Hin : Forall intake os) (Hos : run_ok (New op) os) (Hf : frontier_run (New op) os = Ok (f, qs))
    (Hfetch : fetches fetch) (Hnow : hour_ok (now / 3600)) (Hfuel : (2 * owed f + 2 <= fuel)%nat) :
  match drain_loop fetch fuel f st now [] with
  | Ok (f', _, _) => settled f' /\ dom (f_records f') = dom (f_records f)
  | Err e => e = OutOfMemory
  end.
Proof.
  destruct Hoff as (Hr & Hw & H1' & H2' & H3').
  destruct (run_floor op os f qs HX HL Hm Hc Hos Hf) as (Ec & _ & s & Hs).
  assert (Hu : untouched (New op)).
  { split; [| split; [done | apply newReadyBank_holds] | done]. intros hk h Hl. cbn in Hl. by rewrite lookup_empty in Hl. }
  pose proof (intake_run (New op) os Hu Hin) as Hrun. rewrite Hf in Hrun. cbn in Hrun.
  destruct (untouched_tidy f now Hrun) as [Ht Hfl]; [unfold hour_ok in Hnow; Z.div_mod_to_equations; lia | by rewrite Ec | by rewrite Ec |].
  pose proof (drain_good (op_conf op) (fresh_on op) fetch fuel f s st now [] Hfetch Hs Ht Hnow) as Hd.
  unfold effectiveTarget in Hd. rewrite Ec in Hd. specialize (Hd Htarget Hfl (or_intror Hfuel)).
  destruct (drain_loop fetch fuel f st now []) as [[[f' st'] out'] | e]; [exact Hd | by destruct e].
Qed.

End Drain.

(** ** A drain in the concrete world *)

Import Demo.

(** A server that fails the first five requests, then answers. *)
Definition flaky (n : nat) (q : Request) : nat * option Outcome :=
  (S n, Some (demo_outcome (q_URLKey q) (if (n <? 5)%nat then 503 else 200) 0)).
Definition drain_options : Options := demo_options 1 false true false.
Definition drain_seeds : list frontier_op :=
  [demo_seed (bytes_of "a.org") (bytes_of "/1"); demo_seed (bytes_of "a.org") (bytes_of "/2"); demo_seed (bytes_of "b.org") (bytes_of "/")].
Definition drain_start := out (New drain_options, []) (frontier_run (New drain_options) drain_seeds).

Lemma flaky_fetches : fetches flaky.
Proof.
  intros n q. eexists. split; [reflexivity |]. split; [done |]. split; [done |].
  split; [split; [discriminate | reflexivity] | constructor].
Qed.

(** Three pages and eight requests: the first page takes five failures of its turn's host,
    the second host waits for the only slot, and all three end crawled. *)
Example drain_settles_every_url_witness :
  owed drain_start.1 = 18%nat /\
  match drain_loop flaky 64 drain_start.1 0%nat 1000 [] with
  | Ok (f', n, out) => settled f' /\ dom (f_records f') = dom (f_records drain_start.1) /\ n = 8%nat /\
      dp_At <$> out = [1000; 1001; 1003; 1007; 1015; 1031; 1063; 1063]
  | Err _ => False
  end.
Proof.
  split; [vm_compute; reflexivity |].
  assert (Hend : match drain_loop flaky 64 drain_start.1 0%nat 1000 [] with Ok (_, n, out) => Some (n, dp_At <$> out) | Err _ => None end =
    Some (8%nat, [1000; 1001; 1003; 1007; 1015; 1031; 1063; 1063])) by (vm_compute; reflexivity).
  assert (Hm : 0 <= seen_m) by discriminate.
  assert (Hc : hour_ok (fc_created (op_conf drain_options))) by (split; [discriminate | reflexivity]).
  assert (Hin : Forall intake drain_seeds) by (repeat constructor).
  assert (Hok : run_ok (New drain_options) drain_seeds)
    by (apply (bool_decide_unpack (run_ok (New drain_options) drain_seeds)); vm_compute; exact I).
  assert (Hr : frontier_run (New drain_options) drain_seeds = Ok (drain_start.1, drain_start.2))
    by (unfold drain_start; apply (out_ok (New drain_options, []) (frontier_run (New drain_options) drain_seeds)); vm_compute; reflexivity).
  assert (Hn : hour_ok (1000 / 3600)) by (split; [discriminate | reflexivity]).
  assert (Hfuel : (2 * owed drain_start.1 + 2 <= 64)%nat) by (apply Nat.leb_le; vm_compute; reflexivity).
  pose proof (drain_settles_every_url flaky drain_options drain_seeds drain_start.1 drain_start.2 0%nat 1000 64
    demo_hash_laws (demo_link_laws (op_conf drain_options) eq_refl) Hm Hc) as Hd.
  specialize (Hd ltac:(repeat split) ltac:(discriminate) Hin Hok Hr flaky_fetches Hn Hfuel).
  destruct (drain_loop flaky 64 drain_start.1 0%nat 1000 []) as [[[f' n] out] | e]; [| discriminate Hend].
  destruct Hd as [Hs Hdm]. injection Hend as -> ->. split; [exact Hs |]. split; [exact Hdm |]. split; reflexivity.
Defined.
